(* ===== verification/_CoqProject ===== *)
-Q . S2P
Prelude.v
Errors.v
Json.v
JsMap.v
Effects.v
Interleave.v
Store.v
Codec.v
Jwt.v
Cache.v
Models.v
World.v
Stock.v
Transactions.v
Tokens.v
Process.v
KeyLifecycle.v
Concrete.v
Session.v
RateLimit.v
AccountState.v
Otp.v
AuditTrail.v
VerificationToken.v
Password.v
MagicLinks.v
JsNumber.v
Risk.v
Breach.v
Devices.v
Sentinels.v
Delivery.v
JobQueue.v
EventSourcing.v
DistributedLock.v
Regions.v
Webhooks.v
Randomness.v
Srp.v
SrpProtocol.v
WebAuthn.v
Passkeys.v
Totp.v
Encryption.v
Mfa.v
Policy.v
Authorization.v
Frames.v
ApiKeys.v
Middleware.v
OAuth.v
CodeGrants.v
Federation.v
AuthEngine.v
Login.v
Credentials.v
Flows.v
Tenancy.v
Migrations.v
ZeroKnowledge.v
PostQuantum.v
Hsm.v
WebSocket.v
Secrets.v
EnvConfig.v
Infrastructure.v
Routes.v
RouteSafety.v
Admin.v
AdminIsolation.v
Witnesses.v
EngineWitnesses.v
ServiceWitnesses.v
RouteWitnesses.v
InfraWitnesses.v
