(* ===== verification/Prelude.v ===== *)
(** * PEZHWAN identity platform: verification development

    PEZHWAN is an identity platform written in TypeScript: a multi-tenant
    authentication server with sessions, tokens, one-time codes, second factors,
    roles and an OAuth 2.1 authorization server, over MongoDB and Redis.  This
    library models the server side of it, [packages/core], [packages/crypto],
    [packages/oauth], [packages/express], the identity server and its migrations, as
    executable definitions translated from the source, and proves what makes it
    correct.

    ** How the model is built

    - A handler is a program, a tree of atomic actions (file [Effects]): one
      database command, one cache command, one reading of the clock, one draw of
      the random source.  [run] executes it alone; [Interleave] executes a pool of
      programs with any interleaving of their actions and an environment that may
      act between any two of them.  The same definition serves both.
    - [World] is the shared state: the MongoDB collections, the cache, the signing
      keys, the clock, the outbox.  Any database command can fail, before or after
      its write was applied: [faults] lists the failures to come, so a theorem
      that does not assume [healthy] holds whatever fails.
    - What is not in the repository is a parameter with the documented behaviour
      as the laws of a class: the MongoDB driver ([Mongo], file [Store]), Redis
      ([RedisLike], file [Cache]), Node's crypto and Argon2 ([Platform],
      [JwtCryptoLaws], [JwtLibraryLaws], [AeadLaws], [Argon2Laws]).  [Concrete] instantiates all of
      them, and the witnesses run the definitions on that instance.
    - Exceptions are values of [exn] (file [Errors]), with the classes, codes and
      statuses of [packages/shared/src/errors.ts].

    ** The files and what they model

    - [Prelude], [Errors], [Json], [JsMap], [Effects], [Interleave], [Store],
      [Codec], [Models], [World], [Stock]: shared lemmas, errors, JSON, ordered
      maps, programs, interleavings, the store interface, base64/base32/hex, the
      documents of [core/src/models], the world and its commands, and the proof
      rule for single-use resources.
    - [Cache]: [services/redisCache.ts]; the bounded in-process cache and the
      fall-back from Redis to it, which refine one promise about what a key may
      answer, for calls in the range of what Redis accepts.
    - [Jwt], [Tokens]: [crypto/src/jwt.ts], [services/keyStore.service.ts],
      [services/token.service.ts]; signing keys with rotation, EdDSA, ML-DSA and
      hybrid tokens, DER/JOSE signatures, access, ID and refresh tokens; RS256 and
      ES256 alone are [jsonwebtoken]'s, whose round trip is [JwtLibraryLaws].
    - [Transactions]: [services/infrastructure/mongo-transactions.ts].
    - [Session]: [services/session.service.ts]; creation under a limit, refresh
      with rotation and reuse detection, revocation, liveness.
    - [RateLimit], [AccountState], [Otp], [AuditTrail], [VerificationToken]: the
      services of these names.
    - [Password], [Totp], [Encryption], [Mfa]: [services/password.service.ts] and
      [crypto/src/password.ts], [crypto/src/totp.ts], [crypto/src/encryption.ts],
      [services/mfa.service.ts].
    - [Policy], [Authorization]: [services/authorization/policy-engine.ts],
      [abac.service.ts], [permission.service.ts], [services/authorization.service.ts].
    - [OAuth]: [services/oauth.service.ts].
    - [AuthEngine]: [auth/auth.engine.ts], the flows that compose the services.
      [Frames] says what issuing a session leaves alone; [Login], [Credentials]
      and [Flows] hold the theorems about the flows.
    - [Srp]: [services/auth/srp.service.ts]; SRP-6a over big integers.
    - [WebAuthn], [Passkeys]: [crypto/src/webauthn.ts], CBOR, attestation objects
      and signatures over buffers of bytes, and
      [services/auth/webauthn.service.ts], the ceremonies, proved against the
      interface [Verifiers] that the former implements.
    - [ApiKeys], [JobQueue], [DistributedLock], [Webhooks]:
      [services/apiKey.service.ts], [services/events/job-queue.ts],
      [services/infrastructure/distributed-lock.ts],
      [services/events/webhook.service.ts].  The queue and the lock have a state
      of their own; the lock server is the interface [LockServer] with its laws.
    - [Randomness]: [crypto/src/random.ts], [crypto/src/timing-safe.ts].
    - [Process]: services whose state lives in the process; [EventSourcing]:
      [services/events/event-bus.ts] and [events/event-sourcing/];
      [MagicLinks]: [services/auth/magic-link.service.ts] and
      [passwordless.service.ts]; [KeyLifecycle]:
      [services/infrastructure/key-store.service.ts]; [Regions]:
      [services/infrastructure/region-manager.ts].
    - [CodeGrants], [Federation]: [packages/oauth/src] and
      [services/oauth/federated.service.ts]; codes over the interface
      [AuthorizationCodeStore], the token endpoint, ID tokens, linked identities.
    - [SrpProtocol]: [crypto/src/srp.ts].
    - [Middleware]: [packages/express/src] ([security.ts], [index.ts], [apikey.ts],
      [rateLimit.ts]) and the CSRF and fresh-permission helpers of
      [core/src/middleware], composed with tokens, account state and roles.
    - [JsNumber], [Process]: IEEE doubles as JavaScript computes with them, and
      services that keep their collections in a state of their own.
    - [Delivery]: [core/src/adapters/otp-provider.ts] and
      [otp-delivery-manager.ts]; [Risk]: [services/security/risk.service.ts],
      [bot-detector.service.ts] and the risk and MFA middlewares; [Breach]:
      [hibp.service.ts] and [breach-detector.service.ts]; [Devices]:
      [services/session/device.service.ts], [trust.service.ts] and the middlewares
      over them; [Sentinels]: [decoy.service.ts] and [captcha.service.ts].
    - [Routes]: [core/src/pezhwan.ts], the services a configuration makes;
      [express/src/routes.ts], [routes.extra.ts],
      [routes.oauth.ts], [websocket/auth.ts]; each route is a handler behind the
      middleware it is mounted with.  [RouteSafety] holds their theorems.
    - [Admin]: [apps/identity-server/src/admin.ts]; [AdminIsolation] holds the
      theorems, and the webhook routes.
    - [WebSocket]: [express/src/websocket/server.ts] and [events.ts]; frames, clients,
      broadcast.
    - [Tenancy]: [services/tenant], [services/ecosystem] and
      [services/developer/api-usage.service.ts]; tenants, teams, quotas, usage,
      subscriptions.
    - [Migrations]: [migrations/migration-runner.ts],
      [003-add-audit-sequence.ts], [004-mfa-secrets-encryption.ts] with its
      roll-backs.
    - [PostQuantum], [ZeroKnowledge], [Hsm]: [crypto/src/pq],
      [crypto/src/zk], [crypto/src/hsm]; the primitives, SDKs and devices are
      parameters.  [ApiKeys] holds [services/auth/certificate.service.ts] too.
    - [Secrets]: [core/src/secretProvider.ts]; [EnvConfig]:
      [apps/identity-server/src/config/env.ts] and [core/src/config/env.ts];
      [Infrastructure]: [services/infrastructure/connection-pool.ts] and
      [redis-manager.ts], [query-optimizer.ts] and [core/src/plugins].
    - [Concrete] and the files whose names end in [Witnesses]: the platform to execute
      on, the properties applied at concrete inputs, and runs that show the
      divergences.

    Each file names the functions of the source next to their definitions, which
    keep the source's names where two services do not share one.

    ** What the theorems show

    - Single use, under any interleaving, failures and expiries: refresh tokens,
      authorization codes, and links whichever flow they are presented to.  While
      Redis is down and MongoDB answers, the durable counter decides a request limit,
      and it alone: what Redis had counted is not carried over.
    - Authentication: password logins, completed second factors, magic links and
      registrations let in exactly who they should; five wrong passwords, or five
      wrong codes, lock; a completed login grants access with the roles of the
      store; changing or resetting a password ends what was issued before.
    - Tokens: a token the package verifies itself was signed by the key and is within
      its times, the others are left to the library with the key and the options of
      the caller; an issued token of any asymmetric algorithm verifies to the identity
      it was issued for.
    - Authorization: a permission is held exactly when a role of that tenant and
      application grants it; revoking a role takes effect at once; policies do not
      cross tenants.
    - OAuth: the token endpoint answers only authenticated clients that hold a
      valid code and verifier; a wrong verifier revokes the session.
    - Audit trail: while no command fails, writers in transactions keep one gap-free
      chain; logging never interferes with the operation it logs.
    - Encodings and second factors: base32, the sealed secret and its versions,
      RFC 4226 truncation, the window of accepted codes.
    - Passkeys and SRP: a ceremony is answered once, by a stored and unrevoked
      credential; what the CBOR writer and [buildAttestationObject] lay out is read
      back where the reader supports it, and where it does not (negative labels,
      text keys) sign-in and registration are refused; an honest SRP client is
      accepted, and only the expected proof is.
    - Infrastructure: the lock excludes under any interleaving while its client is
      ready, a drain of the queue gives every due job to its handler exactly once, a webhook delivery ends, generated UUIDs have
      their shape, shuffling permutes, constant-time comparisons decide equality.
    - HTTP: a guarded route is reached only with a verified token whose claims grant
      the permission and, for a person, whose account is valid; a fresh permission
      is one the database grants now; CORS and CSRF let through what they say.
    - State in the process: streams stay numbered, replays agree, a region event is
      handled once in its window, there is one primary region, signing keys only
      move forward.
    - Packages: an authorization code is redeemed once over any lawful store; an ID
      token is signed by the resolved key and answers issuer, audience and nonce;
      what the two sides of the SRP module really derive.
    - Risk and devices: more evidence never lowers a score; a second factor is
      skipped exactly on a trusted device that is no bot; a delivery of a code fails
      closed; a password look-up reveals five digits of its hash; a hit on a decoy is
      counted once.
    - Routes: a session is ended only by its owner; no modelled administration route but the
      two that assign and remove roles writes to a user of another tenant, and those
      raise a token version; and what an address, a code or a socket reaches that it
      should not.
    - WebSocket: what is read does not depend on how the bytes are cut, a frame
      written is the frame read, and what is kept is bounded.
    - Migrations: a run only upgrades secrets, a roll-back restores them, and a secret
      the service enrolled in its own envelope is taken for a legacy one and replaced.
    - Tenants: no increment of a counter is lost under any interleaving, and a quota is
      met exactly by requests one after the other.
    - Configuration and secrets: a production configuration is safe for the life of the
      process, durations and budgets are read exactly, a chain answers with its first
      provider that has something, a mounted secret stays in its directory, the
      signature of a request covers what is sent.
    - Cryptographic wrappers: both ends of a hybrid exchange agree, a hybrid signature
      needs both legs, and what the proofs, certificates and simulated services do not
      do.
    - Connections: connecting ends, after the attempts and pauses configured; the log
      of slow queries is a window of the latest ones.
@THEOREMS2@    ** Conventions and bounds

    - Identifiers are strings; an identifier that is no ObjectId is simply not
      found, where Mongoose throws a cast error.  [undefined] and [null] are one
      [None].  Strings are their UTF-8 bytes; lengths and classes that count UTF-16
      units are computed from them ([Password]).  Case mapping and [trim] are those
      of ASCII.  Dates and durations are integers in milliseconds.
    - Collections list their documents in natural order; a command acts on one
      collection atomically, and a unique index rejects colliding insertions.  The
      TTL monitor is a step of the environment ([expiry_env]).
    - A transaction runs on a snapshot as one action; the driver's own retries
      inside [session.withTransaction] are part of that action, those of the code
      are modelled.
    - Recursion is structural throughout, or over a bound the code has itself
      (the attempts of a transaction, the codes of a window); loops over bits and
      bytes recurse on the list.
    - Collision freedom of hashes and of random identifiers is never assumed
      globally: where it matters a theorem says which draws must not hit which
      stored hash.

    ** What is not modelled

    What only renders or prints: the paged lists and statistics of the administration
    API, the console output of the migrations and their index creation (001, 002,
    005 to 010 create collections and indexes).  The schema of the environment and of
    other inputs validated by zod, Express, Mongoose, ioredis, the cloud SDKs and the
    cryptographic primitives are parameters.  Logging and metrics, the mail, SMS,
    storage and payment adapters, the clients of remote identity providers, the
    compliance reports and the developer services are calls to third parties or
    records of them; front ends, client SDKs, the command line, templates and demos use
    the platform over HTTP.  The manifest lists every part with the reason. *)

From stdpp Require Export base gmap strings list option numbers sorting relations.
From Stdlib Require Export ZArith Lia.
From Stdlib Require Ascii String DecimalString DecimalZ.

(** ** Record update

    [r <| field := v |>] and [r <| field ::= f |>] rebuild a record from the
    list of its projections given by its [Settable] instance. *)
Class Settable (R : Type) := { eta_expand : R → R }.
Class Setter {R T : Type} (getter : R → T) := set_field : (T → T) → R → R.
Arguments set_field {R T} getter {_} f r : simpl nomatch.

Ltac build_setter :=
  lazymatch goal with
  | |- @Setter ?R ?T ?g =>
    let i := constr:(_ : Settable R) in
    let e := eval hnf in (@eta_expand R i) in
    let p := eval pattern g in e in
    lazymatch p with
    | ?F _ =>
      let s := eval cbv beta in (fun (u : T → T) => F (fun r : R => u (g r))) in
      exact s
    end
  end.
#[export] Hint Extern 0 (Setter _) => build_setter : typeclass_instances.

Declare Scope update_scope.
Delimit Scope update_scope with update.
Notation "x <| proj ::= f |>" := (set_field proj f x)
  (at level 1, f at level 99, left associativity) : update_scope.
Notation "x <| proj := v |>" := (set_field proj (λ _, v) x)
  (at level 1, v at level 99, left associativity) : update_scope.
#[global] Open Scope update_scope.
#[global] Open Scope Z_scope.

(** ** Tactics of the development *)

(** Decide a claim about concrete data by evaluation. *)
Ltac evaluate := vm_compute; reflexivity.
Ltac decided := apply (bool_decide_unpack _); vm_compute; exact I.

(** Split boolean conjunctions and turn boolean tests into propositions. *)
Ltac bool_to_prop :=
  repeat match goal with
  | H : _ && _ = true |- _ => apply andb_true_iff in H; destruct H
  | H : _ || _ = false |- _ => apply orb_false_iff in H; destruct H
  | H : negb _ = true |- _ => apply negb_true_iff in H
  | H : negb _ = false |- _ => apply negb_false_iff in H
  | H : bool_decide _ = true |- _ => apply bool_decide_eq_true in H
  | H : bool_decide _ = false |- _ => apply bool_decide_eq_false in H
  | H : (_ <? _) = true |- _ => apply Z.ltb_lt in H
  | H : (_ <? _) = false |- _ => apply Z.ltb_ge in H
  | H : (_ <=? _) = true |- _ => apply Z.leb_le in H
  | H : (_ <=? _) = false |- _ => apply Z.leb_gt in H
  | H : (_ =? _) = true |- _ => apply Z.eqb_eq in H
  | H : (_ =? _) = false |- _ => apply Z.eqb_neq in H
  end.

(** Case split on the boolean or option scrutinised by the goal. *)
Ltac case_scrutinee :=
  match goal with
  | |- context [match ?x with _ => _ end] =>
    lazymatch x with
    | context [match _ with _ => _ end] => fail
    | _ => let E := fresh "E" in destruct x eqn:E
    end
  end.

(** ** JavaScript strings and numbers

    A string is its UTF-8 encoding, as a byte string; [Buffer]s are byte strings
    too.  Case conversion and white space are those of the ASCII range.  Numbers
    that the code uses as integers are [Z]. *)
Definition js_lower_ascii (c : Ascii.ascii) : Ascii.ascii :=
  let n := Ascii.nat_of_ascii c in
  if ((65 <=? n) && (n <=? 90))%nat then Ascii.ascii_of_nat (n + 32) else c.

(** [s.toLowerCase()]. *)
Fixpoint js_lower (s : string) : string :=
  match s with
  | EmptyString => EmptyString
  | String c s' => String (js_lower_ascii c) (js_lower s')
  end.

Definition js_upper_ascii (c : Ascii.ascii) : Ascii.ascii :=
  let n := Ascii.nat_of_ascii c in
  if ((97 <=? n) && (n <=? 122))%nat then Ascii.ascii_of_nat (n - 32) else c.

(** [s.toUpperCase()]. *)
Fixpoint js_upper (s : string) : string :=
  match s with
  | EmptyString => EmptyString
  | String c s' => String (js_upper_ascii c) (js_upper s')
  end.

(** White space of [s.trim()] and of [/\s/]. *)
Definition js_is_space (c : Ascii.ascii) : bool :=
  let n := Ascii.nat_of_ascii c in ((n =? 32) || ((9 <=? n) && (n <=? 13)))%nat.

(** [s.trim()]. *)
Fixpoint js_trim_start (s : string) : string :=
  match s with String c s' => if js_is_space c then js_trim_start s' else s | EmptyString => EmptyString end.
Fixpoint js_trim_end (s : string) : string :=
  match s with
  | EmptyString => EmptyString
  | String c s' => match js_trim_end s' with
                   | EmptyString => if js_is_space c then EmptyString else String c EmptyString
                   | t => String c t
                   end
  end.
Definition js_trim (s : string) : string := js_trim_end (js_trim_start s).

(** [String(n)] and [Number(s)] on decimal integers; [None] is [NaN]. *)
Definition js_String (n : Z) : string := DecimalString.NilZero.string_of_int (Z.to_int n).
Definition js_Number (s : string) : option Z :=
  if String.eqb s "" then Some 0
  else Z.of_int <$> DecimalString.NilZero.int_of_string s.

(** A text between double quotes, as the messages have them. *)
Definition dquote : string := String (Ascii.ascii_of_nat 34) EmptyString.
Definition quoted (s : string) : string := (dquote ++ s ++ dquote)%string.

(** The UTF-16 code units a JavaScript string with this UTF-8 encoding consists of. *)
Definition unit_of (c : Ascii.ascii) : Z := Z.of_nat (Ascii.nat_of_ascii c).
Definition low6 (c : Ascii.ascii) : Z := Z.land (unit_of c) 63.
Fixpoint utf16 (s : string) : list Z :=
  match s with
  | EmptyString => []
  | String a r =>
    if unit_of a <? 128 then unit_of a :: utf16 r
    else match r with
    | String b r1 =>
      if unit_of a <? 224 then (Z.shiftl (Z.land (unit_of a) 31) 6 + low6 b) :: utf16 r1
      else match r1 with
      | String c r2 =>
        if unit_of a <? 240 then (Z.shiftl (Z.land (unit_of a) 15) 12 + Z.shiftl (low6 b) 6 + low6 c) :: utf16 r2
        else match r2 with
        | String d r3 =>
          let point := Z.shiftl (Z.land (unit_of a) 7) 18 + Z.shiftl (low6 b) 12 + Z.shiftl (low6 c) 6 + low6 d in
          (55296 + Z.shiftr (point - 65536) 10) :: (56320 + Z.land (point - 65536) 1023) :: utf16 r3
        | EmptyString => []
        end
      | EmptyString => []
      end
    | EmptyString => []
    end
  end.
Definition js_length (s : string) : Z := Z.of_nat (length (utf16 s)).

(** [s.startsWith(p)], [s.includes(p)]. *)
Fixpoint is_prefix (p s : string) : bool :=
  match p, s with
  | EmptyString, _ => true
  | String a p', String b s' => Ascii.eqb a b && is_prefix p' s'
  | _, _ => false
  end.
Fixpoint includes (p s : string) : bool :=
  is_prefix p s || match s with String _ s' => includes p s' | EmptyString => false end.

(** A character read where there is one. *)
Definition nullish_char (o : option Ascii.ascii) : Ascii.ascii := match o with Some c => c | None => Ascii.zero end.

(** [n.toString(36)] of a non-negative integer. *)
Definition DIGITS36 : string := "0123456789abcdefghijklmnopqrstuvwxyz".
Fixpoint digits36 (fuel : nat) (n : Z) (acc : string) : string :=
  match fuel with
  | O => acc
  | S fuel =>
    let acc := String (nullish_char (String.get (Z.to_nat (n mod 36)) DIGITS36)) acc in
    if n <? 36 then acc else digits36 fuel (n / 36) acc
  end.
Definition toString36 (n : Z) : string := digits36 (S (Z.to_nat (Z.log2 n))) n "".

(** [Math.ceil (a / b)] for positive [b]. *)
Definition ceil_div (a b : Z) : Z := - ((- a) / b).

(** JavaScript truthiness of optional strings. *)
Definition truthy (s : option string) : bool :=
  match s with Some s => negb (bool_decide (s = ""%string)) | None => false end.

(** [a ?? b]. *)
Definition nullish {A} (o : option A) (d : A) : A := match o with Some a => a | None => d end.

Definition MAX_SAFE_INTEGER : Z := 9007199254740991.

Lemma truthy_some (v : option string) : truthy v = true → ∃ s, v = Some s ∧ s ≠ "".
Proof.
  destruct v as [s|]; [|done]. intros Hs. exists s. split; [done|]. by intros ->.
Qed.
Lemma truthy_nonempty s : s ≠ "" → truthy (Some s) = true.
Proof. intros Hs. cbn. by rewrite bool_decide_false. Qed.

Lemma to_int_non_nil (n : Z) :
  Z.to_int n ≠ Decimal.Pos Decimal.Nil ∧ Z.to_int n ≠ Decimal.Neg Decimal.Nil.
Proof.
  destruct n as [|p|p]; cbn; split; try discriminate; intros [= H];
    by apply (DecimalPos.Unsigned.to_uint_nonnil p).
Qed.

Lemma js_Number_String (n : Z) : js_Number (js_String n) = Some n.
Proof.
  unfold js_Number, js_String. destruct (to_int_non_nil n) as [H1 H2].
  destruct (String.eqb_spec (DecimalString.NilZero.string_of_int (Z.to_int n)) "") as [He|_].
  - pose proof (DecimalString.NilZero.isi _ H1 H2) as Hi. rewrite He in Hi. discriminate Hi.
  - rewrite DecimalString.NilZero.isi by done. cbn. by rewrite DecimalZ.of_to.
Qed.

Lemma js_String_nonempty (n : Z) : js_String n ≠ ""%string.
Proof.
  unfold js_String. intros He. destruct (to_int_non_nil n) as [H1 H2].
  pose proof (DecimalString.NilZero.isi _ H1 H2) as Hi. rewrite He in Hi. discriminate Hi.
Qed.

Lemma ceil_div_spec (a b : Z) : 0 < b → a ≤ b * ceil_div a b < a + b.
Proof. intros Hb. unfold ceil_div. pose proof (Z.div_mod (- a) b). pose proof (Z.mod_pos_bound (- a) b). lia. Qed.

(** ** Documents selected by a predicate

    The operations of a document store act on the first matching document, on
    every matching document, or on none. *)
Section selection.
Context {D : Type}.
Implicit Types (f g : D → bool) (u : D → D) (l : list D) (d : D).

(** [updateOne]: rewrite the first match. *)
Fixpoint alter_first f u l : list D :=
  match l with
  | [] => []
  | d :: l' => if f d then u d :: l' else d :: alter_first f u l'
  end.

(** [updateMany]: rewrite every match. *)
Definition alter_all f u l : list D := map (λ d, if f d then u d else d) l.

(** [deleteOne]: drop the first match. *)
Fixpoint remove_first f l : list D :=
  match l with
  | [] => []
  | d :: l' => if f d then l' else d :: remove_first f l'
  end.

(** A document with the least key, for [findOne().sort()]. *)
Fixpoint least (key : D → Z) l : option D :=
  match l with
  | [] => None
  | d :: l' => match least key l' with
               | Some m => Some (if key d <=? key m then d else m)
               | None => Some d
               end
  end.

Definition count f l : nat := length (List.filter f l).

Lemma count_cons f d l : count f (d :: l) = ((if f d then 1 else 0) + count f l)%nat.
Proof. unfold count. cbn. by destruct (f d). Qed.

Lemma count_app f l1 l2 : count f (l1 ++ l2) = (count f l1 + count f l2)%nat.
Proof. unfold count. by rewrite List.filter_app, length_app. Qed.

Lemma find_split f l d :
  List.find f l = Some d →
  f d = true ∧ ∃ l1 l2, l = l1 ++ d :: l2 ∧ (∀ x, In x l1 → f x = false).
Proof.
  induction l as [|x l IH]; cbn; [discriminate|].
  destruct (f x) eqn:Hx.
  - intros [= ->]. split; [done|]. exists [], l. split; [done|]. intros y [].
  - intros [Hd (l1 & l2 & -> & H)]%IH. split; [done|]. exists (x :: l1), l2.
    split; [done|]. intros y [<-|Hy]; auto.
Qed.

Lemma find_none_all f l d : List.find f l = None → In d l → f d = false.
Proof. intros H Hd. by apply (find_none _ _ H). Qed.

Lemma find_ext f g l : (∀ d, f d = g d) → List.find f l = List.find g l.
Proof. intros H. induction l as [|d l IH]; cbn; [done|]. by rewrite H, IH. Qed.

Lemma find_filter f l : List.find f l = hd_error (List.filter f l).
Proof. induction l as [|d l IH]; cbn; [done|]. by destruct (f d). Qed.

Lemma count_zero f l : count f l = 0%nat ↔ List.find f l = None.
Proof. rewrite find_filter. unfold count. by destruct (List.filter f l). Qed.

Lemma count_pos f l d : List.find f l = Some d → (1 ≤ count f l)%nat.
Proof. rewrite find_filter. unfold count. destruct (List.filter f l); cbn; [done|lia]. Qed.

Lemma alter_first_none f u l : List.find f l = None → alter_first f u l = l.
Proof.
  induction l as [|x l IH]; cbn; [done|]. destruct (f x); [done|]. intros H. by rewrite IH.
Qed.

Lemma alter_first_some f u l d :
  List.find f l = Some d →
  ∃ l1 l2, l = l1 ++ d :: l2 ∧ alter_first f u l = l1 ++ u d :: l2 ∧ f d = true.
Proof.
  intros [Hd (l1 & l2 & -> & H)]%find_split. exists l1, l2. split; [done|]. split; [|done].
  induction l1 as [|x l1 IH]; cbn; [by rewrite Hd|].
  rewrite (H x) by (by left). f_equal. apply IH. intros y Hy. apply H. by right.
Qed.

Lemma find_alter_first f u l d :
  List.find f l = Some d → f (u d) = true → List.find f (alter_first f u l) = Some (u d).
Proof.
  induction l as [|x l IH]; cbn; [done|]. destruct (f x) eqn:Hx; cbn.
  - intros [= ->] Hu. by rewrite Hu.
  - rewrite Hx. apply IH.
Qed.

(** Updating by one predicate the document another one selects. *)
Lemma find_alter_first_by f g u l d :
  List.find f l = Some d → List.find g l = Some d → f (u d) = true →
  List.find f (alter_first g u l) = Some (u d).
Proof.
  induction l as [|x l IH]; cbn; [done|]. destruct (g x) eqn:Hg, (f x) eqn:Hf; cbn.
  - intros _ [= ->] Hu. by rewrite Hu.
  - intros _ [= ->] Hu. by rewrite Hu.
  - intros [= ->] [_ Hd]%find_some. congruence.
  - rewrite Hf. apply IH.
Qed.

Lemma count_alter_first f u g l d :
  List.find f l = Some d →
  (count g (alter_first f u l) + (if g d then 1 else 0)
   = count g l + (if g (u d) then 1 else 0))%nat.
Proof.
  intros (l1 & l2 & -> & -> & _)%(alter_first_some f u).
  rewrite !count_app, !count_cons. lia.
Qed.

Lemma least_some key l d : least key l = Some d → In d l ∧ ∀ x, In x l → key d <= key x.
Proof.
  revert d. induction l as [|y l IH]; cbn; [done|]. intros d.
  destruct (least key l) as [m|] eqn:Hm.
  - destruct (IH m eq_refl) as [Hin Hle].
    destruct (Z.leb_spec (key y) (key m)); intros [= <-].
    + split; [by left|]. intros x [->|Hx]; [lia|]. specialize (Hle x Hx). lia.
    + split; [by right|]. intros x [->|Hx]; [lia|]. by apply Hle.
  - intros [= <-]. split; [by left|]. intros x [->|Hx]; [lia|].
    destruct l as [|z l]; [done|]. cbn in Hm. by destruct (least key l).
Qed.

Lemma least_none key l : least key l = None → l = [].
Proof. destruct l as [|y l]; cbn; [done|]. by destruct (least key l). Qed.

Lemma In_alter_first f u l x :
  In x (alter_first f u l) → In x l ∨ ∃ d, In d l ∧ f d = true ∧ x = u d.
Proof.
  destruct (List.find f l) as [d|] eqn:Hf.
  - destruct (alter_first_some f u l d Hf) as (l1 & l2 & -> & -> & Hd).
    rewrite !in_app_iff. cbn. intros [H|[<-|H]]; [auto| |auto].
    right. exists d. rewrite in_app_iff. cbn. auto.
  - rewrite alter_first_none by done. auto.
Qed.

Lemma In_alter_all f u l x :
  In x (alter_all f u l) → ∃ d, In d l ∧ x = if f d then u d else d.
Proof. unfold alter_all. rewrite in_map_iff. intros (d & <- & Hd). eauto. Qed.

Lemma count_alter_all_le f u g l :
  (∀ d, In d l → f d = true → g (u d) = true → g d = true) →
  (count g (alter_all f u l) ≤ count g l)%nat.
Proof.
  induction l as [|d l IH]; intros H; [done|].
  unfold alter_all in *. cbn [map]. rewrite !count_cons.
  specialize (IH (λ x Hx, H x (or_intror Hx))). specialize (H d (or_introl eq_refl)).
  destruct (f d); [|lia]. destruct (g (u d)); [rewrite H by done|]; lia.
Qed.

Lemma count_alter_first_le f u g l :
  (∀ d, f d = true → g (u d) = true → g d = true) → (count g (alter_first f u l) ≤ count g l)%nat.
Proof.
  intros H. induction l as [|d l IH]; cbn [alter_first]; [done|].
  destruct (f d) eqn:Hf; rewrite !count_cons; [|lia].
  specialize (H d Hf). destruct (g (u d)); [rewrite H by done|]; lia.
Qed.

Lemma count_remove_first_le f g l : (count g (remove_first f l) ≤ count g l)%nat.
Proof.
  induction l as [|d l IH]; cbn [remove_first]; [done|].
  destruct (f d); rewrite ?count_cons; lia.
Qed.

Lemma count_filter_le f g l : (count g (List.filter f l) ≤ count g l)%nat.
Proof.
  induction l as [|d l IH]; cbn [List.filter]; [done|].
  destruct (f d); rewrite ?count_cons; lia.
Qed.

Lemma In_remove_first f l x : In x (remove_first f l) → In x l.
Proof. induction l as [|d l IH]; cbn; [done|]. destruct (f d); cbn; tauto. Qed.

Lemma filter_ext_in_false f l : (∀ d, In d l → f d = false) → List.filter f l = [].
Proof.
  induction l as [|d l IH]; intros H; [done|]. cbn.
  rewrite (H d) by (by left). apply IH. intros x Hx. apply H. by right.
Qed.

(** *** Documents with a unique key *)
Section unique_key.
Context {K : Type} (key : D → K).
Definition unique_key l : Prop := NoDup (map key l).

Lemma unique_key_app l1 l2 :
  unique_key (l1 ++ l2) ↔
  unique_key l1 ∧ unique_key l2 ∧ ∀ x y, In x l1 → In y l2 → key x ≠ key y.
Proof.
  unfold unique_key. rewrite map_app, NoDup_app. split.
  - intros (H1 & H & H2). split; [done|]. split; [done|]. intros x y Hx Hy Heq.
    apply (H (key x)); rewrite list_elem_of_In; apply in_map_iff; eauto.
  - intros (H1 & H2 & H). split; [done|]. split; [|done]. intros k.
    rewrite !list_elem_of_In, !in_map_iff. intros (x & <- & Hx) (y & Hk & Hy). by apply (H x y).
Qed.

Lemma unique_key_cons d l :
  unique_key (d :: l) ↔ unique_key l ∧ ∀ y, In y l → key d ≠ key y.
Proof.
  unfold unique_key. cbn. rewrite NoDup_cons, list_elem_of_In, in_map_iff.
  split; intros [H1 H2]; (split; try done).
  - intros y Hy Hk. apply H1. by exists y.
  - intros (y & Hk & Hy). by apply (H2 y).
Qed.

Lemma unique_key_eq l x y : unique_key l → In x l → In y l → key x = key y → x = y.
Proof.
  induction l as [|d l IH]; [done|]. intros [Hl Hd]%unique_key_cons [<-|Hx] [<-|Hy] Hk; auto.
  - by destruct (Hd y Hy).
  - destruct (Hd x Hx). by symmetry.
Qed.

(** The document a unique predicate selects. *)
Lemma find_unique f l p :
  In p l → f p = true → (∀ x, In x l → f x = true → x = p) → List.find f l = Some p.
Proof.
  intros Hin Hf Hu. destruct (List.find f l) as [x|] eqn:Hx.
  - apply find_some in Hx as [Hix Hfx]. by rewrite (Hu x).
  - by rewrite (find_none_all _ _ _ Hx Hin) in Hf.
Qed.

Lemma find_by_key l p k (dec : D → bool) :
  unique_key l → In p l → key p = k → (∀ d, dec d = true ↔ key d = k) → List.find dec l = Some p.
Proof.
  intros Hl Hin Hk Hdec. apply find_unique; [done|by apply Hdec|].
  intros x Hx Hfx%Hdec. apply (unique_key_eq l); congruence.
Qed.

Lemma In_remove_unique f l p x :
  unique_key l → List.find f l = Some p → In x (remove_first f l) → key x ≠ key p.
Proof.
  induction l as [|d l IH]; cbn [List.find remove_first]; [done|]. intros [Hl Hd]%unique_key_cons.
  destruct (f d); [intros [= <-] Hx Hk; by apply (Hd x)|]. intros Hf [<-|Hx]; [|by apply IH].
  apply Hd. by apply find_some in Hf as [Hp _].
Qed.

Lemma In_alter_unique f u l p x :
  unique_key l → List.find f l = Some p →
  In x (alter_first f u l) ↔ x = u p ∨ In x l ∧ key x ≠ key p.
Proof.
  intros Hl Hf. destruct (alter_first_some f u l p Hf) as (l1 & l2 & -> & -> & _).
  apply unique_key_app in Hl as (_ & [_ H2]%unique_key_cons & H1).
  rewrite !in_app_iff. cbn. split.
  - intros [Hx|[<-|Hx]]; [right|by left|right]; (split; [auto|]).
    + apply H1; [done|by left].
    + intros Hk. by apply (H2 x).
  - intros [->|[[Hx|[<-|Hx]] Hk]]; auto. by destruct Hk.
Qed.

Lemma unique_key_alter f u l :
  (∀ d, key (u d) = key d) → unique_key l → unique_key (alter_first f u l).
Proof.
  intros Hu. unfold unique_key. enough (map key (alter_first f u l) = map key l) as ->; [done|].
  induction l as [|d l IH]; cbn; [done|]. destruct (f d); cbn; by rewrite ?Hu, ?IH.
Qed.
End unique_key.

(** An inserted document takes some place in the natural order. *)
Definition inserted d l l' : Prop := ∃ l1 l2, l = l1 ++ l2 ∧ l' = l1 ++ d :: l2.

Lemma inserted_count f d l l' :
  inserted d l l' → count f l' = ((if f d then 1 else 0) + count f l)%nat.
Proof. intros (l1 & l2 & -> & ->). rewrite !count_app, count_cons. lia. Qed.

Lemma inserted_In d l l' x : inserted d l l' → In x l' ↔ x = d ∨ In x l.
Proof.
  intros (l1 & l2 & -> & ->). rewrite !in_app_iff. cbn. intuition congruence.
Qed.

Lemma inserted_unique {K} (key : D → K) d l l' :
  inserted d l l' → unique_key key l → (∀ y, In y l → key d ≠ key y) → unique_key key l'.
Proof.
  intros (l1 & l2 & -> & ->) (H1 & H2 & H12)%unique_key_app Hd. apply unique_key_app.
  split; [done|]. split.
  - apply unique_key_cons. split; [done|]. intros y Hy. apply Hd, in_app_iff. by right.
  - intros x y Hx [<-|Hy]; [|by apply H12]. intros Hk. apply (Hd x); [apply in_app_iff; by left|done].
Qed.

Lemma inserted_find_other f d l l' :
  inserted d l l' → f d = false → List.find f l' = List.find f l.
Proof.
  intros (l1 & l2 & -> & ->) Hd. rewrite !find_filter, !List.filter_app. cbn. by rewrite Hd.
Qed.

Lemma inserted_find_new f d l l' :
  inserted d l l' → f d = true → List.find f l = None → List.find f l' = Some d.
Proof.
  intros (l1 & l2 & -> & ->) Hd. rewrite !find_filter, !List.filter_app. cbn. rewrite Hd.
  destruct (List.filter f l1); done.
Qed.

Lemma inserted_filter_other f d l l' :
  inserted d l l' → f d = false → List.filter f l' = List.filter f l.
Proof. intros (l1 & l2 & -> & ->) Hd. rewrite !List.filter_app. cbn. by rewrite Hd. Qed.
End selection.

(** ** Bits *)
Lemma land_low a n : 0 <= n → 0 <= a < 2 ^ n → Z.land a (Z.ones n) = a.
Proof. intros Hn Ha. rewrite Z.land_ones by done. by apply Z.mod_small. Qed.

(** Shifted bytes do not overlap. *)
Lemma lor_shift a b n : 0 <= n → 0 <= b < 2 ^ n → Z.lor (Z.shiftl a n) b = a * 2 ^ n + b.
Proof.
  intros Hn Hb. rewrite <- Z.add_nocarry_lor; [by rewrite Z.shiftl_mul_pow2|].
  rewrite <- (land_low b n) at 1 by done. rewrite (Z.land_comm b), Z.land_assoc, Z.land_ones by done.
  rewrite Z.shiftl_mul_pow2, Z.mod_mul by lia. apply Z.land_0_l.
Qed.
