(* ===== verification/Errors.v ===== *)
(** * Errors

    The error classes of [packages/shared/src/errors.ts] as values, the driver
    and runtime exceptions that reach the services, and the small JSON values
    error details and audit metadata are made of. *)

From S2P Require Export Prelude.

(** JSON values ([Record<string, unknown>] payloads). *)
Inductive json :=
| JNull
| JBool (b : bool)
| JNum (n : Z)
| JStr (s : string)
| JArr (l : list json)
| JObj (l : list (string * json)).

(** The subclasses of [PezhwanError]. *)
Inductive error_class :=
| CAuthenticationError | CAuthorizationError | CValidationError | CRateLimitError
| CTokenError | CSessionError | CConfigurationError | CProviderError
| CSecurityDependencyError | CNotFoundError | CSecurityEventError.

#[export] Instance error_class_eq_dec : EqDecision error_class.
Proof. solve_decision. Defined.

Record PezhwanError := mkPezhwanError {
  e_name : error_class;
  e_code : string;
  e_message : string;
  e_status : Z;
  e_details : list (string * json);
}.

(** What a call can throw: a Pezhwan error, an error of the MongoDB driver
    (with its server code when it has one) or any other JavaScript error. *)
Inductive exn :=
| Pezhwan (e : PezhwanError)
| DriverError (code : option Z) (message : string)
| JsError (message : string).

(** The HTTP status each constructor of [errors.ts] passes to [super]. *)
Definition class_status (c : error_class) : Z :=
  match c with
  | CAuthenticationError => 401
  | CAuthorizationError => 403
  | CValidationError => 400
  | CRateLimitError => 429
  | CTokenError => 401
  | CSessionError => 401
  | CConfigurationError => 500
  | CProviderError => 502
  | CSecurityDependencyError => 503
  | CNotFoundError => 404
  | CSecurityEventError => 403
  end.

Definition pezhwan_error (c : error_class) (message code : string) : exn :=
  Pezhwan (mkPezhwanError c code message (class_status c) []).

Definition AuthenticationError := pezhwan_error CAuthenticationError.
Definition AuthorizationError := pezhwan_error CAuthorizationError.
Definition ValidationError := pezhwan_error CValidationError.
Definition TokenError := pezhwan_error CTokenError.
Definition SessionError := pezhwan_error CSessionError.
Definition SecurityDependencyError := pezhwan_error CSecurityDependencyError.
(** Its [retryAfterSeconds] is not kept. *)
Definition RateLimitError (message : string) : exn := pezhwan_error CRateLimitError message "RATE_LIMIT_EXCEEDED".
Definition NotFoundError := pezhwan_error CNotFoundError.

(** The same error carrying [options.details]. *)
Definition with_details (e : exn) (details : list (string * json)) : exn :=
  match e with
  | Pezhwan p => Pezhwan (mkPezhwanError (e_name p) (e_code p) (e_message p) (e_status p) details)
  | _ => e
  end.

(** [err instanceof PezhwanError] and [err instanceof C]. *)
Definition is_pezhwan (e : exn) : bool := match e with Pezhwan _ => true | _ => false end.
Definition is_instance (c : error_class) (e : exn) : bool :=
  match e with Pezhwan p => bool_decide (e_name p = c) | _ => false end.

(** [err.message]. *)
Definition err_message (e : exn) : string :=
  match e with Pezhwan p => e_message p | DriverError _ m => m | JsError m => m end.

(** [err.code] of a Pezhwan error, used in statements. *)
Definition err_code (e : exn) : option string :=
  match e with Pezhwan p => Some (e_code p) | _ => None end.
