(* ===== verification/Json.v ===== *)
(** * JSON

    [JSON.stringify] and [JSON.parse] of the JavaScript standard library on the
    values of type [json]: objects as association lists, numbers restricted to
    integers in canonical form, strings to ASCII.  The services serialise audit
    entries, cached account states and token payloads with them. *)

From S2P Require Export Errors.
From Stdlib Require Import Ascii DecimalString.

(** ** Characters *)
Definition is_digit (c : ascii) : bool :=
  let n := nat_of_ascii c in ((48 <=? n) && (n <=? 57))%nat.
Definition is_space (c : ascii) : bool :=
  let n := nat_of_ascii c in ((n =? 32) || (n =? 9) || (n =? 10) || (n =? 13))%nat.

Definition hex_digit (n : nat) : ascii :=
  ascii_of_nat (if (n <? 10)%nat then (48 + n)%nat else (87 + n)%nat).
Definition hex_value (c : ascii) : option nat :=
  let n := nat_of_ascii c in
  if ((48 <=? n) && (n <=? 57))%nat then Some (n - 48)%nat
  else if ((97 <=? n) && (n <=? 102))%nat then Some (n - 87)%nat
  else if ((65 <=? n) && (n <=? 70))%nat then Some (n - 55)%nat
  else None.

Definition one (c : ascii) : string := String c EmptyString.
Definition quote : ascii := "034".
Definition backslash : ascii := "092".

(** ** Printing *)
Definition escape (c : ascii) : string :=
  let n := nat_of_ascii c in
  if (n =? 34)%nat then String backslash (one quote)
  else if (n =? 92)%nat then String backslash (one backslash)
  else if (n =? 8)%nat then String backslash "b"
  else if (n =? 9)%nat then String backslash "t"
  else if (n =? 10)%nat then String backslash "n"
  else if (n =? 12)%nat then String backslash "f"
  else if (n =? 13)%nat then String backslash "r"
  else if (n <? 32)%nat then
    String backslash ("u00" +:+ String (hex_digit (n / 16)) (one (hex_digit (n mod 16))))
  else one c.

Fixpoint escape_all (s : string) : string :=
  match s with EmptyString => EmptyString | String c s' => escape c +:+ escape_all s' end.

Definition print_string (s : string) : string := String quote (escape_all s +:+ one quote).

Fixpoint stringify (j : json) : string :=
  match j with
  | JNull => "null"
  | JBool true => "true"
  | JBool false => "false"
  | JNum n => js_String n
  | JStr s => print_string s
  | JArr l =>
    let fix elems (l : list json) : string :=
      match l with
      | [] => "]"
      | [j] => stringify j +:+ "]"
      | j :: l' => stringify j +:+ "," +:+ elems l'
      end in
    "[" +:+ elems l
  | JObj l =>
    let fix fields (l : list (string * json)) : string :=
      match l with
      | [] => "}"
      | [(k, j)] => print_string k +:+ ":" +:+ stringify j +:+ "}"
      | (k, j) :: l' => print_string k +:+ ":" +:+ stringify j +:+ "," +:+ fields l'
      end in
    "{" +:+ fields l
  end.

(** A property set to [undefined] is not serialised. *)
Definition opt_field (k : string) (v : option json) : list (string * json) :=
  match v with Some j => [(k, j)] | None => [] end.

(** ** Parsing *)
Fixpoint skip (s : string) : string :=
  match s with String c s' => if is_space c then skip s' else s | EmptyString => EmptyString end.

Definition unescape (c : ascii) : option ascii :=
  let n := nat_of_ascii c in
  if (n =? 34)%nat then Some quote
  else if (n =? 92)%nat then Some backslash
  else if (n =? 47)%nat then Some c
  else if (n =? 98)%nat then Some "008"%char
  else if (n =? 116)%nat then Some "009"%char
  else if (n =? 110)%nat then Some "010"%char
  else if (n =? 102)%nat then Some "012"%char
  else if (n =? 114)%nat then Some "013"%char
  else None.

Definition cons_char (c : ascii) (r : option (string * string)) : option (string * string) :=
  match r with Some (s, rest) => Some (String c s, rest) | None => None end.

(** The characters up to the closing quote. *)
Fixpoint parse_chars (s : string) : option (string * string) :=
  match s with
  | EmptyString => None
  | String c s' =>
    if Ascii.eqb c quote then Some (EmptyString, s')
    else if Ascii.eqb c backslash then
      match s' with
      | EmptyString => None
      | String e s'' =>
        if Ascii.eqb e "u" then
          match s'' with
          | String h1 (String h2 (String h3 (String h4 s3))) =>
            match hex_value h1, hex_value h2, hex_value h3, hex_value h4 with
            | Some O, Some O, Some x, Some y =>
              cons_char (ascii_of_nat (16 * x + y)) (parse_chars s3)
            | _, _, _, _ => None
            end
          | _ => None
          end
        else match unescape e with Some c' => cons_char c' (parse_chars s'') | None => None end
      end
    else if (nat_of_ascii c <? 32)%nat then None
    else cons_char c (parse_chars s')
  end.

Fixpoint digits (s : string) : string * string :=
  match s with
  | String c s' =>
    if is_digit c then let '(d, r) := digits s' in (String c d, r) else (EmptyString, s)
  | EmptyString => (EmptyString, EmptyString)
  end.

Definition parse_number (s : string) : option (json * string) :=
  let '(tok, rest) :=
    match s with
    | String c s' =>
      if Ascii.eqb c "-" then let '(d, r) := digits s' in (String c d, r) else digits s
    | EmptyString => (EmptyString, EmptyString)
    end in
  match js_Number tok with
  | Some n => if String.eqb (js_String n) tok then Some (JNum n, rest) else None
  | None => None
  end.

(** Remove a literal prefix. *)
Fixpoint strip (p s : string) : option string :=
  match p, s with
  | EmptyString, _ => Some s
  | String a p', String b s' => if Ascii.eqb a b then strip p' s' else None
  | _, _ => None
  end.

Definition literal (p : string) (j : json) (s : string) : option (json * string) :=
  match strip p s with Some r => Some (j, r) | None => None end.

Fixpoint parse_value (fuel : nat) (s : string) : option (json * string) :=
  match fuel with
  | O => None
  | S n =>
    match skip s with
    | EmptyString => None
    | String c s' =>
      if Ascii.eqb c quote then
        match parse_chars s' with Some (x, r) => Some (JStr x, r) | None => None end
      else if Ascii.eqb c "[" then
        match skip s' with
        | String c1 r =>
          if Ascii.eqb c1 "]" then Some (JArr [], r)
          else match parse_elems n s' with Some (l, r) => Some (JArr l, r) | None => None end
        | EmptyString => None
        end
      else if Ascii.eqb c "{" then
        match skip s' with
        | String c1 r =>
          if Ascii.eqb c1 "}" then Some (JObj [], r)
          else match parse_fields n s' with Some (l, r) => Some (JObj l, r) | None => None end
        | EmptyString => None
        end
      else if Ascii.eqb c "n" then literal "null" JNull (String c s')
      else if Ascii.eqb c "t" then literal "true" (JBool true) (String c s')
      else if Ascii.eqb c "f" then literal "false" (JBool false) (String c s')
      else parse_number (String c s')
    end
  end
with parse_elems (fuel : nat) (s : string) : option (list json * string) :=
  match fuel with
  | O => None
  | S n =>
    match parse_value n s with
    | None => None
    | Some (j, r) =>
      match skip r with
      | String c r' =>
        if Ascii.eqb c "]" then Some ([j], r')
        else if Ascii.eqb c "," then
          match parse_elems n r' with Some (l, r2) => Some (j :: l, r2) | None => None end
        else None
      | EmptyString => None
      end
    end
  end
with parse_fields (fuel : nat) (s : string) : option (list (string * json) * string) :=
  match fuel with
  | O => None
  | S n =>
    match skip s with
    | EmptyString => None
    | String q s1 =>
      if negb (Ascii.eqb q quote) then None
      else
      match parse_chars s1 with
      | None => None
      | Some (k, r) =>
        match skip r with
        | EmptyString => None
        | String c r1 =>
          if negb (Ascii.eqb c ":") then None
          else
          match parse_value n r1 with
          | None => None
          | Some (j, r2) =>
            match skip r2 with
            | String c r' =>
              if Ascii.eqb c "}" then Some ([(k, j)], r')
              else if Ascii.eqb c "," then
                match parse_fields n r' with
                | Some (l, r3) => Some ((k, j) :: l, r3)
                | None => None
                end
              else None
            | EmptyString => None
            end
          end
        end
      end
    end
  end.

(** [JSON.parse(s)]; [None] is a [SyntaxError].  Every recursive call consumes a
    character, so the length of the text bounds the depth. *)
Definition parse (s : string) : option json :=
  match parse_value (2 * String.length s + 1) s with
  | Some (j, r) => if String.eqb (skip r) "" then Some j else None
  | None => None
  end.

(** ** Round trip *)
#[local] Arguments String.append !_ _ : simpl nomatch.

Lemma str_app_assoc (a b c : string) : (a +:+ b) +:+ c = a +:+ (b +:+ c).
Proof. induction a as [|x a IH]; cbn; [done|]. by rewrite IH. Qed.
Lemma str_app_nil (a : string) : a +:+ "" = a.
Proof. induction a as [|x a IH]; cbn; [done|]. by rewrite IH. Qed.
Lemma str_app_length (a b : string) :
  String.length (a +:+ b) = (String.length a + String.length b)%nat.
Proof. induction a as [|x a IH]; cbn; [done|]. by rewrite IH. Qed.

Section json_ind.
Context (Pj : json → Prop) (HNull : Pj JNull) (HBool : ∀ b, Pj (JBool b))
  (HNum : ∀ n, Pj (JNum n)) (HStr : ∀ s, Pj (JStr s))
  (HArr : ∀ l, Forall Pj l → Pj (JArr l))
  (HObj : ∀ l, Forall (λ kj : string * json, Pj kj.2) l → Pj (JObj l)).

Fixpoint json_ind_nested (j : json) : Pj j :=
  match j with
  | JNull => HNull
  | JBool b => HBool b
  | JNum n => HNum n
  | JStr s => HStr s
  | JArr l => HArr l ((fix go l : Forall Pj l :=
      match l with
      | [] => List.Forall_nil _
      | j :: l' => List.Forall_cons _ _ _ (json_ind_nested j) (go l')
      end) l)
  | JObj l => HObj l ((fix go l : Forall (λ kj : string * json, Pj kj.2) l :=
      match l with
      | [] => List.Forall_nil _
      | kj :: l' => List.Forall_cons _ _ _ (json_ind_nested kj.2) (go l')
      end) l)
  end.
End json_ind.

Lemma parse_chars_escape c s :
  parse_chars (escape c +:+ s) = cons_char c (parse_chars s).
Proof. destruct c as [[] [] [] [] [] [] [] []]; reflexivity. Qed.

Lemma parse_chars_escape_all x s :
  parse_chars ((escape_all x +:+ one quote) +:+ s) = Some (x, s).
Proof.
  rewrite str_app_assoc. change (one quote +:+ s) with (String quote s).
  induction x as [|c x IH]; cbn [escape_all]; [done|].
  by rewrite str_app_assoc, parse_chars_escape, IH.
Qed.

(** What may follow a number. *)
Definition no_digit (s : string) : bool :=
  match s with String c _ => negb (is_digit c) | EmptyString => true end.

Fixpoint all_digits (s : string) : bool :=
  match s with String c s' => is_digit c && all_digits s' | EmptyString => true end.

Lemma digits_app a r : all_digits a = true → no_digit r = true → digits (a +:+ r) = (a, r).
Proof.
  intros Ha Hr. induction a as [|c a IH]; cbn.
  - destruct r as [|c r]; cbn in *; [done|]. by rewrite (proj1 (negb_true_iff _) Hr).
  - cbn in Ha. bool_to_prop. by rewrite H, IH.
Qed.

Lemma string_of_uint_digits u : all_digits (NilEmpty.string_of_uint u) = true.
Proof. induction u; cbn; rewrite ?IHu; done. Qed.

Lemma js_String_shape n :
  all_digits (js_String n) = true ∨ ∃ s, js_String n = String "-" s ∧ all_digits s = true.
Proof.
  assert (∀ u, all_digits (NilZero.string_of_uint u) = true) as Hz.
  { intros []; [done|..]; apply string_of_uint_digits. }
  unfold js_String, NilZero.string_of_int. destruct (Z.to_int n) as [u|u]; [left; apply Hz|right; eauto].
Qed.

Lemma parse_number_stringify n r :
  no_digit r = true → parse_number (js_String n +:+ r) = Some (JNum n, r).
Proof.
  intros Hr. unfold parse_number.
  assert ((match js_String n +:+ r with
           | String c s' =>
             if Ascii.eqb c "-" then let '(d, r) := digits s' in (String c d, r)
             else digits (js_String n +:+ r)
           | EmptyString => (EmptyString, EmptyString)
           end) = (js_String n, r)) as Htok.
  { pose proof (js_String_nonempty n) as Hne.
    destruct (js_String_shape n) as [Hd|(s & -> & Hd)].
    - rewrite digits_app by done. destruct (js_String n) as [|c s]; [done|]. cbn in *.
      destruct (Ascii.eqb_spec c "-") as [->|_]; [done|reflexivity].
    - cbn. by rewrite digits_app. }
  rewrite Htok, js_Number_String, String.eqb_refl. reflexivity.
Qed.

(** First characters of a serialised value. *)
Definition value_head (s : string) : bool :=
  match s with
  | String c _ => negb (is_space c) && negb (Ascii.eqb c "]") && negb (Ascii.eqb c "}")
  | EmptyString => false
  end.
Lemma digit_head c s : is_digit c = true → value_head (String c s) = true.
Proof. destruct c as [[] [] [] [] [] [] [] []]; done. Qed.
Lemma value_head_app a b : value_head a = true → value_head (a +:+ b) = true.
Proof. by destruct a. Qed.
Lemma value_head_skip s : value_head s = true → skip s = s.
Proof. destruct s as [|c s]; [done|]. cbn. by destruct (is_space c). Qed.
Lemma js_String_head n : value_head (js_String n) = true.
Proof.
  destruct (js_String_shape n) as [Hd|(s & -> & Hd)]; [|done].
  pose proof (js_String_nonempty n). destruct (js_String n) as [|c s]; [done|].
  cbn in Hd. bool_to_prop. by apply digit_head.
Qed.
Lemma stringify_head j : value_head (stringify j) = true.
Proof. destruct j as [|[]|n|s|l|l]; try done. apply js_String_head. Qed.
Lemma skip_stringify j r : skip (stringify j +:+ r) = stringify j +:+ r.
Proof. apply value_head_skip, value_head_app, stringify_head. Qed.

Fixpoint json_size (j : json) : nat :=
  match j with
  | JArr l => S (sum_list_with (λ j, S (json_size j)) l)
  | JObj l => S (sum_list_with (λ kj, S (json_size kj.2)) l)
  | _ => 1
  end.

Definition parses (j : json) : Prop :=
  ∀ fuel r, (json_size j ≤ fuel)%nat → no_digit r = true →
  parse_value fuel (stringify j +:+ r) = Some (j, r).

(** Decide the character tests of a goal on known characters. *)
Ltac eval_tests :=
  repeat (match goal with
  | |- context [is_space ?c] =>
    let b := eval vm_compute in (is_space c) in
    match b with true => idtac | false => idtac end; change (is_space c) with b
  | |- context [Ascii.eqb ?x ?y] =>
    let b := eval vm_compute in (Ascii.eqb x y) in
    match b with true => idtac | false => idtac end; change (Ascii.eqb x y) with b
  end; cbv iota beta; cbn [negb skip String.append]).

Definition elems_string : list json → string :=
  fix elems (l : list json) : string :=
    match l with
    | [] => "]"
    | [j] => stringify j +:+ "]"
    | j :: l' => stringify j +:+ "," +:+ elems l'
    end.
Definition fields_string : list (string * json) → string :=
  fix fields (l : list (string * json)) : string :=
    match l with
    | [] => "}"
    | [(k, j)] => print_string k +:+ ":" +:+ stringify j +:+ "}"
    | (k, j) :: l' => print_string k +:+ ":" +:+ stringify j +:+ "," +:+ fields l'
    end.

Lemma parses_elems l : Forall parses l → ∀ fuel r,
  l ≠ [] → (sum_list_with (λ j, S (json_size j)) l ≤ fuel)%nat →
  parse_elems fuel (elems_string l +:+ r) = Some (l, r).
Proof.
  induction 1 as [|j l Hj Hl IH]; intros fuel r Hne Hf; [done|].
  cbn [sum_list_with] in Hf. destruct fuel as [|fuel]; [lia|]. cbn [parse_elems].
  destruct l as [|j' l].
  - cbn [elems_string]. rewrite str_app_assoc. cbn [String.append].
    rewrite Hj by (done || lia). reflexivity.
  - change (elems_string (j :: j' :: l)) with (stringify j +:+ "," +:+ elems_string (j' :: l)).
    rewrite !str_app_assoc. rewrite Hj by (done || lia). cbn [String.append skip]. eval_tests.
    by rewrite IH by (done || lia).
Qed.

Lemma parses_fields l : Forall (λ kj : string * json, parses kj.2) l → ∀ fuel r,
  l ≠ [] → (sum_list_with (λ kj, S (json_size kj.2)) l ≤ fuel)%nat →
  parse_fields fuel (fields_string l +:+ r) = Some (l, r).
Proof.
  induction 1 as [|[k j] l Hj Hl IH]; intros fuel r Hne Hf; [done|].
  cbn [sum_list_with snd] in Hf, Hj. destruct fuel as [|fuel]; [lia|]. cbn [parse_fields].
  destruct l as [|kj' l].
  - change (fields_string [(k, j)]) with (print_string k +:+ ":" +:+ stringify j +:+ "}").
    unfold print_string. rewrite !str_app_assoc. cbn [String.append skip]. eval_tests.
    rewrite parse_chars_escape_all. cbn [skip]. eval_tests. rewrite Hj by (done || lia). cbn [skip]. by eval_tests.
  - change (fields_string ((k, j) :: kj' :: l))
      with (print_string k +:+ ":" +:+ stringify j +:+ "," +:+ fields_string (kj' :: l)).
    unfold print_string. rewrite !str_app_assoc. cbn [String.append skip]. eval_tests.
    rewrite parse_chars_escape_all. cbn [skip]. eval_tests. rewrite Hj by (done || lia). cbn [skip]. eval_tests.
    by rewrite IH by (done || lia).
Qed.

Lemma parses_all j : parses j.
Proof.
  induction j using json_ind_nested; intros fuel r Hf Hr; (destruct fuel as [|fuel]; [cbn in Hf; lia|]).
  - reflexivity.
  - destruct b; reflexivity.
  - cbn [parse_value stringify]. rewrite (skip_stringify (JNum n)). cbn [stringify].
    pose proof (parse_number_stringify n r Hr) as Hp. pose proof (js_String_shape n) as Hs.
    pose proof (js_String_nonempty n) as Hne.
    destruct (js_String n) as [|c s] eqn:E; [done|]. cbn [String.append] in *.
    assert (is_digit c = true ∨ c = "-"%char) as Hc.
    { destruct Hs as [Hs|(s' & [= -> ->] & _)]; [|by right]. cbn in Hs. bool_to_prop. by left. }
    rewrite Hp. destruct Hc as [Hc| ->]; [|reflexivity].
    destruct c as [[] [] [] [] [] [] [] []]; try discriminate Hc; reflexivity.
  - cbn [parse_value stringify]. unfold print_string. cbn [String.append skip]. eval_tests.
    by rewrite parse_chars_escape_all.
  - change (stringify (JArr l)) with ("[" +:+ elems_string l). destruct l as [|j l]; [done|].
    assert (value_head (elems_string (j :: l) +:+ r) = true) as Hh.
    { destruct l; cbn [elems_string]; rewrite str_app_assoc; apply value_head_app, stringify_head. }
    pose proof (parses_elems _ H fuel r ltac:(done)) as Hp.
    cbn [json_size sum_list_with] in *. specialize (Hp ltac:(lia)).
    rewrite str_app_assoc. cbn [parse_value String.append skip]. eval_tests.
    rewrite value_head_skip by done.
    destruct (elems_string (j :: l) +:+ r) as [|c s]; [done|].
    cbn [value_head] in Hh. apply andb_true_iff in Hh as [Hh _].
    apply andb_true_iff in Hh as [_ Hh%negb_true_iff]. by rewrite Hh, Hp.
  - change (stringify (JObj l)) with ("{" +:+ fields_string l). destruct l as [|[k j] l]; [done|].
    pose proof (parses_fields _ H fuel r ltac:(done)) as Hp.
    cbn [json_size sum_list_with] in *. specialize (Hp ltac:(lia)).
    assert (∃ s, fields_string ((k, j) :: l) +:+ r = String quote s) as [s Hs].
    { destruct l; cbn [fields_string]; unfold print_string; cbn; eauto. }
    rewrite str_app_assoc. rewrite Hs in *. cbn [parse_value String.append skip]. eval_tests.
    by rewrite Hp.
Qed.

Lemma elems_size l :
  Forall (λ j, (json_size j ≤ 2 * String.length (stringify j))%nat) l →
  (sum_list_with (λ j, S (json_size j)) l ≤ 2 * String.length (elems_string l))%nat.
Proof.
  induction 1 as [|j l Hj Hl IH]; cbn [sum_list_with]; [cbn; lia|]. destruct l as [|j' l].
  - cbn -[stringify json_size]. rewrite str_app_length. cbn -[stringify json_size]. lia.
  - change (elems_string (j :: j' :: l)) with (stringify j +:+ "," +:+ elems_string (j' :: l)).
    rewrite !str_app_length. cbn [String.length]. cbn [sum_list_with] in *. lia.
Qed.

Lemma fields_size l :
  Forall (λ kj : string * json, (json_size kj.2 ≤ 2 * String.length (stringify kj.2))%nat) l →
  (sum_list_with (λ kj, S (json_size kj.2)) l ≤ 2 * String.length (fields_string l))%nat.
Proof.
  induction 1 as [|[k j] l Hj Hl IH]; cbn [sum_list_with]; [cbn; lia|]. cbn [snd] in *.
  destruct l as [|kj' l].
  - change (fields_string [(k, j)]) with (print_string k +:+ ":" +:+ stringify j +:+ "}").
    rewrite !str_app_length. cbn [String.length sum_list_with]. lia.
  - change (fields_string ((k, j) :: kj' :: l))
      with (print_string k +:+ ":" +:+ stringify j +:+ "," +:+ fields_string (kj' :: l)).
    rewrite !str_app_length. cbn [String.length]. cbn [sum_list_with] in *. lia.
Qed.

Lemma json_size_length j : (json_size j ≤ 2 * String.length (stringify j))%nat.
Proof.
  induction j using json_ind_nested.
  - cbn; lia.
  - destruct b; cbn; lia.
  - cbn. pose proof (js_String_nonempty n). destruct (js_String n); [done|cbn; lia].
  - cbn. lia.
  - change (stringify (JArr l)) with ("[" +:+ elems_string l). rewrite str_app_length.
    pose proof (elems_size l H). cbn [json_size String.length]. lia.
  - change (stringify (JObj l)) with ("{" +:+ fields_string l). rewrite str_app_length.
    pose proof (fields_size l H). cbn [json_size String.length]. lia.
Qed.

(** [JSON.parse(JSON.stringify(j))] is [j]. *)
Lemma parse_stringify j : parse (stringify j) = Some j.
Proof.
  unfold parse. pose proof (json_size_length j) as Hs.
  pose proof (parses_all j (2 * String.length (stringify j) + 1)%nat "" ltac:(lia) eq_refl) as Hp.
  rewrite str_app_nil in Hp. by rewrite Hp.
Qed.

#[export] Instance stringify_inj : Inj (=) (=) stringify.
Proof. intros x y H. apply (inj Some). by rewrite <- !parse_stringify, H. Qed.
