(* ===== verification/JsMap.v ===== *)
(** * JavaScript maps

    [Map] objects keyed by strings as association lists in insertion order:
    setting a present key keeps its position, a new key goes last. *)

From S2P Require Export Prelude.

(** ** JavaScript [Map]s with string keys, in insertion order *)
Section js_map.
Context {V : Type}.
Implicit Types (m : list (string * V)).

Fixpoint map_get (k : string) m : option V :=
  match m with
  | [] => None
  | (k', v) :: m' => if String.eqb k k' then Some v else map_get k m'
  end.
Definition map_delete (k : string) m : list (string * V) :=
  List.filter (λ kv, negb (String.eqb k kv.1)) m.
Definition map_has (k : string) m : bool := bool_decide (is_Some (map_get k m)).
Fixpoint map_set (k : string) (v : V) m : list (string * V) :=
  match m with
  | [] => [(k, v)]
  | (k', v') :: m' => if String.eqb k k' then (k', v) :: m' else (k', v') :: map_set k v m'
  end.
Definition map_keys m : list string := map fst m.

Lemma map_get_set k k' v m :
  map_get k' (map_set k v m) = if String.eqb k' k then Some v else map_get k' m.
Proof.
  induction m as [|[k0 v0] m IH]; cbn; [done|].
  destruct (String.eqb_spec k k0) as [->|Hk]; cbn.
  - by destruct (String.eqb k' k0).
  - rewrite IH. destruct (String.eqb_spec k' k0) as [->|]; [|done].
    destruct (String.eqb_spec k0 k); [congruence|done].
Qed.

Lemma map_get_In k m x : map_get k m = Some x → In (k, x) m.
Proof.
  induction m as [|[k0 v0] m IH]; cbn; [done|].
  destruct (String.eqb_spec k k0) as [->|]; [|auto]. intros [= ->]. by left.
Qed.

Lemma In_map_get k m x : NoDup (map_keys m) → In (k, x) m → map_get k m = Some x.
Proof.
  induction m as [|[k0 v0] m IH]; cbn; [done|]. intros [Hn Hd]%NoDup_cons [[= -> ->]|Hin].
  - by rewrite String.eqb_refl.
  - destruct (String.eqb_spec k k0) as [->|]; [|auto]. exfalso. apply Hn.
    apply list_elem_of_In, in_map_iff. by exists (k0, x).
Qed.

Lemma map_get_incl k m m' x :
  NoDup (map_keys m) → (∀ kv, In kv m' → In kv m) → map_get k m' = Some x → map_get k m = Some x.
Proof. intros Hm Hi H. apply In_map_get; [done|]. by apply Hi, map_get_In. Qed.

Lemma map_get_delete k k' m :
  map_get k' (map_delete k m) = if String.eqb k k' then None else map_get k' m.
Proof.
  unfold map_delete. induction m as [|[k0 v0] m IH]; cbn; [by destruct (String.eqb k k')|].
  destruct (String.eqb_spec k k0) as [->|Hk]; cbn; rewrite IH.
  - destruct (String.eqb_spec k0 k') as [->|Hn]; [done|].
    destruct (String.eqb_spec k' k0); congruence.
  - destruct (String.eqb_spec k' k0) as [->|]; [|done].
    destruct (String.eqb_spec k k0); congruence.
Qed.

Lemma NoDup_filter_keys (P : string * V → bool) m :
  NoDup (map_keys m) → NoDup (map_keys (List.filter P m)).
Proof.
  induction m as [|kv m IH]; cbn; [done|]. intros [Hn Hd]%NoDup_cons.
  destruct (P kv); cbn; [|auto]. apply NoDup_cons. split; [|auto].
  intros (kv' & Heq & [Hin _]%filter_In)%list_elem_of_In%in_map_iff.
  apply Hn, list_elem_of_In, in_map_iff. eauto.
Qed.

Lemma map_set_keys k v m :
  map_keys (map_set k v m) = if map_has k m then map_keys m else map_keys m ++ [k].
Proof.
  unfold map_has, map_keys. induction m as [|[k0 v0] m IH]; cbn; [done|].
  destruct (String.eqb_spec k k0) as [->|Hk]; cbn; [done|]. rewrite IH.
  by destruct (bool_decide _).
Qed.

Lemma map_get_None_keys k m : map_get k m = None → k ∉ map_keys m.
Proof.
  induction m as [|[k0 v0] m IH]; cbn; [intros _; apply not_elem_of_nil|].
  destruct (String.eqb_spec k k0) as [->|Hk]; [done|]. intros Hm.
  apply not_elem_of_cons. auto.
Qed.

Lemma map_has_false_get k m : map_has k m = false → map_get k m = None.
Proof.
  unfold map_has. intros H%bool_decide_eq_false. by apply eq_None_not_Some.
Qed.

Lemma NoDup_map_set k v m : NoDup (map_keys m) → NoDup (map_keys (map_set k v m)).
Proof.
  intros Hm. rewrite map_set_keys. destruct (map_has k m) eqn:Hk; [done|].
  apply NoDup_app. split; [done|]. split; [|apply NoDup_singleton].
  intros x Hx ->%list_elem_of_singleton. by apply (map_get_None_keys k m (map_has_false_get k m Hk)).
Qed.

Lemma map_set_length k v m :
  length (map_set k v m) = (length m + if map_has k m then 0 else 1)%nat.
Proof.
  pose proof (map_set_keys k v m) as Hk. apply (f_equal length) in Hk. unfold map_keys in Hk.
  rewrite length_map in Hk. rewrite Hk. destruct (map_has k m); rewrite ?length_app, length_map; cbn; lia.
Qed.

Lemma map_has_delete k m : map_has k (map_delete k m) = false.
Proof. unfold map_has. rewrite map_get_delete, String.eqb_refl. done. Qed.
End js_map.

(** ** Sorting

    [Array.prototype.sort] with a numeric comparator is stable. *)
Section stable_sort.
Context {A : Type} (key : A → Z).

Fixpoint sort_insert (x : A) (l : list A) : list A :=
  match l with
  | [] => [x]
  | y :: l' => if key x <=? key y then x :: y :: l' else y :: sort_insert x l'
  end.

(** [l.sort((a, b) => key(a) - key(b))]. *)
Definition sort_by (l : list A) : list A := foldr sort_insert [] l.

Lemma sort_insert_perm x l : sort_insert x l ≡ₚ x :: l.
Proof.
  induction l as [|y l IH]; cbn; [done|]. destruct (key x <=? key y); [done|].
  rewrite IH. apply Permutation_swap.
Qed.

Lemma sort_by_perm l : sort_by l ≡ₚ l.
Proof. induction l as [|x l IH]; cbn; [done|]. by rewrite sort_insert_perm, IH. Qed.

Lemma sort_insert_sorted x l :
  StronglySorted (λ a b, key a <= key b) l → StronglySorted (λ a b, key a <= key b) (sort_insert x l).
Proof.
  induction 1 as [|y l Hl IH Hy]; cbn; [by repeat constructor|].
  destruct (Z.leb_spec (key x) (key y)).
  - repeat (constructor; try done). eapply Forall_impl; [exact Hy|]. cbn. lia.
  - constructor; [done|]. rewrite sort_insert_perm. constructor; [lia|done].
Qed.

Lemma sort_by_sorted l : StronglySorted (λ a b, key a <= key b) (sort_by l).
Proof. induction l as [|x l IH]; cbn; [constructor|]. by apply sort_insert_sorted. Qed.

Lemma In_sort_by x l : In x (sort_by l) ↔ In x l.
Proof. rewrite <- !list_elem_of_In. by rewrite sort_by_perm. Qed.

(** The first match of a sorted list has the least key among the matches. *)
Lemma find_sort_by f l x :
  List.find f (sort_by l) = Some x →
  In x l ∧ f x = true ∧ ∀ y, In y l → f y = true → key x <= key y.
Proof.
  intros [Hf (l1 & l2 & Hs & Hl1)]%find_split. pose proof (sort_by_sorted l) as Hsort.
  assert (In x (sort_by l)) as Hin by (rewrite Hs, in_app_iff; cbn; auto).
  split; [by apply In_sort_by|]. split; [done|]. intros y Hy Hfy. apply In_sort_by in Hy.
  rewrite Hs, in_app_iff in Hy. cbn in Hy. destruct Hy as [Hy|[<-|Hy]]; [|lia|].
  - by rewrite (Hl1 y Hy) in Hfy.
  - rewrite Hs in Hsort. clear -Hsort Hy. induction l1 as [|z l1 IH]; inversion Hsort; subst; [|auto].
    rewrite List.Forall_forall in H2. by apply H2.
Qed.

Lemma find_sort_by_none f l : List.find f (sort_by l) = None → ∀ y, In y l → f y = false.
Proof. intros H y Hy. apply (find_none_all _ _ _ H). by apply In_sort_by. Qed.
End stable_sort.
