(* ===== verification/Effects.v ===== *)
(** * Effects

    Handlers are programs: trees whose nodes are the atomic actions the code
    performs on the shared world (one database command, one cache command, one
    read of the clock), so that the same definition is run sequentially, with
    failures, or interleaved with other handlers (file [Interleave]). *)

From S2P Require Export Errors.

Inductive prog (W : Type) (A : Type) : Type :=
| Ret (a : A)
| Throw (e : exn)
| Atom (R : Type) (f : W → W * R) (k : R → prog W A).
Arguments Ret {W A} a.
Arguments Throw {W A} e.
Arguments Atom {W A R} f k.

(** ** Sequencing, exceptions, loops *)
Fixpoint prog_bind {W A B} (k : A → prog W B) (p : prog W A) : prog W B :=
  match p with
  | Ret a => k a
  | Throw e => Throw e
  | Atom f c => Atom f (λ r, prog_bind k (c r))
  end.

#[export] Instance prog_mret {W} : MRet (prog W) := λ A a, Ret a.
#[export] Instance prog_mbind {W} : MBind (prog W) := λ A B k p, prog_bind k p.

(** [try { p } catch (e) { h(e) }]. *)
Fixpoint try_catch {W A} (p : prog W A) (h : exn → prog W A) : prog W A :=
  match p with
  | Ret a => Ret a
  | Throw e => h e
  | Atom f c => Atom f (λ r, try_catch (c r) h)
  end.

(** [try { p } finally { fin }]. *)
Definition finally {W A} (p : prog W A) (fin : prog W ()) : prog W A :=
  r ← try_catch (a ← p; mret (inr a)) (λ e, mret (inl e));
  fin ;;
  match r with inl e => Throw e | inr a => mret a end.

(** [if (c) throw e;]. *)
Definition throw_if {W} (c : bool) (e : exn) : prog W () := if c then Throw e else mret tt.

(** [for (const x of l) body(x)]. *)
Fixpoint for_each {W A} (l : list A) (body : A → prog W ()) : prog W () :=
  match l with
  | [] => mret tt
  | x :: l' => body x ;; for_each l' body
  end.

(** [for (const x of l)] whose body may [return]. *)
Fixpoint for_return {W A B} (l : list A) (body : A → prog W (option B)) : prog W (option B) :=
  match l with
  | [] => mret None
  | x :: l' => r ← body x; match r with Some b => mret (Some b) | None => for_return l' body end
  end.

(** ** Sequential execution *)
Fixpoint run {W A} (p : prog W A) (w : W) : W * (exn + A) :=
  match p with
  | Ret a => (w, inr a)
  | Throw e => (w, inl e)
  | Atom f k => let '(w', r) := f w in run (k r) w'
  end.

(** The outcome of running [p] from [w] satisfies [Φ]. *)
Definition wp {W A} (p : prog W A) (Φ : W → exn + A → Prop) (w : W) : Prop :=
  Φ (run p w).1 (run p w).2.

Section run.
Context {W : Type}.

Lemma run_ret {A} (a : A) (w : W) : run (mret a) w = (w, inr a).
Proof. done. Qed.

Lemma run_bind {A B} (p : prog W A) (k : A → prog W B) w :
  run (p ≫= k) w =
  match run p w with (w', inr a) => run (k a) w' | (w', inl e) => (w', inl e) end.
Proof.
  unfold mbind, prog_mbind. revert w. induction p as [a|e|R f c IH]; intros w; cbn; [done..|].
  destruct (f w) as [w' r]. apply IH.
Qed.

Lemma run_catch {A} (p : prog W A) h w :
  run (try_catch p h) w =
  match run p w with (w', inr a) => (w', inr a) | (w', inl e) => run (h e) w' end.
Proof.
  revert w. induction p as [a|e|R f c IH]; intros w; cbn; [done..|].
  destruct (f w) as [w' r]. apply IH.
Qed.

Lemma run_throw_if c e (w : W) :
  run (throw_if c e) w = (w, if c then inl e else inr tt).
Proof. by destruct c. Qed.

Lemma run_finally {A} (p : prog W A) fin w :
  run (finally p fin) w =
  let '(w1, r) := run p w in
  match run fin w1 with
  | (w2, inl e) => (w2, inl e)
  | (w2, inr _) => (w2, r)
  end.
Proof.
  unfold finally. rewrite run_bind, run_catch, run_bind.
  destruct (run p w) as [w1 [e|a]]; cbn; rewrite run_bind;
    destruct (run fin w1) as [w2 [e'|[]]]; done.
Qed.

(** Inversion of a successful run. *)
Lemma run_bind_ok {A B} (p : prog W A) (k : A → prog W B) w w' b :
  run (p ≫= k) w = (w', inr b) →
  ∃ w1 a, run p w = (w1, inr a) ∧ run (k a) w1 = (w', inr b).
Proof. rewrite run_bind. destruct (run p w) as [w1 [e|a]]; [done|]. eauto. Qed.

Lemma run_throw_if_ok c e (w w' : W) u :
  run (throw_if c e) w = (w', inr u) → c = false ∧ w' = w.
Proof. rewrite run_throw_if. destruct c; [done|]. naive_solver. Qed.

Lemma run_ret_ok {A} (a b : A) (w w' : W) :
  run (mret a) w = (w', inr b) → w' = w ∧ b = a.
Proof. intros [= <- <-]. done. Qed.

Lemma run_catch_ok {A} (p : prog W A) h w w' a :
  run (try_catch p h) w = (w', inr a) →
  run p w = (w', inr a) ∨ ∃ w1 e, run p w = (w1, inl e) ∧ run (h e) w1 = (w', inr a).
Proof. rewrite run_catch. destruct (run p w) as [w1 [e|b]]; [right; eauto|left; done]. Qed.

(** ** Sequential program logic *)
Lemma wp_mono {A} (p : prog W A) (Φ Ψ : W → exn + A → Prop) w :
  wp p Φ w → (∀ w' r, Φ w' r → Ψ w' r) → wp p Ψ w.
Proof. unfold wp. auto. Qed.

Lemma wp_ret {A} (a : A) (Φ : W → exn + A → Prop) w : Φ w (inr a) → wp (mret a) Φ w.
Proof. done. Qed.

Lemma wp_throw {A} e (Φ : W → exn + A → Prop) w : Φ w (inl e) → wp (Throw e) Φ w.
Proof. done. Qed.

Lemma wp_bind {A B} (p : prog W A) (k : A → prog W B) Φ w :
  wp p (λ w' r, match r with inr a => wp (k a) Φ w' | inl e => Φ w' (inl e) end) w →
  wp (p ≫= k) Φ w.
Proof. unfold wp. rewrite run_bind. by destruct (run p w) as [w' [e|a]]. Qed.

Lemma wp_catch {A} (p : prog W A) h Φ w :
  wp p (λ w' r, match r with inr a => Φ w' (inr a) | inl e => wp (h e) Φ w' end) w →
  wp (try_catch p h) Φ w.
Proof. unfold wp. rewrite run_catch. by destruct (run p w) as [w' [e|a]]. Qed.

Lemma wp_throw_if c e (Φ : W → exn + () → Prop) w :
  (c = true → Φ w (inl e)) → (c = false → Φ w (inr tt)) → wp (throw_if c e) Φ w.
Proof. unfold wp. rewrite run_throw_if. destruct c; auto. Qed.

Lemma wp_finally {A} (p : prog W A) fin Φ w :
  wp p (λ w1 r, wp fin (λ w2 r2, match r2 with inr _ => Φ w2 r | inl e => Φ w2 (inl e) end) w1) w →
  wp (finally p fin) Φ w.
Proof.
  unfold wp. rewrite run_finally. destruct (run p w) as [w1 r]. cbn.
  by destruct (run fin w1) as [w2 [e|[]]].
Qed.

(** A loop whose body preserves an invariant, whether or not it throws. *)
Lemma wp_for_each {A} (l : list A) (body : A → prog W ()) (I : W → Prop) w :
  (∀ x w, In x l → I w → wp (body x) (λ w' _, I w') w) →
  I w → wp (for_each l body) (λ w' _, I w') w.
Proof.
  revert w. induction l as [|x l IH]; intros w Hb HI; cbn; [done|].
  apply wp_bind. eapply wp_mono; [apply Hb; [by left|done]|].
  intros w' [e|[]] HI'; [done|]. apply IH; [|done]. intros y v Hy. apply Hb. by right.
Qed.
End run.

(** Programs that return whatever the actions of the world yield. *)
Fixpoint cannot_throw {W A} (p : prog W A) : Prop :=
  match p with
  | Ret _ => True
  | Throw _ => False
  | Atom _ k => ∀ r, cannot_throw (k r)
  end.

Lemma cannot_throw_bind {W A B} (p : prog W A) (k : A → prog W B) :
  cannot_throw p → (∀ a, cannot_throw (k a)) → cannot_throw (p ≫= k).
Proof. intros Hp Hk. unfold mbind, prog_mbind. induction p; cbn in *; auto. Qed.

Lemma cannot_throw_catch {W A} (p : prog W A) h :
  (∀ e, cannot_throw (h e)) → cannot_throw (try_catch p h).
Proof. intros Hh. induction p; cbn; auto. Qed.

Lemma cannot_throw_run {W A} (p : prog W A) w : cannot_throw p → ∃ w' a, run p w = (w', inr a).
Proof.
  revert w. induction p as [a|e|R f k IH]; intros w Hp; cbn in *; [eauto|done|].
  destruct (f w) as [w' r]. by apply IH.
Qed.

Create Rewrite HintDb run_db.
#[export] Hint Rewrite @run_bind @run_catch @run_throw_if @run_ret @run_finally : run_db.
