(* ===== verification/Interleave.v ===== *)
(** * Interleavings

    Requests are served concurrently by any number of server instances that
    share the stores.  A pool of programs takes steps in any order, one atomic
    action at a time, and the environment (the clock, the TTL monitor, other
    handlers) may move between any two of them.  The section [credits] is the
    proof rule for the "at most n winners" properties. *)

From S2P Require Export Effects.

Section pool.
Context {W A : Type} (E : W → W → Prop).

Definition config : Type := W * list (prog W A).

Inductive pool_step : config → config → Prop :=
| env_step w w' ps : E w w' → pool_step (w, ps) (w', ps)
| thread_step w w' ps i R (f : W → W * R) k r :
    ps !! i = Some (Atom f k) → f w = (w', r) →
    pool_step (w, ps) (w', <[i := k r]> ps).

Definition reachable (c c' : config) : Prop := rtc pool_step c c'.

(** The results of the finished threads. *)
Definition returned (win : A → bool) (p : prog W A) : bool :=
  match p with Ret a => win a | _ => false end.
Definition winners (win : A → bool) (ps : list (prog W A)) : nat :=
  count (returned win) ps.
End pool.

(** The executions every step of which is taken in a world where [P] holds. *)
Definition reachable_while {W A} (P : W → Prop) (E : W → W → Prop) (c c' : W * list (prog W A)) : Prop :=
  rtc (λ c c', P c.1 ∧ pool_step E c c') c c'.

(** A schedule chooses the thread that moves next; scheduled runs are
    reachable configurations, and can be computed. *)
Definition sched_step {W A} (c : W * list (prog W A)) (i : nat) : W * list (prog W A) :=
  match c.2 !! i with
  | Some (Atom f k) => let '(w', r) := f c.1 in (w', <[i := k r]> c.2)
  | _ => c
  end.
Definition run_schedule {W A} (s : list nat) (c : W * list (prog W A)) : W * list (prog W A) :=
  foldl sched_step c s.

Lemma run_schedule_reachable {W A} (E : W → W → Prop) s (c : W * list (prog W A)) :
  reachable E c (run_schedule s c).
Proof.
  revert c. induction s as [|i s IH]; intros c; [apply rtc_refl|].
  change (run_schedule (i :: s) c) with (run_schedule s (sched_step c i)).
  specialize (IH (sched_step c i)). revert IH. generalize (run_schedule s (sched_step c i)).
  intros c'. destruct c as [w ps]. unfold sched_step. cbn.
  destruct (ps !! i) as [[a|e|R f k]|] eqn:Hi; [done..| |done].
  destruct (f w) as [w' r] eqn:Hf. intros Hr. eapply rtc_l; [|exact Hr]. by eapply thread_step.
Qed.

(** The worlds a schedule passes through. *)
Fixpoint visited {W A} (s : list nat) (c : W * list (prog W A)) : list W :=
  match s with [] => [] | i :: s => c.1 :: visited s (sched_step c i) end.
Lemma run_schedule_while {W A} (P : W → Prop) (E : W → W → Prop) s (c : W * list (prog W A)) :
  Forall P (visited s c) → reachable_while P E c (run_schedule s c).
Proof.
  revert c. induction s as [|i s IH]; intros c Hv; [apply rtc_refl|]. inversion Hv as [|? ? Hc Hs]; subst.
  change (run_schedule (i :: s) c) with (run_schedule s (sched_step c i)).
  destruct (c.2 !! i) as [[a|e|R f k]|] eqn:Hi.
  - assert (sched_step c i = c) as Hn by (unfold sched_step; by rewrite Hi). rewrite Hn in *. by apply IH.
  - assert (sched_step c i = c) as Hn by (unfold sched_step; by rewrite Hi). rewrite Hn in *. by apply IH.
  - eapply rtc_l; [|by apply IH]. split; [done|]. unfold sched_step. rewrite Hi. destruct c as [w ps].
    destruct (f w) as [w' r] eqn:Hf. cbn. rewrite Hf. by eapply thread_step.
  - assert (sched_step c i = c) as Hn by (unfold sched_step; by rewrite Hi). rewrite Hn in *. by apply IH.
Qed.

(** ** Guarantees

    Every action of [p] changes the world according to [R], whatever the others
    do in between. *)
Section guarantee.
Context {W : Type} (R : W → W → Prop).

Fixpoint guarantee {A} (p : prog W A) : Prop :=
  match p with
  | Ret _ | Throw _ => True
  | Atom f k => (∀ w, R w (f w).1) ∧ ∀ r, guarantee (k r)
  end.

Lemma guarantee_ret {A} (a : A) : guarantee (mret a).
Proof. done. Qed.
Lemma guarantee_throw {A} e : guarantee (Throw (A := A) e).
Proof. done. Qed.
Lemma guarantee_throw_if c e : guarantee (throw_if c e).
Proof. by destruct c. Qed.

Lemma guarantee_bind {A B} (p : prog W A) (k : A → prog W B) :
  guarantee p → (∀ a, guarantee (k a)) → guarantee (p ≫= k).
Proof.
  unfold mbind, prog_mbind. intros Hp Hk.
  induction p as [a|e|S f c IH]; cbn in *; [apply Hk|done|]. destruct Hp. eauto.
Qed.

Lemma guarantee_catch {A} (p : prog W A) h :
  guarantee p → (∀ e, guarantee (h e)) → guarantee (try_catch p h).
Proof.
  intros Hp Hh. induction p as [a|e|S f c IH]; cbn in *; [done|apply Hh|]. destruct Hp. eauto.
Qed.

Lemma guarantee_finally {A} (p : prog W A) fin :
  guarantee p → guarantee fin → guarantee (finally p fin).
Proof.
  intros Hp Hf. unfold finally. apply guarantee_bind.
  - apply guarantee_catch; [|done]. by apply guarantee_bind.
  - intros r. apply guarantee_bind; [done|]. by destruct r.
Qed.

Lemma guarantee_for_each {A} (l : list A) (body : A → prog W ()) :
  (∀ x, guarantee (body x)) → guarantee (for_each l body).
Proof. intros H. induction l as [|x l IH]; cbn; [done|]. by apply guarantee_bind. Qed.

Lemma guarantee_for_return {A B} (l : list A) (body : A → prog W (option B)) :
  (∀ x, guarantee (body x)) → guarantee (for_return l body).
Proof.
  intros H. induction l as [|x l IH]; cbn; [done|].
  apply guarantee_bind; [done|]. by intros [b|].
Qed.

Lemma guarantee_run `{!PreOrder R} {A} (p : prog W A) w :
  guarantee p → R w (run p w).1.
Proof.
  revert w. induction p as [a|e|S f c IH]; cbn; intros w Hp; [reflexivity..|].
  destruct Hp as [Hf Hc]. specialize (Hf w). destruct (f w) as [w' r]. cbn in *.
  etrans; [exact Hf|]. by apply IH.
Qed.

(** What every thread guarantees and the environment respects holds between
    any two worlds of a concurrent run. *)
Theorem guarantee_reachable `{!PreOrder R} {A} (E : W → W → Prop) w w' (ps ps' : list (prog W A)) :
  (∀ w w', E w w' → R w w') → Forall guarantee ps →
  reachable E (w, ps) (w', ps') → R w w'.
Proof.
  intros HE Hps Hr. change w with (w, ps).1. change w' with (w', ps').1.
  change ps with (w, ps).2 in Hps. revert Hps. generalize dependent (w', ps').
  generalize (w, ps). clear w ps w' ps'. intros c c' Hr.
  induction Hr as [c|c c1 c2 Hs _ IH]; intros Hps; [reflexivity|].
  destruct Hs as [v v' qs Hv|v v' qs i S f k r Hi Hf]; cbn in *.
  - etrans; [by apply HE|]. by apply IH.
  - destruct (Forall_lookup_1 _ _ _ _ Hps Hi) as [Hfw Hk]. specialize (Hfw v).
    rewrite Hf in Hfw. etrans; [exact Hfw|]. apply IH. apply Forall_insert; [done|apply Hk].
Qed.
End guarantee.

Lemma guarantee_mono {W A} (R R' : W → W → Prop) (p : prog W A) :
  (∀ w w', R' w w' → R w w') → guarantee R' p → guarantee R p.
Proof. intros HR. induction p; cbn; [done..|]. intros [Hf Hk]. auto. Qed.

Create HintDb guarantee_db.
#[export] Hint Resolve guarantee_ret guarantee_throw guarantee_throw_if guarantee_bind
  guarantee_catch guarantee_finally guarantee_for_each guarantee_for_return : guarantee_db.

(** ** Credits

    [credit w] is the amount of a resource left in the store.  A program
    [pays n p Φ] never creates the resource: each of its actions takes from
    the store at least what it adds to the amount [n] the thread holds. *)
Section credits_while.
Context {W : Type} (I J : W → Prop) (credit : W → nat).

(** Every action taken where [I] holds leads to where [J] does. *)

Fixpoint pays_while {A} (n : nat) (p : prog W A) (Φ : exn + A → nat → Prop) : Prop :=
  match p with
  | Ret a => Φ (inr a) n
  | Throw e => Φ (inl e) n
  | Atom f k =>
    ∀ w, I w → J (f w).1 ∧
      ∃ n', (credit (f w).1 + n' ≤ credit w + n)%nat ∧ pays_while n' (k (f w).2) Φ
  end.

Lemma pays_mono {A} n (p : prog W A) (Φ Ψ : exn + A → nat → Prop) :
  pays_while n p Φ → (∀ r m, Φ r m → Ψ r m) → pays_while n p Ψ.
Proof.
  intros Hp HΦ. revert n Hp. induction p as [a|e|R f k IH]; cbn; intros n Hp; [auto..|].
  intros w Hw. destruct (Hp w Hw) as (HI & n' & Hle & Hk). split; [done|]. exists n'. eauto.
Qed.

Lemma pays_bind {A B} n (p : prog W A) (k : A → prog W B) Φ :
  pays_while n p (λ r m, match r with inr a => pays_while m (k a) Φ | inl e => Φ (inl e) m end) →
  pays_while n (p ≫= k) Φ.
Proof.
  unfold mbind, prog_mbind. revert n. induction p as [a|e|R f c IH]; cbn; intros n Hp; [done..|].
  intros w Hw. destruct (Hp w Hw) as (HI & n' & Hle & Hk). split; [done|]. exists n'. eauto.
Qed.

Lemma pays_catch {A} n (p : prog W A) h Φ :
  pays_while n p (λ r m, match r with inr a => Φ (inr a) m | inl e => pays_while m (h e) Φ end) →
  pays_while n (try_catch p h) Φ.
Proof.
  revert n. induction p as [a|e|R f c IH]; cbn; intros n Hp; [done..|].
  intros w Hw. destruct (Hp w Hw) as (HI & n' & Hle & Hk). split; [done|]. exists n'. eauto.
Qed.

Lemma pays_atom {A R} n (f : W → W * R) (k : R → prog W A) Φ :
  (∀ w, I w → J (f w).1 ∧
     ∃ n', (credit (f w).1 + n' ≤ credit w + n)%nat ∧ pays_while n' (k (f w).2) Φ) →
  pays_while n (Atom f k) Φ.
Proof. done. Qed.

(** Harmless programs keep the invariant and never add to the resource. *)
Definition harmless_while {A} (p : prog W A) : Prop := pays_while 0 p (λ _ _, True).

Lemma pays_frame {A} n m (p : prog W A) Φ :
  pays_while n p Φ → pays_while (n + m) p (λ r n', ∃ n'', n' = (n'' + m)%nat ∧ Φ r n'').
Proof.
  revert n. induction p as [a|e|R f k IH]; cbn; intros n Hp; [eauto..|].
  intros w Hw. destruct (Hp w Hw) as (HI & n' & Hle & Hk). split; [done|].
  exists (n' + m)%nat. split; [lia|]. eauto.
Qed.

Lemma pays_harmless_bind {A B} n (p : prog W A) (k : A → prog W B) (Φ : exn + B → nat → Prop) :
  harmless_while p →
  (∀ m e, (n ≤ m)%nat → Φ (inl e) m) →
  (∀ m a, (n ≤ m)%nat → pays_while m (k a) Φ) →
  pays_while n (p ≫= k) Φ.
Proof.
  intros Hp He Hk. apply pays_bind. apply (pays_frame _ n) in Hp. cbn in Hp.
  eapply pays_mono; [exact Hp|]. intros [e|a] m (m' & -> & _); [apply He|apply Hk]; lia.
Qed.

Lemma harmless_ret {A} (a : A) : harmless_while (mret a).
Proof. done. Qed.
Lemma harmless_throw {A} e : harmless_while (Throw (A := A) e).
Proof. done. Qed.
Lemma harmless_throw_if c e : harmless_while (throw_if c e).
Proof. by destruct c. Qed.

Lemma harmless_pays {A} n (p : prog W A) : harmless_while p → pays_while n p (λ _ _, True).
Proof. intros H. eapply pays_mono; [apply (pays_frame 0 n), H|]. done. Qed.

Lemma harmless_bind {A B} (p : prog W A) (k : A → prog W B) :
  harmless_while p → (∀ a, harmless_while (k a)) → harmless_while (p ≫= k).
Proof.
  intros Hp Hk. apply pays_harmless_bind; [done|done|]. intros m a _. by apply harmless_pays.
Qed.

Lemma harmless_catch {A} (p : prog W A) h :
  harmless_while p → (∀ e, harmless_while (h e)) → harmless_while (try_catch p h).
Proof.
  intros Hp Hh. apply pays_catch. eapply pays_mono; [exact Hp|].
  intros [e|a] m _; [|done]. by apply harmless_pays.
Qed.

Lemma harmless_atom {A R} (f : W → W * R) (k : R → prog W A) :
  (∀ w, I w → J (f w).1 ∧ (credit (f w).1 ≤ credit w)%nat) →
  (∀ r, harmless_while (k r)) → harmless_while (Atom f k).
Proof.
  intros Hf Hk w Hw. destruct (Hf w Hw). split; [done|]. exists 0%nat. split; [lia|apply Hk].
Qed.

Lemma harmless_finally {A} (p : prog W A) fin :
  harmless_while p → harmless_while fin → harmless_while (finally p fin).
Proof.
  intros Hp Hf. unfold finally. apply harmless_bind.
  - apply harmless_catch; [|done]. by apply harmless_bind.
  - intros r. apply harmless_bind; [done|]. by destruct r.
Qed.

Lemma harmless_for_each {A} (l : list A) (body : A → prog W ()) :
  (∀ x, harmless_while (body x)) → harmless_while (for_each l body).
Proof. intros H. induction l as [|x l IH]; cbn; [done|]. by apply harmless_bind. Qed.

Lemma harmless_for_return {A B} (l : list A) (body : A → prog W (option B)) :
  (∀ x, harmless_while (body x)) → harmless_while (for_return l body).
Proof.
  intros H. induction l as [|x l IH]; cbn; [done|].
  apply harmless_bind; [done|]. by intros [b|].
Qed.

Lemma pays_harmless {A} n (p : prog W A) (Φ : exn + A → nat → Prop) :
  harmless_while p → (∀ r m, (n ≤ m)%nat → Φ r m) → pays_while n p Φ.
Proof.
  intros Hp HΦ. apply (pays_frame _ n) in Hp. cbn in Hp.
  eapply pays_mono; [exact Hp|]. intros r m (m' & -> & _). apply HΦ. lia.
Qed.

(** ** The pool rule *)
Section pool_rule.
Context {A : Type} (E : W → W → Prop) (win : A → bool).
Hypothesis env_ok : ∀ w w', E w w' → I w → J w' ∧ (credit w' ≤ credit w)%nat.

Definition won (r : exn + A) (m : nat) : Prop :=
  match r with inr a => win a = true → (1 ≤ m)%nat | inl _ => True end.

Definition funded (w : W) (ps : list (prog W A)) (total : nat) : Prop :=
  ∃ ns, Forall2 (λ n p, pays_while n p won) ns ps ∧ (credit w + sum_list ns ≤ total)%nat.

Lemma sum_list_insert (ns : list nat) i n n' :
  ns !! i = Some n → (sum_list (<[i := n']> ns) + n = sum_list ns + n')%nat.
Proof.
  intros Hi. rewrite <- (list_insert_id ns i n Hi) at 2.
  rewrite !insert_take_drop by (by eapply lookup_lt_Some).
  rewrite !sum_list_with_app. cbn [sum_list_with]. unfold id. lia.
Qed.

Lemma funded_step c c' total :
  pool_step E c c' → I c.1 → funded c.1 c.2 total → J c'.1 ∧ funded c'.1 c'.2 total.
Proof.
  intros Hs HI (ns & Hns & Htot). destruct Hs as [w w' ps HE|w w' ps i R f k r Hi Hf]; cbn in *.
  - destruct (env_ok w w' HE HI) as [HI' Hle]. split; [done|]. exists ns. split; [done|lia].
  - destruct (Forall2_lookup_r _ _ _ _ _ Hns Hi) as (n & Hn & Hp).
    destruct (Hp w HI) as (HI' & n' & Hle & Hk). rewrite Hf in HI', Hle, Hk. cbn in *.
    split; [done|]. exists (<[i := n']> ns). split.
    + by apply Forall2_insert.
    + pose proof (sum_list_insert ns i n n' Hn). lia.
Qed.

Lemma funded_winners w ps total : funded w ps total → (winners win ps ≤ total)%nat.
Proof.
  intros (ns & Hns & Htot). enough (winners win ps ≤ sum_list ns)%nat by lia.
  clear Htot. induction Hns as [|n p ns ps Hp _ IH]; [done|].
  unfold winners in *. rewrite count_cons. 
  cbn [sum_list_with]. unfold id at 1.
  enough ((if returned win p then 1 else 0) ≤ n)%nat by lia.
  destruct p as [a|e|R f k]; cbn in *; [|lia..]. destruct (win a); [by apply Hp|lia].
Qed.

Lemma funded_start w ps : Forall (λ p, pays_while 0 p won) ps → funded w ps (credit w).
Proof.
  intros Hps. exists (replicate (length ps) 0%nat). split.
  - induction Hps; cbn; constructor; auto.
  - rewrite sum_list_replicate. lia.
Qed.

(** However the threads interleave, no more of them win than the store had
    credits to start with: in executions every step of which is taken in a world
    where [P] holds, if [P] is what [I] asks beyond [J]. *)
Theorem winners_bounded_while (P : W → Prop) w w' ps ps' :
  (∀ v, J v → P v → I v) → J w → Forall (λ p, pays_while 0 p won) ps →
  reachable_while P E (w, ps) (w', ps') → (winners win ps' ≤ credit w)%nat.
Proof.
  intros HP HJ Hps Hr. apply (funded_winners w' ps').
  enough (∀ c c' : config, reachable_while P E c c' → J c.1 → funded c.1 c.2 (credit w) → funded c'.1 c'.2 (credit w)) as Hgo.
  { apply (Hgo _ _ Hr HJ). by apply funded_start. }
  clear w' ps' Hr. intros c c' Hr. induction Hr as [c|c c1 c2 [Hc Hs] _ IH]; [done|]. intros HJc Hf.
  destruct (funded_step _ _ _ Hs (HP _ HJc Hc) Hf). auto.
Qed.
End pool_rule.
End credits_while.

Notation pays I := (pays_while I I).
Notation harmless I := (harmless_while I I).

Section credits.
Context {W : Type} (I : W → Prop) (credit : W → nat).

(** Programs that never add to the resource, from their actions. *)
Definition keeps (w w' : W) : Prop := I w → I w' ∧ (credit w' ≤ credit w)%nat.

#[export] Instance keeps_preorder : PreOrder keeps.
Proof.
  split; [intros w Hw; by split|]. intros w1 w2 w3 H1 H2 Hw.
  destruct (H1 Hw) as [Hw2 ?]. destruct (H2 Hw2) as [Hw3 ?]. split; [done|lia].
Qed.

Lemma guarantee_harmless {A} (p : prog W A) : guarantee keeps p → harmless I credit p.
Proof.
  induction p as [a|e|R f k IH]; intros Hp; [done..|]. destruct Hp as [Hf Hk].
  apply harmless_atom; [|auto]. intros w Hw. by apply Hf.
Qed.

(** The rule when every world counts. *)
Theorem winners_bounded {A} (E : W → W → Prop) (win : A → bool)
    (HE : ∀ w w', E w w' → I w → I w' ∧ (credit w' ≤ credit w)%nat) w w' ps ps' :
  I w → Forall (λ p, pays I credit 0 p (won win)) ps →
  reachable E (w, ps) (w', ps') → (winners win ps' ≤ credit w)%nat.
Proof.
  intros HI Hps Hr. apply (winners_bounded_while I I credit E win HE (λ _, True) w w' ps ps'); [done..|].
  eapply rtc_subrel; [|exact Hr]. by split.
Qed.
End credits.

(** An invariant every action of every thread keeps, as long as it holds, holds
    in every reachable world. *)
Theorem invariant_reachable {W A} (I : W → Prop) (E : W → W → Prop) w w' (ps ps' : list (prog W A)) :
  (∀ w w', E w w' → I w → I w') → Forall (harmless I (λ _, 0%nat)) ps →
  reachable E (w, ps) (w', ps') → I w → I w'.
Proof.
  intros HE Hps Hr HI.
  enough (∀ c c' : config, reachable E c c' → I c.1 →
    funded I I (λ _, 0%nat) (λ _ : A, false) c.1 c.2 0 → I c'.1) as Hgo.
  { apply (Hgo _ _ Hr HI). exists (replicate (length ps) 0%nat). split.
    - clear Hr. induction Hps as [|p ps Hp _ IH]; cbn; constructor; [|exact IH].
      eapply pays_mono; [exact Hp|]. by intros [e|a] m.
    - rewrite sum_list_replicate. cbn. lia. }
  clear w w' ps ps' Hps Hr HI. intros c c' Hr. induction Hr as [c|c c1 c2 Hs _ IH]; [done|]. intros HI Hf.
  assert (∀ w w', E w w' → I w → I w' ∧ (0 ≤ 0)%nat) as HE' by (intros w v Hv Hw; split; [by eapply HE|lia]).
  destruct (funded_step I I (λ _, 0%nat) E (λ _ : A, false) HE' _ _ _ Hs HI Hf) as [HI' Hf']. by apply IH.
Qed.

(** What every thread answers, under an invariant its actions keep. *)
Theorem outcomes_reachable {W A} (I : W → Prop) (E : W → W → Prop) (Φ : exn + A → Prop) w w' (ps ps' : list (prog W A)) :
  (∀ w w', E w w' → I w → I w') →
  let keeps p := pays I (λ _, 0%nat) 0 p (λ r _, Φ r) in
  Forall keeps ps → reachable E (w, ps) (w', ps') → I w → I w' ∧ Forall keeps ps'.
Proof.
  intros HE keeps Hps Hr HI.
  enough (∀ c c' : config, reachable E c c' → I c.1 → Forall keeps c.2 → I c'.1 ∧ Forall keeps c'.2) as Hgo by apply (Hgo _ _ Hr HI Hps).
  clear w w' ps ps' Hps Hr HI. intros c c' Hr. induction Hr as [c|c c1 c2 Hs _ IH]; [done|]. intros HI Hf.
  destruct Hs as [w w' ps Hw|w w' ps i R f k r Hi Hw]; [apply IH; [by eapply HE|done]|].
  pose proof (Forall_lookup_1 _ _ _ _ Hf Hi) as Hp. destruct (Hp w HI) as (HI' & n & Hle & Hk). rewrite Hw in HI', Hk.
  replace n with 0%nat in Hk by lia. apply IH; [done|]. by apply Forall_insert.
Qed.

(** ** Accounting

    What a pool adds to a quantity of the world is what its threads have added,
    each an amount that its own result determines. *)
Section tally.
Context {W : Type} (μ : W → Z).

Fixpoint tallies {A} (p : prog W A) (Φ : exn + A → Z → Prop) (d : Z) : Prop :=
  match p with
  | Ret a => Φ (inr a) d
  | Throw e => Φ (inl e) d
  | Atom f k => ∀ w, tallies (k (f w).2) Φ (d + (μ (f w).1 - μ w))
  end.
Lemma tallies_bind {A B} (p : prog W A) (k : A → prog W B) Φ d :
  tallies p (λ r d, match r with inr a => tallies (k a) Φ d | inl e => Φ (inl e) d end) d → tallies (p ≫= k) Φ d.
Proof.
  revert d. induction p as [a|e|R f c IH]; intros d H; [exact H..|]. intros w. apply IH, H.
Qed.
Lemma tallies_mono {A} (p : prog W A) (Φ Ψ : exn + A → Z → Prop) d : (∀ r d, Φ r d → Ψ r d) → tallies p Φ d → tallies p Ψ d.
Proof.
  intros HΦ. revert d. induction p as [a|e|R f c IH]; intros d H; [by apply HΦ..|]. intros w. apply IH, H.
Qed.

Definition accounted {A} (Φ : nat → exn + A → Z → Prop) (total : Z) (w : W) (ps : list (prog W A)) : Prop :=
  ∃ ds : list Z, length ds = length ps ∧ μ w = total + foldr Z.add 0 ds ∧
    ∀ i p d, ps !! i = Some p → ds !! i = Some d → tallies p (Φ i) d.
Lemma sum_insert (ds : list Z) i d d' :
  ds !! i = Some d → foldr Z.add 0 (<[i := d']> ds) = foldr Z.add 0 ds + (d' - d).
Proof.
  revert i. induction ds as [|x ds IH]; intros [|i] H; [done..| |].
  - injection H as ->. cbn. lia.
  - specialize (IH i H). change (<[S i := d']> (x :: ds)) with (x :: <[i := d']> ds). cbn [foldr]. lia.
Qed.
Lemma accounted_start {A} (Φ : nat → exn + A → Z → Prop) w ps :
  (∀ i p, ps !! i = Some p → tallies p (Φ i) 0) → accounted Φ (μ w) w ps.
Proof.
  intros Hp. exists (replicate (length ps) 0). rewrite length_replicate. split; [done|]. split.
  - clear Hp. induction (length ps) as [|n IH]; cbn in *; lia.
  - intros i p d Hi [-> _]%lookup_replicate. by apply Hp.
Qed.
Theorem accounted_reachable {A} (Φ : nat → exn + A → Z → Prop) (E : W → W → Prop) total (c c' : config) :
  (∀ w w', E w w' → μ w' = μ w) → reachable E c c' → accounted Φ total c.1 c.2 → accounted Φ total c'.1 c'.2.
Proof.
  intros HE. induction 1 as [c|c c1 c2 Hs _ IH]; [done|]. intros (ds & Hl & Hm & Hp). apply IH. clear IH.
  destruct Hs as [w w' ps Hw|w w' ps i R f k r Hi Hw]; cbn in *.
  - exists ds. split; [done|]. rewrite (HE _ _ Hw). done.
  - destruct (lookup_lt_is_Some_2 ds i) as [d Hd]; [rewrite Hl; by eapply lookup_lt_Some|].
    exists (<[i := d + (μ w' - μ w)]> ds). rewrite !length_insert, (sum_insert _ _ _ _ Hd). split; [done|]. split; [lia|].
    intros j p d' Hj Hd'. destruct (decide (j = i)) as [->|Hne].
    + rewrite list_lookup_insert_eq in Hj by (by eapply lookup_lt_Some). rewrite list_lookup_insert_eq in Hd' by (by eapply lookup_lt_Some).
      injection Hj as <-. injection Hd' as <-. specialize (Hp _ _ _ Hi Hd w). by rewrite Hw in Hp.
    + rewrite list_lookup_insert_ne in Hj by done. rewrite list_lookup_insert_ne in Hd' by done. by apply (Hp j).
Qed.
End tally.

(** ** Programs that act alike

    Two programs that perform the same actions, whatever these answer, and end
    with results that [R] relates. *)
Fixpoint same_actions {W A B} (R : A → B → Prop) (p : prog W A) (q : prog W B) : Prop :=
  match p with
  | Ret a => ∃ b, q = Ret b ∧ R a b
  | Throw e => q = Throw e
  | Atom f k => ∃ k', q = Atom f k' ∧ ∀ r, same_actions R (k r) (k' r)
  end.
Lemma same_actions_refl {W A} (p : prog W A) : same_actions eq p p.
Proof. induction p as [a|e|X f k IH]; cbn; eauto. Qed.
Lemma same_actions_bind {W A B A' B'} (R : A → B → Prop) (R' : A' → B' → Prop) (p : prog W A) (q : prog W B) k k' :
  same_actions R p q → (∀ a b, R a b → same_actions R' (k a) (k' b)) → same_actions R' (p ≫= k) (q ≫= k').
Proof.
  intros Hp Hk. unfold mbind, prog_mbind. revert q Hp. induction p as [a|e|X f c IH]; cbn; intros q.
  - intros (b & -> & Hab). by apply Hk.
  - by intros ->.
  - intros (c' & -> & Hc). cbn. eexists. split; [reflexivity|]. intros r. by apply IH.
Qed.

(** Pools whose threads act alike reach the same worlds. *)
Theorem same_actions_reachable {W A B} (E : W → W → Prop) (R : nat → A → B → Prop) w w' (ps : list (prog W A))
    (qs : list (prog W B)) ps' :
  length ps = length qs → (∀ i p q, ps !! i = Some p → qs !! i = Some q → same_actions (R i) p q) →
  reachable E (w, ps) (w', ps') →
  ∃ qs', reachable E (w, qs) (w', qs') ∧ length ps' = length qs' ∧
    ∀ i p q, ps' !! i = Some p → qs' !! i = Some q → same_actions (R i) p q.
Proof.
  enough (∀ c c' : config, reachable E c c' → ∀ qs : list (prog W B), length c.2 = length qs →
    (∀ i p q, c.2 !! i = Some p → qs !! i = Some q → same_actions (R i) p q) →
    ∃ qs', reachable E (c.1, qs) (c'.1, qs') ∧ length c'.2 = length qs' ∧
      ∀ i p q, c'.2 !! i = Some p → qs' !! i = Some q → same_actions (R i) p q) as Hgo.
  { intros Hl Hs Hr. by destruct (Hgo _ _ Hr qs Hl Hs) as (qs' & ?); exists qs'. }
  intros c c' Hr. induction Hr as [c|c c1 c2 Hs _ IH]; intros l Hl Hsame; [exists l; split; [apply rtc_refl|done]|].
  destruct Hs as [v v' us Hv|v v' us i X f k r Hi Hf]; cbn in *.
  - destruct (IH l Hl Hsame) as (qs' & Hq & ?). exists qs'. split; [|done]. eapply rtc_l; [|exact Hq]. by constructor.
  - destruct (lookup_lt_is_Some_2 l i) as [q Hq]; [rewrite <- Hl; by eapply lookup_lt_Some|].
    destruct (Hsame i _ _ Hi Hq) as (k' & -> & Hk).
    destruct (IH (<[i := k' r]> l)) as (qs' & Hr & Hx).
    + by rewrite !length_insert.
    + intros j p q. destruct (decide (i = j)) as [<-|Hne].
      * rewrite !list_lookup_insert_eq by (eapply lookup_lt_Some; done). intros [= <-] [= <-]. apply Hk.
      * rewrite !list_lookup_insert_ne by done. apply Hsame.
    + exists qs'. split; [|done]. eapply rtc_l; [|exact Hr]. by eapply thread_step.
Qed.

Create HintDb harmless_db.
#[export] Hint Resolve harmless_ret harmless_throw harmless_throw_if harmless_bind harmless_catch
  harmless_finally harmless_for_each harmless_for_return : harmless_db.
