(* ===== verification/Store.v ===== *)
(** * Document store

    The MongoDB server and its Mongoose driver are not part of the repository.
    [Mongo] is the interface the services use, with the documented behaviour of
    each command as its laws: a command is atomic on one collection, selects
    documents by a predicate in the collection's natural order, and a unique
    index rejects an insertion that collides with a stored document. *)

From S2P Require Export Effects.

Class Mongo (coll : Type → Type) := {
  (** The documents of a collection, in natural order. *)
  docs : ∀ {D}, coll D → list D;

  m_find : ∀ {D}, (D → bool) → coll D → list D;
  m_find_sorted : ∀ {D}, (D → Z) → (D → bool) → coll D → list D;
  m_find_one : ∀ {D}, (D → bool) → coll D → option D;
  m_find_least : ∀ {D}, (D → Z) → (D → bool) → coll D → option D;
  m_count : ∀ {D}, (D → bool) → coll D → nat;
  m_insert : ∀ {D}, (D → D → bool) → D → coll D → option (coll D);
  m_update_one : ∀ {D}, (D → bool) → (D → D) → coll D → coll D;
  m_update_many : ∀ {D}, (D → bool) → (D → D) → coll D → coll D;
  m_delete_one : ∀ {D}, (D → bool) → coll D → coll D;
  m_delete_many : ∀ {D}, (D → bool) → coll D → coll D;

  (** Reads. *)
  m_find_law : ∀ {D} f (c : coll D), m_find f c = List.filter f (docs c);
  m_find_sorted_law : ∀ {D} key f (c : coll D),
    m_find_sorted key f c ≡ₚ List.filter f (docs c) ∧
    StronglySorted (λ x y, key x <= key y) (m_find_sorted key f c);
  m_find_one_law : ∀ {D} f (c : coll D), m_find_one f c = List.find f (docs c);
  m_find_least_law : ∀ {D} key f (c : coll D),
    match m_find_least key f c with
    | Some d => In d (docs c) ∧ f d = true ∧ (∀ x, In x (docs c) → f x = true → key d <= key x)
    | None => List.filter f (docs c) = []
    end;
  m_count_law : ∀ {D} f (c : coll D), m_count f c = count f (docs c);

  (** Writes. *)
  m_insert_law : ∀ {D} (clash : D → D → bool) d (c : coll D),
    match m_insert clash d c with
    | Some c' => existsb (clash d) (docs c) = false ∧ inserted d (docs c) (docs c')
    | None => existsb (clash d) (docs c) = true
    end;
  m_update_one_law : ∀ {D} f u (c : coll D), docs (m_update_one f u c) = alter_first f u (docs c);
  m_update_many_law : ∀ {D} f u (c : coll D), docs (m_update_many f u c) = alter_all f u (docs c);
  m_delete_one_law : ∀ {D} f (c : coll D), docs (m_delete_one f c) = remove_first f (docs c);
  m_delete_many_law : ∀ {D} f (c : coll D),
    docs (m_delete_many f c) = List.filter (λ d, negb (f d)) (docs c);
}.

Create Rewrite HintDb docs.
#[export] Hint Rewrite @m_find_law @m_find_one_law @m_count_law @m_update_one_law
  @m_update_many_law @m_delete_one_law @m_delete_many_law : docs.

(** ** A reference store

    Collections as lists: the instance on which the development is executed. *)
Section list_store.
Lemma least_filter_law {D} (key : D → Z) f (l : list D) :
  match least key (List.filter f l) with
  | Some d => In d l ∧ f d = true ∧ (∀ x, In x l → f x = true → key d <= key x)
  | None => List.filter f l = []
  end.
Proof.
  destruct (least key (List.filter f l)) as [d|] eqn:Hd; [|by eapply least_none].
  apply least_some in Hd as [[Hin Hf]%filter_In Hle].
  split; [done|split; [done|]]. intros x Hx Hfx. apply Hle. by apply filter_In.
Qed.

#[local] Instance key_le_dec {D} (key : D → Z) : RelDecision (λ x y, key x <= key y).
Proof. intros x y. apply _. Defined.

Lemma merge_sort_law {D} (key : D → Z) f (l : list D) :
  merge_sort (λ x y, key x <= key y) (List.filter f l) ≡ₚ List.filter f l ∧
  StronglySorted (λ x y, key x <= key y) (merge_sort (λ x y, key x <= key y) (List.filter f l)).
Proof.
  split; [apply merge_sort_Permutation|].
  apply Sorted_StronglySorted; [intros x y z; lia|].
  apply Sorted_merge_sort. intros x y. lia.
Qed.

Lemma insert_law {D} (clash : D → D → bool) d (l : list D) :
  match (if existsb (clash d) l then None else Some (l ++ [d])) with
  | Some l' => existsb (clash d) l = false ∧ inserted d l l'
  | None => existsb (clash d) l = true
  end.
Proof.
  destruct (existsb (clash d) l); [done|]. split; [done|]. exists l, []. by rewrite app_nil_r.
Qed.

#[export] Instance list_mongo : Mongo list := {
  docs D l := l;
  m_find D f l := List.filter f l;
  m_find_sorted D key f l := merge_sort (λ x y, key x <= key y) (List.filter f l);
  m_find_one D f l := List.find f l;
  m_find_least D key f l := least key (List.filter f l);
  m_count D f l := count f l;
  m_insert D clash d l := if existsb (clash d) l then None else Some (l ++ [d]);
  m_update_one D f u l := alter_first f u l;
  m_update_many D f u l := alter_all f u l;
  m_delete_one D f l := remove_first f l;
  m_delete_many D f l := List.filter (λ d, negb (f d)) l;
  m_find_law D f l := eq_refl;
  m_find_sorted_law D key f l := merge_sort_law key f l;
  m_find_one_law D f l := eq_refl;
  m_find_least_law D key f l := least_filter_law key f l;
  m_count_law D f l := eq_refl;
  m_insert_law D clash d l := insert_law clash d l;
  m_update_one_law D f u l := eq_refl;
  m_update_many_law D f u l := eq_refl;
  m_delete_one_law D f l := eq_refl;
  m_delete_many_law D f l := eq_refl;
}.
End list_store.
