(* ===== verification/Codec.v ===== *)
(** * Binary-to-text encodings

    [Buffer] values are byte strings.  Node's ['base64'], ['base64url'] and
    ['hex'] encodings and the base32 routines of
    [packages/crypto/src/totp.ts] all cut the same bit string into groups of
    [k] bits; one round-trip theorem covers them. *)

From S2P Require Export Prelude.
From Stdlib Require Import Ascii.

(** ** Bits *)

(** The eight bits of a byte, most significant first:
    [byte.toString(2).padStart(8, '0')]. *)
Definition byte_bits (c : ascii) : list bool :=
  match c with Ascii.Ascii b0 b1 b2 b3 b4 b5 b6 b7 => [b7; b6; b5; b4; b3; b2; b1; b0] end.

Fixpoint string_bits (s : string) : list bool :=
  match s with EmptyString => [] | String c s' => byte_bits c ++ string_bits s' end.

Definition bits_byte (l : list bool) : ascii :=
  match l with
  | [b7; b6; b5; b4; b3; b2; b1; b0] => Ascii.Ascii b0 b1 b2 b3 b4 b5 b6 b7
  | _ => Ascii.zero
  end.

(** [parseInt(bits, 2)]. *)
Definition bits_value (l : list bool) : nat :=
  foldl (λ n (b : bool), (2 * n + if b then 1 else 0)%nat) 0%nat l.

(** [v.toString(2).padStart(k, '0')] for [v < 2 ^ k]. *)
Fixpoint value_bits (k v : nat) : list bool :=
  match k with
  | O => []
  | S k' => value_bits k' (v / 2)%nat ++ [Nat.odd v]
  end.

(** The complete groups of [k] elements ([for (i = 0; i + k <= length; i += k)]). *)
Fixpoint groups_fuel {A} (fuel k : nat) (l : list A) : list (list A) :=
  match fuel with
  | O => []
  | S fuel' => if (k <=? length l)%nat then take k l :: groups_fuel fuel' k (drop k l) else []
  end.
Definition groups {A} (k : nat) (l : list A) : list (list A) := groups_fuel (length l) k l.

(** Zero-pad to a multiple of [k] ([while (bits.length % k !== 0) bits += '0']). *)
Definition pad_zeros (k : nat) (l : list bool) : list bool :=
  l ++ replicate ((k - length l mod k) mod k) false.

(** ** Alphabets *)
Fixpoint char_at (s : string) (n : nat) : ascii :=
  match s, n with
  | EmptyString, _ => Ascii.zero
  | String c _, O => c
  | String _ s', S n' => char_at s' n'
  end.

Fixpoint index_of (c : ascii) (s : string) : option nat :=
  match s with
  | EmptyString => None
  | String c' s' => if Ascii.eqb c c' then Some O else S <$> index_of c s'
  end.

Fixpoint string_of_list (l : list ascii) : string :=
  match l with [] => EmptyString | c :: l' => String c (string_of_list l') end.
Fixpoint list_of_string (s : string) : list ascii :=
  match s with EmptyString => [] | String c s' => c :: list_of_string s' end.

Definition encode (k : nat) (alphabet : string) (s : string) : list ascii :=
  map (λ g, char_at alphabet (bits_value g)) (groups k (pad_zeros k (string_bits s))).

Definition decode_values (k : nat) (vs : list nat) : string :=
  string_of_list (map bits_byte (groups 8 (concat (map (value_bits k) vs)))).

(** ** Round trip *)
Lemma byte_bits_length c : length (byte_bits c) = 8%nat.
Proof. by destruct c. Qed.

Lemma bits_byte_bits c : bits_byte (byte_bits c) = c.
Proof. by destruct c. Qed.

Lemma string_bits_length s : length (string_bits s) = (8 * String.length s)%nat.
Proof.
  induction s as [|c s IH]; cbn [string_bits String.length]; [done|].
  rewrite length_app, byte_bits_length, IH. lia.
Qed.

Lemma groups_fuel_enough {A} k (l : list A) n m :
  (0 < k)%nat → (length l ≤ n)%nat → (length l ≤ m)%nat → groups_fuel n k l = groups_fuel m k l.
Proof.
  intros Hk. revert m l. induction n as [|n IH]; intros [|m] l Hn Hm; cbn.
  - done.
  - destruct l; cbn in *; [|lia]. by destruct k; [lia|].
  - destruct l; cbn in *; [|lia]. by destruct k; [lia|].
  - destruct (Nat.leb_spec k (length l)) as [Hl|Hl]; [|done]. f_equal.
    apply IH; rewrite length_drop; lia.
Qed.

Lemma groups_cons {A} k (g l : list A) :
  (0 < k)%nat → length g = k → groups k (g ++ l) = g :: groups k l.
Proof.
  intros Hk Hg. unfold groups. rewrite length_app, Hg.
  destruct k as [|k]; [lia|]. cbn [groups_fuel Nat.add].
  rewrite length_app, Hg. destruct (Nat.leb_spec (S k) (S k + length l)) as [_|?]; [|lia].
  rewrite <- Hg, take_app_length, drop_app_length. f_equal.
  apply groups_fuel_enough; cbn; lia.
Qed.

Lemma groups_short {A} k (l : list A) : (length l < k)%nat → groups k l = [].
Proof.
  intros H. unfold groups. destruct (length l) eqn:E; [done|]. cbn. rewrite E.
  destruct (Nat.leb_spec k (S n)); [lia|done].
Qed.

Lemma groups_exact {A} k (l : list A) :
  (0 < k)%nat → (length l mod k = 0)%nat →
  concat (groups k l) = l ∧ Forall (λ g, length g = k) (groups k l).
Proof.
  intros Hk. remember (length l / k)%nat as m eqn:Hm. revert l Hm.
  induction m as [|m IH]; intros l Hm Hmod.
  - assert (length l = 0)%nat as Hl0
      by (pose proof (Nat.div_mod_eq (length l) k); lia).
    destruct l; [by split|done].
  - assert (length l = k * S m)%nat as Hl by (pose proof (Nat.div_mod_eq (length l) k); lia).
    assert (length (take k l) = k) as Ht by (rewrite length_take; nia).
    assert (groups k l = take k l :: groups k (drop k l)) as ->.
    { rewrite <- (take_drop k l) at 1. by apply groups_cons. }
    destruct (IH (drop k l)) as [Hc Hf].
    + rewrite length_drop, Hl. replace (k * S m - k)%nat with (m * k)%nat by lia.
      by rewrite Nat.div_mul by lia.
    + rewrite length_drop, Hl. replace (k * S m - k)%nat with (m * k)%nat by lia.
      by rewrite Nat.Div0.mod_mul.
    + cbn. rewrite Hc, take_drop. split; [done|]. by constructor.
Qed.

Lemma pad_zeros_length k l :
  (0 < k)%nat → (length (pad_zeros k l) mod k = 0)%nat.
Proof.
  intros Hk. unfold pad_zeros. rewrite length_app, length_replicate.
  pose proof (Nat.mod_upper_bound (length l) k).
  pose proof (Nat.div_mod_eq (length l) k) as Hd.
  destruct (decide (length l mod k = 0)%nat) as [H0|H0].
  - rewrite H0, Nat.sub_0_r, Nat.Div0.mod_same, Nat.add_0_r. done.
  - rewrite (Nat.mod_small (k - _)) by lia.
    replace (length l + (k - length l mod k))%nat with ((length l / k + 1) * k)%nat by nia.
    apply Nat.Div0.mod_mul.
Qed.

Lemma bits_value_snoc l b : bits_value (l ++ [b]) = (2 * bits_value l + if b then 1 else 0)%nat.
Proof. unfold bits_value. by rewrite foldl_app. Qed.

Lemma value_bits_value l : value_bits (length l) (bits_value l) = l.
Proof.
  induction l as [|b l IH] using rev_ind; [done|].
  rewrite length_app, Nat.add_comm, bits_value_snoc. cbn [length Nat.add value_bits].
  assert (((2 * bits_value l + if b then 1 else 0) / 2)%nat = bits_value l) as ->.
  { destruct b; [rewrite Nat.add_comm, Nat.mul_comm, Nat.div_add by lia; cbn; lia|].
    rewrite Nat.add_0_r, Nat.mul_comm. by rewrite Nat.div_mul by lia. }
  rewrite IH. f_equal. f_equal. rewrite Nat.add_comm, Nat.odd_add_mul_2. by destruct b.
Qed.

Lemma bits_value_bound l : (bits_value l < 2 ^ length l)%nat.
Proof.
  induction l as [|b l IH] using rev_ind; [cbn; lia|].
  rewrite length_app, Nat.add_comm, bits_value_snoc. cbn [length Nat.add Nat.pow]. destruct b; lia.
Qed.

Lemma string_of_list_of_string s : string_of_list (list_of_string s) = s.
Proof. induction s as [|c s IH]; cbn; [done|]. by rewrite IH. Qed.
Lemma length_string_of_list l : String.length (string_of_list l) = length l.
Proof. induction l as [|c l IH]; [done|]. cbn. by rewrite IH. Qed.
Lemma list_of_string_of_list l : list_of_string (string_of_list l) = l.
Proof. induction l as [|c l IH]; cbn; [done|]. by rewrite IH. Qed.

Lemma string_bits_groups s r :
  (length r < 8)%nat →
  string_of_list (map bits_byte (groups 8 (string_bits s ++ r))) = s.
Proof.
  intros Hr. induction s as [|c s IH]; cbn [string_bits].
  - by rewrite groups_short.
  - rewrite <- app_assoc, groups_cons by (lia || apply byte_bits_length).
    cbn. by rewrite bits_byte_bits, IH.
Qed.

(** Cutting a byte string into values of at most eight bits and joining them
    again is the identity. *)
Lemma decode_values_encode k s :
  (0 < k ≤ 8)%nat →
  decode_values k (map bits_value (groups k (pad_zeros k (string_bits s)))) = s.
Proof.
  intros Hk. unfold decode_values. rewrite map_map.
  destruct (groups_exact k (pad_zeros k (string_bits s))) as [Hc Hf]; [lia|apply pad_zeros_length; lia|].
  rewrite (map_ext_in _ id), map_id, Hc.
  - unfold pad_zeros. apply string_bits_groups. rewrite length_replicate.
    pose proof (Nat.mod_upper_bound (k - length (string_bits s) mod k) k). lia.
  - intros g Hg. rewrite List.Forall_forall in Hf. specialize (Hf g Hg). cbn in Hf.
    unfold id. rewrite <- Hf. apply value_bits_value.
Qed.

(** An alphabet of [2 ^ k] distinct characters. *)
Definition alphabet_ok (k : nat) (a : string) : bool :=
  forallb (λ n, bool_decide (index_of (char_at a n) a = Some n)) (seq 0 (2 ^ k)).

Lemma alphabet_index k a n :
  alphabet_ok k a = true → (n < 2 ^ k)%nat → index_of (char_at a n) a = Some n.
Proof.
  unfold alphabet_ok. rewrite forallb_forall. intros H Hn.
  apply (bool_decide_eq_true_1 (index_of (char_at a n) a = Some n)), H, in_seq. lia.
Qed.

Lemma encode_values k a s :
  (0 < k)%nat → alphabet_ok k a = true →
  map (λ c, index_of c a) (encode k a s) =
  map Some (map bits_value (groups k (pad_zeros k (string_bits s)))).
Proof.
  intros Hk Ha. unfold encode. rewrite !map_map. apply map_ext_in. intros g Hg.
  destruct (groups_exact k (pad_zeros k (string_bits s)) Hk (pad_zeros_length k _ Hk)) as [_ Hf].
  rewrite List.Forall_forall in Hf. specialize (Hf g Hg). cbn in Hf.
  apply (alphabet_index k); [done|]. rewrite <- Hf. apply bits_value_bound.
Qed.

(** ** Node encodings *)
Definition BASE64_ALPHABET : string :=
  "ABCDEFGHIJKLMNOPQRSTUVWXYZabcdefghijklmnopqrstuvwxyz0123456789+/".
Definition BASE64URL_ALPHABET : string :=
  "ABCDEFGHIJKLMNOPQRSTUVWXYZabcdefghijklmnopqrstuvwxyz0123456789-_".
Definition HEX_ALPHABET : string := "0123456789abcdef".

(** [buf.toString('base64')], padded with [=]; [buf.toString('base64url')];
    [buf.toString('hex')]. *)
Definition to_base64 (s : string) : string :=
  let cs := encode 6 BASE64_ALPHABET s in
  string_of_list (cs ++ replicate ((4 - length cs mod 4) mod 4) "="%char).
Definition to_base64url (s : string) : string := string_of_list (encode 6 BASE64URL_ALPHABET s).
Definition to_hex (s : string) : string := string_of_list (encode 4 HEX_ALPHABET s).

(** [Buffer.from(s, 'base64')]: both alphabets are accepted, decoding stops at
    the first [=] and other characters are skipped. *)
Definition base64_index (c : ascii) : option nat :=
  match index_of c BASE64_ALPHABET with
  | Some n => Some n
  | None => index_of c BASE64URL_ALPHABET
  end.
Fixpoint base64_values (l : list ascii) : list nat :=
  match l with
  | [] => []
  | c :: l' =>
    if Ascii.eqb c "=" then []
    else match base64_index c with
         | Some n => n :: base64_values l'
         | None => base64_values l'
         end
  end.
Definition from_base64 (s : string) : string := decode_values 6 (base64_values (list_of_string s)).

Lemma base64_values_app cs ns l :
  map base64_index cs = map Some ns → Forall (λ c, Ascii.eqb c "=" = false) cs →
  base64_values (cs ++ l) = ns ++ base64_values l.
Proof.
  intros H Hc. revert ns H. induction Hc as [|c cs Hc _ IH]; intros [|n ns] [=]; [done|].
  cbn. rewrite Hc. case_match; [|done]. simplify_eq. f_equal. by apply IH.
Qed.

Lemma char_at_check k a (P : ascii → bool) n :
  forallb (λ n, P (char_at a n)) (seq 0 (2 ^ k)) = true → (n < 2 ^ k)%nat → P (char_at a n) = true.
Proof. rewrite forallb_forall. intros H Hn. apply H. apply in_seq. lia. Qed.

Lemma encode_forall k a s (P : ascii → bool) :
  (0 < k)%nat → forallb (λ n, P (char_at a n)) (seq 0 (2 ^ k)) = true →
  Forall (λ c, P c = true) (encode k a s).
Proof.
  intros Hk Ha. unfold encode. apply List.Forall_forall. intros c (g & <- & Hg)%in_map_iff.
  destruct (groups_exact k (pad_zeros k (string_bits s)) Hk (pad_zeros_length k _ Hk)) as [_ Hf].
  rewrite List.Forall_forall in Hf. specialize (Hf g Hg). cbn in Hf.
  apply (char_at_check k); [done|]. rewrite <- Hf. apply bits_value_bound.
Qed.

Lemma base64_index_std s :
  map base64_index (encode 6 BASE64_ALPHABET s) =
  map Some (map bits_value (groups 6 (pad_zeros 6 (string_bits s)))).
Proof.
  rewrite <- encode_values with (a := BASE64_ALPHABET) by (lia || by vm_compute).
  apply map_ext_in. intros c Hc.
  pose proof (encode_forall 6 BASE64_ALPHABET s
    (λ c, bool_decide (base64_index c = index_of c BASE64_ALPHABET)) ltac:(lia) ltac:(by vm_compute)) as H.
  rewrite List.Forall_forall in H. by apply H, bool_decide_eq_true in Hc.
Qed.

Lemma base64_index_url s :
  map base64_index (encode 6 BASE64URL_ALPHABET s) =
  map Some (map bits_value (groups 6 (pad_zeros 6 (string_bits s)))).
Proof.
  rewrite <- encode_values with (a := BASE64URL_ALPHABET) by (lia || by vm_compute).
  apply map_ext_in. intros c Hc.
  pose proof (encode_forall 6 BASE64URL_ALPHABET s
    (λ c, bool_decide (base64_index c = index_of c BASE64URL_ALPHABET)) ltac:(lia) ltac:(by vm_compute)) as H.
  rewrite List.Forall_forall in H. by apply H, bool_decide_eq_true in Hc.
Qed.

Lemma encode_no_eq a s :
  forallb (λ n, negb (Ascii.eqb (char_at a n) "=")) (seq 0 (2 ^ 6)) = true →
  Forall (λ c, Ascii.eqb c "=" = false) (encode 6 a s).
Proof.
  intros H. eapply Forall_impl; [apply (encode_forall 6 a s (λ c, negb (Ascii.eqb c "=")) ltac:(lia) H)|].
  intros c Hc. cbn in Hc. by apply negb_true_iff.
Qed.

Lemma base64_values_pad n : base64_values (replicate n "="%char) = [].
Proof. by destruct n. Qed.

Lemma from_base64_padded s n : from_base64 (string_of_list (encode 6 BASE64_ALPHABET s ++ replicate n "="%char)) = s.
Proof.
  unfold from_base64. rewrite list_of_string_of_list.
  rewrite (base64_values_app _ _ _ (base64_index_std s)) by (apply encode_no_eq; by vm_compute).
  rewrite base64_values_pad, app_nil_r. apply decode_values_encode. lia.
Qed.

Lemma from_to_base64 s : from_base64 (to_base64 s) = s.
Proof. apply from_base64_padded. Qed.

Lemma from_to_base64url s : from_base64 (to_base64url s) = s.
Proof.
  unfold from_base64, to_base64url. rewrite list_of_string_of_list, <- (app_nil_r (encode _ _ _)).
  rewrite (base64_values_app _ _ _ (base64_index_url s)) by (apply encode_no_eq; by vm_compute).
  cbn [base64_values]. rewrite app_nil_r. apply decode_values_encode. lia.
Qed.

#[export] Instance to_base64_inj : Inj (=) (=) to_base64.
Proof. intros x y H. by rewrite <- (from_to_base64 x), H, from_to_base64. Qed.
#[export] Instance to_base64url_inj : Inj (=) (=) to_base64url.
Proof. intros x y H. by rewrite <- (from_to_base64url x), H, from_to_base64url. Qed.

(** An encoding over a proper alphabet determines the bytes. *)
Lemma encode_inj k a x y :
  (0 < k ≤ 8)%nat → alphabet_ok k a = true → encode k a x = encode k a y → x = y.
Proof.
  intros Hk Ha H. rewrite <- (decode_values_encode k x), <- (decode_values_encode k y) by done.
  f_equal. apply (inj (map Some)). rewrite <- !encode_values with (a := a) by (done || lia). by rewrite H.
Qed.

Lemma string_of_list_inj x y : string_of_list x = string_of_list y → x = y.
Proof. intros H. by rewrite <- (list_of_string_of_list x), H, list_of_string_of_list. Qed.

#[export] Instance to_hex_inj : Inj (=) (=) to_hex.
Proof. intros x y H%string_of_list_inj. apply (encode_inj 4 HEX_ALPHABET); [lia|by vm_compute|done]. Qed.

(** The digits [Buffer.from(s, 'hex')] reads: pairs, up to the first that is none. *)
Definition hex_digit_value (c : ascii) : option Z :=
  let n := Z.of_nat (nat_of_ascii c) in
  if (48 <=? n) && (n <=? 57) then Some (n - 48)
  else if (97 <=? n) && (n <=? 102) then Some (n - 87)
  else if (65 <=? n) && (n <=? 70) then Some (n - 55)
  else None.
Fixpoint from_hex (s : string) : string :=
  match s with
  | String a (String b r) =>
    match hex_digit_value a, hex_digit_value b with
    | Some x, Some y => String (ascii_of_nat (Z.to_nat (16 * x + y))) (from_hex r)
    | _, _ => EmptyString
    end
  | _ => EmptyString
  end.

(** The two digits of a byte. *)
Definition hex_char (b3 b2 b1 b0 : bool) : ascii := char_at HEX_ALPHABET (bits_value [b3; b2; b1; b0]).
Definition hex_high (c : ascii) : ascii := match c with Ascii.Ascii _ _ _ _ b4 b5 b6 b7 => hex_char b7 b6 b5 b4 end.
Definition hex_low (c : ascii) : ascii := match c with Ascii.Ascii b0 b1 b2 b3 _ _ _ _ => hex_char b3 b2 b1 b0 end.

Lemma to_hex_cons c s : to_hex (String c s) = String (hex_high c) (String (hex_low c) (to_hex s)).
Proof.
  assert (∀ t, pad_zeros 4 (string_bits t) = string_bits t) as Hpad.
  { intros t. unfold pad_zeros. rewrite string_bits_length. replace (8 * String.length t)%nat with (2 * String.length t * 4)%nat by lia.
    rewrite Nat.Div0.mod_mul. apply app_nil_r. }
  unfold to_hex, encode. rewrite !Hpad. cbn [string_bits]. destruct c as [c0 c1 c2 c3 c4 c5 c6 c7]. cbn [byte_bits].
  change ([c7; c6; c5; c4; c3; c2; c1; c0] ++ string_bits s) with ([c7; c6; c5; c4] ++ [c3; c2; c1; c0] ++ string_bits s).
  by rewrite !groups_cons by (done || lia).
Qed.

Lemma hex_byte c :
  match hex_digit_value (hex_high c), hex_digit_value (hex_low c) with
  | Some x, Some y => ascii_of_nat (Z.to_nat (16 * x + y)) = c
  | _, _ => False
  end.
Proof. by destruct c as [[] [] [] [] [] [] [] []]. Qed.

Lemma from_to_hex s : from_hex (to_hex s) = s.
Proof.
  induction s as [|c s IH]; [done|]. rewrite to_hex_cons. cbn [from_hex]. pose proof (hex_byte c) as Hc.
  destruct (hex_digit_value (hex_high c)) as [x|]; [|done]. destruct (hex_digit_value (hex_low c)) as [y|]; [|done].
  by rewrite Hc, IH.
Qed.
