(* ===== verification/Jwt.v ===== *)
(** * Signing keys and tokens

    [packages/crypto/src/jwt.ts]: the signing-key store with rotation, the
    algorithm dispatch of [signToken]/[verifyToken] with the hand-written EdDSA,
    ML-DSA and hybrid JWS builders, the claim checks, and the DER/JOSE signature
    conversion; and [packages/core/src/services/keyStore.service.ts].  Node's
    crypto, noble's ML-DSA and [jsonwebtoken] are parameters. *)

From S2P Require Export Json.
From S2P Require Export JsMap.
From S2P Require Export Codec.
From Stdlib Require Import Ascii.

(** ** Data *)
Inductive JwtSigningAlgorithm :=
| RS256 | ES256 | EdDSA | HS256 | ML_DSA_65 | ML_DSA_87
| hybrid_RS256_MLDSA65 | hybrid_ES256_MLDSA65.
#[export] Instance JwtSigningAlgorithm_eq_dec : EqDecision JwtSigningAlgorithm.
Proof. solve_decision. Defined.

Definition alg_string (a : JwtSigningAlgorithm) : string :=
  match a with
  | RS256 => "RS256" | ES256 => "ES256" | EdDSA => "EdDSA" | HS256 => "HS256"
  | ML_DSA_65 => "ML-DSA-65" | ML_DSA_87 => "ML-DSA-87"
  | hybrid_RS256_MLDSA65 => "hybrid-RS256-MLDSA65"
  | hybrid_ES256_MLDSA65 => "hybrid-ES256-MLDSA65"
  end.

Inductive KeyStatus := GENERATED | STAGED | ACTIVE | VERIFY_ONLY | RETIRED | REVOKED.
#[export] Instance KeyStatus_eq_dec : EqDecision KeyStatus.
Proof. solve_decision. Defined.

Record SigningKey := mkSigningKey {
  kid : string;
  algorithm : JwtSigningAlgorithm;
  publicKey : option string;
  privateKey : option string;
  pqPublicKey : option string;
  pqPrivateKey : option string;
  createdAt : Z;
  status : KeyStatus;
  activatedAt : option Z;
  retiredAt : option Z;
  revokedAt : option Z;
  expiresAt : Z;
}.
#[export] Instance settable_SigningKey : Settable SigningKey := {| eta_expand := λ k, mkSigningKey (kid k)
  (algorithm k) (publicKey k) (privateKey k) (pqPublicKey k) (pqPrivateKey k) (createdAt k)
  (status k) (activatedAt k) (retiredAt k) (revokedAt k) (expiresAt k) |}.

Record JwkJson := mkJwkJson {
  jwk_kty : string; jwk_kid : string; jwk_n : option string; jwk_e : option string;
  jwk_crv : option string; jwk_x : option string; jwk_y : option string;
  jwk_alg : JwtSigningAlgorithm; jwk_key_ops : list string }.

Record SigningKeyMaterial := mkSigningKeyMaterial {
  m_publicKey : option string; m_privateKey : option string;
  m_pqPublicKey : option string; m_pqPrivateKey : option string }.

(** The error classes of [jsonwebtoken], told apart by [err.name], and other
    JavaScript errors. *)
Inductive jwt_error :=
| JsonWebTokenError (message : string)
| TokenExpiredError (message : string)
| NotBeforeError (message : string)
| PlainError (message : string).

#[export] Instance sum_ret {E} : MRet (sum E) := λ A a, inr a.
#[export] Instance sum_bind {E} : MBind (sum E) := λ A B k r,
  match r with inl e => inl e | inr a => k a end.
Definition require {E} (c : bool) (e : E) : E + () := if c then inr tt else inl e.
Definition from_some {E A} (o : option A) (e : E) : E + A :=
  match o with Some a => inr a | None => inl e end.

Record SignOptions := mkSignOptions { expiresIn : option Z; notBefore : option Z }.
Record VerifyOptions := mkVerifyOptions {
  vo_issuer : option (list string); vo_audience : option (list string); vo_maxAge : option Z }.

(** ** The cryptographic libraries *)
Class JwtCrypto := {
  (** [generateKeyPairSync] for the classical algorithm: public and private PEM. *)
  generateKeyPairSync : nat → JwtSigningAlgorithm → string * string;
  mlDsa_keygen : nat → JwtSigningAlgorithm → string * string;
  (** [createPublicKey(pem)] as its SPKI encoding, and whether
      [createPrivateKey(pem)] accepts; [None] and [false] are exceptions. *)
  createPublicKey : string → option string;
  createPrivateKey : string → bool;
  (** The members of [createPublicKey(pem).export({ format: 'jwk' })]. *)
  export_jwk : string → list (string * string);
  (** [sign(digest, data, key)] and [verify(digest, data, key, signature)]. *)
  nodeSign : option string → string → string → option string;
  nodeVerify : option string → string → string → string → option bool;
  mlDsa_sign : JwtSigningAlgorithm → string → string → string;
  mlDsa_verify : JwtSigningAlgorithm → string → string → string → bool;
  (** [jwt.sign] and [jwt.verify] of [jsonwebtoken]. *)
  jwt_sign : list (string * json) → string → JwtSigningAlgorithm → string → SignOptions → Z →
    jwt_error + string;
  jwt_verify : string → string → JwtSigningAlgorithm → VerifyOptions → Z → jwt_error + json;
}.

(** A signature verifies under the public half of the key that made it. *)
Class JwtCryptoLaws (C : JwtCrypto) := {
  nodeVerify_sign : ∀ digest data priv pub sig,
    createPublicKey priv = createPublicKey pub → is_Some (createPublicKey pub) →
    nodeSign digest data priv = Some sig → nodeVerify digest data pub sig = Some true;
  nodeSign_some : ∀ digest data priv, createPrivateKey priv = true →
    ∃ sig, nodeSign digest data priv = Some sig ∧ sig ≠ "";
  mlDsa_verify_sign : ∀ a i data,
    mlDsa_verify a (mlDsa_sign a data (mlDsa_keygen i a).2) data (mlDsa_keygen i a).1 = true;
}.

(** ** DER and JOSE signatures *)
Definition byte (n : nat) : ascii := ascii_of_nat n.
Definition jwt_invalid_signature : jwt_error := JsonWebTokenError "invalid signature".

(** [padded32]. *)
Definition padded32 (v : list ascii) : list ascii :=
  if (length v =? 32)%nat then v else replicate (32 - length v) (byte 0) ++ v.

(** The [while] loop of [derInteger]. *)
Fixpoint der_trim (v : list ascii) : list ascii :=
  match v with
  | a :: ((b :: _) as v') =>
    if (nat_of_ascii a =? 0)%nat && (nat_of_ascii b <? 128)%nat then der_trim v' else v
  | _ => v
  end.

Definition derInteger (v : list ascii) : list ascii :=
  let trimmed := der_trim v in
  let positive :=
    match trimmed with
    | a :: _ => if (nat_of_ascii a <? 128)%nat then trimmed else byte 0 :: trimmed
    | [] => [byte 0]
    end in
  byte 2 :: byte (length positive) :: positive.

Definition joseToDerSignature (raw : list ascii) : jwt_error + list ascii :=
  if negb (length raw =? 64)%nat then inl jwt_invalid_signature
  else
    let body := derInteger (take 32 raw) ++ derInteger (drop 32 raw) in
    if (length body <? 128)%nat then inr (byte 48 :: byte (length body) :: body)
    else inr (byte 48 :: byte 129 :: byte (length body) :: body).

(** The loop collecting the integers of the sequence; reading past the end
    yields [undefined], whose length is [NaN] and ends the loop. *)
Fixpoint der_ints (fuel : nat) (der : list ascii) (offset : nat) (ints : list (list ascii)) :
    jwt_error + list (list ascii) :=
  match fuel with
  | O => inr ints
  | S fuel' =>
    if (offset <? length der)%nat && (length ints <? 2)%nat then
      if negb (bool_decide (der !! offset = Some (byte 2))) then inr ints
      else
        let '(int, next) :=
          match der !! (offset + 1)%nat with
          | Some l => (take (nat_of_ascii l) (drop (offset + 2) der),
                       Some (offset + 2 + nat_of_ascii l)%nat)
          | None => ([], None)
          end in
        let int := if (length int =? 33)%nat && bool_decide (int !! 0%nat = Some (byte 0))
                   then drop 1 int else int in
        if (32 <? length int)%nat then inl jwt_invalid_signature
        else match next with
             | Some o => der_ints fuel' der o (ints ++ [int])
             | None => inr (ints ++ [int])
             end
    else inr ints
  end.

Definition derToJoseSignature (der : list ascii) : jwt_error + list ascii :=
  if (length der <? 8)%nat || negb (bool_decide (der !! 0%nat = Some (byte 48))) then
    inl jwt_invalid_signature
  else
    let d1 := match der !! 1%nat with Some c => nat_of_ascii c | None => 0%nat end in
    let offset :=
      if (d1 =? 129)%nat then 3%nat
      else if (128 <=? d1)%nat then (2 + (d1 - 128))%nat else 2%nat in
    ints ← der_ints 3 der offset [];
    match ints with
    | [r; s] => inr (padded32 r ++ padded32 s)
    | _ => inl jwt_invalid_signature
    end.

(** *** Round trip *)
Lemma der_trim_cons a b v :
  der_trim (a :: b :: v) =
  if (nat_of_ascii a =? 0)%nat && (nat_of_ascii b <? 128)%nat then der_trim (b :: v)
  else a :: b :: v.
Proof. done. Qed.

Lemma der_trim_spec v :
  ∃ n, v = replicate n (byte 0) ++ der_trim v ∧
    (n = 0%nat ∨ ∃ b t, der_trim v = b :: t ∧ (nat_of_ascii b < 128)%nat).
Proof.
  induction v as [|a v IH]; [by exists 0%nat; auto|].
  destruct v as [|b v]; [by exists 0%nat; auto|]. rewrite der_trim_cons.
  destruct (Nat.eqb_spec (nat_of_ascii a) 0) as [Ha|_]; cbn [andb]; [|by exists 0%nat; auto].
  destruct (Nat.ltb_spec (nat_of_ascii b) 128) as [Hb|_]; [|by exists 0%nat; auto].
  destruct IH as (n & Hv & Hn). exists (S n). cbn [replicate app]. split.
  - f_equal; [|done]. rewrite <- (ascii_nat_embedding a), Ha. done.
  - right. destruct Hn as [-> |Hn]; [|done]. cbn [replicate app] in Hv. rewrite <- Hv. eauto.
Qed.

(** The content octets of an encoded 32-byte integer. *)
Lemma derInteger_spec v :
  length v = 32%nat →
  ∃ p, derInteger v = byte 2 :: byte (length p) :: p ∧ (1 ≤ length p ≤ 33)%nat ∧
    let int := if (length p =? 33)%nat && bool_decide (p !! 0%nat = Some (byte 0))
               then drop 1 p else p in
    (length int ≤ 32)%nat ∧ padded32 int = v.
Proof.
  intros Hv. destruct (der_trim_spec v) as (n & Hs & Hn).
  pose proof (f_equal length Hs) as Hl. rewrite length_app, length_replicate, Hv in Hl.
  unfold derInteger. destruct (der_trim v) as [|a t] eqn:Ht.
  { destruct Hn as [->|(b & t & [=] & _)]. cbn in Hl. lia. }
  assert (∀ x, length x = (32 - n)%nat → replicate n (byte 0) ++ x = v → padded32 x = v) as Hp.
  { intros x Hx Hxv. unfold padded32. destruct (Nat.eqb_spec (length x) 32) as [E|E].
    - assert (n = 0)%nat as -> by lia. done.
    - rewrite Hx. by replace (32 - (32 - n))%nat with n by lia. }
  destruct (Nat.ltb_spec (nat_of_ascii a) 128) as [Ha|Ha].
  - exists (a :: t). split; [done|]. split; [cbn in *; lia|].
    replace (length (a :: t) =? 33)%nat with false by (symmetry; apply Nat.eqb_neq; cbn in *; lia).
    cbn [andb]. split; [cbn in *; lia|]. apply Hp; [lia|done].
  - destruct Hn as [->|(b & t' & [= <- <-] & Hb)]; [|lia].
    exists (byte 0 :: a :: t). split; [done|]. split; [cbn in *; lia|].
    replace (length (byte 0 :: a :: t) =? 33)%nat with true
      by (symmetry; apply Nat.eqb_eq; cbn in *; lia).
    cbn [andb lookup list_lookup]. rewrite bool_decide_true by done. cbn [skipn].
    split; [cbn in *; lia|]. apply Hp; [lia|done].
Qed.

Lemma nat_of_byte n : (n < 256)%nat → nat_of_ascii (byte n) = n.
Proof. apply nat_ascii_embedding. Qed.

(** One turn of the loop on an encoded integer. *)
Lemma der_ints_step fuel pre p suf ints :
  (length p ≤ 33)%nat → (length ints < 2)%nat →
  let int := if (length p =? 33)%nat && bool_decide (p !! 0%nat = Some (byte 0))
             then drop 1 p else p in
  (length int ≤ 32)%nat →
  let der := pre ++ (byte 2 :: byte (length p) :: p) ++ suf in
  der_ints (S fuel) der (length pre) ints =
  der_ints fuel der (length pre + 2 + length p)%nat (ints ++ [int]).
Proof.
  intros Hp Hi int Hint der. cbn [der_ints]. subst der.
  assert ((length pre <? length (pre ++ (byte 2 :: byte (length p) :: p) ++ suf))%nat = true) as ->.
  { apply Nat.ltb_lt. rewrite length_app. cbn. lia. }
  replace (length ints <? 2)%nat with true by (symmetry; by apply Nat.ltb_lt). cbn [andb].
  rewrite (lookup_app_r pre _ (length pre)), Nat.sub_diag by lia.
  rewrite bool_decide_true by done. cbn [negb]. rewrite (lookup_app_r pre _ (length pre + 1)) by lia.
  replace (length pre + 1 - length pre)%nat with 1%nat by lia. cbn [lookup list_lookup app].
  rewrite nat_of_byte by lia.
  rewrite drop_app_ge by lia. replace (length pre + 2 - length pre)%nat with 2%nat by lia.
  cbn [skipn]. rewrite drop_0, take_app_length. fold int.
  replace (32 <? length int)%nat with false by (symmetry; by apply Nat.ltb_ge). done.
Qed.

(** The content of a DER integer as the loop keeps it. *)
Definition der_content (p : list ascii) : list ascii :=
  if (length p =? 33)%nat && bool_decide (p !! 0%nat = Some (byte 0)) then drop 1 p else p.

Lemma der_ints_pair p q n :
  (length p ≤ 33)%nat → (length q ≤ 33)%nat →
  (length (der_content p) ≤ 32)%nat → (length (der_content q) ≤ 32)%nat →
  der_ints 3 (byte 48 :: n :: (byte 2 :: byte (length p) :: p) ++ byte 2 :: byte (length q) :: q)
    2 [] = inr [der_content p; der_content q].
Proof.
  intros Hp Hq Hpi Hqi.
  pose proof (der_ints_step 2 [byte 48; n] p (byte 2 :: byte (length q) :: q) [] Hp
    ltac:(cbn; lia) Hpi) as H1.
  pose proof (der_ints_step 1 ([byte 48; n] ++ byte 2 :: byte (length p) :: p) q [] [der_content p]
    Hq ltac:(cbn; lia) Hqi) as H2.
  cbv zeta in H1, H2. rewrite app_nil_r, <- app_assoc in H2.
  fold (der_content p) in H1. fold (der_content q) in H2. cbn [length app] in H1, H2 |- *.
  rewrite H1. replace (2 + 2 + length p)%nat with (S (S (S (S (length p))))) by lia.
  rewrite H2. cbn [der_ints length Nat.ltb Nat.leb]. by rewrite andb_false_r.
Qed.

Lemma derToJose_joseToDer raw der :
  joseToDerSignature raw = inr der → derToJoseSignature der = inr raw.
Proof.
  unfold joseToDerSignature. destruct (Nat.eqb_spec (length raw) 64) as [Hr|]; [|done].
  cbn [negb].
  destruct (derInteger_spec (take 32 raw)) as (p & -> & Hp & Hpi & Hpp); [rewrite length_take; lia|].
  destruct (derInteger_spec (drop 32 raw)) as (q & -> & Hq & Hqi & Hqq); [rewrite length_drop; lia|].
  fold (der_content p) in *. fold (der_content q) in *.
  pose proof (λ n, der_ints_pair p q n ltac:(lia) ltac:(lia) Hpi Hqi) as Hloop.
  remember (_ ++ byte 2 :: _ :: q) as body eqn:Hbody.
  assert (length body = 4 + length p + length q)%nat as Hb.
  { subst body. rewrite length_app. cbn. lia. }
  replace (length body <? 128)%nat with true by (symmetry; apply Nat.ltb_lt; lia).
  intros [= <-]. unfold derToJoseSignature. cbn [length lookup list_lookup].
  replace (S (S (length body)) <? 8)%nat with false by (symmetry; apply Nat.ltb_ge; lia).
  rewrite bool_decide_true by done. cbn [orb negb]. rewrite (nat_of_byte (length body)) by lia.
  replace (length body =? 129)%nat with false by (symmetry; apply Nat.eqb_neq; lia).
  replace (128 <=? length body)%nat with false by (symmetry; apply Nat.leb_gt; lia).
  rewrite Hloop. cbn. by rewrite Hpp, Hqq, take_drop.
Qed.

Lemma joseToDer_total raw : length raw = 64%nat → ∃ der, joseToDerSignature raw = inr der.
Proof.
  intros H. unfold joseToDerSignature. rewrite H, Nat.eqb_refl. cbn [negb].
  case_match; eauto.
Qed.

(** ** Tokens *)

(** [token.split('.')]. *)
Fixpoint split_dot (s : string) : list string :=
  match s with
  | EmptyString => [EmptyString]
  | String c s' =>
    if Ascii.eqb c "." then EmptyString :: split_dot s'
    else match split_dot s' with
         | x :: l => String c x :: l
         | [] => [String c EmptyString]
         end
  end.

(** The members of an object; the last of two equal keys wins. *)
Definition obj_get (k : string) (l : list (string * json)) : option json := map_get k (rev l).

(** [v.k], which throws on [null]. *)
Definition get_prop (v : json) (k : string) : jwt_error + option json :=
  match v with
  | JNull => inl (PlainError "Cannot read properties of null")
  | JObj l => inr (obj_get k l)
  | _ => inr None
  end.

(** [String(v ?? '')] for a header member. *)
Definition string_or_empty (v : option json) : string :=
  match v with
  | None | Some JNull => ""
  | Some (JStr s) => s
  | Some (JNum n) => js_String n
  | Some (JBool b) => if b then "true" else "false"
  | Some (JArr l) =>
    String.concat "," (map (λ j, match j with JStr s => s | JNum n => js_String n | _ => "" end) l)
  | Some (JObj _) => "[object Object]"
  end.

Definition isHybrid (a : JwtSigningAlgorithm) : bool :=
  match a with hybrid_RS256_MLDSA65 | hybrid_ES256_MLDSA65 => true | _ => false end.
Definition isPurePq (a : JwtSigningAlgorithm) : bool :=
  match a with ML_DSA_65 | ML_DSA_87 => true | _ => false end.
Definition classicalAlgorithmOf (a : JwtSigningAlgorithm) : JwtSigningAlgorithm :=
  match a with hybrid_ES256_MLDSA65 => ES256 | _ => RS256 end.

(** [v === s] for a string [s]. *)
Definition is_str (v : json) (s : string) : bool :=
  match v with JStr x => String.eqb x s | _ => false end.

(** [readKid]. *)
Definition readKid (token : string) : jwt_error + string :=
  let encodedHeader := hd "" (split_dot token) in
  if String.eqb encodedHeader "" then inl (JsonWebTokenError "jwt malformed")
  else
    header ← from_some (parse (from_base64 encodedHeader)) (JsonWebTokenError "invalid token");
    k ← get_prop header "kid";
    inr (string_or_empty k).

Record decoded := mkDecoded {
  headerAlg : json; headerPqcKid : option json; decoded_claims : json }.

Definition decodeParts (encodedHeader encodedPayload : string) : jwt_error + decoded :=
  header ← from_some (parse (from_base64 encodedHeader)) (JsonWebTokenError "invalid token");
  claims ← from_some (parse (from_base64 encodedPayload)) (JsonWebTokenError "invalid token");
  alg ← get_prop header "alg";
  pqc ← get_prop header "pqc_kid";
  inr (mkDecoded (match alg with Some JNull | None => JStr "" | Some a => a end) pqc claims).

(** [assertJwtClaims]. *)
Definition assertJwtClaims (claims : json) (options : VerifyOptions) (now : Z) : jwt_error + () :=
  let nowSec := now / 1000 in
  exp ← get_prop claims "exp";
  require (match exp with Some (JNum e) => negb (e <=? nowSec) | _ => true end)
    (TokenExpiredError "jwt expired") ≫= λ _,
  nbf ← get_prop claims "nbf";
  require (match nbf with Some (JNum n) => negb (nowSec <? n) | _ => true end)
    (NotBeforeError "jwt not active") ≫= λ _,
  iat ← get_prop claims "iat";
  require (match vo_maxAge options, iat with
           | Some maxAge, Some (JNum i) => negb (maxAge <? nowSec - i)
           | _, _ => true
           end) (TokenExpiredError "maxAge exceeded") ≫= λ _,
  iss ← get_prop claims "iss";
  require (match vo_issuer options with
           | Some expected =>
             match iss with Some (JStr s) => bool_decide (s ∈ expected) | _ => false end
           | None => true
           end) (JsonWebTokenError "jwt issuer invalid") ≫= λ _,
  aud ← get_prop claims "aud";
  require (match vo_audience options with
           | Some expected =>
             let actual := match aud with Some (JArr l) => l | Some v => [v] | None => [] end in
             existsb (λ v, match v with JStr s => bool_decide (s ∈ expected) | _ => false end) actual
           | None => true
           end) (JsonWebTokenError "jwt audience invalid").

(** [claimsWithTime]. *)
Definition claimsWithTime (payload : list (string * json)) (options : SignOptions) (now : Z) :
    list (string * json) :=
  let nowSec := now / 1000 in
  let claims := foldl (λ o kv, map_set kv.1 kv.2 o) [("iat", JNum nowSec)] payload in
  let claims := match expiresIn options with
                | Some s => if map_has "exp" claims then claims
                            else map_set "exp" (JNum (nowSec + s)) claims
                | None => claims
                end in
  match notBefore options with
  | Some s => if map_has "nbf" claims then claims else map_set "nbf" (JNum (nowSec + s)) claims
  | None => claims
  end.

(** The times of a payload are numbers where it has them. *)
Definition numeric_times (l : list (string * json)) : Prop :=
  ∀ k v, k ∈ ["iat"; "exp"; "nbf"]%string → obj_get k l = Some v → ∃ n, v = JNum n.

(** Documented behaviour of [jsonwebtoken] for the algorithms left to it: the header
    of a token it signs names the key, and under the public half of that key the token
    verifies, while its claims hold, to the members that were signed. *)
Class JwtLibraryLaws (C : JwtCrypto) := {
  jwt_sign_header : ∀ payload priv a id opts now token,
    jwt_sign payload priv a id opts now = inr token →
    ∃ header, hd "" (split_dot token) = to_base64url (stringify (JObj header)) ∧
      obj_get "kid" header = Some (JStr id);
  jwt_verify_sign : ∀ payload priv pub a id opts vopts now t token,
    a = RS256 ∨ a = ES256 →
    createPrivateKey priv = true → createPublicKey priv = createPublicKey pub → is_Some (createPublicKey pub) →
    jwt_sign payload priv a id opts now = inr token →
    let claims := claimsWithTime payload opts now in
    numeric_times claims → assertJwtClaims (JObj claims) vopts t = inr tt →
    ∃ l, jwt_verify token pub a vopts t = inr (JObj l) ∧ ∀ k, obj_get k l = obj_get k claims;
}.

Section tokens.
Context {C : JwtCrypto}.

Definition missing_key : jwt_error := PlainError "missing key material".

Definition signing_input (header : list (string * json)) (claims : list (string * json)) : string :=
  to_base64url (stringify (JObj header)) +:+ "." +:+ to_base64url (stringify (JObj claims)).

Definition signMlDsaJwt (payload : list (string * json)) (key : SigningKey) (options : SignOptions)
    (now : Z) : jwt_error + string :=
  let input := signing_input
    [("alg", JStr (alg_string (algorithm key))); ("kid", JStr (kid key)); ("typ", JStr "JWT")]
    (claimsWithTime payload options now) in
  sk ← from_some (pqPrivateKey key) missing_key;
  inr (input +:+ "." +:+ to_base64url (mlDsa_sign (algorithm key) input (from_base64 sk))).

Definition verifyMlDsaJwt (token : string) (key : SigningKey) (options : VerifyOptions) (now : Z) :
    jwt_error + json :=
  match split_dot token with
  | [h; p; s] =>
    d ← decodeParts h p;
    require (is_str (headerAlg d) (alg_string (algorithm key)))
      (JsonWebTokenError "invalid algorithm") ≫= λ _,
    pk ← from_some (pqPublicKey key) missing_key;
    require (mlDsa_verify (algorithm key) (from_base64 s) (h +:+ "." +:+ p) (from_base64 pk))
      jwt_invalid_signature ≫= λ _,
    assertJwtClaims (decoded_claims d) options now ≫= λ _,
    inr (decoded_claims d)
  | _ => inl (JsonWebTokenError "jwt malformed")
  end.

Definition signHybridJwt (payload : list (string * json)) (key : SigningKey) (options : SignOptions)
    (now : Z) : jwt_error + string :=
  let input := signing_input
    [("alg", JStr (alg_string (algorithm key))); ("kid", JStr (kid key));
     ("pqc_kid", JStr (kid key +:+ "-pqc")); ("typ", JStr "JWT")]
    (claimsWithTime payload options now) in
  priv ← from_some (privateKey key) missing_key;
  classicalRaw ← from_some (nodeSign (Some "sha256") input priv) missing_key;
  classical ←
    match classicalAlgorithmOf (algorithm key) with
    | ES256 => raw ← derToJoseSignature (list_of_string classicalRaw); inr (string_of_list raw)
    | _ => inr classicalRaw
    end;
  sk ← from_some (pqPrivateKey key) missing_key;
  inr (input +:+ "." +:+ to_base64url classical +:+ "." +:+
       to_base64url (mlDsa_sign ML_DSA_65 input (from_base64 sk))).

Definition verifyHybridJwt (token : string) (key : SigningKey) (options : VerifyOptions) (now : Z) :
    jwt_error + json :=
  match split_dot token with
  | [h; p; c; q] =>
    d ← decodeParts h p;
    require
      (is_str (headerAlg d) (alg_string (algorithm key)) &&
       match headerPqcKid d with Some k => is_str k (kid key +:+ "-pqc") | None => false end) (JsonWebTokenError "invalid algorithm") ≫= λ _,
    classicalVerifyInput ←
      match classicalAlgorithmOf (algorithm key) with
      | ES256 => der ← joseToDerSignature (list_of_string (from_base64 c)); inr (string_of_list der)
      | _ => inr (from_base64 c)
      end;
    let classicalValid :=
      match publicKey key with
      | Some pub =>
        match nodeVerify (Some "sha256") (h +:+ "." +:+ p) pub classicalVerifyInput with
        | Some b => b
        | None => false
        end
      | None => false
      end in
    pk ← from_some (pqPublicKey key) missing_key;
    require
      (classicalValid &&
       mlDsa_verify ML_DSA_65 (from_base64 q) (h +:+ "." +:+ p) (from_base64 pk))
      jwt_invalid_signature ≫= λ _,
    assertJwtClaims (decoded_claims d) options now ≫= λ _,
    inr (decoded_claims d)
  | _ => inl (JsonWebTokenError "jwt malformed")
  end.

Definition signEdDsaJwt (payload : list (string * json)) (key : SigningKey) (options : SignOptions)
    (now : Z) : jwt_error + string :=
  let input := signing_input
    [("alg", JStr "EdDSA"); ("kid", JStr (kid key)); ("typ", JStr "JWT")]
    (claimsWithTime payload options now) in
  priv ← from_some (privateKey key) missing_key;
  signature ← from_some (nodeSign None input priv) missing_key;
  inr (input +:+ "." +:+ to_base64url signature).

Definition verifyEdDsaJwt (token : string) (key : SigningKey) (options : VerifyOptions) (now : Z) :
    jwt_error + json :=
  match split_dot token with
  | [h; p; s] =>
    require (negb (String.eqb h "" || String.eqb p "" || String.eqb s ""))
      (JsonWebTokenError "jwt malformed") ≫= λ _,
    d ← decodeParts h p;
    require (is_str (headerAlg d) "EdDSA")
      (JsonWebTokenError "invalid algorithm") ≫= λ _,
    pub ← from_some (publicKey key) missing_key;
    valid ← from_some (nodeVerify None (h +:+ "." +:+ p) pub (from_base64 s)) missing_key;
    require valid jwt_invalid_signature ≫= λ _,
    assertJwtClaims (decoded_claims d) options now ≫= λ _,
    inr (decoded_claims d)
  | _ => inl (JsonWebTokenError "jwt malformed")
  end.

(** [signToken] and [verifyToken]. *)
Definition signToken (payload : list (string * json)) (key : SigningKey) (options : SignOptions)
    (now : Z) : jwt_error + string :=
  if isHybrid (algorithm key) then signHybridJwt payload key options now
  else if isPurePq (algorithm key) then signMlDsaJwt payload key options now
  else
    match algorithm key with
    | EdDSA => signEdDsaJwt payload key options now
    | a =>
      priv ← from_some (privateKey key) missing_key;
      if createPrivateKey priv then jwt_sign payload priv a (kid key) options now
      else inl missing_key
    end.

Definition verifyToken (token : string) (key : SigningKey) (options : VerifyOptions) (now : Z) :
    jwt_error + json :=
  if isHybrid (algorithm key) then verifyHybridJwt token key options now
  else if isPurePq (algorithm key) then verifyMlDsaJwt token key options now
  else
    match algorithm key with
    | EdDSA => verifyEdDsaJwt token key options now
    | a =>
      pub ← from_some (publicKey key) missing_key;
      match createPublicKey pub with
      | Some _ => jwt_verify token pub a options now
      | None => inl missing_key
      end
    end.

(** *** The signature formats invert each other *)
Lemma split_dot_app a s :
  Forall (λ c, negb (Ascii.eqb c ".") = true) (list_of_string a) →
  split_dot (a +:+ "." +:+ s) = a :: split_dot s.
Proof.
  induction a as [|c a IH]; intros Ha; [done|].
  apply Forall_cons in Ha as [Hc Ha%IH]. change (String c a +:+ "." +:+ s)
    with (String c (a +:+ "." +:+ s)). cbn [split_dot].
  rewrite (proj1 (negb_true_iff _) Hc), Ha. done.
Qed.

Lemma split_dot_last a :
  Forall (λ c, negb (Ascii.eqb c ".") = true) (list_of_string a) → split_dot a = [a].
Proof.
  induction a as [|c a IH]; intros Ha; [done|]. apply Forall_cons in Ha as [Hc Ha%IH].
  cbn [split_dot]. rewrite (proj1 (negb_true_iff _) Hc), Ha. done.
Qed.

Lemma base64url_no_dot s :
  Forall (λ c, negb (Ascii.eqb c ".") = true) (list_of_string (to_base64url s)).
Proof.
  unfold to_base64url. rewrite list_of_string_of_list.
  apply (encode_forall 6 BASE64URL_ALPHABET s (λ c, negb (Ascii.eqb c "."))); [lia|by vm_compute].
Qed.

Lemma base64url_nonempty s : s ≠ "" → to_base64url s ≠ "".
Proof. intros Hs H. apply Hs, (inj to_base64url). rewrite H. by vm_compute. Qed.

Lemma decodeParts_signed header claims :
  decodeParts (to_base64url (stringify (JObj header))) (to_base64url (stringify (JObj claims))) =
  inr (mkDecoded (match obj_get "alg" header with Some JNull | None => JStr "" | Some a => a end)
         (obj_get "pqc_kid" header) (JObj claims)).
Proof. unfold decodeParts. rewrite !from_to_base64url, !parse_stringify. done. Qed.

#[local] Opaque to_base64url from_base64 stringify parse assertJwtClaims claimsWithTime.

(** What [verifyToken] demands of the two halves of a key. *)
Definition key_pair_ok (key : SigningKey) : Prop :=
  (isPurePq (algorithm key) = false →
     ∃ pub priv, publicKey key = Some pub ∧ privateKey key = Some priv ∧
       createPrivateKey priv = true ∧ createPublicKey priv = createPublicKey pub ∧
       is_Some (createPublicKey pub)) ∧
  (isPurePq (algorithm key) || isHybrid (algorithm key) = true →
     ∃ i a, a = (if isHybrid (algorithm key) then ML_DSA_65 else algorithm key) ∧
       pqPublicKey key = Some (to_base64url (mlDsa_keygen i a).1) ∧
       pqPrivateKey key = Some (to_base64url (mlDsa_keygen i a).2)).

Lemma signed_parts header claims sig :
  split_dot (signing_input header claims +:+ "." +:+ to_base64url sig) =
  [to_base64url (stringify (JObj header)); to_base64url (stringify (JObj claims)); to_base64url sig].
Proof.
  unfold signing_input. rewrite !str_app_assoc.
  rewrite !split_dot_app by apply base64url_no_dot.
  by rewrite split_dot_last by apply base64url_no_dot.
Qed.

Lemma bind_inr {E A B} (a : A) (k : A → E + B) : (inr a ≫= k) = k a.
Proof. done. Qed.
Lemma require_true {E B} (e : E) (k : () → E + B) : (require true e ≫= k) = k tt.
Proof. done. Qed.
Lemma from_some_bind {E A B} (a : A) (e : E) (k : A → E + B) : (from_some (Some a) e ≫= k) = k a.
Proof. done. Qed.
Lemma is_str_refl s : is_str (JStr s) s = true.
Proof. apply String.eqb_refl. Qed.
Create Rewrite HintDb jwt.
Hint Rewrite @bind_inr @require_true @from_some_bind is_str_refl from_to_base64url : jwt.

Ltac jwt_simpl :=
  repeat progress (autorewrite with jwt; cbn [headerAlg headerPqcKid decoded_claims andb orb negb]).

Lemma decode_signed header claims a pqc :
  obj_get "alg" header = Some (JStr a) → obj_get "pqc_kid" header = pqc →
  decodeParts (to_base64url (stringify (JObj header))) (to_base64url (stringify (JObj claims))) =
  inr (mkDecoded (JStr a) pqc (JObj claims)).
Proof. intros Ha Hp. by rewrite decodeParts_signed, Ha, Hp. Qed.

Lemma stringify_obj_nonempty l : stringify (JObj l) ≠ "".
Proof.
  change (stringify (JObj l)) with (String "{" (fields_string l)). discriminate.
Qed.

Lemma signing_input_eq header claims :
  to_base64url (stringify (JObj header)) +:+ "." +:+ to_base64url (stringify (JObj claims)) =
  signing_input header claims.
Proof. done. Qed.

Lemma verify_sign_EdDSA `{!JwtCryptoLaws C} payload key sopts vopts now t token :
  algorithm key = EdDSA → key_pair_ok key →
  signToken payload key sopts now = inr token →
  assertJwtClaims (JObj (claimsWithTime payload sopts now)) vopts t = inr tt →
  verifyToken token key vopts t = inr (JObj (claimsWithTime payload sopts now)).
Proof.
  intros Ha [Hc _] Hs Hv. unfold signToken, verifyToken in *. rewrite Ha in *.
  cbn [isHybrid isPurePq] in *.
  destruct Hc as (pub & priv & Hpub & Hpriv & Hok & Hpair & Hvalid); [done|].
  unfold signEdDsaJwt in Hs. rewrite Hpriv, from_some_bind in Hs.
  set (input := signing_input _ _) in Hs.
  destruct (nodeSign_some None input priv Hok) as (sig & Hsig & Hne).
  rewrite Hsig, from_some_bind in Hs. injection Hs as <-. subst input.
  unfold verifyEdDsaJwt. rewrite signed_parts.
  rewrite !(proj2 (String.eqb_neq _ _))
    by (apply base64url_nonempty; first [exact Hne|apply stringify_obj_nonempty]).
  rewrite (decode_signed _ _ "EdDSA" None), signing_input_eq, Hpub by done.
  jwt_simpl.
  rewrite (nodeVerify_sign _ _ priv _ sig) by done. jwt_simpl. by rewrite Hv.
Qed.

Lemma verify_sign_MlDsa `{!JwtCryptoLaws C} payload key sopts vopts now t token :
  isPurePq (algorithm key) = true → key_pair_ok key →
  signToken payload key sopts now = inr token →
  assertJwtClaims (JObj (claimsWithTime payload sopts now)) vopts t = inr tt →
  verifyToken token key vopts t = inr (JObj (claimsWithTime payload sopts now)).
Proof.
  intros Ha [_ Hc] Hs Hv. unfold signToken, verifyToken in *.
  assert (isHybrid (algorithm key) = false) as Hh by (by destruct (algorithm key)).
  rewrite Ha, Hh in *. destruct Hc as (i & a & -> & Hpub & Hpriv); [done|].
  unfold signMlDsaJwt in Hs. rewrite Hpriv, from_some_bind in Hs.
  injection Hs as <-. unfold verifyMlDsaJwt. rewrite signed_parts.
  rewrite (decode_signed _ _ (alg_string (algorithm key)) None), signing_input_eq, Hpub by done.
  jwt_simpl.
  rewrite mlDsa_verify_sign. jwt_simpl. by rewrite Hv.
Qed.

(** The ECDSA leg of a hybrid key signs with a DER encoding of two 32-byte
    integers. *)
Definition ecdsa_der_ok (key : SigningKey) : Prop :=
  classicalAlgorithmOf (algorithm key) = ES256 →
  ∀ priv data sig, privateKey key = Some priv → nodeSign (Some "sha256") data priv = Some sig →
  ∃ raw, joseToDerSignature raw = inr (list_of_string sig).

Lemma hybrid_parts header claims s1 s2 :
  split_dot (signing_input header claims +:+ "." +:+ to_base64url s1 +:+ "." +:+ to_base64url s2) =
  [to_base64url (stringify (JObj header)); to_base64url (stringify (JObj claims));
   to_base64url s1; to_base64url s2].
Proof.
  unfold signing_input. rewrite !str_app_assoc.
  rewrite !split_dot_app by apply base64url_no_dot.
  by rewrite split_dot_last by apply base64url_no_dot.
Qed.

(** The classical leg carried by a hybrid token gives back the signature. *)
Lemma classical_leg key priv data sig jose :
  ecdsa_der_ok key → privateKey key = Some priv → nodeSign (Some "sha256") data priv = Some sig →
  match classicalAlgorithmOf (algorithm key) with
  | ES256 => raw ← derToJoseSignature (list_of_string sig); inr (string_of_list raw)
  | _ => inr sig
  end = inr jose →
  match classicalAlgorithmOf (algorithm key) with
  | ES256 => der ← joseToDerSignature (list_of_string jose); inr (string_of_list der)
  | _ => inr jose
  end = inr sig.
Proof.
  intros He Hpriv Hsig. unfold ecdsa_der_ok in He.
  destruct (classicalAlgorithmOf (algorithm key)); intros H; try by injection H as <-.
  destruct (He eq_refl priv data sig Hpriv Hsig) as [raw Hraw].
  rewrite (derToJose_joseToDer _ _ Hraw) in H. cbn in H. injection H as <-.
  rewrite list_of_string_of_list, Hraw. cbn. by rewrite string_of_list_of_string.
Qed.

Lemma verify_sign_hybrid `{!JwtCryptoLaws C} payload key sopts vopts now t token :
  isHybrid (algorithm key) = true → key_pair_ok key → ecdsa_der_ok key →
  signToken payload key sopts now = inr token →
  assertJwtClaims (JObj (claimsWithTime payload sopts now)) vopts t = inr tt →
  verifyToken token key vopts t = inr (JObj (claimsWithTime payload sopts now)).
Proof.
  intros Ha [Hc Hq] He Hs Hv. unfold signToken, verifyToken in *. rewrite Ha in *.
  destruct Hc as (pub & priv & Hpub & Hpriv & Hok & Hpair & Hvalid); [by destruct (algorithm key)|].
  destruct Hq as (i & a & -> & Hqpub & Hqpriv); [by rewrite orb_true_r|].
  unfold signHybridJwt in Hs. rewrite Hpriv, Hqpriv, !from_some_bind in Hs.
  set (input := signing_input _ _) in Hs.
  destruct (nodeSign_some (Some "sha256") input priv Hok) as (sig & Hsig & _).
  rewrite Hsig, from_some_bind in Hs.
  destruct (match classicalAlgorithmOf (algorithm key) with ES256 => _ | _ => _ end) as [|jose] eqn:Hj;
    [done|].
  rewrite bind_inr, from_some_bind in Hs. injection Hs as <-. unfold verifyHybridJwt. subst input.
  rewrite hybrid_parts.
  rewrite (decode_signed _ _ (alg_string (algorithm key)) (Some (JStr (kid key +:+ "-pqc")))),
    signing_input_eq, Hpub, Hqpub by done.
  jwt_simpl. rewrite (classical_leg key priv _ sig jose He Hpriv Hsig Hj).
  jwt_simpl. rewrite (nodeVerify_sign _ _ priv _ sig), mlDsa_verify_sign by done.
  jwt_simpl. by rewrite Hv.
Qed.

(** The header of a token names the key that signed it. *)
Lemma signToken_header payload key opts now token :
  isHybrid (algorithm key) || isPurePq (algorithm key) ||
    match algorithm key with EdDSA => true | _ => false end = true →
  signToken payload key opts now = inr token →
  ∃ header, hd "" (split_dot token) = to_base64url (stringify (JObj header)) ∧
    obj_get "kid" header = Some (JStr (kid key)).
Proof.
  assert (∀ header s, hd "" (split_dot ((to_base64url (stringify (JObj header)) +:+ "." +:+ s))) =
    to_base64url (stringify (JObj header))) as Hhd
    by (intros header s; by rewrite split_dot_app by apply base64url_no_dot).
  unfold signToken. destruct (isHybrid (algorithm key)); [|destruct (isPurePq (algorithm key))]; cbn [orb].
  - intros _. unfold signHybridJwt, signing_input. cbv zeta.
    destruct (privateKey key) as [priv|]; [|done]. rewrite from_some_bind.
    destruct (nodeSign (Some _) _ priv); [|done]. rewrite from_some_bind. destruct (match classicalAlgorithmOf _ with ES256 => _ | _ => _ end); [done|].
    rewrite bind_inr. destruct (pqPrivateKey key); [|done]. rewrite from_some_bind. intros [= <-].
    eexists. by rewrite !str_app_assoc, Hhd.
  - intros _. unfold signMlDsaJwt, signing_input. cbv zeta.
    destruct (pqPrivateKey key); [|done]. rewrite from_some_bind. intros [= <-]. eexists. by rewrite !str_app_assoc, Hhd.
  - destruct (algorithm key); try done. intros _. unfold signEdDsaJwt, signing_input. cbv zeta.
    destruct (privateKey key) as [priv|]; [|done]. rewrite from_some_bind.
    destruct (nodeSign None _ priv); [|done]. rewrite from_some_bind. intros [= <-]. eexists. by rewrite !str_app_assoc, Hhd.
Qed.

(** The algorithms whose tokens this package builds itself. *)
Definition own_format (a : JwtSigningAlgorithm) : bool :=
  isHybrid a || isPurePq a || match a with EdDSA => true | _ => false end.

Lemma verify_sign `{!JwtCryptoLaws C} payload key sopts vopts now t token :
  own_format (algorithm key) = true → key_pair_ok key → ecdsa_der_ok key →
  signToken payload key sopts now = inr token →
  assertJwtClaims (JObj (claimsWithTime payload sopts now)) vopts t = inr tt →
  verifyToken token key vopts t = inr (JObj (claimsWithTime payload sopts now)).
Proof.
  unfold own_format. intros Ho Hk He Hs Hv. destruct (isHybrid (algorithm key)) eqn:Hh.
  - by eapply verify_sign_hybrid.
  - destruct (isPurePq (algorithm key)) eqn:Hq; [by eapply verify_sign_MlDsa|].
    eapply verify_sign_EdDSA; [|done..]. by destruct (algorithm key).
Qed.

(** Every asymmetric algorithm: a signed token verifies to the members signed. *)
Lemma verify_sign_members `{!JwtCryptoLaws C} `{!JwtLibraryLaws C} payload key sopts vopts now t token :
  algorithm key ≠ HS256 → key_pair_ok key → ecdsa_der_ok key →
  signToken payload key sopts now = inr token → numeric_times (claimsWithTime payload sopts now) →
  assertJwtClaims (JObj (claimsWithTime payload sopts now)) vopts t = inr tt →
  ∃ l, verifyToken token key vopts t = inr (JObj l) ∧ ∀ k, obj_get k l = obj_get k (claimsWithTime payload sopts now).
Proof.
  intros Ha Hk He Hs Hn Hv. destruct (own_format (algorithm key)) eqn:Ho.
  { eexists. split; [by eapply verify_sign|done]. }
  assert (algorithm key = RS256 ∨ algorithm key = ES256) as Halg by (destruct (algorithm key); auto; done).
  destruct Hk as [Hk _]. destruct Hk as (pub & priv & Hpub & Hpriv & Hok & Hpair & Hvalid); [by destruct Halg as [->| ->]|].
  unfold signToken in Hs. unfold verifyToken.
  assert (from_some (privateKey key) missing_key = inr priv) as Hp by (by rewrite Hpriv).
  destruct Halg as [Halg|Halg]; rewrite Halg in *; cbn [isHybrid isPurePq] in *; rewrite Hpriv, from_some_bind, Hok in Hs;
    rewrite Hpub, from_some_bind; (destruct (createPublicKey pub) eqn:Hpk; [|by destruct Hvalid]);
    (eapply jwt_verify_sign; [|exact Hok| | |exact Hs|exact Hn|exact Hv]); rewrite ?Hpk; auto.
Qed.
Lemma signToken_names_key `{!JwtLibraryLaws C} payload key opts now token :
  algorithm key ≠ HS256 → signToken payload key opts now = inr token →
  ∃ header, hd "" (split_dot token) = to_base64url (stringify (JObj header)) ∧ obj_get "kid" header = Some (JStr (kid key)).
Proof.
  intros Ha Hs. destruct (own_format (algorithm key)) eqn:Ho; [by eapply signToken_header|].
  unfold signToken in Hs. destruct (algorithm key); try done; cbn [isHybrid isPurePq] in Hs;
    (destruct (privateKey key) as [priv|]; [|done]); rewrite from_some_bind in Hs; (destruct (createPrivateKey priv); [|done]);
    by eapply jwt_sign_header.
Qed.

(** What the segments after the payload must prove about [header.payload]. *)
Definition signatures_ok (key : SigningKey) (input : string) (segments : list string) : Prop :=
  if isHybrid (algorithm key) then
    ∃ c q pub pk, segments = [c; q] ∧ publicKey key = Some pub ∧ pqPublicKey key = Some pk ∧
      (∃ sig, nodeVerify (Some "sha256") input pub sig = Some true) ∧
      mlDsa_verify ML_DSA_65 (from_base64 q) input (from_base64 pk) = true
  else if isPurePq (algorithm key) then
    ∃ q pk, segments = [q] ∧ pqPublicKey key = Some pk ∧
      mlDsa_verify (algorithm key) (from_base64 q) input (from_base64 pk) = true
  else
    ∃ c pub, segments = [c] ∧ publicKey key = Some pub ∧
      nodeVerify None input pub (from_base64 c) = Some true.

Lemma require_ok {E} (c : bool) (e : E) u : require c e = inr u → c = true.
Proof. by destruct c. Qed.
Lemma bind_ok {E A B} (m : E + A) (k : A → E + B) b :
  (m ≫= k) = inr b → ∃ a, m = inr a ∧ k a = inr b.
Proof. destruct m as [e|a]; [done|]. eauto. Qed.
Lemma from_some_ok {E A} (o : option A) (e : E) a : from_some o e = inr a → o = Some a.
Proof. destruct o; cbn; congruence. Qed.
Lemma is_str_ok v s : is_str v s = true → v = JStr s.
Proof. destruct v; try done. cbn. intros ->%String.eqb_eq. done. Qed.

Lemma decodeParts_ok h p d :
  decodeParts h p = inr d →
  ∃ header, parse (from_base64 h) = Some header ∧
    (∀ a, a ≠ "" → headerAlg d = JStr a → get_prop header "alg" = inr (Some (JStr a))) ∧
    parse (from_base64 p) = Some (decoded_claims d).
Proof.
  unfold decodeParts. intros (header & Hh%from_some_ok & H)%bind_ok.
  apply bind_ok in H as (claims & Hp%from_some_ok & H).
  apply bind_ok in H as (alg & Ha & H). apply bind_ok in H as (pqc & _ & [= <-]).
  exists header. split; [done|]. split; [|done]. cbn. intros a Hne.
  destruct alg as [[]|]; intros [= Hx]; congruence.
Qed.

(** A token this package accepts names the key's algorithm, every signature leg
    the algorithm has covers its [header.payload] bytes, and its claims passed
    the checks. *)
Lemma verifyToken_sound token key opts t claims :
  own_format (algorithm key) = true → verifyToken token key opts t = inr claims →
  ∃ h p segments header,
    split_dot token = h :: p :: segments ∧ parse (from_base64 h) = Some header ∧
    get_prop header "alg" = inr (Some (JStr (alg_string (algorithm key)))) ∧
    parse (from_base64 p) = Some claims ∧
    signatures_ok key (h +:+ "." +:+ p) segments ∧ assertJwtClaims claims opts t = inr tt.
Proof.
  unfold own_format, verifyToken, signatures_ok. intros Hown.
  assert (alg_string (algorithm key) ≠ "") as Hne by (by destruct (algorithm key)).
  destruct (isHybrid (algorithm key)) eqn:Hh; [|destruct (isPurePq (algorithm key)) eqn:Hq].
  - unfold verifyHybridJwt. destruct (split_dot token) as [|h [|p [|c [|q [|]]]]]; try done.
    intros (d & Hd & H)%bind_ok. apply bind_ok in H as ([] & [Ha _]%require_ok%andb_true_iff & H).
    apply bind_ok in H as (sig & _ & H). apply bind_ok in H as (pk & Hpk%from_some_ok & H).
    apply bind_ok in H as ([] & [Hc Hpq]%require_ok%andb_true_iff & H).
    apply bind_ok in H as ([] & Has & [= <-]).
    destruct (decodeParts_ok h p d Hd) as (header & Hhd & Halg & Hcl).
    exists h, p, [c; q], header. do 4 (split; [eauto using is_str_ok|]). split; [|done].
    destruct (publicKey key) as [pub|] eqn:Hpub; [|done]. exists c, q, pub, pk.
    do 3 (split; [done|]). split; [|done]. exists sig.
    destruct (nodeVerify _ _ pub sig) as [b|]; [by subst|done].
  - unfold verifyMlDsaJwt. destruct (split_dot token) as [|h [|p [|q [|]]]]; try done.
    intros (d & Hd & H)%bind_ok. apply bind_ok in H as ([] & Ha%require_ok & H).
    apply bind_ok in H as (pk & Hpk%from_some_ok & H).
    apply bind_ok in H as ([] & Hpq%require_ok & H). apply bind_ok in H as ([] & Has & [= <-]).
    destruct (decodeParts_ok h p d Hd) as (header & Hhd & Halg & Hcl).
    exists h, p, [q], header. do 4 (split; [eauto using is_str_ok|]). split; [|done]. eauto.
  - destruct (algorithm key); try done. unfold verifyEdDsaJwt.
    destruct (split_dot token) as [|h [|p [|c [|]]]]; try done.
    intros ([] & _ & H)%bind_ok. apply bind_ok in H as (d & Hd & H).
    apply bind_ok in H as ([] & Ha%require_ok & H).
    apply bind_ok in H as (pub & Hpub%from_some_ok & H).
    apply bind_ok in H as (v & Hv%from_some_ok & H). apply bind_ok in H as ([] & ->%require_ok & H).
    apply bind_ok in H as ([] & Has & [= <-]).
    destruct (decodeParts_ok h p d Hd) as (header & Hhd & Halg & Hcl).
    exists h, p, [c], header. do 4 (split; [eauto using is_str_ok|]). split; [|done]. eauto.
Qed.
End tokens.

(** The checks a payload has passed. *)
Lemma assertJwtClaims_ok l opts t :
  assertJwtClaims (JObj l) opts t = inr tt →
  (∀ e, obj_get "exp" l = Some (JNum e) → t / 1000 < e) ∧
  (∀ n, obj_get "nbf" l = Some (JNum n) → n <= t / 1000) ∧
  (∀ m i, vo_maxAge opts = Some m → obj_get "iat" l = Some (JNum i) → t / 1000 - i <= m) ∧
  (∀ expected, vo_issuer opts = Some expected →
     ∃ s, obj_get "iss" l = Some (JStr s) ∧ s ∈ expected) ∧
  (∀ expected, vo_audience opts = Some expected →
     ∃ s, s ∈ expected ∧ (obj_get "aud" l = Some (JStr s) ∨
       ∃ vs, obj_get "aud" l = Some (JArr vs) ∧ In (JStr s) vs)).
Proof.
  unfold assertJwtClaims. cbn [get_prop]. rewrite !bind_inr.
  intros ([] & He%require_ok & H)%bind_ok. cbv beta in H; rewrite ?bind_inr in H.
  apply bind_ok in H as ([] & Hn%require_ok & H). cbv beta in H; rewrite ?bind_inr in H.
  apply bind_ok in H as ([] & Hm%require_ok & H). cbv beta in H; rewrite ?bind_inr in H.
  apply bind_ok in H as ([] & Hi%require_ok & H). cbv beta in H; rewrite ?bind_inr in H. apply require_ok in H.
  split; [|split; [|split; [|split]]].
  - intros e Hx. rewrite Hx in He. bool_to_prop. lia.
  - intros n Hx. rewrite Hx in Hn. bool_to_prop. lia.
  - intros m i Hx Hy. rewrite Hx, Hy in Hm. bool_to_prop. lia.
  - intros ex Hx. rewrite Hx in Hi. destruct (obj_get "iss" l) as [[]|]; try done.
    exists s. split; [done|]. by apply bool_decide_eq_true in Hi.
  - intros ex Hx. rewrite Hx in H. apply existsb_exists in H as (v & Hin & Hv).
    destruct v as [| | |s| |]; try done. apply bool_decide_eq_true in Hv. exists s. split; [done|].
    destruct (obj_get "aud" l) as [[| | |a|vs|]|]; cbn in Hin;
      try (destruct Hin as [Hin|[]]; discriminate Hin); [| |done].
    + destruct Hin as [[= ->]|[]]. by left.
    + right. eauto.
Qed.


(** ** Signing keys *)
Module KeyStore.
Section keystore.
Context {C : JwtCrypto} (randomUUID : nat → string).

Record t := mkKeyStore { keys : list (string * SigningKey); configuredAlgorithm : JwtSigningAlgorithm }.
#[export] Instance settable_t : Settable t := {| eta_expand := λ s, mkKeyStore (keys s) (configuredAlgorithm s) |}.

Definition all (s : t) : list SigningKey := map snd (keys s).

(** [generateKeyPairForAlgorithm] and [generateSigningKeyPair]. *)
Definition generateKeyPairForAlgorithm (d : nat) (a : JwtSigningAlgorithm) :
    jwt_error + (string * string) :=
  match a with
  | ES256 | EdDSA | RS256 => inr (generateKeyPairSync d a)
  | HS256 => inl (PlainError "JWT algorithm HS256 is symmetric")
  | _ => inl (PlainError "Unsupported JWT signing algorithm")
  end.

Definition generateSigningKeyPair (d : nat) (a : JwtSigningAlgorithm) :
    jwt_error + SigningKeyMaterial :=
  if isPurePq a then
    let '(pk, sk) := mlDsa_keygen d a in
    inr (mkSigningKeyMaterial None None (Some (to_base64url pk)) (Some (to_base64url sk)))
  else if isHybrid a then
    classical ← generateKeyPairForAlgorithm d (classicalAlgorithmOf a);
    let '(pk, sk) := mlDsa_keygen d ML_DSA_65 in
    inr (mkSigningKeyMaterial (Some classical.1) (Some classical.2)
           (Some (to_base64url pk)) (Some (to_base64url sk)))
  else
    classical ← generateKeyPairForAlgorithm d a;
    inr (mkSigningKeyMaterial (Some classical.1) (Some classical.2) None None).

Definition prune (now : Z) (s : t) : t :=
  s <| keys ::= List.filter (λ kv, negb (expiresAt kv.2 <? now)) |>.

Definition DEFAULT_KEY_TTL : Z := 30 * 24 * 60 * 60 * 1000.

(** [addKey()]: the [kid] and the key material come from draw [d]. *)
Definition addKey (now : Z) (d : nat) (s : t) : jwt_error + (t * SigningKey) :=
  let kid := randomUUID d in
  m ← generateSigningKeyPair d (configuredAlgorithm s);
  let key := mkSigningKey kid (configuredAlgorithm s) (m_publicKey m) (m_privateKey m)
               (m_pqPublicKey m) (m_pqPrivateKey m) now ACTIVE (Some now) None None
               (now + DEFAULT_KEY_TTL) in
  inr (prune now (s <| keys ::= map_set kid key |>), key).

Definition usable (now : Z) (k : SigningKey) : bool :=
  bool_decide (status k = ACTIVE) && (now <? expiresAt k).

(** [get current()]. *)
Definition current (now : Z) (d : nat) (s : t) : jwt_error + (t * SigningKey) :=
  match List.find (usable now) (sort_by (λ k, - createdAt k) (all s)) with
  | Some k => inr (s, k)
  | None => addKey now d s
  end.

Definition byKid (now : Z) (kid : string) (s : t) : option SigningKey :=
  match map_get kid (keys s) with
  | Some k => if negb (bool_decide (status k = REVOKED)) && (now <? expiresAt k) then Some k else None
  | None => None
  end.

Definition clear (s : t) : t := s <| keys := [] |>.

(** [validatePqLeg] and the checks of [addKeyWithMaterial]. *)
Definition validatePqLeg (value : option string) (expectedBytes : nat) : bool :=
  match value with
  | Some v => negb (String.eqb v "") && (String.length (from_base64 v) =? expectedBytes)%nat
  | None => false
  end.
Definition publicKeyBytes (a : JwtSigningAlgorithm) : nat :=
  match a with ML_DSA_87 => N.to_nat 2592 | _ => N.to_nat 1952 end.
Definition privateKeyBytes (a : JwtSigningAlgorithm) : nat :=
  match a with ML_DSA_87 => N.to_nat 4896 | _ => N.to_nat 4032 end.

Definition material_ok (k : SigningKey) : bool :=
  let a := algorithm k in
  if isPurePq a then
    validatePqLeg (pqPublicKey k) (publicKeyBytes a) && validatePqLeg (pqPrivateKey k) (privateKeyBytes a)
  else
    match publicKey k, privateKey k with
    | Some pub, Some priv =>
      negb (String.eqb pub "") && negb (String.eqb priv "") && createPrivateKey priv &&
      match createPublicKey pub, createPublicKey priv with
      | Some x, Some y => String.eqb x y
      | _, _ => false
      end &&
      (negb (isHybrid a) ||
       validatePqLeg (pqPublicKey k) (publicKeyBytes ML_DSA_65) &&
       validatePqLeg (pqPrivateKey k) (privateKeyBytes ML_DSA_65))
    | _, _ => false
    end.

Definition addKeyWithMaterial (now : Z) (k : SigningKey) (s : t) : jwt_error + t :=
  require (negb (String.eqb (kid k) "") && material_ok k)
    (PlainError "Cannot restore an incomplete signing key") ≫= λ _,
  let restored := k <| activatedAt := Some (nullish (activatedAt k) (createdAt k)) |> in
  inr (prune now (s <| keys ::= map_set (kid k) restored |>)).

(** [publicKeyToJwk], [pqPublicKeyToJwk] and [jwks()]. *)
Definition publicKeyToJwk (pem kid : string) (a : JwtSigningAlgorithm) : JwkJson :=
  let jwk := export_jwk pem in
  let field k := map_get k jwk in
  let kty := nullish (field "kty") "RSA" in
  if String.eqb kty "RSA" then mkJwkJson kty kid (field "n") (field "e") None None None a []
  else if String.eqb kty "EC" then
    mkJwkJson kty kid None None (field "crv") (field "x") (field "y") a []
  else if String.eqb kty "OKP" then mkJwkJson kty kid None None (field "crv") (field "x") None a []
  else mkJwkJson kty kid None None None None None a [].

Definition pqPublicKeyToJwk (pk kid : string) (a : JwtSigningAlgorithm) : JwkJson :=
  mkJwkJson "ML-DSA" kid None None (Some (alg_string a)) (Some pk) None a ["verify"].

Definition jwks_of (k : SigningKey) : list JwkJson :=
  let pem := nullish (publicKey k) "" in
  let pk := nullish (pqPublicKey k) "" in
  if isPurePq (algorithm k) then [pqPublicKeyToJwk pk (kid k) (algorithm k)]
  else if isHybrid (algorithm k) then
    [publicKeyToJwk pem (kid k) (classicalAlgorithmOf (algorithm k));
     pqPublicKeyToJwk pk (kid k +:+ "-pqc") ML_DSA_65]
  else [publicKeyToJwk pem (kid k) (algorithm k)].

Definition published (now : Z) (k : SigningKey) : bool :=
  negb (expiresAt k <=? now) &&
  (bool_decide (status k = ACTIVE) || bool_decide (status k = VERIFY_ONLY)).

Definition jwks (now : Z) (s : t) : list JwkJson :=
  flat_map jwks_of (List.filter (published now) (all s)).

Definition retire (now : Z) (kid : string) (s : t) : jwt_error + t :=
  match map_get kid (keys s) with
  | Some k =>
    if bool_decide (status k = REVOKED) then inl (PlainError "Cannot retire unknown or revoked signing key")
    else inr (s <| keys ::= map_set kid (k <| status := VERIFY_ONLY |> <| retiredAt := Some now |>) |>)
  | None => inl (PlainError "Cannot retire unknown or revoked signing key")
  end.

Definition revoke (now : Z) (kid : string) (s : t) : jwt_error + t :=
  match map_get kid (keys s) with
  | Some k => inr (s <| keys ::= map_set kid (k <| status := REVOKED |> <| revokedAt := Some now |>) |>)
  | None => inl (PlainError "Cannot revoke unknown signing key")
  end.

(** [sign] and [verify]. *)
Definition sign (payload : list (string * json)) (options : SignOptions) (now : Z) (d : nat) (s : t) :
    jwt_error + (t * string) :=
  sk ← current now d s;
  token ← signToken payload sk.2 options now;
  inr (sk.1, token).

Definition verify (token : string) (options : VerifyOptions) (now : Z) (s : t) : jwt_error + json :=
  kid ← readKid token;
  key ← from_some (byKid now kid s) (JsonWebTokenError "unknown kid");
  verifyToken token key options now.

(** *** [KeyStoreService] over a persistence adapter

    [saved] is what the adapter last stored. *)
Definition ensureKey (now : Z) (d : nat) (s : t) : jwt_error + t :=
  match keys s with [] => r ← addKey now d s; inr r.1 | _ => inr s end.

Fixpoint restore_all (now : Z) (persisted : list SigningKey) (s : t) : t * (jwt_error + ()) :=
  match persisted with
  | [] => (s, inr tt)
  | k :: l => match addKeyWithMaterial now k s with
              | inr s' => restore_all now l s'
              | inl e => (s, inl e)
              end
  end.

Definition init (now : Z) (d : nat) (saved : list SigningKey) (s : t) :
    t * list SigningKey * (jwt_error + ()) :=
  match restore_all now saved s with
  | (s', inl e) => (s', saved, inl e)
  | (s', inr _) =>
    match keys s' with
    | [] => match addKey now d s' with
            | inr (s2, _) => (s2, all s2, inr tt)
            | inl e => (s', saved, inl e)
            end
    | _ => (s', saved, inr tt)
    end
  end.

Definition rotate (now : Z) (d : nat) (saved : list SigningKey) (s : t) :
    t * list SigningKey * (jwt_error + ()) :=
  let previous := List.find (λ k, bool_decide (status k = ACTIVE)) (all s) in
  match addKey now d s with
  | inl e => (s, saved, inl e)
  | inr (s1, _) =>
    match previous with
    | None => (s1, all s1, inr tt)
    | Some p => match retire now (kid p) s1 with
                | inl e => (s1, saved, inl e)
                | inr s2 => (s2, all s2, inr tt)
                end
    end
  end.

(** *** Well-formed stores: each key is filed under its own [kid] *)
Definition wf (s : t) : Prop :=
  NoDup (map_keys (keys s)) ∧ ∀ k v, In (k, v) (keys s) → kid v = k.

Lemma wf_set k v s : kid v = k → wf s → wf (s <| keys ::= map_set k v |>).
Proof.
  intros Hk [Hd Hi]. split; [by apply NoDup_map_set|]. cbn. intros k' v'.
  revert Hi. clear Hd. induction (keys s) as [|[k0 v0] l IH]; cbn.
  - intros _ [[= <- <-]|[]]. done.
  - intros Hi. destruct (String.eqb_spec k k0) as [->|Hn]; cbn.
    + intros [[= <- <-]|Hin]; [done|]. apply Hi. by right.
    + intros [[= <- <-]|Hin]; [apply Hi; by left|]. apply IH; [|done]. intros a b Hab. apply Hi. by right.
Qed.

Lemma wf_prune now s : wf s → wf (prune now s).
Proof.
  intros [Hd Hi]. split; [by apply NoDup_filter_keys|]. cbn. intros k v [Hin _]%filter_In. by apply Hi.
Qed.

Lemma wf_addKey now d s s' k : wf s → addKey now d s = inr (s', k) → wf s'.
Proof.
  unfold addKey. intros Hw (m & _ & [= <- <-])%bind_ok. by apply wf_prune, wf_set.
Qed.

Lemma wf_retire now k s s' : wf s → retire now k s = inr s' → wf s'.
Proof.
  unfold retire. intros Hw. destruct (map_get k (keys s)) as [v|] eqn:Hg; [|done].
  destruct (bool_decide _); [done|]. intros [= <-]. apply wf_set; [|done].
  by apply (proj2 Hw k v), map_get_In.
Qed.

Lemma wf_revoke now k s s' : wf s → revoke now k s = inr s' → wf s'.
Proof.
  unfold revoke. intros Hw. destruct (map_get k (keys s)) as [v|] eqn:Hg; [|done].
  intros [= <-]. apply wf_set; [|done]. by apply (proj2 Hw k v), map_get_In.
Qed.

Lemma In_all k s : In k (all s) ↔ ∃ i, In (i, k) (keys s).
Proof.
  unfold all. rewrite in_map_iff. split; [intros ([i v] & <- & H); eauto|].
  intros [i H]. by exists (i, k).
Qed.

Lemma map_get_prune now k s v :
  wf s → map_get k (keys s) = Some v →
  map_get k (keys (prune now s)) = if expiresAt v <? now then None else Some v.
Proof.
  intros Hw Hg. destruct (expiresAt v <? now) eqn:He.
  - destruct (map_get k (keys (prune now s))) as [v'|] eqn:Hg'; [|done]. exfalso.
    pose proof (map_get_In _ _ _ Hg') as [Hin Hf]%filter_In. cbn in Hf.
    apply In_map_get in Hin; [|apply Hw]. rewrite Hg in Hin. injection Hin as <-. by rewrite He in Hf.
  - apply In_map_get; [apply (wf_prune now _ Hw)|]. cbn. apply filter_In.
    split; [by apply map_get_In|]. cbn. by rewrite He.
Qed.

(** The key that signs new tokens is active, unexpired and the newest such key;
    the store only changes when there was none. *)
Lemma current_spec now d s s' k :
  current now d s = inr (s', k) →
  status k = ACTIVE ∧ now < expiresAt k ∧
  (∀ k', In k' (all s) → usable now k' = true → createdAt k' <= createdAt k) ∧
  (In k (all s) ∧ s' = s ∨ (∀ k', In k' (all s) → usable now k' = false) ∧ createdAt k = now).
Proof.
  unfold current. destruct (List.find _ _) as [k0|] eqn:Hf.
  - intros [= <- <-]. apply find_sort_by in Hf as (Hin & Hu & Hmax).
    pose proof Hu as Hu'. unfold usable in Hu'. bool_to_prop. split; [done|]. split; [done|].
    split; [|by left]. intros k' Hk' Hu2. specialize (Hmax k' Hk' Hu2). cbn in Hmax. lia.
  - pose proof (find_sort_by_none _ _ _ Hf) as Hno.
    unfold addKey. intros (m & _ & [= <- <-])%bind_ok. cbn. split; [done|].
    split; [unfold DEFAULT_KEY_TTL; lia|]. split; [|by right].
    intros k' Hk' Hu. by rewrite (Hno k' Hk') in Hu.
Qed.

Lemma byKid_ok now i s k :
  wf s → byKid now i s = Some k →
  kid k = i ∧ status k ≠ REVOKED ∧ now < expiresAt k ∧ In k (all s).
Proof.
  unfold byKid. intros Hw. destruct (map_get i (keys s)) as [v|] eqn:Hg; [|done].
  destruct (negb _ && _) eqn:E; [|done]. intros [= <-]. bool_to_prop.
  apply map_get_In in Hg. split; [by apply (proj2 Hw i v)|]. split; [done|]. split; [done|].
  apply In_all. eauto.
Qed.

Lemma current_byKid now d s s' k t :
  wf s → current now d s = inr (s', k) → t < expiresAt k → wf s' ∧ byKid t (kid k) s' = Some k.
Proof.
  intros Hw Hc Ht. assert (wf s' ∧ map_get (kid k) (keys s') = Some k ∧ status k = ACTIVE) as (Hw' & Hg & Hs).
  { unfold current in Hc. destruct (List.find _ _) as [k0|] eqn:Hf.
    - injection Hc as <- <-. apply find_sort_by in Hf as (Hin & Hu & _).
      unfold usable in Hu. bool_to_prop. split; [done|]. split; [|done].
      apply In_all in Hin as [i Hi]. rewrite (proj2 Hw i k0 Hi). apply In_map_get; [apply Hw|done].
    - split; [by eapply wf_addKey|]. unfold addKey in Hc. apply bind_ok in Hc as (m & _ & [= <- <-]).
      split; [|done]. cbn [kid]. rewrite (map_get_prune now _ _ (mkSigningKey (randomUUID d) (configuredAlgorithm s)
        (m_publicKey m) (m_privateKey m) (m_pqPublicKey m) (m_pqPrivateKey m) now ACTIVE (Some now) None None
        (now + DEFAULT_KEY_TTL))).
      + cbn. by rewrite (proj2 (Z.ltb_ge _ _)) by (unfold DEFAULT_KEY_TTL; lia).
      + by apply wf_set.
      + cbn. by rewrite map_get_set, String.eqb_refl. }
  split; [done|]. unfold byKid. rewrite Hg, bool_decide_false by congruence. cbn.
  by rewrite (proj2 (Z.ltb_lt _ _)).
Qed.

(** A revoked key verifies no token any more, at any later time, and is never
    published in the key set. *)
Theorem revoke_spec now i s s' :
  wf s → revoke now i s = inr s' →
  ∀ t, byKid t i s' = None ∧
    (∀ token opts, readKid token = inr i → verify token opts t s' = inl (JsonWebTokenError "unknown kid")) ∧
    ∀ k, In k (all s') → published t k = true → kid k ≠ i.
Proof.
  intros Hw Hr t. pose proof (wf_revoke _ _ _ _ Hw Hr) as Hw'. unfold revoke in Hr.
  destruct (map_get i (keys s)) as [v|] eqn:Hg; [|done].
  assert (s' = s <| keys ::= map_set i (v <| status := REVOKED |> <| revokedAt := Some now |>) |>)
    as -> by congruence.
  assert (∃ v', map_get i (keys (s <| keys ::= map_set i (v <| status := REVOKED |> <| revokedAt := Some now |>) |>)) = Some v'
    ∧ status v' = REVOKED) as (v' & Hv' & Hst).
  { cbn. rewrite map_get_set, String.eqb_refl. eauto. }
  assert (byKid t i (s <| keys ::= map_set i (v <| status := REVOKED |> <| revokedAt := Some now |>) |>) = None) as Hb.
  { unfold byKid. rewrite Hv', Hst. by rewrite bool_decide_true. }
  split; [done|]. split.
  - intros token opts Hk. unfold verify. by rewrite Hk, bind_inr, Hb.
  - intros k (j & Hin)%In_all Hp Hk. pose proof (proj2 Hw' j k Hin) as Hj.
    apply In_map_get in Hin; [|apply Hw']. assert (j = i) as -> by congruence.
    rewrite Hv' in Hin. injection Hin as <-. unfold published in Hp. rewrite Hst in Hp.
    by rewrite andb_false_r in Hp.
Qed.

Lemma In_map_get_kid s k : wf s → In k (all s) ↔ map_get (kid k) (keys s) = Some k.
Proof.
  intros Hw. rewrite In_all. split.
  - intros [i Hin]. rewrite (proj2 Hw i k Hin). apply In_map_get; [apply Hw|done].
  - intros Hg. apply map_get_In in Hg. eauto.
Qed.

Lemma prune_incl now s i v : wf s → map_get i (keys (prune now s)) = Some v → map_get i (keys s) = Some v.
Proof.
  intros Hw Hg. apply (map_get_incl _ _ (keys (prune now s))); [apply Hw| |done].
  intros kv. cbn. by intros [? _]%filter_In.
Qed.

(** The only usable key of a store is the one that signs. *)
Lemma current_unique now s k :
  In k (all s) → usable now k = true → (∀ k', In k' (all s) → usable now k' = true → k' = k) →
  ∀ d, current now d s = inr (s, k).
Proof.
  intros Hin Hu Huniq d. unfold current.
  destruct (List.find (usable now) _) as [k'|] eqn:Hf.
  - apply find_sort_by in Hf as (Hin' & Hu' & _). by rewrite (Huniq k' Hin' Hu').
  - by rewrite (find_sort_by_none _ _ _ Hf k Hin) in Hu.
Qed.

(** rotation hands signing over without invalidating tokens.  The old key
    keeps verifying until it expires but stops signing, the new key is the one
    that signs, and the adapter receives the whole store. *)
Theorem rotate_spec now d saved s p m :
  wf s → map_get (randomUUID d) (keys s) = None →
  List.find (λ k, bool_decide (status k = ACTIVE)) (all s) = Some p → now < expiresAt p →
  (∀ k, In k (all s) → usable now k = true → kid k = kid p) →
  generateSigningKeyPair d (configuredAlgorithm s) = inr m →
  ∃ s' k, rotate now d saved s = (s', all s', inr tt) ∧
    byKid now (kid p) s' = Some (p <| status := VERIFY_ONLY |> <| retiredAt := Some now |>) ∧
    (∀ d', current now d' s' = inr (s', k)) ∧ kid k = randomUUID d ∧
    byKid now (randomUUID d) s' = Some k.
Proof.
  intros Hw Hfresh Hp Hexp Huniq Hgen. unfold rotate. rewrite Hp.
  destruct (find_some _ _ Hp) as [Hpin Hpa]. apply In_map_get_kid in Hpin; [|done].
  assert (randomUUID d ≠ kid p) as Hne by congruence.
  unfold addKey. rewrite Hgen, bind_inr. cbv zeta. set (k := mkSigningKey _ _ _ _ _ _ _ _ _ _ _ _).
  set (s0 := s <| keys ::= map_set (randomUUID d) k |>).
  assert (wf s0) as Hw0 by (by apply wf_set).
  assert (now < expiresAt k) as Hkexp by (unfold k, DEFAULT_KEY_TTL; cbn; lia).
  assert (∀ i, map_get i (keys s0) = if String.eqb i (randomUUID d) then Some k else map_get i (keys s))
    as Hg0 by (intros i; apply map_get_set).
  assert (map_get (kid p) (keys (prune now s0)) = Some p) as Hgp.
  { rewrite (map_get_prune now _ _ p Hw0).
    - by rewrite (proj2 (Z.ltb_ge _ _)) by lia.
    - rewrite Hg0. by rewrite (proj2 (String.eqb_neq _ _)) by congruence. }
  assert (map_get (randomUUID d) (keys (prune now s0)) = Some k) as Hgk.
  { rewrite (map_get_prune now _ _ k Hw0).
    - by rewrite (proj2 (Z.ltb_ge _ _)) by lia.
    - by rewrite Hg0, String.eqb_refl. }
  apply bool_decide_eq_true in Hpa. unfold retire. rewrite Hgp, bool_decide_false by congruence.
  set (p' := p <| status := VERIFY_ONLY |> <| retiredAt := Some now |>).
  set (s2 := (prune now s0) <| keys ::= map_set (kid p) p' |>).
  assert (wf s2) as Hw2 by (apply wf_set; [done|by apply wf_prune]).
  assert (∀ i, map_get i (keys s2) = if String.eqb i (kid p) then Some p' else map_get i (keys (prune now s0)))
    as Hg2 by (intros i; apply map_get_set).
  exists s2, k. split; [done|]. split; [|split; [|split; [done|]]].
  - unfold byKid. rewrite Hg2, String.eqb_refl, bool_decide_false by done. cbn.
    by rewrite (proj2 (Z.ltb_lt _ _)).
  - apply current_unique.
    + apply In_map_get_kid; [done|]. rewrite Hg2. cbn [kid k].
      by rewrite (proj2 (String.eqb_neq _ _)) by congruence.
    + unfold usable. rewrite bool_decide_true by done. by apply Z.ltb_lt.
    + intros k' Hin Hu. apply In_map_get_kid in Hin; [|done]. rewrite Hg2 in Hin.
      destruct (String.eqb_spec (kid k') (kid p)) as [Hk|Hk].
      * injection Hin as <-. by unfold usable in Hu.
      * apply (prune_incl now s0 _ _ Hw0) in Hin. rewrite Hg0 in Hin.
        destruct (String.eqb_spec (kid k') (randomUUID d)); [congruence|].
        destruct Hk. apply Huniq; [|done]. by apply In_map_get_kid.
  - unfold byKid. rewrite Hg2, (proj2 (String.eqb_neq _ _)), Hgk by done.
    rewrite bool_decide_false by done. cbn. by rewrite (proj2 (Z.ltb_lt _ _)).
Qed.

(** When the active key has already expired, the new key's own pruning removes
    it before [retire] looks it up: rotation fails after changing the store and
    nothing is saved. *)
Lemma rotate_expired_fails now d saved s p m :
  wf s → map_get (randomUUID d) (keys s) = None →
  List.find (λ k, bool_decide (status k = ACTIVE)) (all s) = Some p → expiresAt p < now →
  generateSigningKeyPair d (configuredAlgorithm s) = inr m →
  ∃ s', rotate now d saved s =
    (s', saved, inl (PlainError "Cannot retire unknown or revoked signing key")).
Proof.
  intros Hw Hfresh Hp Hexp Hgen. unfold rotate. rewrite Hp.
  destruct (find_some _ _ Hp) as [Hpin _]. apply In_map_get_kid in Hpin; [|done].
  unfold addKey. rewrite Hgen, bind_inr. cbv zeta. set (k := mkSigningKey _ _ _ _ _ _ _ _ _ _ _ _).
  set (s0 := s <| keys ::= map_set (randomUUID d) k |>).
  assert (wf s0) as Hw0 by (by apply wf_set).
  unfold retire. rewrite (map_get_prune now _ _ p Hw0).
  - rewrite (proj2 (Z.ltb_lt _ _)) by lia. eauto.
  - subst s0. cbn. rewrite map_get_set. by rewrite (proj2 (String.eqb_neq _ _)) by congruence.
Qed.
End keystore.
End KeyStore.
