(* ===== verification/Cache.v ===== *)
(** * Cache

    [packages/core/src/services/redisCache.ts]: the [RedisCache] interface as a
    type class, the bounded in-process [MemoryCache], and [RedisCacheImpl],
    which uses a Redis client and falls back to a [MemoryCache].  Redis itself
    is the parameter [RedisLike]. *)

From S2P Require Export Effects.
From S2P Require Export JsMap.

(** ** The interface

    What the services may rely on.  A cache can forget any entry at any time
    ("Redis is an optimiser, never a gate"), but what it answers was stored and
    has not expired, and a deleted key is gone; times to live and counters have to
    be such as Redis accepts.  [cview c k] is the entry held for [k] with its
    expiry. *)
Class RedisCache (C : Type) := {
  cache_get : string → Z → C → C * option string;
  cache_set : string → string → option Z → Z → C → C;
  cache_del : string → C → C;
  cache_incrementAndExpire : string → Z → Z → C → C * option Z;
  cache_ready : Z → C → bool;
  cview : C → string → option (string * Z);
}.

(** [ttlSeconds ? Date.now() + ttlSeconds * 1000 : Number.MAX_SAFE_INTEGER]. *)
Definition expiry_of (ttlSeconds : option Z) (now : Z) : Z :=
  match ttlSeconds with
  | Some t => if t =? 0 then MAX_SAFE_INTEGER else now + t * 1000
  | None => MAX_SAFE_INTEGER
  end.

Section interface.
Context `{RedisCache C}.

Definition forgets (c c' : C) : Prop := ∀ k x, cview c' k = Some x → cview c k = Some x.

(** A time to live both stores accept: Redis refuses [EX] and [EXPIRE] of no or of
    fewer seconds, and seconds past the range of its clock. *)
Definition MAX_TTL_SECONDS : Z := 2147483647.
Definition ttl_ok (ttlSeconds : option Z) : Prop :=
  match ttlSeconds with Some t => 0 <= t <= MAX_TTL_SECONDS | None => True end.
(** A value [INCR] accepts, if it is still live: the text of a natural number that
    can be incremented. *)
Definition countable (x : option (string * Z)) (now : Z) : Prop :=
  ∀ v e, x = Some (v, e) → now <= e → ∃ m, v = js_String m ∧ 0 <= m < MAX_SAFE_INTEGER.

(** The live value of a counter key. *)
Definition live_count (k : string) (now : Z) (c : C) : Z :=
  match cview c k with
  | Some (v, e) => if now <=? e then nullish (js_Number v) 0 else 0
  | None => 0
  end.
End interface.

Class RedisCacheLaws (C : Type) `{RedisCache C} := {
  get_law : ∀ k now (c : C),
    forgets c (cache_get k now c).1 ∧
    ∀ v, (cache_get k now c).2 = Some v → ∃ e, cview c k = Some (v, e) ∧ now <= e;
  set_law : ∀ k v ttl now (c : C) x, ttl_ok ttl →
    cview (cache_set k v ttl now c) k = Some x → x.1 = v ∧ x.2 <= expiry_of ttl now;
  set_other_law : ∀ k v ttl now (c : C) k' x,
    k' ≠ k → cview (cache_set k v ttl now c) k' = Some x → cview c k' = Some x;
  del_law : ∀ k (c : C), cview (cache_del k c) k = None ∧ forgets c (cache_del k c);
  incr_law : ∀ k ttl now (c : C), countable (cview c k) now → 0 < ttl <= MAX_TTL_SECONDS →
    (∀ k' x, k' ≠ k ∨ (cache_incrementAndExpire k ttl now c).2 = None →
       cview (cache_incrementAndExpire k ttl now c).1 k' = Some x → cview c k' = Some x) ∧
    ∀ n, (cache_incrementAndExpire k ttl now c).2 = Some n →
      n = live_count k now c + 1 ∧
      ∃ e, cview (cache_incrementAndExpire k ttl now c).1 k = Some (js_String n, e);
}.

(** ** [MemoryCache] *)
Module MemoryCache.
Record entry := mkEntry { value : string; expiresAt : Z }.
Record t := mkMemoryCache { maxEntries : nat; store : list (string * entry) }.
#[export] Instance settable_t : Settable t := {| eta_expand := λ m, mkMemoryCache (maxEntries m) (store m) |}.

Definition empty (maxEntries : nat) : t := mkMemoryCache maxEntries [].
Definition DEFAULT_MAX_ENTRIES : nat := N.to_nat 10000.

Definition size (m : t) : nat := length (store m).

Definition get (key : string) (now : Z) (m : t) : t * option string :=
  match map_get key (store m) with
  | None => (m, None)
  | Some e =>
    if expiresAt e <? now then (m <| store ::= map_delete key |>, None)
    else (m, Some (value e))
  end.

(** The opportunistic sweep and the FIFO eviction of [set]. *)
Definition sweep (before : Z) (s : list (string * entry)) : list (string * entry) :=
  List.filter (λ kv, negb (expiresAt kv.2 <? before)) s.
Definition evict (maxEntries : nat) (now : Z) (s : list (string * entry)) : list (string * entry) :=
  if (maxEntries <=? length s)%nat then
    let s' := sweep now s in
    if (maxEntries <=? length s')%nat then drop (length s' - maxEntries + 1) s' else s'
  else s.

Definition set (key v : string) (ttlSeconds : option Z) (now : Z) (m : t) : t :=
  m <| store ::= λ s,
    map_set key (mkEntry v (expiry_of ttlSeconds now))
      (evict (maxEntries m) now (map_delete key s)) |>.

Definition del (key : string) (m : t) : t := m <| store ::= map_delete key |>.

Definition incrementAndExpire (key : string) (ttlSeconds now : Z) (m : t) : t * option Z :=
  let current :=
    match map_get key (store m) with
    | Some e => if now <=? expiresAt e then nullish (js_Number (value e)) 0 else 0
    | None => 0
    end in
  let next := current + 1 in
  (m <| store ::= map_set key (mkEntry (js_String next) (now + ttlSeconds * 1000)) |>, Some next).

Definition ready (m : t) : bool := true.

(** Distinct keys, as in a JavaScript [Map]. *)
Definition wf (m : t) : Prop := NoDup (map_keys (store m)).

Lemma evict_incl n now s kv : In kv (evict n now s) → In kv s.
Proof.
  unfold evict, sweep. repeat case_scrutinee; [|by intros [? _]%filter_In|done].
  intros H. enough (In kv (List.filter (λ kv, negb (expiresAt kv.2 <? now)) s)) as [? _]%filter_In by done.
  rewrite <- (take_drop (length (List.filter (λ kv, negb (expiresAt kv.2 <? now)) s) - n + 1) _).
  apply in_app_iff. by right.
Qed.

Lemma NoDup_drop_keys n (s : list (string * entry)) :
  NoDup (map_keys s) → NoDup (map_keys (drop n s)).
Proof.
  unfold map_keys. rewrite <- (take_drop n s) at 1. rewrite map_app. by intros (_ & _ & H)%NoDup_app.
Qed.

Lemma evict_NoDup n now s : NoDup (map_keys s) → NoDup (map_keys (evict n now s)).
Proof.
  intros Hs. unfold evict, sweep. repeat case_scrutinee; [|by apply NoDup_filter_keys|done].
  by apply NoDup_drop_keys, NoDup_filter_keys.
Qed.

Lemma evict_length n now s : (0 < n)%nat → (length (evict n now s) < n)%nat.
Proof.
  intros Hn. unfold evict. repeat case_scrutinee;
    repeat match goal with H : (_ <=? _)%nat = true |- _ => apply Nat.leb_le in H
                         | H : (_ <=? _)%nat = false |- _ => apply Nat.leb_gt in H end; [|done..].
  rewrite length_drop. lia.
Qed.

Lemma wf_get key now m : wf m → wf (get key now m).1.
Proof. intros Hm. unfold get. repeat case_scrutinee; [by apply NoDup_filter_keys|done..]. Qed.
Lemma wf_cache_set key v ttl now m : wf m → wf (set key v ttl now m).
Proof. intros Hm. by apply NoDup_map_set, evict_NoDup, NoDup_filter_keys. Qed.
Lemma wf_del key m : wf m → wf (del key m).
Proof. intros Hm. by apply NoDup_filter_keys. Qed.
Lemma wf_incr key ttl now m : wf m → wf (incrementAndExpire key ttl now m).1.
Proof. intros Hm. by apply NoDup_map_set. Qed.

Definition view (m : t) (k : string) : option (string * Z) :=
  (λ e, (value e, expiresAt e)) <$> map_get k (store m).

(** [set] keeps the store within its capacity. *)
Lemma set_size key v ttl now m : (0 < maxEntries m)%nat → (size (set key v ttl now m) ≤ maxEntries m)%nat.
Proof.
  intros Hn. unfold size. cbn. rewrite map_set_length.
  pose proof (evict_length (maxEntries m) now (map_delete key (store m)) Hn). case_scrutinee; lia.
Qed.

Lemma view_set key v ttl now m k x :
  wf m → view (set key v ttl now m) k = Some x →
  (k = key ∧ x = (v, expiry_of ttl now)) ∨ (k ≠ key ∧ view m k = Some x).
Proof.
  intros Hm. unfold view. cbn. rewrite map_get_set. destruct (String.eqb_spec k key) as [->|Hk].
  - intros [= <-]. by left.
  - intros H. right. split; [done|]. destruct (map_get k (evict _ _ _)) as [e|] eqn:He; [|done].
    erewrite (map_get_incl k (store m)); [exact H|done| |exact He].
    intros kv Hkv%evict_incl. by apply filter_In in Hkv as [? _].
Qed.

Lemma view_del key m k : view (del key m) k = if String.eqb key k then None else view m k.
Proof. unfold view. cbn. rewrite map_get_delete. by destruct (String.eqb key k). Qed.

(** The cache held by a runtime: a store with distinct keys. *)
Definition mem : Type := { m : t | wf m }.
Definition empty_mem (maxEntries : nat) : mem := exist _ (empty maxEntries) (NoDup_nil_2 : wf (empty maxEntries)).
#[global] Instance mem_cache : RedisCache mem := {
  cache_get k now m :=
    (exist _ (get k now (`m)).1 (wf_get k now _ (proj2_sig m)), (get k now (`m)).2);
  cache_set k v ttl now m := exist _ (set k v ttl now (`m)) (wf_cache_set k v ttl now _ (proj2_sig m));
  cache_del k m := exist _ (del k (`m)) (wf_del k _ (proj2_sig m));
  cache_incrementAndExpire k ttl now m :=
    (exist _ (incrementAndExpire k ttl now (`m)).1 (wf_incr k ttl now _ (proj2_sig m)),
     (incrementAndExpire k ttl now (`m)).2);
  cache_ready _ m := ready (`m);
  cview m := view (`m);
}.

#[global] Instance mem_cache_laws : RedisCacheLaws mem.
Proof.
  split.
  - intros k now [m Hm]. cbn. unfold get, forgets. cbn. split.
    + intros k' x. repeat case_scrutinee; cbn; [|done..]. unfold view. cbn. rewrite map_get_delete.
      by destruct (String.eqb k k').
    + intros v. repeat case_scrutinee; cbn; [done| |done]. intros [= <-]. bool_to_prop.
      unfold view. rewrite E. cbn. eauto.
  - intros k v ttl now [m Hm] x _ [[_ ->]|[? _]]%view_set; [cbn; split; [done|lia]|done|done].
  - by intros k v ttl now [m Hm] k' x Hk [[? _]|[_ ?]]%view_set.
  - intros k [m Hm]. split; [|intros k' x];
      cbn [cview mem_cache cache_del proj1_sig]; rewrite view_del, ?String.eqb_refl; [done|].
    by destruct (String.eqb k k').
  - intros k ttl now [m Hm] _ _. cbn. unfold view. cbn. split.
    + intros k' x [Hk|Hk]; [|done]. rewrite map_get_set. destruct (String.eqb_spec k' k); [done|]. done.
    + intros n [= <-]. rewrite map_get_set, String.eqb_refl. cbn. split; [|eauto].
      unfold live_count. cbn. unfold view. by destruct (map_get k (store m)).
Qed.
(** The expiry of a counter. *)
Lemma incr_expiry k ttl now (m : mem) v e :
  cview (cache_incrementAndExpire k ttl now m).1 k = Some (v, e) → e = now + ttl * 1000.
Proof. destruct m as [m Hm]. cbn. unfold view. cbn. rewrite map_get_set, String.eqb_refl. by intros [= _ <-]. Qed.
End MemoryCache.

(** ** The Redis client

    The structural subset of ioredis the code uses; any command may throw. *)
Class RedisLike (R : Type) := {
  rl_ready : R → bool;
  rl_get : string → Z → R → R * (exn + option string);
  rl_set : string → string → option Z → Z → R → R * (exn + ());
  rl_del : string → R → R * (exn + ());
  rl_has_counters : R → bool;
  rl_incr : string → Z → R → R * (exn + Z);
  rl_expire : string → Z → Z → R → R * (exn + ());
  (** The stored value and the last instant at which it can be read. *)
  rview : R → string → option (string * Z);
}.

(** Documented behaviour of a Redis that answers: [SET] with an expiry in range,
    [INCR] where nothing, or the text of an integer in range, is stored, and
    [EXPIRE] of a positive time succeed.  Other arguments are errors, about which
    nothing is said but that a refused [SET] touches no other key. *)
Class RedisLikeReliable (R : Type) `{RedisLike R} := {
  rl_counters_ok : ∀ r : R, rl_has_counters r = true;
  rl_get_ok : ∀ k now (r : R), rl_ready r = true →
    ∃ o, (rl_get k now r).2 = inr o ∧ rl_ready (rl_get k now r).1 = true ∧
      (∀ k' x, rview (rl_get k now r).1 k' = Some x → rview r k' = Some x) ∧
      ∀ v, o = Some v → ∃ e, rview r k = Some (v, e) ∧ now <= e;
  rl_set_other : ∀ k v ttl now (r : R), rl_ready r = true →
    rl_ready (rl_set k v ttl now r).1 = true ∧
    ∀ k' x, k' ≠ k → rview (rl_set k v ttl now r).1 k' = Some x → rview r k' = Some x;
  rl_set_ok : ∀ k v ttl now (r : R), rl_ready r = true →
    (∀ s, ttl = Some s → 0 < s <= MAX_TTL_SECONDS) →
    (rl_set k v ttl now r).2 = inr tt ∧
    ∀ x, rview (rl_set k v ttl now r).1 k = Some x → x.1 = v ∧ x.2 <= expiry_of ttl now;
  rl_del_ok : ∀ k (r : R), rl_ready r = true →
    (rl_del k r).2 = inr tt ∧ rl_ready (rl_del k r).1 = true ∧ rview (rl_del k r).1 k = None ∧
    ∀ k' x, rview (rl_del k r).1 k' = Some x → rview r k' = Some x;
  rl_incr_ok : ∀ k now (r : R), rl_ready r = true → countable (rview r k) now →
    let n := match rview r k with
             | Some (v, e) => if now <=? e then nullish (js_Number v) 0 else 0
             | None => 0
             end + 1 in
    (rl_incr k now r).2 = inr n ∧ rl_ready (rl_incr k now r).1 = true ∧
    (∃ e, now <= e ∧ rview (rl_incr k now r).1 k = Some (js_String n, e)) ∧
    ∀ k' x, k' ≠ k → rview (rl_incr k now r).1 k' = Some x → rview r k' = Some x;
  rl_expire_ok : ∀ k s now (r : R), rl_ready r = true → 0 < s <= MAX_TTL_SECONDS →
    (rl_expire k s now r).2 = inr tt ∧ rl_ready (rl_expire k s now r).1 = true ∧
    (∀ v e, rview r k = Some (v, e) → now <= e → ∃ e', rview (rl_expire k s now r).1 k = Some (v, e')) ∧
    ∀ k' x, k' ≠ k → rview (rl_expire k s now r).1 k' = Some x → rview r k' = Some x;
}.

(** ** [RedisCacheImpl] *)
Module RedisCacheImpl.
Section impl.
Context {R : Type} `{HR : RedisLike R}.

Record t := mkRedisCacheImpl { client : option R; namespace : string; memory : MemoryCache.mem }.
#[export] Instance settable_t : Settable t := {| eta_expand := λ c, mkRedisCacheImpl (client c) (namespace c) (memory c) |}.

Definition setClient (cl : option R) (c : t) : t := c <| client := cl |>.

Definition key (c : t) (raw : string) : string := namespace c +:+ ":" +:+ raw.

(** [!this.client || this.client.status !== 'ready'] negated. *)
Definition ready_client (c : t) : option R :=
  match client c with Some r => if rl_ready r then Some r else None | None => None end.

Definition memory_get (k : string) (now : Z) (c : t) : t * option string :=
  let '(m, r) := cache_get k now (memory c) in (c <| memory := m |>, r).

Definition get (k : string) (now : Z) (c : t) : t * option string :=
  match ready_client c with
  | None => memory_get k now c
  | Some r =>
    match rl_get (key c k) now r with
    | (r', inr raw) => (c <| client := Some r' |>, raw)
    | (r', inl _) => memory_get k now (c <| client := Some r' |>)
    end
  end.

Definition memory_set (k v : string) (ttlSeconds : option Z) (now : Z) (c : t) : t :=
  c <| memory ::= cache_set k v ttlSeconds now |>.

Definition set (k v : string) (ttlSeconds : option Z) (now : Z) (c : t) : t :=
  match ready_client c with
  | None => memory_set k v ttlSeconds now c
  | Some r =>
    let ex := match ttlSeconds with Some s => if s =? 0 then None else Some s | None => None end in
    match rl_set (key c k) v ex now r with
    | (r', inr _) => c <| client := Some r' |>
    | (r', inl _) => memory_set k v ttlSeconds now (c <| client := Some r' |>)
    end
  end.

Definition del (k : string) (c : t) : t :=
  match ready_client c with
  | None => c <| memory ::= cache_del k |>
  | Some r =>
    match rl_del (key c k) r with
    | (r', inr _) => c <| client := Some r' |>
    | (r', inl _) => c <| client := Some r' |> <| memory ::= cache_del k |>
    end
  end.

Definition memory_incr (k : string) (ttlSeconds now : Z) (c : t) : t * option Z :=
  let '(m, n) := cache_incrementAndExpire k ttlSeconds now (memory c) in (c <| memory := m |>, n).

Definition incrementAndExpire (k : string) (ttlSeconds now : Z) (c : t) : t * option Z :=
  match ready_client c with
  | Some r =>
    if rl_has_counters r then
      match rl_incr (key c k) now r with
      | (r1, inr n) =>
        if n =? 1 then
          match rl_expire (key c k) ttlSeconds now r1 with
          | (r2, inr _) => (c <| client := Some r2 |>, Some n)
          | (r2, inl _) => memory_incr k ttlSeconds now (c <| client := Some r2 |>)
          end
        else (c <| client := Some r1 |>, Some n)
      | (r1, inl _) => memory_incr k ttlSeconds now (c <| client := Some r1 |>)
      end
    else memory_incr k ttlSeconds now c
  | None => memory_incr k ttlSeconds now c
  end.

(** [ready()] probes with a real command. *)
Definition ready (now : Z) (c : t) : bool :=
  match ready_client c with
  | None => false
  | Some r => match (rl_get (key c "__ready_probe__") now r).2 with inr _ => true | inl _ => false end
  end.

Definition view (c : t) (k : string) : option (string * Z) :=
  match ready_client c with
  | Some r => rview r (key c k)
  | None => cview (memory c) k
  end.

#[export] Instance impl_cache : RedisCache t := {
  cache_get := get;
  cache_set := set;
  cache_del := del;
  cache_incrementAndExpire := incrementAndExpire;
  cache_ready := ready;
  cview := view;
}.

Lemma key_inj c k k' : key c k = key c k' → k = k'.
Proof. unfold key. intros H%(inj (String.append _)). by injection H. Qed.

Lemma view_with_client c r k :
  rl_ready r = true → view (c <| client := Some r |>) k = rview r (key c k).
Proof. intros Hr. unfold view, ready_client. cbn. by rewrite Hr. Qed.

Lemma ready_client_some c r :
  ready_client c = Some r → rl_ready r = true ∧ ∀ k, view c k = rview r (key c k).
Proof.
  intros Hc. split; [|intros k; unfold view; by rewrite Hc]. unfold ready_client in Hc.
  destruct (client c) as [r0|]; [|done]. destruct (rl_ready r0) eqn:E; [|done]. congruence.
Qed.

Lemma view_memory c m k :
  ready_client c = None → view (c <| memory := m |>) k = cview m k.
Proof. intros Hc. unfold view, ready_client in *. cbn in *. by rewrite Hc. Qed.

Lemma view_no_client c k : ready_client c = None → view c k = cview (memory c) k.
Proof. intros Hc. unfold view. by rewrite Hc. Qed.

Lemma get_refines `{!RedisLikeReliable R} k now (c : t) :
  forgets c (cache_get k now c).1 ∧
  ∀ v, (cache_get k now c).2 = Some v → ∃ e, cview c k = Some (v, e) ∧ now <= e.
Proof.
  cbn [cache_get cview impl_cache]. unfold get, forgets. cbn [cview impl_cache].
  destruct (ready_client c) as [r|] eqn:Hc.
  - destruct (ready_client_some c r Hc) as [Hr Hv].
    destruct (rl_get_ok (key c k) now r Hr) as (o & Ho & Hr' & Hf & Hg).
    destruct (rl_get (key c k) now r) as [r' o'] eqn:E. cbn in *. subst o'. cbn. split.
    + intros k' x. rewrite view_with_client, Hv by done. apply Hf.
    + intros v ->. rewrite Hv. by apply Hg.
  - unfold memory_get. pose proof (get_law k now (memory c)) as [Hf Hg].
    destruct (cache_get k now (memory c)) as [m o]. cbn [fst snd] in *. split.
    + intros k' x. rewrite view_memory, view_no_client by done. exact (Hf k' x).
    + intros v ->. rewrite view_no_client by done. exact (Hg v eq_refl).
Qed.

(** The expiry [set] gives to Redis. *)
Lemma given_expiry (ttl : option Z) now :
  let ex := match ttl with Some s => if s =? 0 then None else Some s | None => None end in
  expiry_of ex now = expiry_of ttl now ∧ (ttl_ok ttl → ∀ s, ex = Some s → 0 < s <= MAX_TTL_SECONDS).
Proof.
  destruct ttl as [t|]; cbn; [|done]. destruct (t =? 0) eqn:Et; cbn; rewrite ?Et; (split; [done|]); [done|].
  intros Ht s [= <-]. lia.
Qed.

Lemma set_refines `{!RedisLikeReliable R} k v ttl now (c : t) x : ttl_ok ttl →
  cview (cache_set k v ttl now c) k = Some x → x.1 = v ∧ x.2 <= expiry_of ttl now.
Proof.
  intros Ht. cbn [cache_set cview impl_cache]. unfold set. destruct (ready_client c) as [r|] eqn:Hc.
  - destruct (ready_client_some c r Hc) as [Hr Hv]. destruct (given_expiry ttl now) as [Hex Hpos].
    set (ex := match ttl with Some s => _ | None => _ end) in *.
    destruct (rl_set_ok (key c k) v ex now r Hr (Hpos Ht)) as (Ho & Hs).
    destruct (rl_set_other (key c k) v ex now r Hr) as (Hr' & _).
    destruct (rl_set (key c k) v ex now r) as [r' o']. cbn in *. subst o'. cbn.
    rewrite view_with_client by done. rewrite Hex in Hs. apply Hs.
  - unfold memory_set. change (set_field memory _ c) with (c <| memory := cache_set k v ttl now (memory c) |>).
    rewrite view_memory by done. by apply set_law.
Qed.

Lemma set_other_refines `{!RedisLikeReliable R} k v ttl now (c : t) k' x :
  k' ≠ k → cview (cache_set k v ttl now c) k' = Some x → cview c k' = Some x.
Proof.
  intros Hk. cbn [cache_set cview impl_cache]. unfold set. destruct (ready_client c) as [r|] eqn:Hc.
  - destruct (ready_client_some c r Hc) as [Hr Hv]. set (ex := match ttl with Some s => _ | None => _ end).
    destruct (rl_set_other (key c k) v ex now r Hr) as (Hr' & Hs).
    assert (key c k' ≠ key c k) as Hne by (by intros ?%key_inj).
    destruct (rl_set (key c k) v ex now r) as [r' [e|[]]]; cbn [fst] in *.
    + rewrite Hv. unfold view, ready_client, memory_set. cbn. rewrite Hr'. by apply Hs.
    + rewrite view_with_client, Hv by done. by apply Hs.
  - unfold memory_set. change (set_field memory _ c) with (c <| memory := cache_set k v ttl now (memory c) |>).
    rewrite view_memory, view_no_client by done. by apply set_other_law.
Qed.

Lemma del_refines `{!RedisLikeReliable R} k (c : t) :
  cview (cache_del k c) k = None ∧ forgets c (cache_del k c).
Proof.
  unfold forgets. cbn [cache_del cview impl_cache]. unfold del. destruct (ready_client c) as [r|] eqn:Hc.
  - destruct (ready_client_some c r Hc) as [Hr Hv].
    destruct (rl_del_ok (key c k) r Hr) as (Ho & Hr' & Hd & Hf).
    destruct (rl_del (key c k) r) as [r' o']. cbn in *. subst o'. cbn. split.
    + by rewrite view_with_client.
    + intros k' x. rewrite view_with_client, Hv by done. apply Hf.
  - change (set_field memory _ c) with (c <| memory := cache_del k (memory c) |>).
    destruct (del_law k (memory c)) as [Hd Hf]. split; [by rewrite view_memory|].
    intros k' x. rewrite view_memory, view_no_client by done. exact (Hf k' x).
Qed.

Lemma incr_refines `{!RedisLikeReliable R} k ttl now (c : t) :
  countable (cview c k) now → 0 < ttl <= MAX_TTL_SECONDS →
  (∀ k' x, k' ≠ k ∨ (cache_incrementAndExpire k ttl now c).2 = None →
     cview (cache_incrementAndExpire k ttl now c).1 k' = Some x → cview c k' = Some x) ∧
  ∀ n, (cache_incrementAndExpire k ttl now c).2 = Some n →
    n = live_count k now c + 1 ∧
    ∃ e, cview (cache_incrementAndExpire k ttl now c).1 k = Some (js_String n, e).
Proof.
  unfold live_count. cbn [cache_incrementAndExpire cview impl_cache]. intros Hcount Httl. unfold incrementAndExpire. destruct (ready_client c) as [r|] eqn:Hc.
  - destruct (ready_client_some c r Hc) as [Hr Hv]. rewrite rl_counters_ok. rewrite Hv in *.
    destruct (rl_incr_ok (key c k) now r Hr Hcount) as (Hn & Hr1 & Hk1 & Hf1).
    destruct (rl_incr (key c k) now r) as [r1 n1]. cbn [fst snd] in *. subst n1.
    set (n := _ + 1). fold n in Hk1. destruct (n =? 1) eqn:En; cbn [fst snd].
    + destruct (rl_expire_ok (key c k) ttl now r1 Hr1 Httl) as (Ho & Hr2 & Hk2 & Hf2).
      destruct (rl_expire (key c k) ttl now r1) as [r2 o2]. cbn [fst snd] in *. subst o2. cbn [fst snd].
      split.
      * intros k' x [Hne|?]; [|done]. rewrite view_with_client, Hv by done.
        intros Hx. assert (key c k' ≠ key c k) by (by intros ?%key_inj). by apply Hf1, Hf2.
      * intros ? [= <-]. split; [done|]. rewrite view_with_client by done.
        destruct Hk1 as (e & Hlive & He). by apply (Hk2 _ e).
    + split.
      * intros k' x [Hne|?]; [|done]. rewrite view_with_client, Hv by done. apply Hf1. by intros ?%key_inj.
      * intros ? [= <-]. split; [done|]. rewrite view_with_client by done. destruct Hk1 as (e & _ & He). by exists e.
  - rewrite (view_no_client c k Hc) in *. unfold memory_incr.
    pose proof (incr_law k ttl now (memory c) Hcount Httl) as [Hf Hg]. unfold live_count in Hg.
    destruct (cache_incrementAndExpire k ttl now (memory c)) as [m o]. cbn [fst snd] in *. split.
    + intros k' x Hk. rewrite view_memory, view_no_client by done. by apply Hf.
    + intros n ->. rewrite view_memory by done. by apply Hg.
Qed.

(** Over a Redis that answers, the wrapper implements the cache interface. *)
#[export] Instance impl_cache_laws `{!RedisLikeReliable R} : RedisCacheLaws t.
Proof.
  split; [apply get_refines|intros *; apply set_refines|intros *; apply set_other_refines|apply del_refines|apply incr_refines].
Qed.
End impl.
Arguments t : clear implicits.
End RedisCacheImpl.

(** ** The abstract cache

    What a client may conclude from the answers it got: a promise holds, per
    key, the last value written and, when the write said so, the instant it ends. *)
Section specification.
Inductive cache_call :=
| CGet (k : string)
| CSet (k v : string) (ttl : option Z)
| CDel (k : string)
| CIncr (k : string) (ttl : Z).
Inductive cache_answer := AValue (v : option string) | ACount (n : option Z) | ADone.

Definition promise : Type := string → option (string * option Z).
Definition promised (k : string) (x : option (string * option Z)) (s : promise) : promise :=
  λ k', if String.eqb k' k then x else s k'.

(** The answers the specification allows, and what is promised afterwards. *)
Definition spec_allows (s : promise) (now : Z) (call : cache_call) (a : cache_answer) : Prop :=
  match call, a with
  | CGet k, AValue (Some v) => ∃ d, s k = Some (v, d) ∧ ∀ t, d = Some t → now <= t
  | CGet _, AValue None => True
  | CSet _ _ _, ADone | CDel _, ADone => True
  | CIncr k _, ACount (Some n) => n = 1 ∨ ∃ v d, s k = Some (v, d) ∧ n = nullish (js_Number v) 0 + 1
  | CIncr _ _, ACount None => True
  | _, _ => False
  end.
Definition spec_next (s : promise) (now : Z) (call : cache_call) (a : cache_answer) : promise :=
  match call, a with
  | CSet k v ttl, _ => promised k (Some (v, Some (expiry_of ttl now))) s
  | CDel k, _ => promised k None s
  | CIncr k _, ACount (Some n) => promised k (Some (js_String n, None)) s
  | _, _ => s
  end.
Fixpoint spec_run (s : promise) (calls : list (Z * cache_call)) (answers : list cache_answer) : Prop :=
  match calls, answers with
  | [], [] => True
  | (now, call) :: calls', a :: answers' =>
    spec_allows s now call a ∧ spec_run (spec_next s now call a) calls' answers'
  | _, _ => False
  end.

Context {C : Type} `{RedisCache C}.

Definition perform (now : Z) (call : cache_call) (c : C) : C * cache_answer :=
  match call with
  | CGet k => let '(c', r) := cache_get k now c in (c', AValue r)
  | CSet k v ttl => (cache_set k v ttl now c, ADone)
  | CDel k => (cache_del k c, ADone)
  | CIncr k ttl => let '(c', r) := cache_incrementAndExpire k ttl now c in (c', ACount r)
  end.
Fixpoint perform_all (calls : list (Z * cache_call)) (c : C) : C * list cache_answer :=
  match calls with
  | [] => (c, [])
  | (now, call) :: calls' =>
    let '(c1, a) := perform now call c in
    let '(c2, l) := perform_all calls' c1 in (c2, a :: l)
  end.

(** The cache holds nothing that is not promised. *)
Definition keeps_promise (c : C) (s : promise) : Prop :=
  ∀ k v e, cview c k = Some (v, e) → ∃ d, s k = Some (v, d) ∧ ∀ t, d = Some t → e <= t.

Lemma promised_same k x s : promised k x s k = x.
Proof. unfold promised. by rewrite String.eqb_refl. Qed.
Lemma promised_other k k' x s : k' ≠ k → promised k x s k' = s k'.
Proof. intros Hk. unfold promised. by rewrite (proj2 (String.eqb_neq _ _) Hk). Qed.

Lemma forgets_keeps c c' s : forgets c c' → keeps_promise c s → keeps_promise c' s.
Proof. intros Hf Hk k v e Hv. apply Hk, Hf, Hv. Qed.

(** How the services use their keys: the keys of counters are only counted (and
    read, and deleted), the others only written, with times to live in range. *)
Context (counter : string → bool).
Definition disciplined (call : cache_call) : Prop :=
  match call with
  | CGet _ | CDel _ => True
  | CSet k _ ttl => counter k = false ∧ ttl_ok ttl
  | CIncr k ttl => counter k = true ∧ 0 < ttl <= MAX_TTL_SECONDS
  end.

(** What is promised of a counter is a count of at most [n]. *)
Definition counts_to (n : Z) (s : promise) : Prop :=
  ∀ k v d, counter k = true → s k = Some (v, d) → ∃ m, v = js_String m ∧ 0 <= m <= n.

Lemma counts_promised n k x s :
  0 <= n → counts_to n s →
  (∀ v d, counter k = true → x = Some (v, d) → ∃ m, v = js_String m ∧ 0 <= m <= n + 1) →
  counts_to (n + 1) (promised k x s).
Proof.
  intros Hn Hs Hx k' v d Hk'. destruct (decide (k' = k)) as [->|Hne]; [rewrite promised_same; exact (Hx v d Hk')|].
  rewrite promised_other by done. intros H'. destruct (Hs k' v d Hk' H') as (m & -> & Hm). exists m. split; [done|lia].
Qed.
Lemma counts_more n s : counts_to n s → counts_to (n + 1) s.
Proof. intros Hs k v d Hk H'. destruct (Hs k v d Hk H') as (m & -> & Hm). exists m. split; [done|lia]. Qed.

(** A counter holds nothing [INCR] refuses. *)
Lemma promised_countable n c s k now :
  keeps_promise c s → counts_to n s → n < MAX_SAFE_INTEGER → counter k = true → countable (cview c k) now.
Proof.
  intros Hp Hs Hn Hk v e Hv _. destruct (Hp k v e Hv) as (d & Hd & _).
  destruct (Hs k v d Hk Hd) as (m & -> & Hm). exists m. split; [done|lia].
Qed.

Lemma perform_simulates `{!RedisCacheLaws C} n now call c s :
  keeps_promise c s → counts_to n s → 0 <= n < MAX_SAFE_INTEGER → disciplined call →
  let '(c', a) := perform now call c in
  spec_allows s now call a ∧ keeps_promise c' (spec_next s now call a) ∧ counts_to (n + 1) (spec_next s now call a).
Proof.
  intros Hk Hs [Hn Hmax] Hd. destruct call as [k|k v ttl|k|k ttl]; cbn [perform disciplined] in *.
  - destruct (get_law k now c) as [Hf Hg]. destruct (cache_get k now c) as [c' [v|]]; cbn [fst snd] in *.
    + split; [|split; [by eapply forgets_keeps|by apply counts_more]]. destruct (Hg v eq_refl) as (e & Hv & He).
      destruct (Hk k v e Hv) as (d & Hsk & Hd'). exists d. split; [done|]. intros t Ht. specialize (Hd' t Ht). lia.
    + split; [done|split; [by eapply forgets_keeps|by apply counts_more]].
  - destruct Hd as [Hck Httl]. split; [done|]. split; [|apply counts_promised; [done..|congruence]].
    intros k' v' e Hv. cbn [spec_next]. destruct (decide (k' = k)) as [->|Hne].
    + apply set_law in Hv as [<- He]; [|done]. rewrite promised_same. cbn in *. eexists. split; [done|]. by intros t [= <-].
    + apply set_other_law in Hv; [|done]. rewrite promised_other by done. by apply Hk.
  - split; [done|]. split; [|by apply counts_promised]. destruct (del_law k c) as [Hno Hf]. intros k' v e Hv. cbn [spec_next].
    destruct (decide (k' = k)) as [->|Hne]; [congruence|]. rewrite promised_other by done. apply Hk, Hf, Hv.
  - destruct Hd as [Hck Httl]. pose proof (promised_countable n c s k now Hk Hs Hmax Hck) as Hc0.
    destruct (incr_law k ttl now c Hc0 Httl) as [Ho Hi].
    destruct (cache_incrementAndExpire k ttl now c) as [c' [m|]]; cbn [fst snd] in *.
    + destruct (Hi m eq_refl) as (Hc & e & He). split; [|split].
      * cbn. unfold live_count in Hc. destruct (cview c k) as [[v e0]|] eqn:Hv; [|by left].
        destruct (now <=? e0); [|by left]. right. destruct (Hk k v e0 Hv) as (d & Hsk & _). eauto.
      * intros k' v' e' Hv. cbn [spec_next]. destruct (decide (k' = k)) as [->|Hne].
        -- rewrite promised_same. rewrite He in Hv. injection Hv as <- _. by eexists.
        -- rewrite promised_other by done. apply (Hk k' v' e'). apply (Ho k' (v', e')); auto.
      * apply counts_promised; [done..|]. intros v d _ [= <- _]. exists m. split; [done|]. subst m. unfold live_count.
        destruct (cview c k) as [[v0 e0]|] eqn:Hv; [|lia]. destruct (now <=? e0); [|lia].
        destruct (Hk k v0 e0 Hv) as (d0 & Hsk & _). destruct (Hs k v0 d0 Hck Hsk) as (m & -> & Hm).
        rewrite js_Number_String. cbn. lia.
    + split; [done|]. split; [|by apply counts_more]. intros k' v' e' Hv. apply (Hk k' v' e'). apply (Ho k' (v', e')); auto.
Qed.

Lemma perform_all_simulates `{!RedisCacheLaws C} n calls c s :
  keeps_promise c s → counts_to n s → 0 <= n → n + Z.of_nat (length calls) <= MAX_SAFE_INTEGER →
  Forall (λ x, disciplined x.2) calls → spec_run s calls (perform_all calls c).2.
Proof.
  revert n c s. induction calls as [|[now call] calls IH]; intros n c s Hk Hs Hn Hl Hd; cbn [perform_all]; [done|].
  inversion Hd as [|? ? Hcall Hcalls]; subst. cbn [length] in Hl.
  pose proof (perform_simulates n now call c s Hk Hs ltac:(lia) Hcall) as Hp. destruct (perform now call c) as [c1 a].
  destruct Hp as (Ha & Hk1 & Hs1). specialize (IH (n + 1) c1 _ Hk1 Hs1 ltac:(lia) ltac:(lia) Hcalls).
  destruct (perform_all calls c1) as [c2 l]. by split.
Qed.
End specification.

(** C38: The cache the services use, whether it runs on a Redis that answers or on
    the in-process store, refines the abstract cache: in any sequence of calls in
    which counters and plain values have keys of their own, times to live are in the
    range Redis accepts ([disciplined]) and no counter can leave the safe integers, a
    read answers nothing but the last value written, before the end it was written
    with and never after a delete, and a counter either restarts at one or continues
    the last value it held.  Both the set-then-increment of one key and a time to live
    out of range are errors for Redis, after which the two stores may differ; what is
    assumed of Redis is what it documents of the commands it accepts. *)
Theorem cache_refines_promise {R} `{RedisLikeReliable R} (counter : string → bool)
    (calls : list (Z * cache_call)) (c : RedisCacheImpl.t R) :
  (∀ k, RedisCacheImpl.view c k = None) → Z.of_nat (length calls) <= MAX_SAFE_INTEGER →
  Forall (λ x, disciplined counter x.2) calls →
  spec_run (λ _, None) calls (perform_all (H := RedisCacheImpl.impl_cache) calls c).2.
Proof.
  intros Hc Hl Hd. pose proof RedisCacheImpl.impl_cache_laws.
  apply (perform_all_simulates counter 0); [| |done..].
  - intros k v e Hv. cbn in Hv. congruence.
  - done.
Qed.
