(* ===== verification/Models.v ===== *)
(** * Data model

    The document types of [packages/core/src/models] with the value types of
    [packages/shared/src/types.ts], and the collisions their unique indexes
    reject.  Identifiers are strings, dates are milliseconds, and an optional or
    nullable field is an [option]: [undefined] and [null] are not told apart,
    since no modelled operation does. *)

From S2P Require Export Errors.

(** ** Value types *)
Inductive AuthMethod :=
| am_password | am_email_otp | am_phone_otp | am_oauth | am_oidc | am_passkey | am_mfa_totp
| am_magic_link | am_api_key | am_service.
#[export] Instance AuthMethod_eq_dec : EqDecision AuthMethod.
Proof. solve_decision. Defined.

Inductive Severity := info | warning | critical.
#[export] Instance Severity_eq_dec : EqDecision Severity.
Proof. solve_decision. Defined.

Inductive SessionStatus := active | rotating | replaced | revoked | expired.
#[export] Instance SessionStatus_eq_dec : EqDecision SessionStatus.
Proof. solve_decision. Defined.

Inductive OAuthGrant := authorization_code | refresh_token | client_credentials.
#[export] Instance OAuthGrant_eq_dec : EqDecision OAuthGrant.
Proof. solve_decision. Defined.

Inductive PkceMethod := pkce_S256 | pkce_plain | pkce_none.
#[export] Instance PkceMethod_eq_dec : EqDecision PkceMethod.
Proof. solve_decision. Defined.

Inductive TokenEndpointAuthMethod := client_secret_basic | client_secret_post | auth_none.

Inductive VerificationTokenKind :=
| email_verification | password_reset | magic_link | email_change | phone_change.
#[export] Instance VerificationTokenKind_eq_dec : EqDecision VerificationTokenKind.
Proof. solve_decision. Defined.

Inductive OtpPurpose :=
| otp_login | otp_verify_email | otp_verify_phone | otp_password_reset | otp_change_email
| otp_change_phone.
#[export] Instance OtpPurpose_eq_dec : EqDecision OtpPurpose.
Proof. solve_decision. Defined.

Inductive OtpChannel := ch_email | ch_phone.
#[export] Instance OtpChannel_eq_dec : EqDecision OtpChannel.
Proof. solve_decision. Defined.

(** The strings these enumerations are in the source. *)
Definition AuthMethod_string (m : AuthMethod) : string :=
  match m with
  | am_password => "password" | am_email_otp => "email_otp" | am_phone_otp => "phone_otp"
  | am_oauth => "oauth" | am_oidc => "oidc" | am_passkey => "passkey"
  | am_mfa_totp => "mfa_totp" | am_magic_link => "magic_link" | am_api_key => "api_key"
  | am_service => "service"
  end.
Definition VerificationTokenKind_string (k : VerificationTokenKind) : string :=
  match k with
  | email_verification => "email_verification" | password_reset => "password_reset"
  | magic_link => "magic_link" | email_change => "email_change" | phone_change => "phone_change"
  end.
Definition OtpPurpose_string (p : OtpPurpose) : string :=
  match p with
  | otp_login => "login" | otp_verify_email => "verify_email"
  | otp_verify_phone => "verify_phone" | otp_password_reset => "password_reset"
  | otp_change_email => "change_email" | otp_change_phone => "change_phone"
  end.
Definition OtpChannel_string (c : OtpChannel) : string :=
  match c with ch_email => "email" | ch_phone => "phone" end.

Record LinkedIdentity := mkLinkedIdentity { li_provider : string; li_subject : string }.

(** ** Users *)
Record UserDoc := mkUserDoc {
  u_id : string;
  u_tenantId : string;
  u_email : option string;
  u_phone : option string;
  u_emailVerified : bool;
  u_phoneVerified : bool;
  u_isActive : bool;
  u_tokenVersion : Z;
  u_passwordHash : option string;
  u_identities : list LinkedIdentity;
  u_failedLoginAttempts : Z;
  u_loginLockUntil : option Z;
  u_mfaEnabled : bool;
  u_mfaSecret : option string;
  u_mfaSecretVerifiedAt : option Z;
  u_mfaFailedAttempts : Z;
  u_mfaLockUntil : option Z;
  u_metadata : list (string * json);
}.
#[export] Instance settable_UserDoc : Settable UserDoc := {| eta_expand := λ d, mkUserDoc (u_id d) (u_tenantId d)
  (u_email d) (u_phone d) (u_emailVerified d) (u_phoneVerified d) (u_isActive d)
  (u_tokenVersion d) (u_passwordHash d) (u_identities d) (u_failedLoginAttempts d)
  (u_loginLockUntil d) (u_mfaEnabled d) (u_mfaSecret d) (u_mfaSecretVerifiedAt d)
  (u_mfaFailedAttempts d) (u_mfaLockUntil d) (u_metadata d) |}.

(** The setters of the user schema: [lowercase] and [trim] for e-mail addresses,
    [trim] for phone numbers; queries go through them too. *)
Definition email_setter (s : string) : string := js_trim (js_lower s).

(** Partial unique indexes only cover documents that have the handle. *)
Definition same_handle (a b : option string) : bool :=
  match a, b with Some x, Some y => bool_decide (x = y) | _, _ => false end.
Definition user_clash (n d : UserDoc) : bool :=
  bool_decide (u_id n = u_id d) ||
  bool_decide (u_tenantId n = u_tenantId d) &&
    (same_handle (u_email n) (u_email d) || same_handle (u_phone n) (u_phone d)).

(** ** Sessions *)
Record Device := mkDevice { d_ip : string; d_userAgent : string; d_deviceLabel : string }.

Record SessionDoc := mkSessionDoc {
  s_id : string;
  s_userId : string;
  s_tenantId : string;
  s_applicationId : string;
  s_status : SessionStatus;
  s_familyId : string;
  s_currentRefreshTokenHash : string;
  s_replacedBySessionId : option string;
  s_device : option Device;
  s_lastUsedAt : option Z;
  s_createdFromIp : option string;
  s_lastUsedIp : option string;
  s_userAgentHash : option string;
  s_createdAt : Z;
  s_lastActiveAt : Z;
  s_expiresAt : Z;
  s_revokedAt : option Z;
}.
#[export] Instance settable_SessionDoc : Settable SessionDoc := {| eta_expand := λ d, mkSessionDoc (s_id d)
  (s_userId d) (s_tenantId d) (s_applicationId d) (s_status d) (s_familyId d)
  (s_currentRefreshTokenHash d) (s_replacedBySessionId d) (s_device d) (s_lastUsedAt d)
  (s_createdFromIp d) (s_lastUsedIp d) (s_userAgentHash d) (s_createdAt d) (s_lastActiveAt d)
  (s_expiresAt d) (s_revokedAt d) |}.
Definition session_clash (n d : SessionDoc) : bool :=
  bool_decide (s_id n = s_id d) ||
  bool_decide (s_currentRefreshTokenHash n = s_currentRefreshTokenHash d).

(** ** One-time codes and tokens *)
Record OtpDoc := mkOtpDoc {
  o_id : string;
  o_tenantId : string;
  o_applicationId : string;
  o_userId : option string;
  o_channel : OtpChannel;
  o_target : string;
  o_purpose : OtpPurpose;
  o_codeHash : string;
  o_expiresAt : Z;
  o_attempts : Z;
  o_consumed : bool;
  o_createdAt : Z;
}.
#[export] Instance settable_OtpDoc : Settable OtpDoc := {| eta_expand := λ d, mkOtpDoc (o_id d) (o_tenantId d)
  (o_applicationId d) (o_userId d) (o_channel d) (o_target d) (o_purpose d) (o_codeHash d)
  (o_expiresAt d) (o_attempts d) (o_consumed d) (o_createdAt d) |}.
Definition otp_clash (n d : OtpDoc) : bool :=
  bool_decide (o_id n = o_id d) ||
  bool_decide (o_tenantId n = o_tenantId d) && bool_decide (o_applicationId n = o_applicationId d) &&
  bool_decide (o_purpose n = o_purpose d) && bool_decide (o_channel n = o_channel d) &&
  bool_decide (o_target n = o_target d).

Record BackupCodeDoc := mkBackupCodeDoc {
  b_id : string;
  b_userId : string;
  b_tenantId : string;
  b_codeHash : string;
  b_usedAt : option Z;
}.
#[export] Instance settable_BackupCodeDoc : Settable BackupCodeDoc := {| eta_expand := λ d,
  mkBackupCodeDoc (b_id d) (b_userId d) (b_tenantId d) (b_codeHash d) (b_usedAt d) |}.
Definition backupCode_clash (n d : BackupCodeDoc) : bool :=
  bool_decide (b_id n = b_id d) || bool_decide (b_codeHash n = b_codeHash d).

Record VerificationTokenDoc := mkVerificationTokenDoc {
  v_id : string;
  v_kind : VerificationTokenKind;
  v_tenantId : string;
  v_applicationId : string;
  v_userId : string;
  v_tokenHash : string;
  v_target : option string;
  v_redirectUri : option string;
  v_expiresAt : Z;
  v_consumedAt : option Z;
}.
#[export] Instance settable_VerificationTokenDoc : Settable VerificationTokenDoc := {| eta_expand := λ d,
  mkVerificationTokenDoc (v_id d) (v_kind d) (v_tenantId d) (v_applicationId d) (v_userId d)
    (v_tokenHash d) (v_target d) (v_redirectUri d) (v_expiresAt d) (v_consumedAt d) |}.
Definition verificationToken_clash (n d : VerificationTokenDoc) : bool :=
  bool_decide (v_id n = v_id d) || bool_decide (v_tokenHash n = v_tokenHash d).

(** ** OAuth *)
Record OAuthClientDoc := mkOAuthClientDoc {
  c_id : string;
  c_tenantId : string;
  c_applicationId : string;
  c_name : string;
  c_clientId : string;
  c_clientSecretHash : option string;
  c_redirectUris : list string;
  c_grants : list OAuthGrant;
  c_pkceMethods : list PkceMethod;
  c_scopes : list string;
  c_isActive : bool;
  c_isConfidential : bool;
  c_tokenEndpointAuthMethod : TokenEndpointAuthMethod;
}.
#[export] Instance settable_OAuthClientDoc : Settable OAuthClientDoc := {| eta_expand := λ d, mkOAuthClientDoc (c_id d)
  (c_tenantId d) (c_applicationId d) (c_name d) (c_clientId d) (c_clientSecretHash d) (c_redirectUris d) (c_grants d)
  (c_pkceMethods d) (c_scopes d) (c_isActive d) (c_isConfidential d) (c_tokenEndpointAuthMethod d) |}.
Definition oauthClient_clash (n d : OAuthClientDoc) : bool :=
  bool_decide (c_id n = c_id d) || bool_decide (c_clientId n = c_clientId d).

Record AuthorizationCodeDoc := mkAuthorizationCodeDoc {
  a_id : string;
  a_codeHash : string;
  a_tenantId : string;
  a_applicationId : string;
  a_clientId : string;
  a_userId : string;
  a_sessionId : string;
  a_redirectUri : string;
  a_scope : list string;
  a_codeChallenge : option string;
  a_codeChallengeMethod : option PkceMethod;
  a_nonce : option string;
  a_authMethod : AuthMethod;
  a_expiresAt : Z;
  a_consumedAt : option Z;
}.
#[export] Instance settable_AuthorizationCodeDoc : Settable AuthorizationCodeDoc := {| eta_expand := λ d,
  mkAuthorizationCodeDoc (a_id d) (a_codeHash d) (a_tenantId d) (a_applicationId d) (a_clientId d)
    (a_userId d) (a_sessionId d) (a_redirectUri d) (a_scope d) (a_codeChallenge d)
    (a_codeChallengeMethod d) (a_nonce d) (a_authMethod d) (a_expiresAt d) (a_consumedAt d) |}.
Definition authorizationCode_clash (n d : AuthorizationCodeDoc) : bool :=
  bool_decide (a_id n = a_id d) || bool_decide (a_codeHash n = a_codeHash d).

(** ** Authorization *)
Record PermissionDoc := mkPermissionDoc {
  p_id : string;
  p_tenantId : string;
  p_applicationId : string;
  p_name : string;
  p_resource : string;
  p_action : string;
  p_description : option string;
}.
#[export] Instance settable_PermissionDoc : Settable PermissionDoc := {| eta_expand := λ d, mkPermissionDoc (p_id d)
  (p_tenantId d) (p_applicationId d) (p_name d) (p_resource d) (p_action d) (p_description d) |}.
Definition permission_clash (n d : PermissionDoc) : bool :=
  bool_decide (p_id n = p_id d) ||
  bool_decide (p_tenantId n = p_tenantId d) && bool_decide (p_applicationId n = p_applicationId d) &&
    bool_decide (p_name n = p_name d).

Record RoleDoc := mkRoleDoc {
  r_id : string;
  r_tenantId : string;
  r_applicationId : string;
  r_name : string;
  r_description : option string;
  r_permissionIds : list string;
  r_isSystem : bool;
}.
#[export] Instance settable_RoleDoc : Settable RoleDoc := {| eta_expand := λ d, mkRoleDoc (r_id d) (r_tenantId d)
  (r_applicationId d) (r_name d) (r_description d) (r_permissionIds d) (r_isSystem d) |}.
Definition role_clash (n d : RoleDoc) : bool :=
  bool_decide (r_id n = r_id d) ||
  bool_decide (r_tenantId n = r_tenantId d) && bool_decide (r_applicationId n = r_applicationId d) &&
    bool_decide (r_name n = r_name d).

Record UserRoleAssignmentDoc := mkUserRoleAssignmentDoc {
  ra_userId : string;
  ra_tenantId : string;
  ra_applicationId : string;
  ra_roleId : string;
  ra_assignedAt : Z;
}.
#[export] Instance settable_UserRoleAssignmentDoc : Settable UserRoleAssignmentDoc := {| eta_expand := λ d,
  mkUserRoleAssignmentDoc (ra_userId d) (ra_tenantId d) (ra_applicationId d) (ra_roleId d)
    (ra_assignedAt d) |}.
Definition userRoleAssignment_clash (n d : UserRoleAssignmentDoc) : bool :=
  bool_decide (ra_userId n = ra_userId d) && bool_decide (ra_tenantId n = ra_tenantId d) &&
  bool_decide (ra_applicationId n = ra_applicationId d) && bool_decide (ra_roleId n = ra_roleId d).

(** ** Audit *)
Record AuditLogDoc := mkAuditLogDoc {
  l_timestamp : Z;
  l_eventType : string;
  l_severity : Severity;
  l_tenantId : option string;
  l_applicationId : option string;
  l_userId : option string;
  l_sessionId : option string;
  l_ip : option string;
  l_userAgent : option string;
  l_metadata : list (string * json);
  l_sequence : option Z;
  l_hash : option string;
  l_prevHash : option string;
  l_expireAt : option Z;
}.
Definition auditLog_clash (n d : AuditLogDoc) : bool :=
  match l_sequence n, l_sequence d with Some x, Some y => x =? y | _, _ => false end.

Record AuditSequenceDoc := mkAuditSequenceDoc {
  q_id : string;
  q_seq : Z;
  q_lastHash : option string;
}.
#[export] Instance settable_AuditSequenceDoc : Settable AuditSequenceDoc := {| eta_expand := λ d,
  mkAuditSequenceDoc (q_id d) (q_seq d) (q_lastHash d) |}.
Definition auditSequence_clash (n d : AuditSequenceDoc) : bool := bool_decide (q_id n = q_id d).

(** ** Rate limiting *)
Record RateLimitCounterDoc := mkRateLimitCounterDoc {
  k_id : string;
  k_count : Z;
  k_expiresAt : Z;
}.
#[export] Instance settable_RateLimitCounterDoc : Settable RateLimitCounterDoc := {| eta_expand := λ d,
  mkRateLimitCounterDoc (k_id d) (k_count d) (k_expiresAt d) |}.
Definition rateLimitCounter_clash (n d : RateLimitCounterDoc) : bool := bool_decide (k_id n = k_id d).

(** ** Passkeys, API keys, webhooks *)
Record WebAuthnCredentialDoc := mkWebAuthnCredentialDoc {
  wc_id : string;
  wc_tenantId : string;
  wc_userId : string;
  wc_credentialId : string;
  wc_publicKey : string;
  wc_counter : Z;
  wc_transports : list string;
  wc_attestationFormat : option string;
  wc_nickname : option string;
  wc_aaguid : option string;
  wc_discoverable : bool;
  wc_userVerified : bool;
  wc_isRevoked : bool;
  wc_revokedAt : option Z;
  wc_lastUsedAt : option Z;
  wc_createdAt : Z;
}.
#[export] Instance settable_WebAuthnCredentialDoc : Settable WebAuthnCredentialDoc := {| eta_expand := λ d,
  mkWebAuthnCredentialDoc (wc_id d) (wc_tenantId d) (wc_userId d) (wc_credentialId d) (wc_publicKey d) (wc_counter d)
  (wc_transports d) (wc_attestationFormat d) (wc_nickname d) (wc_aaguid d) (wc_discoverable d) (wc_userVerified d)
  (wc_isRevoked d) (wc_revokedAt d) (wc_lastUsedAt d) (wc_createdAt d) |}.
Definition webauthnCredential_clash (n d : WebAuthnCredentialDoc) : bool :=
  bool_decide (wc_id n = wc_id d) || bool_decide (wc_credentialId n = wc_credentialId d).

Record ApiKeyDoc := mkApiKeyDoc {
  ap_id : string;
  ap_tenantId : string;
  ap_applicationId : string;
  ap_name : string;
  ap_keyHash : string;
  ap_prefix : option string;
  ap_scopes : list string;
  ap_isActive : bool;
  ap_expiresAt : option Z;
}.
#[export] Instance settable_ApiKeyDoc : Settable ApiKeyDoc := {| eta_expand := λ d, mkApiKeyDoc (ap_id d)
  (ap_tenantId d) (ap_applicationId d) (ap_name d) (ap_keyHash d) (ap_prefix d) (ap_scopes d) (ap_isActive d)
  (ap_expiresAt d) |}.
Definition apiKey_clash (n d : ApiKeyDoc) : bool :=
  bool_decide (ap_id n = ap_id d) || bool_decide (ap_keyHash n = ap_keyHash d).

Record WebhookDoc := mkWebhookDoc {
  wh_id : string;
  wh_tenantId : option string;
  wh_applicationId : option string;
  wh_url : string;
  wh_secret : option string;
  wh_events : list string;
  wh_active : bool;
  wh_maxRetries : option Z;
}.
Definition webhook_clash (n d : WebhookDoc) : bool := bool_decide (wh_id n = wh_id d).

Inductive WebhookDeliveryStatus := wd_pending | wd_delivered | wd_failed | wd_retrying.
Record WebhookDeliveryDoc := mkWebhookDeliveryDoc {
  wd_id : string;
  wd_webhookId : string;
  wd_event : string;
  wd_payload : list (string * json);
  wd_status : WebhookDeliveryStatus;
  wd_attempts : Z;
  wd_lastStatusCode : option Z;
  wd_lastError : option string;
  wd_nextAttemptAt : option Z;
}.
#[export] Instance settable_WebhookDeliveryDoc : Settable WebhookDeliveryDoc := {| eta_expand := λ d,
  mkWebhookDeliveryDoc (wd_id d) (wd_webhookId d) (wd_event d) (wd_payload d) (wd_status d) (wd_attempts d)
  (wd_lastStatusCode d) (wd_lastError d) (wd_nextAttemptAt d) |}.
Definition webhookDelivery_clash (n d : WebhookDeliveryDoc) : bool := bool_decide (wd_id n = wd_id d).

(** ** Tenants and applications *)
Record TenantDoc := mkTenantDoc {
  t_id : string;
  t_name : string;
  t_slug : string;
  t_isActive : bool;
  t_config : list (string * json);
  t_createdAt : Z;
}.
#[export] Instance settable_TenantDoc : Settable TenantDoc := {| eta_expand := λ d,
  mkTenantDoc (t_id d) (t_name d) (t_slug d) (t_isActive d) (t_config d) (t_createdAt d) |}.
Definition tenant_clash (n d : TenantDoc) : bool :=
  bool_decide (t_id n = t_id d) || bool_decide (t_slug n = t_slug d).
Record ApplicationDoc := mkApplicationDoc {
  app_id : string;
  app_tenantId : string;
  app_name : string;
  app_platform : string;
  app_clientId : string;
  app_clientSecretHash : string;
  app_redirectUris : list string;
  app_isActive : bool;
}.
Definition application_clash (n d : ApplicationDoc) : bool :=
  bool_decide (app_id n = app_id d) || bool_decide (app_clientId n = app_clientId d).

(** ** Organizations, teams, quotas, subscriptions *)
Record OrganizationDoc := mkOrganizationDoc {
  or_id : string;
  or_name : string;
  or_slug : string;
  or_tenantId : option string;
  or_ownerUserId : string;
  or_settings : list (string * json);
}.
#[export] Instance settable_OrganizationDoc : Settable OrganizationDoc := {| eta_expand := λ d,
  mkOrganizationDoc (or_id d) (or_name d) (or_slug d) (or_tenantId d) (or_ownerUserId d) (or_settings d) |}.
Definition organization_clash (n d : OrganizationDoc) : bool :=
  bool_decide (or_id n = or_id d) || bool_decide (or_slug n = or_slug d).
Record TeamDoc := mkTeamDoc {
  te_id : string;
  te_name : string;
  te_organizationId : option string;
  te_tenantId : option string;
  te_memberIds : list string;
  te_roleIds : list string;
}.
#[export] Instance settable_TeamDoc : Settable TeamDoc := {| eta_expand := λ d,
  mkTeamDoc (te_id d) (te_name d) (te_organizationId d) (te_tenantId d) (te_memberIds d) (te_roleIds d) |}.
Definition team_clash (n d : TeamDoc) : bool := bool_decide (te_id n = te_id d).
Record TenantQuotaDoc := mkTenantQuotaDoc {
  tq_tenantId : string;
  tq_quotas : list (string * Z);
  tq_usage : list (string * Z);
}.
#[export] Instance settable_TenantQuotaDoc : Settable TenantQuotaDoc := {| eta_expand := λ d,
  mkTenantQuotaDoc (tq_tenantId d) (tq_quotas d) (tq_usage d) |}.
Definition tenantQuota_clash (n d : TenantQuotaDoc) : bool := bool_decide (tq_tenantId n = tq_tenantId d).
Inductive SubscriptionStatus := trialing | active_subscription | past_due | canceled | unpaid.
#[export] Instance SubscriptionStatus_eq_dec : EqDecision SubscriptionStatus.
Proof. solve_decision. Defined.
Record SubscriptionDoc := mkSubscriptionDoc {
  su_id : string;
  su_tenantId : option string;
  su_applicationId : option string;
  su_plan : string;
  su_status : SubscriptionStatus;
  su_cancelAtPeriodEnd : bool;
  su_provider : option string;
  su_externalId : option string;
  su_createdAt : Z;
}.
#[export] Instance settable_SubscriptionDoc : Settable SubscriptionDoc := {| eta_expand := λ d,
  mkSubscriptionDoc (su_id d) (su_tenantId d) (su_applicationId d) (su_plan d) (su_status d) (su_cancelAtPeriodEnd d)
  (su_provider d) (su_externalId d) (su_createdAt d) |}.
Definition subscription_clash (n d : SubscriptionDoc) : bool := bool_decide (su_id n = su_id d).

(** ** The collections of the migrations *)
Record MfaBackupDoc := mkMfaBackupDoc { mb_id : string; mb_userId : string; mb_secret : string; mb_migratedAt : Z }.
#[export] Instance settable_MfaBackupDoc : Settable MfaBackupDoc := {| eta_expand := λ d,
  mkMfaBackupDoc (mb_id d) (mb_userId d) (mb_secret d) (mb_migratedAt d) |}.
Definition mfaBackup_clash (n d : MfaBackupDoc) : bool := bool_decide (mb_id n = mb_id d).
Record MigrationRecord := mkMigrationRecord { mg_id : string; mg_name : string; mg_appliedAt : Z }.
Definition migration_clash (n d : MigrationRecord) : bool := bool_decide (mg_id n = mg_id d).
