(* ===== verification/World.v ===== *)
(** * The shared world

    What the services of [packages/core/src] share: the MongoDB collections, the
    Redis cache, the clock and the random source.  [Platform] gathers the code
    outside the repository (driver, cache server, Node crypto); [world] is the
    state; the remaining definitions are the commands the services issue, one
    atomic action each.  Any database command may fail: [faults] says which of
    the coming commands do, with what error, and whether the server had applied
    the write when the error was reported. *)

From S2P Require Export Models.
From S2P Require Export Interleave.
From S2P Require Export Store.
From S2P Require Export Cache.
From S2P Require Export Codec.
From S2P Require Export Jwt.

(** ** The platform *)

(** [TokenHashAlgorithm] of [config/env.ts]. *)
Inductive HashAlgorithm := sha256 | sha512 | sha3_256.

(** [Argon2Options] of [packages/crypto/src/password.ts]. *)
Record Argon2Options := mkArgon2Options {
  timeCost : option Z; memoryCost : option Z; parallelism : option Z; argon2_type : option Z }.

Class Platform := {
  coll : Type → Type;
  coll_mongo :: Mongo coll;
  cache : Type;
  cache_ops :: RedisCache cache;
  jwt_crypto :: JwtCrypto;
  (** [createHash(alg).update(data).digest()] and
      [createHmac('sha1', key).update(data).digest()]. *)
  createHash : HashAlgorithm → string → string;
  hmac_sha1 : string → string → string;
  (** The [i]-th draw of the process: [randomBytes(n)], [randomInt(lo, hi)],
      [randomUUID()], and the driver's object identifiers. *)
  randomBytes : nat → nat → string;
  randomInt : nat → Z → Z → Z;
  randomUUID : nat → string;
  newObjectId : nat → string;
  (** AES-256-GCM: key, IV, associated data. *)
  aes_256_gcm_seal : string → string → string → string → string * string;
  aes_256_gcm_open : string → string → string → string → string → option string;
  (** Argon2 with the salt of a draw; [hash] throws on bad parameters and [verify]
      on a malformed hash. *)
  argon2_hash : Argon2Options → nat → string → exn + string;
  argon2_verify : string → string → exn + bool;
  (** [encodeURIComponent] and the [URLSearchParams] serialiser. *)
  encodeURIComponent : string → string;
  URLSearchParams_toString : list (string * string) → string;
}.

(** ** The state *)
Record fault := mkFault { fl_code : option Z; fl_message : string; fl_applied : bool }.
Definition fault_exn (f : fault) : exn := DriverError (fl_code f) (fl_message f).

(** A one-time code handed to a delivery adapter. *)
Record delivery := mkDelivery {
  dl_channel : OtpChannel; dl_target : string; dl_code : string; dl_purpose : OtpPurpose }.

(** A pending ceremony, in the module-level map of [services/auth/webauthn.service.ts]. *)
Record WebAuthnChallenge := mkWebAuthnChallenge {
  ch_challenge : string; ch_userId : option string; ch_expiresAt : Z }.

Section world.
Context {P : Platform}.

Record world := mkWorld {
  users : coll UserDoc;
  sessions : coll SessionDoc;
  otps : coll OtpDoc;
  backupCodes : coll BackupCodeDoc;
  verificationTokens : coll VerificationTokenDoc;
  oauthClients : coll OAuthClientDoc;
  authorizationCodes : coll AuthorizationCodeDoc;
  permissions : coll PermissionDoc;
  roles : coll RoleDoc;
  userRoleAssignments : coll UserRoleAssignmentDoc;
  auditLogs : coll AuditLogDoc;
  auditSequences : coll AuditSequenceDoc;
  rateLimitCounters : coll RateLimitCounterDoc;
  webauthnCredentials : coll WebAuthnCredentialDoc;
  apiKeys : coll ApiKeyDoc;
  webhooks : coll WebhookDoc;
  webhookDeliveries : coll WebhookDeliveryDoc;
  tenants : coll TenantDoc;
  applications : coll ApplicationDoc;
  organizations : coll OrganizationDoc;
  teams : coll TeamDoc;
  tenantQuotas : coll TenantQuotaDoc;
  subscriptions : coll SubscriptionDoc;
  mfaSecretsBackup : coll MfaBackupDoc;
  migrations : coll MigrationRecord;
  redis : cache;
  challengeStore : list (string * WebAuthnChallenge);
  keyStore : KeyStore.t;
  clock : Z;
  draws : nat;
  faults : list (option fault);
  transactional : bool;
  outbox : list delivery;
  audit_sink : list (list (string * json));
}.
#[export] Instance settable_world : Settable world := {| eta_expand := λ w, mkWorld (users w) (sessions w) (otps w)
  (backupCodes w) (verificationTokens w) (oauthClients w) (authorizationCodes w) (permissions w)
  (roles w) (userRoleAssignments w) (auditLogs w) (auditSequences w) (rateLimitCounters w)
  (webauthnCredentials w) (apiKeys w) (webhooks w) (webhookDeliveries w) (tenants w) (applications w)
  (organizations w) (teams w) (tenantQuotas w) (subscriptions w) (mfaSecretsBackup w) (migrations w) (redis w) (challengeStore w)
  (keyStore w) (clock w) (draws w) (faults w) (transactional w) (outbox w) (audit_sink w) |}.

(** The database part of a world, restored when a transaction aborts. *)
Definition rollback (saved w : world) : world :=
  mkWorld (users saved) (sessions saved) (otps saved) (backupCodes saved)
    (verificationTokens saved) (oauthClients saved) (authorizationCodes saved) (permissions saved)
    (roles saved) (userRoleAssignments saved) (auditLogs saved) (auditSequences saved)
    (rateLimitCounters saved) (webauthnCredentials saved) (apiKeys saved) (webhooks saved) (webhookDeliveries saved)
    (tenants saved) (applications saved) (organizations saved) (teams saved) (tenantQuotas saved)
    (subscriptions saved) (mfaSecretsBackup saved) (migrations saved)
    (redis w) (challengeStore w) (keyStore w) (clock w) (draws w) (faults w) (transactional w) (outbox w)
    (audit_sink w).

(** The collections. *)
Definition store (w : world) :=
  (users w, sessions w, otps w, backupCodes w, verificationTokens w, oauthClients w,
   authorizationCodes w, permissions w, roles w, userRoleAssignments w, auditLogs w,
   auditSequences w, rateLimitCounters w, webauthnCredentials w, apiKeys w, webhooks w, webhookDeliveries w,
   tenants w, applications w, organizations w, teams w, tenantQuotas w, subscriptions w, mfaSecretsBackup w, migrations w).

Ltac frame_collection := intros w w'; unfold store; intros [=]; assumption.

(** The collection a document type is stored in, with its unique indexes. *)
Class Table (D : Type) := {
  tbl : world → coll D;
  upd_tbl : (coll D → coll D) → world → world;
  clash : D → D → bool;
  tbl_upd : ∀ f w, tbl (upd_tbl f w) = f (tbl w);
  upd_tbl_const : ∀ f w, upd_tbl f w = upd_tbl (λ _, f (tbl w)) w;
  tbl_frame : ∀ w w', store w' = store w → tbl w' = tbl w;
  draws_upd : ∀ f w, draws (upd_tbl f w) = draws w;
}.
#[export] Instance users_table : Table UserDoc :=
  { tbl := users; upd_tbl f w := w <| users ::= f |>; clash := user_clash; tbl_upd _ _ := eq_refl;
    upd_tbl_const _ _ := eq_refl; tbl_frame := ltac:(frame_collection);
    draws_upd _ _ := eq_refl }.
#[export] Instance sessions_table : Table SessionDoc :=
  { tbl := sessions; upd_tbl f w := w <| sessions ::= f |>; clash := session_clash;
    tbl_upd _ _ := eq_refl;
    upd_tbl_const _ _ := eq_refl; tbl_frame := ltac:(frame_collection);
    draws_upd _ _ := eq_refl }.
#[export] Instance otps_table : Table OtpDoc :=
  { tbl := otps; upd_tbl f w := w <| otps ::= f |>; clash := otp_clash; tbl_upd _ _ := eq_refl;
    upd_tbl_const _ _ := eq_refl; tbl_frame := ltac:(frame_collection);
    draws_upd _ _ := eq_refl }.
#[export] Instance backupCodes_table : Table BackupCodeDoc :=
  { tbl := backupCodes; upd_tbl f w := w <| backupCodes ::= f |>; clash := backupCode_clash;
    tbl_upd _ _ := eq_refl;
    upd_tbl_const _ _ := eq_refl; tbl_frame := ltac:(frame_collection);
    draws_upd _ _ := eq_refl }.
#[export] Instance verificationTokens_table : Table VerificationTokenDoc :=
  { tbl := verificationTokens; upd_tbl f w := w <| verificationTokens ::= f |>;
    clash := verificationToken_clash; tbl_upd _ _ := eq_refl;
    upd_tbl_const _ _ := eq_refl; tbl_frame := ltac:(frame_collection);
    draws_upd _ _ := eq_refl }.
#[export] Instance oauthClients_table : Table OAuthClientDoc :=
  { tbl := oauthClients; upd_tbl f w := w <| oauthClients ::= f |>; clash := oauthClient_clash;
    tbl_upd _ _ := eq_refl;
    upd_tbl_const _ _ := eq_refl; tbl_frame := ltac:(frame_collection);
    draws_upd _ _ := eq_refl }.
#[export] Instance authorizationCodes_table : Table AuthorizationCodeDoc :=
  { tbl := authorizationCodes; upd_tbl f w := w <| authorizationCodes ::= f |>;
    clash := authorizationCode_clash; tbl_upd _ _ := eq_refl;
    upd_tbl_const _ _ := eq_refl; tbl_frame := ltac:(frame_collection);
    draws_upd _ _ := eq_refl }.
#[export] Instance permissions_table : Table PermissionDoc :=
  { tbl := permissions; upd_tbl f w := w <| permissions ::= f |>; clash := permission_clash;
    tbl_upd _ _ := eq_refl;
    upd_tbl_const _ _ := eq_refl; tbl_frame := ltac:(frame_collection);
    draws_upd _ _ := eq_refl }.
#[export] Instance roles_table : Table RoleDoc :=
  { tbl := roles; upd_tbl f w := w <| roles ::= f |>; clash := role_clash; tbl_upd _ _ := eq_refl;
    upd_tbl_const _ _ := eq_refl; tbl_frame := ltac:(frame_collection);
    draws_upd _ _ := eq_refl }.
#[export] Instance userRoleAssignments_table : Table UserRoleAssignmentDoc :=
  { tbl := userRoleAssignments; upd_tbl f w := w <| userRoleAssignments ::= f |>;
    clash := userRoleAssignment_clash; tbl_upd _ _ := eq_refl;
    upd_tbl_const _ _ := eq_refl; tbl_frame := ltac:(frame_collection);
    draws_upd _ _ := eq_refl }.
#[export] Instance auditLogs_table : Table AuditLogDoc :=
  { tbl := auditLogs; upd_tbl f w := w <| auditLogs ::= f |>; clash := auditLog_clash;
    tbl_upd _ _ := eq_refl;
    upd_tbl_const _ _ := eq_refl; tbl_frame := ltac:(frame_collection);
    draws_upd _ _ := eq_refl }.
#[export] Instance auditSequences_table : Table AuditSequenceDoc :=
  { tbl := auditSequences; upd_tbl f w := w <| auditSequences ::= f |>;
    clash := auditSequence_clash; tbl_upd _ _ := eq_refl;
    upd_tbl_const _ _ := eq_refl; tbl_frame := ltac:(frame_collection);
    draws_upd _ _ := eq_refl }.
#[export] Instance rateLimitCounters_table : Table RateLimitCounterDoc :=
  { tbl := rateLimitCounters; upd_tbl f w := w <| rateLimitCounters ::= f |>;
    clash := rateLimitCounter_clash; tbl_upd _ _ := eq_refl;
    upd_tbl_const _ _ := eq_refl; tbl_frame := ltac:(frame_collection);
    draws_upd _ _ := eq_refl }.
#[export] Instance webauthnCredentials_table : Table WebAuthnCredentialDoc :=
  { tbl := webauthnCredentials; upd_tbl f w := w <| webauthnCredentials ::= f |>;
    clash := webauthnCredential_clash; tbl_upd _ _ := eq_refl;
    upd_tbl_const _ _ := eq_refl; tbl_frame := ltac:(frame_collection);
    draws_upd _ _ := eq_refl }.
#[export] Instance apiKeys_table : Table ApiKeyDoc :=
  { tbl := apiKeys; upd_tbl f w := w <| apiKeys ::= f |>;
    clash := apiKey_clash; tbl_upd _ _ := eq_refl;
    upd_tbl_const _ _ := eq_refl; tbl_frame := ltac:(frame_collection);
    draws_upd _ _ := eq_refl }.
#[export] Instance webhooks_table : Table WebhookDoc :=
  { tbl := webhooks; upd_tbl f w := w <| webhooks ::= f |>;
    clash := webhook_clash; tbl_upd _ _ := eq_refl;
    upd_tbl_const _ _ := eq_refl; tbl_frame := ltac:(frame_collection);
    draws_upd _ _ := eq_refl }.
#[export] Instance webhookDeliveries_table : Table WebhookDeliveryDoc :=
  { tbl := webhookDeliveries; upd_tbl f w := w <| webhookDeliveries ::= f |>;
    clash := webhookDelivery_clash; tbl_upd _ _ := eq_refl;
    upd_tbl_const _ _ := eq_refl; tbl_frame := ltac:(frame_collection);
    draws_upd _ _ := eq_refl }.
#[export] Instance tenants_table : Table TenantDoc :=
  { tbl := tenants; upd_tbl f w := w <| tenants ::= f |>;
    clash := tenant_clash; tbl_upd _ _ := eq_refl;
    upd_tbl_const _ _ := eq_refl; tbl_frame := ltac:(frame_collection);
    draws_upd _ _ := eq_refl }.
#[export] Instance applications_table : Table ApplicationDoc :=
  { tbl := applications; upd_tbl f w := w <| applications ::= f |>;
    clash := application_clash; tbl_upd _ _ := eq_refl;
    upd_tbl_const _ _ := eq_refl; tbl_frame := ltac:(frame_collection);
    draws_upd _ _ := eq_refl }.

#[export] Instance organizations_table : Table OrganizationDoc :=
  { tbl := organizations; upd_tbl f w := w <| organizations ::= f |>;
    clash := organization_clash; tbl_upd _ _ := eq_refl;
    upd_tbl_const _ _ := eq_refl; tbl_frame := ltac:(frame_collection);
    draws_upd _ _ := eq_refl }.
#[export] Instance teams_table : Table TeamDoc :=
  { tbl := teams; upd_tbl f w := w <| teams ::= f |>;
    clash := team_clash; tbl_upd _ _ := eq_refl;
    upd_tbl_const _ _ := eq_refl; tbl_frame := ltac:(frame_collection);
    draws_upd _ _ := eq_refl }.
#[export] Instance tenantQuotas_table : Table TenantQuotaDoc :=
  { tbl := tenantQuotas; upd_tbl f w := w <| tenantQuotas ::= f |>;
    clash := tenantQuota_clash; tbl_upd _ _ := eq_refl;
    upd_tbl_const _ _ := eq_refl; tbl_frame := ltac:(frame_collection);
    draws_upd _ _ := eq_refl }.
#[export] Instance subscriptions_table : Table SubscriptionDoc :=
  { tbl := subscriptions; upd_tbl f w := w <| subscriptions ::= f |>;
    clash := subscription_clash; tbl_upd _ _ := eq_refl;
    upd_tbl_const _ _ := eq_refl; tbl_frame := ltac:(frame_collection);
    draws_upd _ _ := eq_refl }.
#[export] Instance mfaSecretsBackup_table : Table MfaBackupDoc :=
  { tbl := mfaSecretsBackup; upd_tbl f w := w <| mfaSecretsBackup ::= f |>;
    clash := mfaBackup_clash; tbl_upd _ _ := eq_refl;
    upd_tbl_const _ _ := eq_refl; tbl_frame := ltac:(frame_collection);
    draws_upd _ _ := eq_refl }.
#[export] Instance migrations_table : Table MigrationRecord :=
  { tbl := migrations; upd_tbl f w := w <| migrations ::= f |>;
    clash := migration_clash; tbl_upd _ _ := eq_refl;
    upd_tbl_const _ _ := eq_refl; tbl_frame := ltac:(frame_collection);
    draws_upd _ _ := eq_refl }.

(** ** Commands *)
Definition act {A} (f : world → world * A) : prog world A := Atom f Ret.

(** A database command: it may fail before or after taking effect. *)
Definition apply_fault {A} (f : world → world * (exn + A)) (w : world) : world * (exn + A) :=
  match faults w with
  | [] => f w
  | None :: fs => f (w <| faults := fs |>)
  | Some x :: fs =>
    let w1 := w <| faults := fs |> in
    ((if fl_applied x then (f w1).1 else w1), inl (fault_exn x))
  end.
Definition from_result {A} (r : exn + A) : prog world A :=
  match r with inl e => Throw e | inr a => Ret a end.
Definition store_op {A} (f : world → world * (exn + A)) : prog world A :=
  Atom (apply_fault f) from_result.

Definition duplicate_key : exn := DriverError (Some 11000) "E11000 duplicate key error".

Section commands.
Context {D : Type} {T : Table D}.

Definition find_one (f : D → bool) : prog world (option D) :=
  store_op (λ w, (w, inr (m_find_one f (tbl w)))).
Definition find_all (f : D → bool) : prog world (list D) :=
  store_op (λ w, (w, inr (m_find f (tbl w)))).
(** [find(f).sort({ key: 1 })] and [findOne(f).sort({ key: 1 })]; a descending
    sort has the opposite key. *)
Definition find_sorted (key : D → Z) (f : D → bool) : prog world (list D) :=
  store_op (λ w, (w, inr (m_find_sorted key f (tbl w)))).
Definition find_least (key : D → Z) (f : D → bool) : prog world (option D) :=
  store_op (λ w, (w, inr (m_find_least key f (tbl w)))).
Definition count_documents (f : D → bool) : prog world Z :=
  store_op (λ w, (w, inr (Z.of_nat (m_count f (tbl w))))).
Definition insert_doc (d : D) (w : world) : world * (exn + ()) :=
  match m_insert clash d (tbl w) with
  | Some c => (upd_tbl (λ _, c) w, inr tt)
  | None => (w, inl duplicate_key)
  end.
Definition create (d : D) : prog world () := store_op (insert_doc d).
Definition update_one (f : D → bool) (u : D → D) : prog world () :=
  store_op (λ w, (upd_tbl (m_update_one f u) w, inr tt)).
Definition update_many (f : D → bool) (u : D → D) : prog world () :=
  store_op (λ w, (upd_tbl (m_update_many f u) w, inr tt)).
(** [findOneAndUpdate(f, u, { new: true })]. *)
Definition find_one_and_update (f : D → bool) (u : D → D) : prog world (option D) :=
  store_op (λ w, (upd_tbl (m_update_one f u) w, inr (option_map u (m_find_one f (tbl w))))).
(** [findOneAndUpdate(f, u, { new: true, upsert: true })], inserting [d]. *)
Definition find_one_and_upsert (f : D → bool) (u : D → D) (d : D) : prog world D :=
  store_op (λ w, match m_find_one f (tbl w) with
                 | Some x => (upd_tbl (m_update_one f u) w, inr (u x))
                 | None => let '(w', r) := insert_doc d w in
                           (w', match r with inl e => inl e | inr _ => inr d end)
                 end).
Definition delete_one (f : D → bool) : prog world () :=
  store_op (λ w, (upd_tbl (m_delete_one f) w, inr tt)).
Definition delete_many (f : D → bool) : prog world () :=
  store_op (λ w, (upd_tbl (m_delete_many f) w, inr tt)).
End commands.

(** The clock, the random source and the delivery adapters. *)
Definition now : prog world Z := act (λ w, (w, clock w)).
Definition draw {A} (f : nat → A) : prog world A :=
  act (λ w, (w <| draws ::= S |>, f (draws w))).
Definition sleep (ms : Z) : prog world () := act (λ w, (w <| clock ::= Z.add ms |>, tt)).
Definition deliver (d : delivery) : prog world () :=
  store_op (λ w, (w <| outbox ::= cons d |>, inr tt)).

(** The cache; its operations do not throw. *)
Definition redis_get (k : string) : prog world (option string) :=
  act (λ w, let '(c, r) := cache_get k (clock w) (redis w) in (w <| redis := c |>, r)).
Definition redis_set (k v : string) (ttl : option Z) : prog world () :=
  act (λ w, (w <| redis ::= cache_set k v ttl (clock w) |>, tt)).
Definition redis_del (k : string) : prog world () :=
  act (λ w, (w <| redis ::= cache_del k |>, tt)).
Definition redis_incrementAndExpire (k : string) (ttl : Z) : prog world (option Z) :=
  act (λ w, let '(c, r) := cache_incrementAndExpire k ttl (clock w) (redis w) in
            (w <| redis := c |>, r)).
(** The challenge map of the process. *)
Definition challenges (f : list (string * WebAuthnChallenge) → list (string * WebAuthnChallenge)) : prog world () :=
  act (λ w, (w <| challengeStore ::= f |>, tt)).

Definition redis_ready : prog world bool := act (λ w, (w, cache_ready (clock w) (redis w))).

(** [session.withTransaction(body)] of the driver: the body runs against a
    snapshot nobody else touches; when it throws, or when the commit fails, no
    write of it persists. *)
Definition in_transaction {A} (body : prog world A) : prog world A :=
  Atom (λ w, match run body w with
             | (w', inl e) => (rollback w w', inl e)
             | (w', inr a) =>
               match faults w' with
               | Some x :: fs =>
                 let w2 := w' <| faults := fs |> in
                 ((if fl_applied x then w2 else rollback w w2), inl (fault_exn x))
               | None :: fs => (w' <| faults := fs |>, inr a)
               | [] => (w', inr a)
               end
             end) from_result.

(** ** Running commands *)
Definition healthy (w : world) : Prop := faults w = [].

Lemma run_act {A} (f : world → world * A) w : run (act f) w = ((f w).1, inr (f w).2).
Proof. cbn. by destruct (f w). Qed.

Lemma run_store_op {A} (f : world → world * (exn + A)) w :
  run (store_op f) w = apply_fault f w.
Proof. unfold store_op. cbn. by destruct (apply_fault f w) as [w' [e|a]]. Qed.

Lemma run_from_result {A} (r : exn + A) w : run (from_result r) w = (w, r).
Proof. by destruct r. Qed.

Lemma run_store_op_healthy {A} (f : world → world * (exn + A)) w :
  healthy w → run (store_op f) w = f w.
Proof. intros H. rewrite run_store_op. unfold apply_fault. by rewrite H. Qed.

(** A command that returns took effect on some world that only differs in the
    faults to come. *)
Lemma run_store_op_ok {A} (f : world → world * (exn + A)) w w' a :
  run (store_op f) w = (w', inr a) →
  ∃ fs, f (w <| faults := fs |>) = (w', inr a) ∧ (healthy w → fs = []).
Proof.
  rewrite run_store_op. unfold apply_fault. destruct (faults w) as [|[x|] fs] eqn:E.
  - intros H. exists []. split; [|done]. rewrite <- E. by destruct w.
  - by intros [= _].
  - intros H. exists fs. split; [done|]. unfold healthy. congruence.
Qed.

Lemma run_in_transaction {A} (body : prog world A) w :
  run (in_transaction body) w =
  match run body w with
  | (w', inl e) => (rollback w w', inl e)
  | (w', inr a) =>
    match faults w' with
    | Some x :: fs =>
      let w2 := w' <| faults := fs |> in
      ((if fl_applied x then w2 else rollback w w2), inl (fault_exn x))
    | None :: fs => (w' <| faults := fs |>, inr a)
    | [] => (w', inr a)
    end
  end.
Proof.
  unfold in_transaction. cbn. destruct (run body w) as [w' [e|a]]; [done|].
  by destruct (faults w') as [|[x|] fs].
Qed.

(** *** Healthy commands *)
Section healthy_commands.
Context {D : Type} {T : Table D}.
Implicit Types (f : D → bool) (u : D → D).

Lemma run_find_one f w :
  healthy w → run (find_one f) w = (w, inr (List.find f (docs (tbl w)))).
Proof. intros H. unfold find_one. by rewrite run_store_op_healthy, m_find_one_law. Qed.
Lemma run_find_all f w :
  healthy w → run (find_all f) w = (w, inr (List.filter f (docs (tbl w)))).
Proof. intros H. unfold find_all. by rewrite run_store_op_healthy, m_find_law. Qed.
Lemma run_find_sorted key f w :
  healthy w → run (find_sorted key f) w = (w, inr (m_find_sorted key f (tbl w))).
Proof. intros H. unfold find_sorted. by rewrite run_store_op_healthy. Qed.
Lemma run_find_least key f w :
  healthy w → run (find_least key f) w = (w, inr (m_find_least key f (tbl w))).
Proof. intros H. unfold find_least. by rewrite run_store_op_healthy. Qed.
Lemma run_count_documents f w :
  healthy w → run (count_documents f) w = (w, inr (Z.of_nat (count f (docs (tbl w))))).
Proof. intros H. unfold count_documents. by rewrite run_store_op_healthy, m_count_law. Qed.
Lemma run_update_one f u w :
  healthy w → run (update_one f u) w = (upd_tbl (m_update_one f u) w, inr tt).
Proof. intros H. unfold update_one. by rewrite run_store_op_healthy. Qed.
Lemma run_update_many f u w :
  healthy w → run (update_many f u) w = (upd_tbl (m_update_many f u) w, inr tt).
Proof. intros H. unfold update_many. by rewrite run_store_op_healthy. Qed.
Lemma run_find_one_and_update f u w :
  healthy w → run (find_one_and_update f u) w =
  (upd_tbl (m_update_one f u) w, inr (option_map u (List.find f (docs (tbl w))))).
Proof. intros H. unfold find_one_and_update. by rewrite run_store_op_healthy, m_find_one_law. Qed.
Lemma run_delete_one f w :
  healthy w → run (delete_one f) w = (upd_tbl (m_delete_one f) w, inr tt).
Proof. intros H. unfold delete_one. by rewrite run_store_op_healthy. Qed.
Lemma run_delete_many f w :
  healthy w → run (delete_many f) w = (upd_tbl (m_delete_many f) w, inr tt).
Proof. intros H. unfold delete_many. by rewrite run_store_op_healthy. Qed.
Lemma run_create d w :
  healthy w → existsb (clash d) (docs (tbl w)) = false →
  ∃ c, run (create d) w = (upd_tbl (λ _, c) w, inr tt) ∧ inserted d (docs (tbl w)) (docs c).
Proof.
  intros H Hc. unfold create. rewrite run_store_op_healthy by done. unfold insert_doc.
  pose proof (m_insert_law clash d (tbl w)) as Hi.
  destruct (m_insert clash d (tbl w)) as [c|]; [|congruence]. exists c. split; [done|apply Hi].
Qed.
Lemma run_create_clash d w :
  healthy w → existsb (clash d) (docs (tbl w)) = true →
  run (create d) w = (w, inl duplicate_key).
Proof.
  intros H Hc. unfold create. rewrite run_store_op_healthy by done. unfold insert_doc.
  pose proof (m_insert_law clash d (tbl w)) as Hi.
  destruct (m_insert clash d (tbl w)) as [c|]; [|done]. destruct Hi. congruence.
Qed.
Lemma run_find_one_and_upsert f u d w :
  healthy w → (List.find f (docs (tbl w)) = None → existsb (clash d) (docs (tbl w)) = false) →
  ∃ c, run (find_one_and_upsert f u d) w =
      (upd_tbl (λ _, c) w, inr (match List.find f (docs (tbl w)) with Some x => u x | None => d end)) ∧
    match List.find f (docs (tbl w)) with
    | Some _ => docs c = alter_first f u (docs (tbl w))
    | None => inserted d (docs (tbl w)) (docs c)
    end.
Proof.
  intros H Hc. unfold find_one_and_upsert. rewrite run_store_op_healthy, m_find_one_law by done.
  destruct (List.find f (docs (tbl w))) as [x|].
  - exists (m_update_one f u (tbl w)). rewrite m_update_one_law. split; [|done].
    by rewrite upd_tbl_const.
  - unfold insert_doc. pose proof (m_insert_law clash d (tbl w)) as Hi. specialize (Hc eq_refl).
    destruct (m_insert clash d (tbl w)) as [c|]; [|congruence]. exists c. split; [done|apply Hi].
Qed.
End healthy_commands.

Lemma run_now w : run now w = (w, inr (clock w)).
Proof. done. Qed.
Lemma run_draw {A} (f : nat → A) w : run (draw f) w = (w <| draws ::= S |>, inr (f (draws w))).
Proof. done. Qed.
Lemma run_redis_set k v ttl w :
  run (redis_set k v ttl) w = (w <| redis ::= cache_set k v ttl (clock w) |>, inr tt).
Proof. done. Qed.
Lemma run_redis_del k w : run (redis_del k) w = (w <| redis ::= cache_del k |>, inr tt).
Proof. done. Qed.
Lemma run_redis_get k w :
  run (redis_get k) w = (w <| redis := (cache_get k (clock w) (redis w)).1 |>,
                         inr (cache_get k (clock w) (redis w)).2).
Proof. unfold redis_get, act. cbn. by destruct (cache_get k (clock w) (redis w)). Qed.

(** ** Commands in concurrent runs *)
Lemma apply_fault_step {A} (R : world → world → Prop) (f : world → world * (exn + A)) w :
  (∀ w x fs, faults w = x :: fs → R w (w <| faults := fs |>)) → Transitive R → (∀ w, R w (f w).1) →
  R w (apply_fault f w).1.
Proof.
  intros Hfs Ht Hf. unfold apply_fault. destruct (faults w) as [|[x|] fs] eqn:Hx; cbn; [done| |].
  - destruct (fl_applied x); [|by eapply Hfs]. etrans; [by eapply Hfs|apply Hf].
  - etrans; [by eapply Hfs|apply Hf].
Qed.

(** A command that may take from the resource. *)
Lemma pays_store_op (I : world → Prop) (credit : world → nat) {A} n
    (f : world → world * (exn + A)) (Φ : exn + A → nat → Prop) :
  (∀ w fs, (I w → I (w <| faults := fs |>)) ∧ credit (w <| faults := fs |>) = credit w) →
  (∀ w, I w → I (f w).1 ∧ ∃ n', (credit (f w).1 + n' ≤ credit w + n)%nat ∧ Φ (f w).2 n') →
  (∀ e m, Φ (inl e) m) → pays I credit n (store_op f) Φ.
Proof.
  intros Hfs Hf He w Hw. unfold apply_fault.
  assert (∀ r m, Φ r m → pays I credit m (from_result r) Φ) as Hr by (by intros [e|a] m).
  destruct (faults w) as [|[x|] fs].
  - destruct (Hf w Hw) as (HI & n' & Hle & HΦ). split; [done|]. exists n'. auto.
  - destruct (Hfs w fs) as [HI Hc]. specialize (HI Hw). cbn [fst snd]. destruct (fl_applied x).
    + destruct (Hf _ HI) as (HI' & n' & Hle & _). split; [done|]. exists n'. rewrite Hc in Hle.
      split; [done|]. apply He.
    + split; [done|]. exists n. rewrite Hc. split; [done|]. apply He.
  - destruct (Hfs w fs) as [HI Hc]. destruct (Hf _ (HI Hw)) as (HI' & n' & Hle & HΦ).
    split; [done|]. exists n'. rewrite Hc in Hle. auto.
Qed.

(** Guarantees of the commands: [R] is a preorder that a change of [faults]
    satisfies. *)
Section guarantees.
Context (R : world → world → Prop) `{!PreOrder R}
  (R_faults : ∀ w x fs, faults w = x :: fs → R w (w <| faults := fs |>)).

Lemma guarantee_act {A} (f : world → world * A) :
  (∀ w, R w (f w).1) → guarantee R (act f).
Proof. done. Qed.

Lemma guarantee_store_op {A} (f : world → world * (exn + A)) :
  (∀ w, R w (f w).1) → guarantee R (store_op f).
Proof.
  intros Hf. split; [|by intros [e|a]]. intros w. apply apply_fault_step; [done|apply _|done].
Qed.

Lemma guarantee_read {A} (f : world → exn + A) : guarantee R (store_op (λ w, (w, f w))).
Proof. by apply guarantee_store_op. Qed.

Lemma guarantee_in_transaction {A} (body : prog world A) :
  guarantee R body → (∀ w w', R w w' → R w (rollback w w')) → guarantee R (in_transaction body).
Proof.
  intros Hb Hrb. split; [|by intros [e|a]]. intros w.
  pose proof (guarantee_run R body w Hb) as Hr. destruct (run body w) as [w' [e|a]]; cbn in *.
  - by apply Hrb.
  - destruct (faults w') as [|[x|] fs] eqn:Hx; cbn; [done| |].
    2:{ etrans; [exact Hr|by eapply R_faults]. }
    assert (R w (w' <| faults := fs |>)) by (etrans; [exact Hr|by eapply R_faults]).
    destruct (fl_applied x); [done|]. by apply Hrb.
Qed.
End guarantees.
End world.

Arguments world P : clear implicits.

(** Walk through a program whose commands have hints in [guarantee_db]. *)
Ltac solve_guarantee := intros; repeat first
  [ apply guarantee_bind; [|intros ?] | apply guarantee_throw_if | apply guarantee_ret
  | apply guarantee_throw | apply guarantee_for_each; intros ?
  | case_match | solve [eauto 4 with guarantee_db] ].

(** Run the next command of a program on a healthy world. *)
Ltac healthy_ok := first [assumption | done | unfold healthy in *; cbn; assumption].
Ltac run_step :=
  rewrite ?run_bind;
  first
  [ rewrite run_now | rewrite run_draw | rewrite run_from_result | rewrite run_throw_if | rewrite run_ret
  | rewrite run_redis_set | rewrite run_redis_del | rewrite run_redis_get
  | rewrite run_find_one by healthy_ok | rewrite run_find_all by healthy_ok
  | rewrite run_find_sorted by healthy_ok | rewrite run_find_least by healthy_ok
  | rewrite run_count_documents by healthy_ok | rewrite run_update_one by healthy_ok
  | rewrite run_update_many by healthy_ok | rewrite run_find_one_and_update by healthy_ok
  | rewrite run_delete_one by healthy_ok | rewrite run_delete_many by healthy_ok ].

(** ** Commands that returned *)
Section returned_commands.
Context {P : Platform}.

Lemma run_find_one_ok {D} {T : Table D} f (w w' : world P) r :
  run (find_one f) w = (w', inr r) →
  r = List.find f (docs (tbl w)) ∧ ∃ fs, w' = w <| faults := fs |> ∧ (healthy w → fs = []).
Proof.
  intros (fs & Hf & Hhe)%run_store_op_ok. rewrite m_find_one_law in Hf. injection Hf as <- <-.
  rewrite (tbl_frame w (w <| faults := fs |>)) by done. eauto.
Qed.

Lemma run_create_ok {D} {T : Table D} d (w w' : world P) u :
  run (create d) w = (w', inr u) →
  inserted d (docs (tbl w)) (docs (tbl w')) ∧ existsb (clash d) (docs (tbl w)) = false ∧
  ∃ c fs, w' = upd_tbl (λ _, c) (w <| faults := fs |>).
Proof.
  intros (fs & Hf & _)%run_store_op_ok. unfold insert_doc in Hf.
  pose proof (m_insert_law clash d (tbl (w <| faults := fs |>))) as Hi.
  destruct (m_insert clash d (tbl (w <| faults := fs |>))) as [c|]; [|done].
  injection Hf as <- _. rewrite tbl_upd. rewrite (tbl_frame w (w <| faults := fs |>)) in Hi by done.
  destruct Hi. eauto 6.
Qed.

Lemma run_update_one_ok {D} {T : Table D} f u (w w' : world P) r :
  run (update_one f u) w = (w', inr r) → ∃ fs, w' = upd_tbl (m_update_one f u) (w <| faults := fs |>) ∧ (healthy w → fs = []).
Proof. intros (fs & Hf & Hhe)%run_store_op_ok. injection Hf as <-. eauto. Qed.
End returned_commands.

(** Split a successful run into that of its first step and that of the rest. *)
Ltac first_step H w a Ha := apply run_bind_ok in H as (w & a & Ha & H).
