(* ===== verification/Stock.v ===== *)
(** * Stocks of live documents

    Single-use proofs share one resource: the number of stored documents that
    can still be redeemed.  [stock live] counts them; what the commands do to the
    stock is a hint of [guarantee_db], so that a handler's guarantee is found by
    the tactic [solve_guarantee]. *)

From S2P Require Export World.

Section stock.
Context {P : Platform} {D : Type} {T : Table D} (live : D → bool) (n0 : nat).

Definition stock (w : world P) : nat := count live (docs (tbl w)).

(** At least [n0] random draws have been made. *)
Definition drawn (w : world P) : Prop := (n0 ≤ draws w)%nat.

(** An update no dead document comes back to life by. *)
Definition never_revives (u : D → D) : Prop := ∀ d, live (u d) = true → live d = true.

(** What may happen besides the requests: the TTL monitor deletes documents, the
    clock moves, caches and other collections change, commands start failing. *)
Definition expiry_env (w w' : world P) : Prop :=
  (draws w ≤ draws w')%nat ∧ ∃ kept, docs (tbl w') = List.filter kept (docs (tbl w)).

Lemma stock_env w w' : expiry_env w w' → keeps drawn stock w w'.
Proof.
  intros [Hd [kept Hk]] Hw. unfold drawn, stock in *. split; [lia|]. rewrite Hk. apply count_filter_le.
Qed.

Lemma stock_other w w' : tbl w' = tbl w → (draws w ≤ draws w')%nat → keeps drawn stock w w'.
Proof. unfold keeps, drawn, stock. intros -> Hd Hw. split; [lia|done]. Qed.

Lemma stock_store w w' : store w' = store w → (draws w ≤ draws w')%nat → keeps drawn stock w w'.
Proof. intros H. apply stock_other. by apply tbl_frame. Qed.

Lemma stock_faults (w : world P) x fs : faults w = x :: fs → keeps drawn stock w (w <| faults := fs |>).
Proof. intros _. by apply stock_store. Qed.

Lemma stock_rollback (w w' : world P) : keeps drawn stock w w' → keeps drawn stock w (rollback w w').
Proof.
  intros H Hw. destruct (H Hw) as [Hd _]. split; [done|]. unfold stock. by rewrite (tbl_frame w (rollback w w')).
Qed.

Lemma stock_upd (w : world P) f :
  (count live (docs (f (tbl w))) ≤ count live (docs (tbl w)))%nat →
  draws (upd_tbl f w) = draws w → keeps drawn stock w (upd_tbl f w).
Proof. intros Hc Hd Hw. unfold drawn, stock in *. by rewrite Hd, tbl_upd. Qed.

Lemma stock_op {A} (f : world P → world P * (exn + A)) :
  (∀ w, keeps drawn stock w (f w).1) → guarantee (keeps drawn stock) (store_op f).
Proof. apply guarantee_store_op; [apply _|apply stock_faults]. Qed.

Lemma g_read {A} (f : world P → exn + A) : guarantee (keeps drawn stock) (store_op (λ w, (w, f w))).
Proof. by apply stock_op. Qed.

Lemma g_update_one f u : never_revives u → guarantee (keeps drawn stock) (update_one f u).
Proof.
  intros Hu. apply stock_op. intros w. apply stock_upd; [|apply draws_upd].
  rewrite m_update_one_law. apply count_alter_first_le. auto.
Qed.
Lemma g_update_many f u : never_revives u → guarantee (keeps drawn stock) (update_many f u).
Proof.
  intros Hu. apply stock_op. intros w. apply stock_upd; [|apply draws_upd].
  rewrite m_update_many_law. apply count_alter_all_le. auto.
Qed.
Lemma g_find_one_and_update f u : never_revives u → guarantee (keeps drawn stock) (find_one_and_update f u).
Proof.
  intros Hu. apply stock_op. intros w. apply stock_upd; [|apply draws_upd].
  rewrite m_update_one_law. apply count_alter_first_le. auto.
Qed.
Lemma g_delete_one f : guarantee (keeps drawn stock) (delete_one f).
Proof.
  apply stock_op. intros w. apply stock_upd; [|apply draws_upd].
  rewrite m_delete_one_law. apply count_remove_first_le.
Qed.
Lemma g_delete_many f : guarantee (keeps drawn stock) (delete_many f).
Proof.
  apply stock_op. intros w. apply stock_upd; [|apply draws_upd].
  rewrite m_delete_many_law. apply count_filter_le.
Qed.
Lemma stock_insert (w : world P) d : live d = false → keeps drawn stock w (insert_doc d w).1.
Proof.
  intros Hd. unfold insert_doc. pose proof (m_insert_law clash d (tbl w)) as Hi.
  destruct (m_insert clash d (tbl w)) as [c|]; [|done]. destruct Hi as [_ Hi]. cbn [fst].
  apply stock_upd; [|apply draws_upd]. by rewrite (inserted_count _ _ _ _ Hi), Hd.
Qed.
Lemma g_create d : live d = false → guarantee (keeps drawn stock) (create d).
Proof. intros Hd. apply stock_op. intros w. by apply stock_insert. Qed.
Lemma g_now : guarantee (keeps drawn stock) now.
Proof. apply guarantee_act. intros w. by apply stock_store. Qed.
Lemma g_draw {A} (f : nat → A) : guarantee (keeps drawn stock) (draw f).
Proof. apply guarantee_act. intros w. apply stock_store; [done|]. cbn. lia. Qed.
Lemma g_redis_set k v ttl : guarantee (keeps drawn stock) (redis_set k v ttl).
Proof. apply guarantee_act. intros w. by apply stock_store. Qed.
Lemma g_redis_del k : guarantee (keeps drawn stock) (redis_del k).
Proof. apply guarantee_act. intros w. by apply stock_store. Qed.
Lemma g_redis_get k : guarantee (keeps drawn stock) (redis_get k).
Proof. apply guarantee_act. intros w. destruct (cache_get _ _ _). by apply stock_store. Qed.

(** The redeeming update is paid for with the live document it takes. *)
Lemma pays_redeem f u :
  (∀ d, f d = true → live d = true) → (∀ d, live (u d) = false) →
  pays drawn stock 0 (find_one_and_update f u)
    (λ r m, match r with inr (Some _) => (1 ≤ m)%nat | _ => True end).
Proof.
  intros Hf Hu. apply pays_store_op; [| |by intros e m].
  - intros w fs. split; [done|]. unfold stock. by rewrite (tbl_frame w (w <| faults := fs |>)).
  - intros w Hw. cbn [fst snd]. unfold drawn, stock in *. rewrite tbl_upd, draws_upd.
    rewrite m_find_one_law, m_update_one_law. split; [done|].
    destruct (List.find f (docs (tbl w))) as [d|] eqn:Hd.
    + exists 1%nat. split; [|cbn; lia]. pose proof (find_split _ _ _ Hd) as [Hc _].
      pose proof (count_alter_first _ u live _ _ Hd) as Hcount.
      rewrite (Hf d Hc), (Hu d) in Hcount. lia.
    + exists 0%nat. by rewrite alter_first_none.
Qed.

(** Under a unique key that live documents share there is at most one. *)
Lemma stock_unique {K} (key : D → K) k w :
  unique_key key (docs (tbl w)) → (∀ d, live d = true → key d = k) →
  (stock w ≤ if existsb live (docs (tbl w)) then 1 else 0)%nat.
Proof.
  unfold stock. intros Hu Hk. induction (docs (tbl w)) as [|d l IH]; [done|].
  apply unique_key_cons in Hu as [Hu Hd]. specialize (IH Hu). rewrite count_cons. cbn [existsb].
  destruct (live d) eqn:Hl; [|done]. cbn.
  assert (count live l = 0)%nat as ->; [|done]. apply count_zero.
  destruct (List.find live l) as [x|] eqn:Hx; [|done]. apply find_some in Hx as [Hin Hx].
  destruct (Hd x Hin). rewrite (Hk d), (Hk x); done.
Qed.

(** The pool rule for a single-use resource. *)
Lemma single_use {A K} (win : A → bool) (key : D → K) k w w' (ps ps' : list (prog (world P) A)) :
  drawn w → unique_key key (docs (tbl w)) → (∀ d, live d = true → key d = k) →
  (∀ p, In p ps → pays drawn stock 0 p (won win)) →
  reachable expiry_env (w, ps) (w', ps') →
  (winners win ps' ≤ if existsb live (docs (tbl w)) then 1 else 0)%nat.
Proof.
  intros Hw Hu Hk Hps Hr. etrans; [|by eapply stock_unique].
  apply (winners_bounded drawn stock expiry_env win stock_env w w' ps ps' Hw); [|done].
  by apply List.Forall_forall.
Qed.
End stock.
Arguments expiry_env {P} D {T}.

#[export] Hint Resolve g_read g_update_one g_update_many g_find_one_and_update g_delete_one
  g_delete_many g_create g_now g_draw g_redis_set g_redis_del g_redis_get : guarantee_db.
