(* ===== verification/Transactions.v ===== *)
(** * Transactions

    [packages/core/src/services/infrastructure/mongo-transactions.ts]: the
    retrying transaction wrapper, shared by the audit service, and its near-copy
    in [session.service.ts], which classifies errors differently. *)

From S2P Require Export World.

(** [/session|topology|close|network|socket/i.test(message)]. *)
Definition TRANSIENT_ERROR_REGEX (message : string) : bool :=
  existsb (λ p, includes p (js_lower message))
    ["session"; "topology"; "close"; "network"; "socket"]%string.

Definition TRANSIENT_ERROR_CODES : list Z := [112; 245; 262; 249; 251; 24; 103; 116; 133; 13].

(** [isTransientTransactionError] of [mongo-transactions.ts]: an unknown code
    still falls through to the message. *)
Definition isTransientTransactionError (err : exn) : bool :=
  match err with
  | DriverError (Some code) _ => bool_decide (code ∈ TRANSIENT_ERROR_CODES)
  | _ => false
  end || TRANSIENT_ERROR_REGEX (err_message err).

(** The copy in [session.service.ts]: an error with a code is decided by it. *)
Definition session_isTransientTransactionError (err : exn) : bool :=
  match err with
  | DriverError (Some code) _ => bool_decide (code ∈ TRANSIENT_ERROR_CODES)
  | Pezhwan _ => false
  | _ => TRANSIENT_ERROR_REGEX (err_message err)
  end.

Section transactions.
Context {P : Platform}.

Definition transactionsSupported : prog (world P) bool := act (λ w, (w, transactional w)).
Definition startSession : prog (world P) () := store_op (λ w, (w, inr tt)).

Record TransactionOptions := mkTransactionOptions {
  maxAttempts : nat; baseDelayMs : Z; isNonRetryable : exn → bool; isTransient : exn → bool }.

(** The retry loop; [work true] runs inside a transaction, [work false] is
    [work(null)]. *)
Fixpoint attempts {A} (fuel : nat) (attempt : nat) (work : bool → prog (world P) A)
    (o : TransactionOptions) : prog (world P) A :=
  match fuel with
  | O => work false
  | S fuel' =>
    out ← try_catch
      (startSession ;; a ← in_transaction (work true); mret (Some a))
      (λ err,
        if isNonRetryable o err then Throw err
        else if (maxAttempts o <=? attempt)%nat || negb (isTransient o err) then
          if (maxAttempts o <=? attempt)%nat && negb (isTransient o err) then
            a ← work false; mret (Some a)
          else Throw err
        else mret None);
    match out with
    | Some a => mret a
    | None => sleep (baseDelayMs o * 2 ^ (Z.of_nat attempt - 1)) ;; attempts fuel' (S attempt) work o
    end
  end.

Definition withTransaction {A} (work : bool → prog (world P) A) (o : TransactionOptions) :
    prog (world P) A :=
  supported ← transactionsSupported;
  if negb supported then work false else attempts (maxAttempts o) 1 work o.

(** ** What holds of every command of the body holds of the wrapper *)
Section guarantee.
Context (R : world P → world P → Prop) `{!PreOrder R}
  (R_faults : ∀ w x fs, faults w = x :: fs → R w (w <| faults := fs |>))
  (R_clock : ∀ w ms, 0 <= ms → R w (w <| clock ::= Z.add ms |>))
  (R_rollback : ∀ w w', R w w' → R w (rollback w w')).

Lemma guarantee_attempts {A} fuel n (work : bool → prog (world P) A) o :
  0 <= baseDelayMs o → (∀ b, guarantee R (work b)) → guarantee R (attempts fuel n work o).
Proof.
  intros Hms Hw. revert n. induction fuel as [|fuel IH]; intros n; cbn [attempts]; [apply Hw|].
  apply guarantee_bind; [apply guarantee_catch|].
  - apply guarantee_bind; [by apply guarantee_read|]. intros _.
    apply guarantee_bind; [by apply guarantee_in_transaction|]. done.
  - intros e. destruct (isNonRetryable o e); [done|]. destruct (_ || _); [|done].
    destruct (_ && _); [|done]. by apply guarantee_bind.
  - intros [a|]; [done|]. apply guarantee_bind; [apply guarantee_act; intros w; apply R_clock|].
    { apply Z.mul_nonneg_nonneg; [done|]. apply Z.pow_nonneg. lia. }
    intros _. apply IH.
Qed.

Lemma guarantee_withTransaction {A} (work : bool → prog (world P) A) o :
  0 <= baseDelayMs o → (∀ b, guarantee R (work b)) → guarantee R (withTransaction work o).
Proof.
  intros Hms Hw. unfold withTransaction. apply guarantee_bind; [apply guarantee_act; intros w; reflexivity|].
  intros [|]; cbn; [by apply guarantee_attempts|apply Hw].
Qed.
End guarantee.

(** ** Sequential behaviour *)
Lemma withTransaction_standalone {A} (work : bool → prog (world P) A) o w :
  transactional w = false → run (withTransaction work o) w = run (work false) w.
Proof. intros Hw. unfold withTransaction. rewrite run_bind. cbn. by rewrite Hw. Qed.

(** On a healthy replica set the body commits at the first attempt. *)
Lemma withTransaction_commits {A} (work : bool → prog (world P) A) o w w' a :
  transactional w = true → healthy w → (0 < maxAttempts o)%nat →
  run (work true) w = (w', inr a) → healthy w' →
  run (withTransaction work o) w = (w', inr a).
Proof.
  intros Ht Hh Hm Hw Hh'. unfold withTransaction. rewrite run_bind. cbn [run transactionsSupported act].
  rewrite Ht. cbn [negb]. destruct (maxAttempts o) as [|n]; [lia|]. cbn [attempts].
  rewrite run_bind, run_catch, run_bind. unfold startSession. rewrite run_store_op_healthy by done.
  rewrite run_bind, run_in_transaction, Hw, Hh'. done.
Qed.

(** The world the body runs in after [k] transactions could not be started. *)
Definition after_backoff (o : TransactionOptions) (k n : nat) (w : world P) : world P :=
  w <| faults := [] |> <| clock ::= Z.add (baseDelayMs o * (2 ^ Z.of_nat (k + n) - 2 ^ Z.of_nat n)) |>.

Lemma after_backoff_0 o n w : healthy w → after_backoff o 0 n w = w.
Proof.
  intros Hh. unfold after_backoff. cbn [Nat.add]. rewrite Z.sub_diag, Z.mul_0_r. unfold healthy in Hh.
  destruct w. cbn in *. by rewrite <- Hh.
Qed.
Lemma after_backoff_S o k n w fs :
  after_backoff o k (S n) (w <| faults := fs |> <| clock ::= Z.add (baseDelayMs o * 2 ^ Z.of_nat n) |>) =
  after_backoff o (S k) n w.
Proof.
  unfold after_backoff. destruct w as [? ? ? ? ? ? ? ? ? ? ? ? ? ? ? ? ? ? ? ? c]. unfold set_field. cbv beta. cbn -[Z.of_nat Z.add Z.mul Z.pow].
  f_equal. rewrite Z.add_assoc. f_equal.
  replace (k + S n)%nat with (S (k + n)) by lia. replace (S k + n)%nat with (S (k + n)) by lia.
  rewrite (Nat2Z.inj_succ n), (Z.pow_succ_r 2 (Z.of_nat n)) by lia. ring.
Qed.

Lemma run_attempts {A} fuel n k (work : bool → prog (world P) A) o x w :
  (k < fuel)%nat → (n + fuel = maxAttempts o)%nat → faults w = replicate k (Some x) →
  isNonRetryable o (fault_exn x) = false → isTransient o (fault_exn x) = true →
  (∀ w' a, run (work true) (after_backoff o k n w) = (w', inr a) → healthy w' →
     run (attempts fuel (S n) work o) w = (w', inr a)) ∧
  (∀ w' e, run (work true) (after_backoff o k n w) = (w', inl e) → isNonRetryable o e = true →
     run (attempts fuel (S n) work o) w = (rollback (after_backoff o k n w) w', inl e)).
Proof.
  revert fuel n w. induction k as [|k IH]; intros [|fuel] n w Hf Hm Hw Hx Hx'; try lia.
  - rewrite after_backoff_0 by done. cbn [attempts]. split.
    + intros w' a Hr Hh. rewrite run_bind, run_catch, run_bind. unfold startSession.
      rewrite run_store_op_healthy by done. by rewrite run_bind, run_in_transaction, Hr, Hh.
    + intros w' e Hr He. rewrite run_bind, run_catch, run_bind. unfold startSession.
      rewrite run_store_op_healthy by done. by rewrite run_bind, run_in_transaction, Hr, He.
  - cbn [attempts]. rewrite run_bind, run_catch, run_bind. unfold startSession.
    rewrite run_store_op. unfold apply_fault. cbn [replicate] in Hw. rewrite Hw. cbn [fst].
    replace (if fl_applied x then w <| faults := replicate k (Some x) |> else w <| faults := replicate k (Some x) |>)
      with (w <| faults := replicate k (Some x) |>) by (by destruct (fl_applied x)).
    rewrite Hx, Hx', (proj2 (Nat.leb_gt _ _)) by lia. cbn [orb negb]. rewrite run_ret, run_bind.
    cbn [run sleep act]. replace (Z.of_nat (S n) - 1) with (Z.of_nat n) by lia.
    rewrite <- (after_backoff_S o k n w (replicate k (Some x))).
    apply IH; [lia|lia|done..].
Qed.

(** Concurrently, on a healthy replica set: a body that keeps an invariant when
    it runs alone keeps it as a transaction. *)
Lemma safe_withTransaction {A} (I : world P → Prop) (work : bool → prog (world P) A) o :
  (0 < maxAttempts o)%nat →
  (∀ w, I w → transactional w = true ∧ healthy w ∧
     ∃ w' a, run (work true) w = (w', inr a) ∧ healthy w' ∧ I w') →
  harmless I (λ _, 0%nat) (withTransaction work o).
Proof.
  intros Hm Hw. unfold withTransaction. apply pays_bind, pays_atom. intros w HI. split; [done|].
  exists 0%nat. split; [done|]. destruct (Hw w HI) as (Ht & _). cbn [fst snd pays]. rewrite Ht.
  clear w HI Ht. cbn [negb]. destruct (maxAttempts o) as [|n]; [lia|]. cbn [attempts].
  generalize (λ err : exn, if isNonRetryable o err then Throw err
     else if (maxAttempts o <=? 1)%nat || negb (isTransient o err) then
       if (maxAttempts o <=? 1)%nat && negb (isTransient o err) then a ← work false; mret (Some a)
       else Throw err
     else mret None). intros h. apply pays_bind, pays_catch, pays_bind, pays_atom.
  intros w HI. destruct (Hw w HI) as (_ & Hh & _). split; [unfold apply_fault; by rewrite Hh|].
  exists 0%nat. split; [done|]. unfold apply_fault. rewrite Hh. cbn [fst snd from_result pays].
  clear w HI Hh. apply pays_bind, pays_atom. intros w HI.
  destruct (Hw w HI) as (_ & _ & w' & a & -> & Hh' & HI'). unfold healthy in Hh'. rewrite !Hh'. cbn [fst snd from_result pays].
  split; [done|]. by exists 0%nat.
Qed.

(** on a replica set, transactions that cannot be started for a transient reason
    are retried with exponential back-off; the body then runs exactly once, its
    writes are all there when it returns, and none of them is when it throws an
    error the caller marks as final. *)
Theorem withTransaction_retries {A} (work : bool → prog (world P) A) (o : TransactionOptions) (k : nat) (x : fault)
    (w : world P) :
  transactional w = true → (k < maxAttempts o)%nat → faults w = replicate k (Some x) →
  isNonRetryable o (fault_exn x) = false → isTransient o (fault_exn x) = true →
  let start := w <| faults := [] |> <| clock ::= Z.add (baseDelayMs o * (2 ^ Z.of_nat k - 1)) |> in
  (∀ w' a, run (work true) start = (w', inr a) → healthy w' →
     run (withTransaction work o) w = (w', inr a)) ∧
  (∀ w' e, run (work true) start = (w', inl e) → isNonRetryable o e = true →
     run (withTransaction work o) w = (rollback start w', inl e)).
Proof.
  intros Ht Hk Hw Hx Hx' start. unfold withTransaction. rewrite !run_bind. cbn [run transactionsSupported act].
  rewrite Ht. cbn [negb]. pose proof (run_attempts (maxAttempts o) 0 k work o x w Hk eq_refl Hw Hx Hx') as Hr.
  unfold after_backoff in Hr. rewrite Nat.add_0_r in Hr. exact Hr.
Qed.
End transactions.
