(* ===== verification/Tokens.v ===== *)
(** * Token service

    [packages/core/src/services/token.service.ts]: access tokens signed with the
    key store's current key, and opaque refresh tokens of which only the hash is
    stored. *)

From S2P Require Export World.

Section tokens.
Context {P : Platform}.

Record TokenService := mkTokenService {
  ts_issuer : string;
  ts_audience : string;
  ts_accessTokenTtlMs : Z;
  ts_refreshTokenTtlMs : Z;
  ts_algorithm : JwtSigningAlgorithm;
  ts_tokenHashAlgorithm : HashAlgorithm;
}.

Record TokenPair := mkTokenPair { tp_refreshToken : string; tp_refreshTokenHash : string }.

(** What an access token is minted for. *)
Record AccessContext := mkAccessContext {
  ac_userId : string;
  ac_tenantId : string;
  ac_applicationId : string;
  ac_sessionId : string;
  ac_roles : list string;
  ac_permissions : list string;
  ac_authMethod : AuthMethod;
  ac_scope : option string;
  ac_clientId : option string;
  ac_tokenVersion : option Z;
}.

(** The identity a verified token yields; members the service does not
    type-check are the JSON values found in the payload. *)
Record IdentityContext := mkIdentityContext {
  ic_userId : string;
  ic_tenantId : string;
  ic_applicationId : string;
  ic_sessionId : string;
  ic_roles : json;
  ic_permissions : json;
  ic_authMethod : json;
  ic_authenticatedAt : Z;
  ic_tokenVersion : option json;
  ic_scope : option json;
  ic_clientId : option json;
}.

(** An error of the token libraries surfacing as a JavaScript error. *)
Definition jwt_exn (e : jwt_error) : exn :=
  match e with
  | JsonWebTokenError m | TokenExpiredError m | NotBeforeError m | PlainError m => JsError m
  end.
Definition lift_jwt {A} (r : jwt_error + A) : prog (world P) A :=
  match r with inl e => Throw (jwt_exn e) | inr a => mret a end.

(** [store.current], which may add a key. *)
Definition current_key : prog (world P) SigningKey :=
  r ← act (λ w, match KeyStore.current randomUUID (clock w) (draws w) (keyStore w) with
                | inr (s, k) => (w <| keyStore := s |> <| draws ::= S |>, inr k)
                | inl e => (w <| draws ::= S |>, inl e)
                end);
  lift_jwt r.

Definition no_options : SignOptions := mkSignOptions None None.

Definition access_claims (ts : TokenService) (ctx : AccessContext) (key_id : string) (now : Z)
    (jti : string) : list (string * json) :=
  let nowSec := now / 1000 in
  [("sub", JStr (ac_userId ctx)); ("tenantId", JStr (ac_tenantId ctx));
   ("applicationId", JStr (ac_applicationId ctx)); ("sessionId", JStr (ac_sessionId ctx));
   ("roles", JArr (map JStr (ac_roles ctx))); ("permissions", JArr (map JStr (ac_permissions ctx)));
   ("authMethod", JStr (AuthMethod_string (ac_authMethod ctx))); ("kid", JStr key_id);
   ("iss", JStr (ts_issuer ts)); ("aud", JStr (ts_audience ts)); ("iat", JNum nowSec);
   ("exp", JNum (nowSec + ts_accessTokenTtlMs ts / 1000)); ("jti", JStr jti)]%string ++
  opt_field "scope" (option_map JStr (ac_scope ctx)) ++
  opt_field "clientId" (option_map JStr (ac_clientId ctx)) ++
  opt_field "tokenVersion" (option_map JNum (ac_tokenVersion ctx)).

Definition signAccessToken (ts : TokenService) (ctx : AccessContext) : prog (world P) string :=
  t ← now;
  key ← current_key;
  jti ← draw (λ i, to_hex (randomBytes i 16));
  t' ← now;
  lift_jwt (signToken (access_claims ts ctx (kid key) t jti) key no_options t').

Record IdTokenInput := mkIdTokenInput {
  it_userId : string; it_tenantId : string; it_applicationId : string; it_sessionId : string;
  it_nonce : option string; it_scope : string; it_clientId : string }.

Definition signIdToken (ts : TokenService) (input : IdTokenInput) : prog (world P) string :=
  t ← now;
  key ← current_key;
  t' ← now;
  let nowSec := t / 1000 in
  lift_jwt (signToken
    ([("iss", JStr (ts_issuer ts)); ("sub", JStr (it_userId input)); ("aud", JStr (it_clientId input));
      ("iat", JNum nowSec); ("exp", JNum (nowSec + ts_accessTokenTtlMs ts / 1000));
      ("auth_time", JNum nowSec)]%string ++
     opt_field "nonce" (option_map JStr (it_nonce input)) ++
     [("tenantId", JStr (it_tenantId input)); ("applicationId", JStr (it_applicationId input));
      ("sessionId", JStr (it_sessionId input))]%string) key no_options t').

(** [!v] on a header member. *)
Definition falsy (v : option json) : bool :=
  match v with
  | None | Some JNull | Some (JBool false) => true
  | Some (JStr s) => String.eqb s ""
  | Some (JNum n) => n =? 0
  | _ => false
  end.

Definition verify_reason (e : jwt_error) : string :=
  match e with
  | TokenExpiredError _ => "TOKEN_EXPIRED"
  | NotBeforeError _ => "TOKEN_NOT_ACTIVE"
  | _ => "INVALID_SIGNATURE"
  end.

(** A required claim: a non-empty string. *)
Definition required_claim (l : list (string * json)) (k : string) : prog (world P) string :=
  let missing := Throw (with_details (TokenError "Access token missing required claim" "INVALID_JWT")
                          [("claim", JStr k)]%string) in
  match obj_get k l with
  | Some (JStr s) => if String.eqb s "" then missing else mret s
  | _ => missing
  end.

Definition fields (j : json) : list (string * json) := match j with JObj l => l | _ => [] end.

(** [v ?? d]. *)
Definition json_or (v : option json) (d : json) : json :=
  match v with Some JNull | None => d | Some j => j end.

Definition verify_options (ts : TokenService) : VerifyOptions :=
  mkVerifyOptions (Some [ts_issuer ts]) (Some [ts_audience ts]) (Some (ts_accessTokenTtlMs ts / 1000)).

Definition unknown_key (k : json) : prog (world P) SigningKey :=
  Throw (with_details (TokenError "Unknown signing key" "UNKNOWN_KEY") [("kid", k)]%string).

Definition verifyAccessToken (ts : TokenService) (token : string) : prog (world P) IdentityContext :=
  let encodedHeader := hd "" (split_dot token) in
  throw_if (String.eqb encodedHeader "") (TokenError "Malformed access token" "INVALID_JWT") ;;
  header ← match parse (from_base64 encodedHeader) with
           | Some j => mret j
           | None => Throw (TokenError "Malformed access token" "INVALID_JWT")
           end;
  key_id ← lift_jwt (get_prop header "kid");
  throw_if (falsy key_id) (TokenError "Access token missing kid header" "INVALID_JWT") ;;
  t ← now;
  store ← act (λ w, (w, keyStore w));
  key ← match key_id with
        | Some (JStr k) =>
          match KeyStore.byKid t k store with
          | Some key => mret key
          | None => unknown_key (JStr k)
          end
        | Some j => unknown_key j
        | None => unknown_key JNull
        end;
  t' ← now;
  claims ← match verifyToken token key (verify_options ts) t' with
           | inr c => mret (fields c)
           | inl e => Throw (TokenError "Invalid access token" (verify_reason e))
           end;
  sub ← required_claim claims "sub";
  tenantId ← required_claim claims "tenantId";
  applicationId ← required_claim claims "applicationId";
  sessionId ← required_claim claims "sessionId";
  iat ← match obj_get "iat" claims with
        | Some (JNum i) => mret i
        | _ => Throw (TokenError "Access token missing iat claim" "INVALID_JWT")
        end;
  mret (mkIdentityContext sub tenantId applicationId sessionId
          (json_or (obj_get "roles" claims) (JArr []))
          (json_or (obj_get "permissions" claims) (JArr []))
          (json_or (obj_get "authMethod" claims) (JStr "password"))
          (iat * 1000) (obj_get "tokenVersion" claims) (obj_get "scope" claims)
          (obj_get "clientId" claims)).

(** ** Refresh tokens *)
Definition hashRefreshToken (ts : TokenService) (raw : string) : string :=
  to_base64 (createHash (ts_tokenHashAlgorithm ts) raw).

Definition refresh_pair (ts : TokenService) (i : nat) : TokenPair :=
  let raw := to_base64url (randomBytes i 48) in mkTokenPair raw (hashRefreshToken ts raw).

Definition createRefreshToken (ts : TokenService) : prog (world P) TokenPair :=
  draw (refresh_pair ts).

Definition matchesHash (ts : TokenService) (raw hash : string) : bool :=
  String.eqb (from_base64 (hashRefreshToken ts raw)) (from_base64 hash).

(** Comparing decoded digests is comparing the stored strings. *)
Lemma matchesHash_spec ts raw raw' :
  matchesHash ts raw (hashRefreshToken ts raw') = true ↔
  hashRefreshToken ts raw = hashRefreshToken ts raw'.
Proof.
  unfold matchesHash. rewrite String.eqb_eq. unfold hashRefreshToken. rewrite !from_to_base64.
  split; [by intros ->|apply (inj to_base64)].
Qed.

(** ** An issued token verifies to the identity it was issued for *)
Definition identity_of (ctx : AccessContext) (issued : Z) : IdentityContext :=
  mkIdentityContext (ac_userId ctx) (ac_tenantId ctx) (ac_applicationId ctx) (ac_sessionId ctx)
    (JArr (map JStr (ac_roles ctx))) (JArr (map JStr (ac_permissions ctx)))
    (JStr (AuthMethod_string (ac_authMethod ctx))) (issued / 1000 * 1000)
    (option_map JNum (ac_tokenVersion ctx)) (option_map JStr (ac_scope ctx))
    (option_map JStr (ac_clientId ctx)).

#[local] Opaque to_base64url from_base64 stringify parse.

Lemma access_claims_get ts ctx key_id t jti t' :
  let l := claimsWithTime (access_claims ts ctx key_id t jti) no_options t' in
  obj_get "sub" l = Some (JStr (ac_userId ctx)) ∧
  obj_get "tenantId" l = Some (JStr (ac_tenantId ctx)) ∧
  obj_get "applicationId" l = Some (JStr (ac_applicationId ctx)) ∧
  obj_get "sessionId" l = Some (JStr (ac_sessionId ctx)) ∧
  obj_get "roles" l = Some (JArr (map JStr (ac_roles ctx))) ∧
  obj_get "permissions" l = Some (JArr (map JStr (ac_permissions ctx))) ∧
  obj_get "authMethod" l = Some (JStr (AuthMethod_string (ac_authMethod ctx))) ∧
  obj_get "iss" l = Some (JStr (ts_issuer ts)) ∧ obj_get "aud" l = Some (JStr (ts_audience ts)) ∧
  obj_get "iat" l = Some (JNum (t / 1000)) ∧
  obj_get "exp" l = Some (JNum (t / 1000 + ts_accessTokenTtlMs ts / 1000)) ∧
  obj_get "nbf" l = None ∧
  obj_get "tokenVersion" l = option_map JNum (ac_tokenVersion ctx) ∧
  obj_get "scope" l = option_map JStr (ac_scope ctx) ∧
  obj_get "clientId" l = option_map JStr (ac_clientId ctx).
Proof.
  unfold access_claims. destruct (ac_scope ctx), (ac_clientId ctx), (ac_tokenVersion ctx);
    repeat split; reflexivity.
Qed.

Lemma access_claims_valid ts ctx key_id t jti t' u :
  t <= u → u / 1000 < t / 1000 + ts_accessTokenTtlMs ts / 1000 →
  assertJwtClaims (JObj (claimsWithTime (access_claims ts ctx key_id t jti) no_options t'))
    (verify_options ts) u = inr tt.
Proof.
  intros Hu Hexp. destruct (access_claims_get ts ctx key_id t jti t')
    as (_ & _ & _ & _ & _ & _ & _ & Hiss & Haud & Hiat & He & Hnbf & _).
  unfold assertJwtClaims. cbn [get_prop]. rewrite He, Hnbf, Hiat, Hiss, Haud.
  rewrite bind_inr. rewrite (proj2 (Z.leb_gt _ _)) by lia. cbn [negb]. rewrite require_true, bind_inr.
  rewrite require_true, bind_inr. cbn [verify_options vo_maxAge vo_issuer vo_audience].
  rewrite (proj2 (Z.ltb_ge _ _)) by lia. cbn [negb]. rewrite require_true, bind_inr.
  rewrite bool_decide_true by (by left). rewrite require_true, bind_inr. cbn [existsb].
  by rewrite bool_decide_true by (by left).
Qed.

Lemma access_claims_numeric ts ctx key_id t jti t' :
  numeric_times (claimsWithTime (access_claims ts ctx key_id t jti) no_options t').
Proof.
  destruct (access_claims_get ts ctx key_id t jti t') as (_ & _ & _ & _ & _ & _ & _ & _ & _ & Hi & He & Hn & _).
  intros k v [->|[->|[->|[]%elem_of_nil]%elem_of_cons]%elem_of_cons]%elem_of_cons; [rewrite Hi|rewrite He|rewrite Hn]; intros [= <-]; eauto.
Qed.

Lemma required_claim_ok l k s w :
  obj_get k l = Some (JStr s) → s ≠ "" → run (required_claim l k) w = (w, inr s).
Proof.
  intros Hg Hs. unfold required_claim. rewrite Hg. by rewrite (proj2 (String.eqb_neq _ _)).
Qed.

(** The members [verifyAccessToken] refuses to find empty. *)
Definition complete (ctx : AccessContext) : Prop :=
  ac_userId ctx ≠ "" ∧ ac_tenantId ctx ≠ "" ∧ ac_applicationId ctx ≠ "" ∧ ac_sessionId ctx ≠ "".

(** A key that signs and verifies: asymmetric, its halves belong together, and it has
    an identifier and lives on. *)
Definition key_ready (u : Z) (k : SigningKey) : Prop :=
  algorithm k ≠ HS256 ∧ key_pair_ok k ∧ ecdsa_der_ok k ∧ kid k ≠ "" ∧ u < expiresAt k.

Lemma run_signAccessToken_ok ts ctx w w' token :
  run (signAccessToken ts ctx) w = (w', inr token) →
  ∃ key jti,
    KeyStore.current randomUUID (clock w) (draws w) (keyStore w) = inr (keyStore w', key) ∧
    signToken (access_claims ts ctx (kid key) (clock w) jti) key no_options (clock w) = inr token.
Proof.
  unfold signAccessToken, current_key. rewrite run_bind. cbn [run now act]. rewrite !run_bind.
  cbn [run act].
  destruct (KeyStore.current _ _ _ _) as [e|[s key]]; [done|].
  cbn [run lift_jwt mret prog_mret]. rewrite run_bind. cbn [run draw act]. rewrite run_bind.
  cbn [run now act]. set (jti := to_hex _).
  match goal with |- run (lift_jwt (signToken ?c _ _ ?t)) _ = _ → _ =>
    destruct (signToken c key no_options t) as [e|tok] eqn:Hs end; [done|].
  intros [= <- <-]. exists key, jti. split; [done|exact Hs].
Qed.

(** A token that was signed verifies. *)
Lemma run_verify_signed `{!JwtCryptoLaws jwt_crypto} `{!JwtLibraryLaws jwt_crypto} ts ctx w w' v token u :
  KeyStore.wf (keyStore w) → complete ctx →
  run (signAccessToken ts ctx) w = (w', inr token) →
  (∀ k, In k (KeyStore.all (keyStore w')) → key_ready u k) →
  clock w <= u → u / 1000 < clock w / 1000 + ts_accessTokenTtlMs ts / 1000 →
  keyStore v = keyStore w' → clock v = u →
  run (verifyAccessToken ts token) v = (v, inr (identity_of ctx (clock w))).
Proof.
  intros Hwf (Hu & Ht & Ha & Hse) (key & jti & Hc & Hs)%run_signAccessToken_ok Hkeys Hle Hexp Hks Hck.
  assert (kid key ≠ "" ∧ u < expiresAt key ∧ algorithm key ≠ HS256 ∧ key_pair_ok key
    ∧ ecdsa_der_ok key) as (Hkid & Hkexp & Hown & Hpair & Hec).
  { pose proof (KeyStore.current_byKid _ _ _ _ _ _ (expiresAt key - 1) Hwf Hc ltac:(lia)) as [Hwf' Hb].
    destruct (KeyStore.byKid_ok _ _ _ _ Hwf' Hb) as (_ & _ & _ & Hin).
    destruct (Hkeys key Hin) as (? & ? & ? & ? & ?). done. }
  destruct (KeyStore.current_byKid _ _ _ _ _ _ u Hwf Hc Hkexp) as [Hwf' Hb].
  destruct (signToken_names_key _ _ _ _ _ Hown Hs) as (header & Hhd & Hk).
  destruct (verify_sign_members _ key no_options (verify_options ts) _ u token Hown Hpair Hec Hs
    (access_claims_numeric ts ctx (kid key) (clock w) jti (clock w))
    (access_claims_valid ts ctx (kid key) (clock w) jti (clock w) u Hle Hexp)) as (l & Hv & Hl).
  destruct (access_claims_get ts ctx (kid key) (clock w) jti (clock w))
    as (Hsub & Hten & Happ & Hses & Hro & Hpe & Ham & _ & _ & Hiat & _ & _ & Htv & Hsc & Hcl).
  rewrite <- Hl in Hsub, Hten, Happ, Hses, Hro, Hpe, Ham, Hiat, Htv, Hsc, Hcl.
  unfold verifyAccessToken. rewrite Hhd, run_bind, run_throw_if.
  rewrite (proj2 (String.eqb_neq _ _)) by (apply base64url_nonempty, stringify_obj_nonempty).
  rewrite from_to_base64url, parse_stringify, run_bind, run_ret. cbn [get_prop]. rewrite Hk.
  cbn [lift_jwt]. rewrite run_bind, run_ret, run_bind, run_throw_if. cbn [falsy].
  rewrite (proj2 (String.eqb_neq _ _)) by done. rewrite run_bind. cbn [run now act].
  rewrite run_bind. cbn [run act]. cbn [clock keyStore set_field]. rewrite Hks, Hck. rewrite run_bind.
  rewrite Hb, run_ret, run_bind. cbn [run now act clock set_field].
  rewrite Hck, Hv, run_bind, run_ret. cbn [fields].
  rewrite run_bind, (required_claim_ok _ _ _ _ Hsub) by done.
  rewrite run_bind, (required_claim_ok _ _ _ _ Hten) by done.
  rewrite run_bind, (required_claim_ok _ _ _ _ Happ) by done.
  rewrite run_bind, (required_claim_ok _ _ _ _ Hses) by done.
  rewrite Hiat, run_bind, run_ret, run_ret, Hro, Hpe, Ham, Htv, Hsc, Hcl. done.
Qed.

(** an access token presented within its lifetime, while its key is known and
    unexpired, yields exactly the identity it was signed for.  This covers every
    asymmetric algorithm, RS256 and ES256 by the documented round trip of
    [jsonwebtoken]. *)
Theorem verify_signed `{!JwtCryptoLaws jwt_crypto} `{!JwtLibraryLaws jwt_crypto} ts ctx w w' token u :
  KeyStore.wf (keyStore w) → complete ctx →
  run (signAccessToken ts ctx) w = (w', inr token) →
  (∀ k, In k (KeyStore.all (keyStore w')) → key_ready u k) →
  clock w <= u → u / 1000 < clock w / 1000 + ts_accessTokenTtlMs ts / 1000 →
  run (verifyAccessToken ts token) (w' <| clock := u |>) =
  (w' <| clock := u |>, inr (identity_of ctx (clock w))).
Proof. intros. by eapply run_verify_signed. Qed.
End tokens.
