(* ===== verification/Process.v ===== *)
(** * A process with state of its own, and its collections

    The services that keep their state in memory, or behind a callback, run in a
    process: their state, the wall clock and the random source; some keep their
    collections in that state too. *)

From S2P Require Export Interleave.
From S2P Require Export Store.

(** * A process with state of its own

    The services that keep their state in memory, or behind a callback, run in a
    process: their state, the wall clock and the random source.  The commands
    read the clock, draw, and apply a function to the state, each atomically. *)

Record process (S : Type) := mkProcess { state : S; time : Z; drawn : nat }.
Arguments mkProcess {S} _ _ _.
Arguments state {S} _.
Arguments time {S} _.
Arguments drawn {S} _.
#[export] Instance settable_process S : Settable (process S) := {| eta_expand := λ p,
  mkProcess (state p) (time p) (drawn p) |}.

Section commands.
Context {S : Type}.

(** [Date.now()]. *)
Definition date_now : prog (process S) Z := Atom (λ p, (p, time p)) Ret.
(** A value of the random source. *)
Definition random {A} (f : nat → A) : prog (process S) A :=
  Atom (λ p, (p <| drawn ::= Datatypes.S |>, f (drawn p))) Ret.
(** Reading the state, and changing it. *)
Definition reads {A} (f : S → A) : prog (process S) A := Atom (λ p, (p, f (state p))) Ret.
Definition modify (f : S → S) : prog (process S) () := Atom (λ p, (p <| state ::= f |>, tt)) Ret.
Definition result_prog {A} (r : exn + A) : prog (process S) A :=
  match r with inl e => Throw e | inr a => Ret a end.
(** A call on the state that may throw. *)
Definition call {A} (f : S → S * (exn + A)) : prog (process S) A :=
  Atom (λ p, let '(s, r) := f (state p) in (p <| state := s |>, r)) result_prog.

Lemma run_date_now p : run date_now p = (p, inr (time p)).
Proof. done. Qed.
Lemma run_random {A} (f : nat → A) p : run (random f) p = (p <| drawn ::= Datatypes.S |>, inr (f (drawn p))).
Proof. done. Qed.
Lemma run_reads {A} (f : S → A) p : run (reads f) p = (p, inr (f (state p))).
Proof. done. Qed.
Lemma run_modify f p : run (modify f) p = (p <| state ::= f |>, inr tt).
Proof. done. Qed.
Lemma run_result {A} (r : exn + A) p : run (result_prog r) p = (p, r).
Proof. by destruct r. Qed.
Lemma run_call {A} (f : S → S * (exn + A)) p :
  run (call f) p = (p <| state := (f (state p)).1 |>, (f (state p)).2).
Proof. unfold call. cbn. destruct (f (state p)) as [s [e|a]]; done. Qed.

(** What [call] asks of credits. *)
Lemma pays_call {A} (I : process S → Prop) credit n (f : S → S * (exn + A)) Φ :
  (∀ p, I p → let p' := p <| state := (f (state p)).1 |> in
     I p' ∧ ∃ n', (credit p' + n' ≤ credit p + n)%nat ∧ Φ (f (state p)).2 n') →
  pays I credit n (call f) Φ.
Proof.
  intros Hf. apply pays_atom. intros p Hp. specialize (Hf p Hp). destruct (f (state p)) as [s r]. cbn [fst snd] in *.
  destruct Hf as (HI & n' & Hle & HΦ). split; [done|]. exists n'. split; [done|]. by destruct r.
Qed.
Lemma pays_call_bind {A B} (I : process S → Prop) credit n (f : S → S * (exn + A)) (k : A → prog (process S) B) Φ :
  (∀ p, I p → let p' := p <| state := (f (state p)).1 |> in
     I p' ∧ ∃ n', (credit p' + n' ≤ credit p + n)%nat ∧
       match (f (state p)).2 with inr a => pays I credit n' (k a) Φ | inl e => Φ (inl e) n' end) →
  pays I credit n (call f ≫= k) Φ.
Proof. intros Hf. by apply pays_bind, pays_call. Qed.
Lemma pays_date_now_bind {B} (I : process S → Prop) credit n (k : Z → prog (process S) B) Φ :
  (∀ t, pays I credit n (k t) Φ) → pays I credit n (date_now ≫= k) Φ.
Proof. intros Hk. apply pays_atom. intros p Hp. split; [done|]. exists n. split; [done|]. apply Hk. Qed.
End commands.

(** Invariants and credits that only look at the state of the service. *)
Section state_only.
Context {S : Type} (I : S → Prop) (credit : S → nat).
Definition on_state (p : process S) : Prop := I (state p).
Definition state_credit (p : process S) : nat := credit (state p).

Lemma harmless_date_now : harmless on_state state_credit date_now.
Proof. apply harmless_atom; [|done]. intros p Hp. by split. Qed.
Lemma harmless_random {A} (f : nat → A) : harmless on_state state_credit (random f).
Proof. apply harmless_atom; [|done]. intros p Hp. by split. Qed.
Lemma harmless_reads {A} (f : S → A) : harmless on_state state_credit (reads f).
Proof. apply harmless_atom; [|done]. intros p Hp. by split. Qed.
Lemma harmless_modify f :
  (∀ s, I s → I (f s) ∧ (credit (f s) ≤ credit s)%nat) → harmless on_state state_credit (modify f).
Proof. intros Hf. apply harmless_atom; [|done]. intros p Hp. by apply Hf. Qed.
Lemma harmless_call {A} (f : S → S * (exn + A)) :
  (∀ s, I s → I (f s).1 ∧ (credit (f s).1 ≤ credit s)%nat) → harmless on_state state_credit (call f).
Proof.
  intros Hf. apply pays_call. intros p Hp. destruct (Hf _ Hp). split; [done|]. exists 0%nat. split; [|done].
  unfold state_credit. cbn. lia.
Qed.
End state_only.

#[export] Hint Resolve harmless_date_now harmless_random harmless_reads : harmless_db.
#[export] Hint Rewrite @run_date_now @run_random @run_reads @run_modify @run_result @run_call : run_db.

(** * Collections of a service

    The database commands of a service that keeps its documents, and possibly
    variables of the process, in a state [S] of its own: a lens to the collection
    of each kind of document, and the commands that will fail, with their error
    and whether the write was applied first. *)

Record outage := mkOutage { out_error : exn; out_applied : bool }.
Class Outages (S : Type) := {
  outages : S → list (option outage);
  set_outages : list (option outage) → S → S;
  outages_set : ∀ l s, outages (set_outages l s) = l;
}.
Class Stored (coll : Type → Type) (S : Type) `{Outages S} (D : Type) := {
  rows : S → coll D;
  set_rows : coll D → S → S;
  row_clash : D → D → bool;
  rows_set : ∀ c s, rows (set_rows c s) = c;
  rows_outages : ∀ l s, rows (set_outages l s) = rows s;
}.

Section commands.
Context {coll : Type → Type} `{Mongo coll} {S : Type} `{Outages S}.
Notation state := (process S).

Definition with_outage {A} (f : S → S * (exn + A)) (s : S) : S * (exn + A) :=
  match outages s with
  | [] => f s
  | None :: l => f (set_outages l s)
  | Some x :: l =>
    let s := set_outages l s in ((if out_applied x then (f s).1 else s), inl (out_error x))
  end.
Definition command {A} (f : S → S * (exn + A)) : prog state A := call (with_outage f).

Context {D : Type} `{!Stored coll S D}.
Definition on_rows {A} (f : coll D → coll D * (exn + A)) (s : S) : S * (exn + A) :=
  let '(c, r) := f (rows s) in (set_rows c s, r).
Definition row_find_one (f : D → bool) : prog state (option D) := command (λ s, (s, inr (m_find_one f (rows s)))).
Definition row_find_sorted (key : D → Z) (f : D → bool) : prog state (list D) :=
  command (λ s, (s, inr (m_find_sorted key f (rows s)))).
Definition row_update_one (f : D → bool) (u : D → D) : prog state () :=
  command (on_rows (λ c, (m_update_one f u c, inr tt))).
(** [findOneAndUpdate(f, u, { new: true })]. *)
Definition row_find_and_update (f : D → bool) (u : D → D) : prog state (option D) :=
  command (on_rows (λ c, (m_update_one f u c, inr (option_map u (m_find_one f c))))).
Definition duplicate_row : exn := DriverError (Some 11000) "E11000 duplicate key error".
Definition insert_row (d : D) (c : coll D) : coll D * (exn + ()) :=
  match m_insert row_clash d c with Some c' => (c', inr tt) | None => (c, inl duplicate_row) end.
Definition row_create (d : D) : prog state () := command (on_rows (insert_row d)).
(** [updateOne(f, u, { upsert: true })], inserting [d]. *)
Definition row_upsert (f : D → bool) (u : D → D) (d : D) : prog state () :=
  command (on_rows (λ c, match m_find_one f c with Some _ => (m_update_one f u c, inr tt) | None => insert_row d c end)).

Lemma run_row_command {A} (f : S → S * (exn + A)) p :
  run (command f) p = (p <| Process.state := (with_outage f (Process.state p)).1 |>, (with_outage f (Process.state p)).2).
Proof. apply run_call. Qed.
Lemma with_outage_up {A} (f : S → S * (exn + A)) s : outages s = [] → with_outage f s = f s.
Proof. unfold with_outage. by intros ->. Qed.
(** What a command may do to the collection: nothing, or what it does when it
    succeeds. *)
Lemma with_outage_rows {A} (I : coll D → Prop) (f : coll D → coll D * (exn + A)) s :
  (∀ c, I c → I (f c).1) → I (rows s) → I (rows (with_outage (on_rows f) s).1).
Proof.
  intros Hf Hs. assert (∀ s, I (rows s) → I (rows (on_rows f s).1)) as Hon.
  { intros s' Hs'. unfold on_rows. specialize (Hf _ Hs'). destruct (f (rows s')). cbn. by rewrite rows_set. }
  unfold with_outage. destruct (outages s) as [|[x|] l]; [by apply Hon| |apply Hon; by rewrite rows_outages].
  cbn. destruct (out_applied x); [apply Hon|]; by rewrite rows_outages.
Qed.
Lemma with_outage_read {A} (f : S → exn + A) s : rows (with_outage (λ s, (s, f s)) s).1 = rows s.
Proof. unfold with_outage. destruct (outages s) as [|[x|] l]; cbn; [done| |by rewrite rows_outages]. destruct (out_applied x); cbn; by rewrite rows_outages. Qed.
Lemma run_row_find_one (f : D → bool) p :
  ∃ s r, run (row_find_one f) p = (p <| Process.state := s |>, r) ∧ rows s = rows (Process.state p) ∧
    ∀ x, r = inr x → x = List.find f (docs (rows (Process.state p))).
Proof.
  unfold row_find_one. do 2 eexists. split; [apply run_row_command|]. split.
  - apply (with_outage_read (λ s, inr (m_find_one f (rows s)))).
  - intros x. unfold with_outage. rewrite <- m_find_one_law. destruct (outages (Process.state p)) as [|[y|] l]; cbn; rewrite ?rows_outages; congruence.
Qed.
Lemma run_on_rows (I : coll D → Prop) (f : coll D → coll D * (exn + ())) p :
  (∀ c, I c → I (f c).1) → I (rows (Process.state p)) →
  ∃ s r, run (command (on_rows f)) p = (p <| Process.state := s |>, r) ∧ I (rows s).
Proof. intros Hf Hp. do 2 eexists. split; [apply run_row_command|]. by apply with_outage_rows. Qed.
(** What a command pays, when it succeeds; a failing one may have been applied. *)
Lemma pays_rows {A} (I : coll D → Prop) (credit : coll D → nat) n (f : coll D → coll D * (exn + A)) Φ :
  (∀ c, I c → I (f c).1 ∧ ∃ n', (credit (f c).1 + n' ≤ credit c + n)%nat ∧ Φ (f c).2 n') → (∀ e m, Φ (inl e) m) →
  pays (λ p : state, I (rows (Process.state p))) (λ p, credit (rows (Process.state p))) n (command (on_rows f)) Φ.
Proof.
  intros Hf He. apply pays_call. intros p Hp. cbn [Process.state].
  assert (∀ s, I (rows s) → let r := on_rows f s in I (rows r.1) ∧ ∃ n', (credit (rows r.1) + n' ≤ credit (rows s) + n)%nat ∧ Φ r.2 n') as Hon.
  { intros s Hs. specialize (Hf _ Hs). unfold on_rows. destruct (f (rows s)) as [c r]. cbn in *. by rewrite rows_set. }
  unfold with_outage. destruct (outages (Process.state p)) as [|[x|] l].
  - by apply Hon.
  - destruct (Hon (set_outages l (Process.state p))) as (HI & n' & Hle & _); [by rewrite rows_outages|]. rewrite rows_outages in Hle.
    destruct (out_applied x); cbn; [|rewrite rows_outages]; (split; [done|]); eexists; (split; [|apply He]); done.
  - destruct (Hon (set_outages l (Process.state p))) as (HI & n' & Hle & HΦ); [by rewrite rows_outages|]. rewrite rows_outages in Hle.
    split; [done|]. by exists n'.
Qed.
Lemma pays_find_one (I : coll D → Prop) (credit : coll D → nat) n (f : D → bool) :
  pays (λ p : state, I (rows (Process.state p))) (λ p, credit (rows (Process.state p))) n (row_find_one f) (λ _ m, m = n).
Proof.
  apply pays_call. intros p Hp p'. assert (rows (Process.state p') = rows (Process.state p)) as ->
    by apply (with_outage_read (λ s, inr (m_find_one f (rows s)))).
  split; [done|]. by exists n.
Qed.
(** What a command may do to the state. *)
Lemma with_outage_keeps {A} (I : S → Prop) (f : S → S * (exn + A)) s :
  (∀ l s, I s → I (set_outages l s)) → (∀ s, I s → I (f s).1) → I s → I (with_outage f s).1.
Proof.
  intros Ho Hf Hs. unfold with_outage. destruct (outages s) as [|[x|] l]; [by apply Hf| |by apply Hf, Ho].
  cbn. destruct (out_applied x); [by apply Hf, Ho|by apply Ho].
Qed.
End commands.
