(* ===== verification/KeyLifecycle.v ===== *)
(** * Durable signing keys

    [packages/core/src/services/infrastructure/key-store.service.ts]: the collection
    of signing keys, the operations that move a key through its life, and the
    transaction of [activateKey] under snapshot isolation: it works on a snapshot
    and commits when none of the documents it writes has changed, or starts again. *)

From S2P Require Export Process.
From S2P Require Export Store.
From S2P Require Export Jwt.

Inductive KeyDocStatus := kd_STAGED | kd_ACTIVE | kd_VERIFY_ONLY | kd_RETIRED | kd_REVOKED.
#[export] Instance KeyDocStatus_eq_dec : EqDecision KeyDocStatus.
Proof. solve_decision. Defined.

Record KeyDoc := mkKeyDoc {
  k_id : string; k_kid : string; k_tenantId : string; k_algorithm : JwtSigningAlgorithm; k_publicKey : string;
  k_privateKey : option string; k_status : KeyDocStatus; k_createdAt : Z; k_activatedAt : option Z;
  k_retiredAt : option Z; k_revokedAt : option Z; k_expiresAt : Z }.
#[export] Instance KeyDoc_eq_dec : EqDecision KeyDoc.
Proof. solve_decision. Defined.
#[export] Instance settable_KeyDoc : Settable KeyDoc := {| eta_expand := λ d, mkKeyDoc (k_id d) (k_kid d) (k_tenantId d)
  (k_algorithm d) (k_publicKey d) (k_privateKey d) (k_status d) (k_createdAt d) (k_activatedAt d) (k_retiredAt d)
  (k_revokedAt d) (k_expiresAt d) |}.

(** The unique indexes: the identifier, and the kid within a tenant. *)
Definition key_clash (n d : KeyDoc) : bool :=
  bool_decide (k_id n = k_id d) || bool_decide (k_tenantId n = k_tenantId d) && bool_decide (k_kid n = k_kid d).
(** [privateKey] is not selected unless asked for. *)
Definition project (d : KeyDoc) : KeyDoc := d <| k_privateKey := None |>.

Section key_store_service.
Context {coll : Type → Type} `{Mongo coll} {C : JwtCrypto} (newObjectId randomUUID : nat → string).

(** The collection, and whether each coming command fails, with what error. *)
Record KeyDb := mkKeyDb { keys : coll KeyDoc; db_faults : list (option exn) }.
#[export] Instance settable_KeyDb : Settable KeyDb := {| eta_expand := λ s, mkKeyDb (keys s) (db_faults s) |}.
Notation state := (process KeyDb).
Definition key_docs (p : state) : list KeyDoc := docs (keys (Process.state p)).

Definition command {A} (f : coll KeyDoc → coll KeyDoc * (exn + A)) : prog state A :=
  call (λ s, match db_faults s with
             | Some e :: fs => (s <| db_faults := fs |>, inl e)
             | fs => let '(c, r) := f (keys s) in (mkKeyDb c (tl fs), r)
             end).
Definition read_keys {A} (f : coll KeyDoc → A) : prog state A := command (λ c, (c, inr (f c))).
Definition update_key (f : KeyDoc → bool) (u : KeyDoc → KeyDoc) : prog state (option KeyDoc) :=
  command (λ c, (m_update_one f u c, inr (m_find_one f c))).

Record KeyStoreService := mkKeyStoreService { defaultTtlMs : Z; maxActiveKeys : Z }.
Definition new_KeyStoreService (ttl active : option Z) : KeyStoreService :=
  mkKeyStoreService (nullish ttl (30 * 24 * 60 * 60 * 1000)) (nullish active 5).

(** The algorithm of the pair that [generateKey] makes. *)
Definition pair_algorithm (a : JwtSigningAlgorithm) : JwtSigningAlgorithm :=
  match a with ES256 => ES256 | EdDSA => EdDSA | _ => RS256 end.
(** The [enum] of the schema. *)
Definition stored_algorithm (a : JwtSigningAlgorithm) : bool :=
  match a with RS256 | ES256 | EdDSA | HS256 => true | _ => false end.
Definition validation_failed : exn := JsError "Key validation failed: algorithm".
Definition insert_key (d : KeyDoc) : prog state () :=
  if stored_algorithm (k_algorithm d) then
    command (λ c, match m_insert key_clash d c with
                  | Some c' => (c', inr tt)
                  | None => (c, inl (DriverError (Some 11000) "E11000 duplicate key error"))
                  end)
  else Throw validation_failed.
Definition generateKey (s : KeyStoreService) (tenantId : string) (a : JwtSigningAlgorithm) (ttlMs : option Z) :
    prog state KeyDoc :=
  kid ← random randomUUID;
  t ← date_now;
  pair ← random (λ i, generateKeyPairSync i (pair_algorithm a));
  i ← random newObjectId;
  createdAt ← date_now;
  let d := mkKeyDoc i kid tenantId a (fst pair) (Some (snd pair)) kd_STAGED createdAt None None None
             (t + nullish ttlMs (defaultTtlMs s)) in
  insert_key d ;;
  mret d.

(** *** Activation *)
Definition is_active (tenantId : string) (d : KeyDoc) : bool :=
  bool_decide (k_tenantId d = tenantId) && bool_decide (k_status d = kd_ACTIVE).
Definition is_staged (kid tenantId : string) (d : KeyDoc) : bool :=
  bool_decide (k_kid d = kid) && bool_decide (k_tenantId d = tenantId) && bool_decide (k_status d = kd_STAGED).
Definition demote (d : KeyDoc) : KeyDoc := d <| k_status := kd_VERIFY_ONLY |>.
Definition promote (t : Z) (d : KeyDoc) : KeyDoc := d <| k_status := kd_ACTIVE |> <| k_activatedAt := Some t |>.

(** The documents the transaction writes, with what they become. *)
Definition activation (kid tenantId : string) (t : Z) (snapshot : list KeyDoc) : list (KeyDoc * KeyDoc) :=
  map (λ d, (d, demote d)) (List.filter (is_active tenantId) snapshot) ++
  match List.find (is_staged kid tenantId) snapshot with Some d => [(d, promote t d)] | None => [] end.
Definition id_is (i : string) (d : KeyDoc) : bool := bool_decide (k_id d = i).
Definition write_all (ws : list (KeyDoc * KeyDoc)) (c : coll KeyDoc) : coll KeyDoc :=
  foldl (λ c w, m_update_one (id_is (k_id w.1)) (λ _, w.2) c) c ws.
(** No document written has changed since the snapshot. *)
Definition no_conflict (ws : list (KeyDoc * KeyDoc)) (l : list KeyDoc) : bool :=
  forallb (λ w, existsb (λ d, bool_decide (d = w.1)) l) ws.
Definition commit (ws : list (KeyDoc * KeyDoc)) : prog state bool :=
  command (λ c, if no_conflict ws (docs c) then (write_all ws c, inr true) else (c, inr false)).
Definition write_conflict : exn := DriverError (Some 112) "WriteConflict".
(** [withTransaction] retries a conflict; [attempts] bounds the retries. *)
Fixpoint activate (attempts : nat) (kid tenantId : string) : prog state (option KeyDoc) :=
  match attempts with
  | O => Throw write_conflict
  | S rest =>
    snapshot ← read_keys docs;
    t ← date_now;
    ok ← commit (activation kid tenantId t snapshot);
    if (ok : bool) then mret (option_map (promote t) (List.find (is_staged kid tenantId) snapshot))
    else activate rest kid tenantId
  end.
Definition activateKey (attempts : nat) (kid tenantId : string) : prog state (option KeyDoc) :=
  d ← activate attempts kid tenantId; mret (option_map project d).

(** *** The other operations *)
Definition in_use (kid tenantId : string) (d : KeyDoc) : bool :=
  bool_decide (k_kid d = kid) && bool_decide (k_tenantId d = tenantId) &&
  (bool_decide (k_status d = kd_ACTIVE) || bool_decide (k_status d = kd_VERIFY_ONLY)).
Definition retire (t : Z) (d : KeyDoc) : KeyDoc := d <| k_status := kd_RETIRED |> <| k_retiredAt := Some t |>.
Definition retireKey (kid tenantId : string) : prog state bool :=
  t ← date_now;
  r ← update_key (in_use kid tenantId) (retire t);
  mret (bool_decide (is_Some r)).
Definition not_revoked (kid tenantId : string) (d : KeyDoc) : bool :=
  bool_decide (k_kid d = kid) && bool_decide (k_tenantId d = tenantId) && negb (bool_decide (k_status d = kd_REVOKED)).
Definition revoke (t : Z) (d : KeyDoc) : KeyDoc := d <| k_status := kd_REVOKED |> <| k_revokedAt := Some t |>.
Definition revokeKey (kid tenantId : string) : prog state bool :=
  t ← date_now;
  r ← update_key (not_revoked kid tenantId) (revoke t);
  mret (bool_decide (is_Some r)).
Definition getActiveKey (tenantId : string) : prog state (option KeyDoc) :=
  d ← read_keys (m_find_one (is_active tenantId)); mret (option_map project d).
Definition verifies (tenantId : string) (d : KeyDoc) : bool :=
  bool_decide (k_tenantId d = tenantId) &&
  (bool_decide (k_status d = kd_ACTIVE) || bool_decide (k_status d = kd_VERIFY_ONLY)).
Definition getVerificationKeys (tenantId : string) : prog state (list KeyDoc) :=
  l ← read_keys (m_find (verifies tenantId)); mret (map project l).
Definition getKey (kid tenantId : string) : prog state (option KeyDoc) :=
  read_keys (m_find_one (λ d, bool_decide (k_kid d = kid) && bool_decide (k_tenantId d = tenantId))).
Definition listKeys (tenantId : string) (includeRevoked : bool) : prog state (list KeyDoc) :=
  l ← read_keys (m_find_sorted (λ d, - k_createdAt d)
        (λ d, bool_decide (k_tenantId d = tenantId) && (includeRevoked || negb (bool_decide (k_status d = kd_REVOKED)))));
  mret (map project l).
Definition expired_unused (t : Z) (d : KeyDoc) : bool :=
  (k_expiresAt d <=? t) && negb (bool_decide (k_status d = kd_ACTIVE) || bool_decide (k_status d = kd_VERIFY_ONLY)).
Definition cleanupExpired : prog state Z :=
  t ← date_now;
  command (λ c, (m_delete_many (expired_unused t) c, inr (Z.of_nat (m_count (expired_unused t) c)))).
Definition rotateKey (s : KeyStoreService) (attempts : nat) (tenantId : string) (a : JwtSigningAlgorithm) :
    prog state (option KeyDoc) :=
  current ← read_keys (m_find_least (λ d, nullish (k_activatedAt d) 0) (is_active tenantId));
  match current with
  | Some d => retireKey (k_kid d) tenantId ;; mret tt
  | None => mret tt
  end ;;
  newKey ← generateKey s tenantId a None;
  activateKey attempts (k_kid newKey) tenantId.

(** ** Keys only move forward *)
Definition rank (s : KeyDocStatus) : nat :=
  match s with kd_STAGED => 0 | kd_ACTIVE => 1 | kd_VERIFY_ONLY => 2 | kd_RETIRED => 3 | kd_REVOKED => 4 end.
Definition same_key (d d' : KeyDoc) : Prop :=
  k_id d' = k_id d ∧ k_kid d' = k_kid d ∧ k_tenantId d' = k_tenantId d ∧ k_algorithm d' = k_algorithm d ∧
  k_publicKey d' = k_publicKey d ∧ k_privateKey d' = k_privateKey d ∧ k_createdAt d' = k_createdAt d ∧
  k_expiresAt d' = k_expiresAt d.
Definition forward (d d' : KeyDoc) : Prop := same_key d d' ∧ (rank (k_status d) ≤ rank (k_status d'))%nat.
#[export] Instance forward_preorder : PreOrder forward.
Proof.
  split; [done|]. intros x y z [Hxy ?] [Hyz ?]. unfold forward, same_key in *. split; [|lia]. naive_solver congruence.
Qed.

Lemma demote_forward tenantId d : is_active tenantId d = true → forward d (demote d).
Proof. intros [_ Hs%bool_decide_eq_true]%andb_true_iff. split; [done|]. cbn. rewrite Hs. cbn. lia. Qed.
Lemma promote_forward kid tenantId t d : is_staged kid tenantId d = true → forward d (promote t d).
Proof. intros [_ Hs%bool_decide_eq_true]%andb_true_iff. split; [done|]. cbn. rewrite Hs. cbn. lia. Qed.
Lemma retire_forward kid tenantId t d : in_use kid tenantId d = true → forward d (retire t d).
Proof.
  intros [_ [Hs%bool_decide_eq_true|Hs%bool_decide_eq_true]%orb_true_iff]%andb_true_iff; (split; [done|]); cbn; rewrite Hs; cbn; lia.
Qed.
Lemma revoke_forward t d : forward d (revoke t d).
Proof. split; [done|]. cbn. destruct (k_status d); cbn; lia. Qed.
Lemma activation_forward kid tenantId t l w : In w (activation kid tenantId t l) → forward w.1 w.2.
Proof.
  unfold activation. rewrite in_app_iff, in_map_iff. intros [(d & <- & [_ Hd]%filter_In)|Hw]; [by eapply demote_forward|].
  destruct (List.find _ l) as [d|] eqn:Hf; [|done]. destruct Hw as [<-|[]]. apply List.find_some in Hf as [_ Hd]. by eapply promote_forward.
Qed.

(** The operations a server may run on the keys. *)
Inductive key_op :=
| op_generate (s : KeyStoreService) (tenantId : string) (a : JwtSigningAlgorithm) (ttlMs : option Z)
| op_activate (attempts : nat) (kid tenantId : string)
| op_retire (kid tenantId : string)
| op_revoke (kid tenantId : string)
| op_rotate (s : KeyStoreService) (attempts : nat) (tenantId : string) (a : JwtSigningAlgorithm)
| op_cleanup
| op_active (tenantId : string)
| op_verification (tenantId : string).
Definition perform (o : key_op) : prog state () :=
  match o with
  | op_generate s tenantId a ttlMs => generateKey s tenantId a ttlMs ;; mret tt
  | op_activate n kid tenantId => activateKey n kid tenantId ;; mret tt
  | op_retire kid tenantId => retireKey kid tenantId ;; mret tt
  | op_revoke kid tenantId => revokeKey kid tenantId ;; mret tt
  | op_rotate s n tenantId a => rotateKey s n tenantId a ;; mret tt
  | op_cleanup => cleanupExpired ;; mret tt
  | op_active tenantId => getActiveKey tenantId ;; mret tt
  | op_verification tenantId => getVerificationKeys tenantId ;; mret tt
  end.

Section forward_only.
Context (d0 : KeyDoc) (n0 : nat) (fresh : ∀ i, (n0 ≤ i)%nat → newObjectId i ≠ k_id d0).

(** Whatever is stored under the identifier of [d0] is that key, no further back. *)
Definition onward (p : state) : Prop :=
  (n0 ≤ drawn p)%nat ∧ ∀ d, In d (key_docs p) → k_id d = k_id d0 → forward d0 d.
Notation safe := (harmless onward (λ _, 0%nat)).

Lemma safe_command {A} (f : coll KeyDoc → coll KeyDoc * (exn + A)) :
  (∀ c, (∀ d, In d (docs c) → k_id d = k_id d0 → forward d0 d) → ∀ d, In d (docs (f c).1) → k_id d = k_id d0 → forward d0 d) →
  safe (command f).
Proof.
  intros Hf. apply pays_call. intros p [Hn Hp]. split; [|by exists 0%nat]. split; [done|]. unfold key_docs in *. cbn [Process.state set_field].
  destruct (db_faults (Process.state p)) as [|[e|] fs]; cbn [fst keys set_field]; [| done |];
    specialize (Hf _ Hp); destruct (f (keys (Process.state p))); exact Hf.
Qed.
Lemma safe_read {A} (f : coll KeyDoc → A) : safe (read_keys f).
Proof. by apply safe_command. Qed.
Lemma safe_update f u : (∀ d, f d = true → forward d (u d)) → safe (update_key f u).
Proof.
  intros Hu. apply safe_command. intros c Hc d. cbn [fst]. rewrite m_update_one_law.
  intros [Hd|(x & Hx & Hf & ->)]%In_alter_first Hid; [by apply Hc|].
  specialize (Hu x Hf). etrans; [apply (Hc x Hx)|exact Hu]. destruct Hu as [[Hi _] _]. congruence.
Qed.
Lemma write_all_In ws (c : coll KeyDoc) d :
  In d (docs (write_all ws c)) → In d (docs c) ∨ ∃ w, In w ws ∧ d = w.2.
Proof.
  unfold write_all. revert c. induction ws as [|w ws IH]; intros c; cbn; [auto|]. intros [Hd|(w' & Hw & ->)]%IH; [|eauto].
  rewrite m_update_one_law in Hd. apply In_alter_first in Hd as [?|(x & _ & _ & ->)]; eauto.
Qed.
Lemma safe_commit ws : (∀ w, In w ws → forward w.1 w.2) → safe (commit ws).
Proof.
  intros Hws. apply safe_command. intros c Hc d. destruct (no_conflict ws (docs c)) eqn:Hn; cbn [fst]; [|auto].
  intros [Hd|(w & Hw & ->)]%write_all_In Hid; [by apply Hc|]. unfold no_conflict in Hn. rewrite forallb_forall in Hn.
  specialize (Hn w Hw). apply existsb_exists in Hn as (x & Hx & ->%bool_decide_eq_true).
  specialize (Hws w Hw). etrans; [apply (Hc _ Hx)|exact Hws]. destruct Hws as [[Hi _] _]. congruence.
Qed.
Lemma safe_date_now : safe date_now.
Proof. apply harmless_atom; [|done]. intros p Hp. by split. Qed.
Lemma safe_random {A} (f : nat → A) : safe (random f).
Proof. apply harmless_atom; [|done]. intros p [Hn Hp]. split; [|done]. split; [cbn; lia|done]. Qed.
Lemma safe_insert d : k_id d ≠ k_id d0 → safe (insert_key d).
Proof.
  intros Hd. unfold insert_key. destruct (stored_algorithm _); [|done]. apply safe_command. intros c Hc x.
  pose proof (m_insert_law key_clash d c) as Hi. destruct (m_insert key_clash d c) as [c'|]; cbn [fst]; [|apply Hc].
  intros [->|Hx]%(inserted_In _ _ _ _ (proj2 Hi)) Hid; [done|by apply Hc].
Qed.
Lemma safe_activate n kid tenantId : safe (activate n kid tenantId).
Proof.
  induction n as [|n IH]; cbn [activate]; [done|]. apply harmless_bind; [apply safe_read|]. intros snapshot.
  apply harmless_bind; [apply safe_date_now|]. intros t. apply harmless_bind; [|by intros []].
  apply safe_commit. apply activation_forward.
Qed.
Lemma safe_retire kid tenantId : safe (retireKey kid tenantId).
Proof.
  apply harmless_bind; [apply safe_date_now|]. intros t. apply harmless_bind; [|done]. apply safe_update. apply retire_forward.
Qed.
Lemma safe_generate s tenantId a ttlMs : safe (generateKey s tenantId a ttlMs).
Proof.
  unfold generateKey. apply harmless_bind; [apply safe_random|]. intros kid. apply harmless_bind; [apply safe_date_now|]. intros t.
  apply harmless_bind; [apply safe_random|]. intros pair. intros p [Hn Hp]. split; [split; [cbn; lia|done]|]. exists 0%nat. split; [done|].
  cbn [fst snd]. apply (harmless_bind _ _ _ date_now); [apply safe_date_now|]. intros createdAt.
  apply harmless_bind; [|done]. apply safe_insert. cbn. by apply fresh.
Qed.

Lemma safe_perform o : safe (perform o).
Proof.
  destruct o; cbn [perform]; (apply harmless_bind; [|done]).
  - apply safe_generate.
  - apply harmless_bind; [apply safe_activate|done].
  - apply safe_retire.
  - apply harmless_bind; [apply safe_date_now|]. intros t. apply harmless_bind; [|done]. apply safe_update. intros d _. apply revoke_forward.
  - apply harmless_bind; [apply safe_read|]. intros current. apply harmless_bind.
    { destruct current; [|done]. apply harmless_bind; [apply safe_retire|done]. }
    intros _. apply harmless_bind; [apply safe_generate|]. intros newKey. apply harmless_bind; [apply safe_activate|done].
  - apply harmless_bind; [apply safe_date_now|]. intros t. apply safe_command. intros c Hc d. cbn [fst]. rewrite m_delete_many_law.
    intros [Hd _]%filter_In. by apply Hc.
  - apply harmless_bind; [apply safe_read|done].
  - apply harmless_bind; [apply safe_read|done].
Qed.

(** C18: A signing key only moves forward: under any interleaving of generations,
    activations, retirements, revocations, rotations and clean-ups, with commands
    failing or conflicting, whatever is stored under the identifier of a key is that
    key with the same pair, tenant and expiry, in the same state or a later one; in
    particular a revoked key is never anything else again. *)
Theorem keys_move_forward (E : state → state → Prop) p p' ops ps' :
  (∀ q q', E q q' → onward q → onward q') → onward p →
  reachable E (p, map perform ops) (p', ps') →
  ∀ d, In d (key_docs p') → k_id d = k_id d0 →
    forward d0 d ∧ (k_status d0 = kd_REVOKED → k_status d = kd_REVOKED).
Proof.
  intros HE Hp Hr d Hd Hid. assert (onward p') as [_ Hon].
  { eapply (invariant_reachable onward E); [exact HE| |exact Hr|exact Hp]. apply List.Forall_forall.
    intros t (o & <- & _)%in_map_iff. apply safe_perform. }
  specialize (Hon d Hd Hid). split; [done|]. intros Hrev. destruct Hon as [_ Hrank]. rewrite Hrev in Hrank.
  destruct (k_status d); cbn in Hrank; lia || done.
Qed.
End forward_only.

(** ** What activation leaves *)
Lemma run_command {A} (f : coll KeyDoc → coll KeyDoc * (exn + A)) p :
  db_faults (Process.state p) = [] →
  run (command f) p = (p <| Process.state := mkKeyDb (f (keys (Process.state p))).1 [] |>, (f (keys (Process.state p))).2).
Proof.
  intros Hf. unfold command. rewrite run_call, Hf. by destruct (f (keys (Process.state p))) as [c r].
Qed.

(** Writing documents of distinct identifiers that are in the collection. *)
Lemma write_all_spec ws (c : coll KeyDoc) d :
  unique_key k_id (docs c) → NoDup (map (λ w, k_id w.1) ws) →
  (∀ w, In w ws → k_id w.2 = k_id w.1 ∧ In w.1 (docs c)) →
  In d (docs (write_all ws c)) ↔ (∃ w, In w ws ∧ d = w.2) ∨ In d (docs c) ∧ ∀ w, In w ws → k_id d ≠ k_id w.1.
Proof.
  unfold write_all. revert c. induction ws as [|w ws IH]; intros c Hu Hnd Hws; cbn [foldl].
  { split; [intros Hd; right; by split|]. by intros [(w & [] & _)|[Hd _]]. }
  cbn in Hnd. apply NoDup_cons in Hnd as [Hw Hnd]. destruct (Hws w (or_introl eq_refl)) as [Hid Hin].
  assert (List.find (id_is (k_id w.1)) (docs c) = Some w.1) as Hf.
  { apply (find_by_key k_id _ _ (k_id w.1)); try done. intros x. apply bool_decide_eq_true. }
  assert (∀ x, In x (docs (m_update_one (id_is (k_id w.1)) (λ _, w.2) c)) ↔ x = w.2 ∨ In x (docs c) ∧ k_id x ≠ k_id w.1) as Hdoc.
  { intros x. rewrite m_update_one_law. by rewrite (In_alter_unique k_id _ (λ _, w.2) _ w.1). }
  assert (∀ w', In w' ws → k_id w'.1 ≠ k_id w.1) as Hne.
  { intros w' Hw' He. apply Hw. rewrite <- He. apply list_elem_of_In, in_map_iff. by exists w'. }
  assert (unique_key k_id (docs (m_update_one (id_is (k_id w.1)) (λ _, w.2) c))) as Hu'.
  { rewrite m_update_one_law. destruct (alter_first_some _ (λ _, w.2) _ _ Hf) as (l1 & l2 & He & -> & _). unfold unique_key in *.
    rewrite He in Hu. rewrite !map_app in *. cbn in *. by rewrite Hid. }
  rewrite (IH (m_update_one (id_is (k_id w.1)) (λ _, w.2) c) Hu' Hnd).
  2:{ intros w' Hw'. destruct (Hws w' (or_intror Hw')) as [? Hin']. split; [done|]. apply Hdoc. right. split; [done|by apply Hne]. }
  rewrite Hdoc. split.
  - intros [(w' & Hw' & ->)|[[->|[Hd Hdw]] Hall]]; [left; exists w'; split; [by right|done]|left; exists w; split; [by left|done]|].
    right. split; [done|]. intros w' [<-|Hw']; auto.
  - intros [(w' & [<-|Hw'] & ->)|[Hd Hall]]; [|by left; exists w'|].
    + right. split; [by left|]. intros w' Hw'. rewrite Hid. intros He. by apply (Hne w').
    + right. split; [right; split; [done|apply Hall; by left]|]. intros w' Hw'. apply Hall. by right.
Qed.

(** The writes of an activation, on the snapshot they come from. *)
Section activation_writes.
Context (kid tenantId : string) (t : Z) (l : list KeyDoc).
Notation ws := (activation kid tenantId t l).

Lemma in_activation w :
  In w ws ↔ (In w.1 l ∧ is_active tenantId w.1 = true ∧ w.2 = demote w.1) ∨
            (List.find (is_staged kid tenantId) l = Some w.1 ∧ w.2 = promote t w.1).
Proof.
  unfold activation. rewrite in_app_iff, in_map_iff. destruct w as [d d']. cbn [fst snd]. split.
  - intros [(x & [= <- <-] & [Hx Ha]%filter_In)|Hw]; [by left|]. right. destruct (List.find _ l) as [x|]; [|done].
    by destruct Hw as [[= <- <-]|[]].
  - intros [(Hd & Ha & ->)|[-> ->]]; [left; exists d; split; [done|by apply filter_In]|right; by left].
Qed.
Lemma activation_source w : In w ws → k_id w.2 = k_id w.1 ∧ In w.1 l.
Proof.
  intros Hw. split; [by apply activation_forward in Hw as [[? _] _]|].
  apply in_activation in Hw as [(Hd & _)|[Hd _]]; [done|]. by apply List.find_some in Hd as [? _].
Qed.
Lemma activation_no_conflict : no_conflict ws l = true.
Proof.
  apply forallb_forall. intros w Hw. apply existsb_exists. exists w.1. split; [by apply activation_source|by apply bool_decide_eq_true].
Qed.
Lemma active_not_staged d : is_active tenantId d = true → is_staged kid tenantId d = true → False.
Proof. intros [_ Ha%bool_decide_eq_true]%andb_true_iff [_ Hs%bool_decide_eq_true]%andb_true_iff. congruence. Qed.
Lemma activation_distinct : unique_key k_id l → NoDup (map (λ w, k_id w.1) ws).
Proof.
  intros Hu. unfold activation. rewrite map_app, map_map. cbn. apply NoDup_app. split; [|split].
  - unfold unique_key in Hu. induction l as [|d l' IH]; [constructor|]. cbn in *. apply NoDup_cons in Hu as [Hd Hu].
    destruct (is_active tenantId d); [|auto]. cbn. constructor; [|auto].
    intros (x & Hx & [Hin _]%filter_In)%list_elem_of_In%in_map_iff. apply Hd, list_elem_of_In, in_map_iff. by exists x.
  - intros i (x & <- & [Hx Ha]%filter_In)%list_elem_of_In%in_map_iff. destruct (List.find _ _) as [d|] eqn:Hd; cbn; [|apply not_elem_of_nil].
    apply List.find_some in Hd as [Hin Hs]. intros He%list_elem_of_singleton.
    assert (x = d) as -> by (by eapply (unique_key_eq k_id)). by apply (active_not_staged d).
  - destruct (List.find _ _); cbn; repeat constructor. apply not_elem_of_nil.
Qed.
End activation_writes.

(** Activation leaves one signing key, or none: on a working database whose
    keys have distinct identifiers and kids, [activateKey] commits at once, answers
    the staged key made active, and afterwards that key is the only active one of
    the tenant; when there is no staged key of that kid it answers none and the
    tenant has no active key left.  Other tenants' keys, and the keys of the tenant
    that were not active, stay as they were. *)
Theorem activation_spec n kid tenantId p :
  db_faults (Process.state p) = [] → unique_key k_id (key_docs p) →
  ∃ p', run (activateKey (S n) kid tenantId) p =
      (p', inr (option_map project (option_map (promote (time p)) (List.find (is_staged kid tenantId) (key_docs p))))) ∧
    (∀ d, In d (key_docs p') → is_active tenantId d = true →
       Some d = option_map (promote (time p)) (List.find (is_staged kid tenantId) (key_docs p))) ∧
    (∀ x, List.find (is_staged kid tenantId) (key_docs p) = Some x → In (promote (time p) x) (key_docs p')) ∧
    ∀ d, In d (key_docs p) → is_active tenantId d = false → is_staged kid tenantId d = false → In d (key_docs p').
Proof.
  intros Hf Hu. unfold activateKey. cbn [activate]. set (ws := activation kid tenantId (time p) (key_docs p)).
  set (p' := p <| Process.state := mkKeyDb (keys (Process.state p)) [] |>
               <| Process.state := mkKeyDb (write_all ws (keys (Process.state p))) [] |>).
  assert (no_conflict ws (key_docs p) = true) as Hok by apply activation_no_conflict.
  exists p'. split.
  { rewrite run_bind. rewrite run_bind. unfold read_keys. rewrite run_command by done. cbn [fst snd]. rewrite run_bind, run_date_now.
    rewrite run_bind. unfold commit. rewrite run_command by done. cbn [Process.state keys set_field time fst snd].
    fold (key_docs p) ws. rewrite Hok. cbn [fst snd]. by rewrite run_ret, run_ret. }
  assert (∀ d, In d (key_docs p') ↔ (∃ w, In w ws ∧ d = w.2) ∨ In d (key_docs p) ∧ ∀ w, In w ws → k_id d ≠ k_id w.1) as Hin.
  { intros d. apply (write_all_spec ws (keys (Process.state p))); [done|by apply activation_distinct|apply activation_source]. }
  split; [|split].
  - intros d [(w & Hw & ->)|[Hd Hall]]%Hin Ha.
    + apply in_activation in Hw as [(_ & _ & Hw)|[-> ->]]; [|done]. rewrite Hw in Ha. unfold is_active, demote in Ha. cbn in Ha.
      by rewrite andb_false_r in Ha.
    + exfalso. apply (Hall (d, demote d)); [|done]. apply in_activation. by left.
  - intros x Hx. apply Hin. left. exists (x, promote (time p) x). split; [|done]. apply in_activation. by right.
  - intros d Hd Ha Hs. apply Hin. right. split; [done|]. intros w Hw He. destruct (activation_source _ _ _ _ _ Hw) as [_ Hw1].
    assert (d = w.1) as -> by (by apply (unique_key_eq k_id (key_docs p))).
    apply in_activation in Hw as [(_ & Hx & _)|[Hx _]]; [congruence|]. apply List.find_some in Hx as [_ Hx]. congruence.
Qed.
End key_store_service.
