(* ===== verification/Concrete.v ===== *)
(** * A platform to execute on

    One instance of every parameter of the development: collections as lists, the
    in-process cache, and transparent stand-ins for the cryptographic primitives
    that satisfy the laws the theorems assume of them.  The witnesses of the
    theorems run the definitions on it. *)

From S2P Require Export Tokens.
From S2P Require Export Interleave.
From Stdlib Require Import Ascii.

Definition repeat_char (n : nat) (c : ascii) : string := string_of_list (replicate n c).
Definition pad_to (n : nat) (s : string) : string :=
  string_of_list (take n (list_of_string s ++ replicate n "="%char)).
Definition nat_string (i : nat) : string := js_String (Z.of_nat i).

(** ** Signatures *)
Definition toy_suffix (pem : string) : option string :=
  match pem with
  | String a (String b (String c s)) =>
    if String.eqb (String a (String b (String c ""))) "PUB" ||
       String.eqb (String a (String b (String c ""))) "PRV" then Some s else None
  | _ => None
  end.

Definition toy_sign (digest : option string) (data priv : string) : option string :=
  match toy_suffix priv with
  | None => None
  | Some s =>
    match digest with
    | None => Some ("sig" +:+ s +:+ data)
    | Some _ => match joseToDerSignature (list_of_string (pad_to 64 (s +:+ data))) with
                | inr der => Some (string_of_list der)
                | inl _ => None
                end
    end
  end.

(** The tokens of the library: signed with the suffix of the key, as if by one more
    algorithm. *)
Definition toy_jwt_sign (payload : list (string * json)) (priv : string) (a : JwtSigningAlgorithm) (id : string)
    (opts : SignOptions) (now : Z) : jwt_error + string :=
  match toy_suffix priv with
  | None => inl (PlainError "secretOrPrivateKey is not valid")
  | Some s =>
    let input := signing_input [("alg", JStr (alg_string a)); ("typ", JStr "JWT"); ("kid", JStr id)]%string
      (claimsWithTime payload opts now) in
    inr (input +:+ "." +:+ to_base64url (s +:+ input))
  end.
Definition toy_jwt_verify (token pub : string) (a : JwtSigningAlgorithm) (opts : VerifyOptions) (now : Z) : jwt_error + json :=
  match split_dot token, toy_suffix pub with
  | [h; p; c], Some s =>
    require (String.eqb (from_base64 c) (s +:+ (h +:+ "." +:+ p))) jwt_invalid_signature ≫= λ _,
    header ← from_some (parse (from_base64 h)) (JsonWebTokenError "invalid token");
    alg ← get_prop header "alg";
    require (match alg with Some (JStr x) => String.eqb x (alg_string a) | _ => false end) (JsonWebTokenError "invalid algorithm") ≫= λ _,
    claims ← from_some (parse (from_base64 p)) (JsonWebTokenError "invalid token");
    assertJwtClaims claims opts now ≫= λ _,
    inr claims
  | _, _ => inl (JsonWebTokenError "jwt malformed")
  end.

#[export] Instance toy_jwt : JwtCrypto := {
  generateKeyPairSync i a := ("PUB" +:+ nat_string i, "PRV" +:+ nat_string i);
  mlDsa_keygen i a := ("pk" +:+ nat_string i, "sk" +:+ nat_string i);
  createPublicKey := toy_suffix;
  createPrivateKey pem := match toy_suffix pem with Some _ => true | None => false end;
  export_jwk pem := [("kty", "OKP"); ("crv", "Ed25519"); ("x", pem)]%string;
  nodeSign := toy_sign;
  nodeVerify digest data pub sig :=
    match toy_sign digest data pub with Some s => Some (String.eqb s sig) | None => None end;
  mlDsa_sign a data sk := sk +:+ ":" +:+ data;
  mlDsa_verify a sig data pk :=
    String.eqb sig ("s" +:+ match pk with String _ s => s | EmptyString => "" end +:+ ":" +:+ data);
  jwt_sign := toy_jwt_sign;
  jwt_verify := toy_jwt_verify;
}.

Lemma toy_sign_key digest data a b :
  toy_suffix a = toy_suffix b → toy_sign digest data a = toy_sign digest data b.
Proof. unfold toy_sign. by intros ->. Qed.

#[export] Instance toy_jwt_laws : JwtCryptoLaws toy_jwt.
Proof.
  split.
  - intros digest data priv pub sig Hp _ Hs. cbn in *.
    rewrite <- (toy_sign_key digest data priv pub Hp), Hs. by rewrite String.eqb_refl.
  - intros digest data priv Hp. cbn in *. unfold toy_sign.
    destruct (toy_suffix priv) as [s|]; [|done]. destruct digest; [|eauto].
    destruct (joseToDer_total (list_of_string (pad_to 64 (s +:+ data)))) as [der Hd].
    { unfold pad_to. rewrite list_of_string_of_list, length_take, length_app, length_replicate. lia. }
    rewrite Hd. eexists. split; [done|]. unfold joseToDerSignature in Hd.
    destruct (negb _); [done|]. destruct (_ <? 128)%nat; by injection Hd as <-.
  - intros a i data. cbn. apply String.eqb_refl.
Qed.

#[export] Instance toy_library_laws : JwtLibraryLaws toy_jwt.
Proof.
  split; cbn [jwt_sign jwt_verify createPrivateKey createPublicKey toy_jwt].
  - intros payload priv a id opts now token. unfold toy_jwt_sign. destruct (toy_suffix priv) as [s|]; [|done].
    intros [= <-]. eexists. split.
    + cbv zeta. unfold signing_input. rewrite !str_app_assoc. by rewrite split_dot_app by apply base64url_no_dot.
    + done.
  - intros payload priv pub a id opts vopts now t token _ _ Hpair _. unfold toy_jwt_sign, toy_jwt_verify. rewrite Hpair.
    destruct (toy_suffix pub) as [s|]; [|intros [=]]. intros [= <-] _ Hv.
    exists (claimsWithTime payload opts now). split; [|done]. cbv zeta. rewrite signed_parts. cbn [fst]. rewrite !from_to_base64url, !parse_stringify.
    rewrite signing_input_eq, String.eqb_refl. cbn [require mbind sum_bind from_some get_prop obj_get].
    change (obj_get "alg" _) with (Some (JStr (alg_string a))). cbv iota beta. rewrite String.eqb_refl.
    cbn [require mbind sum_bind]. by rewrite Hv.
Qed.

(** ** Redis

    A client that is up or down over an in-process store, with the errors of [SET]
    and [INCR]. *)
Record toy_redis := mkToyRedis { tr_up : bool; tr_data : MemoryCache.mem }.
#[export] Instance toy_redis_client : RedisLike toy_redis := {
  rl_ready := tr_up;
  rl_get k now r := let '(m, v) := cache_get k now (tr_data r) in (mkToyRedis (tr_up r) m, inr v);
  rl_set k v ttl now r :=
    if match ttl with Some s => s <=? 0 | None => false end
    then (r, inl (JsError "ERR invalid expire time in 'set' command"))
    else (mkToyRedis (tr_up r) (cache_set k v ttl now (tr_data r)), inr tt);
  rl_del k r := (mkToyRedis (tr_up r) (cache_del k (tr_data r)), inr tt);
  rl_has_counters _ := true;
  rl_incr k now r :=
    if match cview (tr_data r) k with Some (v, e) => (now <=? e) && bool_decide (js_Number v = None) | None => false end
    then (r, inl (JsError "ERR value is not an integer or out of range"))
    else let '(m, n) := cache_incrementAndExpire k 86400 now (tr_data r) in (mkToyRedis (tr_up r) m, inr (nullish n 0));
  rl_expire k s now r := (r, inr tt);
  rview r := cview (tr_data r);
}.
Lemma toy_countable k now (m : MemoryCache.mem) :
  countable (cview m k) now →
  match cview m k with Some (v, e) => (now <=? e) && bool_decide (js_Number v = None) | None => false end ≠ true.
Proof.
  intros Hc. destruct (cview m k) as [[v e]|]; [|done]. intros [He Hn]%andb_true_iff. bool_to_prop.
  destruct (Hc v e eq_refl He) as (n & -> & _). by rewrite js_Number_String in Hn.
Qed.
#[export] Instance toy_redis_reliable : RedisLikeReliable toy_redis.
Proof.
  split.
  - done.
  - intros k now [up m] Hup. cbn [rl_get rl_ready rview toy_redis_client tr_up tr_data] in *.
    destruct (get_law k now m) as [Hf Hg]. destruct (cache_get k now m) as [m' v]. cbn [fst snd tr_up tr_data] in *.
    exists v. split; [done|]. split; [done|]. split; [exact Hf|]. intros x ->. by apply Hg.
  - intros k v ttl now [up m] Hup. cbn [rl_set toy_redis_client]. destruct (match ttl with Some s => s <=? 0 | None => false end).
    + by split.
    + split; [done|]. intros k' x. apply set_other_law.
  - intros k v ttl now [up m] Hup Ht. assert (ttl_ok ttl) as Htok by (destruct ttl as [s|]; [specialize (Ht s eq_refl); cbn; lia|done]).
    assert (match ttl with Some s => s <=? 0 | None => false end = false) as Hpos
      by (destruct ttl as [s|]; [specialize (Ht s eq_refl); lia|done]).
    cbn [rl_set toy_redis_client]. rewrite Hpos. split; [done|]. intros x. by apply set_law.
  - intros k [up m] Hup. split; [done|]. split; [done|]. apply del_law.
  - intros k now [up m] Hup Hc. cbn [rl_incr rl_ready rview toy_redis_client tr_up tr_data] in *.
    rewrite (not_true_is_false _ (toy_countable k now m Hc)).
    destruct (incr_law k 86400 now m Hc ltac:(done)) as [Ho Hn].
    assert (∃ n, (cache_incrementAndExpire k 86400 now m).2 = Some n) as [n Hr] by (by eexists).
    pose proof (MemoryCache.incr_expiry k 86400 now m) as Hexp.
    destruct (cache_incrementAndExpire k 86400 now m) as [m' r]. cbn [fst snd tr_up tr_data] in *. subst r.
    destruct (Hn n eq_refl) as [-> Hv]. split; [done|]. split; [done|]. split.
    { destruct Hv as [e He]. exists e. split; [|done]. rewrite (Hexp _ e He). lia. }
    intros k' x Hne. apply Ho. by left.
  - intros k s now [up m] Hup _. split; [done|]. split; [done|]. split; [|done]. intros v e. by exists e.
Qed.

(** ** The platform *)
Definition toy_random (i n : nat) : string :=
  string_of_list (take n (ascii_of_nat (48 + i mod 64) :: replicate (n - 1) "0"%char)).

Definition toy_tag (key iv aad : string) : string := pad_to 16 (iv +:+ key +:+ aad).

#[export] Instance toy_platform : Platform := {
  coll := list;
  coll_mongo := list_mongo;
  cache := RedisCacheImpl.t toy_redis;
  cache_ops := RedisCacheImpl.impl_cache;
  jwt_crypto := toy_jwt;
  createHash a s := "h" +:+ s;
  hmac_sha1 key s := pad_to 20 (key +:+ s);
  randomBytes := toy_random;
  randomInt i lo hi := lo + Z.of_nat i mod (hi - lo);
  randomUUID i := "uuid" +:+ nat_string i;
  newObjectId i := "id" +:+ nat_string i;
  aes_256_gcm_seal key iv aad plain := (plain, toy_tag key iv aad);
  aes_256_gcm_open key iv aad cipher tag :=
    if String.eqb tag (toy_tag key iv aad) then Some cipher else None;
  argon2_hash _ i pw := inr ("$argon2id$" +:+ pw)%string;
  argon2_verify h pw :=
    match strip "$argon2id$" h with
    | Some s => inr (String.eqb s pw)
    | None => inl (JsError "Invalid hash")
    end;
  encodeURIComponent s := s;
  URLSearchParams_toString l := foldr (λ kv s, kv.1 +:+ "=" +:+ kv.2 +:+ "&" +:+ s) "" l;
}.

(** The cache of a deployment whose Redis is up or down. *)
Definition toy_cache (up : bool) : cache :=
  RedisCacheImpl.mkRedisCacheImpl (Some (mkToyRedis up (MemoryCache.empty_mem 100))) "pezhwan"
    (MemoryCache.empty_mem 100).
#[export] Instance toy_cache_laws : RedisCacheLaws cache := RedisCacheImpl.impl_cache_laws.

(** An empty deployment at time [t]. *)
Definition empty_world (t : Z) (tx : bool) : world toy_platform :=
  mkWorld [] [] [] [] [] [] [] [] [] [] [] [] [] [] [] [] [] [] [] [] [] [] [] [] [] (toy_cache true) []
    (KeyStore.mkKeyStore [] EdDSA) t 0 [] tx [] [].

Definition toy_tokens : TokenService :=
  mkTokenService "issuer" "audience" 900000 2592000000 EdDSA sha256.

(** The outcome of a run. *)
Definition result_of {A} (p : prog (world toy_platform) A) (w : world toy_platform) : exn + A :=
  (run p w).2.
Definition world_of {A} (p : prog (world toy_platform) A) (w : world toy_platform) : world toy_platform :=
  (run p w).1.

(** ** Tools of the witnesses *)
Ltac all_distinct := unfold unique_key; decided.

Lemma run_split {A} (p : prog (world toy_platform) A) w r : result_of p w = r → run p w = (world_of p w, r).
Proof. intros <-. apply surjective_pairing. Qed.

(** A race: two threads served in a given order of their actions. *)
Definition in_turn (s : list nat) {A} (w : world toy_platform) (ps : list (prog (world toy_platform) A)) :=
  run_schedule s (w, ps).
Lemma in_turn_reachable (E : world toy_platform → world toy_platform → Prop) s {A} w
    (ps : list (prog (world toy_platform) A)) :
  reachable E (w, ps) ((in_turn s w ps).1, (in_turn s w ps).2).
Proof. unfold in_turn. rewrite <- surjective_pairing. apply run_schedule_reachable. Qed.

(** The random source has a period: what it never yields is decided by evaluation. *)
Lemma toy_random_period i n : toy_random i n = toy_random (i mod 64)%nat n.
Proof. unfold toy_random. by rewrite Nat.Div0.mod_mod. Qed.
Lemma toy_random_length i n : String.length (toy_random i n) = n.
Proof.
  unfold toy_random. rewrite length_string_of_list, length_take. cbn [length]. rewrite length_replicate. lia.
Qed.
Lemma never_drawn (f : string → string) (n : nat) (s : string) (i : nat) :
  forallb (λ k, negb (String.eqb (f (toy_random k n)) s)) (seq 0 64) = true → f (toy_random i n) ≠ s.
Proof.
  intros Hall. rewrite toy_random_period. rewrite forallb_forall in Hall.
  apply String.eqb_neq, negb_true_iff, Hall, in_seq.
  pose proof (Nat.mod_upper_bound i 64 ltac:(lia)). lia.
Qed.
