(* ===== verification/Session.v ===== *)
(** * Session service

    [packages/core/src/services/session.service.ts]: sessions with rotating
    refresh tokens.  A refresh claims the active session of the presented token
    atomically, creates its successor and finalises the parent in a transaction;
    presenting a settled token again revokes the whole family. *)

From S2P Require Export Tokens.
From S2P Require Export Transactions.
From S2P Require Export Stock.

Section session.
Context {P : Platform}.

Record SessionContext := mkSessionContext {
  sc_userId : string;
  sc_tenantId : string;
  sc_applicationId : string;
  sc_ip : option string;
  sc_userAgent : option string;
  sc_deviceLabel : option string;
}.

Record CreatedSession := mkCreatedSession {
  cs_sessionId : string;
  cs_userId : string;
  cs_tenantId : string;
  cs_applicationId : string;
  cs_familyId : string;
  cs_refreshToken : string;
  cs_refreshTokenHash : string;
  cs_expiresAt : Z;
}.

(** The context of a refresh. *)
Record RefreshContext := mkRefreshContext {
  rc_ip : option string;
  rc_userAgent : option string;
  rc_deviceLabel : option string;
  rc_tenantId : option string;
  rc_applicationId : option string;
}.

Record SessionService := mkSessionService {
  ss_tokens : TokenService;
  ss_refreshTokenTtlMs : Z;
  ss_maxActiveSessions : Z;
}.

Definition SESSION_CACHE_TTL_SECONDS : Z := 30.

Definition session_cacheKey (sessionId : string) : string := "session:" +:+ sessionId.

Definition cacheLiveness (sessionId : string) : prog (world P) () :=
  redis_set (session_cacheKey sessionId) "1" (Some SESSION_CACHE_TTL_SECONDS).

Definition set_revoked (at_ : Z) (d : SessionDoc) : SessionDoc :=
  d <| s_status := revoked |> <| s_revokedAt := Some at_ |>.

(** [revoke]. *)
Definition revoke (sessionId : string) : prog (world P) () :=
  t ← now;
  update_one (λ d, bool_decide (s_id d = sessionId)) (set_revoked t) ;;
  redis_del (session_cacheKey sessionId).

(** [revokeFamily]. *)
Definition revokeFamily (familyId : string) : prog (world P) () :=
  sessions ← find_all (λ d, bool_decide (s_familyId d = familyId));
  t ← now;
  update_many (λ d, bool_decide (s_familyId d = familyId)) (set_revoked t) ;;
  for_each sessions (λ s, redis_del (session_cacheKey (s_id s))).

(** [...(v ? { field: v } : {})]. *)
Definition scoped (v : option string) (field : string) : bool :=
  if truthy v then bool_decide (v = Some field) else true.

Definition user_active (userId : string) (applicationId tenantId : option string) (d : SessionDoc) : bool :=
  bool_decide (s_userId d = userId) && bool_decide (s_status d = active) &&
  scoped applicationId (s_applicationId d) && scoped tenantId (s_tenantId d).

(** [revokeAll]. *)
Definition revokeAll (userId : string) (applicationId tenantId : option string) : prog (world P) () :=
  docs ← find_all (user_active userId applicationId tenantId);
  t ← now;
  update_many (user_active userId applicationId tenantId) (set_revoked t) ;;
  for_each docs (λ d, redis_del (session_cacheKey (s_id d))).

(** [listActive]. *)
Definition listActive (userId : string) (applicationId : option string) : prog (world P) (list SessionDoc) :=
  find_sorted (λ d, - s_lastActiveAt d) (user_active userId applicationId None).

Definition app_active (userId applicationId : string) (d : SessionDoc) : bool :=
  bool_decide (s_userId d = userId) && bool_decide (s_applicationId d = applicationId) &&
  bool_decide (s_status d = active).

(** [enforceSessionLimit]. *)
Definition enforceSessionLimit (ss : SessionService) (userId applicationId : string) : prog (world P) () :=
  count ← count_documents (app_active userId applicationId);
  if ss_maxActiveSessions ss <=? count then
    oldest ← find_least s_lastActiveAt (app_active userId applicationId);
    match oldest with
    | Some d => revoke (s_id d)
    | None => mret tt
    end
  else mret tt.

(** [create]. *)
Definition create_session (ss : SessionService) (ctx : SessionContext) : prog (world P) CreatedSession :=
  enforceSessionLimit ss (sc_userId ctx) (sc_applicationId ctx) ;;
  familyId ← draw (λ i, js_lower (randomUUID i));
  pair ← createRefreshToken (ss_tokens ss);
  t ← now;
  let expiresAt := t + ss_refreshTokenTtlMs ss in
  t' ← now;
  id ← draw newObjectId;
  create (mkSessionDoc id (sc_userId ctx) (sc_tenantId ctx) (sc_applicationId ctx) active familyId
    (tp_refreshTokenHash pair) None
    (Some (mkDevice (nullish (sc_ip ctx) "") (nullish (sc_userAgent ctx) "")
       (nullish (sc_deviceLabel ctx) "Unknown device")))
    None None None None t' t' expiresAt None) ;;
  cacheLiveness id ;;
  mret (mkCreatedSession id (sc_userId ctx) (sc_tenantId ctx) (sc_applicationId ctx) familyId
    (tp_refreshToken pair) (tp_refreshTokenHash pair) expiresAt).

(** The filter of the atomic claim and of the look-up after it failed. *)
Definition presented (hash : string) (ctx : RefreshContext) (d : SessionDoc) : bool :=
  bool_decide (s_currentRefreshTokenHash d = hash) &&
  scoped (rc_tenantId ctx) (s_tenantId d) && scoped (rc_applicationId ctx) (s_applicationId d).
Definition claimable (hash : string) (ctx : RefreshContext) (d : SessionDoc) : bool :=
  presented hash ctx d && bool_decide (s_status d = active).
Definition claim (at_ : Z) (d : SessionDoc) : SessionDoc :=
  d <| s_status := rotating |> <| s_revokedAt := Some at_ |>.

Definition isSettled (s : SessionStatus) : bool :=
  match s with replaced | revoked | expired => true | _ => false end.

Definition REFRESH_TOKEN_UNKNOWN : exn :=
  SessionError "Refresh token is not recognized" "REFRESH_TOKEN_UNKNOWN".
Definition REFRESH_TOKEN_REUSE : exn :=
  SessionError "Refresh token reuse detected — session revoked" "REFRESH_TOKEN_REUSE".

(** [childData], without the identifier and timestamps the driver adds. *)
Definition childData (parent : SessionDoc) (ctx : RefreshContext) (hash id : string)
    (createdAt lastActiveAt expiresAt : Z) : SessionDoc :=
  mkSessionDoc id (s_userId parent) (s_tenantId parent) (s_applicationId parent) active
    (s_familyId parent) hash None
    (Some (mkDevice (nullish (rc_ip ctx) (nullish (d_ip <$> s_device parent) ""))
       (nullish (rc_userAgent ctx) (nullish (d_userAgent <$> s_device parent) ""))
       (nullish (rc_deviceLabel ctx) (nullish (d_deviceLabel <$> s_device parent) "Unknown device"))))
    None None None None createdAt lastActiveAt expiresAt None.

Definition set_replaced (childId : string) (at_ : Z) (d : SessionDoc) : SessionDoc :=
  d <| s_status := replaced |> <| s_replacedBySessionId := Some childId |> <| s_revokedAt := Some at_ |>.

(** [txBody]; it issues the same commands with and without a transaction. *)
Definition txBody (parent : SessionDoc) (ctx : RefreshContext) (hash : string)
    (lastActiveAt expiresAt : Z) (tx : bool) : prog (world P) (string * Z) :=
  childId ← draw newObjectId;
  createdAt ← now;
  create (childData parent ctx hash childId createdAt lastActiveAt expiresAt) ;;
  parentState ← find_one (λ d, bool_decide (s_id d = s_id parent));
  throw_if (match parentState with
            | Some d => negb (bool_decide (s_status d = rotating))
            | None => true
            end) REFRESH_TOKEN_REUSE ;;
  t ← now;
  update_one (λ d, bool_decide (s_id d = s_id parent)) (set_replaced childId t) ;;
  mret (childId, expiresAt).

Definition session_transaction : TransactionOptions :=
  mkTransactionOptions 3 25 (is_instance CSessionError) session_isTransientTransactionError.

(** What follows a failed claim. *)
Definition refuse (hash : string) (ctx : RefreshContext) : prog (world P) CreatedSession :=
  existing ← find_one (presented hash ctx);
  match existing with
  | None => Throw REFRESH_TOKEN_UNKNOWN
  | Some d =>
    (if isSettled (s_status d) then revokeFamily (s_familyId d) else mret tt) ;;
    Throw REFRESH_TOKEN_REUSE
  end.

(** What follows a successful claim. *)
Definition rotate (ss : SessionService) (session : SessionDoc) (ctx : RefreshContext) :
    prog (world P) CreatedSession :=
  t ← now;
  let expiresAt := t + ss_refreshTokenTtlMs ss in
  newPair ← createRefreshToken (ss_tokens ss);
  lastActiveAt ← now;
  result ← withTransaction (txBody session ctx (tp_refreshTokenHash newPair) lastActiveAt expiresAt)
             session_transaction;
  cacheLiveness (s_id session) ;;
  cacheLiveness result.1 ;;
  mret (mkCreatedSession result.1 (s_userId session) (s_tenantId session) (s_applicationId session)
    (s_familyId session) (tp_refreshToken newPair) (tp_refreshTokenHash newPair) result.2).

(** [refresh]. *)
Definition refresh (ss : SessionService) (presentedRefreshToken : string) (ctx : RefreshContext) :
    prog (world P) CreatedSession :=
  let hash := hashRefreshToken (ss_tokens ss) presentedRefreshToken in
  t ← now;
  session ← find_one_and_update (claimable hash ctx) (claim t);
  match session with
  | None => refuse hash ctx
  | Some d => rotate ss d ctx
  end.

(** [isSessionActive]. *)
Definition isSessionActive (sessionId : string) : prog (world P) bool :=
  cached ← redis_get (session_cacheKey sessionId);
  if bool_decide (cached = Some "1") then mret true
  else
    doc ← find_one (λ d, bool_decide (s_id d = sessionId));
    match doc with
    | None => mret false
    | Some d =>
      t ← now;
      if bool_decide (s_status d = active) && (t <? s_expiresAt d) then
        cacheLiveness sessionId ;; mret true
      else mret false
    end.

(** [touch]. *)
Definition touch (sessionId : string) : prog (world P) () :=
  t ← now;
  update_one (λ d, bool_decide (s_id d = sessionId)) (λ d, d <| s_lastActiveAt := t |>) ;;
  cacheLiveness sessionId.

(** ** Requests

    Everything clients of the service can have in flight at the same time. *)
Inductive session_request :=
| CreateSession (ctx : SessionContext)
| Refresh (token : string) (ctx : RefreshContext)
| Revoke (sessionId : string)
| RevokeFamily (familyId : string)
| RevokeAll (userId : string) (applicationId tenantId : option string)
| ListActive (userId : string) (applicationId : option string)
| IsSessionActive (sessionId : string)
| Touch (sessionId : string).

Inductive session_response :=
| Issued (s : CreatedSession)
| Done
| Listed (l : list SessionDoc)
| Active (b : bool).

Definition serve (ss : SessionService) (r : session_request) :
    prog (world P) (session_request * session_response) :=
  match r with
  | CreateSession ctx => s ← create_session ss ctx; mret (r, Issued s)
  | Refresh token ctx => s ← refresh ss token ctx; mret (r, Issued s)
  | Revoke i => revoke i ;; mret (r, Done)
  | RevokeFamily f => revokeFamily f ;; mret (r, Done)
  | RevokeAll u a t => revokeAll u a t ;; mret (r, Done)
  | ListActive u a => l ← listActive u a; mret (r, Listed l)
  | IsSessionActive i => b ← isSessionActive i; mret (r, Active b)
  | Touch i => touch i ;; mret (r, Done)
  end.
End session.

(** ** A refresh token is redeemed at most once *)
Section single_use.
Context {P : Platform} (ss : SessionService) (h : string) (n0 : nat).

(** The active sessions the token with hash [h] could still claim. *)
Definition live_token (d : SessionDoc) : bool :=
  bool_decide (s_currentRefreshTokenHash d = h) && bool_decide (s_status d = active).
(** Tokens drawn from the [n0]-th draw on do not hash to [h]. *)
Definition fresh_from : Prop := ∀ i, (n0 ≤ i)%nat → tp_refreshTokenHash (refresh_pair (ss_tokens ss) i) ≠ h.

Lemma live_revoked t : never_revives live_token (set_revoked t).
Proof. intros d. unfold live_token. cbn. rewrite andb_comm. by rewrite bool_decide_false. Qed.
Lemma live_claimed t : never_revives live_token (claim t).
Proof. intros d. unfold live_token. cbn. rewrite andb_comm. by rewrite bool_decide_false. Qed.
Lemma live_replaced i t : never_revives live_token (set_replaced i t).
Proof. intros d. unfold live_token. cbn. rewrite andb_comm. by rewrite bool_decide_false. Qed.

Lemma live_touched t : never_revives live_token (λ d, d <| s_lastActiveAt := t |>).
Proof. by intros d. Qed.

#[local] Hint Resolve live_revoked live_claimed live_replaced live_touched : guarantee_db.

Lemma g_revoke i : guarantee (keeps (drawn n0) (stock live_token)) (revoke i).
Proof. unfold revoke. solve_guarantee. Qed.
Lemma g_revokeFamily f : guarantee (keeps (drawn n0) (stock live_token)) (revokeFamily f).
Proof. unfold revokeFamily. solve_guarantee. Qed.
Lemma g_revokeAll u a t : guarantee (keeps (drawn n0) (stock live_token)) (revokeAll u a t).
Proof. unfold revokeAll. solve_guarantee. Qed.
Lemma g_isSessionActive i : guarantee (keeps (drawn n0) (stock live_token)) (isSessionActive i).
Proof. unfold isSessionActive, cacheLiveness. solve_guarantee. Qed.
Lemma g_touch i : guarantee (keeps (drawn n0) (stock live_token)) (touch i).
Proof. unfold touch, cacheLiveness. solve_guarantee. Qed.
#[local] Hint Resolve g_revoke g_revokeFamily g_revokeAll : guarantee_db.
Lemma g_enforceSessionLimit u a : guarantee (keeps (drawn n0) (stock live_token)) (enforceSessionLimit ss u a).
Proof. unfold enforceSessionLimit. solve_guarantee. Qed.
Lemma g_refuse hash ctx : guarantee (keeps (drawn n0) (stock live_token)) (refuse hash ctx).
Proof. unfold refuse. solve_guarantee. Qed.

#[local] Hint Resolve g_enforceSessionLimit g_refuse g_isSessionActive g_touch : guarantee_db.

Lemma g_txBody parent ctx hash a e tx :
  hash ≠ h → guarantee (keeps (drawn n0) (stock live_token)) (txBody parent ctx hash a e tx).
Proof.
  intros Hh. unfold txBody. apply guarantee_bind; [apply g_draw|]. intros i.
  apply guarantee_bind; [apply g_now|]. intros t. apply guarantee_bind.
  - apply g_create. unfold live_token. cbn. by rewrite bool_decide_false.
  - solve_guarantee.
Qed.

(** A drawn refresh token never hashes to [h]. *)
Lemma harmless_createRefreshToken {A} (k : TokenPair → prog (world P) A) :
  fresh_from → (∀ pair, tp_refreshTokenHash pair ≠ h → harmless (drawn n0) (stock live_token) (k pair)) →
  harmless (drawn n0) (stock live_token) (createRefreshToken (ss_tokens ss) ≫= k).
Proof.
  intros Hf Hk. apply pays_atom. intros w Hw. cbn [fst snd]. split; [unfold drawn in *; cbn; lia|].
  exists 0%nat. split; [done|]. apply Hk, Hf, Hw.
Qed.

Lemma harmless_rotate d ctx : fresh_from → harmless (drawn n0) (stock live_token) (rotate ss d ctx).
Proof.
  intros Hf. unfold rotate. apply harmless_bind; [apply guarantee_harmless, g_now|]. intros t.
  apply harmless_createRefreshToken; [done|]. intros pair Hp.
  apply guarantee_harmless. apply guarantee_bind; [apply g_now|]. intros a.
  apply guarantee_bind; [|unfold cacheLiveness; intros r; solve_guarantee].
  apply guarantee_withTransaction; [apply _|apply stock_faults|by intros; apply stock_store
    |apply stock_rollback|done|]. intros b. by apply g_txBody.
Qed.

Lemma harmless_create ctx : fresh_from → harmless (drawn n0) (stock live_token) (create_session ss ctx).
Proof.
  intros Hf. unfold create_session.
  apply harmless_bind; [apply guarantee_harmless, g_enforceSessionLimit|]. intros [].
  apply harmless_bind; [apply guarantee_harmless, g_draw|]. intros f.
  apply harmless_createRefreshToken; [done|]. intros pair Hp. apply guarantee_harmless.
  apply guarantee_bind; [apply g_now|]. intros t. apply guarantee_bind; [apply g_now|]. intros t'.
  apply guarantee_bind; [apply g_draw|]. intros i. apply guarantee_bind.
  - apply g_create. unfold live_token. cbn. by rewrite bool_decide_false.
  - unfold cacheLiveness. solve_guarantee.
Qed.

(** A response that hands out a new pair for a token with hash [h]. *)
Definition redeemed (r : session_request * session_response) : bool :=
  match r with
  | (Refresh token _, Issued _) => bool_decide (hashRefreshToken (ss_tokens ss) token = h)
  | _ => false
  end.

(** The claim is paid for with the live session it takes. *)
Lemma pays_claim t ctx :
  pays (drawn n0) (stock live_token) 0 (find_one_and_update (claimable h ctx) (claim t))
    (λ r m, match r with inr (Some _) => (1 ≤ m)%nat | _ => True end).
Proof.
  apply pays_redeem.
  - intros d Hc. unfold claimable, presented in Hc. bool_to_prop. unfold live_token.
    by rewrite !bool_decide_true.
  - intros d. unfold live_token. cbn. rewrite andb_comm. by rewrite bool_decide_false.
Qed.

Lemma harmless_refresh token ctx :
  fresh_from → harmless (drawn n0) (stock live_token) (refresh ss token ctx).
Proof.
  intros Hf. unfold refresh. apply harmless_bind; [apply guarantee_harmless, g_now|]. intros t.
  apply harmless_bind.
  - apply guarantee_harmless, g_find_one_and_update, live_claimed.
  - intros [d|]; [by apply harmless_rotate|]. apply guarantee_harmless, g_refuse.
Qed.

Lemma pays_refresh token ctx :
  fresh_from →
  pays (drawn n0) (stock live_token) 0 (refresh ss token ctx) (λ r m, match r with
    inr _ => hashRefreshToken (ss_tokens ss) token = h → (1 ≤ m)%nat | inl _ => True end).
Proof.
  intros Hf. destruct (decide (hashRefreshToken (ss_tokens ss) token = h)) as [Hh|Hh].
  - unfold refresh. rewrite Hh. apply pays_harmless_bind; [apply guarantee_harmless, g_now|done|].
    intros m t _. apply pays_bind. eapply pays_mono; [apply (pays_frame _ _ _ 0 m), pays_claim|].
    intros [e|[d|]] n (n' & -> & Hn); [done| |].
    + apply pays_harmless; [by apply harmless_rotate|]. intros [e|a] k Hk; [done|lia].
    + apply (pays_bind _ _ _ _ (find_one (presented h ctx))). apply pays_harmless.
      { apply guarantee_harmless, g_read. }
      intros [e|[d|]] k _; [done| |done]. apply pays_bind.
      apply pays_harmless; [|by intros [e|[]] k' _].
      destruct (isSettled _); [|done]. apply guarantee_harmless, g_revokeFamily.
  - apply pays_harmless; [by apply harmless_refresh|]. by intros [e|a] m _.
Qed.

Lemma pays_serve r : fresh_from → pays (drawn n0) (stock live_token) 0 (serve ss r) (won redeemed).
Proof.
  intros Hf.
  assert (∀ A (p : prog (world P) A) (k : A → session_response), harmless (drawn n0) (stock live_token) p →
    match r with Refresh _ _ => False | _ => True end →
    pays (drawn n0) (stock live_token) 0 (a ← p; mret (r, k a)) (won redeemed)) as Hother.
  { intros A p k Hp Hr. apply pays_bind. apply pays_harmless; [done|].
    intros [e|a] m _; [done|]. cbn. by destruct r. }
  destruct r; cbn [serve].
  - apply Hother; [|done]. by apply harmless_create.
  - apply pays_bind. eapply pays_mono; [by apply pays_refresh|]. intros [e|s] m Hm; [done|].
    cbn. intros Hw%bool_decide_eq_true. auto.
  - apply (Hother _ _ (λ _, Done)); [|done]. apply guarantee_harmless, g_revoke.
  - apply (Hother _ _ (λ _, Done)); [|done]. apply guarantee_harmless, g_revokeFamily.
  - apply (Hother _ _ (λ _, Done)); [|done]. apply guarantee_harmless, g_revokeAll.
  - apply Hother; [|done]. apply guarantee_harmless, g_read.
  - apply Hother; [|done]. apply guarantee_harmless, g_isSessionActive.
  - apply (Hother _ _ (λ _, Done)); [|done]. apply guarantee_harmless, g_touch.
Qed.

End single_use.

(** ** What a refresh does when no command fails *)
Section refresh.
Context {P : Platform} (ss : SessionService).

Definition sessions_wf (w : world P) : Prop :=
  unique_key s_id (docs (sessions w)) ∧ unique_key s_currentRefreshTokenHash (docs (sessions w)).

(** The identifier and the pair a refresh from [w] draws. *)
Definition next_pair (w : world P) : TokenPair := refresh_pair (ss_tokens ss) (draws w).
Definition next_child (w : world P) : string := newObjectId (S (draws w)).

Definition child_of (w : world P) (p : SessionDoc) (ctx : RefreshContext) : SessionDoc :=
  childData (claim (clock w) p) ctx (tp_refreshTokenHash (next_pair w)) (next_child w)
    (clock w) (clock w) (clock w + ss_refreshTokenTtlMs ss).

Lemma txBody_run p ctx hash a e tx w c :
  healthy w → unique_key s_id (docs (sessions w)) → In p (docs (sessions w)) →
  s_status p = rotating →
  c = childData p ctx hash (newObjectId (draws w)) (clock w) a e →
  (∀ d, In d (docs (sessions w)) → s_id d ≠ s_id c ∧ s_currentRefreshTokenHash d ≠ hash) →
  ∃ w', run (txBody p ctx hash a e tx) w = (w', inr (s_id c, e)) ∧ healthy w' ∧
    redis w' = redis w ∧ clock w' = clock w ∧
    unique_key s_id (docs (sessions w')) ∧
    ∃ l, inserted c (docs (sessions w)) l ∧
      docs (sessions w') =
        alter_first (λ d, bool_decide (s_id d = s_id p)) (set_replaced (s_id c) (clock w)) l.
Proof.
  intros Hh Hu Hp Hs Hc Hfresh. unfold txBody. do 2 run_step. cbn [clock set_field].
  rewrite <- Hc. rewrite run_bind.
  destruct (run_create c (w <| draws ::= S |>)) as (cs & Hrun & Hins); [healthy_ok| |].
  { apply not_true_is_false. intros (d & Hd & Hcl)%existsb_exists. cbn in Hd.
    destruct (Hfresh d Hd) as [H1 H2]. unfold clash, sessions_table, session_clash in Hcl.
    subst c. cbn in *. rewrite !bool_decide_false in Hcl by congruence. done. }
  rewrite Hrun. cbn [tbl sessions_table] in Hins. run_step. cbn [tbl sessions_table upd_tbl sessions set_field].
  assert (unique_key s_id (docs cs)) as Hucs.
  { apply (inserted_unique _ _ _ _ Hins); [done|]. intros y Hy. by destruct (Hfresh y Hy). }
  rewrite (find_by_key s_id (docs cs) p (s_id p)).
  - run_step. rewrite bool_decide_true by done. cbn [negb]. do 3 run_step.
    assert (s_id c = newObjectId (draws w)) as -> by (by rewrite Hc). eexists. split; [reflexivity|]. split; [done|]. cbn [redis clock sessions upd_tbl sessions_table set_field].
    rewrite m_update_one_law. do 2 (split; [done|]). split; [by apply unique_key_alter|].
    exists (docs cs). done.
  - done.
  - apply (inserted_In _ _ _ p Hins). by right.
  - done.
  - intros d. by rewrite bool_decide_eq_true.
Qed.

(** Both forms of the transaction wrapper run the body once. *)
Lemma run_session_transaction {A} (work : bool → prog (world P) A) w w' a :
  healthy w → healthy w' → (∀ b, run (work b) w = (w', inr a)) →
  run (withTransaction work session_transaction) w = (w', inr a).
Proof.
  intros Hh Hh' Hw. destruct (transactional w) eqn:Ht.
  - by apply withTransaction_commits; [..|cbn; lia| |].
  - by rewrite withTransaction_standalone.
Qed.

Definition healthy_presented (token : string) (ctx : RefreshContext) (w : world P) (p : SessionDoc) : Prop :=
  healthy w ∧ sessions_wf w ∧ In p (docs (sessions w)) ∧
  presented (hashRefreshToken (ss_tokens ss) token) ctx p = true.

Lemma find_presented token ctx w p f :
  healthy_presented token ctx w p →
  (∀ d, f d = true → s_currentRefreshTokenHash d = hashRefreshToken (ss_tokens ss) token) →
  List.find f (docs (sessions w)) = if f p then Some p else None.
Proof.
  intros (_ & [_ Hu] & Hin & Hp) Hf. unfold presented in Hp. bool_to_prop.
  destruct (f p) eqn:Hfp.
  - apply find_unique; [done..|]. intros x Hx Hfx.
    apply (unique_key_eq _ _ _ _ Hu Hx Hin). by rewrite (Hf x Hfx).
  - destruct (List.find f (docs (sessions w))) as [x|] eqn:Hx; [|done].
    apply find_some in Hx as [Hix Hfx]. assert (x = p) as ->; [|congruence].
    apply (unique_key_eq _ _ _ _ Hu Hix Hin). by rewrite (Hf x Hfx).
Qed.

(** The token of an active session: the session is replaced by exactly one new
    active session of the same family, and every other session is untouched. *)
Lemma refresh_rotates_run token ctx w p :
  healthy_presented token ctx w p → s_status p = active →
  (∀ d, In d (docs (sessions w)) →
     s_id d ≠ next_child w ∧ s_currentRefreshTokenHash d ≠ tp_refreshTokenHash (next_pair w)) →
  let child := child_of w p ctx in
  ∃ w', run (refresh ss token ctx) w =
      (w', inr (mkCreatedSession (s_id child) (s_userId p) (s_tenantId p) (s_applicationId p)
             (s_familyId p) (tp_refreshToken (next_pair w)) (tp_refreshTokenHash (next_pair w))
             (s_expiresAt child))) ∧
    healthy w' ∧
    ∀ x, In x (docs (sessions w')) ↔
      x = child ∨ x = set_replaced (s_id child) (clock w) (claim (clock w) p) ∨
      In x (docs (sessions w)) ∧ s_id x ≠ s_id p.
Proof.
  intros Hp Hs Hfresh child. pose proof Hp as (Hh & [Hui Huh] & Hin & Hpr).
  set (h := hashRefreshToken (ss_tokens ss) token) in *.
  unfold refresh. fold h. do 2 run_step. cbn [tbl sessions_table].
  rewrite (find_presented token ctx w p) by
    (done || intros d; unfold claimable, presented; intros ?; bool_to_prop; done).
  assert (claimable h ctx p = true) as Hcl
    by (unfold claimable; by rewrite Hpr, bool_decide_true by done).
  fold h. rewrite Hcl. cbn [option_map]. unfold rotate, createRefreshToken. do 3 run_step.
  cbn [clock upd_tbl sessions_table set_field]. set (w1 := set_field draws S _).
  assert (docs (sessions w1) = alter_first (claimable h ctx) (claim (clock w)) (docs (sessions w))) as Hw1.
  { cbn. by rewrite m_update_one_law. }
  assert (List.find (claimable h ctx) (docs (sessions w)) = Some p) as Hfind.
  { subst h. rewrite (find_presented token ctx w p); [by rewrite Hcl|done|].
    intros d. unfold claimable, presented. intros ?. by bool_to_prop. }
  pose proof (λ x, In_alter_unique s_id _ (claim (clock w)) _ p x Hui Hfind) as HIn1.
  destruct (txBody_run (claim (clock w) p) ctx (tp_refreshTokenHash (next_pair w)) (clock w)
    (clock w + ss_refreshTokenTtlMs ss) true w1 child) as (w2 & Hrun & Hh2 & _ & Hck & _ & l & Hins & Hl).
  - done.
  - rewrite Hw1. by apply unique_key_alter.
  - rewrite Hw1. apply HIn1; by left.
  - done.
  - done.
  - intros d. rewrite Hw1, (HIn1 d). intros [->|[Hd _]]; [|by apply Hfresh].
    by apply (Hfresh p).
  - rewrite run_bind. rewrite (run_session_transaction _ w1 w2 _ Hh Hh2) by (intros b; exact Hrun).
    unfold cacheLiveness. do 3 run_step. eexists. split; [reflexivity|]. split; [done|].
    intros x. cbn [sessions set_field]. rewrite Hl.
    assert (unique_key s_id l) as Hul.
    { apply (inserted_unique _ _ _ _ Hins); [rewrite Hw1; by apply unique_key_alter|].
      intros y. rewrite Hw1, (HIn1 y). intros [->|[Hy _]] Heq.
      - by apply (proj1 (Hfresh p Hin)).
      - by apply (proj1 (Hfresh y Hy)). }
    rewrite (In_alter_unique s_id _ _ _ (claim (clock w) p)); [|done|].
    + rewrite (inserted_In _ _ _ x Hins), Hw1, (HIn1 x). split.
      * intros [->|[[->|[->|[Hx _]]] Hne]]; auto. by destruct Hne.
      * intros [->|[->|[Hx Hne]]]; [right|by left|right].
        -- split; [by left|]. intros Heq. by apply (proj1 (Hfresh p Hin)).
        -- split; [by right; right|done].
    + apply (find_by_key s_id _ _ (s_id p)); [done| |done|].
      * apply (inserted_In _ _ _ _ Hins). right. rewrite Hw1. apply HIn1; by left.
      * intros d. by rewrite bool_decide_eq_true.
Qed.

(** *** Refusals *)
Lemma run_revokeFamily f w :
  healthy w → ∃ w', run (revokeFamily f) w = (w', inr tt) ∧ healthy w' ∧
    docs (sessions w') = alter_all (λ d, bool_decide (s_familyId d = f)) (set_revoked (clock w)) (docs (sessions w)).
Proof.
  intros Hh. unfold revokeFamily. do 3 run_step. cbn [tbl upd_tbl sessions_table clock].
  set (w1 := set_field sessions _ w).
  assert (∀ l v, healthy v → ∃ w', run (for_each l (λ s : SessionDoc, redis_del (session_cacheKey (s_id s)))) v = (w', inr tt)
    ∧ healthy w' ∧ sessions w' = sessions v) as Hloop.
  { induction l as [|d l IH]; intros v Hv; [by exists v|]. cbn [for_each]. run_step.
    set (v' := v <| redis ::= cache_del (session_cacheKey (s_id d)) |>). by apply (IH v'). }
  destruct (Hloop (List.filter (λ d, bool_decide (s_familyId d = f)) (docs (sessions w))) w1 Hh) as (w' & -> & Hh' & Hs).
  exists w'. split; [done|]. split; [done|]. rewrite Hs. cbn. by rewrite m_update_many_law.
Qed.

Lemma not_claimable token ctx w p :
  healthy_presented token ctx w p → s_status p ≠ active →
  List.find (claimable (hashRefreshToken (ss_tokens ss) token) ctx) (docs (sessions w)) = None.
Proof.
  intros Hp Hs. rewrite (find_presented token ctx w p); [|done|].
  - unfold claimable. by rewrite (bool_decide_false (s_status p = active)), andb_false_r.
  - intros d. unfold claimable, presented. intros ?. by bool_to_prop.
Qed.

(** A failed claim leaves the sessions as they are. *)
Lemma run_failed_claim token ctx w :
  healthy w →
  List.find (claimable (hashRefreshToken (ss_tokens ss) token) ctx) (docs (sessions w)) = None →
  ∃ w1, run (refresh ss token ctx) w = run (refuse (hashRefreshToken (ss_tokens ss) token) ctx) w1 ∧
    healthy w1 ∧ clock w1 = clock w ∧ docs (sessions w1) = docs (sessions w).
Proof.
  intros Hh Hf. unfold refresh. do 2 run_step. cbn [tbl sessions_table]. rewrite Hf. cbn [option_map].
  eexists. split; [done|]. split; [done|]. split; [done|]. cbn. by rewrite m_update_one_law, alter_first_none.
Qed.

Lemma refuse_presented token ctx w p :
  healthy_presented token ctx w p → s_status p ≠ active →
  ∃ w', run (refresh ss token ctx) w = (w', inl REFRESH_TOKEN_REUSE) ∧
    docs (sessions w') =
      if isSettled (s_status p)
      then alter_all (λ d, bool_decide (s_familyId d = s_familyId p)) (set_revoked (clock w)) (docs (sessions w))
      else docs (sessions w).
Proof.
  intros Hp Hs. pose proof Hp as (Hh & _ & Hin & Hpr).
  destruct (run_failed_claim token ctx w Hh (not_claimable _ _ _ _ Hp Hs)) as (w1 & -> & Hh1 & Hc & Hd).
  unfold refuse. run_step. cbn [tbl sessions_table]. rewrite Hd, (find_presented token ctx w p), Hpr; [|done|].
  - destruct (isSettled (s_status p)).
    + rewrite run_bind. destruct (run_revokeFamily (s_familyId p) w1 Hh1) as (w2 & -> & _ & Hd2).
      exists w2. split; [done|]. by rewrite Hd2, Hd, Hc.
    + rewrite run_bind. by exists w1.
  - intros d. unfold presented. intros ?. by bool_to_prop.
Qed.

Lemma refuse_unknown token ctx w :
  healthy w → (∀ d, In d (docs (sessions w)) → presented (hashRefreshToken (ss_tokens ss) token) ctx d = false) →
  ∃ w', run (refresh ss token ctx) w = (w', inl REFRESH_TOKEN_UNKNOWN) ∧
    docs (sessions w') = docs (sessions w).
Proof.
  intros Hh Hno.
  assert (∀ f, (∀ d, f d = true → presented (hashRefreshToken (ss_tokens ss) token) ctx d = true) →
    List.find f (docs (sessions w)) = None) as Hf.
  { intros f Hi. destruct (List.find f _) as [d|] eqn:Hd; [|done].
    apply find_some in Hd as [Hin Hfd]. apply Hi in Hfd. by rewrite (Hno d Hin) in Hfd. }
  destruct (run_failed_claim token ctx w Hh) as (w1 & -> & Hh1 & _ & Hd).
  { apply Hf. unfold claimable. intros d ?. by bool_to_prop. }
  unfold refuse. run_step. cbn [tbl sessions_table]. rewrite Hd, Hf by done. by exists w1.
Qed.
End refresh.

(** ** Revocation and the liveness cache *)
Section revocation.
Context {P : Platform} `{!RedisCacheLaws cache}.

(** No liveness marker is cached for the session. *)
Definition unmarked (sessionId : string) (w : world P) : Prop :=
  cview (redis w) (session_cacheKey sessionId) = None.

Lemma session_cacheKey_inj : Inj (=) (=) session_cacheKey.
Proof. intros x y. unfold session_cacheKey. by intros ?%(inj (String.append "session:")). Qed.

Lemma run_delete_markers (l : list SessionDoc) w :
  ∃ w', run (for_each l (λ s, redis_del (session_cacheKey (s_id s)))) w = (w', inr tt) ∧
    faults w' = faults w ∧ sessions w' = sessions w ∧
    ∀ i, unmarked i w ∨ In i (map s_id l) → unmarked i w'.
Proof.
  revert w. induction l as [|d l IH]; intros w.
  - exists w. do 3 (split; [done|]). by intros i [?|[]].
  - cbn [for_each]. run_step.
    set (v := w <| redis ::= cache_del (session_cacheKey (s_id d)) |>).
    destruct (IH v) as (w' & Hr & Hf & Hs & Hm).
    exists w'. split; [exact Hr|]. split; [done|]. split; [done|]. intros i Hi. apply Hm.
    destruct (del_law (session_cacheKey (s_id d)) (redis w)) as [Hd Hforget].
    unfold unmarked in *. subst v. cbn. destruct Hi as [Hi|[<-|Hi]]; [left|left; exact Hd|by right].
    apply eq_None_not_Some. intros [x Hx%Hforget]. congruence.
Qed.

(** With no marker the answer is the database's. *)
Lemma run_isSessionActive_db i w :
  healthy w → unmarked i w →
  ∃ w', run (isSessionActive i) w = (w', inr (match List.find (λ d, bool_decide (s_id d = i)) (docs (sessions w)) with
      | Some d => bool_decide (s_status d = active) && (clock w <? s_expiresAt d)
      | None => false
      end)).
Proof.
  intros Hh Hu. unfold isSessionActive, cacheLiveness. run_step.
  destruct (get_law (session_cacheKey i) (clock w) (redis w)) as [_ Hg].
  rewrite bool_decide_false; [|intros Hc; destruct (Hg _ Hc) as (e & He & _); unfold unmarked in Hu; congruence].
  run_step. cbn [tbl sessions_table sessions set_field].
  destruct (List.find _ _) as [d|]; [|by eexists]. run_step. cbn [clock set_field].
  destruct (_ && _); [do 2 run_step|]; by eexists.
Qed.

(** A stored, active and unexpired session is live, whatever is cached. *)
Lemma run_isSessionActive_live i d w :
  healthy w → List.find (λ d, bool_decide (s_id d = i)) (docs (sessions w)) = Some d →
  s_status d = active → clock w < s_expiresAt d → ∃ w', run (isSessionActive i) w = (w', inr true).
Proof.
  intros Hh Hf Hs He. unfold isSessionActive, cacheLiveness. run_step. destruct (bool_decide _); [by eexists|].
  run_step. cbn [tbl sessions_table sessions set_field]. rewrite Hf. cbn iota. run_step. cbn [clock set_field].
  rewrite Hs, bool_decide_true, (proj2 (Z.ltb_lt _ _) He) by done. cbn [andb]. do 2 run_step. by eexists.
Qed.

Lemma find_id_alter_all f (u : SessionDoc → SessionDoc) i l d :
  (∀ d, s_id (u d) = s_id d) →
  List.find (λ d, bool_decide (s_id d = i)) (alter_all f u l) = Some d →
  ∃ d0, List.find (λ d, bool_decide (s_id d = i)) l = Some d0 ∧ d = if f d0 then u d0 else d0.
Proof.
  intros Hu. induction l as [|x l IH]; [done|]. cbn [alter_all map List.find].
  assert (bool_decide (s_id (if f x then u x else x) = i) = bool_decide (s_id x = i)) as ->
    by (destruct (f x); by rewrite ?Hu).
  destruct (bool_decide (s_id x = i)); [|done]. intros [= <-]. eauto.
Qed.

(** [revokeAll] ends every session in its scope, touches no other, and the
    liveness check sees it at once. *)
Lemma run_revokeAll u a t w :
  healthy w → unique_key s_id (docs (sessions w)) →
  ∃ w', run (revokeAll u a t) w = (w', inr tt) ∧
    docs (sessions w') = alter_all (user_active u a t) (set_revoked (clock w)) (docs (sessions w)) ∧
    ∀ d, In d (docs (sessions w)) → user_active u a t d = true →
      ∃ w2, run (isSessionActive (s_id d)) w' = (w2, inr false).
Proof.
  intros Hh Hu. unfold revokeAll. do 3 run_step. cbn [tbl upd_tbl sessions_table clock].
  set (w1 := set_field sessions _ w).
  destruct (run_delete_markers (List.filter (user_active u a t) (docs (sessions w))) w1)
    as (w' & Hrun & Hf & Hs & Hm).
  assert (docs (sessions w') = alter_all (user_active u a t) (set_revoked (clock w)) (docs (sessions w))) as Hd.
  { rewrite Hs. cbn. by rewrite m_update_many_law. }
  exists w'. split; [done|]. split; [done|]. intros d Hin Hact.
  assert (unmarked (s_id d) w') as Hun.
  { apply Hm. right. apply in_map_iff. exists d. split; [done|]. by apply filter_In. }
  assert (healthy w') as Hh' by (unfold healthy; by rewrite Hf).
  destruct (run_isSessionActive_db (s_id d) w' Hh' Hun) as (w2 & Hr). exists w2. rewrite Hr. repeat f_equal.
  rewrite Hd. destruct (List.find _ (alter_all _ _ _)) as [x|] eqn:Hx; [|done].
  apply find_id_alter_all in Hx as (d0 & Hd0 & ->); [|done].
  rewrite (find_by_key s_id _ d (s_id d)) in Hd0 by (done || by intros y; rewrite bool_decide_eq_true).
  injection Hd0 as <-. rewrite Hact. by rewrite bool_decide_false.
Qed.
End revocation.

(** ** The session limit *)
Section limit.
Context {P : Platform} (ss : SessionService).

Definition active_sessions (u a : string) (w : world P) : Z :=
  Z.of_nat (count (app_active u a) (docs (sessions w))).

Lemma count_revoke_one u a t l d :
  List.find (app_active u a) l = Some d ∨ (In d l ∧ app_active u a d = true) →
  unique_key s_id l →
  (count (app_active u a) (alter_first (λ x, bool_decide (s_id x = s_id d)) (set_revoked t) l) + 1
   = count (app_active u a) l)%nat.
Proof.
  intros Hd Hu. assert (In d l ∧ app_active u a d = true) as [Hin Ha].
  { destruct Hd as [Hd|Hd]; [by apply find_some in Hd|done]. }
  pose proof (count_alter_first (λ x, bool_decide (s_id x = s_id d)) (set_revoked t) (app_active u a) l d) as Hc.
  rewrite Ha in Hc. unfold app_active at 3 in Hc. cbn in Hc. rewrite andb_false_r in Hc.
  rewrite Hc; [lia|]. apply (find_by_key s_id l d (s_id d)); [done..|]. intros x. by rewrite bool_decide_eq_true.
Qed.

(** Making room: nothing to do below the limit, else the session idle for the
    longest is revoked. *)
Definition room_made (u a : string) (w w' : world P) : Prop :=
  (active_sessions u a w < ss_maxActiveSessions ss ∧ docs (sessions w') = docs (sessions w)) ∨
  ∃ oldest, In oldest (docs (sessions w)) ∧ app_active u a oldest = true ∧
    (∀ d, In d (docs (sessions w)) → app_active u a d = true → s_lastActiveAt oldest <= s_lastActiveAt d) ∧
    docs (sessions w') =
      alter_first (λ d, bool_decide (s_id d = s_id oldest)) (set_revoked (clock w)) (docs (sessions w)).

Lemma run_enforceSessionLimit u a w :
  healthy w → unique_key s_id (docs (sessions w)) →
  1 <= ss_maxActiveSessions ss → active_sessions u a w <= ss_maxActiveSessions ss →
  ∃ w', run (enforceSessionLimit ss u a) w = (w', inr tt) ∧ healthy w' ∧ draws w' = draws w ∧
    clock w' = clock w ∧ active_sessions u a w' < ss_maxActiveSessions ss ∧ room_made u a w w'.
Proof.
  intros Hh Hu Hm Hle. unfold room_made, enforceSessionLimit, active_sessions in *. run_step. cbn [tbl sessions_table].
  destruct (Z.leb_spec (ss_maxActiveSessions ss) (Z.of_nat (count (app_active u a) (docs (sessions w))))) as [Hc|Hc].
  - run_step. cbn [tbl sessions_table].
    pose proof (m_find_least_law s_lastActiveAt (app_active u a) (sessions w)) as Hl.
    destruct (m_find_least _ _ _) as [d|]; [|unfold count in Hc; rewrite Hl in Hc; cbn in Hc; lia].
    destruct Hl as (Hin & Ha & Hleast). unfold revoke. do 3 run_step. eexists. split; [done|].
    do 3 (split; [done|]). cbn. rewrite m_update_one_law. split; [|right; by exists d].
    pose proof (count_revoke_one u a (clock w) (docs (sessions w)) d) as Hr.
    specialize (Hr (or_intror (conj Hin Ha)) Hu). lia.
  - exists w. do 4 (split; [done|]). split; [lia|]. by left.
Qed.

(** The session a creation from [w] inserts. *)
Definition new_session (w : world P) (ctx : SessionContext) : SessionDoc :=
  mkSessionDoc (newObjectId (S (S (draws w)))) (sc_userId ctx) (sc_tenantId ctx) (sc_applicationId ctx) active
    (js_lower (randomUUID (draws w))) (tp_refreshTokenHash (refresh_pair (ss_tokens ss) (S (draws w)))) None
    (Some (mkDevice (nullish (sc_ip ctx) "") (nullish (sc_userAgent ctx) "")
       (nullish (sc_deviceLabel ctx) "Unknown device")))
    None None None None (clock w) (clock w) (clock w + ss_refreshTokenTtlMs ss) None.

Lemma create_session_run ctx w :
  healthy w → unique_key s_id (docs (sessions w)) →
  1 <= ss_maxActiveSessions ss →
  active_sessions (sc_userId ctx) (sc_applicationId ctx) w <= ss_maxActiveSessions ss →
  (∀ d, In d (docs (sessions w)) → session_clash (new_session w ctx) d = false) →
  ∃ w' s, run (create_session ss ctx) w = (w', inr s) ∧
    active_sessions (sc_userId ctx) (sc_applicationId ctx) w' <= ss_maxActiveSessions ss ∧
    (∃ w1, room_made (sc_userId ctx) (sc_applicationId ctx) w w1 ∧
       inserted (new_session w ctx) (docs (sessions w1)) (docs (sessions w'))) ∧
    cs_sessionId s = s_id (new_session w ctx) ∧
    hashRefreshToken (ss_tokens ss) (cs_refreshToken s) = s_currentRefreshTokenHash (new_session w ctx).
Proof.
  intros Hh Hu Hm Hle Hfresh. unfold create_session. rewrite run_bind.
  destruct (run_enforceSessionLimit (sc_userId ctx) (sc_applicationId ctx) w Hh Hu Hm Hle)
    as (w1 & -> & Hh1 & Hd1 & Hc1 & Hlt & Hroom).
  run_step. unfold createRefreshToken. run_step. run_step. run_step. run_step. rewrite run_bind.
  cbn [draws clock set_field]. rewrite Hd1, Hc1.
  change (mkSessionDoc (newObjectId (S (S (draws w)))) _ _ _ _ _ _ _ _ _ _ _ _ _ _ _ _) with (new_session w ctx).
  set (w2 := set_field draws S _).
  assert (existsb (clash (new_session w ctx)) (docs (tbl w2)) = false) as Hcl.
  { apply not_true_is_false. intros (d & Hin & Hc)%existsb_exists. cbn in Hin.
    destruct Hroom as [[_ Hs1]|(o & _ & _ & _ & Hs1)]; rewrite Hs1 in Hin.
    { specialize (Hfresh d Hin). cbn in Hc. congruence. }
    apply In_alter_first in Hin as [Hin|(d0 & Hin & _ & ->)].
    - specialize (Hfresh d Hin). cbn in Hc. congruence.
    - specialize (Hfresh d0 Hin). change (session_clash (new_session w ctx) d0 = true) in Hc. congruence. }
  destruct (run_create (new_session w ctx) w2 ltac:(healthy_ok) Hcl) as (c & -> & Hins).
  unfold cacheLiveness. run_step. run_step. eexists _, _. split; [done|].
  split; [|split; [by exists w1|done]].
  unfold active_sessions in *. cbn [sessions set_field upd_tbl sessions_table].
  rewrite (inserted_count _ _ _ _ Hins). change (docs (tbl w2)) with (docs (sessions w1)). destruct (app_active _ _ _); lia.
Qed.
End limit.

(** ** What the service promises *)
Section properties.
Context {P : Platform} (ss : SessionService).

(** C1: a refresh token is redeemed at most once.  Whatever requests are served
    concurrently, in whatever interleaving, with whatever database failures and
    expiries, at most one refresh of a given token succeeds, and none does when
    no active session carries it. *)
Theorem refresh_single_use (token : string) (n0 : nat) (w w' : world P)
    (requests : list session_request) (threads : list (prog (world P) (session_request * session_response))) :
  unique_key s_currentRefreshTokenHash (docs (sessions w)) →
  fresh_from ss (hashRefreshToken (ss_tokens ss) token) n0 → drawn n0 w →
  reachable (expiry_env SessionDoc) (w, map (serve ss) requests) (w', threads) →
  (winners (redeemed ss (hashRefreshToken (ss_tokens ss) token)) threads ≤
   if existsb (live_token (hashRefreshToken (ss_tokens ss) token)) (docs (sessions w)) then 1 else 0)%nat.
Proof.
  intros Hu Hf Hd. set (h := hashRefreshToken (ss_tokens ss) token).
  apply (single_use (T := sessions_table) (live_token h) n0 _ s_currentRefreshTokenHash h w w' _ _ Hd Hu).
  - intros d. unfold live_token. intros ?. by bool_to_prop.
  - intros p (r & <- & _)%in_map_iff. by apply pays_serve.
Qed.

(** refreshing with the token of an active session replaces that session by
    exactly one new active session of the same family, which carries the new
    token, and leaves every other session untouched. *)
Theorem refresh_rotates (token : string) (ctx : RefreshContext) (w : world P) (p : SessionDoc) :
  healthy_presented ss token ctx w p → s_status p = active →
  (∀ d, In d (docs (sessions w)) →
     s_id d ≠ next_child w ∧ s_currentRefreshTokenHash d ≠ tp_refreshTokenHash (next_pair ss w)) →
  let child := child_of ss w p ctx in
  ∃ w' s, run (refresh ss token ctx) w = (w', inr s) ∧
    cs_sessionId s = s_id child ∧ cs_familyId s = s_familyId p ∧ s_status child = active ∧
    hashRefreshToken (ss_tokens ss) (cs_refreshToken s) = s_currentRefreshTokenHash child ∧
    ∀ x, In x (docs (sessions w')) ↔
      x = child ∨ x = set_replaced (s_id child) (clock w) (claim (clock w) p) ∨
      In x (docs (sessions w)) ∧ s_id x ≠ s_id p.
Proof.
  intros Hp Hs Hfresh child. destruct (refresh_rotates_run ss token ctx w p Hp Hs Hfresh) as (w' & Hr & _ & Hx).
  by eexists w', _.
Qed.

(** refusals.  A token no stored session carries is refused as unknown and
    changes no session; the token of a session that is no longer active is
    refused as reuse, and when that session is settled every session of its
    family is revoked, while one that is mid-rotation is left alone. *)
Theorem refresh_refused (token : string) (ctx : RefreshContext) (w : world P) :
  healthy w → sessions_wf w →
  (∀ p, In p (docs (sessions w)) → presented (hashRefreshToken (ss_tokens ss) token) ctx p = true →
    s_status p ≠ active) →
  ∃ w' e, run (refresh ss token ctx) w = (w', inl e) ∧
    match List.find (presented (hashRefreshToken (ss_tokens ss) token) ctx) (docs (sessions w)) with
    | None => e = REFRESH_TOKEN_UNKNOWN ∧ docs (sessions w') = docs (sessions w)
    | Some p => e = REFRESH_TOKEN_REUSE ∧ docs (sessions w') =
        if isSettled (s_status p)
        then alter_all (λ d, bool_decide (s_familyId d = s_familyId p)) (set_revoked (clock w)) (docs (sessions w))
        else docs (sessions w)
    end.
Proof.
  intros Hh Hwf Hno. destruct (List.find _ _) as [p|] eqn:Hp.
  - apply find_some in Hp as [Hin Hpr].
    destruct (refuse_presented ss token ctx w p) as (w' & Hr & Hd); [by split|by apply Hno|]. eauto 6.
  - destruct (refuse_unknown ss token ctx w Hh) as (w' & Hr & Hd); [|by eauto 6].
    intros d Hd. by apply (find_none_all _ _ _ Hp).
Qed.

(** signing a user out everywhere revokes exactly the active sessions in the
    requested scope, and the liveness check refuses each of them from then on. *)
Theorem revokeAll_effective `{!RedisCacheLaws cache} (u : string) (a t : option string) (w : world P) :
  healthy w → unique_key s_id (docs (sessions w)) →
  ∃ w', run (revokeAll u a t) w = (w', inr tt) ∧
    docs (sessions w') = alter_all (user_active u a t) (set_revoked (clock w)) (docs (sessions w)) ∧
    ∀ d, In d (docs (sessions w)) → user_active u a t d = true →
      ∃ w2, run (isSessionActive (s_id d)) w' = (w2, inr false).
Proof. apply run_revokeAll. Qed.

(** the session limit.  Creating a session never leaves a user with more
    active sessions in the application than the configured maximum: at the limit
    the least recently active one is revoked, and nothing else changes but the
    new session, stored with the hash of the refresh token handed out. *)
Theorem create_respects_limit (ctx : SessionContext) (w : world P) :
  healthy w → unique_key s_id (docs (sessions w)) →
  1 <= ss_maxActiveSessions ss →
  active_sessions (sc_userId ctx) (sc_applicationId ctx) w <= ss_maxActiveSessions ss →
  (∀ d, In d (docs (sessions w)) → session_clash (new_session ss w ctx) d = false) →
  ∃ w' s, run (create_session ss ctx) w = (w', inr s) ∧
    active_sessions (sc_userId ctx) (sc_applicationId ctx) w' <= ss_maxActiveSessions ss ∧
    (∃ w1, room_made ss (sc_userId ctx) (sc_applicationId ctx) w w1 ∧
       inserted (new_session ss w ctx) (docs (sessions w1)) (docs (sessions w'))) ∧
    cs_sessionId s = s_id (new_session ss w ctx) ∧
    hashRefreshToken (ss_tokens ss) (cs_refreshToken s) =
      s_currentRefreshTokenHash (new_session ss w ctx).
Proof. apply create_session_run. Qed.
End properties.
