(* ===== verification/RateLimit.v ===== *)
(** * Rate limiter

    [packages/core/src/services/rateLimit.service.ts]: fixed-window counters,
    kept in the cache, in MongoDB while a configured Redis is down, and in the
    cache again when MongoDB fails too. *)

From S2P Require Export World.

Section rate_limit.
Context {P : Platform}.

Inductive RateLimitType := rl_login | rl_register | rl_otp | rl_refresh | rl_api | rl_mfa.
#[export] Instance RateLimitType_eq_dec : EqDecision RateLimitType.
Proof. solve_decision. Defined.

Definition RateLimitType_string (t : RateLimitType) : string :=
  match t with
  | rl_login => "login" | rl_register => "register" | rl_otp => "otp"
  | rl_refresh => "refresh" | rl_api => "api" | rl_mfa => "mfa"
  end.

Record RateLimitRule := mkRateLimitRule { limit : Z; windowMs : Z }.

Record RateLimitResult := mkRateLimitResult {
  allowed : bool; remaining : Z; retryAfterMs : Z; rr_limit : Z }.

Record RateLimitService := mkRateLimitService {
  rl_rules : RateLimitType → option RateLimitRule;
  rl_durableFallback : bool;
}.

Definition default_rule (t : RateLimitType) : RateLimitRule :=
  match t with
  | rl_login => mkRateLimitRule 10 (15 * 60000)
  | rl_register => mkRateLimitRule 10 (15 * 60000)
  | rl_otp => mkRateLimitRule 5 (10 * 60000)
  | rl_refresh => mkRateLimitRule 30 (15 * 60000)
  | rl_api => mkRateLimitRule 100 (15 * 60000)
  | rl_mfa => mkRateLimitRule 10 (10 * 60000)
  end.

(** The constructor. *)
Definition new_rate_limiter (rules : RateLimitType → option RateLimitRule) (durableFallback : bool) :
    RateLimitService :=
  mkRateLimitService (λ t, Some (nullish (rules t) (default_rule t))) durableFallback.

(** [decision]. *)
Definition decision (rule : RateLimitRule) (count : Z) : RateLimitResult :=
  if limit rule <? count then mkRateLimitResult false 0 (windowMs rule) (limit rule)
  else mkRateLimitResult true (limit rule - count) 0 (limit rule).

Definition counter_key (type : RateLimitType) (scope : string) : string :=
  js_lower ("rl:" +:+ RateLimitType_string type +:+ ":" +:+ scope).
Definition ttl_seconds (rule : RateLimitRule) : Z := Z.max 1 (ceil_div (windowMs rule) 1000).

(** The aggregation pipeline of [mongoIncrement]: reset a lapsed window, count. *)
Definition bump (now windowEnd : Z) (d : RateLimitCounterDoc) : RateLimitCounterDoc :=
  let windowExpired := k_expiresAt d <=? now in
  d <| k_count := if windowExpired then 1 else k_count d + 1 |>
    <| k_expiresAt := if windowExpired then windowEnd else k_expiresAt d |>.

(** [mongoIncrement]. *)
Definition mongoIncrement (key : string) (ttlSeconds : Z) : prog (world P) Z :=
  t ← now;
  t' ← now;
  let windowEnd := t' + ttlSeconds * 1000 in
  counter ← find_one_and_upsert (λ d, bool_decide (k_id d = key)) (bump t windowEnd)
    (mkRateLimitCounterDoc key 1 windowEnd);
  mret (if k_count counter =? 0 then 1 else k_count counter).

(** The last tier: read, add one, write. *)
Definition defensive_count (key : string) (ttlSeconds : Z) : prog (world P) Z :=
  raw ← redis_get key;
  let current := 1 + match raw with
                     | Some v => if String.eqb v "" then 0 else nullish (js_Number v) 0
                     | None => 0
                     end in
  redis_set key (js_String current) (Some ttlSeconds) ;;
  mret current.

(** [consume]. *)
Definition consume (rl : RateLimitService) (type : RateLimitType) (scope : string) :
    prog (world P) RateLimitResult :=
  match rl_rules rl type with
  | None => mret (mkRateLimitResult true MAX_SAFE_INTEGER 0 MAX_SAFE_INTEGER)
  | Some rule =>
    let key := counter_key type scope in
    let ttl := ttl_seconds rule in
    ready ← redis_ready;
    count ← (if negb ready && rl_durableFallback rl then
               try_catch (n ← mongoIncrement key ttl; mret (Some n))
                         (λ _, redis_incrementAndExpire key ttl)
             else redis_incrementAndExpire key ttl);
    match count with
    | Some n => mret (decision rule n)
    | None => n ← defensive_count key ttl; mret (decision rule n)
    end
  end.

(** ** The limiter never fails a request *)
Lemma consume_total rl type scope : cannot_throw (consume rl type scope).
Proof.
  unfold consume. destruct (rl_rules rl type) as [rule|]; [|done].
  apply cannot_throw_bind; [done|]. intros ready. apply cannot_throw_bind.
  - destruct (negb ready && _); [|done]. by apply cannot_throw_catch.
  - intros [n|]; [done|]. apply cannot_throw_bind; [done|]. done.
Qed.

(** ** The durable window *)
Section window.
Context (rl : RateLimitService) (key : string) (budget t0 t1 : Z).

Definition key_is (d : RateLimitCounterDoc) : bool := bool_decide (k_id d = key).
Definition counter_at (w : world P) : option RateLimitCounterDoc :=
  List.find key_is (docs (rateLimitCounters w)).

(** What MongoDB has counted in the current window; Redis counts elsewhere. *)
Definition used (w : world P) : Z :=
  match counter_at w with Some d => if k_expiresAt d <=? t0 then 0 else k_count d | None => 0 end.
Definition left (w : world P) : nat := Z.to_nat (budget - used w).

(** Redis is down, MongoDB is up and answers every command, and time is within
    [t0, t1): no window of the durable counter of the key ends strictly inside. *)
Definition outage (w : world P) : Prop :=
  healthy w ∧ cache_ready (clock w) (redis w) = false ∧ t0 <= clock w < t1 ∧
  match counter_at w with
  | Some d => (k_expiresAt d <= t0 ∨ t1 <= k_expiresAt d) ∧ 0 <= k_count d
  | None => True
  end.

(** Time passes and the rest of the system runs; the counters change only through
    the limiter. *)
Definition outage_env (w w' : world P) : Prop :=
  healthy w' ∧ cache_ready (clock w') (redis w') = false ∧ t0 <= clock w' < t1 ∧
  rateLimitCounters w' = rateLimitCounters w.

Lemma outage_env_ok w w' : outage_env w w' → outage w → outage w' ∧ (left w' ≤ left w)%nat.
Proof.
  intros (Hh & Hr & Ht & Hc) (_ & _ & _ & Hd). unfold outage, left, used, counter_at in *. by rewrite Hc.
Qed.

Lemma find_other_bump k t e l :
  k ≠ key → List.find key_is (alter_first (λ d, bool_decide (k_id d = k)) (bump t e) l) = List.find key_is l.
Proof.
  intros Hk. induction l as [|d l IH]; cbn; [done|]. unfold key_is in *.
  destruct (bool_decide (k_id d = k)) eqn:Hd; cbn; [|by rewrite IH]. bool_to_prop.
  by rewrite bool_decide_false by congruence.
Qed.

(** The increment of another key. *)
Lemma counter_other k t e w w' r :
  k ≠ key → healthy w →
  run (find_one_and_upsert (λ d, bool_decide (k_id d = k)) (bump t e) (mkRateLimitCounterDoc k 1 e)) w = (w', r) →
  counter_at w' = counter_at w ∧ faults w' = faults w ∧ clock w' = clock w ∧ redis w' = redis w ∧
  ∃ d, r = inr d.
Proof.
  intros Hk Hh. destruct (run_find_one_and_upsert (λ d, bool_decide (k_id d = k)) (bump t e)
    (mkRateLimitCounterDoc k 1 e) w Hh) as (c & -> & Hc).
  { intros Hn. apply not_true_is_false. intros (d & Hin & Hcl)%existsb_exists.
    pose proof (find_none_all _ _ _ Hn Hin) as Hf. cbn in Hcl. unfold rateLimitCounter_clash in Hcl.
    cbn in *. bool_to_prop. congruence. }
  intros [= <- <-]. cbn [tbl rateLimitCounters_table] in *. unfold counter_at. cbn.
  split; [|eauto]. destruct (List.find _ _).
  - rewrite Hc. by apply find_other_bump.
  - apply (inserted_find_other _ _ _ _ Hc). unfold key_is. cbn. by rewrite bool_decide_false.
Qed.

(** The increment of the key itself. *)
Lemma counter_bumped t e w w' r :
  t0 <= t < t1 → t1 <= e → outage w →
  run (find_one_and_upsert key_is (bump t e) (mkRateLimitCounterDoc key 1 e)) w = (w', r) →
  outage w' ∧ used w' = used w + 1 ∧ ∃ d, r = inr d ∧ k_count d = used w + 1 ∧ 0 < k_count d.
Proof.
  intros Ht He (Hh & Hr & Hc & Hd). destruct (run_find_one_and_upsert key_is (bump t e)
    (mkRateLimitCounterDoc key 1 e) w Hh) as (c & -> & Hcs).
  { intros Hn. apply not_true_is_false. intros (d & Hin & Hcl)%existsb_exists.
    pose proof (find_none_all _ _ _ Hn Hin) as Hf. cbn in Hcl. unfold rateLimitCounter_clash, key_is in *.
    cbn in *. bool_to_prop. congruence. }
  intros [= <- <-]. cbn [tbl rateLimitCounters_table] in *. unfold outage, used, counter_at in *.
  cbn [rateLimitCounters clock redis upd_tbl rateLimitCounters_table set_field].
  destruct (List.find key_is (docs (rateLimitCounters w))) as [d|] eqn:Hf.
  - assert (List.find key_is (docs c) = Some (bump t e d)) as ->.
    { rewrite Hcs. apply find_alter_first; [done|]. by apply find_split in Hf as [Hf _]. }
    destruct Hd as [Hd Hk].
    assert ((k_expiresAt d <=? t) = (k_expiresAt d <=? t0)) as Hexp.
    { destruct (Z.leb_spec (k_expiresAt d) t0), (Z.leb_spec (k_expiresAt d) t); lia. }
    unfold bump. cbn. rewrite Hexp. destruct (Z.leb_spec (k_expiresAt d) t0) as [Hle|Hgt]; cbn.
    + rewrite (proj2 (Z.leb_gt e t0)) by lia. repeat split; [done|done|lia|lia|lia|lia|]. eexists. split; [done|]. done.
    + rewrite (proj2 (Z.leb_gt _ t0)) by lia. repeat split; [done|done|lia|lia|lia|lia|].
      eexists. split; [done|]. cbn. lia.
  - rewrite (inserted_find_new _ _ _ _ Hcs) by (done || unfold key_is; cbn; by rewrite bool_decide_true).
    cbn. rewrite (proj2 (Z.leb_gt e t0)) by lia. repeat split; [done|done|lia|lia|lia|lia|].
    by eexists.
Qed.

(** A command on healthy worlds. *)
Lemma pays_healthy {A} (I : world P → Prop) (credit : world P → nat) (f : world P → world P * (exn + A)) Φ :
  (∀ w, I w → healthy w) →
  (∀ w w' r, I w → run (store_op f) w = (w', r) →
     I w' ∧ ∃ n, (credit w' + n ≤ credit w)%nat ∧ Φ r n) →
  pays I credit 0 (store_op f) Φ.
Proof.
  intros Hh Hf w Hw. rewrite <- run_store_op. destruct (run (store_op f) w) as [w' r] eqn:Hr.
  destruct (Hf w w' r Hw Hr) as (HI & n & Hle & HΦ). split; [done|]. exists n. split; [cbn; lia|]. by destruct r.
Qed.

Lemma pays_mongoIncrement k ttl (Hbudget : 0 <= budget) :
  (k = key → t1 <= t0 + ttl * 1000) →
  pays outage left 0 (mongoIncrement k ttl)
    (λ r m, match r with inr n => k = key → n <= budget → (1 ≤ m)%nat | inl _ => False end).
Proof.
  intros Httl. unfold mongoIncrement. apply pays_bind, pays_atom. intros w Hw. pose proof Hw as (_ & _ & Ht & _).
  split; [done|]. exists 0%nat. split; [done|]. cbn [fst snd pays]. clear Hw. set (t := clock w) in *. clearbody t. clear w.
  apply pays_bind, pays_atom. intros w Hw. pose proof Hw as (_ & _ & Ht' & _).
  split; [done|]. exists 0%nat. split; [done|]. cbn [fst snd pays]. clear Hw. set (t' := clock w) in *. clearbody t'. clear w.
  apply pays_bind. unfold find_one_and_upsert. apply pays_healthy; [by intros w [Hh _]|].
  intros w w' r Hw Hr. destruct (decide (k = key)) as [->|Hk].
  - specialize (Httl eq_refl).
    destruct (counter_bumped t (t' + ttl * 1000) w w' r Ht ltac:(lia) Hw Hr) as (Hw' & Hu & d & -> & Hd & Hpos).
    split; [done|]. cbn. rewrite (proj2 (Z.eqb_neq _ _)) by lia. unfold left. rewrite Hu, Hd.
    destruct (Z.leb_spec (used w + 1) budget).
    + exists 1%nat. split; [lia|]. auto.
    + exists 0%nat. split; [lia|]. intros _ ?. lia.
  - destruct Hw as (Hh & Hr' & Hc & Hd).
    destruct (counter_other k t (t' + ttl * 1000) w w' r Hk Hh Hr) as (Hcnt & Hf & Hcl & Hre & d & ->).
    unfold outage, left, used, healthy in *. rewrite Hcnt, Hf, Hcl, Hre. split; [done|].
    exists 0%nat. split; [lia|]. cbn. intros ?. by destruct Hk.
Qed.
End window.

Lemma counter_key_type t t' s s' : counter_key t s = counter_key t' s' → t = t'.
Proof. by destruct t, t'. Qed.

Definition serve_consume (rl : RateLimitService) (r : RateLimitType * string) :
    prog (world P) ((RateLimitType * string) * RateLimitResult) :=
  x ← consume rl r.1 r.2; mret (r, x).

(** A request counted against [key] that was let through. *)
Definition admitted (key : string) (r : (RateLimitType * string) * RateLimitResult) : bool :=
  bool_decide (counter_key r.1.1 r.1.2 = key) && allowed r.2.

Lemma pays_consume rl type scope rule t0 t1 r :
  rl_durableFallback rl = true → rl_rules rl type = Some rule → 0 <= limit rule →
  t1 <= t0 + ttl_seconds rule * 1000 →
  pays (outage (counter_key type scope) t0 t1) (left (counter_key type scope) (limit rule) t0) 0
    (serve_consume rl r) (won (admitted (counter_key type scope))).
Proof.
  intros Hd Hrule Hl Ht. destruct r as [ty sc]. unfold serve_consume, consume. cbn [fst snd].
  assert (∀ n m r', rl_rules rl ty = Some r' →
    (counter_key ty sc = counter_key type scope → n <= limit rule → (1 ≤ m)%nat) →
    won (admitted (counter_key type scope)) (inr (ty, sc, decision r' n)) m) as Hwon.
  { intros n m r' Hr' Hm. cbn. unfold admitted. cbn. intros Ha. bool_to_prop.
    pose proof (counter_key_type _ _ _ _ H) as ->. apply Hm; [done|]. assert (r' = rule) as -> by congruence.
    unfold decision in H0. destruct (Z.ltb_spec (limit rule) n); [done|lia]. }
  destruct (rl_rules rl ty) as [r'|] eqn:Hr'.
  - apply pays_bind, pays_bind, pays_atom. intros w Hw. pose proof Hw as (_ & Hready & _). split; [done|].
    exists 0%nat. split; [done|]. cbn [fst snd pays]. rewrite Hready, Hd. cbn [negb andb]. clear w Hw Hready.
    apply pays_bind, pays_catch, pays_bind. eapply pays_mono.
    { apply (pays_mongoIncrement (counter_key type scope) (limit rule) t0 t1 (counter_key ty sc) (ttl_seconds r') Hl).
      intros He. pose proof (counter_key_type _ _ _ _ He) as ->. by assert (r' = rule) as -> by congruence. }
    intros [e|n] m Hm; [done|]. cbn [pays mret prog_mret]. by apply Hwon.
  - cbn. unfold admitted. cbn. intros Ha. bool_to_prop.
    pose proof (counter_key_type _ _ _ _ H) as ->. congruence.
Qed.
End rate_limit.

(** ** What the limiter promises *)
Section properties.
Context {P : Platform} (rl : RateLimitService).

(** One request while Redis is down. *)
Lemma run_consume_outage type scope rule t0 t1 w :
  rl_durableFallback rl = true → rl_rules rl type = Some rule → t1 <= t0 + ttl_seconds rule * 1000 →
  outage (counter_key type scope) t0 t1 w →
  ∃ w', run (consume rl type scope) w = (w', inr (decision rule (used (counter_key type scope) t0 w + 1))) ∧
    used (counter_key type scope) t0 w' = used (counter_key type scope) t0 w + 1 ∧ redis w' = redis w.
Proof.
  intros Hd Hrule Ht Hw. pose proof Hw as (Hh & Hready & Hc & _). unfold consume. rewrite Hrule, run_bind.
  cbn [run redis_ready act]. rewrite Hready, Hd. cbn [negb andb]. rewrite run_bind, run_catch. unfold mongoIncrement.
  rewrite !run_bind. cbn [run now act]. rewrite !run_bind. cbn [run now act]. rewrite !run_bind.
  destruct (run (find_one_and_upsert _ _ _) w) as [w' r] eqn:Hr.
  destruct (counter_bumped (counter_key type scope) t0 t1 (clock w) (clock w + ttl_seconds rule * 1000) w w' r Hc ltac:(lia) Hw Hr)
    as (_ & Hu & d & -> & Hk & Hpos).
  cbn [run mret prog_mret]. rewrite (proj2 (Z.eqb_neq _ _)) by lia. exists w'. rewrite Hk. split; [done|]. split; [done|].
  unfold find_one_and_upsert, insert_doc in Hr. rewrite run_store_op_healthy in Hr by done.
  destruct (m_find_one _ _) as [x|]; [by injection Hr as <- _|].
  destruct (m_insert _ _ _) as [c|]; by injection Hr as <- _.
Qed.

(** C36: During an outage of Redis the durable counter decides, and it alone: with
    the durable fallback configured, while Redis is down, MongoDB answers every
    command and time stays within one window of the counter ([outage], kept by the
    environment), a request is answered by what MongoDB has counted in the window,
    plus one, and Redis is not read; and over all server instances, in every
    interleaving with requests of any scope, no more requests are admitted than that
    counter had left.  What Redis had counted in the same window is not carried over:
    a scope whose limit was spent in Redis is given up to the whole limit again, so
    the limit is kept by each of the two counters and not by their sum. *)
Theorem durable_counter_decides (type : RateLimitType) (scope : string) (rule : RateLimitRule) (t0 t1 : Z)
    (w : world P) (requests : list (RateLimitType * string)) :
  rl_durableFallback rl = true → rl_rules rl type = Some rule → 0 <= limit rule →
  t1 <= t0 + ttl_seconds rule * 1000 →
  outage (counter_key type scope) t0 t1 w →
  (∃ w', run (consume rl type scope) w = (w', inr (decision rule (used (counter_key type scope) t0 w + 1))) ∧
     used (counter_key type scope) t0 w' = used (counter_key type scope) t0 w + 1 ∧ redis w' = redis w) ∧
  ∀ w' (threads : list (prog (world P) ((RateLimitType * string) * RateLimitResult))),
    reachable (outage_env t0 t1) (w, map (serve_consume rl) requests) (w', threads) →
    Z.of_nat (winners (admitted (counter_key type scope)) threads) <=
    Z.max 0 (limit rule - used (counter_key type scope) t0 w).
Proof.
  intros Hd Hrule Hl Ht Hw. split; [by eapply run_consume_outage|]. intros w' threads Hr.
  assert (winners (admitted (counter_key type scope)) threads ≤ left (counter_key type scope) (limit rule) t0 w)%nat
    as Hle; [|unfold left in Hle; lia].
  apply (winners_bounded (outage (counter_key type scope) t0 t1) _ (outage_env t0 t1)
    (admitted (counter_key type scope)) (outage_env_ok _ _ t0 t1) w w' _ _ Hw) with (2 := Hr).
  apply List.Forall_forall. intros p (r & <- & _)%in_map_iff. by apply pays_consume.
Qed.

(** The limiter never fails a request, and every answer is the decision on
    some positive count: with a Redis that answers, the count stored for the key
    plus one, for a window in the range of [EXPIRE]. *)
Theorem consume_decides `{!RedisCacheLaws cache} (type : RateLimitType) (scope : string)
    (rule : RateLimitRule) (w : world P) :
  rl_rules rl type = Some rule →
  ∃ w' res, run (consume rl type scope) w = (w', inr res) ∧
    (cache_ready (clock w) (redis w) = true → ttl_seconds rule <= MAX_TTL_SECONDS →
     countable (cview (redis w) (counter_key type scope)) (clock w) →
     ∀ n, (cache_incrementAndExpire (counter_key type scope) (ttl_seconds rule) (clock w) (redis w)).2 = Some n →
       res = decision rule (live_count (counter_key type scope) (clock w) (redis w) + 1)).
Proof.
  intros Hr. destruct (cannot_throw_run _ w (consume_total rl type scope)) as (w' & res & Hrun).
  exists w', res. split; [done|]. intros Hready Httl Hcount n Hn. revert Hrun. unfold consume. rewrite Hr, run_bind.
  cbn [run redis_ready act]. rewrite Hready. cbn [negb andb]. rewrite run_bind.
  unfold redis_incrementAndExpire. rewrite run_act.
  destruct (incr_law (counter_key type scope) (ttl_seconds rule) (clock w) (redis w) Hcount) as [_ Hlaw]; [unfold ttl_seconds in *; lia|].
  destruct (cache_incrementAndExpire _ _ _ _) as [c o]. cbn in Hn, Hlaw |- *. subst o.
  destruct (Hlaw n eq_refl) as [-> _]. by intros [= _ <-].
Qed.
End properties.
