(* ===== verification/AccountState.v ===== *)
(** * Account state

    [packages/core/src/services/accountState.service.ts]: is the account behind a
    token still there, active, and at the token's version?  The answer is cached
    for half a minute; an unreadable database fails closed. *)

From S2P Require Export World.

Section account_state.
Context {P : Platform}.

Record AccountState := mkAccountState {
  as_exists : bool;
  as_isActive : bool;
  as_tokenVersionMatch : bool;
}.

Definition CACHE_TTL_SECONDS : Z := 30.
Definition account_cacheKey (userId : string) : string := "accountState:" +:+ userId.

(** [JSON.stringify(state)]. *)
Definition state_json (s : AccountState) : json :=
  JObj [("exists", JBool (as_exists s)); ("isActive", JBool (as_isActive s));
        ("tokenVersionMatch", JBool (as_tokenVersionMatch s))]%string.

(** [state.exists && state.isActive && state.tokenVersionMatch] on a parsed value. *)
Definition json_truthy (j : option json) : bool :=
  match j with
  | None | Some JNull | Some (JBool false) => false
  | Some (JStr s) => negb (String.eqb s "")
  | Some (JNum n) => negb (n =? 0)
  | Some _ => true
  end.
Definition state_ok (l : list (string * json)) : bool :=
  json_truthy (obj_get "exists" l) && json_truthy (obj_get "isActive" l) &&
  json_truthy (obj_get "tokenVersionMatch" l).

Definition account_state (doc : option UserDoc) (tokenVersion : Z) : AccountState :=
  match doc with
  | Some d => mkAccountState true (u_isActive d) (u_tokenVersion d =? tokenVersion)
  | None => mkAccountState false false false
  end.
Definition account_ok (s : AccountState) : bool := as_exists s && as_isActive s && as_tokenVersionMatch s.

Definition account_unverifiable : exn :=
  SecurityDependencyError "Account state could not be verified" "FAILED_SECURITY_DEPENDENCY".

(** [validate]. *)
Definition validate (userId : string) (tokenVersion : Z) : prog (world P) bool :=
  cached ← redis_get (account_cacheKey userId);
  if truthy cached then
    match parse (nullish cached "") with
    | Some (JObj l) => mret (state_ok l)
    | Some JNull => Throw (JsError "Cannot read properties of null")
    | Some _ => mret false
    | None => Throw (JsError "Unexpected token in JSON")
    end
  else
    doc ← try_catch (find_one (λ d, bool_decide (u_id d = userId))) (λ _, Throw account_unverifiable);
    let state := account_state doc tokenVersion in
    redis_set (account_cacheKey userId) (stringify (state_json state)) (Some CACHE_TTL_SECONDS) ;;
    mret (account_ok state).

(** [invalidate]. *)
Definition invalidate (userId : string) : prog (world P) () := redis_del (account_cacheKey userId).

(** ** Lemmas *)
Lemma state_ok_json s : state_ok (match state_json s with JObj l => l | _ => [] end) = account_ok s.
Proof. by destruct s as [[] [] []]. Qed.

Lemma cached_state_truthy s : truthy (Some (stringify (state_json s))) = true.
Proof. by destruct s as [[] [] []]. Qed.

(** Nothing is served for a deleted key. *)
Lemma get_deleted `{!RedisCacheLaws cache} k t (c : cache) : (cache_get k t (cache_del k c)).2 = None.
Proof.
  destruct (get_law k t (cache_del k c)) as [_ Hv]. destruct (cache_get _ _ _) as [c' [v|]]; [|done].
  destruct (Hv v eq_refl) as (e & He & _). destruct (del_law k c) as [Hd _]. congruence.
Qed.

(** A cached answer does not look at the version that is asked about. *)
Lemma run_validate_cached userId tokenVersion s w :
  (cache_get (account_cacheKey userId) (clock w) (redis w)).2 = Some (stringify (state_json s)) →
  ∃ w', run (validate userId tokenVersion) w = (w', inr (account_ok s)).
Proof.
  intros Hg. unfold validate. run_step. rewrite Hg, cached_state_truthy. cbn [nullish].
  rewrite parse_stringify. cbn [state_json]. rewrite <- state_ok_json. by eexists.
Qed.

Lemma run_validate_db userId tokenVersion w :
  (cache_get (account_cacheKey userId) (clock w) (redis w)).2 = None → healthy w →
  ∃ w', run (validate userId tokenVersion) w =
    (w', inr (account_ok (account_state (List.find (λ d, bool_decide (u_id d = userId)) (docs (users w))) tokenVersion))).
Proof.
  intros Hg Hh. unfold validate. run_step. rewrite Hg. cbn [truthy]. rewrite run_bind, run_catch.
  rewrite run_find_one by healthy_ok. cbn [tbl users_table users set_field]. run_step. by eexists.
Qed.

Lemma run_validate_fault userId tokenVersion w f fs :
  (cache_get (account_cacheKey userId) (clock w) (redis w)).2 = None → faults w = Some f :: fs →
  ∃ w', run (validate userId tokenVersion) w = (w', inl account_unverifiable).
Proof.
  intros Hg Hf. unfold validate. run_step. rewrite Hg. cbn [truthy]. rewrite run_bind, run_catch.
  unfold find_one. rewrite run_store_op. unfold apply_fault. cbn [faults set_field]. rewrite Hf.
  cbn. by eexists.
Qed.
End account_state.

(** ** What the service promises *)
Section properties.
Context {P : Platform}.

(** account validation without a cached answer.  An account is accepted
    exactly when it exists, is active and still has the token's version, and when
    the database cannot be read the request fails closed with a 503. *)
Theorem validate_decides (userId : string) (tokenVersion : Z) (w : world P) :
  (cache_get (account_cacheKey userId) (clock w) (redis w)).2 = None →
  (healthy w → ∃ w' b, run (validate userId tokenVersion) w = (w', inr b) ∧
     (b = true ↔ ∃ d, List.find (λ d, bool_decide (u_id d = userId)) (docs (users w)) = Some d ∧
                      u_isActive d = true ∧ u_tokenVersion d = tokenVersion)) ∧
  (∀ f fs, faults w = Some f :: fs → ∃ w', run (validate userId tokenVersion) w = (w', inl account_unverifiable)).
Proof.
  intros Hg. split; [|intros f fs Hf; by eapply run_validate_fault].
  intros Hf. destruct (run_validate_db userId tokenVersion w Hg Hf) as (w' & Hr). eexists w', _. split; [exact Hr|].
  destruct (List.find _ _) as [d|]; cbn; unfold account_ok; cbn; [|naive_solver].
  rewrite andb_true_iff, Z.eqb_eq. naive_solver.
Qed.

(** After [invalidate] the next validation is decided by the database, so a
    deactivated account or a bumped token version takes effect at once. *)
Theorem invalidate_effective `{!RedisCacheLaws cache} (userId : string) (tokenVersion : Z) (w : world P) :
  healthy w →
  ∃ w1 w2 b, run (invalidate userId) w = (w1, inr tt) ∧ run (validate userId tokenVersion) w1 = (w2, inr b) ∧
    (b = true ↔ ∃ d, List.find (λ d, bool_decide (u_id d = userId)) (docs (users w)) = Some d ∧
                     u_isActive d = true ∧ u_tokenVersion d = tokenVersion).
Proof.
  intros Hh. unfold invalidate. rewrite run_redis_del. set (w1 := set_field redis _ w).
  assert ((cache_get (account_cacheKey userId) (clock w1) (redis w1)).2 = None) as Hg by apply get_deleted.
  destruct (run_validate_db userId tokenVersion w1 Hg Hh) as (w2 & Hr). eexists w1, w2, _.
  split; [done|]. split; [exact Hr|]. change (users w1) with (users w).
  destruct (List.find _ _) as [d|]; cbn; unfold account_ok; cbn; [|naive_solver].
  rewrite andb_true_iff, Z.eqb_eq. naive_solver.
Qed.
End properties.
