(* ===== verification/Otp.v ===== *)
(** * One-time passwords

    [packages/crypto/src/otp.ts] and [packages/core/src/services/otp.service.ts]:
    numeric codes, one live code per purpose, channel and target, a resend
    cooldown and a budget of failed attempts held in the cache. *)

From S2P Require Export World.

(** ** [crypto/src/otp.ts] *)
Section otp_crypto.
Context {P : Platform}.

(** [generateOtp]: one draw per digit. *)
Fixpoint generateOtp (length : nat) : prog (world P) string :=
  match length with
  | O => mret ""
  | S n => digit ← draw (λ i, js_String (randomInt i 0 10)); rest ← generateOtp n; mret (digit +:+ rest)
  end.

(** [hashOtp]. *)
Definition hashOtp (code : string) : string := to_base64 (createHash sha256 code).

(** [verifyOtp]: comparing decoded digests, of equal length or not. *)
Definition otp_matches (code hash : string) : bool :=
  String.eqb (createHash sha256 code) (from_base64 hash).

Lemma otp_matches_hash code code' :
  otp_matches code (hashOtp code') = true ↔ createHash sha256 code = createHash sha256 code'.
Proof. unfold otp_matches, hashOtp. by rewrite from_to_base64, String.eqb_eq. Qed.

(** *** Shape of a code *)
Definition is_digit (c : Ascii.ascii) : bool :=
  let n := Ascii.nat_of_ascii c in ((48 <=? n) && (n <=? 57))%nat.

Lemma digit_string n : 0 <= n < 10 → ∃ c, js_String n = String c "" ∧ is_digit c = true.
Proof.
  intros Hn. assert (n = 0 ∨ n = 1 ∨ n = 2 ∨ n = 3 ∨ n = 4 ∨ n = 5 ∨ n = 6 ∨ n = 7 ∨ n = 8 ∨ n = 9) as Hcase by lia.
  destruct_or! Hcase; subst n; eexists; split; reflexivity.
Qed.

(** The digits drawn from the [i]-th draw on. *)
Fixpoint code_from (n i : nat) : string :=
  match n with O => "" | S n' => js_String (randomInt i 0 10) +:+ code_from n' (S i) end.

Lemma run_generateOtp n w :
  run (generateOtp n) w = (w <| draws ::= Nat.add n |>, inr (code_from n (draws w))).
Proof.
  revert w. induction n as [|n IH]; intros w; [by destruct w|].
  cbn [generateOtp]. run_step. rewrite run_bind, IH, run_ret. cbn [code_from draws set_field]. f_equal.
  destruct w. unfold set_field. cbn -[Nat.add]. f_equal. lia.
Qed.

Lemma code_from_shape n i :
  (∀ i lo hi, lo < hi → lo <= randomInt i lo hi < hi) →
  String.length (code_from n i) = n ∧ forallb is_digit (list_of_string (code_from n i)) = true.
Proof.
  intros Hr. revert i. induction n as [|n IH]; intros i; [done|]. cbn [code_from].
  destruct (digit_string (randomInt i 0 10)) as (c & -> & Hc); [apply Hr; lia|].
  destruct (IH (S i)) as [Hl Hd].
  change (S (String.length (code_from n (S i))) = S n ∧
    is_digit c && forallb is_digit (list_of_string (code_from n (S i))) = true). by rewrite Hl, Hc, Hd.
Qed.
End otp_crypto.

(** ** [OtpService] *)
Section otp_service.
Context {P : Platform}.

Record OtpService := mkOtpService {
  ot_tenantId : string;
  ot_applicationId : string;
  ot_sms : bool;
  ot_codeLength : option nat;
  ot_ttlMs : Z;
  ot_maxAttempts : Z;
  ot_resendCooldownMs : Z;
  ot_attemptsWindowMs : Z;
}.

Definition COOLDOWN_KEY_PREFIX : string := "otp:cooldown".
Definition ATTEMPTS_KEY_PREFIX : string := "otp:attempts".

Definition cooldownKey (channel : OtpChannel) (target : string) : string :=
  COOLDOWN_KEY_PREFIX +:+ ":" +:+ OtpChannel_string channel +:+ ":" +:+ js_lower target.
Definition attemptsKey (channel : OtpChannel) (target : string) : string :=
  ATTEMPTS_KEY_PREFIX +:+ ":" +:+ OtpChannel_string channel +:+ ":" +:+ js_lower target.

(** The document of a (purpose, channel, target). *)
Definition otp_slot (ot : OtpService) (channel : OtpChannel) (target : string) (purpose : OtpPurpose)
    (d : OtpDoc) : bool :=
  bool_decide (o_tenantId d = ot_tenantId ot) && bool_decide (o_applicationId d = ot_applicationId ot) &&
  bool_decide (o_purpose d = purpose) && bool_decide (o_channel d = channel) &&
  bool_decide (o_target d = js_lower target).

(** [attempts ? Number(attempts) : 0]; [None] is [NaN]. *)
Definition attempt_count (cached : option string) : option Z :=
  if truthy cached then js_Number (nullish cached "") else Some 0.
Definition spent (ot : OtpService) (count : option Z) : bool :=
  match count with Some n => ot_maxAttempts ot <=? n | None => false end.

(** [Number(cooldown) - Date.now()] when it is positive. *)
Definition cooling (cached : option string) (t : Z) : option Z :=
  if truthy cached then
    match js_Number (nullish cached "") with
    | Some n => if 0 <? n - t then Some (n - t) else None
    | None => None
    end
  else None.

Definition renew (codeHash : string) (expiresAt : Z) (d : OtpDoc) : OtpDoc :=
  d <| o_codeHash := codeHash |> <| o_expiresAt := expiresAt |> <| o_consumed := false |>.

Inductive RequestOtpResult := Requested | RetryAfter (seconds : Z).

Definition PHONE_OTP_UNSUPPORTED : exn := ValidationError "Phone OTP is not configured" "PHONE_OTP_UNSUPPORTED".

(** [requestOtp]; the optional [userId] is not stored. *)
Definition requestOtp (ot : OtpService) (channel : OtpChannel) (target : string) (purpose : OtpPurpose) :
    prog (world P) RequestOtpResult :=
  cooldown ← redis_get (cooldownKey channel target);
  t ← now;
  match cooling cooldown t with
  | Some remainingMs => mret (RetryAfter (ceil_div remainingMs 1000))
  | None =>
    attempts ← redis_get (attemptsKey channel target);
    if spent ot (attempt_count attempts) then mret (RetryAfter (ceil_div (ot_attemptsWindowMs ot) 1000))
    else
      code ← generateOtp (nullish (ot_codeLength ot) 6%nat);
      t1 ← now;
      id ← draw newObjectId;
      find_one_and_upsert (otp_slot ot channel target purpose) (renew (hashOtp code) (t1 + ot_ttlMs ot))
        (mkOtpDoc id (ot_tenantId ot) (ot_applicationId ot) None channel (js_lower target) purpose
           (hashOtp code) (t1 + ot_ttlMs ot) 0 false t1) ;;
      t2 ← now;
      redis_set (cooldownKey channel target) (js_String (t2 + ot_resendCooldownMs ot))
        (Some (ceil_div (ot_resendCooldownMs ot) 1000)) ;;
      match channel with
      | ch_email => deliver (mkDelivery ch_email target code purpose)
      | ch_phone =>
        throw_if (negb (ot_sms ot)) PHONE_OTP_UNSUPPORTED ;;
        deliver (mkDelivery ch_phone target code purpose)
      end ;;
      mret Requested
  end.

Inductive VerifyOtpResult := Verified | Expired | Invalid | Exhausted.

(** [String(attemptCount + 1)]. *)
Definition count_string (count : option Z) : string :=
  match count with Some n => js_String (n + 1) | None => "NaN" end.

(** [verifyOtp]. *)
Definition verifyOtp (ot : OtpService) (channel : OtpChannel) (target : string) (purpose : OtpPurpose)
    (code : string) : prog (world P) VerifyOtpResult :=
  attempts ← redis_get (attemptsKey channel target);
  let attemptCount := attempt_count attempts in
  if spent ot attemptCount then mret Exhausted
  else
    doc ← find_one (otp_slot ot channel target purpose);
    match doc with
    | None => mret Expired
    | Some d =>
      t ← now;
      if o_expiresAt d <? t then mret Expired
      else if o_consumed d then mret Expired
      else if negb (otp_matches code (o_codeHash d)) then
        update_one (λ x, bool_decide (o_id x = o_id d)) (λ x, x <| o_attempts ::= Z.add 1 |>) ;;
        redis_set (attemptsKey channel target) (count_string attemptCount)
          (Some (ceil_div (ot_attemptsWindowMs ot) 1000)) ;;
        mret Invalid
      else
        update_one (λ x, bool_decide (o_id x = o_id d))
          (λ x, x <| o_consumed := true |> <| o_attempts := o_attempts d + 1 |>) ;;
        redis_del (attemptsKey channel target) ;;
        redis_del (cooldownKey channel target) ;;
        mret Verified
    end.
End otp_service.

(** ** Lemmas *)
Section otp_lemmas.
Context {P : Platform} `{!RedisCacheLaws cache} (ot : OtpService).
Variables (channel : OtpChannel) (target : string) (purpose : OtpPurpose).

(** The attempt count the service reads. *)
Definition attempts_read (w : world P) : option Z := attempt_count (cache_get (attemptsKey channel target) (clock w) (redis w)).2.

Definition mark_failed (x : OtpDoc) : OtpDoc := x <| o_attempts ::= Z.add 1 |>.
Definition mark_used (d x : OtpDoc) : OtpDoc := x <| o_consumed := true |> <| o_attempts := o_attempts d + 1 |>.

(** What verifying does to the codes and to the cache. *)
Definition verify_effect (code : string) (w w' : world P) (r : VerifyOtpResult) : Prop :=
  let c := (cache_get (attemptsKey channel target) (clock w) (redis w)).1 in
  let same := docs (otps w') = docs (otps w) ∧ redis w' = c in
  if spent ot (attempts_read w) then r = Exhausted ∧ same
  else match List.find (otp_slot ot channel target purpose) (docs (otps w)) with
  | None => r = Expired ∧ same
  | Some d =>
    if (o_expiresAt d <? clock w) || o_consumed d then r = Expired ∧ same
    else if otp_matches code (o_codeHash d) then
      r = Verified ∧
      docs (otps w') = alter_first (λ x, bool_decide (o_id x = o_id d)) (mark_used d) (docs (otps w)) ∧
      redis w' = cache_del (cooldownKey channel target) (cache_del (attemptsKey channel target) c)
    else
      r = Invalid ∧
      docs (otps w') = alter_first (λ x, bool_decide (o_id x = o_id d)) mark_failed (docs (otps w)) ∧
      redis w' = cache_set (attemptsKey channel target) (count_string (attempts_read w))
                   (Some (ceil_div (ot_attemptsWindowMs ot) 1000)) (clock w) c
  end.

Lemma run_verifyOtp code w :
  healthy w → ∃ w' r, run (verifyOtp ot channel target purpose code) w = (w', inr r) ∧
    healthy w' ∧ clock w' = clock w ∧ verify_effect code w w' r.
Proof.
  intros Hh. unfold verifyOtp, verify_effect. run_step. fold (attempts_read w).
  destruct (spent ot (attempts_read w)); [by eexists _, _|]. run_step. cbn [tbl otps_table otps set_field].
  destruct (List.find (otp_slot ot channel target purpose) (docs (otps w))) as [d|]; [|by eexists _, _]. run_step. cbn [clock set_field].
  destruct (o_expiresAt d <? clock w); [by eexists _, _|]. destruct (o_consumed d); [by eexists _, _|]. cbn [orb].
  destruct (otp_matches code (o_codeHash d)); cbn [negb]; do 3 run_step; eexists _, _; (split; [done|]);
    do 2 (split; [done|]); cbn; by rewrite m_update_one_law.
Qed.

(** A cached count within the budget, or none. *)
Definition within_budget (w : world P) : Prop :=
  0 < ot_maxAttempts ot ∧
  ∀ v e, cview (redis w) (attemptsKey channel target) = Some (v, e) → spent ot (attempt_count (Some v)) = false.

Lemma within_budget_read w : within_budget w → spent ot (attempts_read w) = false.
Proof.
  intros [Hm Hv]. unfold attempts_read. destruct (get_law (attemptsKey channel target) (clock w) (redis w)) as [_ Hg].
  destruct (cache_get _ _ _) as [c [v|]]; cbn.
  - destruct (Hg v eq_refl) as (e & He & _). by apply (Hv v e).
  - unfold attempt_count. cbn. by apply Z.leb_gt.
Qed.

Lemma within_budget_forgets w w' :
  (∀ x, cview (redis w') (attemptsKey channel target) = Some x → cview (redis w) (attemptsKey channel target) = Some x) → within_budget w → within_budget w'.
Proof. intros Hf [Hm Hv]. split; [done|]. intros v e Hx%Hf. by apply (Hv v e). Qed.

Lemma keys_differ : (cooldownKey channel target) ≠ (attemptsKey channel target).
Proof. by destruct channel. Qed.

(** The code a request from [w] generates, and what it stores. *)
Definition code_length : nat := nullish (ot_codeLength ot) 6%nat.
Definition drawn_code (w : world P) : string := code_from code_length (draws w).

Definition stored_for (code : string) (w w' : world P) (d : OtpDoc) : Prop :=
  List.find (otp_slot ot channel target purpose) (docs (otps w')) = Some d ∧ o_codeHash d = hashOtp code ∧
  o_expiresAt d = clock w + ot_ttlMs ot ∧ o_consumed d = false ∧ unique_key o_id (docs (otps w')).

(** The slot after the upsert. *)
Lemma run_upsert_otp code id t e w :
  healthy w → unique_key o_id (docs (otps w)) → (∀ d, In d (docs (otps w)) → o_id d ≠ id) →
  ∃ c d r, run (find_one_and_upsert (otp_slot ot channel target purpose) (renew (hashOtp code) e)
      (mkOtpDoc id (ot_tenantId ot) (ot_applicationId ot) None channel (js_lower target) purpose
         (hashOtp code) e 0 false t)) w = (w <| otps := c |>, inr r) ∧
    List.find (otp_slot ot channel target purpose) (docs c) = Some d ∧ o_codeHash d = hashOtp code ∧
    o_expiresAt d = e ∧ o_consumed d = false ∧ unique_key o_id (docs c).
Proof.
  intros Hh Hu Hid. set (new := mkOtpDoc _ _ _ _ _ _ _ _ _ _ _ _).
  assert (otp_slot ot channel target purpose new = true) as Hnew.
  { unfold otp_slot. cbn. by rewrite !bool_decide_true. }
  destruct (run_find_one_and_upsert (otp_slot ot channel target purpose) (renew (hashOtp code) e) new w Hh)
    as (c & -> & Hc).
  { intros Hn. apply not_true_is_false. intros (d & Hin & Hcl)%existsb_exists.
    pose proof (find_none_all _ _ _ Hn Hin) as Hf. cbn in Hcl. unfold otp_clash in Hcl.
    rewrite bool_decide_false in Hcl by (cbn; intros Heq; by apply (Hid d Hin)). cbn in Hcl.
    bool_to_prop. assert (otp_slot ot channel target purpose d = true); [|congruence].
    unfold otp_slot. rewrite !bool_decide_true by congruence. done. }
  cbn [tbl otps_table] in *. destruct (List.find _ (docs (otps w))) as [d|] eqn:Hd.
  - exists c, (renew (hashOtp code) e d), (renew (hashOtp code) e d). split; [done|]. rewrite Hc.
    split; [|do 3 (split; [done|]); by apply unique_key_alter].
    apply find_alter_first; [done|]. by apply find_split in Hd as [Hd _].
  - exists c, new, new. split; [done|]. split; [by apply (inserted_find_new _ _ _ _ Hc)|].
    do 3 (split; [done|]). apply (inserted_unique _ _ _ _ Hc Hu). intros y Hy Heq. by apply (Hid y Hy).
Qed.

(** A request nothing blocks stores the hash of a new code and delivers it. *)
Definition unblocked (w : world P) : Prop :=
  cooling (cache_get (cooldownKey channel target) (clock w) (redis w)).2 (clock w) = None ∧
  (channel = ch_phone → ot_sms ot = true).

Lemma run_deliver d w : healthy w → run (deliver d) w = (w <| outbox ::= cons d |>, inr tt).
Proof. intros Hh. unfold deliver. by rewrite run_store_op_healthy. Qed.

Lemma run_send code (w : world P) :
  (channel = ch_phone → ot_sms ot = true) → healthy w →
  run (match channel with
       | ch_email => deliver (mkDelivery ch_email target code purpose)
       | ch_phone =>
         throw_if (negb (ot_sms ot)) PHONE_OTP_UNSUPPORTED ;;
         deliver (mkDelivery ch_phone target code purpose)
       end) w = (w <| outbox ::= cons (mkDelivery channel target code purpose) |>, inr tt).
Proof.
  intros Hsms Hh. destruct channel; [by apply run_deliver|]. rewrite Hsms by done. run_step. by apply run_deliver.
Qed.

Lemma run_requestOtp w :
  healthy w → within_budget w → unique_key o_id (docs (otps w)) → unblocked w →
  (∀ d, In d (docs (otps w)) → o_id d ≠ newObjectId (code_length + draws w)%nat) →
  ∃ w' d, run (requestOtp ot channel target purpose) w = (w', inr Requested) ∧ healthy w' ∧
    clock w' = clock w ∧ outbox w' = mkDelivery channel target (drawn_code w) purpose :: outbox w ∧
    stored_for (drawn_code w) w w' d ∧ within_budget w'.
Proof.
  intros Hh Hb Hu [Hcool Hsms] Hid. unfold requestOtp. do 2 run_step. cbn [clock set_field]. rewrite Hcool.
  set (w1 := set_field redis _ w). run_step.
  assert (within_budget w1) as Hb1.
  { apply (within_budget_forgets w); [|done]. intros x.
    apply (get_law (cooldownKey channel target) (clock w) (redis w)). }
  assert (spent ot (attempts_read w1) = false) as Hsp by (by apply within_budget_read).
  unfold attempts_read in Hsp. rewrite Hsp. set (w2 := set_field redis _ w1).
  assert (within_budget w2) as Hb2.
  { apply (within_budget_forgets w1); [|done]. intros x.
    apply (get_law (attemptsKey channel target) (clock w1) (redis w1)). }
  fold code_length. rewrite run_bind, run_generateOtp. change (code_from code_length (draws w2)) with (drawn_code w).
  do 2 run_step. cbn [draws clock set_field]. set (w3 := set_field draws S _). rewrite run_bind.
  destruct (run_upsert_otp (drawn_code w) (newObjectId (code_length + draws w)) (clock w) (clock w + ot_ttlMs ot) w3)
    as (c & d & r & Hrun & Hd & Hhash & Hexp & Hcons & Huc); [done..|].
  change (clock w2) with (clock w). change (draws w2) with (draws w). rewrite Hrun. do 2 run_step.
  set (w4 := set_field redis _ _). assert (within_budget w4) as Hb4.
  { apply (within_budget_forgets w2); [|done]. intros x Hx. apply set_other_law in Hx; [exact Hx|]. intros Heq.
    by destruct keys_differ. }
  rewrite run_bind, (run_send (drawn_code w) _ Hsms) by done. rewrite run_ret. eexists _, d. split; [done|].
  do 3 (split; [done|]). split; [|exact Hb4]. exact (conj Hd (conj Hhash (conj Hexp (conj Hcons Huc)))).
Qed.
End otp_lemmas.

(** ** What the service promises *)
Section properties.
Context {P : Platform} `{!RedisCacheLaws cache} (ot : OtpService).

(** a requested code works once.  When no cooldown or exhausted budget blocks
    the request, exactly one fresh code of the configured number of digits is
    delivered to the target; presented before it expires it is verified, and
    presented again it is refused. *)
Theorem request_then_verify (channel : OtpChannel) (target : string) (purpose : OtpPurpose) (w : world P) (u : Z) :
  (∀ i lo hi, lo < hi → lo <= randomInt i lo hi < hi) →
  healthy w → within_budget ot channel target w → unique_key o_id (docs (otps w)) →
  unblocked ot channel target w →
  (∀ d, In d (docs (otps w)) → o_id d ≠ newObjectId (code_length ot + draws w)%nat) →
  u <= clock w + ot_ttlMs ot →
  ∃ w1 code w2 w3, run (requestOtp ot channel target purpose) w = (w1, inr Requested) ∧
    outbox w1 = mkDelivery channel target code purpose :: outbox w ∧
    String.length code = code_length ot ∧ forallb is_digit (list_of_string code) = true ∧
    run (verifyOtp ot channel target purpose code) (w1 <| clock := u |>) = (w2, inr Verified) ∧
    run (verifyOtp ot channel target purpose code) w2 = (w3, inr Expired).
Proof.
  intros Hrand Hh Hb Hu Hun Hid Htime.
  destruct (run_requestOtp ot channel target purpose w Hh Hb Hu Hun Hid)
    as (w1 & d & Hreq & Hh1 & _ & Hout & (Hd & Hhash & Hexp & Hcons & Hu1) & Hb1).
  set (code := drawn_code ot w) in *. set (v := w1 <| clock := u |>).
  destruct (code_from_shape (code_length ot) (draws w) Hrand) as [Hlen Hdig].
  destruct (run_verifyOtp ot channel target purpose code v Hh1) as (w2 & r2 & Hv2 & Hh2 & Hc2 & He2).
  assert (otp_matches code (o_codeHash d) = true) as Hm by (rewrite Hhash; by apply otp_matches_hash).
  unfold verify_effect in He2. rewrite (within_budget_read ot channel target v Hb1) in He2.
  change (otps v) with (otps w1) in He2. rewrite Hd, Hm, Hcons, Hexp, (proj2 (Z.ltb_ge _ _)) in He2 by done.
  cbn [orb] in He2. destruct He2 as (-> & Hs2 & Hr2).
  assert (within_budget ot channel target w2) as Hb2.
  { apply (within_budget_forgets ot channel target v); [|exact Hb1]. intros x. rewrite Hr2. intros Hx.
    apply del_law, del_law in Hx. by apply (get_law (attemptsKey channel target) (clock v) (redis v)) in Hx. }
  destruct (run_verifyOtp ot channel target purpose code w2 Hh2) as (w3 & r3 & Hv3 & _ & _ & He3).
  unfold verify_effect in He3. rewrite (within_budget_read ot channel target w2 Hb2), Hs2 in He3.
  rewrite (find_alter_first_by _ _ _ _ d) in He3; [|done| |by apply find_split in Hd as [Hd _]].
  - cbn [mark_used o_expiresAt o_consumed set_field] in He3. rewrite orb_true_r in He3. destruct He3 as [-> _].
    by exists w1, code, w2, w3.
  - apply (find_by_key o_id _ _ (o_id d)); [done|by apply find_some in Hd as [Hd _]|done|].
    intros x. by rewrite bool_decide_eq_true.
Qed.

(** Every outcome of a verification.  An exhausted budget refuses without
    looking at the codes; a missing, expired or consumed code is reported as
    expired; a wrong code costs an attempt in both stores; only the code whose
    hash is stored is verified, consumed, and clears the budget and cooldown. *)
Theorem verify_outcomes (channel : OtpChannel) (target : string) (purpose : OtpPurpose) (code : string)
    (w : world P) :
  healthy w →
  ∃ w' r, run (verifyOtp ot channel target purpose code) w = (w', inr r) ∧
    verify_effect ot channel target purpose code w w' r.
Proof.
  intros Hh. destruct (run_verifyOtp ot channel target purpose code w Hh) as (w' & r & Hr & _ & _ & He). eauto.
Qed.
End properties.
