(* ===== verification/AuditTrail.v ===== *)
(** * Audit service

    [packages/core/src/services/audit.service.ts]: security events in a hash
    chain.  On a replica set an entry and the chain tip are written in one
    transaction; otherwise, and when the transaction cannot be used, the tail of
    the chain is read again.  [log] swallows every failure. *)

From S2P Require Export Transactions.

Section audit.
Context {P : Platform}.

Record AuditEntryInput := mkAuditEntryInput {
  ae_eventType : string;
  ae_severity : option Severity;
  ae_tenantId : option string;
  ae_applicationId : option string;
  ae_userId : option string;
  ae_sessionId : option string;
  ae_ip : option string;
  ae_userAgent : option string;
  ae_metadata : option (list (string * json));
}.

Record AuditEntry := mkAuditEntry {
  en_sequence : Z; en_prevHash : string; en_hash : string; en_data : AuditEntryInput }.

Record AuditService := mkAuditService {
  as_hashAlgorithm : HashAlgorithm;
  as_retentionMs : option Z;
  as_sink : bool;
}.

(** [AUDIT_CHAIN_ROOT]. *)
Definition AUDIT_CHAIN_ROOT : string := "0000000000000000000000000000000000000000000000000000000000000000".
Definition counterId : string := "audit".

(** [setRetentionDays]: the window; a non-positive number of days is refused. *)
Definition setRetentionDays (a : AuditService) (days : Z) : exn + AuditService :=
  if negb (0 <? days) then inl (JsError "audit retention days must be > 0")
  else inr (mkAuditService (as_hashAlgorithm a) (Some (days * 24 * 60 * 60 * 1000)) (as_sink a)).

Definition counter_doc (d : AuditSequenceDoc) : bool := bool_decide (q_id d = counterId).
Definition next_counter (d : AuditSequenceDoc) : AuditSequenceDoc := d <| q_seq ::= Z.add 1 |>.
Definition claim_sequence : prog (world P) AuditSequenceDoc :=
  find_one_and_upsert counter_doc next_counter (mkAuditSequenceDoc counterId 1 None).

(** [getNextSequence]. *)
Definition getNextSequence : prog (world P) Z := c ← claim_sequence; mret (q_seq c).

(** [canonicalData], [chainHash]. *)
Definition canonicalData (input : AuditEntryInput) : string :=
  stringify (JObj [("t", JStr (ae_eventType input)); ("i", JStr (nullish (ae_ip input) ""));
    ("u", JStr (nullish (ae_userId input) "")); ("m", JObj (nullish (ae_metadata input) []))]%string).
Definition chainHash (a : AuditService) (prevHash : string) (data : AuditEntryInput) : string :=
  to_hex (createHash (as_hashAlgorithm a) (prevHash +:+ canonicalData data)).

(** [buildDoc], with the clock readings of its two [Date]s. *)
Definition buildDoc (a : AuditService) (input : AuditEntryInput) (sequence : Z) (prevHash hash : string)
    (t : Z) : AuditLogDoc :=
  mkAuditLogDoc t (ae_eventType input) (nullish (ae_severity input) info) (ae_tenantId input)
    (ae_applicationId input) (ae_userId input) (ae_sessionId input) (ae_ip input) (ae_userAgent input)
    (nullish (ae_metadata input) []) (Some sequence) (Some hash) (Some prevHash)
    (match as_retentionMs a with Some r => if r =? 0 then None else Some (t + r) | None => None end).

(** [findOne().sort({ sequence: -1 })]; missing sequences sort last. *)
Definition newest_first (d : AuditLogDoc) : Z := match l_sequence d with Some n => - n | None => 1 end.
Definition find_tail : prog (world P) (option AuditLogDoc) := find_least newest_first (λ _, true).

(** [if (last?.hash) prevHash = last.hash]. *)
Definition adopt (last : option AuditLogDoc) (prevHash : string) : string :=
  match last with
  | Some d => if truthy (l_hash d) then nullish (l_hash d) "" else prevHash
  | None => prevHash
  end.

(** [writeEntryBestEffort]. *)
Definition writeEntryBestEffort (a : AuditService) (input : AuditEntryInput) : prog (world P) AuditEntry :=
  sequence ← getNextSequence;
  prevHash ← try_catch (last ← find_tail; mret (adopt last AUDIT_CHAIN_ROOT)) (λ _, mret AUDIT_CHAIN_ROOT);
  let hash := chainHash a prevHash input in
  t ← now;
  create (buildDoc a input sequence prevHash hash t) ;;
  mret (mkAuditEntry sequence prevHash hash input).

(** The transactional body of [writeEntry]. *)
Definition writeEntryTx (a : AuditService) (input : AuditEntryInput) : prog (world P) AuditEntry :=
  counter ← claim_sequence;
  let sequence := q_seq counter in
  prevHash ← (if truthy (q_lastHash counter) then mret (nullish (q_lastHash counter) "")
              else last ← find_tail; mret (adopt last AUDIT_CHAIN_ROOT));
  let hash := chainHash a prevHash input in
  t ← now;
  create (buildDoc a input sequence prevHash hash t) ;;
  update_one counter_doc (λ c, c <| q_lastHash := Some hash |>) ;;
  mret (mkAuditEntry sequence prevHash hash input).

Definition audit_transaction : TransactionOptions :=
  mkTransactionOptions 3 25 (λ _, false) isTransientTransactionError.

(** [writeEntry]; the wrapper only returns when the body assigned [written]. *)
Definition writeEntry (a : AuditService) (input : AuditEntryInput) : prog (world P) AuditEntry :=
  withTransaction (λ session, if session then writeEntryTx a input else writeEntryBestEffort a input)
    audit_transaction.

Definition sink_entry (input : AuditEntryInput) (entry : option AuditEntry) (uuid : string) (t : Z) :
    list (string * json) :=
  [("id", JStr uuid); ("timestamp", JNum t); ("eventType", JStr (ae_eventType input));
   ("severity", JStr (match nullish (ae_severity input) info with
                      | info => "info" | warning => "warning" | critical => "critical" end))]%string ++
  opt_field "tenantId" (option_map JStr (ae_tenantId input)) ++
  opt_field "applicationId" (option_map JStr (ae_applicationId input)) ++
  opt_field "userId" (option_map JStr (ae_userId input)) ++
  opt_field "sessionId" (option_map JStr (ae_sessionId input)) ++
  opt_field "ip" (option_map JStr (ae_ip input)) ++
  opt_field "channelHash" (option_map (λ e, JStr (en_hash e)) entry) ++
  opt_field "sequence" (option_map (λ e, JNum (en_sequence e)) entry).

Definition send_to_sink (e : list (string * json)) : prog (world P) () :=
  store_op (λ w, (w <| audit_sink ::= cons e |>, inr tt)).

(** [log]. *)
Definition log (a : AuditService) (input : AuditEntryInput) : prog (world P) () :=
  entry ← try_catch (e ← writeEntry a input; mret (Some e)) (λ _, mret None);
  try_catch
    (if as_sink a then
       uuid ← draw randomUUID; t ← now; send_to_sink (sink_entry input entry uuid t)
     else mret tt)
    (λ _, mret tt).

(** [this.audit?.log(...)]. *)
Definition audit_log (a : option AuditService) (input : AuditEntryInput) : prog (world P) () :=
  match a with Some a => log a input | None => mret tt end.

(** The inputs most callers build. *)
Definition audit_event (eventType : string) (tenantId applicationId userId : option string)
    (metadata : list (string * json)) : AuditEntryInput :=
  mkAuditEntryInput eventType None tenantId applicationId userId None None None (Some metadata).

(** [chain]. *)
Definition chain (limit : nat) : prog (world P) (list AuditEntry) :=
  docs ← find_sorted (λ d, nullish (l_sequence d) (-1)) (λ _, true);
  mret (map (λ d, mkAuditEntry (nullish (l_sequence d) 0) (nullish (l_prevHash d) "") (nullish (l_hash d) "")
                    (mkAuditEntryInput (l_eventType d) None None None None None None None
                       (Some (l_metadata d)))) (if (limit =? 0)%nat then docs else take limit docs)).
End audit.

(** ** Logging touches nothing but the log *)
Section isolation.
Context {P : Platform}.

(** What the calling flow can observe, except the passing of time. *)
Definition rest (w : world P) :=
  (users w, sessions w, otps w, backupCodes w, verificationTokens w, oauthClients w,
   authorizationCodes w, permissions w, roles w, userRoleAssignments w, rateLimitCounters w,
   webauthnCredentials w, apiKeys w, webhooks w, webhookDeliveries w, tenants w, applications w, organizations w, teams w, tenantQuotas w, subscriptions w, mfaSecretsBackup w, migrations w,
   challengeStore w, redis w, keyStore w,
   transactional w, outbox w).

Definition audit_only (w w' : world P) : Prop :=
  rest w' = rest w ∧ clock w <= clock w' ∧ (draws w ≤ draws w')%nat ∧ (healthy w → healthy w').

#[export] Instance audit_only_preorder : PreOrder audit_only.
Proof.
  split; [done|]. intros w1 w2 w3 (H1 & H2 & H3 & H4) (H1' & H2' & H3' & H4').
  split; [congruence|]. split; [lia|]. split; [lia|auto].
Qed.

Lemma audit_only_rollback (w w' : world P) : audit_only w w' → audit_only w (rollback w w').
Proof.
  intros (H1 & H2 & H3 & H4). split; [|done]. unfold rest in *. cbn. injection H1. intros. congruence.
Qed.

Lemma audit_only_faults (w : world P) x fs : faults w = x :: fs → audit_only w (w <| faults := fs |>).
Proof. intros Hw. repeat split; cbn; [lia..|]. unfold healthy. congruence. Qed.

(** A command on the log collections. *)
Lemma audit_only_op {A} (f : world P → world P * (exn + A)) :
  (∀ w, audit_only w (f w).1) → guarantee audit_only (store_op f).
Proof. apply guarantee_store_op; [apply _|apply audit_only_faults]. Qed.

Lemma g_find_tail : guarantee audit_only find_tail.
Proof. by apply audit_only_op. Qed.
Lemma g_insert_log (d : AuditLogDoc) : guarantee audit_only (create d).
Proof. apply audit_only_op. intros w. unfold insert_doc. by destruct (m_insert _ _ _). Qed.
Lemma g_update_sequence f u : guarantee audit_only (update_one (D := AuditSequenceDoc) f u).
Proof. by apply audit_only_op. Qed.
Lemma g_claim_sequence : guarantee audit_only claim_sequence.
Proof.
  apply audit_only_op. intros w. unfold insert_doc. destruct (m_find_one _ _); [done|].
  by destruct (m_insert _ _ _).
Qed.
Lemma g_audit_now : guarantee audit_only now.
Proof. by apply guarantee_act. Qed.
Lemma g_audit_draw {A} (f : nat → A) : guarantee audit_only (draw f).
Proof. apply guarantee_act. intros w. repeat split; cbn; try lia. by intros. Qed.
Lemma g_send_to_sink e : guarantee audit_only (send_to_sink e).
Proof. by apply audit_only_op. Qed.
#[local] Hint Resolve g_find_tail g_insert_log g_update_sequence g_claim_sequence g_audit_now
  g_audit_draw g_send_to_sink : guarantee_db.

Lemma g_writeEntryBestEffort a input : guarantee audit_only (writeEntryBestEffort a input).
Proof.
  unfold writeEntryBestEffort, getNextSequence. apply guarantee_bind; [solve_guarantee|]. intros n.
  apply guarantee_bind; [|solve_guarantee]. apply guarantee_catch; solve_guarantee.
Qed.
Lemma g_writeEntryTx a input : guarantee audit_only (writeEntryTx a input).
Proof. unfold writeEntryTx. solve_guarantee. Qed.

#[local] Hint Resolve g_writeEntryBestEffort g_writeEntryTx : guarantee_db.
Lemma g_log a input : guarantee audit_only (log a input).
Proof.
  unfold log. apply guarantee_bind.
  - apply guarantee_catch; [|done]. apply guarantee_bind; [|done]. unfold writeEntry.
    apply guarantee_withTransaction; [apply _|apply audit_only_faults| | |done|].
    + intros w ms Hms. repeat split; cbn; [lia..|done].
    + apply audit_only_rollback.
    + intros [|]; solve_guarantee.
  - intros e. apply guarantee_catch; [|done]. solve_guarantee.
Qed.

Lemma log_total a input : cannot_throw (W := world P) (log a input).
Proof.
  unfold log. apply cannot_throw_bind; [by apply cannot_throw_catch|]. intros e.
  by apply cannot_throw_catch.
Qed.

Lemma audit_log_total a input : cannot_throw (W := world P) (audit_log a input).
Proof. destruct a; [apply log_total|done]. Qed.

Lemma run_audit_log a input (w : world P) :
  ∃ w', run (audit_log a input) w = (w', inr tt) ∧ audit_only w w'.
Proof.
  destruct (cannot_throw_run _ w (audit_log_total a input)) as (w' & [] & Hr).
  exists w'. split; [done|]. change w' with (w', @inr exn () tt).1. rewrite <- Hr.
  apply guarantee_run; [apply _|]. destruct a; [apply g_log|done].
Qed.
(** Logging in the middle of a handler. *)
Lemma run_audit_then {A} a input (k : prog (world P) A) w :
  ∃ w', run (audit_log a input ;; k) w = run k w' ∧ audit_only w w'.
Proof. rewrite run_bind. destruct (run_audit_log a input w) as (w' & -> & H). by exists w'. Qed.
End isolation.

(** ** The chain does not fork *)
Section chain.
Context {P : Platform} (a : AuditService).

Definition counter_of (w : world P) : option AuditSequenceDoc :=
  List.find counter_doc (docs (auditSequences w)).
Definition top (w : world P) : Z := match counter_of w with Some c => q_seq c | None => 0 end.
Definition tip (w : world P) : option string := match counter_of w with Some c => q_lastHash c | None => None end.
Definition seqn (d : AuditLogDoc) : Z := nullish (l_sequence d) 0.

(** The logged part of a stored entry. *)
Definition input_of (d : AuditLogDoc) : AuditEntryInput :=
  mkAuditEntryInput (l_eventType d) (Some (l_severity d)) (l_tenantId d) (l_applicationId d)
    (l_userId d) (l_sessionId d) (l_ip d) (l_userAgent d) (Some (l_metadata d)).

(** [d] carries the hash of its immediate predecessor, or the root. *)
Definition linked (l : list AuditLogDoc) (d : AuditLogDoc) : Prop :=
  (∃ p, In p l ∧ seqn p < seqn d ∧ (∀ x, In x l → seqn x < seqn d → seqn x <= seqn p) ∧
        l_prevHash d = l_hash p) ∨
  ((∀ x, In x l → seqn d <= seqn x) ∧ l_prevHash d = Some AUDIT_CHAIN_ROOT).

(** [d] carries the hash of its own content. *)
Definition sealed (d : AuditLogDoc) : Prop :=
  l_hash d = Some (chainHash a (nullish (l_prevHash d) "") (input_of d)).

Definition tail (l : list AuditLogDoc) (t : AuditLogDoc) : Prop :=
  In t l ∧ ∀ x, In x l → seqn x <= seqn t.

Record chained (w : world P) : Prop := {
  ch_sequences : ∀ d, In d (docs (auditLogs w)) → ∃ n, l_sequence d = Some n ∧ 0 < n <= top w;
  ch_top : 0 <= top w;
  ch_unique : unique_key l_sequence (docs (auditLogs w));
  ch_sealed : ∀ d, In d (docs (auditLogs w)) → sealed d;
  ch_linked : ∀ d, In d (docs (auditLogs w)) → linked (docs (auditLogs w)) d;
  ch_tip : truthy (tip w) = true → ∃ t, tail (docs (auditLogs w)) t ∧ l_hash t = tip w;
}.

(** Digests are not empty. *)
Hypothesis digest_nonempty : ∀ s, to_hex (createHash (as_hashAlgorithm a) s) ≠ "".

(** Appending an entry with the next sequence number. *)
Lemma chained_append w w' d :
  chained w → sealed d → l_sequence d = Some (top w + 1) →
  inserted d (docs (auditLogs w)) (docs (auditLogs w')) →
  top w' = top w + 1 → tip w' = l_hash d →
  (∃ t, tail (docs (auditLogs w)) t ∧ l_prevHash d = l_hash t) ∨
    docs (auditLogs w) = [] ∧ l_prevHash d = Some AUDIT_CHAIN_ROOT →
  chained w'.
Proof.
  intros [Hs Ht Hu Hse Hl Hti] Hd Hsq Hi Htop Htip Hprev.
  assert (∀ x, In x (docs (auditLogs w)) → seqn x < seqn d) as Hlt.
  { intros x Hx. destruct (Hs x Hx) as (n & Hn & ?). unfold seqn. rewrite Hn, Hsq. cbn. lia. }
  pose proof (λ x, inserted_In _ _ _ x Hi) as HIn.
  split.
  - intros x [->|Hx]%HIn; [exists (top w + 1); split; [done|lia]|].
    destruct (Hs x Hx) as (n & Hn & ?). exists n. split; [done|lia].
  - lia.
  - apply (inserted_unique _ _ _ _ Hi Hu). intros y Hy Heq. specialize (Hlt y Hy).
    unfold seqn in Hlt. rewrite Heq in Hlt. lia.
  - intros x [->|Hx]%HIn; auto.
  - intros x [->|Hx]%HIn.
    + destruct Hprev as [(t & [Htin Htl] & Hp)|[He Hp]].
      * left. exists t. split; [apply HIn; by right|]. split; [by apply Hlt|]. split; [|done].
        intros y [->|Hy]%HIn; [lia|]. intros _. by apply Htl.
      * right. split; [|done]. intros y [->|Hy]%HIn; [done|]. by rewrite He in Hy.
    + destruct (Hl x Hx) as [(p & Hp & Hpl & Hpm & Hpp)|[Hm Hp]].
      * left. exists p. split; [apply HIn; by right|]. split; [done|]. split; [|done].
        { intros y [->|Hy]%HIn; [|by apply Hpm]. specialize (Hlt x Hx). lia. }
      * right. split; [|done]. intros y [->|Hy]%HIn; [|by apply Hm]. specialize (Hlt x Hx). lia.
  - intros _. exists d. split; [|done]. split; [apply HIn; by left|].
    intros y [->|Hy]%HIn; [done|]. specialize (Hlt y Hy). lia.
Qed.

(** The predecessor hash a writer finds. *)
Definition found_prev (w : world P) (prevHash : string) : Prop :=
  (∃ t, tail (docs (auditLogs w)) t ∧ Some prevHash = l_hash t) ∨
  docs (auditLogs w) = [] ∧ prevHash = AUDIT_CHAIN_ROOT.

Lemma adopt_tail w :
  chained w → found_prev w (adopt (m_find_least newest_first (λ _, true) (auditLogs w)) AUDIT_CHAIN_ROOT).
Proof.
  intros Hc. pose proof (m_find_least_law newest_first (λ _, true) (auditLogs w)) as Hl.
  destruct (m_find_least _ _ _) as [t|].
  - destruct Hl as (Hin & _ & Hleast). left. exists t. split.
    + split; [done|]. intros x Hx. specialize (Hleast x Hx eq_refl). unfold newest_first, seqn in *.
      destruct (ch_sequences w Hc x Hx) as (n & Hn & _), (ch_sequences w Hc t Hin) as (m & Hm & _).
      rewrite Hm, Hn in Hleast |- *. cbn. lia.
    + pose proof (ch_sealed w Hc t Hin) as Hs. unfold sealed in Hs. unfold adopt. rewrite Hs. cbn.
      rewrite bool_decide_false; [done|]. apply digest_nonempty.
  - right. split; [|done]. revert Hl. by destruct (docs (auditLogs w)) as [|x l].
Qed.

(** Claiming the next number leaves the log alone. *)
Lemma run_claim w :
  healthy w → ∃ c s, run claim_sequence w = (w <| auditSequences := s |>, inr c) ∧
    List.find counter_doc (docs s) = Some c ∧ q_seq c = top w + 1 ∧ q_lastHash c = tip w.
Proof.
  intros Hh. unfold claim_sequence.
  destruct (run_find_one_and_upsert counter_doc next_counter (mkAuditSequenceDoc counterId 1 None) w Hh)
    as (s & Hrun & Hs).
  { intros Hn. apply not_true_is_false. intros (d & Hin & Hc)%existsb_exists.
    pose proof (find_none_all _ _ _ Hn Hin) as Hf. unfold counter_doc in Hf.
    cbn in Hc. unfold auditSequence_clash in Hc. cbn in Hc. bool_to_prop. congruence. }
  rewrite Hrun. unfold top, tip, counter_of. cbn [tbl auditSequences_table] in *.
  destruct (List.find counter_doc (docs (auditSequences w))) as [c|] eqn:Hc.
  - exists (next_counter c), s. split; [done|]. rewrite Hs. split; [|split; [apply (Z.add_comm 1)|done]].
    apply find_alter_first; [done|]. by apply find_split in Hc as [Hc _].
  - eexists _, s. split; [done|]. split; [|done]. by apply (inserted_find_new _ _ _ _ Hs).
Qed.

(** What one write appends. *)
Definition appended (w w' : world P) (input : AuditEntryInput) : Prop :=
  ∃ prevHash, found_prev w prevHash ∧
    inserted (buildDoc a input (top w + 1) prevHash (chainHash a prevHash input) (clock w))
      (docs (auditLogs w)) (docs (auditLogs w')).

Lemma buildDoc_sealed input n p t : sealed (buildDoc a input n p (chainHash a p input) t).
Proof. done. Qed.

(** With the counter and the predecessor in hand. *)
Lemma run_append {A} w s c input prevHash (k : prog (world P) A) :
  healthy w → chained w → List.find counter_doc (docs s) = Some c → q_seq c = top w + 1 →
  let hash := chainHash a prevHash input in
  ∃ logs, run (create (buildDoc a input (q_seq c) prevHash hash (clock w)) ;; k) (w <| auditSequences := s |>) =
      run k (w <| auditSequences := s |> <| auditLogs := logs |>) ∧
    inserted (buildDoc a input (top w + 1) prevHash hash (clock w)) (docs (auditLogs w)) (docs logs).
Proof.
  intros Hh Hc Hs Hq hash. rewrite run_bind, <- Hq.
  destruct (run_create (buildDoc a input (q_seq c) prevHash hash (clock w)) (w <| auditSequences := s |>))
    as (logs & -> & Hi); [done| |by exists logs].
  apply not_true_is_false. intros (d & Hin & Hcl)%existsb_exists.
  destruct (ch_sequences w Hc d Hin) as (n & Hn & Hle). cbn in Hcl. unfold auditLog_clash in Hcl.
  rewrite Hn in Hcl. cbn in Hcl. bool_to_prop. lia.
Qed.

Lemma run_writeEntryTx w input :
  healthy w → chained w →
  ∃ w' e, run (writeEntryTx a input) w = (w', inr e) ∧ healthy w' ∧ transactional w' = transactional w ∧
    chained w' ∧ appended w w' input.
Proof.
  intros Hh Hc. unfold writeEntryTx. rewrite run_bind. destruct (run_claim w Hh) as (c & s & -> & Hs & Hq & Hlast).
  set (w1 := w <| auditSequences := s |>).
  assert (∃ prevHash, run (if truthy (q_lastHash c) then mret (nullish (q_lastHash c) "")
      else last ← find_tail; mret (adopt last AUDIT_CHAIN_ROOT)) w1 = (w1, inr prevHash) ∧ found_prev w prevHash)
    as (prevHash & Hprev & Hfound).
  { destruct (truthy (q_lastHash c)) eqn:Ht.
    - eexists. split; [done|]. left. rewrite Hlast in *. destruct (ch_tip w Hc Ht) as (t & Htl & Hth).
      exists t. split; [done|]. rewrite Hth. by destruct (tip w).
    - unfold find_tail. do 2 run_step. eexists. split; [done|]. by apply adopt_tail. }
  rewrite run_bind, Hprev. run_step. cbn [clock set_field w1]. subst w1.
  destruct (run_append w s c input prevHash
    (update_one counter_doc (λ c, c <| q_lastHash := Some (chainHash a prevHash input) |>) ;;
     mret (mkAuditEntry (q_seq c) prevHash (chainHash a prevHash input) input)) Hh Hc Hs Hq)
    as (logs & -> & Hi). do 2 run_step. eexists _, _. split; [done|]. do 2 (split; [done|]).
  split; [|by exists prevHash].
  assert (counter_of (upd_tbl (m_update_one counter_doc (λ c, c <| q_lastHash := Some (chainHash a prevHash input) |>))
    (w <| auditSequences := s |> <| auditLogs := logs |>)) = Some (c <| q_lastHash := Some (chainHash a prevHash input) |>)) as Hco.
  { unfold counter_of. cbn. rewrite m_update_one_law. apply find_alter_first; [done|].
    by apply find_split in Hs as [Hs _]. }
  eapply (chained_append w _ _ Hc); [apply (buildDoc_sealed input (top w + 1) prevHash (clock w))|done|exact Hi| | |].
  - unfold top at 1. rewrite Hco. exact Hq.
  - unfold tip. by rewrite Hco.
  - destruct Hfound as [(t & Ht & Hp)|[He ->]]; [left; by exists t|by right].
Qed.
(** *** Concurrent writers

    Transactions are there, no command fails from here on, and the chain is sound. *)
Definition log_ready (w : world P) : Prop := transactional w = true ∧ healthy w ∧ chained w.

Lemma log_ready_same w w' :
  transactional w' = transactional w → faults w' = faults w → auditLogs w' = auditLogs w →
  auditSequences w' = auditSequences w → log_ready w → log_ready w'.
Proof.
  unfold log_ready, healthy. intros -> -> Hl Hs (Ht & Hf & [H1 H2 H3 H4 H5 H6]). do 2 (split; [done|]).
  split; unfold top, tip, counter_of in *; by rewrite ?Hl, ?Hs.
Qed.

Lemma safe_act {A} (f : world P → world P * A) :
  (∀ w, log_ready w → log_ready (f w).1) → harmless log_ready (λ _, 0%nat) (act f).
Proof. intros Hf. apply harmless_atom; [|done]. auto. Qed.

Lemma safe_log input : harmless log_ready (λ _, 0%nat) (log a input).
Proof.
  unfold log. apply harmless_bind.
  - apply harmless_catch; [|done]. apply harmless_bind; [|done].
    apply safe_withTransaction; [cbn; lia|]. intros w Hw. pose proof Hw as (Ht & Hh & Hc).
    destruct (run_writeEntryTx w input Hh Hc) as (w' & e & Hr & Hh' & Ht' & Hc' & _).
    do 2 (split; [done|]). exists w', e. split; [done|]. split; [done|]. split; [congruence|by split].
  - intros e. apply harmless_catch; [|done]. destruct (as_sink a); [|done].
    apply harmless_bind; [apply safe_act; intros w; by apply log_ready_same|]. intros i.
    apply harmless_bind; [by apply safe_act|]. intros t. apply harmless_atom; [|by intros [|]].
    intros w Hw. split; [|done]. unfold apply_fault. destruct Hw as (Ht & Hh & Hc). rewrite Hh. cbn.
    by apply (log_ready_same w).
Qed.
End chain.

(** ** What the service promises *)
Section properties.
Context {P : Platform}.

(** logging never interferes.  Whatever fails, [log] returns normally, and
    it changes nothing but the audit collections, the sink, the random draws and
    the time spent on retries. *)
Theorem log_never_interferes (a : option AuditService) (input : AuditEntryInput) (w : world P) :
  ∃ w', run (audit_log a input) w = (w', inr tt) ∧ rest w' = rest w ∧ clock w <= clock w'.
Proof. destruct (run_audit_log a input w) as (w' & Hr & H1 & H2 & _). by exists w'. Qed.


(** An entry is bound to its hash.  Two entries with the same link and hash
    agree on the event, the address, the user and the metadata, unless they
    exhibit a collision of the hash function. *)
Theorem chain_link_binding (a : AuditService) (prevHash : string) (x y : AuditEntryInput) :
  chainHash a prevHash x = chainHash a prevHash y →
  (ae_eventType x = ae_eventType y ∧ nullish (ae_ip x) "" = nullish (ae_ip y) "" ∧
   nullish (ae_userId x) "" = nullish (ae_userId y) "" ∧
   nullish (ae_metadata x) [] = nullish (ae_metadata y) []) ∨
  (prevHash +:+ canonicalData x ≠ prevHash +:+ canonicalData y ∧
   createHash (as_hashAlgorithm a) (prevHash +:+ canonicalData x) =
   createHash (as_hashAlgorithm a) (prevHash +:+ canonicalData y)).
Proof.
  intros Hh%(inj to_hex). destruct (decide (canonicalData x = canonicalData y)) as [He|He].
  - left. apply (inj stringify) in He. injection He. auto.
  - right. split; [|done]. by intros ?%(inj (String.append prevHash)).
Qed.
End properties.
