(* ===== verification/VerificationToken.v ===== *)
(** * Verification tokens

    [packages/core/src/services/verificationToken.service.ts]: single-use,
    short-lived tokens for e-mail verification, password resets and magic links.
    Only hashes are stored; redeeming consumes the token before checking it. *)

From S2P Require Export AuditTrail.
From S2P Require Export Stock.

Section verification_tokens.
Context {P : Platform}.

Record VerificationTokenService := mkVerificationTokenService {
  vt_tenantId : string;
  vt_applicationId : string;
  vt_audit : option AuditService;
  vt_tokenHashAlgorithm : HashAlgorithm;
}.

Record IssueTokenInput := mkIssueTokenInput {
  ii_kind : VerificationTokenKind;
  ii_tenantId : string;
  ii_applicationId : string;
  ii_userId : string;
  ii_target : option string;
  ii_redirectUri : option string;
  ii_ttlMs : option Z;
}.

Record RedeemResult := mkRedeemResult {
  rr_userId : string;
  rr_kind : VerificationTokenKind;
  rr_tenantId : string;
  rr_applicationId : string;
  rr_target : option string;
  rr_redirectUri : option string;
}.

Definition DEFAULT_TTL_MS : Z := 15 * 60 * 1000.

(** [hashToken]. *)
Definition hashToken (vt : VerificationTokenService) (token : string) : string :=
  to_base64 (createHash (vt_tokenHashAlgorithm vt) token).

Definition unconsumed (d : VerificationTokenDoc) : bool := bool_decide (v_consumedAt d = None).
Definition same_purpose (tenantId applicationId userId : string) (kind : VerificationTokenKind)
    (d : VerificationTokenDoc) : bool :=
  bool_decide (v_tenantId d = tenantId) && bool_decide (v_applicationId d = applicationId) &&
  bool_decide (v_userId d = userId) && bool_decide (v_kind d = kind) && unconsumed d.
Definition consume (t : Z) (d : VerificationTokenDoc) : VerificationTokenDoc := d <| v_consumedAt := Some t |>.

Definition fresh_token (i : nat) : string := to_base64url (randomBytes i 32).

(** The document [issue] stores. *)
Definition issued_doc (vt : VerificationTokenService) (input : IssueTokenInput) (id token : string)
    (expiresAt : Z) : VerificationTokenDoc :=
  mkVerificationTokenDoc id (ii_kind input) (ii_tenantId input) (ii_applicationId input)
    (ii_userId input) (hashToken vt token) (ii_target input) (ii_redirectUri input) expiresAt None.

(** [issue]: the raw token and its lifetime in seconds. *)
Definition issue (vt : VerificationTokenService) (input : IssueTokenInput) : prog (world P) (string * Z) :=
  t ← now;
  update_many (same_purpose (ii_tenantId input) (ii_applicationId input) (ii_userId input) (ii_kind input))
    (consume t) ;;
  token ← draw fresh_token;
  let ttlMs := nullish (ii_ttlMs input) DEFAULT_TTL_MS in
  t' ← now;
  id ← draw newObjectId;
  create (issued_doc vt input id token (t' + ttlMs)) ;;
  audit_log (vt_audit vt) (audit_event "VERIFICATION_TOKEN_ISSUED" (Some (ii_tenantId input))
    (Some (ii_applicationId input)) (Some (ii_userId input))
    [("kind", JStr (VerificationTokenKind_string (ii_kind input)))]%string) ;;
  mret (token, ttlMs / 1000).

Definition redeemable (hash : string) (d : VerificationTokenDoc) : bool :=
  bool_decide (v_tokenHash d = hash) && unconsumed d.

Definition INVALID_TOKEN (message : string) : exn := TokenError message "INVALID_TOKEN".

Definition redeem_result (d : VerificationTokenDoc) : RedeemResult :=
  mkRedeemResult (v_userId d) (v_kind d) (v_tenantId d) (v_applicationId d) (v_target d) (v_redirectUri d).

(** [redeem]. *)
Definition redeem (vt : VerificationTokenService) (token : string) : prog (world P) RedeemResult :=
  t ← now;
  doc ← find_one_and_update (redeemable (hashToken vt token)) (consume t);
  match doc with
  | None => Throw (INVALID_TOKEN "Token is invalid or already used")
  | Some d =>
    throw_if (negb (bool_decide (v_tenantId d = vt_tenantId vt))) (INVALID_TOKEN "Token tenant mismatch") ;;
    t' ← now;
    throw_if (v_expiresAt d <? t') (TokenError "Token expired" "TOKEN_EXPIRED") ;;
    throw_if (negb (bool_decide (v_applicationId d = vt_applicationId vt)))
      (NotFoundError "Token application mismatch" "INVALID_TOKEN") ;;
    audit_log (vt_audit vt) (audit_event "VERIFICATION_TOKEN_USED" (Some (v_tenantId d))
      (Some (v_applicationId d)) (Some (v_userId d))
      [("kind", JStr (VerificationTokenKind_string (v_kind d)))]%string) ;;
    mret (redeem_result d)
  end.

(** [existsActive]. *)
Definition existsActive (vt : VerificationTokenService) (kind : VerificationTokenKind) (userId : string) :
    prog (world P) bool :=
  t ← now;
  count ← count_documents (λ d, same_purpose (vt_tenantId vt) (vt_applicationId vt) userId kind d &&
                                (t <? v_expiresAt d));
  mret (0 <? count).

(** The requests clients can have in flight. *)
Inductive token_request :=
| IssueToken (input : IssueTokenInput)
| RedeemToken (token : string)
| ExistsActive (kind : VerificationTokenKind) (userId : string).
Inductive token_response := TokenIssued (token : string) | TokenRedeemed (r : RedeemResult) | TokenExists (b : bool).

Definition serve_token (vt : VerificationTokenService) (r : token_request) :
    prog (world P) (token_request * token_response) :=
  match r with
  | IssueToken input => p ← issue vt input; mret (r, TokenIssued p.1)
  | RedeemToken token => x ← redeem vt token; mret (r, TokenRedeemed x)
  | ExistsActive kind userId => b ← existsActive vt kind userId; mret (r, TokenExists b)
  end.

(** ** Single use *)
Section single_use.
Context (vt : VerificationTokenService) (h : string) (n0 : nat).

(** Tokens drawn from the [n0]-th draw on do not hash to [h]. *)
Definition token_fresh_from : Prop := ∀ i, (n0 ≤ i)%nat → hashToken vt (fresh_token i) ≠ h.

Definition token_won (r : token_request * token_response) : bool :=
  match r with
  | (RedeemToken token, TokenRedeemed _) => bool_decide (hashToken vt token = h)
  | _ => false
  end.

Lemma stock_audit a input : guarantee (keeps (drawn n0) (stock (redeemable h))) (audit_log a input).
Proof.
  destruct a as [a|]; [|done]. eapply guarantee_mono; [|apply g_log].
  intros w w' (Hr & _ & Hd & _). apply stock_other; [|done]. unfold rest in Hr. cbn. by injection Hr.
Qed.

Lemma consume_never_revives t : never_revives (redeemable h) (consume t).
Proof. intros d. unfold redeemable, unconsumed. cbn. by rewrite andb_comm. Qed.

#[local] Hint Resolve stock_audit consume_never_revives : guarantee_db.

Lemma harmless_issue input : token_fresh_from → harmless (drawn n0) (stock (redeemable h)) (issue vt input).
Proof.
  intros Hf. unfold issue. apply harmless_bind; [apply guarantee_harmless, g_now|]. intros t.
  apply harmless_bind; [apply guarantee_harmless, g_update_many, consume_never_revives|]. intros [].
  apply pays_bind, pays_atom. intros w Hw. cbn [fst snd pays]. split; [unfold drawn in *; cbn; lia|].
  exists 0%nat. split; [done|]. specialize (Hf (draws w) Hw). apply guarantee_harmless.
  apply guarantee_bind; [apply g_now|]. intros t'. apply guarantee_bind; [apply g_draw|]. intros i.
  apply guarantee_bind; [|solve_guarantee]. apply g_create.
  unfold redeemable. cbn. by rewrite bool_decide_false.
Qed.

Lemma pays_redeem_token token :
  pays (drawn n0) (stock (redeemable h)) 0 (redeem vt token) (λ r m, match r with
    inr _ => hashToken vt token = h → (1 ≤ m)%nat | inl _ => True end).
Proof.
  destruct (decide (hashToken vt token = h)) as [Hh|Hh].
  - unfold redeem. rewrite Hh. apply pays_harmless_bind; [apply guarantee_harmless, g_now|done|].
    intros m t _. apply pays_bind. eapply pays_mono; [apply (pays_frame _ _ _ 0 m), pays_redeem|].
    + done.
    + intros d. unfold redeemable, unconsumed. cbn. by rewrite andb_comm.
    + intros [e|[d|]] n (n' & -> & Hn); [done| |done].
      apply pays_harmless; [apply guarantee_harmless; solve_guarantee|]. intros [e|a] k Hk; [done|lia].
  - apply pays_harmless; [|by intros [e|a] m _]. apply guarantee_harmless. unfold redeem.
    apply guarantee_bind; [apply g_now|]. intros t. apply guarantee_bind; [|intros [d|]; solve_guarantee].
    apply g_find_one_and_update, consume_never_revives.
Qed.

Lemma pays_serve_token r :
  token_fresh_from → pays (drawn n0) (stock (redeemable h)) 0 (serve_token vt r) (won token_won).
Proof.
  intros Hf. destruct r as [input|token|k u]; cbn [serve_token]; apply pays_bind.
  - apply pays_harmless; [by apply harmless_issue|]. by intros [e|a] m _.
  - eapply pays_mono; [apply pays_redeem_token|]. intros [e|x] m Hm; [done|].
    cbn. intros Hw%bool_decide_eq_true. auto.
  - apply pays_harmless; [|by intros [e|a] m _]. apply guarantee_harmless. unfold existsActive. solve_guarantee.
Qed.
End single_use.
End verification_tokens.

(** ** Functional behaviour *)
Section functional.
Context {P : Platform} (vt : VerificationTokenService).

Lemma audit_only_tokens w w' : audit_only w w' → verificationTokens w' = verificationTokens w.
Proof. intros (Hr & _). unfold rest in Hr. by injection Hr. Qed.

Lemma run_redeem token w :
  healthy w →
  let h := hashToken vt token in
  ∃ w', run (redeem vt token) w =
      (w', match List.find (redeemable h) (docs (verificationTokens w)) with
           | None => inl (INVALID_TOKEN "Token is invalid or already used")
           | Some d =>
             if negb (bool_decide (v_tenantId d = vt_tenantId vt)) then inl (INVALID_TOKEN "Token tenant mismatch")
             else if v_expiresAt d <? clock w then inl (TokenError "Token expired" "TOKEN_EXPIRED")
             else if negb (bool_decide (v_applicationId d = vt_applicationId vt))
             then inl (NotFoundError "Token application mismatch" "INVALID_TOKEN")
             else inr (redeem_result d)
           end) ∧
    docs (verificationTokens w') = alter_first (redeemable h) (consume (clock w)) (docs (verificationTokens w)).
Proof.
  intros Hh h. unfold redeem. do 2 run_step. cbn [tbl verificationTokens_table upd_tbl]. fold h.
  set (w1 := set_field verificationTokens _ w).
  assert (docs (verificationTokens w1) = alter_first (redeemable h) (consume (clock w)) (docs (verificationTokens w)))
    as Hd by (cbn; by rewrite m_update_one_law).
  destruct (List.find (redeemable h) (docs (verificationTokens w))) as [d|]; cbn [option_map]; [|by exists w1].
  run_step. change (v_tenantId (consume (clock w) d)) with (v_tenantId d). destruct (negb _); [by exists w1|].
  do 2 run_step. cbn [clock set_field w1]. change (v_expiresAt (consume (clock w) d)) with (v_expiresAt d).
  destruct (v_expiresAt d <? clock w); [by exists w1|].
  run_step. change (v_applicationId (consume (clock w) d)) with (v_applicationId d).
  destruct (negb _); [by exists w1|].
  match goal with |- context [run (audit_log ?a ?i ≫= λ _, ?k) ?v] =>
    destruct (run_audit_then a i k v) as (w' & Hr & Ha) end.
  exists w'. rewrite Hr. split; [done|]. by rewrite (audit_only_tokens _ _ Ha), Hd.
Qed.

(** What [issue] draws from [w]. *)
Definition next_token (w : world P) : string := fresh_token (draws w).
Definition next_doc (input : IssueTokenInput) (w : world P) : VerificationTokenDoc :=
  issued_doc vt input (newObjectId (S (draws w))) (next_token w)
    (clock w + nullish (ii_ttlMs input) DEFAULT_TTL_MS).

Lemma run_issue input w :
  healthy w →
  (∀ d, In d (docs (verificationTokens w)) → verificationToken_clash (next_doc input w) d = false) →
  ∃ w', run (issue vt input) w = (w', inr (next_token w, nullish (ii_ttlMs input) DEFAULT_TTL_MS / 1000)) ∧
    healthy w' ∧
    inserted (next_doc input w)
      (alter_all (same_purpose (ii_tenantId input) (ii_applicationId input) (ii_userId input) (ii_kind input))
         (consume (clock w)) (docs (verificationTokens w)))
      (docs (verificationTokens w')).
Proof.
  intros Hh Hfresh. unfold issue. do 5 run_step. cbn [draws clock set_field upd_tbl verificationTokens_table].
  fold (next_token w). rewrite run_bind.
  change (issued_doc vt input (newObjectId (S (draws w))) (next_token w) _) with (next_doc input w).
  set (w1 := set_field draws S (set_field draws S _)).
  destruct (run_create (next_doc input w) w1) as (c & Hrun & Hins); [done| |].
  { apply not_true_is_false. intros (d & Hin & Hc)%existsb_exists. cbn in Hin.
    rewrite m_update_many_law in Hin. apply In_alter_all in Hin as (d0 & Hin & ->).
    specialize (Hfresh d0 Hin). change (verificationToken_clash (next_doc input w)
      (if same_purpose (ii_tenantId input) (ii_applicationId input) (ii_userId input) (ii_kind input) d0
       then consume (clock w) d0 else d0) = true) in Hc. assert (verificationToken_clash (next_doc input w) d0 = true) by (by destruct (same_purpose _ _ _ _ d0)). congruence. }
  rewrite Hrun. set (w2 := upd_tbl (λ _, c) w1).
  match goal with |- context [run (audit_log ?a ?i ≫= λ _, ?k) ?v] =>
    destruct (run_audit_then a i k v) as (w' & Hr & Ha) end.
  exists w'. rewrite Hr. split; [done|]. split; [by apply Ha|].
  rewrite (audit_only_tokens _ _ Ha). cbn in Hins |- *. by rewrite m_update_many_law in Hins.
Qed.

(** The token just issued is the one its hash finds. *)
Lemma issued_found input w l' :
  inserted (next_doc input w)
    (alter_all (same_purpose (ii_tenantId input) (ii_applicationId input) (ii_userId input) (ii_kind input))
       (consume (clock w)) (docs (verificationTokens w))) l' →
  (∀ d, In d (docs (verificationTokens w)) → verificationToken_clash (next_doc input w) d = false) →
  List.find (redeemable (hashToken vt (next_token w))) l' = Some (next_doc input w).
Proof.
  intros Hins Hfresh. apply (inserted_find_new _ (next_doc input w) _ _ Hins).
  - unfold redeemable, unconsumed. cbn. by rewrite bool_decide_true.
  - destruct (List.find _ _) as [x|] eqn:Hx; [|done].
    apply find_some in Hx as [(d & Hin & ->)%In_alter_all Hs]. specialize (Hfresh d Hin).
    assert (v_tokenHash d = hashToken vt (next_token w)) as He.
    { revert Hs. unfold redeemable. destruct (same_purpose _ _ _ _ d); intros Hs; by bool_to_prop. }
    unfold verificationToken_clash in Hfresh. apply orb_false_iff in Hfresh as [_ Hn%bool_decide_eq_false].
    by destruct Hn.
Qed.
End functional.

(** ** What the service promises *)
Section properties.
Context {P : Platform} (vt : VerificationTokenService).

(** A verification token is redeemed at most once, whatever else is in
    flight and whatever fails, and never when no unconsumed document carries its
    hash. *)
Theorem redeem_single_use (token : string) (n0 : nat) (w w' : world P) (requests : list token_request)
    (threads : list (prog (world P) (token_request * token_response))) :
  unique_key v_tokenHash (docs (verificationTokens w)) →
  token_fresh_from vt (hashToken vt token) n0 → drawn n0 w →
  reachable (expiry_env VerificationTokenDoc) (w, map (serve_token vt) requests) (w', threads) →
  (winners (token_won vt (hashToken vt token)) threads ≤
   if existsb (redeemable (hashToken vt token)) (docs (verificationTokens w)) then 1 else 0)%nat.
Proof.
  intros Hu Hf Hd. set (h := hashToken vt token).
  apply (single_use (T := verificationTokens_table) (redeemable h) n0 _ v_tokenHash h w w' _ _ Hd Hu).
  - intros d. unfold redeemable. intros ?. by bool_to_prop.
  - intros p (r & <- & _)%in_map_iff. by apply pays_serve_token.
Qed.

(** Every outcome of a redemption.  The first unconsumed document with the
    token's hash is consumed before anything else is checked, also when its
    tenant, its lifetime or its application then fails the redemption. *)
Theorem redeem_outcomes (token : string) (w : world P) :
  healthy w →
  let h := hashToken vt token in
  ∃ w', run (redeem vt token) w =
      (w', match List.find (redeemable h) (docs (verificationTokens w)) with
           | None => inl (INVALID_TOKEN "Token is invalid or already used")
           | Some d =>
             if negb (bool_decide (v_tenantId d = vt_tenantId vt)) then inl (INVALID_TOKEN "Token tenant mismatch")
             else if v_expiresAt d <? clock w then inl (TokenError "Token expired" "TOKEN_EXPIRED")
             else if negb (bool_decide (v_applicationId d = vt_applicationId vt))
             then inl (NotFoundError "Token application mismatch" "INVALID_TOKEN")
             else inr (redeem_result d)
           end) ∧
    docs (verificationTokens w') = alter_first (redeemable h) (consume (clock w)) (docs (verificationTokens w)).
Proof. apply run_redeem. Qed.

(** issuing a token leaves exactly one live token of that kind for the user,
    and presenting the raw token within its lifetime yields exactly what it was
    issued for. *)
Theorem issue_then_redeem (input : IssueTokenInput) (w : world P) (u : Z) :
  healthy w →
  (∀ d, In d (docs (verificationTokens w)) → verificationToken_clash (next_doc vt input w) d = false) →
  ii_tenantId input = vt_tenantId vt → ii_applicationId input = vt_applicationId vt →
  u <= clock w + nullish (ii_ttlMs input) DEFAULT_TTL_MS →
  ∃ w1 token expiresIn w2, run (issue vt input) w = (w1, inr (token, expiresIn)) ∧
    count (same_purpose (ii_tenantId input) (ii_applicationId input) (ii_userId input) (ii_kind input))
      (docs (verificationTokens w1)) = 1%nat ∧
    run (redeem vt token) (w1 <| clock := u |>) =
      (w2, inr (mkRedeemResult (ii_userId input) (ii_kind input) (ii_tenantId input) (ii_applicationId input)
                  (ii_target input) (ii_redirectUri input))).
Proof.
  intros Hh Hfresh Ht Ha Hu. destruct (run_issue vt input w Hh Hfresh) as (w1 & Hrun & Hh1 & Hins).
  pose (v := w1 <| clock := u |>).
  destruct (run_redeem vt (next_token w) v Hh1) as (w2 & Hred & _).
  exists w1, (next_token w), (nullish (ii_ttlMs input) DEFAULT_TTL_MS / 1000), w2. split; [done|]. split.
  - clear Hred. rewrite (inserted_count _ _ _ _ Hins). match goal with |- context [count ?f ?l] =>
      assert (count f l = 0)%nat as -> end; [|unfold same_purpose; cbn; by rewrite !bool_decide_true].
    apply count_zero. destruct (List.find _ _) as [x|] eqn:Hx; [|done].
    apply find_some in Hx as [(d & _ & ->)%In_alter_all Hs]. destruct (same_purpose _ _ _ _ d) eqn:Hd; [|congruence].
    unfold same_purpose, unconsumed in Hs. cbn in Hs. by rewrite andb_false_r in Hs.
  - fold v. rewrite Hred. clear Hred. subst v. cbn [verificationTokens clock set_field].
    rewrite (issued_found vt input w _ Hins Hfresh). unfold next_doc, issued_doc, redeem_result.
    cbn [v_tenantId v_applicationId v_expiresAt v_userId v_kind v_target v_redirectUri].
    rewrite Ht, Ha, !bool_decide_true by done. cbn [negb]. by rewrite (proj2 (Z.ltb_ge _ _)).
Qed.
End properties.
