(* ===== verification/Password.v ===== *)
(** * Passwords

    [packages/core/src/services/password.service.ts], the policy, and
    [packages/crypto/src/password.ts], hashing with Argon2 (a parameter). *)

From S2P Require Export World.

(** ** The policy *)
Record PasswordPolicy := mkPasswordPolicy {
  pp_minLength : Z;
  pp_maxLength : Z;
  pp_maxBytes : Z;
  pp_requireLowercase : bool;
  pp_requireUppercase : bool;
  pp_requireDigit : bool;
  pp_requireSymbol : bool;
  pp_maxRepeatedRun : Z;
}.

Definition DEFAULT_PASSWORD_POLICY : PasswordPolicy := mkPasswordPolicy 8 128 72 true true true false 4.

Record PasswordValidationResult := mkPasswordValidationResult { pv_ok : bool; pv_errors : list string }.

(** [Buffer.byteLength(s, 'utf-8')]. *)
Definition byteLength (s : string) : Z := Z.of_nat (String.length s).

(** The character classes of the regular expressions. *)
Definition lowercase_unit (u : Z) : bool := (97 <=? u) && (u <=? 122).
Definition uppercase_unit (u : Z) : bool := (65 <=? u) && (u <=? 90).
Definition digit_unit (u : Z) : bool := (48 <=? u) && (u <=? 57).
Definition symbol_unit (u : Z) : bool := negb (lowercase_unit u || uppercase_unit u || digit_unit u).
Definition line_terminator (u : Z) : bool := (u =? 10) || (u =? 13) || (u =? 8232) || (u =? 8233).

(** A match of [/(.)\1{3,}/]; its group is one unit long. *)
Fixpoint repeated_run (l : list Z) : bool :=
  match l with
  | a :: (b :: c :: d :: _) as r =>
    negb (line_terminator a) && (a =? b) && (a =? c) && (a =? d) || repeated_run r
  | _ => false
  end.
Definition repeated_group_length : Z := 1.

Definition error_if (c : bool) (message : string) : list string := if c then [message] else [].

(** [evaluatePassword]. *)
Definition password_errors (password : string) (policy : PasswordPolicy) : list string :=
  error_if (pp_maxBytes policy <? byteLength password)
    ("Password must be at most " +:+ js_String (pp_maxBytes policy) +:+ " bytes (UTF-8).") ++
  error_if (js_length password <? pp_minLength policy)
    ("Password must be at least " +:+ js_String (pp_minLength policy) +:+ " characters.") ++
  error_if (pp_maxLength policy <? js_length password)
    ("Password must be at most " +:+ js_String (pp_maxLength policy) +:+ " characters.") ++
  error_if (pp_requireLowercase policy && negb (existsb lowercase_unit (utf16 password)))
    "Password must contain a lowercase letter." ++
  error_if (pp_requireUppercase policy && negb (existsb uppercase_unit (utf16 password)))
    "Password must contain an uppercase letter." ++
  error_if (pp_requireDigit policy && negb (existsb digit_unit (utf16 password)))
    "Password must contain a digit." ++
  error_if (pp_requireSymbol policy && negb (existsb symbol_unit (utf16 password)))
    "Password must contain a symbol." ++
  error_if (repeated_run (utf16 password) && (pp_maxRepeatedRun policy <=? repeated_group_length))
    "Password must not contain long repeated runs.".
Definition evaluatePassword (password : string) (policy : PasswordPolicy) : PasswordValidationResult :=
  mkPasswordValidationResult (length (password_errors password policy) =? 0)%nat (password_errors password policy).

(** ** Hashing *)
Definition DEFAULT_ARGON2_OPTIONS : Argon2Options := mkArgon2Options (Some 3) (Some (64 * 1024)) (Some 1) (Some 2).

(** [options.x ?? DEFAULT_ARGON2_OPTIONS.x]. *)
Definition or_default {A} (o d : option A) : option A := match o with Some a => Some a | None => d end.
Definition argon2_options (o : Argon2Options) : Argon2Options :=
  mkArgon2Options (or_default (timeCost o) (timeCost DEFAULT_ARGON2_OPTIONS))
    (or_default (memoryCost o) (memoryCost DEFAULT_ARGON2_OPTIONS))
    (or_default (parallelism o) (parallelism DEFAULT_ARGON2_OPTIONS))
    (or_default (argon2_type o) (argon2_type DEFAULT_ARGON2_OPTIONS)).

Section hashing.
Context {P : Platform}.

(** [hashPassword], salted with one draw. *)
Definition hashPassword (plaintext : string) (options : option Argon2Options) : prog (world P) string :=
  h ← draw (λ i, argon2_hash (argon2_options (nullish options DEFAULT_ARGON2_OPTIONS)) i plaintext);
  from_result h.

(** [verifyPassword]: a malformed hash counts as a wrong password. *)
Definition verifyPassword (plaintext hash : string) : bool :=
  match argon2_verify hash plaintext with inr b => b | inl _ => false end.

Definition isArgon2Hash (hash : string) : bool := String.prefix "$argon2" hash.
End hashing.

(** What the Argon2 library documents: a hash it produced carries its prefix and
    verifies its own password. *)
Class Argon2Laws (P : Platform) := {
  argon2_round_trip : ∀ o i pw h, argon2_hash o i pw = inr h → argon2_verify h pw = inr true;
  argon2_prefix : ∀ o i pw h, argon2_hash o i pw = inr h → String.prefix "$argon2" h = true;
}.

(** ** Lemmas *)
Lemma error_if_nil c m : error_if c m = [] ↔ c = false.
Proof. by destruct c. Qed.

(** No character takes more units than bytes. *)
Lemma utf16_length s : js_length s <= byteLength s.
Proof.
  unfold js_length, byteLength. revert s. fix IH 1. intros [|a r]; cbn; [done|].
  destruct (unit_of a <? 128); cbn; [pose proof (IH r); lia|].
  destruct r as [|b r1]; cbn; [lia|]. destruct (unit_of a <? 224); cbn; [pose proof (IH r1); lia|].
  destruct r1 as [|c r2]; cbn; [lia|]. destruct (unit_of a <? 240); cbn; [pose proof (IH r2); lia|].
  destruct r2 as [|d r3]; cbn; [lia|]. pose proof (IH r3). lia.
Qed.

(** The policy, as a predicate on passwords. *)
Definition satisfies (password : string) (policy : PasswordPolicy) : Prop :=
  byteLength password <= pp_maxBytes policy ∧
  pp_minLength policy <= js_length password <= pp_maxLength policy ∧
  (pp_requireLowercase policy = true → ∃ u, In u (utf16 password) ∧ 97 <= u <= 122) ∧
  (pp_requireUppercase policy = true → ∃ u, In u (utf16 password) ∧ 65 <= u <= 90) ∧
  (pp_requireDigit policy = true → ∃ u, In u (utf16 password) ∧ 48 <= u <= 57) ∧
  (pp_requireSymbol policy = true → ∃ u, In u (utf16 password) ∧ symbol_unit u = true) ∧
  (pp_maxRepeatedRun policy <= 1 → repeated_run (utf16 password) = false).

Lemma required_class (required : bool) (p : Z → bool) (Q : Z → Prop) l :
  (∀ u, p u = true ↔ Q u) →
  required && negb (existsb p l) = false ↔ (required = true → ∃ u, In u l ∧ Q u).
Proof.
  intros Hp. rewrite andb_false_iff, negb_false_iff, existsb_exists. setoid_rewrite Hp.
  destruct required; intuition congruence.
Qed.

Lemma range_unit a b u : (a <=? u) && (u <=? b) = true ↔ a <= u <= b.
Proof. rewrite andb_true_iff, !Z.leb_le. done. Qed.

Lemma evaluatePassword_spec password policy :
  pv_ok (evaluatePassword password policy) = true ↔ satisfies password policy.
Proof.
  unfold evaluatePassword. cbn [pv_ok]. rewrite Nat.eqb_eq, length_zero_iff_nil. unfold password_errors.
  rewrite !app_nil, !error_if_nil, !Z.ltb_ge. unfold satisfies.
  rewrite (required_class _ _ _ _ (range_unit 97 122)), (required_class _ _ _ _ (range_unit 65 90)),
    (required_class _ _ _ _ (range_unit 48 57)), (required_class _ symbol_unit (λ u, symbol_unit u = true)) by done.
  rewrite andb_false_iff, Z.leb_gt. unfold repeated_group_length.
  destruct (repeated_run (utf16 password)); intuition (try lia; try congruence).
Qed.
