(* ===== verification/MagicLinks.v ===== *)
(** * Magic links

    [packages/core/src/services/auth/magic-link.service.ts]: self-contained signed
    links, and the facade over them and one-time codes of
    [passwordless.service.ts]. *)

From S2P Require Export World.
From S2P Require Export Otp.
From Stdlib Require Import Ascii.

(** ** Reading numbers *)
(** [Number.parseInt(s, 10)]: white space, a sign, the longest run of digits;
    [None] is [NaN]. *)
Fixpoint leading_digits (s : string) : string :=
  match s with
  | String c r => if Json.is_digit c then String c (leading_digits r) else EmptyString
  | EmptyString => EmptyString
  end.
Definition digits_number (s : string) : option Z := if String.eqb s "" then None else js_Number s.
Definition js_parseInt (s : string) : option Z :=
  match js_trim_start s with
  | String "-" r => Z.opp <$> digits_number (leading_digits r)
  | String "+" r => digits_number (leading_digits r)
  | t => digits_number (leading_digits t)
  end.

Section magic_links.
Context {P : Platform}.

Record MagicLinkService := mkMagicLinkService { ml_ttlSeconds : Z; ml_secret : string }.
Definition new_magic_links (ttlSeconds : option Z) (secret : string) : exn + MagicLinkService :=
  if String.eqb secret "" then inl (JsError "MagicLinkService requires a secret")
  else inr (mkMagicLinkService (nullish ttlSeconds (15 * 60)) secret).

Record MagicLink := mkMagicLink { url : string; token : string; expiresAt : Z }.

Definition sign (s : MagicLinkService) (payload : string) : string :=
  to_base64url (createHash sha256 (payload +:+ "." +:+ ml_secret s)).

Definition link_base (subject audience expStr nonce : string) : string :=
  subject +:+ "." +:+ audience +:+ "." +:+ expStr +:+ "." +:+ nonce.
Definition link_url (redirectUri : option string) (token : string) : string :=
  if truthy redirectUri then
    let uri := nullish redirectUri "" in
    uri +:+ (if includes "?" uri then "&" else "?") +:+ "magic=" +:+ encodeURIComponent token
  else token.

(** [create] *)
Definition create_link (s : MagicLinkService) (subject audience : string) (redirectUri : option string) :
    prog (world P) MagicLink :=
  nonce ← draw (λ i, to_base64url (randomBytes i 24));
  t ← now;
  let exp := t / 1000 + ml_ttlSeconds s in
  let base := link_base subject audience (js_String exp) nonce in
  let token := base +:+ "." +:+ sign s base in
  mret (mkMagicLink (link_url redirectUri token) token (exp * 1000)).

Record VerifiedLink := mkVerifiedLink { vl_subject : string; vl_audience : string; vl_nonce : string }.
(** [verify]; the clock is read once, last. *)
Definition verify_at (s : MagicLinkService) (token : string) (t : Z) : exn + VerifiedLink :=
  match split_dot token with
  | [subject; audience; expStr; nonce; sig] =>
    let expected := sign s (link_base subject audience expStr nonce) in
    if negb (String.eqb (from_base64 sig) (from_base64 expected)) then inl (JsError "Invalid magic link signature")
    else
      match js_parseInt expStr with
      | Some exp => if exp * 1000 <? t then inl (JsError "Magic link expired") else inr (mkVerifiedLink subject audience nonce)
      | None => inl (JsError "Magic link expired")
      end
  | _ => inl (JsError "Invalid magic link")
  end.
Definition verify_link (s : MagicLinkService) (token : string) : prog (world P) VerifiedLink :=
  t ← now; from_result (verify_at s token t).

(** ** The passwordless facade *)
Record PasswordlessService := mkPasswordlessService { pl_otp : OtpService; pl_magicLink : option MagicLinkService }.
Definition sendMagicLink (s : PasswordlessService) (subject audience : string) (redirectUri : option string) :
    prog (world P) string :=
  match pl_magicLink s with
  | None => Throw (JsError "Magic-link delivery is not configured")
  | Some m => link ← create_link m subject audience redirectUri; mret (url link)
  end.
Definition sendChallenge (s : PasswordlessService) (channel : OtpChannel) (target : string) (purpose : OtpPurpose) :
    prog (world P) OtpChannel :=
  requestOtp (pl_otp s) channel target purpose ;; mret channel.
Definition verifyCode (s : PasswordlessService) (channel : OtpChannel) (target code : string) (purpose : OtpPurpose) :=
  verifyOtp (pl_otp s) channel target purpose code.

(** ** Theorems *)
Definition dot_free (s : string) : Prop := Forall (λ c, negb (Ascii.eqb c ".") = true) (list_of_string s).
#[export] Instance dot_free_dec s : Decision (dot_free s).
Proof. unfold dot_free. apply _. Defined.

(** Digits of a decimal number. *)
Lemma uint_digits d : leading_digits (DecimalString.NilEmpty.string_of_uint d) = DecimalString.NilEmpty.string_of_uint d.
Proof. induction d; cbn; [done|..]; by f_equal. Qed.
Lemma uint_dot_free d : dot_free (DecimalString.NilEmpty.string_of_uint d).
Proof. induction d; cbn; constructor; done. Qed.

Lemma js_String_nonneg n : 0 <= n → ∃ d, js_String n = DecimalString.NilEmpty.string_of_uint d.
Proof.
  intros Hn. unfold js_String. destruct n as [|p|p]; [by exists (Decimal.D0 Decimal.Nil)| |lia].
  cbn. unfold DecimalString.NilZero.string_of_uint. destruct (Pos.to_uint p) as [|d|d|d|d|d|d|d|d|d|d] eqn:Hd;
    [by exists (Decimal.D0 Decimal.Nil)|..]; eexists; reflexivity.
Qed.

Lemma parseInt_digit c s :
  Json.is_digit c = true → js_parseInt (String c s) = digits_number (leading_digits (String c s)).
Proof. destruct c as [[] [] [] [] [] [] [] []]; intros Hd; try discriminate Hd; reflexivity. Qed.

Lemma js_parseInt_String n : 0 <= n → js_parseInt (js_String n) = Some n ∧ dot_free (js_String n).
Proof.
  intros Hn. destruct (js_String_nonneg n Hn) as (d & Hd). split; [|rewrite Hd; apply uint_dot_free].
  assert (leading_digits (js_String n) = js_String n) as Hl by (rewrite Hd; apply uint_digits).
  pose proof (js_String_nonempty n) as Hne. assert (digits_number (js_String n) = Some n) as Hnum.
  { unfold digits_number. rewrite (proj2 (String.eqb_neq _ _)) by done. apply js_Number_String. }
  destruct (js_String n) as [|c s] eqn:Hs; [done|].
  assert (Json.is_digit c = true) as Hc by (cbn in Hl; destruct (Json.is_digit c); done).
  by rewrite parseInt_digit, Hl, Hnum.
Qed.

(** ** Links *)
Lemma dot_free_base64url x : dot_free (to_base64url x).
Proof. apply base64url_no_dot. Qed.

Lemma split_link a b c d e :
  dot_free a → dot_free b → dot_free c → dot_free d → dot_free e →
  split_dot (link_base a b c d +:+ "." +:+ e) = [a; b; c; d; e].
Proof.
  intros Ha Hb Hc Hd He. unfold link_base. rewrite !str_app_assoc, !split_dot_app, split_dot_last; done.
Qed.

(** The number of segments of a text is one more than the number of its dots. *)
Fixpoint dots (s : string) : nat :=
  match s with
  | String c s => (if Ascii.eqb c "." then 1 else 0) + dots s
  | EmptyString => 0
  end.
Lemma split_dot_length s : length (split_dot s) = S (dots s).
Proof.
  induction s as [|c s IH]; [done|]. cbn [split_dot dots]. destruct (Ascii.eqb c "."); cbn [length Nat.add]; [by rewrite IH|].
  destruct (split_dot s); [done|]. by cbn in *.
Qed.
Lemma split_dot_free s : Forall dot_free (split_dot s).
Proof.
  induction s as [|c s IH]; [repeat constructor|]. cbn [split_dot].
  destruct (Ascii.eqb c ".") eqn:Hc; [by constructor; [constructor|]|].
  assert (∀ x, dot_free x → dot_free (String c x)) as Hcons by (intros x Hx; by constructor; [rewrite Hc|]).
  destruct (split_dot s) as [|x l]; [repeat constructor; by rewrite Hc|]. apply Forall_cons in IH as [Hx Hl].
  constructor; auto.
Qed.
Lemma dots_app a b : dots (a +:+ b) = (dots a + dots b)%nat.
Proof. induction a as [|c a IH]; [done|]. cbn [dots String.append]. rewrite <- Nat.add_assoc, <- IH. done. Qed.
Lemma dot_free_dots s : dot_free s ↔ dots s = 0%nat.
Proof.
  unfold dot_free. induction s as [|c s IH]; cbn; [done|]. rewrite Forall_cons, IH.
  destruct (Ascii.eqb c "."); cbn; naive_solver lia.
Qed.

(** What [create] answers. *)
Definition link_token (s : MagicLinkService) (subject audience : string) (exp : Z) (nonce : string) : string :=
  let base := link_base subject audience (js_String exp) nonce in base +:+ "." +:+ sign s base.
Lemma run_create_link s subject audience uri w :
  ∃ nonce exp, run (create_link s subject audience uri) w = (w <| draws ::= S |>,
      inr (mkMagicLink (link_url uri (link_token s subject audience exp nonce)) (link_token s subject audience exp nonce) (exp * 1000)))
    ∧ exp = clock w / 1000 + ml_ttlSeconds s ∧ dot_free nonce.
Proof.
  eexists _, _. split; [|split; [reflexivity|apply dot_free_base64url]].
  unfold create_link. rewrite run_bind. cbn. reflexivity.
Qed.

(** Magic links verify exactly when their names have no dot: the link [create]
    answers for a subject and an audience without dots verifies until its expiry,
    answering both and the nonce, and is refused as expired afterwards; when the
    subject or the audience has a dot, as every e-mail address and host name has,
    the link is refused at any time, however it was signed. *)
Theorem link_verifies_when_dot_free s subject audience uri w :
  0 <= clock w / 1000 + ml_ttlSeconds s →
  ∃ w' link nonce, run (create_link s subject audience uri) w = (w', inr link) ∧
    expiresAt link = (clock w / 1000 + ml_ttlSeconds s) * 1000 ∧
    ∀ t, verify_at s (token link) t =
      if decide (dot_free subject ∧ dot_free audience) then
        if expiresAt link <? t then inl (JsError "Magic link expired") else inr (mkVerifiedLink subject audience nonce)
      else inl (JsError "Invalid magic link").
Proof.
  intros Hexp. destruct (run_create_link s subject audience uri w) as (nonce & exp & Hr & He & Hn). rewrite <- He in *.
  eexists _, _, nonce. split; [exact Hr|]. split; [done|]. intros t. cbn [token expiresAt]. unfold verify_at, link_token.
  destruct (js_parseInt_String exp Hexp) as [Hp Hd]. case_decide as Hdot.
  - destruct Hdot as [Hs Ha]. rewrite split_link by (done || apply dot_free_base64url).
    unfold sign. rewrite !from_to_base64url, String.eqb_refl. cbn [negb]. by rewrite Hp.
  - match goal with |- match ?x with _ => _ end = _ => assert (length x ≠ 5%nat) as Hlen; [|destruct x as [|?[|?[|?[|?[|?[|]]]]]]; done] end.
    rewrite split_dot_length. unfold link_base. rewrite !dots_app. cbn [dots]. rewrite !dot_free_dots in Hdot. cbn. lia.
Qed.

(** *** What an accepted link shows *)
Definition join_dots (l : list string) : string := String.concat "." l.
Lemma join_split_dot s : join_dots (split_dot s) = s.
Proof.
  unfold join_dots. induction s as [|c s IH]; [done|]. cbn [split_dot]. pose proof (split_dot_length s) as Hlen.
  destruct (Ascii.eqb_spec c ".") as [->|_], (split_dot s) as [|x l] eqn:Hs; try done.
  - change (String.concat "." ("" :: x :: l)) with ("." +:+ String.concat "." (x :: l)). by rewrite IH.
  - rewrite <- IH. by destruct l.
Qed.

(** An accepted link is signed and live: it is the concatenation of the subject
    and audience answered, an expiry that has not passed, the nonce and the digest
    of all four under the service's secret (up to the text encoding of the digest);
    its names hold no dot. *)
Theorem accepted_link_signed s token t v :
  verify_at s token t = inr v →
  ∃ expStr exp sig,
    token = link_base (vl_subject v) (vl_audience v) expStr (vl_nonce v) +:+ "." +:+ sig ∧
    from_base64 sig = createHash sha256 (link_base (vl_subject v) (vl_audience v) expStr (vl_nonce v) +:+ "." +:+ ml_secret s) ∧
    js_parseInt expStr = Some exp ∧ t <= exp * 1000 ∧
    dot_free (vl_subject v) ∧ dot_free (vl_audience v).
Proof.
  unfold verify_at. pose proof (join_split_dot token) as Hj. pose proof (split_dot_free token) as Hf.
  destruct (split_dot token) as [|a [|b [|c [|d [|e [|]]]]]]; try done.
  destruct (String.eqb _ _) eqn:Hsig; [|done]. cbn [negb].
  destruct (js_parseInt c) as [exp|] eqn:Hc; [|done]. destruct (_ <? _) eqn:Ht; [done|]. intros [= <-]. cbn [vl_subject vl_audience vl_nonce].
  apply String.eqb_eq in Hsig. unfold sign in Hsig. rewrite from_to_base64url in Hsig. rewrite !Forall_cons in Hf.
  exists c, exp, e. split; [rewrite <- Hj; unfold link_base, join_dots; cbn; by rewrite !str_app_assoc|].
  split_and!; [done|done|lia|naive_solver..].
Qed.
End magic_links.
