(* ===== verification/JsNumber.v ===== *)
(** * JavaScript numbers

    The scores of the risk services are IEEE 754 doubles.  [num] is the type of
    the standard library's specification of floating-point arithmetic, at the
    precision and the exponents of a double; addition, subtraction,
    multiplication, division and square roots are those of JavaScript, rounded to
    the nearest.  The functions of [Math] that ECMAScript leaves to the
    implementation are an interface. *)

From S2P Require Export Prelude.
From Stdlib Require Import SpecFloat.
From Stdlib Require Import Ascii.

Notation num := spec_float.
Definition num_of_Z (n : Z) : num := binary_normalize 53 1024 n 0 false.
Definition num_add : num → num → num := SFadd 53 1024.
Definition num_sub : num → num → num := SFsub 53 1024.
Definition num_mul : num → num → num := SFmul 53 1024.
Definition num_div : num → num → num := SFdiv 53 1024.
Definition num_sqrt : num → num := SFsqrt 53 1024.
(** A decimal literal of [hundredths]: the double nearest to it. *)
Definition lit (hundredths : Z) : num := num_div (num_of_Z hundredths) (num_of_Z 100).
(** [a < b] and [a <= b], false when one is [NaN]. *)
Definition num_lt (a b : num) : bool := SFltb a b.
Definition num_le (a b : num) : bool := SFleb a b.
Definition is_nan (a : num) : bool := match a with S754_nan => true | _ => false end.
(** [Math.min] and [Math.max]: [NaN] wins, and the zeros are ordered. *)
Definition zero_sign (a : num) : option bool := match a with S754_zero s => Some s | _ => None end.
Definition num_max (a b : num) : num :=
  if is_nan a || is_nan b then S754_nan
  else match zero_sign a, zero_sign b with
       | Some s, Some t => S754_zero (s && t)
       | _, _ => if num_lt a b then b else a
       end.
Definition num_min (a b : num) : num :=
  if is_nan a || is_nan b then S754_nan
  else match zero_sign a, zero_sign b with
       | Some s, Some t => S754_zero (s || t)
       | _, _ => if num_lt b a then b else a
       end.
(** A truthy number. *)
Definition num_truthy (a : num) : bool := match a with S754_zero _ | S754_nan => false | _ => true end.

(** What the implementation provides: [sin], [cos], [asin], [**] and the text of a
    number. *)
Class MathLib := {
  math_sin : num → num;
  math_cos : num → num;
  math_asin : num → num;
  math_pow : num → num → num;
  num_String : num → string;
}.
Definition math_PI : num := S754_finite false 7074237752028440 (-51).

(** [x.toFixed(2)] of a number below 1e21: the nearest hundredth, the larger of
    two; of another, its text. *)
Definition hundredths_of (m : positive) (e : Z) : Z :=
  if 0 <=? e then Zpos m * 2 ^ e * 100 else (2 * Zpos m * 100 + 2 ^ (- e)) / (2 * 2 ^ (- e)).
Definition two_digits (n : Z) : string := (if n <? 10 then "0" else "") +:+ js_String n.
Definition show_hundredths (n : Z) : string := js_String (n / 100) +:+ "." +:+ two_digits (n mod 100).
Definition toFixed2 `{MathLib} (x : num) : string :=
  match x with
  | S754_zero _ => "0.00"
  | S754_finite s m e =>
    if 10 ^ 21 <=? Zpos m * 2 ^ Z.max e 0 / 2 ^ Z.max (- e) 0 then num_String x
    else
      let shown := show_hundredths (hundredths_of m e) in
      if (s : bool) then String "-" shown else shown
  | _ => num_String x
  end.

(** ** Comparisons *)
Lemma num_le_nan_l a : num_le S754_nan a = false.
Proof. done. Qed.
Lemma num_le_nan_r a : num_le a S754_nan = false.
Proof. by destruct a as [[]|[]| |[]]. Qed.

(** *** Zeros and [NaN] *)
(** What no comparison finds above a positive number. *)
Definition void (a : num) : Prop := a = S754_nan ∨ ∃ s, a = S754_zero s.
Class MathLaws `{MathLib} := {
  sin_void : ∀ a, void a → void (math_sin a);
  asin_void : ∀ a, void a → void (math_asin a);
  pow_void : ∀ a, void a → void (math_pow a (num_of_Z 2));
}.

Lemma void_zero s : void (S754_zero s).
Proof. right. by exists s. Qed.
Lemma void_nan : void S754_nan.
Proof. by left. Qed.
#[local] Hint Resolve void_zero void_nan : core.
Lemma sub_self_void a : void (num_sub a a).
Proof.
  destruct a as [[]|[]| |s m e]; unfold num_sub; cbn; auto.
  unfold SFsub. rewrite Z.sub_diag. cbn. auto.
Qed.
Lemma mul_void_l a b : void a → void (num_mul a b).
Proof. intros [->|[s ->]]; destruct b as [?|?| |? ? ?]; unfold num_mul; cbn; auto. Qed.
Lemma mul_void_r a b : void b → void (num_mul a b).
Proof. intros [->|[s ->]]; destruct a as [?|?| |? ? ?]; unfold num_mul; cbn; auto. Qed.
Lemma div_void a n : void a → void (num_div a n).
Proof. intros [->|[s ->]]; destruct n as [?|?| |? ? ?]; unfold num_div; cbn; auto. Qed.
Lemma add_void a b : void a → void b → void (num_add a b).
Proof. intros [->|[s ->]] [->|[t ->]]; unfold num_add; cbn; auto. destruct s, t; cbn; auto. Qed.
Lemma sqrt_void a : void a → void (num_sqrt a).
Proof. intros [->|[s ->]]; unfold num_sqrt; cbn; auto. Qed.
Lemma void_not_above a : void a → num_lt (num_of_Z 500) a = false.
Proof. by intros [->|[s ->]]. Qed.

(** ** Integers that a double holds *)
Definition bits (m : positive) : Z := Z.log2 (Zpos m) + 1.
Lemma digits2_bits m : Zpos (digits2_pos m) = bits m.
Proof.
  unfold bits. induction m as [m IH|m IH|]; cbn [digits2_pos]; [| |done].
  - rewrite Pos2Z.inj_succ, IH, Pos2Z.inj_xI, Z.log2_succ_double by lia. lia.
  - rewrite Pos2Z.inj_succ, IH, Pos2Z.inj_xO, Z.log2_double by lia. lia.
Qed.
Lemma bits_shift m k : 0 <= k → bits (Z.to_pos (Zpos m * 2 ^ k)) = bits m + k.
Proof. intros Hk. unfold bits. rewrite Z2Pos.id by lia. rewrite Z.log2_mul_pow2 by lia. lia. Qed.
Lemma iter_pos_nat {A} (f : A → A) n x : iter_pos f n x = Nat.iter (Pos.to_nat n) f x.
Proof.
  revert x. induction n as [n IH|n IH|]; intros x; cbn [iter_pos]; [| |done].
  - rewrite !IH, Pos2Nat.inj_xI, Nat.iter_succ_r. replace (2 * Pos.to_nat n)%nat with (Pos.to_nat n + Pos.to_nat n)%nat by lia. by rewrite Nat.iter_add.
  - rewrite !IH, Pos2Nat.inj_xO. replace (2 * Pos.to_nat n)%nat with (Pos.to_nat n + Pos.to_nat n)%nat by lia. by rewrite Nat.iter_add.
Qed.
(** Shifting out zeros loses nothing. *)
Lemma shr_exact x n e : 0 < x → 0 <= n → shr (shr_record_of_loc (x * 2 ^ n) loc_Exact) e n = (Build_shr_record x false false, e + n).
Proof.
  intros Hx Hn. destruct n as [|p|p]; [|clear Hn|lia]; cbn [shr shr_record_of_loc].
  { by rewrite Z.pow_0_r, Z.mul_1_r, Z.add_0_r. }
  f_equal. rewrite iter_pos_nat. rewrite <- (positive_nat_Z p). induction (Pos.to_nat p) as [|k IH].
  - by rewrite Z.pow_0_r, Z.mul_1_r.
  - rewrite Nat.iter_succ_r. rewrite Nat2Z.inj_succ, Z.pow_succ_r by lia.
    replace (x * (2 * 2 ^ Z.of_nat k)) with (2 * (x * 2 ^ Z.of_nat k)) by lia.
    destruct (x * 2 ^ Z.of_nat k) as [|q|q] eqn:Hq; [nia| |nia]. exact IH.
Qed.
(** Rounding an integer of at most 53 bits, shifted, is no rounding. *)
Lemma round_exact m k :
  bits m <= 53 → 0 <= k → 
  binary_round_aux 53 1024 false (Zpos m * 2 ^ (53 - bits m) * 2 ^ k) (bits m - 53 - k) loc_Exact =
  S754_finite false (Z.to_pos (Zpos m * 2 ^ (53 - bits m))) (bits m - 53).
Proof.
  intros Hm Hk. set (x := Zpos m * 2 ^ (53 - bits m)). assert (1 <= bits m) as H1 by (unfold bits; pose proof (Z.log2_nonneg (Zpos m)); lia).
  assert (0 < x) as Hx by (unfold x; nia). assert (∀ j, 0 <= j → Zdigits2 (x * 2 ^ j) = 53 + j) as Hd.
  { intros j Hj. destruct (x * 2 ^ j) as [|q|q] eqn:Hq; [nia| |nia]. cbn [Zdigits2]. rewrite digits2_bits. unfold bits. rewrite <- Hq.
    unfold x. rewrite <- Z.mul_assoc, <- Z.pow_add_r by lia. rewrite Z.log2_mul_pow2 by lia. unfold bits. lia. }
  unfold binary_round_aux, shr_fexp. rewrite Hd by done. unfold fexp, emin.
  replace (Z.max (53 + k + (bits m - 53 - k) - 53) (3 - 1024 - 53) - (bits m - 53 - k)) with k by lia.
  rewrite shr_exact by done. cbn [shr_m loc_of_shr_record round_nearest_even].
  rewrite <- (Z.mul_1_r x) at 1 2. rewrite <- (Z.pow_0_r 2) at 1 2. rewrite Hd by done.
  replace (Z.max (53 + 0 + (bits m - 53 - k + k) - 53) (3 - 1024 - 53) - (bits m - 53 - k + k)) with 0 by lia.
  rewrite shr_exact by done. cbn [shr_m]. destruct x as [|q|q]; [lia| |lia].
  rewrite (proj2 (Z.leb_le _ _)) by lia. f_equal. lia.
Qed.
Lemma shift_left m d : Zpos (Pos.iter xO m d) = Zpos m * 2 ^ Zpos d.
Proof.
  rewrite <- Z.shiftl_mul_pow2 by lia. cbn [Z.shiftl]. apply (Pos.iter_swap_gen _ _ Zpos). intros p. reflexivity.
Qed.
Lemma num_of_Z_exact m : bits m <= 53 → num_of_Z (Zpos m) = S754_finite false (Z.to_pos (Zpos m * 2 ^ (53 - bits m))) (bits m - 53).
Proof.
  intros Hm. assert (1 <= bits m) as H1 by (unfold bits; pose proof (Z.log2_nonneg (Zpos m)); lia).
  unfold num_of_Z, binary_normalize, binary_round. rewrite digits2_bits. unfold fexp, emin.
  replace (Z.max (bits m + 0 - 53) (3 - 1024 - 53)) with (bits m - 53) by lia. unfold shl_align. rewrite Z.sub_0_r.
  destruct (bits m - 53) as [|d|d] eqn:Hd; [|lia|].
  - pose proof (round_exact m 0 Hm ltac:(lia)) as Hr. replace (53 - bits m) with 0 in * by lia.
    rewrite Z.pow_0_r, !Z.mul_1_r, Z.sub_0_r, Hd in Hr. by rewrite Z.pow_0_r, Z.mul_1_r.
  - pose proof (round_exact m 0 Hm ltac:(lia)) as Hr. rewrite Z.pow_0_r, Z.mul_1_r, Z.sub_0_r, Hd in Hr.
    replace (53 - bits m) with (Zpos d) in * by lia. rewrite <- Hr. f_equal. apply shift_left.
Qed.
(** The product of two integers is theirs, when a double holds it. *)
Lemma num_mul_exact a b :
  bits a <= 53 → bits b <= 53 → bits (a * b) <= 53 → num_mul (num_of_Z (Zpos a)) (num_of_Z (Zpos b)) = num_of_Z (Zpos (a * b)).
Proof.
  intros Ha Hb Hab. rewrite !num_of_Z_exact by done. unfold num_mul, SFmul. cbn [xorb].
  assert (bits (a * b) <= bits a + bits b ∧ bits a + bits b - 1 <= bits (a * b)) as [Hu Hl].
  { unfold bits. rewrite Pos2Z.inj_mul. pose proof (Z.log2_mul_above (Zpos a) (Zpos b)). pose proof (Z.log2_mul_below (Zpos a) (Zpos b)). lia. }
  assert (1 <= bits a) as H1 by (unfold bits; pose proof (Z.log2_nonneg (Zpos a)); lia).
  assert (1 <= bits b) as H2 by (unfold bits; pose proof (Z.log2_nonneg (Zpos b)); lia).
  set (k := bits (a * b) + 53 - bits a - bits b). rewrite <- (round_exact (a * b) k) by lia.
  replace (bits (a * b) - 53 - k) with (bits a - 53 + (bits b - 53)) by lia. f_equal.
  rewrite Pos2Z.inj_mul, !Z2Pos.id by nia. rewrite <- !Z.mul_assoc, <- Z.pow_add_r by lia.
  replace (53 - bits (a * b) + k) with ((53 - bits a) + (53 - bits b)) by lia. rewrite Z.pow_add_r by lia. lia.
Qed.
(** Integers that a double holds are in the order of the integers. *)
Lemma num_lt_exact a b : bits a <= 53 → bits b <= 53 → num_lt (num_of_Z (Zpos a)) (num_of_Z (Zpos b)) = (Zpos a <? Zpos b).
Proof.
  intros Ha Hb. rewrite !num_of_Z_exact by done. unfold num_lt, SFltb, SFcompare.
  pose proof (Z.log2_spec (Zpos a) ltac:(lia)) as [La Ua]. pose proof (Z.log2_spec (Zpos b) ltac:(lia)) as [Lb Ub].
  destruct (Z.compare_spec (bits a - 53) (bits b - 53)) as [He|Hl|Hg].
  - change (Pos.compare_cont Eq ?x ?y) with (Pos.compare x y). replace (bits b) with (bits a) by lia.
    set (k := 2 ^ (53 - bits a)). assert (0 < k) as Hk by (unfold k; nia).
    change (Pos.compare (Z.to_pos (Zpos a * k)) (Z.to_pos (Zpos b * k))) with (Z.compare (Zpos (Z.to_pos (Zpos a * k))) (Zpos (Z.to_pos (Zpos b * k)))).
    rewrite !Z2Pos.id by nia. rewrite <- Zmult_compare_compat_r by lia. unfold Z.ltb. by destruct (Zpos a ?= Zpos b).
  - symmetry. apply Z.ltb_lt. unfold bits in *. assert (2 ^ Z.succ (Z.log2 (Zpos a)) <= 2 ^ Z.log2 (Zpos b)); [|lia]. apply Z.pow_le_mono_r; lia.
  - symmetry. apply Z.ltb_ge. unfold bits in *. assert (2 ^ Z.succ (Z.log2 (Zpos b)) <= 2 ^ Z.log2 (Zpos a)); [|lia]. apply Z.pow_le_mono_r; lia.
Qed.
Lemma bits_small m : Zpos m < 2 ^ 53 → bits m <= 53.
Proof. intros Hm. unfold bits. assert (Z.log2 (Zpos m) < 53); [|lia]. by apply Z.log2_lt_pow2. Qed.

(** *** Signs *)
(** Neither negative nor [NaN]. *)
Definition nonnegative (a : num) : bool :=
  match a with S754_nan => false | S754_zero _ => true | S754_infinity s | S754_finite s _ _ => negb s end.
Lemma nonnegative_le a : nonnegative a = num_le (num_of_Z 0) a.
Proof. by destruct a as [[]|[]| |[]]. Qed.
Lemma shr_nonneg m r s e n : 0 <= m → 0 <= shr_m (fst (shr (Build_shr_record m r s) e n)).
Proof.
  intros Hm. destruct n as [|p|p]; [done| |done]. cbn [shr fst]. rewrite iter_pos_nat.
  revert m r s Hm. induction (Pos.to_nat p) as [|k IH]; intros m r s Hm; [done|]. rewrite Nat.iter_succ_r.
  destruct m as [|[q|q|]|q]; [| | | |lia]; cbn [shr_1]; by apply IH.
Qed.
Lemma round_nonneg m e l : 0 <= m → nonnegative (binary_round_aux 53 1024 false m e l) = true.
Proof.
  intros Hm. unfold binary_round_aux, shr_fexp. assert (∃ r s, shr_record_of_loc m l = Build_shr_record m r s) as (r & s & ->)
    by (destruct l as [|[]]; eauto).
  pose proof (shr_nonneg m r s e (fexp 53 1024 (Zdigits2 m + e) - e) Hm) as H1.
  destruct (shr (Build_shr_record m r s) _ _) as [mrs e']. cbn [fst] in H1.
  assert (0 <= round_nearest_even (shr_m mrs) (loc_of_shr_record mrs)) as H2.
  { unfold round_nearest_even. destruct (loc_of_shr_record mrs) as [|[]]; try destruct (Z.even _); lia. }
  cbn [shr_record_of_loc]. pose proof (shr_nonneg (round_nearest_even (shr_m mrs) (loc_of_shr_record mrs)) false false e'
    (fexp 53 1024 (Zdigits2 (round_nearest_even (shr_m mrs) (loc_of_shr_record mrs)) + e') - e') H2) as H3.
  destruct (shr (Build_shr_record (round_nearest_even _ _) false false) _ _) as [mrs2 e2]. cbn [fst] in H3.
  destruct (shr_m mrs2); [done| |lia]. by destruct (_ <=? _).
Qed.
Lemma num_of_Z_nonneg n : 0 <= n → nonnegative (num_of_Z n) = true.
Proof.
  intros Hn. destruct n as [|p|p]; [done| |lia]. unfold num_of_Z, binary_normalize, binary_round.
  destruct (shl_align _ _ _) as [mz ez]. by apply round_nonneg.
Qed.
Lemma num_mul_nonneg a s m e : nonnegative a = true → s = false → nonnegative (num_mul a (S754_finite s m e)) = true.
Proof. intros Ha ->. destruct a as [s'|s'| |s' m' e']; try done; cbn in Ha; destruct s'; try done. unfold num_mul, SFmul. cbn [xorb]. by apply round_nonneg. Qed.
