(* ===== verification/Risk.v ===== *)
(** * Risk scores

    [packages/core/src/services/security/risk.service.ts] and
    [bot-detector.service.ts], with the policies of
    [packages/core/src/middleware/risk.middleware.ts] and [mfa.middleware.ts] that
    work on such scores.  The scores of the last three are doubles. *)

From S2P Require Export JsNumber.
From S2P Require Export Process.
From Stdlib Require Import SpecFloat.
From S2P Require Import JsMap.

(** ** The risk service *)
Inductive RiskVerdict := allow | challenge | block | monitor.
#[export] Instance RiskVerdict_eq_dec : EqDecision RiskVerdict.
Proof. solve_decision. Defined.
Record RiskContext := mkRiskContext {
  userId : option string; tenantId : option string; applicationId : option string; ip : option string;
  userAgent : option string; country : option string; city : option string; latitude : option num; longitude : option num;
  deviceId : option string; loginVelocityMs : option Z; breachedPassword : option bool; botScore : option num;
  isTor : option bool; isProxy : option bool; ipFailureCount : option Z }.
Record RiskSignal := mkRiskSignal { kind : string; detail : string; weight : Z }.
Record RiskAssessment := mkRiskAssessment {
  score : Z; verdict : RiskVerdict; signals : list RiskSignal; requireMfa : bool }.
Record Location := mkLocation { lat : num; lon : num; at_ : Z }.
(** An event, less the time stamps of the schema. *)
Record RiskEventDoc := mkRiskEventDoc {
  re_id : string; re_tenantId : string; re_applicationId : option string; re_score : Z; re_action : RiskVerdict;
  re_attemptId : string; re_context : RiskContext; re_signals : list RiskSignal }.
Record BlockEntry := mkBlockEntry { be_tenantId : option string; be_userId : option string; be_ip : option string; be_riskScore : Z }.

Definition THRESHOLD_CHALLENGE : Z := 40.
Definition THRESHOLD_BLOCK : Z := 75.
Definition is_true (b : option bool) : bool := match b with Some b => b | None => false end.
Definition no_context : RiskContext :=
  mkRiskContext None None None None None None None None None None None None None None None None.

Section haversine.
Context `{MathLib}.
Definition toRad (deg : num) : num := num_div (num_mul deg math_PI) (num_of_Z 180).
Definition haversineKm (lat1 lon1 lat2 lon2 : num) : num :=
  let two := num_of_Z 2 in
  let dLat := toRad (num_sub lat2 lat1) in
  let dLon := toRad (num_sub lon2 lon1) in
  let a := num_add (math_pow (math_sin (num_div dLat two)) two)
             (num_mul (num_mul (math_cos (toRad lat1)) (math_cos (toRad lat2))) (math_pow (math_sin (num_div dLon two)) two)) in
  num_mul (num_mul two (num_of_Z 6371)) (math_asin (num_sqrt a)).
End haversine.

(** [lastLocations] of the service, in a state that has more. *)
Class Locations (S : Type) := {
  lastLocations : S → list (string * Location);
  set_locations : list (string * Location) → S → S;
  locations_set : ∀ l s, lastLocations (set_locations l s) = l;
}.

Section risk_service.
Context {coll : Type → Type} `{Mongo coll} {S : Type} `{Outages S} `{Locations S} `{!Stored coll S RiskEventDoc} `{MathLib}.
Context (newObjectId randomUUID : nat → string).
Notation state := (process S).

(** [distanceKm] and [timeGapMs]. *)
Definition nowhere : num * Z := (S754_zero false, 0).
Definition measure (now : Z) (latitude longitude : num) (prev : Location) : num * Z :=
  (haversineKm (lat prev) (lon prev) latitude longitude, now - at_ prev).
Definition truthy_id (u : option string) : option string := if truthy u then u else None.
Definition recentLocation (userId : option string) (latitude longitude : num) : prog state (num * Z) :=
  match truthy_id userId with
  | None => mret nowhere
  | Some u =>
    prev ← Atom (λ p : state, (p <| Process.state ::= λ s, set_locations
                    (map_set u (mkLocation latitude longitude (time p)) (lastLocations s)) s |>,
                  map_get u (lastLocations (Process.state p)))) Ret;
    match prev with
    | None => mret nowhere
    | Some prev => t ← date_now; mret (measure t latitude longitude prev)
    end
  end.

Definition signal_if (c : bool) (k d : string) (w : Z) : list RiskSignal :=
  if c && (0 <? w) then [mkRiskSignal k d w] else [].
Definition SIX_HOURS : Z := 6 * 60 * 60000.
Definition travel_signal (recent : num * Z) : list RiskSignal :=
  signal_if (num_lt (num_of_Z 500) (fst recent) && (snd recent <? SIX_HOURS)) "impossible_travel"
    ("Login " +:+ num_String (fst recent) +:+ "km from previous location within " +:+ js_String (snd recent / 60000) +:+ "min") 45.
Definition velocity_signal (v : option Z) : list RiskSignal :=
  match v with
  | Some ms => signal_if (ms <? 30000) "velocity" ("Logins within " +:+ js_String ms +:+ "ms of each other") 35
  | None => []
  end.
Definition failure_signal (n : option Z) : list RiskSignal :=
  let text := js_String (nullish n 0) +:+ " recent failed logins from this IP" in
  if 10 <=? nullish n 0 then signal_if true "ip_failures" text 50
  else signal_if (3 <=? nullish n 0) "ip_failures" text 20.
Definition bot_signal (b : option num) : list RiskSignal :=
  let b := nullish b (S754_zero false) in
  signal_if (num_le (lit 70) b) "bot_like" ("Bot score " +:+ toFixed2 b) 40.
Definition collect (recent : num * Z) (c : RiskContext) : list RiskSignal :=
  travel_signal recent ++
  signal_if (is_true (breachedPassword c)) "hibp_match" "Password found in known breach databases" 60 ++
  signal_if (is_true (isTor c)) "tor" "Login via Tor exit node" 40 ++
  signal_if (is_true (isProxy c)) "proxy" "Login via proxy/VPN" 25 ++
  velocity_signal (loginVelocityMs c) ++ failure_signal (ipFailureCount c) ++ bot_signal (botScore c).
Definition total (l : list RiskSignal) : Z := foldl (λ s x, s + weight x) 0 l.
Definition verdict_of (score : Z) : RiskVerdict :=
  if THRESHOLD_BLOCK <=? score then block else if THRESHOLD_CHALLENGE <=? score then challenge else allow.
(** The assessment of the signals. *)
Definition judge (breached : bool) (l : list RiskSignal) : RiskAssessment :=
  let score := Z.min 100 (total l) in
  mkRiskAssessment score (verdict_of score) l (negb (bool_decide (verdict_of score = allow)) || breached).

Definition assess (c : RiskContext) : prog state RiskAssessment :=
  recent ← (match latitude c, longitude c with
            | Some la, Some lo => recentLocation (userId c) la lo
            | _, _ => mret nowhere
            end);
  mret (judge (is_true (breachedPassword c)) (collect recent c)).

Record RiskService := mkRiskService {
  rs_tenantId : option string; rs_applicationId : option string; rs_audit : option (BlockEntry → prog state ()) }.
Definition or_else {A} (a b : option A) : option A := match a with Some _ => a | None => b end.
Definition assessAndRecord (s : RiskService) (c : RiskContext) : prog state RiskAssessment :=
  a ← assess c;
  attempt ← random randomUUID;
  i ← random newObjectId;
  row_create (mkRiskEventDoc i (nullish (or_else (tenantId c) (rs_tenantId s)) "default")
    (or_else (applicationId c) (rs_applicationId s)) (score a) (verdict a) attempt c (signals a)) ;;
  (if bool_decide (verdict a = block) then
     match rs_audit s with
     | Some log => log (mkBlockEntry (or_else (tenantId c) (rs_tenantId s)) (userId c) (ip c) (score a))
     | None => mret tt
     end
   else mret tt) ;;
  mret a.
End risk_service.

(** ** The bot detector *)
Record BotSignalInput := mkBotSignalInput {
  interaction : option string; pageTimeMs : option Z; webdriver : option bool; suspiciousUserAgent : option bool;
  captchaPassed : option bool; submissionCount : option Z }.
Inductive BotVerdict := human | suspect | bot.
#[export] Instance BotVerdict_eq_dec : EqDecision BotVerdict.
Proof. solve_decision. Defined.
Record BotDecision := mkBotDecision { bd_score : num; bd_verdict : BotVerdict; reasons : list string }.
Definition SUSPECT_THRESHOLD : num := lit 50.
Definition BOT_THRESHOLD : num := lit 75.
(** A step of the scoring: the score and the reasons so far. *)
Definition raise (c : bool) (n : Z) (why : string) (x : num * list string) : num * list string :=
  if c then (num_add (fst x) (lit n), snd x ++ [why]) else x.
Definition clamp (x : num) : num := num_min (num_of_Z 1) (num_max (S754_zero false) x).
Definition no_interaction (i : option string) : bool :=
  match i with Some "none" => true | _ => negb (truthy i) end.
Definition human_like (i : option string) : bool :=
  match i with Some i => existsb (String.eqb i) ["mouse_move"; "key_press"; "touch"] | None => false end.
Definition score_interaction (i : option string) (x : num * list string) : num * list string :=
  if no_interaction i then raise true 35 "no interaction detected" x
  else raise (human_like i) 5 "human-like interaction present" x.
Definition score_page_time (t : option Z) (x : num * list string) : num * list string :=
  match t with
  | None => x
  | Some t =>
    if t <? 300 then raise true 40 "submit faster than a human could complete form" x
    else raise (t <? 1000) 15 "unusually fast form completion" x
  end.
Definition score_captcha (c : bool) (x : num * list string) : num * list string :=
  if c then (num_max (S754_zero false) (num_sub (fst x) (lit 70)), snd x ++ ["captcha passed"]) else x.
Definition bot_verdict (score : num) : BotVerdict :=
  if num_le BOT_THRESHOLD score then bot else if num_le SUSPECT_THRESHOLD score then suspect else human.
Definition bot_assess (i : BotSignalInput) : BotDecision :=
  let x := score_interaction (interaction i) (S754_zero false, []) in
  let x := raise (is_true (webdriver i)) 60 "webdriver flag set" x in
  let x := raise (is_true (suspiciousUserAgent i)) 35 "suspicious user-agent" x in
  let x := score_page_time (pageTimeMs i) x in
  let x := score_captcha (is_true (captchaPassed i)) x in
  let x := raise (5 <? nullish (submissionCount i) 0) 30 "many submissions in one session" x in
  let score := clamp (fst x) in
  mkBotDecision score (bot_verdict score) (snd x).
(** The alternatives of a regular expression of plain texts, without case. *)
Definition matches_any (words : list string) (s : string) : bool := existsb (λ w, includes w (js_lower s)) words.
Definition SUSPICIOUS : list string :=
  ["headless"; "phantomjs"; "puppeteer"; "selenium"; "playwright"; "curl"; "wget"; "python-requests"; "go-http-client";
   "aws-sdk"; "okhttp"; "axios"].
Definition isSuspiciousUserAgent (ua : option string) : bool :=
  match ua with Some ua => String.eqb ua "" || matches_any SUSPICIOUS ua | None => true end.

(** *** The same score in hundredths *)
Definition points_of_interaction (i : option string) : Z := if no_interaction i then 35 else if human_like i then 5 else 0.
Definition points_of_page_time (t : option Z) : Z :=
  match t with Some t => if t <? 300 then 40 else if t <? 1000 then 15 else 0 | None => 0 end.
Definition bot_points (i : BotSignalInput) : Z :=
  let x := points_of_interaction (interaction i) + (if is_true (webdriver i) then 60 else 0) +
           (if is_true (suspiciousUserAgent i) then 35 else 0) + points_of_page_time (pageTimeMs i) in
  let x := if is_true (captchaPassed i) then Z.max 0 (x - 70) else x in
  Z.min 100 (Z.max 0 (x + (if 5 <? nullish (submissionCount i) 0 then 30 else 0))).
Definition bot_verdict_of_points (p : Z) : BotVerdict := if 75 <=? p then bot else if 50 <=? p then suspect else human.

(** ** The policy of the risk middleware *)
Record RiskSignals := mkRiskSignals {
  ipReputation : option num; isNewDevice : option bool; regionMismatch : option bool; velocity : option num;
  mfaSatisfied : option bool; authMethod : option string }.
Inductive RiskLevel := low | medium | high | blocked.
#[export] Instance RiskLevel_eq_dec : EqDecision RiskLevel.
Proof. solve_decision. Defined.
Record RiskDecision := mkRiskDecision { rd_score : num; level : RiskLevel; action : RiskVerdict; rd_reasons : list string }.
Definition score_reputation (r : option num) (x : num * list string) : num * list string :=
  match r with
  | Some r => (num_add (fst x) r, snd x ++ (if num_lt (lit 80) r then ["poor-ip-reputation"] else []))
  | None => x
  end.
Definition fast (v : option num) : bool := match v with Some v => num_lt (num_of_Z 5) v | None => false end.
Definition decide_level (clamped : num) : RiskLevel * RiskVerdict :=
  if num_le (lit 90) clamped then (blocked, block)
  else if num_le (lit 60) clamped then (high, challenge)
  else if num_le (lit 35) clamped then (medium, challenge)
  else (low, allow).
Definition deterministicPolicy (s : RiskSignals) : RiskDecision :=
  let x := score_reputation (ipReputation s) (S754_zero false, []) in
  let x := raise (is_true (isNewDevice s)) 30 "new-device" x in
  let x := raise (is_true (regionMismatch s)) 40 "region-mismatch" x in
  let x := raise (fast (velocity s)) 35 "high-velocity" x in
  let score := if is_true (mfaSatisfied s) then num_sub (fst x) (lit 50) else fst x in
  let clamped := num_max (S754_zero false) (num_min (num_of_Z 1) score) in
  mkRiskDecision clamped (fst (decide_level clamped)) (snd (decide_level clamped)) (snd x).
(** [evaluate] of the middleware. *)
Definition evaluate_risk (policy : option (RiskSignals → RiskDecision)) (s : RiskSignals) : RiskDecision :=
  nullish policy deterministicPolicy s.

(** ** Step-up *)
Record MfaDecisionInput := mkMfaDecisionInput {
  mfaEnabled : bool; mi_authMethod : string; sessionVerifiedAt : option Z; riskScore : option num }.
Inductive Challenge := by_otp | by_totp | by_none.
Record MfaDecision := mkMfaDecision { required : bool; reason : string; challenge_kind : Challenge }.
Definition STEP_UP_WINDOW_MS : Z := 10 * 60 * 1000.
Definition stepUpStale (now : Z) (verified : option Z) : bool :=
  match verified with Some t => STEP_UP_WINDOW_MS <? now - t | None => false end.
Definition mfa_evaluate {S} (policy : MfaDecisionInput → prog (process S) bool) (i : MfaDecisionInput) : prog (process S) MfaDecision :=
  if negb (mfaEnabled i) then mret (mkMfaDecision false "mfa-not-enabled" by_none)
  else
    let highRisk := num_le (lit 70) (nullish (riskScore i) (S754_zero false)) in
    t ← (match sessionVerifiedAt i with Some _ => date_now | None => mret 0 end);
    asked ← policy i;
    if negb (asked || highRisk || stepUpStale t (sessionVerifiedAt i)) then mret (mkMfaDecision false "mfa-satisfied" by_none)
    else mret (mkMfaDecision true "step-up-required" (if String.eqb (mi_authMethod i) "totp" then by_totp else by_otp)).

(** ** Scores in hundredths *)
(** The one combination whose sum is rounded below a threshold: a scripted form
    sent within a second, with a solved captcha. *)
Definition rounded_below (i : BotSignalInput) : bool :=
  no_interaction (interaction i) && is_true (webdriver i) && is_true (suspiciousUserAgent i) &&
  bool_decide (points_of_page_time (pageTimeMs i) = 15) && is_true (captchaPassed i) && negb (5 <? nullish (submissionCount i) 0).

(** The bot score decides as exact arithmetic on hundredths would, for every
    input, with one exception that rounding makes: no interaction, the webdriver
    flag, a suspicious user agent, a form filled within a second and a solved
    captcha add up to 0.75, the threshold of a bot, but the doubles fall below it
    and the verdict is only suspect. *)
Theorem bot_verdict_exact i :
  bd_verdict (bot_assess i) = (if rounded_below i then suspect else bot_verdict_of_points (bot_points i)) ∧
  (rounded_below i = true → bot_points i = 75).
Proof.
  unfold rounded_below, bot_assess, bot_points, score_interaction, points_of_interaction, score_page_time, points_of_page_time.
  destruct (no_interaction (interaction i)), (human_like (interaction i)), (is_true (webdriver i)),
    (is_true (suspiciousUserAgent i)), (is_true (captchaPassed i)), (5 <? nullish (submissionCount i) 0),
    (pageTimeMs i) as [t|]; try (destruct (t <? 300), (t <? 1000)); (split; [vm_compute; reflexivity|]); vm_compute; (discriminate || reflexivity).
Qed.

(** The points of the policy, without a reputation. *)
Definition policy_points (s : RiskSignals) : Z :=
  let x := (if is_true (isNewDevice s) then 30 else 0) + (if is_true (regionMismatch s) then 40 else 0) +
           (if fast (velocity s) then 35 else 0) - (if is_true (mfaSatisfied s) then 50 else 0) in
  Z.max 0 (Z.min 100 x).
Definition level_of_points (p : Z) : RiskLevel :=
  if 90 <=? p then blocked else if 60 <=? p then high else if 35 <=? p then medium else low.

(** The policy of the risk middleware never blocks a new device or a fast client alone, and without a
    reputation it decides as exact arithmetic on hundredths would. *)
Theorem policy_level_exact s :
  ipReputation s = None → level (deterministicPolicy s) = level_of_points (policy_points s).
Proof.
  intros Hr. unfold deterministicPolicy, policy_points, score_reputation. rewrite Hr.
  destruct (is_true (isNewDevice s)), (is_true (regionMismatch s)), (fast (velocity s)), (is_true (mfaSatisfied s));
    vm_compute; reflexivity.
Qed.
(** A reputation that is not a number opens the gate: whatever the other signals. *)
Theorem nan_reputation_allows s :
  ipReputation s = Some S754_nan → action (deterministicPolicy s) = allow ∧ level (deterministicPolicy s) = low.
Proof.
  intros Hr. unfold deterministicPolicy, score_reputation. rewrite Hr.
  destruct (is_true (isNewDevice s)), (is_true (regionMismatch s)), (fast (velocity s)), (is_true (mfaSatisfied s)); vm_compute; done.
Qed.

(** ** Assessments *)
Section risk_facts.
Context {coll : Type → Type} `{Mongo coll} {S : Type} `{Outages S} `{!Locations S} `{!Stored coll S RiskEventDoc} `{MathLib}.
Context (newObjectId randomUUID : nat → string).
Notation state := (process S).
Notation assess := (assess (S := S)).

Lemma total_from z l : foldl (λ s x, s + weight x) z l = z + total l.
Proof.
  unfold total. revert z. induction l as [|x l IH]; intros z; cbn [foldl]; [lia|]. rewrite IH, (IH (0 + weight x)). lia.
Qed.
Lemma total_app l l' : total (l ++ l') = total l + total l'.
Proof. unfold total at 1. by rewrite foldl_app, total_from. Qed.
Lemma total_signal_if c k d w : 0 < w → total (signal_if c k d w) = if c then w else 0.
Proof. intros Hw. unfold signal_if. rewrite (proj2 (Z.ltb_lt _ _)) by done. by destruct c. Qed.

(** The points of each kind of evidence. *)
Definition travelled (recent : num * Z) : bool := num_lt (num_of_Z 500) (fst recent) && (snd recent <? SIX_HOURS).
Definition quick (c : RiskContext) : bool := match loginVelocityMs c with Some ms => ms <? 30000 | None => false end.
Definition bot_like (c : RiskContext) : bool := num_le (lit 70) (nullish (botScore c) (S754_zero false)).
Definition failure_points (c : RiskContext) : Z :=
  if 10 <=? nullish (ipFailureCount c) 0 then 50 else if 3 <=? nullish (ipFailureCount c) 0 then 20 else 0.
Definition points (recent : num * Z) (c : RiskContext) : Z :=
  (if travelled recent then 45 else 0) + (if is_true (breachedPassword c) then 60 else 0) + (if is_true (isTor c) then 40 else 0) +
  (if is_true (isProxy c) then 25 else 0) + (if quick c then 35 else 0) + failure_points c + (if bot_like c then 40 else 0).

Lemma total_collect recent c : total (collect recent c) = points recent c.
Proof.
  unfold collect, points, travel_signal, velocity_signal, failure_signal, failure_points, bot_signal, quick, travelled, bot_like.
  rewrite !total_app, !total_signal_if by lia.
  destruct (loginVelocityMs c); rewrite ?total_signal_if by lia; destruct (10 <=? nullish (ipFailureCount c) 0);
    rewrite ?total_signal_if by lia; cbn [total foldl]; lia.
Qed.

(** What the location service measures, and the state it leaves. *)
Definition measured (c : RiskContext) (p : state) : state * (num * Z) :=
  match latitude c, longitude c with
  | Some la, Some lo =>
    match truthy_id (userId c) with
    | Some u =>
      (p <| Process.state ::= λ s, set_locations (map_set u (mkLocation la lo (time p)) (lastLocations s)) s |>,
       match map_get u (lastLocations (Process.state p)) with Some prev => measure (time p) la lo prev | None => nowhere end)
    | None => (p, nowhere)
    end
  | _, _ => (p, nowhere)
  end.
Lemma run_assess c p :
  run (assess c) p = ((measured c p).1, inr (judge (is_true (breachedPassword c)) (collect (measured c p).2 c))).
Proof.
  unfold Risk.assess, measured, recentLocation. destruct (latitude c), (longitude c); try done.
  destruct (truthy_id (userId c)); [|done]. rewrite run_bind. cbn. by destruct (map_get _ _).
Qed.

(** A risk assessment decides by its points: it always answers, without touching
    more than the remembered location of the user; the score is the sum of the
    points of the signals that fired, capped at 100 and never negative; the login
    is blocked from 75 points, challenged from 40 and allowed below, never merely
    monitored; a second factor is asked for from 40 points or when the password
    is breached. *)
Theorem assess_decides c p :
  ∃ a, run (assess c) p = ((measured c p).1, inr a) ∧
    score a = Z.min 100 (points (measured c p).2 c) ∧ 0 <= score a <= 100 ∧
    (verdict a = block ↔ 75 <= score a) ∧ (verdict a = challenge ↔ 40 <= score a < 75) ∧ (verdict a = allow ↔ score a < 40) ∧
    (requireMfa a = true ↔ 40 <= score a ∨ is_true (breachedPassword c) = true).
Proof.
  eexists. split; [apply run_assess|]. cbn. rewrite total_collect. set (n := points _ c).
  assert (0 <= n) as Hn by (subst n; unfold points, failure_points; repeat case_match; lia).
  unfold verdict_of, THRESHOLD_BLOCK, THRESHOLD_CHALLENGE.
  destruct (Z.leb_spec 75 (Z.min 100 n)), (Z.leb_spec 40 (Z.min 100 n)); cbn; split_and!; try done; try lia;
    (split; intros Hx; try done; try lia; try tauto); destruct (is_true (breachedPassword c)); cbn in *; try done; try tauto; try lia.
  all: destruct Hx; [lia|done].
Qed.

(** *** More evidence *)
Record more_evidence (c c' : RiskContext) : Prop := {
  more_place : userId c = userId c' ∧ latitude c = latitude c' ∧ longitude c = longitude c';
  more_breached : is_true (breachedPassword c) = true → is_true (breachedPassword c') = true;
  more_tor : is_true (isTor c) = true → is_true (isTor c') = true;
  more_proxy : is_true (isProxy c) = true → is_true (isProxy c') = true;
  more_quick : ∀ ms, loginVelocityMs c = Some ms → ∃ ms', loginVelocityMs c' = Some ms' ∧ ms' <= ms;
  more_failures : nullish (ipFailureCount c) 0 <= nullish (ipFailureCount c') 0;
  more_bot : bot_like c = true → bot_like c' = true;
}.
Definition rank (v : RiskVerdict) : Z := match v with allow => 0 | monitor => 1 | challenge => 2 | block => 3 end.

Lemma if_le (b b' : bool) w : 0 <= w → (b = true → b' = true) → (if b then w else 0) <= (if b' then w else 0).
Proof. intros Hw Hb. destruct b, b'; lia. Qed.
Lemma rank_verdict n m : n <= m → rank (verdict_of n) <= rank (verdict_of m).
Proof.
  unfold verdict_of, THRESHOLD_BLOCK, THRESHOLD_CHALLENGE. intros Hn.
  destruct (Z.leb_spec 75 n), (Z.leb_spec 75 m), (Z.leb_spec 40 n), (Z.leb_spec 40 m); cbn; lia.
Qed.

(** More evidence never helps: of two logins of one user from one place, the one
    with at least the evidence of the other (a breached password, Tor, a proxy, a
    shorter time since the previous login, more failures of the address, a bot-like
    score) has at least its score, at least as strict a verdict, and is asked
    for a second factor whenever the other is. *)
Theorem risk_monotone c c' p :
  more_evidence c c' →
  ∃ q a a', run (assess c) p = (q, inr a) ∧ run (assess c') p = (q, inr a') ∧
    score a <= score a' ∧ rank (verdict a) <= rank (verdict a') ∧ (requireMfa a = true → requireMfa a' = true).
Proof.
  intros [(Hu & Hla & Hlo) Hb Ht Hp Hq Hf Hbot]. assert (measured c p = measured c' p) as Hm by (unfold measured; by rewrite Hu, Hla, Hlo).
  do 3 eexists. split; [apply run_assess|]. split; [rewrite Hm; apply run_assess|]. cbn. rewrite !total_collect, <- Hm.
  set (r := (measured c p).2).
  assert (points r c <= points r c') as Hle.
  { unfold points. assert (failure_points c <= failure_points c') as Hf' by
      (unfold failure_points; repeat case_match; bool_to_prop; lia).
    assert (quick c = true → quick c' = true) as Hq'.
    { unfold quick. destruct (loginVelocityMs c) as [ms|] eqn:Hms; [|done]. destruct (Hq ms eq_refl) as (ms' & -> & ?).
      intros ?%Z.ltb_lt. apply Z.ltb_lt. lia. }
    pose proof (if_le _ _ 60 ltac:(lia) Hb). pose proof (if_le _ _ 40 ltac:(lia) Ht). pose proof (if_le _ _ 25 ltac:(lia) Hp).
    pose proof (if_le _ _ 35 ltac:(lia) Hq'). pose proof (if_le _ _ 40 ltac:(lia) Hbot). lia. }
  assert (Z.min 100 (points r c) <= Z.min 100 (points r c')) as Hmin by lia. pose proof (rank_verdict _ _ Hmin) as Hr.
  split_and!; [done|done|]. intros [Hn|Hbr]%orb_true_iff; apply orb_true_iff; [left|by right; apply Hb].
  apply negb_true_iff, bool_decide_eq_false in Hn. apply negb_true_iff, bool_decide_eq_false. intros Ha. apply Hn.
  rewrite Ha in Hr. destruct (verdict_of (Z.min 100 (points r c))) eqn:Hv; cbn in Hr; lia || done.
Qed.

(** *** The remembered location *)
Lemma toRad_void a : void a → void (toRad a).
Proof. intros Ha. by apply div_void, mul_void_l. Qed.
Lemma haversine_same `{!MathLaws} la lo : void (haversineKm la lo la lo).
Proof.
  unfold haversineKm. apply mul_void_r, asin_void, sqrt_void, add_void.
  - apply pow_void, sin_void, div_void, toRad_void, sub_self_void.
  - apply mul_void_r, pow_void, sin_void, div_void, toRad_void, sub_self_void.
Qed.

(** An attempt moves the user, whatever becomes of it: once a login of a user has
    been assessed from a place, even one that was blocked, the next one assessed
    from that place is not taken for impossible travel, whatever the distance and the time to
    where the user was before. *)
Theorem attempt_hides_travel `{!MathLaws} c c' p q u la lo :
  truthy_id (userId c) = Some u → userId c' = userId c →
  latitude c = Some la → longitude c = Some lo → latitude c' = Some la → longitude c' = Some lo →
  map_get u (lastLocations (Process.state q)) = map_get u (lastLocations (Process.state (run (assess c) p).1)) →
  ∃ q' a, run (assess c') q = (q', inr a) ∧ ∀ x, In x (signals a) → kind x ≠ "impossible_travel".
Proof.
  intros Hu Hu' Hla Hlo Hla' Hlo' Hq. rewrite run_assess in Hq. cbn [fst] in Hq. unfold measured in Hq at 1.
  rewrite Hla, Hlo, Hu in Hq. cbn in Hq. rewrite locations_set, map_get_set, String.eqb_refl in Hq.
  do 2 eexists. split; [apply run_assess|]. cbn [judge signals].
  unfold measured. rewrite Hla', Hlo', Hu', Hu, Hq. cbn [snd].
  unfold collect, travel_signal, measure. cbn [fst snd lat lon at_]. rewrite (void_not_above _ (haversine_same la lo)). cbn [andb signal_if app].
  unfold velocity_signal, failure_signal, bot_signal, signal_if. intros x Hx Hk.
  repeat (apply in_app_or in Hx as [Hx|Hx]); repeat case_match; cbn in Hx;
    repeat (destruct Hx as [<-|Hx]; [discriminate Hk|]); exact Hx.
Qed.
End risk_facts.
