(* ===== verification/Breach.v ===== *)
(** * Breached passwords

    [packages/core/src/services/security/hibp.service.ts], the range protocol of
    Have I Been Pwned over a cache of ranges, and [breach-detector.service.ts],
    which remembers the answers.  SHA-1 and the range endpoint are parameters. *)

From S2P Require Export Process.
From S2P Require Export Risk.
From S2P Require Import Json.
From Stdlib Require Import Ascii.
From S2P Require Import JsMap.

(** ** The body of a range *)
(** [s.split(/\r?\n/)]: a line feed ends a line, with the carriage return before it. *)
Definition LF : ascii := "010".
Definition CR : ascii := "013".
Fixpoint split_lines (s : string) : list string :=
  match s with
  | EmptyString => [""]
  | String c s' =>
    if Ascii.eqb c LF then "" :: split_lines s'
    else match split_lines s' with
         | [] => []
         | l :: ls =>
           match s' with
           | String d _ => if Ascii.eqb c CR && Ascii.eqb d LF then l :: ls else String c l :: ls
           | EmptyString => String c l :: ls
           end
         end
  end.
(** [const [suffixRaw, count] = line.split(':')]. *)
Fixpoint until_colon (s : string) : string * option string :=
  match s with
  | EmptyString => ("", None)
  | String c s' => if Ascii.eqb c ":" then ("", Some s') else let '(a, r) := until_colon s' in (String c a, r)
  end.
Definition split_line (line : string) : string * option string :=
  let '(suffixRaw, rest) := until_colon line in (suffixRaw, option_map (λ r, fst (until_colon r)) rest).
Section number.
(** [Number] of a text that is no decimal integer. *)
Context (other_number : string → option Z).
Definition parse_count (s : option string) : Z :=
  match s with
  | None => 0
  | Some s => nullish (match js_Number (js_trim s) with Some n => Some n | None => other_number s end) 0
  end.
Definition parse_line (line : string) : string * Z :=
  let '(suffixRaw, count) := split_line line in (js_upper suffixRaw, parse_count count).
Definition parseRange (body : string) : list (string * Z) :=
  if String.eqb body "" then [] else map parse_line (split_lines (js_trim body)).

(** The body that lists the rows. *)
Definition CRLF : string := String CR (String LF EmptyString).
Definition print_row (r : string * Z) : string := fst r +:+ String ":" (js_String (snd r)).
Fixpoint print_range (rows : list (string * Z)) : string :=
  match rows with
  | [] => ""
  | [r] => print_row r
  | r :: rows => print_row r +:+ CRLF +:+ print_range rows
  end.

(** *** What is printed is read *)
#[local] Arguments String.append !_ _ : simpl nomatch.
Fixpoint every (f : ascii → bool) (s : string) : bool :=
  match s with EmptyString => true | String c s' => f c && every f s' end.
Definition plain (c : ascii) : bool := negb (js_is_space c) && negb (Ascii.eqb c ":").
Definition visible (c : ascii) : bool := negb (js_is_space c).
(** A suffix as the service prints it. *)
Definition good_row (r : string * Z) : Prop := every plain (fst r) = true ∧ js_upper (fst r) = fst r.

Lemma plain_visible s : every plain s = true → every visible s = true.
Proof.
  induction s as [|c s IH]; cbn; [done|]. intros [Hc Hs]%andb_true_iff. rewrite IH by done. unfold plain, visible in *.
  by destruct (js_is_space c).
Qed.
Lemma every_app f s t : every f (s +:+ t) = every f s && every f t.
Proof. induction s as [|c s IH]; cbn; [done|]. by rewrite IH, andb_assoc. Qed.
Lemma plain_digits s : all_digits s = true → every plain s = true.
Proof.
  induction s as [|c s IH]; cbn; [done|]. intros [Hc Hs]%andb_true_iff. rewrite IH by done.
  destruct c as [[] [] [] [] [] [] [] []]; done.
Qed.
Lemma plain_number n : every plain (js_String n) = true.
Proof. destruct (js_String_shape n) as [Hd|(s & -> & Hd)]; [by apply plain_digits|]. cbn. by apply plain_digits. Qed.
Lemma trim_end_visible s : every visible s = true → js_trim_end s = s.
Proof.
  induction s as [|c s IH]; cbn; [done|]. intros [Hc Hs]%andb_true_iff. rewrite IH by done. unfold visible in Hc.
  destruct s; [|done]. by destruct (js_is_space c).
Qed.
Lemma trim_end_app s t : t ≠ "" → js_trim_end t = t → js_trim_end (s +:+ t) = s +:+ t.
Proof. intros Ht He. induction s as [|c s IH]; cbn; [done|]. rewrite IH. destruct s, t; done. Qed.
Lemma split_visible s : every visible s = true → split_lines s = [s].
Proof.
  induction s as [|c s IH]; cbn; [done|]. intros [Hc Hs]%andb_true_iff. rewrite IH by done.
  destruct (Ascii.eqb_spec c LF) as [->|_]; [done|]. destruct s; [done|].
  destruct (Ascii.eqb_spec c CR) as [->|_]; done.
Qed.
Lemma split_row l rest : every visible l = true → split_lines (l +:+ CRLF +:+ rest) = l :: split_lines rest.
Proof.
  induction l as [|c l IH]; [done|]. cbn [every]. intros [Hc Hs]%andb_true_iff. cbn.
  change (String CR (String LF rest)) with (CRLF +:+ rest). rewrite IH by done.
  destruct (Ascii.eqb_spec c LF) as [->|_]; [done|]. destruct (l +:+ _) as [|d r]; [done|].
  destruct (Ascii.eqb_spec c CR) as [->|_]; done.
Qed.
Lemma colon_plain s t : every plain s = true → until_colon (s +:+ t) = (s +:+ fst (until_colon t), snd (until_colon t)).
Proof.
  induction s as [|c s IH]; cbn; [by destruct (until_colon t)|]. intros [Hc Hs]%andb_true_iff. rewrite IH by done. unfold plain in Hc.
  destruct (Ascii.eqb c ":"); [|done]. by destruct (js_is_space c).
Qed.
Lemma parse_print_row r : good_row r → parse_line (print_row r) = r.
Proof.
  destruct r as [s n]. intros [Hs Hu]. cbn in Hs, Hu. unfold parse_line, split_line, print_row. cbn [fst snd].
  rewrite colon_plain by done. cbn. rewrite str_app_nil, Hu. f_equal.
  pose proof (colon_plain (js_String n) "" (plain_number n)) as Hc. rewrite !str_app_nil in Hc. rewrite Hc. cbn [fst].
  change (js_trim_end (js_trim_start (js_String n))) with (js_trim (js_String n)). assert (js_trim (js_String n) = js_String n) as ->; [|by rewrite js_Number_String].
  unfold js_trim. pose proof (plain_number n) as Hp. rewrite <- (trim_end_visible (js_String n)) at 2 by (by apply plain_visible). f_equal.
  destruct (js_String n) as [|c r]; [done|]. cbn in *. unfold plain in Hp. by destruct (js_is_space c).
Qed.

Lemma row_visible r : good_row r → every visible (print_row r) = true ∧ print_row r ≠ "".
Proof.
  intros [Hs _]. unfold print_row. split; [|by destruct (fst r)].
  rewrite every_app. cbn. by rewrite !plain_visible by (done || apply plain_number).
Qed.
Lemma split_range r rows : Forall good_row (r :: rows) → split_lines (print_range (r :: rows)) = map print_row (r :: rows).
Proof.
  revert r. induction rows as [|r' rows IH]; intros r [Hr Hrows]%Forall_cons; destruct (row_visible r Hr) as [Hv _].
  - by apply split_visible.
  - change (print_range (r :: r' :: rows)) with (print_row r +:+ CRLF +:+ print_range (r' :: rows)).
    rewrite split_row by done. by rewrite IH.
Qed.
Lemma trim_range r rows : Forall good_row (r :: rows) → js_trim (print_range (r :: rows)) = print_range (r :: rows).
Proof.
  intros Hg. assert (print_range (r :: rows) ≠ "" ∧ js_trim_end (print_range (r :: rows)) = print_range (r :: rows)) as [Hne He].
  { revert r Hg. induction rows as [|r' rows IH]; intros r [Hr Hrows]%Forall_cons; destruct (row_visible r Hr) as [Hv Hne].
    - split; [done|]. by apply trim_end_visible.
    - change (print_range (r :: r' :: rows)) with (print_row r +:+ CRLF +:+ print_range (r' :: rows)).
      destruct (IH r' Hrows) as [Hne' He']. split; [by destruct (print_row r)|].
      rewrite <- !str_app_assoc. by apply trim_end_app. }
  unfold js_trim. rewrite <- He at 2. f_equal. apply Forall_cons in Hg as [Hr _]. destruct (row_visible r Hr) as [Hv Hn].
  assert (∃ t, print_range (r :: rows) = print_row r +:+ t) as [t ->]
    by (destruct rows; [exists ""; cbn; by rewrite str_app_nil|by eexists]).
  destruct (print_row r) as [|c l]; [done|]. cbn in Hv |- *. unfold visible in Hv. by destruct (js_is_space c).
Qed.

(** Reading a range gives the rows the service listed. *)
Theorem parse_print_range rows : Forall good_row rows → parseRange (print_range rows) = rows.
Proof.
  intros Hg. unfold parseRange. destruct rows as [|r rows]; [done|]. rewrite trim_range, split_range by done.
  destruct (String.eqb_spec (print_range (r :: rows)) "") as [He|_].
  { apply Forall_cons in Hg as [Hr _]. destruct (row_visible r Hr) as [_ Hn]. destruct rows; cbn in He; destruct (print_row r); done. }
  rewrite map_map. rewrite <- (map_id (r :: rows)) at 2. apply map_ext_in. intros x Hx. apply parse_print_row.
  rewrite List.Forall_forall in Hg. by apply Hg.
Qed.
End number.

(** ** The range service *)
Record BreachRecord := mkBreachRecord { hashPrefix : string; suffixes : string; fetchedAt : Z }.
(** One record per prefix. *)
Definition breach_clash (n d : BreachRecord) : bool := String.eqb (hashPrefix n) (hashPrefix d).
Record HibpCheckResult := mkHibpCheckResult { breached : bool; count : Z; prefix : string; cached : bool }.
Record HibpService := mkHibpService { useCache : bool; cacheTtlMs : Z }.
Definition new_hibp (cache : option bool) (ttl : option Z) : HibpService :=
  mkHibpService (nullish cache true) (nullish ttl (24 * 60 * 60000)).
(** [s.slice(0, 5)] and [s.slice(5)] of the hash. *)
Definition prefix_of (h : string) : string := String.substring 0 5 h.
Definition suffix_of (h : string) : string := String.substring 5 (String.length h - 5) h.

Section hibp.
Context {coll : Type → Type} `{Mongo coll} {S : Type} `{Outages S} `{!Stored coll S BreachRecord}.
Context (other_number : string → option Z) (sha1_hex : string → string).
Notation state := (process S).
Context (rangeFetcher : string → prog state string).
Notation parseRange := (parseRange other_number).

Definition of_prefix (p : string) (d : BreachRecord) : bool := String.eqb (hashPrefix d) p.
(** [findOne(...).catch(() => null)]. *)
Definition find_record (p : string) : prog state (option BreachRecord) :=
  try_catch (row_find_one (of_prefix p)) (λ _, mret None).
Definition fresh_range (s : HibpService) (p : string) : prog state (option (list (string * Z))) :=
  if useCache s then
    c ← find_record p;
    match c with
    | None => mret None
    | Some c => t ← date_now; mret (if t - fetchedAt c <? cacheTtlMs s then Some (parseRange (suffixes c)) else None)
    end
  else mret None.
Definition stored (body : string) (t : Z) (d : BreachRecord) : BreachRecord := mkBreachRecord (hashPrefix d) body t.
Definition remember (s : HibpService) (p body : string) : prog state () :=
  if useCache s then
    t ← date_now;
    try_catch (row_upsert (of_prefix p) (stored body t) (mkBreachRecord p body t)) (λ _, mret tt)
  else mret tt.
Definition stale_range (s : HibpService) (p : string) : prog state (option (list (string * Z))) :=
  if useCache s then c ← find_record p; mret (option_map (λ d, parseRange (suffixes d)) c) else mret None.
Definition fetchRange (s : HibpService) (p : string) : prog state (option (list (string * Z))) :=
  hit ← fresh_range s p;
  match hit with
  | Some entries => mret (Some entries)
  | None =>
    fetched ← try_catch (body ← rangeFetcher p; remember s p body ;; mret (Some (parseRange body))) (λ _, mret None);
    match fetched with Some entries => mret (Some entries) | None => stale_range s p end
  end.
(** What [isBreached] makes of the range. *)
Definition look_up (password : string) (range : option (list (string * Z))) : HibpCheckResult :=
  let fullHash := sha1_hex password in
  match range with
  | None => mkHibpCheckResult false 0 (prefix_of fullHash) false
  | Some range =>
    match List.find (λ e, String.eqb (fst e) (js_upper (suffix_of fullHash))) range with
    | Some e => mkHibpCheckResult true (snd e) (prefix_of fullHash) true
    | None => mkHibpCheckResult false 0 (prefix_of fullHash) true
    end
  end.
Definition isBreached (s : HibpService) (password : string) : prog state HibpCheckResult :=
  range ← fetchRange s (prefix_of (sha1_hex password));
  mret (look_up password range).
End hibp.

(** The fetcher of the real endpoint; the abort of a slow request is an exception of
    [fetch], which answers with the status and the text. *)
Definition createHibpRangeFetcher {W} (fetch : string → list (string * string) → prog W (Z * string))
    (baseUrl apiKey userAgent : option string) (p : string) : prog W string :=
  res ← fetch (nullish baseUrl "https://api.pwnedpasswords.com" +:+ "/range/" +:+ p)
          (("User-Agent", nullish userAgent "pezhwan") ::
           (if truthy apiKey then [("hibp-api-key", nullish apiKey "")] else []));
  throw_if (negb ((200 <=? fst res) && (fst res <? 300))) (JsError ("HIBP range request failed " +:+ js_String (fst res))) ;;
  mret (snd res).

(** ** The detector *)
Record RecentCheck := mkRecentCheck { rc_breached : bool; rc_count : Z; rc_at : Z }.
Class RecentChecks (S : Type) := {
  recentChecks : S → list (string * RecentCheck);
  set_checks : list (string * RecentCheck) → S → S;
  checks_set : ∀ l s, recentChecks (set_checks l s) = l;
}.
Record BreachCheckInput := mkBreachCheckInput { password : string; bi_userAgent : option string; bi_ip : option string }.
Record BreachCheckResult := mkBreachCheckResult { br_breached : bool; br_count : Z; checked : bool; br_cached : bool }.

Section detector.
Context {S : Type} `{RecentChecks S}.
Notation state := (process S).
(** [hibp.isBreached] and [riskService.assessAndRecord]. *)
Context (hibp : option (string → prog state HibpCheckResult)) (riskService : option (RiskContext → prog state RiskAssessment)).
Context (cachedWindowMs : Z).
Definition default_window (w : option Z) : Z := nullish w (60 * 60000).

Definition breached_context (i : BreachCheckInput) : RiskContext :=
  mkRiskContext None None None (bi_ip i) (bi_userAgent i) None None None None None None (Some true) None None None None.
Definition recent (password : string) (p : state) : option RecentCheck :=
  match map_get password (recentChecks (Process.state p)) with
  | Some c => if time p - rc_at c <? cachedWindowMs then Some c else None
  | None => None
  end.
Definition note_check (password : string) (breached : bool) (count : Z) : prog state () :=
  Atom (λ p : state, (p <| Process.state ::= λ s, set_checks (map_set password (mkRecentCheck breached count (time p)) (recentChecks s)) s |>, tt)) Ret.
Definition checkPassword (i : BreachCheckInput) : prog state BreachCheckResult :=
  match hibp with
  | None => mret (mkBreachCheckResult false 0 false false)
  | Some isBreached =>
    c ← Atom (λ p : state, (p, recent (password i) p)) Ret;
    match c with
    | Some c => mret (mkBreachCheckResult (rc_breached c) (rc_count c) true true)
    | None =>
      result ← isBreached (password i);
      note_check (password i) (breached result) (count result) ;;
      (if breached result then
         match riskService with Some assess => assess (breached_context i) ;; mret tt | None => mret tt end
       else mret tt) ;;
      mret (mkBreachCheckResult (breached result) (count result) true false)
    end
  end.
End detector.

(** ** k-anonymity *)
Section anonymity.
Context {coll : Type → Type} `{Mongo coll} {S : Type} `{Outages S} `{!Stored coll S BreachRecord}.
Context (other_number : string → option Z) (sha1_hex : string → string) (rangeFetcher : string → prog (process S) string).
Notation look_up := (look_up sha1_hex).
Notation isBreached := (isBreached other_number sha1_hex rangeFetcher).

(** Two checks that look their suffixes up in the same range. *)
Definition same_range (p p' : string) (r r' : HibpCheckResult) : Prop :=
  ∃ range, r = look_up p range ∧ r' = look_up p' range.

(** Checks are k-anonymous: passwords whose hashes share their first five digits
    cannot be told apart from outside.  Whatever checks run together and however
    they interleave, with the database, the range service and the clock acting
    in between, every state of the world they can reach (what the database holds,
    what the service was sent) is one that checks of any other passwords with
    the same prefixes reach, and only the answers, which look each suffix up
    in the same range, may differ. *)
Theorem hibp_k_anonymity E s w w' passwords passwords' ps' :
  Forall2 (λ p p', prefix_of (sha1_hex p) = prefix_of (sha1_hex p')) passwords passwords' →
  reachable E (w, map (isBreached s) passwords) (w', ps') →
  ∃ qs', reachable E (w, map (isBreached s) passwords') (w', qs') ∧
    length ps' = length qs' ∧
    ∀ i r r', ps' !! i = Some (Ret r) → qs' !! i = Some (Ret r') →
      ∃ p p', passwords !! i = Some p ∧ passwords' !! i = Some p' ∧ same_range p p' r r'.
Proof.
  intros Hp Hr. set (R i r r' := ∃ p p', passwords !! i = Some p ∧ passwords' !! i = Some p' ∧ same_range p p' r r').
  destruct (same_actions_reachable E R w w' (map (isBreached s) passwords) (map (isBreached s) passwords') ps') as (qs' & Hqs & Hl & Hsame).
  - rewrite !length_map. by eapply Forall2_length.
  - intros i p q Hi Hq. rewrite list_lookup_fmap in Hi, Hq. apply fmap_Some in Hi as (x & Hx & ->), Hq as (x' & Hx' & ->).
    pose proof (Forall2_lookup_lr _ _ _ _ _ _ Hp Hx Hx') as Heq. cbn in Heq. unfold Breach.isBreached. rewrite Heq.
    eapply same_actions_bind; [apply same_actions_refl|]. intros range ? <-. cbn. eexists. split; [reflexivity|].
    exists x, x'. split_and!; [done..|]. by exists range.
  - exact Hr.
  - exists qs'. split_and!; [done..|]. intros i r r' Hi Hi'. destruct (Hsame i _ _ Hi Hi') as (b & [= <-] & HR). exact HR.
Qed.
End anonymity.

(** ** What the range service lists *)
Section honest_range.
Context {coll : Type → Type} `{Mongo coll} {S : Type} `{Outages S} `{!Stored coll S BreachRecord}.
Context (other_number : string → option Z) (sha1_hex : string → string) (rangeFetcher : string → prog (process S) string).
Notation state := (process S).
Context (corpus : string → list (string * Z)).
Hypothesis corpus_good : ∀ p, Forall good_row (corpus p).
(** The endpoint answers with the corpus or fails, and leaves the cache alone. *)
Hypothesis fetch_honest : ∀ p q, let '(q', r) := run (rangeFetcher p) q in
  rows (D := BreachRecord) (Process.state q') = rows (Process.state q) ∧
  (r = inr (print_range (corpus p)) ∨ ∃ e, r = inl e).

(** The cache repeats the corpus. *)
Definition coherent_rows (c : coll BreachRecord) : Prop := ∀ d, In d (docs c) → suffixes d = print_range (corpus (hashPrefix d)).
Definition coherent (q : state) : Prop := coherent_rows (rows (Process.state q)).

Lemma run_find_record p q :
  coherent q → ∃ q' r, run (find_record p) q = (q', inr r) ∧ coherent q' ∧
    ∀ d, r = Some d → parseRange other_number (suffixes d) = corpus p.
Proof.
  intros Hq. destruct (run_row_find_one (of_prefix p) q) as (s' & r & Hr & Hrows & Hx). unfold find_record. rewrite run_catch, Hr.
  assert (coherent (q <| Process.state := s' |>)) as Hq' by (unfold coherent; cbn; by rewrite Hrows).
  destruct r as [e|r]; (do 2 eexists; split; [reflexivity|]; split; [exact Hq'|]); [done|]. intros d ->.
  specialize (Hx _ eq_refl). symmetry in Hx. apply find_some in Hx as [Hin Hp].
  apply String.eqb_eq in Hp as <-. rewrite (Hq d Hin). by apply parse_print_range.
Qed.
Lemma run_remember s p q :
  coherent q → ∃ q', run (remember s p (print_range (corpus p))) q = (q', inr tt) ∧ coherent q'.
Proof.
  intros Hq. unfold remember. destruct (useCache s); [|by exists q]. rewrite run_bind, run_date_now.
  destruct (run_on_rows coherent_rows (λ c, match m_find_one (of_prefix p) c with
      | Some _ => (m_update_one (of_prefix p) (stored (print_range (corpus p)) (time q)) c, inr tt)
      | None => insert_row (mkBreachRecord p (print_range (corpus p)) (time q)) c end) q) as (s' & r & Hr & Hc); [|exact Hq|].
  - clear Hq. generalize (time q). intros t c Hc. rewrite m_find_one_law. destruct (List.find (of_prefix p) (docs c)) as [d|] eqn:Hd.
    + intros x. cbn. rewrite m_update_one_law. intros [Hx|(y & Hy & Hp & ->)]%In_alter_first; [by apply Hc|].
      apply String.eqb_eq in Hp. cbn. by rewrite Hp.
    + unfold insert_row. pose proof (m_insert_law row_clash (mkBreachRecord p (print_range (corpus p)) t) c) as Hi.
      destruct (m_insert _ _ c) as [c'|]; [|done]. cbn. destruct Hi as [_ Hi]. intros x [->|Hx]%(inserted_In _ _ _ _ Hi); [done|]. by apply Hc.
  - unfold row_upsert. rewrite run_catch, Hr. destruct r as [e|[]]; eexists; (split; [reflexivity|exact Hc]).
Qed.

Lemma run_fetchRange s p q :
  coherent q → ∃ q' r, run (fetchRange other_number rangeFetcher s p) q = (q', inr r) ∧ coherent q' ∧
    (r = Some (corpus p) ∨ r = None ∧ ∃ q1 q2 e, run (rangeFetcher p) q1 = (q2, inl e)).
Proof.
  intros Hq. assert (∃ q1 r, run (fresh_range other_number s p) q = (q1, inr r) ∧ coherent q1 ∧ (r = Some (corpus p) ∨ r = None))
    as (q1 & r1 & Hr1 & Hq1 & Hr).
  { unfold fresh_range. destruct (useCache s); [|by exists q, None; auto]. destruct (run_find_record p q Hq) as (q1 & r & Hr & Hq1 & Hd).
    rewrite run_bind, Hr. destruct r as [d|]; [|by exists q1, None; auto]. rewrite run_bind, run_date_now.
    destruct (_ <? _); do 2 eexists; (split; [reflexivity|]); (split; [exact Hq1|]); [left|by right]. by rewrite (Hd d eq_refl). }
  unfold fetchRange. rewrite run_bind, Hr1. destruct Hr as [-> | ->]; [by exists q1, (Some (corpus p)); auto|].
  rewrite run_bind, run_catch, run_bind. pose proof (fetch_honest p q1) as Hf.
  destruct (run (rangeFetcher p) q1) as [q2 r2] eqn:Hrun. destruct Hf as [Hrows Hf].
  assert (coherent q2) as Hq2 by (unfold coherent; by rewrite Hrows).
  destruct Hf as [-> | [e ->]].
  - destruct (run_remember s p q2 Hq2) as (q3 & Hr3 & Hq3). rewrite run_bind, Hr3, run_ret.
    do 2 eexists. split; [reflexivity|]. split; [exact Hq3|]. left. by rewrite parse_print_range.
  - rewrite run_ret. unfold stale_range. destruct (useCache s).
    + destruct (run_find_record p q2 Hq2) as (q3 & r & Hr & Hq3 & Hd). rewrite run_bind, Hr. do 2 eexists. split; [reflexivity|].
      split; [exact Hq3|]. destruct r as [d|]; [left; cbn; by rewrite (Hd d eq_refl)|right; split; [done|]; by exists q1, q2, e].
    + do 2 eexists. split; [reflexivity|]. split; [exact Hq2|]. right. split; [done|]. by exists q1, q2, e.
Qed.

(** The count the corpus lists for a password. *)
Definition listed (password : string) : option Z :=
  map_get (js_upper (suffix_of (sha1_hex password))) (corpus (prefix_of (sha1_hex password))).
Lemma find_map_get {V} k (l : list (string * V)) : option_map snd (List.find (λ e, String.eqb (fst e) k) l) = map_get k l.
Proof. induction l as [|[k' v] l IH]; cbn; [done|]. rewrite (String.eqb_sym k' k). by destruct (String.eqb k k'). Qed.
Lemma look_up_corpus password :
  let r := look_up sha1_hex password (Some (corpus (prefix_of (sha1_hex password)))) in
  breached r = bool_decide (is_Some (listed password)) ∧ count r = nullish (listed password) 0.
Proof. cbn. unfold listed. rewrite <- find_map_get. destruct (List.find _ _) as [e|]; done. Qed.

(** A check answers what the breach corpus lists, whichever database commands fail:
    with a cache that repeats the corpus and an endpoint that answers with it or
    fails, a check never throws and leaves such a cache; a password reported
    breached is in the corpus, with its count; and one that is listed is reported,
    unless the endpoint failed and nothing cached was readable, in which case the
    answer is not breached. *)
Theorem hibp_decides s password q :
  coherent q →
  ∃ q' r, run (isBreached other_number sha1_hex rangeFetcher s password) q = (q', inr r) ∧ coherent q' ∧
    (breached r = true → listed password = Some (count r)) ∧
    ((∀ q1 q2 e, run (rangeFetcher (prefix_of (sha1_hex password))) q1 ≠ (q2, inl e)) →
       breached r = bool_decide (is_Some (listed password)) ∧ count r = nullish (listed password) 0).
Proof.
  intros Hq. destruct (run_fetchRange s (prefix_of (sha1_hex password)) q Hq) as (q' & range & Hr & Hq' & Hrange).
  unfold isBreached. rewrite run_bind, Hr. exists q', (look_up sha1_hex password range). split; [done|]. split; [done|].
  destruct Hrange as [-> | [-> (q1 & q2 & e & He)]].
  - destruct (look_up_corpus password) as [Hb Hc]. split; [|done]. rewrite Hb, Hc. intros [n Hn]%bool_decide_eq_true. by rewrite Hn.
  - split; [done|]. intros Hn. by destruct (Hn q1 q2 e).
Qed.
End honest_range.

(** ** What the detector remembers *)
Section remembered.
Context {S : Type} `{!RecentChecks S} (hibp : option (string → prog (process S) HibpCheckResult))
  (riskService : option (RiskContext → prog (process S) RiskAssessment)) (cachedWindowMs : Z).
Notation checkPassword := (checkPassword hibp riskService cachedWindowMs).

(** An answer stands for its window: once a password was checked, another
    check of it within the window answers the same without asking the range service
    or raising a risk event, and so does a failed look-up, which was noted as not
    breached and is now reported as checked. *)
Theorem check_remembered i i' p p1 p2 q isBreached r :
  hibp = Some isBreached → recent cachedWindowMs (password i) p = None →
  run (isBreached (password i)) p = (p1, inr r) →
  run (note_check (password i) (breached r) (count r)) p1 = (p2, inr tt) →
  password i' = password i → recentChecks (Process.state q) = recentChecks (Process.state p2) →
  time q - time p1 < cachedWindowMs →
  (breached r = false → run (checkPassword i) p = (p2, inr (mkBreachCheckResult false (count r) true false))) ∧
  run (checkPassword i') q = (q, inr (mkBreachCheckResult (breached r) (count r) true true)).
Proof.
  intros Hh Hrec Hb Hn Hi Hq Ht. split.
  - intros Hf. unfold Breach.checkPassword. rewrite Hh, run_bind. cbn [run]. rewrite Hrec. rewrite run_bind, Hb.
    rewrite run_bind. rewrite Hf in *. rewrite Hn. done.
  - unfold Breach.checkPassword. rewrite Hh, run_bind. cbn [run]. unfold recent. rewrite Hi, Hq.
    unfold note_check in Hn. cbn in Hn. injection Hn as <-. cbn. rewrite checks_set, map_get_set, String.eqb_refl. cbn.
    by rewrite (proj2 (Z.ltb_lt _ _)) by done.
Qed.
End remembered.
