(* ===== verification/Devices.v ===== *)
(** * Devices and the trust in them

    [packages/core/src/services/session/device.service.ts] and
    [trust.service.ts], with [packages/core/src/middleware/trust-device.middleware.ts],
    which decides whether a second factor can be skipped, and
    [bot.middleware.ts].  The store of trusted devices is an interface. *)

From S2P Require Export Effects.
From Stdlib Require Import Ascii.

(** ** Fingerprints *)
(** [ToInt32], [^], [Math.imul] and [>>> 0]. *)
Definition TWO32 : Z := 2 ^ 32.
Definition to_int32 (n : Z) : Z := let m := n mod TWO32 in if m <? 2 ^ 31 then m else m - TWO32.
Definition js_xor (a b : Z) : Z := to_int32 (Z.lxor (to_int32 a) (to_int32 b)).
Definition imul (a b : Z) : Z := to_int32 (a * b).
Definition FNV_OFFSET : Z := 2166136261.
Definition FNV_PRIME : Z := 16777619.

Record DeviceInfoInput := mkDeviceInfoInput {
  di_userAgent : option string; di_ip : option string; acceptLanguage : option string; xDeviceId : option string }.
Inductive DeviceCategory := mobile | tablet | desktop | bot_device | unknown_device.
#[export] Instance DeviceCategory_eq_dec : EqDecision DeviceCategory.
Proof. solve_decision. Defined.
Record DeviceInfo := mkDeviceInfo { id : string; userAgent : string; os : string; browser : string; category : DeviceCategory }.

(** The loop over the code units. *)
Definition fnv_step (hash unit : Z) : Z := imul (js_xor hash unit) FNV_PRIME.
Definition fnv (units : list Z) : Z := foldl fnv_step FNV_OFFSET units.
Definition fingerprint_source (i : DeviceInfoInput) : string :=
  nullish (di_userAgent i) "" +:+ "|" +:+ nullish (acceptLanguage i) "".
Definition stableFingerprint (i : DeviceInfoInput) : string :=
  if String.eqb (fingerprint_source i) "" then "unknown-device"
  else "dev-" +:+ toString36 (fnv (utf16 (fingerprint_source i)) mod TWO32).

(** The first of the cases a text falls in. *)
Fixpoint first_case {A} (cases : list (list string * A)) (d : A) (s : string) : A :=
  match cases with
  | [] => d
  | (words, a) :: cases => if existsb (λ w, includes w s) words then a else first_case cases d s
  end.
Definition OSES : list (list string * string) :=
  [(["windows"], "windows"); (["mac os x"; "macintosh"], "macos"); (["android"], "android"); (["iphone"; "ios"], "ios");
   (["linux"], "linux"); (["freebsd"], "freebsd")].
Definition BROWSERS : list (list string * string) :=
  [(["edg/"; "edge/"], "edge"); (["opr/"; "opera"], "opera"); (["chrome"], "chrome"); (["safari"], "safari"); (["firefox"], "firefox")].
Definition CATEGORIES : list (list string * DeviceCategory) :=
  [(["bot"; "crawler"; "spider"; "slurp"; "curl"; "wget"; "python-requests"], bot_device);
   (["mobi"; "iphone"; "android"], mobile); (["ipad"; "tablet"], tablet); (["windows"; "macintosh"; "x11"; "linux"], desktop)].
Definition detect (userAgent : string) : string * string * DeviceCategory :=
  let ua := js_lower userAgent in
  (first_case OSES "unknown" ua, first_case BROWSERS "unknown" ua, first_case CATEGORIES unknown_device ua).
Definition describe (i : DeviceInfoInput) : DeviceInfo :=
  let userAgent := nullish (di_userAgent i) "" in
  let '(os, browser, category) := detect userAgent in
  mkDeviceInfo (nullish (xDeviceId i) (stableFingerprint i)) userAgent os browser category.

(** ** Bots *)
Definition BOT_PATTERNS : list string :=
  ["bot"; "crawler"; "spider"; "slurp"; "bingpreview"; "duckduckbot"; "baiduspider"; "yandex"; "applebot"; "facebookexternalhit";
   "gptbot"; "claude"; "curl"; "wget"; "axios"; "python-requests"; "node-fetch"].
Definition isBot (userAgent : option string) : bool :=
  match userAgent with
  | Some ua => negb (String.eqb ua "") && existsb (λ w, includes w (js_lower ua)) BOT_PATTERNS
  | None => false
  end.

(** ** Trust *)
Inductive TrustLevel := trust_none | trust_new | recognized | verified.
#[export] Instance TrustLevel_eq_dec : EqDecision TrustLevel.
Proof. solve_decision. Defined.
Record TrustAssessment := mkTrustAssessment { ta_level : TrustLevel; reason : string; trustedDevices : Z }.
Record TrustDecision := mkTrustDecision { td_assessment : TrustAssessment; skipMfa : bool }.

(** The store, and what it promises: [trusted] says which devices a user trusts. *)
Record TrustStore (W : Type) := mkTrustStore {
  countTrusted : string → option string → prog W Z;
  isTrusted : string → string → prog W bool;
  store_trust : string → string → option Z → prog W ();
  store_revoke : string → string → prog W () }.
Arguments countTrusted {W} _ _ _.
Arguments isTrusted {W} _ _ _.
Arguments store_trust {W} _ _ _ _.
Arguments store_revoke {W} _ _ _.
Record trust_laws {W} (s : TrustStore W) (trusted : W → string → string → bool) : Prop := {
  count_law : ∀ u x w, ∃ n, run (countTrusted s u x) w = (w, inr n);
  trusted_law : ∀ u d w, run (isTrusted s u d) w = (w, inr (trusted w u d));
  trust_law : ∀ u d ttl w, ∃ w', run (store_trust s u d ttl) w = (w', inr tt) ∧
    ∀ u' d', trusted w' u' d' = (String.eqb u' u && String.eqb d' d) || trusted w u' d';
  revoke_law : ∀ u d w, ∃ w', run (store_revoke s u d) w = (w', inr tt) ∧
    ∀ u' d', trusted w' u' d' = negb (String.eqb u' u && String.eqb d' d) && trusted w u' d';
}.

Section trust.
Context {W : Type} (s : TrustStore W).
Definition trust_assess (userId : string) (device : DeviceInfo) : prog W TrustAssessment :=
  if bool_decide (category device = bot_device) then mret (mkTrustAssessment trust_none "bot" 0)
  else
    trusted ← isTrusted s userId (id device);
    if (trusted : bool) then mret (mkTrustAssessment recognized "known-device" 1)
    else
      count ← countTrusted s userId None;
      if count =? 0 then mret (mkTrustAssessment trust_new "first-device" 0)
      else mret (mkTrustAssessment trust_new "unknown-device" count).
Definition skips (a : TrustAssessment) (d : DeviceInfo) : bool :=
  (bool_decide (ta_level a = recognized) || bool_decide (ta_level a = verified)) && negb (bool_decide (category d = bot_device)).
(** [TrustDeviceMiddleware.assess], [markTrusted] and [revoke]. *)
Definition trust_device (userId : string) (userAgent xDeviceId : option string) : prog W TrustDecision :=
  let device := describe (mkDeviceInfoInput userAgent None None xDeviceId) in
  a ← trust_assess userId device;
  mret (mkTrustDecision a (skips a device)).
Definition markTrusted (userId deviceId : string) (ttlMs : option Z) : prog W () := store_trust s userId deviceId ttlMs.
Definition revoke (userId deviceId : string) : prog W () := store_revoke s userId deviceId.
End trust.

(** ** What a fingerprint tells apart *)
Lemma to_int32_mod n : to_int32 n mod TWO32 = n mod TWO32.
Proof.
  unfold to_int32. destruct (_ <? _); [by rewrite Zmod_mod|].
  rewrite Zminus_mod, Z_mod_same_full, Z.sub_0_r, !Zmod_mod. done.
Qed.
Lemma lxor_mod a b : Z.lxor a b mod TWO32 = Z.lxor (a mod TWO32) (b mod TWO32).
Proof.
  unfold TWO32. apply Z.bits_inj'. intros i Hi. rewrite Z.lxor_spec.
  destruct (Z.lt_ge_cases i 32).
  - by rewrite !Z.mod_pow2_bits_low, Z.lxor_spec by lia.
  - by rewrite !Z.mod_pow2_bits_high by lia.
Qed.
Lemma fnv_step_mod h c :
  fnv_step h c mod TWO32 = (Z.lxor (h mod TWO32) (c mod TWO32) * FNV_PRIME) mod TWO32.
Proof.
  unfold fnv_step, imul, js_xor.
  by rewrite to_int32_mod, <- Zmult_mod_idemp_l, to_int32_mod, lxor_mod, !to_int32_mod.
Qed.
Definition FNV_INVERSE : Z := 899433627.
Lemma prime_injective x y :
  0 <= x < TWO32 → 0 <= y < TWO32 → (x * FNV_PRIME) mod TWO32 = (y * FNV_PRIME) mod TWO32 → x = y.
Proof.
  assert (∀ x, 0 <= x < TWO32 → ((x * FNV_PRIME) mod TWO32 * FNV_INVERSE) mod TWO32 = x) as Hinv.
  { intros z Hz. rewrite Zmult_mod_idemp_l, <- Z.mul_assoc, <- Zmult_mod_idemp_r.
    change ((FNV_PRIME * FNV_INVERSE) mod TWO32) with 1. rewrite Z.mul_1_r. by apply Z.mod_small. }
  intros Hx Hy Heq. rewrite <- (Hinv x Hx), <- (Hinv y Hy), Heq. done.
Qed.

Lemma u32_bound n : 0 <= n mod TWO32 < TWO32.
Proof. by apply Z.mod_pos_bound. Qed.
Lemma lxor_bound a b : 0 <= a < TWO32 → 0 <= b < TWO32 → 0 <= Z.lxor a b < TWO32.
Proof.
  intros Ha Hb. replace (Z.lxor a b) with (Z.lxor a b mod TWO32); [apply u32_bound|].
  by rewrite lxor_mod, !Z.mod_small.
Qed.
Lemma fnv_step_injective h h' c c' :
  0 <= c < TWO32 → 0 <= c' < TWO32 → fnv_step h c mod TWO32 = fnv_step h' c' mod TWO32 →
  Z.lxor (h mod TWO32) c = Z.lxor (h' mod TWO32) c'.
Proof.
  intros Hc Hc'. rewrite !fnv_step_mod, (Z.mod_small c), (Z.mod_small c') by done.
  apply prime_injective; apply lxor_bound; (done || apply u32_bound).
Qed.
Lemma lxor_cancel_r a b c : Z.lxor a c = Z.lxor b c → a = b.
Proof. intros H. by rewrite <- (Z.lxor_0_r a), <- (Z.lxor_nilpotent c), <- Z.lxor_assoc, H, Z.lxor_assoc, Z.lxor_nilpotent, Z.lxor_0_r. Qed.
Lemma fnv_fold_injective l h h' :
  Forall (λ c, 0 <= c < TWO32) l → foldl fnv_step h l mod TWO32 = foldl fnv_step h' l mod TWO32 → h mod TWO32 = h' mod TWO32.
Proof.
  revert h h'. induction l as [|c l IH]; intros h h'; [done|]. intros [Hc Hl]%Forall_cons Heq.
  apply IH in Heq; [|done]. apply fnv_step_injective in Heq; [|done..]. by apply lxor_cancel_r in Heq.
Qed.

(** Base 36 is read back. *)
Definition digit36_value (c : ascii) : Z := let k := Z.of_nat (nat_of_ascii c) in if k <? 58 then k - 48 else k - 87.
Fixpoint value36 (n : Z) (s : string) : Z :=
  match s with EmptyString => n | String c s => value36 (n * 36 + digit36_value c) s end.
Lemma value36_digit k : 0 <= k < 36 → digit36_value (nullish_char (String.get (Z.to_nat k) DIGITS36)) = k.
Proof.
  assert (∀ n : nat, (n < 36)%nat → digit36_value (nullish_char (String.get n DIGITS36)) = Z.of_nat n) as Hn
    by (intros n Hn; do 36 (destruct n as [|n]; [reflexivity|]); lia).
  intros Hk. rewrite Hn by lia. lia.
Qed.
Lemma value36_digits fuel n acc : 0 <= n < 36 ^ Z.of_nat fuel → value36 0 (digits36 fuel n acc) = value36 n acc.
Proof.
  revert n acc. induction fuel as [|fuel IH]; intros n acc Hn; [replace n with 0 by lia; done|].
  cbn [digits36]. destruct (Z.ltb_spec n 36) as [Hlt|Hge].
  - cbn [value36]. rewrite value36_digit by (apply Z.mod_pos_bound; lia). by rewrite Z.mod_small by lia.
  - rewrite Nat2Z.inj_succ, Z.pow_succ_r in Hn by lia. rewrite IH by (split; [apply Z.div_pos|apply Z.div_lt_upper_bound]; lia).
    cbn [value36]. rewrite value36_digit by (apply Z.mod_pos_bound; lia). f_equal. pose proof (Z.div_mod n 36). lia.
Qed.
Lemma toString36_injective a b : 0 <= a → 0 <= b → toString36 a = toString36 b → a = b.
Proof.
  assert (∀ n, 0 <= n → value36 0 (toString36 n) = n) as Hv.
  { intros n Hn. unfold toString36. rewrite value36_digits; [done|]. split; [done|].
    destruct (Z.eq_dec n 0) as [->|Hz]; [done|]. pose proof (Z.log2_spec n ltac:(lia)) as [_ Hlt].
    eapply Z.lt_le_trans; [exact Hlt|]. rewrite Nat2Z.inj_succ, Z2Nat.id by apply Z.log2_nonneg.
    apply Z.pow_le_mono_l. lia. }
  intros Ha Hb Heq. by rewrite <- (Hv a Ha), Heq, Hv.
Qed.

(** A fingerprint tells one change from another: the hash of a text is a 32-bit
    number, shown in base 36, and two user agents and languages whose texts differ
    in exactly one code unit always get different fingerprints; the name for an
    unknown device is never given, since the separator is part of the text. *)
Theorem fingerprint_tells_one_change i j l c c' r :
  utf16 (fingerprint_source i) = l ++ c :: r → utf16 (fingerprint_source j) = l ++ c' :: r →
  Forall (λ u, 0 <= u < TWO32) (c :: c' :: r) → c ≠ c' →
  stableFingerprint i ≠ stableFingerprint j ∧
  ∃ h, 0 <= h < TWO32 ∧ stableFingerprint i = "dev-" +:+ toString36 h.
Proof.
  intros Hi Hj [Hc [Hc' Hr]%Forall_cons]%Forall_cons Hne.
  assert (∀ x, stableFingerprint x = "dev-" +:+ toString36 (fnv (utf16 (fingerprint_source x)) mod TWO32)) as Hs.
  { intros x. unfold stableFingerprint. destruct (String.eqb_spec (fingerprint_source x) "") as [He|_]; [|done].
    unfold fingerprint_source in He. by destruct (nullish (di_userAgent x) ""). }
  split; [|eexists; split; [apply u32_bound|apply Hs]]. rewrite !Hs, Hi, Hj. intros [= Heq].
  apply toString36_injective in Heq; [|apply u32_bound..]. unfold fnv in Heq. rewrite !foldl_app in Heq. cbn [foldl] in Heq.
  apply fnv_fold_injective in Heq; [|done]. apply fnv_step_injective in Heq; [|done..].
  apply Hne. rewrite (Z.lxor_comm _ c), (Z.lxor_comm _ c') in Heq. by apply lxor_cancel_r in Heq.
Qed.

(** A second factor is skipped exactly for a trusted device identifier that is
    not a bot's: over any lawful store the decision never fails, changes nothing,
    and says skip just when the user agent is no bot's and the user trusts the
    identifier, which is the one the request brings, or else the fingerprint of the
    user agent alone; so every client with the user agent of a trusted device is let through. *)
Theorem skip_mfa_iff {W} (s : TrustStore W) trusted u userAgent x w :
  trust_laws s trusted →
  let d := describe (mkDeviceInfoInput userAgent None None x) in
  ∃ r, run (trust_device s u userAgent x) w = (w, inr r) ∧
    (skipMfa r = true ↔ category d ≠ bot_device ∧ trusted w u (nullish x (stableFingerprint (mkDeviceInfoInput userAgent None None None))) = true).
Proof.
  intros Hl d. assert (id d = nullish x (stableFingerprint (mkDeviceInfoInput userAgent None None None))) as Hid
    by (unfold d, describe; destruct (detect _) as [[? ?] ?]; by destruct x).
  rewrite <- Hid. unfold trust_device. fold d. unfold trust_assess.
  destruct (bool_decide_reflect (category d = bot_device)) as [Hb|Hb].
  { rewrite run_bind, run_ret. eexists. split; [reflexivity|]. cbn. split; [done|]. by intros [? _]. }
  rewrite !run_bind, (trusted_law _ _ Hl u (id d) w). destruct (trusted w u (id d)).
  - eexists. split; [reflexivity|]. cbn [skipMfa]. unfold skips. cbn [ta_level].
    rewrite (bool_decide_false (category d = bot_device)) by done. split; [by intros _|done].
  - destruct (count_law _ _ Hl u None w) as [n Hn]. rewrite run_bind, Hn.
    destruct (n =? 0); (eexists; split; [reflexivity|]; cbn; unfold skips; cbn; split; [done|by intros [_ ?]]).
Qed.
