(* ===== verification/Sentinels.v ===== *)
(** * Decoys and captchas

    [packages/core/src/services/security/decoy.service.ts], the decoy users whose
    logins raise alarms, and [captcha.service.ts], with the verifiers of the
    captcha providers over [fetch]. *)

From S2P Require Export Process.
From S2P Require Import JsNumber.

(** ** Decoys *)
Record DecoyUserDoc := mkDecoyUserDoc {
  du_id : string; du_tenantId : string; handle : string; du_passwordHash : option string; description : option string;
  isActive : bool; hitCount : Z; lastAttemptAt : option Z; lastAttemptIp : option string; du_createdAt : Z }.
#[export] Instance settable_DecoyUserDoc : Settable DecoyUserDoc := {| eta_expand := λ d, mkDecoyUserDoc (du_id d) (du_tenantId d)
  (handle d) (du_passwordHash d) (description d) (isActive d) (hitCount d) (lastAttemptAt d) (lastAttemptIp d) (du_createdAt d) |}.
(** A handle is unique within a tenant. *)
Definition decoy_clash (n d : DecoyUserDoc) : bool :=
  String.eqb (du_id n) (du_id d) || String.eqb (du_tenantId n) (du_tenantId d) && String.eqb (handle n) (handle d).
Record DecoyProbeResult := mkDecoyProbeResult { isDecoy : bool; decoyId : option string; pr_hitCount : option Z }.
Record DecoyEntry := mkDecoyEntry { de_tenantId : string; de_ip : option string; decoyHandle : string; de_hitCount : Z }.
Record DecoySummary := mkDecoySummary {
  ds_id : string; ds_handle : string; ds_description : option string; ds_hitCount : Z; ds_lastAttemptAt : option Z; ds_lastAttemptIp : option string }.

Section decoys.
Context {coll : Type → Type} `{Mongo coll} {S : Type} `{Outages S} `{!Stored coll S DecoyUserDoc}.
Notation state := (process S).
Context (audit : option (DecoyEntry → prog state ())) (newObjectId : nat → string) (random_base36 : nat → string).

Definition is_target (tenantId h : string) (d : DecoyUserDoc) : bool :=
  String.eqb (du_tenantId d) tenantId && String.eqb (handle d) h && isActive d.
Definition has_id (i : string) (d : DecoyUserDoc) : bool := String.eqb (du_id d) i.
Definition hit (t : Z) (ip : option string) (d : DecoyUserDoc) : DecoyUserDoc :=
  d <| hitCount ::= Z.add 1 |> <| lastAttemptAt := Some t |> <| lastAttemptIp := ip |>.
Definition alarming (n : Z) : bool := (n =? 1) || (n mod 10 =? 0).
Definition probe (tenantId h : string) (ip : option string) : prog state DecoyProbeResult :=
  decoy ← row_find_one (is_target tenantId h);
  match decoy with
  | None => mret (mkDecoyProbeResult false None None)
  | Some decoy =>
    t ← date_now;
    updated ← row_find_and_update (has_id (du_id decoy)) (hit t ip);
    let n := nullish (option_map hitCount updated) (hitCount decoy + 1) in
    (if alarming n then
       match audit with Some log => log (mkDecoyEntry tenantId ip h n) | None => mret tt end
     else mret tt) ;;
    mret (mkDecoyProbeResult true (Some (du_id decoy)) (Some n))
  end.
Definition createDecoy (tenantId h : string) (descr passwordHash : option string) : prog state string :=
  hash ← (match passwordHash with
          | Some x => mret x
          | None => t ← date_now; random (λ i, "decoy-" +:+ js_String t +:+ "-" +:+ random_base36 i)
          end);
  i ← random newObjectId;
  t ← date_now;
  row_create (mkDecoyUserDoc i tenantId h (Some hash) descr true 0 None None t) ;;
  mret i.
Definition summary (d : DecoyUserDoc) : DecoySummary :=
  mkDecoySummary (du_id d) (handle d) (description d) (hitCount d) (lastAttemptAt d) (lastAttemptIp d).
Definition listDecoys (tenantId : string) : prog state (list DecoySummary) :=
  l ← row_find_sorted (λ d, - du_createdAt d) (λ d, String.eqb (du_tenantId d) tenantId && isActive d);
  mret (map summary l).
Definition deactivate (tenantId decoyId : string) : prog state () :=
  row_update_one (λ d, has_id decoyId d && String.eqb (du_tenantId d) tenantId) (λ d, d <| isActive := false |>).

(** ** Concurrent probes *)
(** Decoy [i] exists; whether its count has yet to reach [k]. *)
Definition present (i : string) (c : coll DecoyUserDoc) : Prop := ∃ d, List.find (has_id i) (docs c) = Some d.
Definition to_reach (i : string) (k : Z) (c : coll DecoyUserDoc) : nat :=
  match List.find (has_id i) (docs c) with Some d => if hitCount d <? k then 1 else 0 | None => 0 end.
Definition counted (i : string) (k : Z) (r : DecoyProbeResult) : bool :=
  bool_decide (decoyId r = Some i) && bool_decide (pr_hitCount r = Some k).

Lemma find_hit i j t ip l :
  List.find (has_id i) (alter_first (has_id j) (hit t ip) l) =
  (if String.eqb i j then option_map (hit t ip) else λ o, o) (List.find (has_id i) l).
Proof.
  induction l as [|d l IH]; cbn; [by destruct (String.eqb i j)|]. unfold has_id in *.
  destruct (String.eqb_spec (du_id d) j) as [Hj|Hj]; cbn; destruct (String.eqb_spec (du_id d) i) as [Hi|Hi].
  - assert (i = j) as -> by congruence. by rewrite String.eqb_refl.
  - destruct (String.eqb_spec i j) as [->|_]; done.
  - destruct (String.eqb_spec i j) as [->|_]; done.
  - exact IH.
Qed.

Lemma pays_hit i k j t ip n0 :
  pays (λ p : state, present i (rows (Process.state p))) (λ p, to_reach i k (rows (Process.state p))) 0
    (row_find_and_update (has_id j) (hit t ip))
    (λ r m, match r with
            | inr u => i = j → pr_hitCount (mkDecoyProbeResult true None (Some (nullish (option_map hitCount u) n0))) = Some k → (1 ≤ m)%nat
            | inl _ => True end).
Proof.
  apply pays_rows; [|done]. intros c [d Hd]. cbn [fst snd]. rewrite m_find_one_law. unfold present, to_reach.
  rewrite m_update_one_law, find_hit, Hd. destruct (String.eqb_spec i j) as [<-|Hij]; cbn.
  - split; [by eexists|]. rewrite Hd. cbn. destruct (Z.ltb_spec (hitCount d) k), (Z.ltb_spec (1 + hitCount d) k).
    + exists 0%nat. split; [lia|]. intros _ [= Hk]. lia.
    + exists 1%nat. split; [lia|]. intros _ _. lia.
    + exists 0%nat. split; [lia|]. intros _ [= Hk]. lia.
    + exists 0%nat. split; [lia|]. intros _ [= Hk]. lia.
  - split; [by exists d|]. exists 0%nat. split; [lia|]. done.
Qed.

(** A decoy's hits are counted one by one: however many probes of decoys run
    concurrently, whatever commands fail, and with anything in between that keeps
    the decoy and does not lower its count, at most one probe is told that
    it was the k-th hit of a decoy, and none when the count had already reached k; so
    the alarm for the first hit, and for each tenth, is raised at most once. *)
Theorem decoy_hit_counted_once i k (E : state → state → Prop) p p' targets ps' :
  (∀ q q', E q q' → present i (rows (Process.state q)) →
     present i (rows (Process.state q')) ∧ (to_reach i k (rows (Process.state q')) ≤ to_reach i k (rows (Process.state q)))%nat) →
  (∀ log e, audit = Some log →
     harmless (λ p : state, present i (rows (Process.state p))) (λ p, to_reach i k (rows (Process.state p))) (log e)) →
  present i (rows (Process.state p)) →
  reachable E (p, map (λ '(t, h, ip), probe t h ip) targets) (p', ps') →
  (winners (counted i k) ps' ≤ to_reach i k (rows (Process.state p)))%nat.
Proof.
  intros HE Hlog Hp Hr.
  apply (winners_bounded (λ p : state, present i (rows (Process.state p))) (λ p, to_reach i k (rows (Process.state p))) E (counted i k) HE
    p p' (map (λ '(t, h, ip), probe t h ip) targets) ps' Hp); [|exact Hr].
  apply List.Forall_forall. intros q ([[t h] ip] & <- & _)%in_map_iff. unfold probe. apply pays_bind.
  eapply pays_mono; [apply pays_find_one|]. intros [e|[d|]] m ->; [done| |by intros ?].
  apply pays_date_now_bind. intros now. apply pays_bind. eapply pays_mono; [apply (pays_hit i k _ _ _ (hitCount d + 1))|].
  intros [e|u] m Hm; [done|]. set (n := nullish _ _) in *.
  apply pays_harmless_bind; [destruct (alarming n); [destruct audit as [log|] eqn:Ha; [by apply Hlog|]|]; apply harmless_ret|done|].
  intros m' [] Hle. cbn. unfold counted. cbn. intros [Hi Hk]%andb_true_iff. apply bool_decide_eq_true in Hi, Hk.
  injection Hi as Hi. specialize (Hm (eq_sym Hi) Hk). lia.
Qed.
End decoys.

(** ** Captchas *)
Inductive CaptchaProvider := hcaptcha | turnstile | recaptcha.
Record CaptchaVerification := mkCaptchaVerification {
  success : bool; cv_provider : CaptchaProvider; cv_score : option Z; cv_error : option string; notConfigured : bool }.

Section captcha.
Context {W : Type} (encodeURIComponent : string → string).
(** [fetch] of a form, and the JSON of the response. *)
Context (fetch_json : string → string → prog W json).
Notation verifier := (string → option string → prog W bool).

Definition siteverify (provider : CaptchaProvider) : string :=
  match provider with
  | hcaptcha => "https://hcaptcha.com/siteverify"
  | turnstile => "https://challenges.cloudflare.com/turnstile/v0/siteverify"
  | recaptcha => "https://www.google.com/recaptcha/api/siteverify"
  end.
(** [json.success === true], which throws on [null]. *)
Definition success_of (j : json) : exn + bool :=
  match j with
  | JNull => inl (JsError "Cannot read properties of null (reading 'success')")
  | JObj l => inr (match List.find (λ kv, String.eqb (fst kv) "success") (rev l) with Some (_, JBool b) => b | _ => false end)
  | _ => inr false
  end.
Definition createCaptchaVerifier (provider : CaptchaProvider) : verifier := λ token secretKey,
  if negb (truthy secretKey) then mret false
  else
    try_catch
      (j ← fetch_json (siteverify provider)
             ("secret=" +:+ encodeURIComponent (nullish secretKey "") +:+ "&response=" +:+ encodeURIComponent token);
       match success_of j with inr b => mret b | inl e => Throw e end)
      (λ _, mret false).

Record CaptchaService := mkCaptchaService {
  provider : CaptchaProvider; secretKey : option string; verifyToken : verifier; minScore : num }.
Definition new_captcha (provider : CaptchaProvider) (secretKey : option string) (verify : option verifier) (minimum : option num) :
    CaptchaService :=
  mkCaptchaService provider secretKey
    (nullish verify (if truthy secretKey then createCaptchaVerifier provider else λ _ _, mret false)) (nullish minimum (lit 50)).
Definition verify_captcha (s : CaptchaService) (token : option string) : prog W CaptchaVerification :=
  if negb (truthy (secretKey s)) then mret (mkCaptchaVerification false (provider s) None None true)
  else if negb (truthy token) then mret (mkCaptchaVerification false (provider s) None (Some "missing token") false)
  else
    try_catch
      (ok ← verifyToken s (nullish token "") (secretKey s);
       mret (mkCaptchaVerification ok (provider s) (Some (if (ok : bool) then 1 else 0)) None false))
      (λ e, mret (mkCaptchaVerification false (provider s) None (Some (err_message e)) false)).

(** Captchas fail closed: a verification never throws, and with the verifier of
    a provider it succeeds only when a secret and a token are there and the
    provider's answer to exactly them says so; a network failure, an answer that
    is no object, and a missing secret are failures.  The minimum score plays no
    part. *)
Theorem captcha_fails_closed p key minimum token w :
  ∃ w' r, run (verify_captcha (new_captcha p key None minimum) token) w = (w', inr r) ∧
    (success r = true →
       ∃ k t w1 w2 l, key = Some k ∧ token = Some t ∧ k ≠ "" ∧ t ≠ "" ∧
         run (fetch_json (siteverify p) ("secret=" +:+ encodeURIComponent k +:+ "&response=" +:+ encodeURIComponent t)) w1 = (w2, inr (JObj l)) ∧
         success_of (JObj l) = inr true).
Proof.
  unfold verify_captcha, new_captcha. cbn [secretKey verifyToken provider nullish].
  destruct (truthy key) eqn:Hk; cbn [negb]; [|by do 2 eexists]. destruct (truthy token) eqn:Ht; cbn [negb]; [|by do 2 eexists].
  apply truthy_some in Hk as (k & -> & Hk), Ht as (t & -> & Ht). cbn [nullish]. unfold createCaptchaVerifier. rewrite (truthy_nonempty k Hk).
  cbn [negb nullish]. rewrite run_catch, run_bind, run_catch, run_bind.
  destruct (run (fetch_json _ _) w) as [w1 [e|j]] eqn:Hj; [by do 2 eexists|].
  destruct (success_of j) as [e|b] eqn:Hs; [by do 2 eexists|]. do 2 eexists. split; [reflexivity|]. cbn. intros ->.
  destruct j as [| | | | |l]; try done. exists k, t, w, w1, l. done.
Qed.
End captcha.
