(* ===== verification/Delivery.v ===== *)
(** * Delivery of one-time codes

    [packages/core/src/adapters/otp-provider.ts], the retry and circuit-breaker
    wrappers of a provider, and [otp-delivery-manager.ts], which tries the wrapped
    providers of a channel in order.  A transport is a program of its own; the
    breakers of the providers live side by side in the state of the process. *)

From S2P Require Export Process.
From S2P Require Import JsMap.

Inductive ProviderChannel := email_channel | sms_channel | both_channels.
Record DeliveryContext := mkDeliveryContext {
  dc_tenantId : option string; dc_applicationId : option string; dc_userId : option string; dc_purpose : option string }.
Record OtpSendParams := mkOtpSendParams { to : string; code : string; context : option DeliveryContext }.
Record DeliveryResult := mkDeliveryResult {
  ok : bool; accepted : option bool; providerId : string; latencyMs : Z; error : option string; statusCode : option Z }.
#[export] Instance settable_DeliveryResult : Settable DeliveryResult := {| eta_expand := λ r,
  mkDeliveryResult (ok r) (accepted r) (providerId r) (latencyMs r) (error r) (statusCode r) |}.
Record HealthStatus := mkHealthStatus { h_ok : bool; h_providerId : string; h_detail : option string; h_latencyMs : option Z }.
(** A result that is not one. *)
Definition failed_result (id : string) (latency : Z) (message : option string) : DeliveryResult :=
  mkDeliveryResult false None id latency message None.

(** ** The circuit breaker *)
Inductive CircuitState := closed | open | half_open.
#[export] Instance CircuitState_eq_dec : EqDecision CircuitState.
Proof. solve_decision. Defined.
(** The variables of one [withCircuitBreaker]. *)
Record Breaker := mkBreaker {
  circuit : CircuitState; consecutiveFailures : Z; consecutiveSuccesses : Z; openedAt : Z }.
#[export] Instance settable_Breaker : Settable Breaker := {| eta_expand := λ b,
  mkBreaker (circuit b) (consecutiveFailures b) (consecutiveSuccesses b) (openedAt b) |}.
Definition new_breaker : Breaker := mkBreaker closed 0 0 0.
Record CircuitBreakerOptions := mkCircuitBreakerOptions { failureThreshold : Z; successThreshold : Z; cooldownMs : Z }.
Definition breaker_options (failures successes cooldown : option Z) : CircuitBreakerOptions :=
  mkCircuitBreakerOptions (nullish failures 5) (nullish successes 2) (nullish cooldown 30000).

Definition is_circuit (s : CircuitState) (b : Breaker) : bool :=
  match s, circuit b with closed, closed | open, open | half_open, half_open => true | _, _ => false end.
Definition trip (now : Z) (b : Breaker) : Breaker := b <| openedAt := now |> <| circuit := open |>.
Definition recordFailure (o : CircuitBreakerOptions) (now : Z) (b : Breaker) : Breaker :=
  let b := b <| consecutiveFailures ::= Z.add 1 |> <| consecutiveSuccesses := 0 |> in
  let b := if is_circuit closed b && (failureThreshold o <=? consecutiveFailures b) then trip now b else b in
  if is_circuit half_open b && (1 <=? consecutiveFailures b) then trip now b else b.
Definition recordSuccess (o : CircuitBreakerOptions) (b : Breaker) : Breaker :=
  let b := b <| consecutiveSuccesses ::= Z.add 1 |> in
  let b := if is_circuit half_open b && (successThreshold o <=? consecutiveSuccesses b)
           then b <| consecutiveFailures := 0 |> <| circuit := closed |> else b in
  if is_circuit open b then b <| circuit := half_open |> else b.
Definition isOpen (o : CircuitBreakerOptions) (now : Z) (b : Breaker) : Breaker * bool :=
  if is_circuit closed b || is_circuit half_open b then (b, false)
  else if cooldownMs o <=? now - openedAt b then (b <| consecutiveFailures := 0 |> <| circuit := half_open |>, false)
  else (b, true).

(** The breakers and the state of the transports. *)
Record DeliveryState (T : Type) := mkDeliveryState { breakers : list Breaker; transport : T }.
Arguments mkDeliveryState {T} _ _.
Arguments breakers {T} _.
Arguments transport {T} _.
#[export] Instance settable_DeliveryState T : Settable (DeliveryState T) := {| eta_expand := λ s,
  mkDeliveryState (breakers s) (transport s) |}.

Section delivery.
Context {T : Type} (is_abort : exn → bool) (jittered : nat → Z → Z → Z).
Notation state := (process (DeliveryState T)).
Notation sender := (OtpSendParams → prog state DeliveryResult).

Record OtpProvider := mkOtpProvider {
  id : string; channel : ProviderChannel; sendEmail : option sender; sendSms : option sender; healthCheck : prog state HealthStatus }.

Definition breaker_of (i : nat) (p : state) : Breaker := nullish (breakers (Process.state p) !! i) new_breaker.
Definition on_breaker {A} (i : nat) (f : Z → Breaker → Breaker * A) : prog state A :=
  Atom (λ p : state, let '(b, a) := f (time p) (breaker_of i p) in
    (p <| Process.state ::= λ s, s <| breakers ::= <[i := b]> |> |>, a)) Ret.
Definition short_circuited (provider : string) (latency : Z) : DeliveryResult :=
  mkDeliveryResult false (Some false) provider latency (Some "Circuit open — delivery short-circuited") (Some 503).
(** [guard]. *)
Definition guard (o : CircuitBreakerOptions) (i : nat) (provider : string) (send : sender) : sender := λ params,
  started ← date_now;
  refused ← on_breaker i (isOpen o);
  if (refused : bool) then
    t ← date_now; mret (short_circuited provider (t - started))
  else
    r ← try_catch (res ← send params; mret (inr res)) (λ e, mret (inl e));
    match r with
    | inr res =>
      t ← date_now;
      on_breaker i (λ now b, (if ok res then recordSuccess o b else recordFailure o now b, tt)) ;;
      mret (res <| latencyMs := t - started |>)
    | inl e =>
      on_breaker i (λ now b, (recordFailure o now b, tt)) ;;
      t ← date_now;
      mret (failed_result provider (t - started) (Some (err_message e)))
    end.
Definition withCircuitBreaker (o : CircuitBreakerOptions) (i : nat) (p : OtpProvider) : OtpProvider :=
  mkOtpProvider (id p) (channel p) (guard o i (id p) <$> sendEmail p) (guard o i (id p) <$> sendSms p) (healthCheck p).

(** ** Retries *)
Record RetryOptions := mkRetryOptions {
  attempts : Z; baseDelayMs : Z; maxDelayMs : Z; jitterMs : Z; isRetryable : DeliveryResult → bool; shouldAbort : prog state bool }.
Definition defaultRetryable (r : DeliveryResult) : bool :=
  if ok r then false
  else
    let code := nullish (statusCode r) 0 in
    negb ((400 <=? code) && (code <? 500) && negb (code =? 429)).
Definition retry_options (n base most jitter : option Z) : RetryOptions :=
  mkRetryOptions (nullish n 3) (nullish base 250) (nullish most 4000) (nullish jitter 0) defaultRetryable (mret false).

(** [backoff]: [jittered] is the rounded sum with a random jitter. *)
Definition backoff (o : RetryOptions) (attempt : Z) : prog state Z :=
  let exp := Z.min (baseDelayMs o * 2 ^ (attempt - 1)) (maxDelayMs o) in
  if 0 <? jitterMs o then random (λ i, Z.max 0 (jittered i exp (jitterMs o))) else mret exp.
Definition sleep (ms : Z) : prog state () := Atom (λ p : state, (p <| time ::= Z.add (Z.max 0 ms) |>, tt)) Ret.
(** The loop of [run]; [left] attempts remain. *)
Fixpoint retry_loop (o : RetryOptions) (provider : string) (send : sender) (params : OtpSendParams) (left : nat)
    (last : option DeliveryResult) : prog state DeliveryResult :=
  match left with
  | O => mret (nullish last (failed_result provider 0 (Some "Delivery failed after retries")))
  | S rest =>
    let attempt := attempts o - Z.of_nat rest in
    aborted ← shouldAbort o;
    if (aborted : bool) then mret (failed_result provider 0 (Some "Retry aborted"))
    else
      started ← date_now;
      r ← try_catch (res ← send params; t ← date_now; mret (inr (res <| latencyMs := t - started |>)))
                    (λ e, t ← date_now; mret (inl (e, failed_result provider (t - started) (Some (err_message e)))));
      let '(final, res) := match r with
                           | inr res => (ok res || (attempts o <=? attempt) || negb (isRetryable o res), res)
                           | inl (e, res) => ((attempts o <=? attempt) || is_abort e, res)
                           end in
      if (final : bool) then mret res
      else
        (if attempt <? attempts o then d ← backoff o attempt; sleep d else mret tt) ;;
        retry_loop o provider send params rest (Some res)
  end.
Definition retrying (o : RetryOptions) (provider : string) (send : sender) : sender := λ params,
  retry_loop o provider send params (Z.to_nat (attempts o)) None.
Definition withRetry (o : RetryOptions) (p : OtpProvider) : OtpProvider :=
  mkOtpProvider (id p) (channel p) (retrying o (id p) <$> sendEmail p) (retrying o (id p) <$> sendSms p) (healthCheck p).

(** ** The manager *)
Inductive send_method := by_email | by_sms.
Definition send_of (m : send_method) (p : OtpProvider) : option sender :=
  match m with by_email => sendEmail p | by_sms => sendSms p end.
Definition channel_name (m : send_method) : string := match m with by_email => "email" | by_sms => "sms" end.
Record OtpDeliveryManager := mkOtpDeliveryManager { emailProviders : list OtpProvider; smsProviders : list OtpProvider }.
(** [wrap]; [first] is the number of the first breaker. *)
Definition wrap (r : RetryOptions) (c : CircuitBreakerOptions) (first : nat) (l : list OtpProvider) : list OtpProvider :=
  imap (λ i p, withCircuitBreaker c (first + i) (withRetry r p)) l.
Definition new_manager (r : RetryOptions) (c : CircuitBreakerOptions) (emails texts : list OtpProvider) : OtpDeliveryManager :=
  mkOtpDeliveryManager (wrap r c 0 emails) (wrap r c (length emails) texts).
Definition new_breakers (emails texts : list OtpProvider) : list Breaker := replicate (length emails + length texts) new_breaker.
Definition providers (m : send_method) (d : OtpDeliveryManager) : list OtpProvider :=
  match m with by_email => emailProviders d | by_sms => smsProviders d end.
Definition hasChannel (m : send_method) (d : OtpDeliveryManager) : bool := (0 <? length (providers m d))%nat.

Definition unsupported (p : OtpProvider) : DeliveryResult :=
  failed_result (id p) 0 (Some "provider does not support this channel").
Definition delivery_failed (errors : list DeliveryResult) : exn :=
  JsError ("OTP delivery failed: " +:+
    String.concat "; " (map (λ e, providerId e +:+ ": " +:+ nullish (error e) "rejected") errors)).
Fixpoint dispatch_loop (chain : list OtpProvider) (m : send_method) (params : OtpSendParams) (errors : list DeliveryResult) :
    prog state () :=
  match chain with
  | [] => Throw (delivery_failed errors)
  | p :: rest =>
    match send_of m p with
    | None => dispatch_loop rest m params (errors ++ [unsupported p])
    | Some send =>
      result ← send params;
      if ok result then mret tt else dispatch_loop rest m params (errors ++ [result])
    end
  end.
Definition not_configured (m : send_method) : exn := JsError ("No " +:+ channel_name m +:+ " OTP provider is configured").
Definition dispatch (chain : list OtpProvider) (m : send_method) (params : OtpSendParams) : prog state () :=
  match chain with [] => Throw (not_configured m) | _ => dispatch_loop chain m params [] end.
Definition otp_params (target code purpose : string) : OtpSendParams :=
  mkOtpSendParams target code (Some (mkDeliveryContext None None None (Some purpose))).
(** [sendEmail] and [sendSms]. *)
Definition send_otp (d : OtpDeliveryManager) (m : send_method) (target code purpose : string) : prog state () :=
  dispatch (providers m d) m (otp_params target code purpose).

(** *** Health *)
Record OtpChannelHealth := mkOtpChannelHealth { ch_channel : string; ch_available : bool; ch_providers : list HealthStatus }.
Fixpoint probe_all (chain : list OtpProvider) : prog state (list HealthStatus) :=
  match chain with
  | [] => mret []
  | p :: rest =>
    h ← try_catch (healthCheck p) (λ e, mret (mkHealthStatus false (id p) (Some (err_message e)) None));
    t ← probe_all rest;
    mret (h :: t)
  end.
Definition probe (m : send_method) (chain : list OtpProvider) : prog state OtpChannelHealth :=
  results ← probe_all chain;
  mret (mkOtpChannelHealth (channel_name m) (existsb h_ok results) results).
Record OtpDeliverySummary := mkOtpDeliverySummary {
  sum_email : OtpChannelHealth; sum_sms : OtpChannelHealth; overall : bool; circuitStates : list (string * CircuitState) }.
Definition circuits (d : OtpDeliveryManager) (s : DeliveryState T) : list (string * CircuitState) :=
  foldl (λ m e, map_set e.1 e.2 m) []
    (imap (λ i p, (id p, circuit (nullish (breakers s !! i) new_breaker))) (emailProviders d ++ smsProviders d)).
Definition manager_health (d : OtpDeliveryManager) : prog state OtpDeliverySummary :=
  email ← probe by_email (emailProviders d);
  sms ← probe by_sms (smsProviders d);
  states ← reads (circuits d);
  mret (mkOtpDeliverySummary email sms (ch_available email || ch_available sms) states).

(** ** What the breaker does *)
(** One delivery after another: the breaker is asked, and told the outcome. *)
Definition served (o : CircuitBreakerOptions) (b : Breaker) (x : Z * bool) : Breaker :=
  let '(b1, refused) := isOpen o x.1 b in
  if (refused : bool) then b1 else if (x.2 : bool) then recordSuccess o b1 else recordFailure o x.1 b1.
Definition failures (l : list (Z * bool)) : Z := Z.of_nat (count (λ x, negb x.2) l).

Lemma served_below o l :
  failures l < failureThreshold o →
  let b := foldl (served o) new_breaker l in circuit b = closed ∧ consecutiveFailures b = failures l.
Proof.
  induction l as [|x l IH] using rev_ind; intros Hl; [done|]. unfold failures in *. rewrite foldl_app, count_app in *.
  destruct IH as [Hc Hf]; [lia|]. cbn [foldl]. set (b := foldl _ _ l) in *. unfold served, isOpen, is_circuit. rewrite Hc. cbn [orb].
  destruct x as [t []]; cbn in Hl |- *; unfold recordSuccess, recordFailure, is_circuit; cbn; rewrite Hc; cbn; rewrite ?Hf.
  - rewrite Hc. cbn. split; [done|]. rewrite Hf. unfold count. cbn. lia.
  - rewrite (proj2 (Z.leb_gt _ _)) by (unfold count in *; cbn in *; lia). cbn. rewrite Hc. cbn. split; [done|].
    rewrite Hf. unfold count. cbn. lia.
Qed.

(** The breaker trips at the threshold: from a fresh one, as long as fewer
    deliveries than the threshold have failed, whatever succeeded in between, every
    delivery goes through; the failure that reaches the threshold opens it, from
    then on deliveries are refused until the cooldown has passed, and then let
    through in the half-open state. *)
Theorem breaker_trips_at_threshold o l t :
  failures l + 1 = failureThreshold o →
  let b := foldl (served o) new_breaker l in
  circuit b = closed ∧ (isOpen o t b).2 = false ∧
  let tripped := served o b (t, false) in
  circuit tripped = open ∧ openedAt tripped = t ∧
  (∀ u, u - t < cooldownMs o → isOpen o u tripped = (tripped, true)) ∧
  (∀ u, cooldownMs o <= u - t → let '(b', refused) := isOpen o u tripped in circuit b' = half_open ∧ refused = false).
Proof.
  intros Hl. destruct (served_below o l ltac:(lia)) as [Hc Hf]. set (b := foldl _ _ l) in *. intros b0. subst b0.
  unfold served, isOpen, is_circuit. rewrite Hc. cbn [orb fst snd]. unfold recordFailure, is_circuit. cbn. rewrite Hc, Hf. cbn.
  rewrite (proj2 (Z.leb_le _ _)) by lia. cbn. split_and!; try done; intros u Hu; cbn.
  - by rewrite (proj2 (Z.leb_gt _ _)) by lia.
  - by rewrite (proj2 (Z.leb_le _ _)) by lia.
Qed.

(** *** An open circuit *)
(** Breaker [i] is [b], open and cooling down. *)
Definition cooling (o : CircuitBreakerOptions) (i : nat) (b : Breaker) (p : state) : Prop :=
  breakers (Process.state p) !! i = Some b ∧ circuit b = open ∧ time p - openedAt b < cooldownMs o.
Definition is_short (provider : string) (r : DeliveryResult) : Prop :=
  ∃ latency, r = short_circuited provider latency.

Lemma cooling_open o i b p : cooling o i b p → isOpen o (time p) (breaker_of i p) = (b, true).
Proof.
  intros (Hb & Hc & Ht). unfold breaker_of. rewrite Hb. cbn [nullish]. unfold isOpen, is_circuit. rewrite Hc. cbn.
  by rewrite (proj2 (Z.leb_gt _ _)) by lia.
Qed.

Lemma guard_cooling o i b provider (send : sender) params :
  pays (cooling o i b) (λ _, 0%nat) 0 (guard o i provider send params) (λ r _, ∃ res, r = inr res ∧ is_short provider res).
Proof.
  unfold guard. apply pays_date_now_bind. intros started. apply pays_atom. intros p Hp.
  rewrite (cooling_open _ _ _ _ Hp). cbn [fst snd]. split.
  { destruct Hp as (Hb & Hc & Ht). split; [|done]. cbn. apply list_lookup_insert_eq. by eapply lookup_lt_Some. }
  exists 0%nat. split; [done|]. apply pays_date_now_bind. intros t. eexists. split; [done|]. by eexists.
Qed.

(** An open circuit spares its transport: while a breaker is open and its
    cooldown has not passed, any number of deliveries started through it, in any
    interleaving with each other and with whatever leaves it so, are all refused at
    once as short-circuited, and none of them acts on the transport; alone, such a
    delivery changes nothing. *)
Theorem open_circuit_refuses (E : state → state → Prop) o i b provider (send : sender) p p' requests ps' :
  (∀ q q', E q q' → cooling o i b q → cooling o i b q') → cooling o i b p →
  reachable E (p, map (guard o i provider send) requests) (p', ps') →
  (∀ r, In (Ret r) ps' → is_short provider r) ∧ (∀ e, ¬ In (Throw e) ps') ∧
  ∀ params, run (guard o i provider send params) p = (p, inr (short_circuited provider 0)).
Proof.
  intros HE Hp Hr. destruct (outcomes_reachable (cooling o i b) E (λ r, ∃ res, r = inr res ∧ is_short provider res) p p'
    (map (guard o i provider send) requests) ps' HE) as [_ Hf];
    [|exact Hr|exact Hp|].
  { apply List.Forall_forall. intros q (params & <- & _)%in_map_iff. apply guard_cooling. }
  rewrite List.Forall_forall in Hf. split; [|split].
  - intros r Hin. destruct (Hf _ Hin) as (res & [= <-] & Hres). exact Hres.
  - intros e Hin. destruct (Hf _ Hin) as (res & [=] & _).
  - intros params. unfold guard. rewrite run_bind, run_date_now. cbn. rewrite (cooling_open _ _ _ _ Hp). cbn.
    rewrite Z.sub_diag. do 2 f_equal. destruct Hp as (Hb & _). destruct p as [[bs tr] t d]. cbn in *.
    transitivity (mkProcess (mkDeliveryState (<[i := b]> bs) tr) t d); [reflexivity|by rewrite list_insert_id].
Qed.

(** ** Retries *)
Lemma run_shown {W A} (p : prog W A) w : ∃ w' r, run p w = (w', r).
Proof. destruct (run p w); eauto. Qed.

(** A retried delivery that succeeds is one the transport accepted. *)
Lemma retry_loop_accepted o provider (send : sender) params left last p p' res :
  (∀ r, last = Some r → ok r = false) →
  run (retry_loop o provider send params left last) p = (p', inr res) → ok res = true →
  ∃ q q' r, run (send params) q = (q', inr r) ∧ ok r = true.
Proof.
  revert last p. induction left as [|left IH]; intros last p Hlast; cbn [retry_loop].
  { intros [= <- <-] Hok. destruct last as [r|]; [|done]. cbn in Hok. by rewrite Hlast in Hok. }
  intros (q & aborted & _ & Hr)%run_bind_ok Hok. destruct aborted; [by injection Hr as _ <-|].
  rewrite run_bind, run_date_now in Hr. apply run_bind_ok in Hr as (q1 & r & Hs & Hr).
  assert (∀ final x, (final : bool) = final →
    run (if final then mret x else (if attempts o - Z.of_nat left <? attempts o then d ← backoff o (attempts o - Z.of_nat left); sleep d else mret tt) ;;
      retry_loop o provider send params left (Some x)) q1 = (p', inr res) →
    (ok x = true → ∃ q q' r, run (send params) q = (q', inr r) ∧ ok r = true) →
    ∃ q q' r, run (send params) q = (q', inr r) ∧ ok r = true) as Hgo.
  { intros final x _ Hx Hacc. destruct (ok x) eqn:Hokx; [by apply Hacc|]. destruct final.
    - injection Hx as _ <-. congruence.
    - apply run_bind_ok in Hx as (q2 & [] & _ & Hx). eapply IH; [|exact Hx|exact Hok]. by intros r' [= <-]. }
  apply run_catch_ok in Hs as [Hs|(q2 & e & _ & Hs)].
  - apply run_bind_ok in Hs as (q2 & x & Hx & Hs). rewrite run_bind, run_date_now in Hs. injection Hs as -> <-.
    eapply Hgo; [reflexivity|exact Hr|]. intros Hokx. by exists q, q1, x.
  - rewrite run_bind, run_date_now in Hs. injection Hs as -> <-. eapply Hgo; [reflexivity|exact Hr|done].
Qed.

(** The pause between two attempts. *)
Lemma run_pause o attempt q :
  ∃ q', run (if attempt <? attempts o then d ← backoff o attempt; sleep d else mret tt) q = (q', inr tt) ∧
    Process.state q' = Process.state q.
Proof.
  destruct (_ <? _); [|by eexists]. unfold backoff.
  destruct (0 <? jitterMs o); rewrite run_bind, ?run_random, ?run_ret; cbn; by eexists.
Qed.

(** Attempts that each call the transport at most once. *)
Lemma retry_loop_calls (calls : T → Z) o provider (send : sender) params left last p :
  let used q := calls (transport (Process.state q)) in
  (∀ q, used (run (send params) q).1 <= used q + 1) → (∀ q, ∃ b, run (shouldAbort o) q = (q, inr b)) →
  ∃ p' res, run (retry_loop o provider send params left last) p = (p', inr res) ∧ used p' <= used p + Z.of_nat left.
Proof.
  intros used Hs Ha. revert last p. induction left as [|left IH]; intros last p; cbn [retry_loop].
  { do 2 eexists. split; [reflexivity|lia]. }
  destruct (Ha p) as [[] Hb]; rewrite run_bind, Hb; [do 2 eexists; split; [reflexivity|lia]|].
  rewrite run_bind, run_date_now, run_bind, run_catch, run_bind. specialize (Hs p).
  assert (∀ q last, used q <= used p + 1 → ∃ p' res,
    run ((if attempts o - Z.of_nat left <? attempts o then d ← backoff o (attempts o - Z.of_nat left); sleep d else mret tt) ;;
         retry_loop o provider send params left last) q = (p', inr res) ∧ used p' <= used p + Z.of_nat (S left)) as Hgo.
  { intros q last' Hq. destruct (run_pause o (attempts o - Z.of_nat left) q) as (q' & Hr & Hst). rewrite run_bind, Hr.
    destruct (IH last' q') as (p' & res & Hr' & Hu). exists p', res. split; [exact Hr'|]. unfold used in *. rewrite Hst in Hu. lia. }
  destruct (run (send params) p) as [q [e|x]]; cbn [fst] in Hs; rewrite run_bind, run_date_now, run_ret;
    match goal with |- context [run (if ?f then mret ?x else _) _] => destruct f end;
    try (by apply Hgo); (do 2 eexists; split; [reflexivity|lia]).
Qed.

(** *** The wrapped providers *)
Lemma guard_returns o i provider (send : sender) params p :
  ∃ p' r, run (guard o i provider send params) p = (p', inr r) ∧
    (ok r = true → ∃ q q' x, run (send params) q = (q', inr x) ∧ ok x = true).
Proof.
  unfold guard. rewrite run_bind, run_date_now. cbn. destruct (isOpen _ _ _) as [b []].
  { do 2 eexists. split; [reflexivity|]. done. }
  set (q := p <| Process.state ::= _ |>). rewrite run_bind, run_catch, run_bind.
  destruct (run (send params) q) as [q' [e|x]] eqn:Hr; cbn.
  - do 2 eexists. split; [reflexivity|]. done.
  - do 2 eexists. split; [reflexivity|]. intros Hok. by exists q, q', x.
Qed.

Lemma wrap_In r c first l p :
  In p (wrap r c first l) → ∃ raw i, In raw l ∧ p = withCircuitBreaker c i (withRetry r raw).
Proof.
  unfold wrap. intros (j & Hj)%list_elem_of_In%list_elem_of_lookup. rewrite list_lookup_imap in Hj.
  destruct (l !! j) as [raw|] eqn:Hr; [|done]. injection Hj as <-. exists raw, (first + j)%nat. split; [|done].
  apply list_elem_of_In, list_elem_of_lookup. eauto.
Qed.

(** A provider of a manager answers, and what it accepts its transport accepted. *)
Lemma wrapped_returns r c i raw m send params p :
  send_of m (withCircuitBreaker c i (withRetry r raw)) = Some send →
  ∃ p' res, run (send params) p = (p', inr res) ∧
    (ok res = true → ∃ s q q' x, send_of m raw = Some s ∧ run (s params) q = (q', inr x) ∧ ok x = true).
Proof.
  intros Hs. assert (∃ s, send_of m raw = Some s ∧ send = guard c i (id raw) (retrying r (id raw) s)) as (s & Hraw & ->).
  { destruct m; cbn in *; [destruct (sendEmail raw) as [s|]|destruct (sendSms raw) as [s|]]; try done; injection Hs as <-; by exists s. }
  destruct (guard_returns c i (id raw) (retrying r (id raw) s) params p) as (p' & res & Hr & Hacc).
  exists p', res. split; [exact Hr|]. intros (q & q' & x & Hx & Hok)%Hacc.
  apply retry_loop_accepted in Hx as (q1 & q2 & y & Hy & Hoky); [|done|done]. by exists s, q1, q2, y.
Qed.

(** Delivery fails closed: sending a code over a manager succeeds only when the
    transport of one of the channel's providers accepted that very message; so
    when none ever does, or none is configured, it throws, whatever the breakers
    are and however often it is retried. *)
Theorem delivery_fails_closed r c emails texts m target code purpose p :
  let raw := match m with by_email => emails | by_sms => texts end in
  let d := new_manager r c emails texts in
  (∀ p', run (send_otp d m target code purpose) p = (p', inr tt) →
     ∃ x s q q' res, In x raw ∧ send_of m x = Some s ∧ run (s (otp_params target code purpose)) q = (q', inr res) ∧ ok res = true) ∧
  ((∀ x s q q' res, In x raw → send_of m x = Some s → run (s (otp_params target code purpose)) q = (q', inr res) → ok res = false) →
     ∃ p' e, run (send_otp d m target code purpose) p = (p', inl e)).
Proof.
  intros raw d.
  assert (∀ p', run (send_otp d m target code purpose) p = (p', inr tt) →
    ∃ x s q q' res, In x raw ∧ send_of m x = Some s ∧ run (s (otp_params target code purpose)) q = (q', inr res) ∧ ok res = true) as Hacc.
  { intros p'. unfold send_otp. set (params := otp_params target code purpose). set (chain := providers m d).
    assert (∀ x, In x chain → ∃ w i, In w raw ∧ x = withCircuitBreaker c i (withRetry r w)) as Hchain
      by (intros x Hx; unfold chain, d, new_manager in Hx; destruct m; by apply wrap_In in Hx).
    unfold dispatch. intros Hr. assert (∃ errors, run (dispatch_loop chain m params errors) p = (p', inr tt)) as [errors Hrun]
      by (destruct chain; [done|by eexists]). clear Hr. revert errors p Hrun.
    induction chain as [|x chain IH]; intros errors p Hr; [done|]. cbn [dispatch_loop] in Hr.
    destruct (send_of m x) as [send|] eqn:Hsend; [|by apply IH in Hr; [|intros y Hy; apply Hchain; by right]].
    destruct (Hchain x (or_introl eq_refl)) as (w & i & Hw & ->).
    destruct (wrapped_returns _ _ _ _ _ _ params p Hsend) as (q & res & Hres & Hok).
    rewrite run_bind, Hres in Hr. destruct (ok res).
    - destruct (Hok eq_refl) as (s & q1 & q2 & y & Hs & Hy & Hoky). by exists w, s, q1, q2, y.
    - by apply IH in Hr; [|intros y Hy; apply Hchain; by right]. }
  split; [exact Hacc|]. intros Hnone. destruct (run_shown (send_otp d m target code purpose) p) as (p' & [e|[]] & Hr); [by exists p', e|].
  destruct (Hacc p' Hr) as (x & s & q & q' & res & Hx & Hs & Hres & Hok). rewrite (Hnone x s q q' res) in Hok; done.
Qed.

(** Retries are bounded: when every call of a transport counts at most once, a
    retried delivery returns a result, never an exception, after at most the
    configured number of calls. *)
Theorem retries_bounded (calls : T → Z) o provider (send : sender) params p :
  (∀ q, calls (transport (Process.state (run (send params) q).1)) <= calls (transport (Process.state q)) + 1) →
  (∀ q, ∃ b, run (shouldAbort o) q = (q, inr b)) →
  ∃ p' res, run (retrying o provider send params) p = (p', inr res) ∧
    calls (transport (Process.state p')) <= calls (transport (Process.state p)) + Z.max 0 (attempts o).
Proof.
  intros Hs Ha. destruct (retry_loop_calls calls o provider send params (Z.to_nat (attempts o)) None p Hs Ha) as (p' & res & Hr & Hu).
  exists p', res. split; [exact Hr|]. lia.
Qed.
End delivery.
