(* ===== verification/JobQueue.v ===== *)
(** * Job queue

    [packages/core/src/services/events/job-queue.ts]: jobs processed one at a time,
    failed ones queued again with exponential back-off.  A handler is a program
    over the queue and whatever else it touches; the failure sink collects what it
    is given. *)

From S2P Require Export Effects.
From S2P Require Export JsMap.

Section job_queue.
(** Payloads, handlers, and the state outside the queue. *)
Context {Payload Handler World : Type}.

Record Job := mkJob {
  id : string;
  name : string;
  payload : Payload;
  attempts : Z;
  maxAttempts : Z;
  runAt : Z;
  createdAt : Z;
}.
Definition retried (delay : Z) (now : Z) (j : Job) : Job :=
  mkJob (id j) (name j) (payload j) (attempts j) (maxAttempts j) (now + delay) (createdAt j).
Definition attempted (j : Job) : Job :=
  mkJob (id j) (name j) (payload j) (attempts j + 1) (maxAttempts j) (runAt j) (createdAt j).

Record JobQueue := mkJobQueue {
  jobs : list Job;
  handlers : list (string * Handler);
  queue_maxAttempts : Z;
  defaultBackoffMs : Z;
  running : bool;
  (** When [drainTimer] fires. *)
  drainTimer : option Z;
  (** What [onFailed] has been told, when there is a sink. *)
  onFailed : option (list (string * string * exn));
  clock : Z;
  randoms : nat;
  outside : World;
}.
#[export] Instance settable_JobQueue : Settable JobQueue := {| eta_expand := λ q, mkJobQueue (jobs q) (handlers q)
  (queue_maxAttempts q) (defaultBackoffMs q) (running q) (drainTimer q) (onFailed q) (clock q) (randoms q) (outside q) |}.

(** The suffix [Math.random] gives an id, and what a handler does with a job. *)
Context (job_id : string → Z → nat → string) (invoke : Handler → Job → prog JobQueue ()).

Definition modify (f : JobQueue → JobQueue) : prog JobQueue () := Atom (λ q, (f q, tt)) Ret.
Definition register (n : string) (h : Handler) : prog JobQueue () := modify (λ q, q <| handlers ::= map_set n h |>).
Definition pending : prog JobQueue Z := Atom (λ q, (q, Z.of_nat (length (jobs q)))) Ret.

(** [requeue] *)
Definition delay_of (q : JobQueue) (j : Job) : Z := defaultBackoffMs q * 2 ^ attempts j.
Definition requeue (j : Job) : prog JobQueue () :=
  modify (λ q, let delay := delay_of q j in
    q <| jobs ::= (λ l, l ++ [retried delay (clock q) j]) |> <| drainTimer := Some (clock q + Z.max 0 delay) |>).
(** [reject] *)
Definition reject (j : Job) (reason : exn) : prog JobQueue () :=
  modify (λ q, q <| onFailed ::= option_map (λ l, l ++ [(id j, name j, reason)]) |>).

(** [process] *)
Definition process (j : Job) : prog JobQueue () :=
  handler ← Atom (λ q, (q, map_get (name j) (handlers q))) Ret;
  match handler with
  | None => requeue (attempted j)
  | Some h =>
    r ← try_catch (invoke h j ;; mret None) (λ e, mret (Some e));
    match r with
    | None => mret tt
    | Some cause =>
      let j := attempted j in
      if maxAttempts j <=? attempts j then reject j cause else requeue j
    end
  end.

(** The loop of [drain]: [true] when it ended, [false] when the fuel did. *)
Definition due (now : Z) (j : Job) : bool := runAt j <=? now.
Fixpoint drain_loop (fuel : nat) : prog JobQueue bool :=
  match fuel with
  | O => mret false
  | S fuel =>
    next ← Atom (λ q, match List.find (due (clock q)) (jobs q) with
                      | Some j => (q <| jobs ::= remove_first (due (clock q)) |>, Some j)
                      | None => (q, None)
                      end) Ret;
    match next with
    | None => mret true
    | Some j => process j ;; drain_loop fuel
    end
  end.
Definition drain (fuel : nat) : prog JobQueue bool :=
  busy ← Atom (λ q, (q <| running := true |>, running q)) Ret;
  if (busy : bool) then mret true
  else finally (drain_loop fuel) (modify (λ q, q <| running := false |>)).

(** [enqueue] starts a [drain] it does not wait for. *)
#[local] Instance runAt_le_dec : RelDecision (λ x y : Job, runAt x <= runAt y).
Proof. intros x y. apply _. Defined.
Definition new_job (n : string) (p : Payload) (at_ : option Z) (max : option Z) (q : JobQueue) : Job :=
  mkJob (job_id n (clock q) (randoms q)) n p 0 (nullish max (queue_maxAttempts q)) (nullish at_ (clock q)) (clock q).
Definition push_job (n : string) (p : Payload) (at_ : option Z) (max : option Z) : prog JobQueue Job :=
  Atom (λ q, let j := new_job n p at_ max q in
    (q <| jobs ::= (λ l, merge_sort (λ x y, runAt x <= runAt y) (l ++ [j])) |> <| randoms ::= S |>, j)) Ret.
Definition enqueue (fuel : nat) (n : string) (p : Payload) (at_ : option Z) (max : option Z) : prog JobQueue Job :=
  j ← push_job n p at_ max;
  drain fuel ;;
  mret j.
(** The back-off timer. *)
Definition timer_fires (fuel : nat) : prog JobQueue bool :=
  modify (λ q, q <| drainTimer := None |>) ;; drain fuel.

(** ** A drain settles every due job once *)
(** What a handler does to the state outside the queue, and what it throws. *)
Context (runs : Handler → Job → World → World * option exn).

(** Handlers that leave the queue alone: calling one is what [runs] says, and
    nothing else. *)
Definition passive : Prop := ∀ h j q,
  run (invoke h j) q =
    (q <| outside := (runs h j (outside q)).1 |>,
     match (runs h j (outside q)).2 with Some e => inl e | None => inr tt end).

Inductive outcome := Handled | Raised (cause : exn) | Unhandled.

(** One job given to the handler registered for its name. *)
Definition attempt (hs : list (string * Handler)) (j : Job) (v : World) : World * outcome :=
  match map_get (name j) hs with
  | None => (v, Unhandled)
  | Some h => ((runs h j v).1, match (runs h j v).2 with Some e => Raised e | None => Handled end)
  end.

(** Jobs given to their handlers, each once and in order. *)
Fixpoint settle (hs : list (string * Handler)) (js : list Job) (v : World) : World * list (Job * outcome) :=
  match js with
  | [] => (v, [])
  | j :: js => let r := settle hs js (attempt hs j v).1 in (r.1, (j, (attempt hs j v).2) :: r.2)
  end.

(** What is left of a job, and what is reported of it. *)
Definition leftover (q : JobQueue) (jo : Job * outcome) : option Job :=
  let j := attempted jo.1 in
  match jo.2 with
  | Handled => None
  | Raised _ => if maxAttempts j <=? attempts j then None else Some (retried (delay_of q j) (clock q) j)
  | Unhandled => Some (retried (delay_of q j) (clock q) j)
  end.
Definition reported (jo : Job * outcome) : option (string * string * exn) :=
  match jo.2 with
  | Raised cause =>
    let j := attempted jo.1 in if maxAttempts j <=? attempts j then Some (id j, name j, cause) else None
  | _ => None
  end.

Definition due_jobs (q : JobQueue) : list Job := List.filter (due (clock q)) (jobs q).
Definition later_jobs (q : JobQueue) : list Job := List.filter (λ j, negb (due (clock q) j)) (jobs q).

(** The queue once the jobs [l] remain beside those tried again, with [v] outside. *)
Definition after_attempts (q : JobQueue) (l : list Job) (vjos : World * list (Job * outcome)) : JobQueue :=
  let again := omap (leftover q) vjos.2 in
  mkJobQueue (l ++ again) (handlers q) (queue_maxAttempts q) (defaultBackoffMs q) (running q)
    (foldl (λ _ j, Some (runAt j)) (drainTimer q) again)
    (option_map (λ l, l ++ omap reported vjos.2) (onFailed q)) (clock q) (randoms q) vjos.1.
Definition settled (q : JobQueue) : JobQueue :=
  after_attempts q (later_jobs q) (settle (handlers q) (due_jobs q) (outside q)).

(** A job queued again is not due yet. *)
Lemma leftover_later q jo j :
  0 < defaultBackoffMs q → 0 <= attempts jo.1 → leftover q jo = Some j →
  due (clock q) j = false ∧ 0 <= attempts j.
Proof.
  intros Hb Ha. assert (0 < delay_of q (attempted jo.1)) as Hd.
  { unfold delay_of. apply Z.mul_pos_pos; [done|]. apply Z.pow_pos_nonneg; cbn; lia. }
  unfold leftover. destruct jo.2 as [|e|]; [done|destruct (_ <=? _); [done|]|]; intros [= <-];
    (split; [apply Z.leb_gt; cbn; lia|cbn; lia]).
Qed.

Lemma app_option_nil {A} (x : option (list A)) : option_map (λ l, l ++ []) x = x.
Proof. destruct x; cbn; [by rewrite app_nil_r|done]. Qed.

Lemma run_requeue q j :
  0 < defaultBackoffMs q → 0 <= attempts j →
  run (requeue (attempted j)) q = (after_attempts q (jobs q) (outside q, [(j, Unhandled)]), inr tt).
Proof.
  intros Hb Ha. unfold requeue, modify, after_attempts. cbn [run omap list_omap fst snd leftover reported foldl].
  rewrite app_option_nil. assert (0 < delay_of q (attempted j)) as Hd.
  { unfold delay_of. apply Z.mul_pos_pos; [done|]. apply Z.pow_pos_nonneg; cbn; lia. }
  rewrite Z.max_r by lia. by destruct q.
Qed.

Lemma run_process j q :
  passive → 0 < defaultBackoffMs q → 0 <= attempts j →
  run (process j) q =
    (after_attempts q (jobs q) ((attempt (handlers q) j (outside q)).1, [(j, (attempt (handlers q) j (outside q)).2)]),
     inr tt).
Proof.
  intros Hp Hb Ha. unfold process, attempt. rewrite run_bind. cbn [run].
  destruct (map_get (name j) (handlers q)) as [h|]; [|by apply run_requeue].
  rewrite run_bind, run_catch, run_bind, Hp. destruct (runs h j (outside q)) as [v [e|]]; cbn [fst snd run mret prog_mret].
  - unfold after_attempts. cbn [omap list_omap fst snd leftover reported].
    destruct (_ <=? _) eqn:Hle.
    + cbn. rewrite app_nil_r. by destruct q.
    + set (q1 := q <| outside := v |>). rewrite (run_requeue q1 j Hb Ha). by unfold after_attempts; cbn.
  - unfold after_attempts. cbn. rewrite app_nil_r, app_option_nil. by destruct q.
Qed.

Lemma take_due (f : Job → bool) l j :
  List.find f l = Some j →
  List.filter f l = j :: List.filter f (remove_first f l) ∧
  List.filter (λ x, negb (f x)) (remove_first f l) = List.filter (λ x, negb (f x)) l.
Proof.
  induction l as [|x l IH]; cbn [List.find]; [done|]. cbn [List.filter remove_first].
  destruct (f x) eqn:Hx; [by intros [= ->]|]. intros H. destruct (IH H) as [H1 H2].
  cbn [List.filter]. rewrite Hx. cbn. by rewrite <- H1, H2.
Qed.

Lemma none_due (f : Job → bool) l : List.filter f l = [] → List.filter (λ x, negb (f x)) l = l.
Proof.
  induction l as [|x l IH]; cbn [List.filter]; [done|]. destruct (f x); [done|]. intros H. cbn. by rewrite IH.
Qed.

Lemma remove_due (P : Job → Prop) f l : Forall P l → Forall P (remove_first f l).
Proof. rewrite !List.Forall_forall. intros H x Hx. by apply H, (In_remove_first f). Qed.

Lemma settle_jobs hs js v : map fst (settle hs js v).2 = js.
Proof. revert v. induction js as [|j js IH]; intros v; cbn; [done|]. by rewrite IH. Qed.

(** Attempts made one after the other. *)
Lemma after_attempts_app q l l' v jos v' jos' :
  l' = l ++ omap (leftover q) jos →
  after_attempts (after_attempts q l (v, jos)) l' (v', jos') = after_attempts q l (v', jos ++ jos').
Proof.
  intros ->. unfold after_attempts at 1 3. cbn [fst snd]. rewrite !omap_app, foldl_app, app_assoc.
  f_equal. cbn. destruct (onFailed q); cbn; [by rewrite <- app_assoc|done].
Qed.

(** One turn of the loop: its job is taken out, attempted, and queued again behind
    the others when it has to be. *)
Lemma take_and_attempt q j :
  List.find (due (clock q)) (jobs q) = Some j → 0 < defaultBackoffMs q → Forall (λ j, 0 <= attempts j) (jobs q) →
  let r := attempt (handlers q) j (outside q) in
  let q1 := q <| jobs ::= remove_first (due (clock q)) |> in
  let q2 := after_attempts q1 (jobs q1) (r.1, [(j, r.2)]) in
  0 <= attempts j ∧ due_jobs q = j :: due_jobs q2 ∧ Forall (λ j, 0 <= attempts j) (jobs q2) ∧ settled q2 = settled q.
Proof.
  intros Hf Hb Ha r q1 q2. destruct (take_due _ _ _ Hf) as [Hdue Hlater].
  assert (0 <= attempts j) as Haj. { rewrite List.Forall_forall in Ha. apply Ha. by apply find_some in Hf as [? _]. }
  assert (∀ j', leftover q (j, r.2) = Some j' → due (clock q) j' = false ∧ 0 <= attempts j') as Hlate
    by (intros j'; by apply leftover_later).
  assert (jobs q2 = remove_first (due (clock q)) (jobs q) ++ match leftover q (j, r.2) with Some j' => [j'] | None => [] end) as Hj
    by (unfold q2, after_attempts; cbn [jobs omap list_omap snd]; change (leftover q1) with (leftover q);
        by destruct (leftover q (j, r.2))).
  assert (due_jobs q2 = List.filter (due (clock q)) (remove_first (due (clock q)) (jobs q))) as Hd2.
  { unfold due_jobs. change (clock q2) with (clock q). rewrite Hj, List.filter_app. destruct (leftover q (j, r.2)) as [j'|]; cbn; [|by rewrite app_nil_r].
    by rewrite (proj1 (Hlate _ eq_refl)), app_nil_r. }
  assert (later_jobs q2 = later_jobs q ++ omap (leftover q) [(j, r.2)]) as Hl2.
  { unfold later_jobs. change (clock q2) with (clock q). rewrite Hj, List.filter_app, Hlater. cbn.
    destruct (leftover q (j, r.2)) as [j'|]; cbn; [|done]. by rewrite (proj1 (Hlate _ eq_refl)). }
  split; [done|]. split; [unfold due_jobs at 1; by rewrite Hdue, Hd2|]. split.
  { rewrite Hj. apply Forall_app. split; [by apply remove_due|]. destruct (leftover q (j, r.2)) as [j'|]; [|done].
    constructor; [by apply Hlate|done]. }
  assert (due_jobs q = j :: due_jobs q2) as Hq by (unfold due_jobs at 1; by rewrite Hdue, Hd2).
  unfold settled. rewrite Hq. cbn [settle]. change (handlers q2) with (handlers q). change (outside q2) with r.1.
  fold r. destruct (settle (handlers q) (due_jobs q2) r.1) as [v jos]. cbn [fst snd].
  change ((j, r.2) :: jos) with ([(j, r.2)] ++ jos). rewrite <- (after_attempts_app q (later_jobs q) (later_jobs q2) r.1) by done.
  done.
Qed.

Lemma run_drain_loop fuel q :
  passive → 0 < defaultBackoffMs q → Forall (λ j, 0 <= attempts j) (jobs q) → (length (due_jobs q) < fuel)%nat →
  run (drain_loop fuel) q = (settled q, inr true).
Proof.
  intros Hp. revert q. induction fuel as [|fuel IH]; intros q Hb Ha Hf; [lia|]. cbn [drain_loop]. rewrite run_bind. cbn [run].
  destruct (List.find (due (clock q)) (jobs q)) as [j|] eqn:Hfind; cycle 1.
  { assert (due_jobs q = []) as Hd. { rewrite find_filter in Hfind. unfold due_jobs. by destruct (List.filter _ _). }
    unfold settled, later_jobs. rewrite (none_due _ _ Hd), Hd. unfold after_attempts. cbn.
    rewrite app_nil_r, app_option_nil. by destruct q. }
  destruct (take_and_attempt q j Hfind Hb Ha) as (Haj & Hdue & Ha2 & Hs).
  rewrite run_bind. set (q1 := q <| jobs ::= remove_first (due (clock q)) |>) in *.
  rewrite (run_process j q1 Hp Hb Haj). rewrite <- Hs. apply IH; [exact Hb|exact Ha2|]. rewrite Hdue in Hf. exact (proj2 (Nat.succ_lt_mono _ _) Hf).
Qed.

(** C32: A drain ends and settles every due job exactly once: with a positive
    back-off, handlers that do not touch the queue itself and a clock that stands
    still, more fuel than there are due jobs is enough, and the queue afterwards is
    [settled q], exactly: the handler of every due job has been called once, in the
    order of the queue, with its effects outside the queue made one after the other;
    the queue holds the jobs that were not due and, behind them, the due ones that
    have to be tried again (those whose handler threw before their last attempt, and
    those nobody handles), each with one attempt more and due after its back-off; the
    jobs whose handler threw at the last attempt are reported with what it threw; the
    timer is that of the last job queued again.  No job is due, and no drain runs. *)
Theorem drain_settles fuel q :
  passive → running q = false → 0 < defaultBackoffMs q → Forall (λ j, 0 <= attempts j) (jobs q) →
  (length (due_jobs q) < fuel)%nat →
  run (drain fuel) q = (settled q, inr true) ∧ due_jobs (settled q) = [] ∧ running (settled q) = false.
Proof.
  intros Hp Hr Hb Ha Hf. split; [|split; [|done]].
  - unfold drain. rewrite run_bind. cbn [run]. rewrite Hr. set (q1 := q <| running := true |>).
    rewrite run_finally, (run_drain_loop fuel q1 Hp Hb Ha Hf). cbn. unfold settled, after_attempts. cbn. by rewrite Hr.
  - unfold due_jobs at 1. apply filter_ext_in_false.
    intros j [Hin|Hin]%in_app_iff; [by apply filter_In in Hin as [_ H%negb_true_iff]|].
    apply list_elem_of_In, list_elem_of_omap in Hin as ([j0 o] & Hin & Hlo).
    apply (leftover_later q (j0, o) j Hb); [|done].
    assert (In j0 (due_jobs q)) as [Hj0 _]%filter_In.
    { rewrite <- (settle_jobs (handlers q) (due_jobs q) (outside q)). apply (in_map fst _ (j0, o)). by apply list_elem_of_In. }
    rewrite List.Forall_forall in Ha. by apply Ha.
Qed.
End job_queue.
