(* ===== verification/EventSourcing.v ===== *)
(** * Events

    [packages/core/src/services/events/event-bus.ts] and
    [events/event-sourcing/]: an in-process bus whose subscriptions are sets shared
    by reference, an append-only store over a backend given as an interface, and
    the projector that folds a stream into a read model. *)

From S2P Require Export Interleave.
From S2P Require Export Json.
From S2P Require Export JsMap.

(** ** The bus *)
Record EventEnvelope := mkEventEnvelope {
  ev_type : string; ev_payload : json; ev_id : string; ev_createdAt : Z; ev_tenantId : option string }.

Section bus.
(** Listeners, compared by identity, and the state outside the bus. *)
Context {L World : Type} `{!EqDecision L}.

(** The [Set] objects of the listeners are allocated in [sets] and shared by
    reference: the map holds references, and so do the closures that unsubscribe. *)
Record EventBus := mkEventBus {
  sets : list (list L);
  listeners : list (string * nat);
  wildcard : list L;
  counter : nat;
  bus_clock : Z;
  bus_world : World;
}.
#[export] Instance settable_EventBus : Settable EventBus := {| eta_expand := λ b,
  mkEventBus (sets b) (listeners b) (wildcard b) (counter b) (bus_clock b) (bus_world b) |}.

Context (invoke : L → EventEnvelope → prog EventBus ()) (persistence : option (EventEnvelope → prog EventBus ())).

(** [Set.add] and [Set.delete]. *)
Definition set_add (l : L) (s : list L) : list L := if bool_decide (l ∈ s) then s else s ++ [l].
Definition set_delete (l : L) (s : list L) : list L := List.filter (λ x, negb (bool_decide (x = l))) s.

(** [subscribe], answering the reference its [unsubscribe] closure keeps. *)
Definition subscribe_set (type : string) (b : EventBus) : EventBus * nat :=
  match map_get type (listeners b) with
  | Some r => (b, r)
  | None => let r := length (sets b) in
            (b <| sets ::= (λ ss, ss ++ [[]]) |> <| listeners ::= map_set type r |>, r)
  end.
Definition subscribe (type : string) (l : L) (b : EventBus) : EventBus * nat :=
  let '(b1, r) := subscribe_set type b in
  (b1 <| sets ::= alter (set_add l) r |>, r).
(** The closure [subscribe] returns. *)
Definition unsubscribe (type : string) (r : nat) (l : L) (b : EventBus) : EventBus :=
  let b1 := b <| sets ::= alter (set_delete l) r |> in
  if (length (nullish (sets b1 !! r) []) =? 0)%nat then b1 <| listeners ::= map_delete type |> else b1.
Definition subscribeAll (l : L) (b : EventBus) : EventBus := b <| wildcard ::= set_add l |>.
Definition unsubscribeAll (l : L) (b : EventBus) : EventBus := b <| wildcard ::= set_delete l |>.

(** The listeners of a type, in the order they are called. *)
Definition listeners_of (type : string) (b : EventBus) : list L :=
  match map_get type (listeners b) with Some r => nullish (sets b !! r) [] | None => [] end.
Definition handlers_of (type : string) (b : EventBus) : list L := listeners_of type b ++ wildcard b.

Definition new_event (type : string) (payload : json) (tenantId : option string) (b : EventBus) : EventEnvelope :=
  mkEventEnvelope type payload ("0-" +:+ js_String (Z.of_nat (S (counter b))) +:+ "-" +:+ toString36 (bus_clock b))
    (bus_clock b) tenantId.
Definition publish (type : string) (payload : json) (tenantId : option string) : prog EventBus EventEnvelope :=
  event ← Atom (λ b, (b <| counter ::= S |>, new_event type payload tenantId b)) Ret;
  match persistence with Some f => f event | None => mret tt end ;;
  handlers ← Atom (λ b, (b, handlers_of type b)) Ret;
  for_each handlers (λ h, invoke h event) ;;
  mret event.

(** *** What subscriptions do *)
(** Distinct types have distinct sets, every one of them allocated and not empty. *)
Definition bus_wf (b : EventBus) : Prop :=
  NoDup (map_keys (listeners b)) ∧ NoDup (map snd (listeners b)) ∧
  ∀ type r, map_get type (listeners b) = Some r → ∃ s, sets b !! r = Some s ∧ s ≠ [].

Lemma set_delete_notin l s : l ∉ s → set_delete l s = s.
Proof.
  unfold set_delete. induction s as [|x s IH]; [done|]. intros [Hx Hs]%not_elem_of_cons. cbn.
  rewrite bool_decide_false by done. cbn. by rewrite IH.
Qed.
Lemma set_delete_add l s : l ∉ s → set_delete l (set_add l s) = s.
Proof.
  intros Hl. unfold set_add. rewrite bool_decide_false by done. unfold set_delete. rewrite List.filter_app.
  fold (set_delete l s). rewrite set_delete_notin by done. cbn. by rewrite bool_decide_true, app_nil_r.
Qed.

Lemma set_add_nil l : set_add l [] = [l].
Proof. unfold set_add. by rewrite bool_decide_false by set_solver. Qed.

Lemma get_ref_inj (m : list (string * nat)) t t' r :
  NoDup (map snd m) → map_get t m = Some r → map_get t' m = Some r → t = t'.
Proof.
  intros Hn Ht%map_get_In Ht'%map_get_In. induction m as [|[k v] m IH]; [done|].
  cbn in Hn. apply NoDup_cons in Hn as [Hv Hn]. destruct Ht as [[= -> ->]|Ht], Ht' as [[= ->]|Ht'].
  - done.
  - destruct Hv. apply list_elem_of_In, in_map_iff. by exists (t', r).
  - subst. destruct Hv. apply list_elem_of_In, in_map_iff. by exists (t, r).
  - auto.
Qed.
Lemma listeners_of_ref b type r s :
  map_get type (listeners b) = Some r → sets b !! r = Some s → listeners_of type b = s.
Proof. unfold listeners_of. by intros -> ->. Qed.

(** What [subscribe] leaves, whether or not the type had a set. *)
Lemma subscribe_spec type l b b1 r :
  bus_wf b → l ∉ listeners_of type b → subscribe type l b = (b1, r) →
  map_get type (listeners b1) = Some r ∧ sets b1 !! r = Some (listeners_of type b ++ [l]) ∧ wildcard b1 = wildcard b ∧
  (∀ t, t ≠ type → map_get t (listeners b1) = map_get t (listeners b)) ∧
  (∀ t r', t ≠ type → map_get t (listeners b) = Some r' → r' ≠ r ∧ sets b1 !! r' = sets b !! r').
Proof.
  intros (Hk & Hr & Hs) Hl. unfold subscribe, subscribe_set, listeners_of in *.
  destruct (map_get type (listeners b)) as [r0|] eqn:Hm.
  - intros [= <- <-]. destruct (Hs _ _ Hm) as (s & Hsr & _). rewrite Hsr in *. cbn [sets listeners wildcard set_field nullish] in *.
    split; [exact Hm|]. split.
    { rewrite list_lookup_alter_eq, Hsr. cbn. unfold set_add. by rewrite bool_decide_false. }
    split; [done|]. split; [done|]. intros t r' Ht Hr'. assert (r' ≠ r0) as Hne by (intros ->; by apply Ht, (get_ref_inj _ _ _ _ Hr Hr' Hm)).
    split; [done|]. by rewrite list_lookup_alter_ne.
  - intros [= <- <-]. cbn [sets listeners wildcard set_field]. split; [by rewrite map_get_set, String.eqb_refl|]. split.
    { rewrite list_lookup_alter_eq, lookup_app_r, Nat.sub_diag by lia. cbn. by rewrite set_add_nil. }
    split; [done|]. split.
    { intros t Ht. rewrite map_get_set. by rewrite (proj2 (String.eqb_neq _ _)). }
    intros t r' Ht Hr'. destruct (Hs _ _ Hr') as (s & Hsr & _). pose proof (lookup_lt_Some _ _ _ Hsr). split; [lia|].
    rewrite list_lookup_alter_ne by lia. by rewrite lookup_app_l.
Qed.

(** What [unsubscribe] leaves, for the reference of the type. *)
Lemma unsubscribe_spec type l b r s :
  map_get type (listeners b) = Some r → sets b !! r = Some s →
  let b2 := unsubscribe type r l b in
  map_get type (listeners b2) = (if (length (set_delete l s) =? 0)%nat then None else Some r) ∧
  sets b2 = <[r := set_delete l s]> (sets b) ∧ wildcard b2 = wildcard b ∧
  ∀ t, t ≠ type → map_get t (listeners b2) = map_get t (listeners b).
Proof.
  intros Hr Hs b2. unfold b2, unsubscribe. cbn [sets set_field]. rewrite list_lookup_alter_eq, Hs. cbn [fmap option_fmap option_map nullish].
  assert (alter (set_delete l) r (sets b) = <[r := set_delete l s]> (sets b)) as Ha.
  { apply list_eq. intros i. destruct (decide (i = r)) as [->|Hne].
    - rewrite list_lookup_alter_eq, list_lookup_insert_eq, Hs; [done|by eapply lookup_lt_Some].
    - by rewrite list_lookup_alter_ne, list_lookup_insert_ne. }
  destruct (length (set_delete l s) =? 0)%nat; cbn [listeners sets wildcard set_field].
  - rewrite map_get_delete, String.eqb_refl. split_and!; [done|done|done|]. intros t Ht.
    by rewrite map_get_delete, (proj2 (String.eqb_neq _ _)) by congruence.
  - by split_and!.
Qed.

(** Subscribing and unsubscribing are inverse: in a well-formed bus, a listener
    that is not subscribed to a type yet is called last of the type's listeners and
    before the wildcard ones once it has subscribed, other types are not affected,
    and after its [unsubscribe] every type has the handlers it had before. *)
Theorem subscription_round_trip type l b b1 r :
  bus_wf b → l ∉ listeners_of type b → subscribe type l b = (b1, r) →
  handlers_of type b1 = listeners_of type b ++ [l] ++ wildcard b ∧
  (∀ t, t ≠ type → handlers_of t b1 = handlers_of t b) ∧
  ∀ t, handlers_of t (unsubscribe type r l b1) = handlers_of t b.
Proof.
  intros Hwf Hl Hs. destruct (subscribe_spec _ _ _ _ _ Hwf Hl Hs) as (Hr & Hset & Hw & Hkeys & Hsets).
  assert (∀ t, t ≠ type → listeners_of t b1 = listeners_of t b) as Hother.
  { intros t Ht. unfold listeners_of. rewrite Hkeys by done. destruct (map_get t (listeners b)) as [r'|] eqn:Hm; [|done].
    by destruct (Hsets _ _ Ht Hm) as [_ ->]. }
  split; [unfold handlers_of; by rewrite (listeners_of_ref _ _ _ _ Hr Hset), Hw, <- app_assoc|].
  split; [intros t Ht; unfold handlers_of; by rewrite Hother, Hw|].
  destruct (unsubscribe_spec type l b1 r _ Hr Hset) as (Hr2 & Hset2 & Hw2 & Hkeys2).
  assert (set_delete l (listeners_of type b ++ [l]) = listeners_of type b) as Hdel.
  { rewrite <- (set_delete_add l (listeners_of type b)) at 2 by done. unfold set_add. by rewrite bool_decide_false. }
  rewrite Hdel in *. intros t. unfold handlers_of. rewrite Hw2, Hw. f_equal. destruct (decide (t = type)) as [->|Ht].
  - unfold listeners_of at 1. rewrite Hr2. destruct (length (listeners_of type b) =? 0)%nat eqn:He.
    + by apply Nat.eqb_eq, length_zero_iff_nil in He as ->.
    + rewrite Hset2, list_lookup_insert_eq; [done|]. by eapply lookup_lt_Some.
  - rewrite <- (Hother t Ht). unfold listeners_of. rewrite Hkeys2, Hset2 by done.
    destruct (map_get t (listeners b1)) as [r'|] eqn:Hm; [|done]. rewrite Hkeys in Hm by done.
    destruct (Hsets _ _ Ht Hm) as [Hne _]. by rewrite list_lookup_insert_ne.
Qed.
End bus.

(** ** The event store *)
Record StoredEvent := mkStoredEvent {
  se_streamId : string; version : Z; se_type : string; se_payload : json; se_occurredAt : Z }.
(** An event before it is stored: its stream and version are overwritten. *)
Definition stored_as (streamId : string) (v : Z) (e : StoredEvent) : StoredEvent :=
  mkStoredEvent streamId v (se_type e) (se_payload e) (se_occurredAt e).

(** [EventStoreBackend]; [log] is the contents of a stream. *)
Class EventStoreBackend (W : Type) := {
  backend_append : list StoredEvent → option Z → W → W * (exn + ());
  backend_read : string → option Z → W → exn + list StoredEvent;
  log : W → string → list StoredEvent;
}.
(** What [append] and [read] promise: an append of events of one stream puts them at
    its end or throws, and throws when the expected version is not the length of the
    stream; a read yields the events of the stream after a version. *)
Class EventStoreLaws (W : Type) `{EventStoreBackend W} := {
  append_law : ∀ streamId es expected (w : W),
    Forall (λ e, se_streamId e = streamId) es →
    let '(w', r) := backend_append es expected w in
    (∀ s, s ≠ streamId → log w' s = log w s) ∧
    (log w' streamId = log w streamId ∨
     log w' streamId = log w streamId ++ es ∧
       match expected with Some v => v = Z.of_nat (length (log w streamId)) | None => True end);
  read_law : ∀ streamId after (w : W) es,
    backend_read streamId after w = inr es →
    es = match after with
         | Some v => List.filter (λ e, v <? version e) (log w streamId)
         | None => log w streamId
         end;
}.

Section event_store.
Context {W : Type} `{EventStoreBackend W}.

Definition lift {A} (f : W → W * (exn + A)) : prog W A :=
  Atom f (λ r, match r with inl e => Throw e | inr a => Ret a end).
Definition read (streamId : string) (afterVersion : option Z) : prog W (list StoredEvent) :=
  lift (λ w, (w, backend_read streamId afterVersion w)).

(** [append]: the versions follow [expectedVersion], or the length of the stream. *)
Fixpoint number_events (streamId : string) (base : Z) (es : list StoredEvent) : list StoredEvent :=
  match es with
  | [] => []
  | e :: es => stored_as streamId (base + 1) e :: number_events streamId (base + 1) es
  end.
Definition append (streamId : string) (events : list StoredEvent) (expectedVersion : option Z) : prog W () :=
  base ← match expectedVersion with
         | Some v => mret v
         | None => es ← read streamId None; mret (Z.of_nat (length es))
         end;
  lift (backend_append (number_events streamId base events) expectedVersion).

(** *** Versions *)
(** The events of a stream are numbered from 1 on. *)
Definition versioned (l : list StoredEvent) : Prop := ∀ i e, l !! i = Some e → version e = Z.of_nat i + 1.

Lemma number_events_lookup s base es i e :
  number_events s base es !! i = Some e → version e = base + Z.of_nat i + 1 ∧ se_streamId e = s.
Proof.
  revert base i. induction es as [|x es IH]; intros base [|i]; cbn [number_events]; try done.
  - intros [= <-]. cbn. split; [lia|done].
  - intros Hi%IH. cbn in Hi. destruct Hi as [-> ->]. split; [lia|done].
Qed.

Lemma versioned_app s l es :
  versioned l → versioned (l ++ number_events s (Z.of_nat (length l)) es).
Proof.
  intros Hl i e Hi. apply lookup_app_Some in Hi as [Hi|[Hle Hi]]; [by apply Hl|].
  apply number_events_lookup in Hi as [-> _]. lia.
Qed.

Lemma number_events_stream s base es : Forall (λ e, se_streamId e = s) (number_events s base es).
Proof. apply Forall_lookup. intros i e Hi. by apply number_events_lookup in Hi as [_ ->]. Qed.

Section appended.
Context {HL : EventStoreLaws W}.

(** Every stream is numbered from 1 on. *)
Definition streams_versioned (w : W) : Prop := ∀ s, versioned (log w s).

Lemma append_versioned s es v w :
  streams_versioned w → streams_versioned (backend_append (number_events s v es) (Some v) w).1.
Proof.
  intros Hw. pose proof (append_law s _ (Some v) w (number_events_stream s v es)) as Hl.
  destruct (backend_append _ _ w) as [w' r]. destruct Hl as [Ho Hs]. cbn [fst]. intros t.
  destruct (decide (t = s)) as [->|Hne]; [|by rewrite Ho].
  destruct Hs as [->|[-> ->]]; [done|]. by apply versioned_app.
Qed.

(** Streams stay numbered: among any number of concurrent appends that state
    the version they expect, in any interleaving and whatever appends fail, every
    stream keeps the versions 1, 2, 3, ... without gap or repetition. *)
Theorem appends_keep_versions (E : W → W → Prop) w w' (rs : list (string * list StoredEvent * Z)) (ps' : list (prog W ())) :
  (∀ v v', E v v' → streams_versioned v → streams_versioned v') → streams_versioned w →
  reachable E (w, map (λ r, append r.1.1 r.1.2 (Some r.2)) rs) (w', ps') → streams_versioned w'.
Proof.
  intros HE Hw Hr. eapply (invariant_reachable streams_versioned E); [exact HE| |exact Hr|exact Hw].
  apply List.Forall_forall. intros p ([[s es] v] & <- & _)%in_map_iff. cbn [fst snd append mbind prog_mbind prog_bind mret prog_mret].
  apply harmless_atom; [|by intros [e|[]]]. intros v' Hv. split; [by apply append_versioned|done].
Qed.

(** Alone, an append needs not state the version. *)
Lemma append_alone s es w w' :
  streams_versioned w → run (append s es None) w = (w', inr tt) → streams_versioned w'.
Proof.
  intros Hw. unfold append, read, lift. cbn. destruct (backend_read s None w) as [e|l] eqn:Hr; [done|].
  apply read_law in Hr as ->. cbn. pose proof (append_law s _ None w (number_events_stream s (Z.of_nat (length (log w s))) es)) as Hl.
  destruct (backend_append _ _ w) as [w1 r]. destruct Hl as [Ho Hs]. intros Hret.
  assert (w1 = w') as -> by (destruct r; by injection Hret). intros t. destruct (decide (t = s)) as [->|Hne]; [|by rewrite Ho].
  destruct Hs as [->|[-> _]]; [done|]. by apply versioned_app.
Qed.
End appended.
End event_store.

(** ** Projections *)
Section projections.
Context {W S Handler : Type} `{EventStoreBackend W}.

Record ProjectionState := mkProjectionState { ps_version : Z; ps_fields : S }.
(** A handler answers the new state, or nothing. *)
Context (call : Handler → ProjectionState → StoredEvent → prog W (option ProjectionState)).
Definition Projector : Type := list (string * Handler).
Definition when (eventType : string) (h : Handler) (p : Projector) : Projector := map_set eventType h p.

(** The loop of [Projector.apply]. *)
Definition apply_event (p : Projector) (current : ProjectionState) (e : StoredEvent) : prog W ProjectionState :=
  if version e <=? ps_version current then mret current
  else
    r ← match map_get (se_type e) p with Some h => call h current e | None => mret None end;
    mret (mkProjectionState (version e) (ps_fields (nullish r current))).
Fixpoint apply_events (p : Projector) (current : ProjectionState) (events : list StoredEvent) : prog W ProjectionState :=
  match events with
  | [] => mret current
  | e :: es => c ← apply_event p current e; apply_events p c es
  end.

(** [ReplayService]; [initial] is the state [{ version: 0 }]. *)
Definition replay (p : Projector) (streamId : string) (state : ProjectionState) : prog W ProjectionState :=
  es ← read streamId (Some (ps_version state));
  apply_events p state es.
Definition replayFromZero (p : Projector) (initial : S) (streamId : string) : prog W ProjectionState :=
  replay p streamId (mkProjectionState 0 initial).

(** *** Snapshots *)
(** Handlers that are functions of the state and the event. *)
Context (step : Handler → ProjectionState → StoredEvent → option ProjectionState)
  (call_step : ∀ h c e w, run (call h c e) w = (w, inr (step h c e))).

Definition fold_event (p : Projector) (c : ProjectionState) (e : StoredEvent) : ProjectionState :=
  if version e <=? ps_version c then c
  else mkProjectionState (version e)
    (ps_fields (nullish (match map_get (se_type e) p with Some h => step h c e | None => None end) c)).

Lemma run_apply_events p c es w : run (apply_events p c es) w = (w, inr (foldl (fold_event p) c es)).
Proof.
  revert c. induction es as [|e es IH]; intros c; [done|]. cbn [apply_events foldl]. rewrite run_bind.
  assert (run (apply_event p c e) w = (w, inr (fold_event p c e))) as ->; [|apply IH].
  unfold apply_event, fold_event. destruct (_ <=? _); [done|]. rewrite run_bind.
  destruct (map_get (se_type e) p); [by rewrite call_step|done].
Qed.

Lemma filter_all {A} (f : A → bool) l : (∀ x, In x l → f x = true) → List.filter f l = l.
Proof. induction l as [|x l IH]; [done|]. intros Hf. cbn. rewrite Hf by by left. rewrite IH; [done|]. intros y Hy. apply Hf. by right. Qed.

(** The events after a version are a suffix of a numbered stream. *)
Lemma filter_after l m : versioned l → List.filter (λ e, Z.of_nat m <? version e) l = drop m l.
Proof.
  intros Hl. rewrite <- (take_drop m l) at 1. rewrite List.filter_app, filter_ext_in_false, filter_all; [done| |].
  - intros e (i & Hi)%list_elem_of_In%list_elem_of_lookup. rewrite lookup_drop in Hi. apply Z.ltb_lt.
    rewrite (Hl _ _ Hi). lia.
  - intros e (i & Hi)%list_elem_of_In%list_elem_of_lookup. apply lookup_take_Some in Hi as [Hi Hm]. apply Z.ltb_ge.
    rewrite (Hl _ _ Hi). lia.
Qed.

Lemma fold_version p i l :
  versioned l → ps_version (foldl (fold_event p) (mkProjectionState 0 i) l) = Z.of_nat (length l).
Proof.
  induction l as [|e l IH] using rev_ind; intros Hl; [done|]. rewrite foldl_app, length_app. cbn [foldl length].
  assert (versioned l) as Hl' by (intros j x Hj; apply Hl; by apply lookup_app_l_Some).
  assert (version e = Z.of_nat (length l) + 1) as He by (apply Hl; by rewrite list_lookup_middle).
  unfold fold_event at 1. rewrite IH, He by done. rewrite (proj2 (Z.leb_gt _ _)) by lia. cbn [ps_version]. lia.
Qed.

Lemma run_replay `{!EventStoreLaws W} p s c w r :
  run (replay p s c) w = (w, inr r) →
  r = foldl (fold_event p) c (List.filter (λ e, ps_version c <? version e) (log w s)).
Proof.
  unfold replay, read, lift. cbn. destruct (backend_read s _ w) as [e|l] eqn:Hr; [done|]. apply read_law in Hr as ->. cbn.
  rewrite run_apply_events. by intros [= <-].
Qed.

(** Snapshots are sound: a projection replayed from zero when a stream held a
    prefix of its events, and replayed again later from that state, is the
    projection replayed from zero at the later time, and replaying it once more
    changes nothing; the handlers being functions of state and event, and the
    stream being numbered. *)
Theorem replay_from_snapshot `{!EventStoreLaws W} p initial s w0 w c c1 c2 c3 :
  versioned (log w s) → log w0 s `prefix_of` log w s →
  run (replayFromZero p initial s) w0 = (w0, inr c) →
  run (replay p s c) w = (w, inr c1) →
  run (replayFromZero p initial s) w = (w, inr c2) →
  run (replay p s c1) w = (w, inr c3) →
  c1 = c2 ∧ c3 = c1 ∧ ps_version c1 = Z.of_nat (length (log w s)).
Proof.
  intros Hv [rest Hpre] H0 H1 H2 H3. apply run_replay in H0, H1, H2, H3. cbn [ps_version] in *.
  assert (versioned (log w0 s)) as Hv0 by (intros i e Hi; apply Hv; rewrite Hpre; by apply lookup_app_l_Some).
  change 0 with (Z.of_nat 0) in H0, H2. rewrite filter_after, drop_0 in H0, H2 by done. subst c c2.
  rewrite fold_version, filter_after in H1 by done. rewrite Hpre, drop_app_length, <- foldl_app, <- Hpre in H1. subst c1.
  rewrite fold_version, filter_after, drop_all in H3 by done. subst c3. split_and!; [done|done|]. by apply fold_version.
Qed.
End projections.
