(* ===== verification/DistributedLock.v ===== *)
(** * Distributed lock

    [packages/core/src/services/infrastructure/distributed-lock.ts]: a lock kept in
    Redis with [SET NX EX] and owner-checked scripts, and the fallback on the cache
    when the client is missing or not ready.  The Redis server is a parameter. *)

From S2P Require Export Interleave.
From S2P Require Export Cache.

(** The commands of the client that the lock uses; any of them may throw.
    [lease r k] is the value held under [k] with the instant it expires at. *)
Class LockServer (R : Type) := {
  ls_ready : R → bool;
  ls_has_eval : R → bool;
  (** [set(k, token, 'NX', 'EX', seconds)] answering ['OK']. *)
  ls_set_nx : string → string → Z → Z → R → R * (exn + bool);
  ls_get : string → Z → R → R * (exn + option string);
  (** The two scripts: delete, or set the time to live in milliseconds, if the
      value is the token. *)
  ls_del_if : string → string → Z → R → R * (exn + Z);
  ls_pexpire_if : string → string → Z → Z → R → R * (exn + Z);
  lease : R → string → option (string * Z);
}.

(** Documented behaviour: [SET NX] only writes where nothing live is stored, the
    scripts only act for the owner; a command that throws may have taken effect, and
    any command may leave the client not ready, or without [eval]. *)
Class LockServerLaws (R : Type) `{LockServer R} := {
  set_nx_law : ∀ k t s now (r : R),
    let r' := (ls_set_nx k t s now r).1 in
    (∀ k', k' ≠ k → lease r' k' = lease r k') ∧
    ((match lease r k with Some (_, e) => e <= now | None => True end) ∧ lease r' k = Some (t, now + s * 1000) ∨
     lease r' k = lease r k ∧ (ls_set_nx k t s now r).2 ≠ inr true);
  get_lease_law : ∀ k now (r : R),
    let r' := (ls_get k now r).1 in
    ∀ k', lease r' k' = lease r k';
  del_if_law : ∀ k t now (r : R),
    let r' := (ls_del_if k t now r).1 in
    (∀ k', k' ≠ k → lease r' k' = lease r k') ∧
    (lease r' k = lease r k ∨ lease r' k = None ∧ ∃ e, lease r k = Some (t, e));
  pexpire_if_law : ∀ k t ms now (r : R),
    let r' := (ls_pexpire_if k t ms now r).1 in
    (∀ k', k' ≠ k → lease r' k' = lease r k') ∧
    (lease r' k = lease r k ∨ lease r' k = Some (t, now + ms) ∧ ∃ e, lease r k = Some (t, e));
}.

Section lock.
(** The server, the cache, and the state outside the lock. *)
Context {R C World : Type} `{LockServer R} `{RedisCache C}.

Record lock_world := mkLockWorld {
  client : option R;
  lock_cache : C;
  lock_clock : Z;
  lockCounter : nat;
  outside : World;
}.
#[export] Instance settable_lock_world : Settable lock_world := {| eta_expand := λ w,
  mkLockWorld (client w) (lock_cache w) (lock_clock w) (lockCounter w) (outside w) |}.

(** The text of a token after its counter: the clock and [Math.random]. *)
Context (token_text : nat → Z → string) (namespace : string).

Record LockOptions := mkLockOptions {
  lo_key : string; lo_ttlMs : option Z; lo_retries : option Z; lo_retryDelayMs : option Z }.
Record Lock := mkLock { token : string; key : string; acquiredAt : Z; ttlMs : Z }.

Definition step {A} (f : lock_world → lock_world * A) : prog lock_world A := Atom f Ret.
Definition generateToken : prog lock_world string :=
  step (λ w, (w <| lockCounter ::= S |>, token_text (S (lockCounter w)) (lock_clock w))).
Definition prefixedKey (k : string) : string := namespace +:+ ":lock:" +:+ k.
(** [sleep(ms)] lets others run; the time it takes passes in steps of the
    environment. *)
Definition sleep (ms : Z) : prog lock_world () := step (λ w, (w, tt)).
(** [Math.max(1, Math.ceil(ms / 1000))]. *)
Definition seconds (ms : Z) : Z := Z.max 1 (- (- ms / 1000)).

Definition from_server {A} (f : Z → R → R * (exn + A)) (none : A) : prog lock_world A :=
  r ← step (λ w, match client w with
                 | Some r => let '(r', a) := f (lock_clock w) r in (w <| client := Some r' |>, a)
                 | None => (w, inr none)
                 end);
  match r with inl e => Throw e | inr a => mret a end.
(** [this.client && this.client.status === 'ready'], with [eval] or without. *)
Definition client_ready (needs_eval : bool) : prog lock_world bool :=
  step (λ w, (w, match client w with Some r => ls_ready r && (negb needs_eval || ls_has_eval r) | None => false end)).

Definition tryAcquire (fullKey token : string) (ttlSeconds : Z) : prog lock_world bool :=
  try_catch
    (ready ← client_ready false;
     if (ready : bool) then from_server (ls_set_nx fullKey token ttlSeconds) false
     else
       existing ← from_server (ls_get fullKey) None;
       if truthy existing then mret false
       else
         step (λ w, (w <| lock_cache ::= cache_set fullKey token (Some ttlSeconds) (lock_clock w) |>, tt)) ;;
         mret true)
    (λ _, mret false).

Definition createLock (fullKey token : string) (ttl : Z) : prog lock_world Lock :=
  step (λ w, (w, mkLock token fullKey (lock_clock w) ttl)).

(** The attempts of [acquire] that are left, the current one included. *)
Fixpoint acquire_loop (attempts : nat) (fullKey : string) (ttl retryDelay : Z) : prog lock_world (option Lock) :=
  match attempts with
  | O => mret None
  | S rest =>
    token ← generateToken;
    acquired ← tryAcquire fullKey token (seconds ttl);
    if (acquired : bool) then l ← createLock fullKey token ttl; mret (Some l)
    else
      (if (0 <? rest)%nat then sleep retryDelay else mret tt) ;;
      acquire_loop rest fullKey ttl retryDelay
  end.
Definition acquire (o : LockOptions) : prog lock_world (option Lock) :=
  acquire_loop (Z.to_nat (nullish (lo_retries o) 0 + 1)) (prefixedKey (lo_key o)) (nullish (lo_ttlMs o) 10000)
    (nullish (lo_retryDelayMs o) 100).

Definition release (l : Lock) : prog lock_world bool :=
  try_catch
    (ready ← client_ready true;
     if (ready : bool) then
       result ← from_server (ls_del_if (key l) (token l)) 0;
       mret (result =? 1)
     else
       step (λ w, (w <| lock_cache ::= cache_del (key l) |>, tt)) ;;
       mret true)
    (λ _, mret false).

Definition extend (l : Lock) (newTtlMs : option Z) : prog lock_world bool :=
  let newTtl := nullish newTtlMs (ttlMs l) in
  try_catch
    (ready ← client_ready true;
     if (ready : bool) then
       result ← from_server (ls_pexpire_if (key l) (token l) newTtl) 0;
       mret (result =? 1)
     else
       step (λ w, (w <| lock_cache ::= cache_set (key l) (token l) (Some (seconds newTtl)) (lock_clock w) |>, tt)) ;;
       mret true)
    (λ _, mret false).

Definition withLock {A} (o : LockOptions) (fn : prog lock_world A) : prog lock_world (option A) :=
  lock ← acquire o;
  match lock with
  | None => mret None
  | Some l => finally (a ← fn; mret (Some a)) (release l ;; mret tt)
  end.

(** ** Mutual exclusion *)
Section exclusion.
Context {HL : LockServerLaws R} (k : string) (start horizon : Z) (c0 : nat) (stale : list string).

(** The clock is between [start] and [horizon], and the lock is not held by one of
    the [stale] tokens, which no later token equals. *)
Definition stale_for_good : Prop := ∀ c t, (c0 < c)%nat → token_text c t ∉ stale.
Definition in_period (w : lock_world) : Prop :=
  start <= lock_clock w <= horizon ∧ (c0 ≤ lockCounter w)%nat ∧
  ∀ r t e, client w = Some r → lease r (prefixedKey k) = Some (t, e) → t ∉ stale.
(** The Redis client is there, ready, and has [eval]: the lock is not degraded. *)
Definition served (w : lock_world) : Prop :=
  ∃ r, client w = Some r ∧ ls_ready r = true ∧ ls_has_eval r = true.
Definition usable (w : lock_world) : Prop := in_period w ∧ served w.
(** The lock is held until after the horizon, or there is one place left. *)
Definition held_on (w : lock_world) : bool :=
  match client w with
  | Some r => match lease r (prefixedKey k) with Some (_, e) => horizon <? e | None => false end
  | None => false
  end.
Definition places (w : lock_world) : nat := if held_on w then 0 else 1.

(** What may happen besides the requests: the clock moves on up to the horizon, the
    server forgets what expires before it, the connection comes and goes, other keys,
    the cache and the rest of the world change. *)
Definition lock_env (w w' : lock_world) : Prop :=
  (in_period w → in_period w') ∧ (held_on w = true → held_on w' = true).

Notation lock_pays := (pays_while usable in_period places).
Notation lock_harmless := (harmless_while usable in_period places).

Lemma lock_env_keeps w w' : lock_env w w' → usable w → in_period w' ∧ (places w' ≤ places w)%nat.
Proof.
  intros [Hu Hh] [Hw _]. split; [auto|]. unfold places. destruct (held_on w); [|by destruct (held_on w'); lia]. by rewrite Hh.
Qed.

Lemma lease_keeps w r r' :
  client w = Some r → lease r' (prefixedKey k) = lease r (prefixedKey k) → in_period w →
  in_period (w <| client := Some r' |>) ∧ (places (w <| client := Some r' |>) ≤ places w)%nat.
Proof.
  intros Hr H3 (Hc & Hn & Hst). split.
  - split; [done|]. split; [done|]. cbn. intros r1 t e [= <-]. rewrite H3. by apply Hst.
  - unfold places, held_on. cbn. by rewrite Hr, H3.
Qed.

(** Reading the state of the client. *)
Lemma pays_client_ready b {A} n (p : bool → prog lock_world A) Φ :
  lock_pays n (p true) Φ → lock_pays n (ready ← client_ready b; p ready) Φ.
Proof.
  intros Hp. apply pays_bind, pays_atom. intros w [Hw (r & Hr & Hready & Heval)]. cbn [fst snd]. split; [done|]. exists n. split; [done|]. cbn. rewrite Hr, Hready, Heval, orb_true_r. exact Hp.
Qed.

Lemma pays_from_server {A} n (f : Z → R → R * (exn + A)) none Φ :
  (∀ now r, let '(r', a) := f now r in ∀ w, client w = Some r → lock_clock w = now → in_period w →
     in_period (w <| client := Some r' |>) ∧
     ∃ n', (places (w <| client := Some r' |>) + n' ≤ places w + n)%nat ∧ Φ a n') →
  lock_pays n (from_server f none) Φ.
Proof.
  intros Hf. apply pays_bind, pays_atom. intros w [Hw (r & Hr & _)]. rewrite Hr.
  specialize (Hf (lock_clock w) r). destruct (f (lock_clock w) r) as [r' a]. cbn [fst snd].
  destruct (Hf w Hr eq_refl Hw) as (HI & n' & Hle & HΦ). split; [done|]. exists n'. split; [done|]. by destruct a.
Qed.

Lemma pays_tryAcquire token s :
  token ∉ stale → horizon < start + s * 1000 →
  lock_pays 0 (tryAcquire (prefixedKey k) token s)
    (λ r m, match r with inr true => (1 ≤ m)%nat | _ => True end).
Proof.
  intros Ht Hs. unfold tryAcquire. apply pays_catch, pays_client_ready, pays_from_server. intros now r.
  pose proof (set_nx_law (prefixedKey k) token s now r) as Hl. destruct (ls_set_nx _ _ _ _ _) as [r' a]. cbn [fst snd] in Hl.
  destruct Hl as (_ & [[Hfree Hnew]|[Hsame Hno]]); intros w Hr <- Hw.
  - pose proof Hw as (Hc & Hn & Hst). split.
    { split; [done|]. split; [done|]. cbn. intros r1 t e [= <-]. rewrite Hnew. by intros [= <- _]. }
    exists 1%nat. split; [|by destruct a as [e|[]]]. unfold places, held_on. cbn. rewrite Hr, Hnew.
    rewrite (proj2 (Z.ltb_lt _ _)) by lia. destruct (lease r (prefixedKey k)) as [[t e]|]; [|done].
    by rewrite (proj2 (Z.ltb_ge _ _)) by lia.
  - destruct (lease_keeps w r r' Hr Hsame Hw) as [HI Hle]. split; [done|]. exists 0%nat. split; [lia|].
    by destruct a as [e|[]].
Qed.

Lemma harmless_tryAcquire f token s : f ≠ prefixedKey k → lock_harmless (tryAcquire f token s).
Proof.
  intros Hf. unfold tryAcquire. apply harmless_catch; [|done]. apply pays_client_ready, pays_from_server. intros now r.
  pose proof (set_nx_law f token s now r) as (H3 & _). destruct (ls_set_nx _ _ _ _ _) as [r' a]. cbn [fst snd] in *.
  intros w Hr <- Hw. destruct (lease_keeps w r r' Hr (H3 _ (not_eq_sym Hf)) Hw) as [HI Hle]. split; [done|]. exists 0%nat.
  split; [lia|done].
Qed.

(** The owner-checked scripts, for a token that holds nothing. *)
Definition harmless_handle (l : Lock) : Prop := key l = prefixedKey k → token l ∈ stale.
Lemma harmless_script (f : Z → R → R * (exn + Z)) l :
  harmless_handle l →
  (∀ now r, let r' := (f now r).1 in
    (∀ k', k' ≠ key l → lease r' k' = lease r k') ∧
    (lease r' (key l) = lease r (key l) ∨ ∃ e, lease r (key l) = Some (token l, e))) →
  lock_harmless (from_server f 0).
Proof.
  intros Hl Hf. apply pays_from_server. intros now r. destruct (Hf now r) as (H3 & H4).
  destruct (f now r) as [r' a]. cbn [fst] in *. intros w Hr <- Hw.
  assert (lease r' (prefixedKey k) = lease r (prefixedKey k)) as Hsame.
  { destruct (decide (prefixedKey k = key l)) as [Hk|Hk]; [|by apply H3]. rewrite Hk. destruct H4 as [H4|[e He]]; [done|].
    destruct Hw as (_ & _ & Hst). rewrite <- Hk in He. by destruct (Hst _ _ _ Hr He); apply Hl. }
  destruct (lease_keeps w r r' Hr Hsame Hw) as [HI Hle]. split; [done|]. exists 0%nat. split; [lia|done].
Qed.

Lemma harmless_release l : harmless_handle l → lock_harmless (release l).
Proof.
  intros Hl. unfold release. apply harmless_catch; [|done]. apply pays_client_ready, harmless_bind; [|done].
  apply (harmless_script _ l Hl). intros now r. destruct (del_if_law (key l) (token l) now r) as (? & [?|[_ ?]]); auto.
Qed.
Lemma harmless_extend l ms : harmless_handle l → lock_harmless (extend l ms).
Proof.
  intros Hl. unfold extend. apply harmless_catch; [|done]. apply pays_client_ready, harmless_bind; [|done].
  apply (harmless_script _ l Hl). intros now r.
  destruct (pexpire_if_law (key l) (token l) (nullish ms (ttlMs l)) now r) as (? & [?|[_ ?]]); auto.
Qed.

Lemma pays_generateToken :
  stale_for_good → lock_pays 0 generateToken (λ r m, match r with inr t => t ∉ stale | inl _ => True end).
Proof.
  intros Hs. apply pays_atom. intros w [(Hc & Hn & Hst) _]. cbn [fst snd]. split.
  - split; [done|]. split; [cbn; lia|done].
  - exists 0%nat. split; [unfold places, held_on; cbn; lia|]. cbn. apply Hs. lia.
Qed.

(** A program framed by what the thread holds already. *)
Lemma pays_framed {A B} n (p : prog lock_world A) (q : A → prog lock_world B) (Φ : exn + A → nat → Prop) Ψ :
  lock_pays 0 p Φ →
  (∀ e m, Φ (inl e) m → Ψ (inl e) (m + n)%nat) → (∀ a m, Φ (inr a) m → lock_pays (m + n) (q a) Ψ) →
  lock_pays n (p ≫= q) Ψ.
Proof.
  intros Hp He Hq. apply pays_bind. eapply pays_mono; [apply (pays_frame _ _ _ 0 n), Hp|].
  intros [e|a] m (m' & -> & Hm); [by apply He|by apply Hq].
Qed.

Definition grants (f : string) (r : exn + option Lock) (m : nat) : Prop :=
  match r with inr (Some _) => f = prefixedKey k → (1 ≤ m)%nat | _ => True end.

Lemma pays_acquire_loop attempts f ttl delay n :
  stale_for_good → (f = prefixedKey k → horizon < start + seconds ttl * 1000) →
  lock_pays n (acquire_loop attempts f ttl delay) (grants f).
Proof.
  intros Hs Httl. revert n. induction attempts as [|rest IH]; intros n; cbn [acquire_loop]; [done|].
  apply (pays_framed n generateToken _ _ _ (pays_generateToken Hs)); [done|]. intros t m0 Ht.
  assert (lock_pays 0 (tryAcquire f t (seconds ttl))
    (λ r m, match r with inr true => f = prefixedKey k → (1 ≤ m)%nat | _ => True end)) as Htry.
  { destruct (decide (f = prefixedKey k)) as [->|Hne].
    - eapply pays_mono; [apply pays_tryAcquire; auto|]. by intros [e|[]] m Hm.
    - eapply pays_mono; [by apply harmless_tryAcquire|]. by intros [e|[]] m _. }
  apply (pays_framed _ _ _ _ _ Htry); [done|]. intros acquired m Hm. destruct acquired.
  - unfold createLock. apply pays_bind, pays_atom. intros w [Hw _]. cbn [fst snd]. split; [done|].
    eexists. split; [reflexivity|]. cbn. intros Hf. specialize (Hm Hf). lia.
  - apply pays_harmless_bind; [|done|intros m' [] _; apply IH].
    destruct (0 <? rest)%nat; [|done]. apply harmless_atom; [|done]. by intros w [Hw _].
Qed.

(** The requests of the clients. *)
Inductive lock_request := Acquire (o : LockOptions) | Release (l : Lock) | Extend (l : Lock) (ms : option Z).
Definition serve_lock (r : lock_request) : prog lock_world (lock_request * bool) :=
  match r with
  | Acquire o => l ← acquire o; mret (r, match l with Some _ => true | None => false end)
  | Release l => b ← release l; mret (r, b)
  | Extend l ms => b ← extend l ms; mret (r, b)
  end.
(** The lock on [k] was granted. *)
Definition granted (r : lock_request * bool) : bool :=
  match r with (Acquire o, b) => b && String.eqb (lo_key o) k | _ => false end.
(** Leases asked for outlast the horizon; handles released or extended are stale. *)
Definition lock_request_ok (r : lock_request) : Prop :=
  match r with
  | Acquire o => lo_key o = k → horizon < start + seconds (nullish (lo_ttlMs o) 10000) * 1000
  | Release l | Extend l _ => harmless_handle l
  end.

(** C22: The lock excludes while the Redis client serves it: among any number of
    clients acquiring locks, with any number of attempts, and releasing or extending
    handles that are no longer in force, in any interleaving and whatever commands
    throw (having taken effect or not), at most one acquires the lock on a key before
    the first lease can have expired, and none when the lock is held for that long
    already.  The executions are those in which the client is present, ready and has
    [eval] whenever a step is taken ([served]; without it the lock is degraded, and
    [degraded_lock_excludes_nobody] shows what it is worth then); tokens of later
    acquisitions are new, and the clock stays within the first lease. *)
Theorem lock_exclusive w w' (rs : list lock_request) ps' :
  stale_for_good → in_period w → Forall lock_request_ok rs →
  reachable_while served lock_env (w, map serve_lock rs) (w', ps') →
  (winners granted ps' ≤ places w)%nat.
Proof.
  intros Hs Hw Hrs Hr.
  eapply (winners_bounded_while usable in_period places lock_env granted lock_env_keeps served); [by split|done| |done].
  - rewrite List.Forall_forall in Hrs |- *. intros p (r & <- & Hin)%in_map_iff. specialize (Hrs r Hin).
    destruct r as [o|l|l ms]; cbn [serve_lock lock_request_ok] in *; apply pays_bind.
    + eapply pays_mono; [apply pays_acquire_loop; [done|]|].
      { intros Hf. apply Hrs. unfold prefixedKey in Hf. apply (inj (String.append _)) in Hf. by injection Hf. }
      intros [e|[l|]] m Hm; [done| |done]. cbn. intros Hk%String.eqb_eq. apply Hm. by rewrite Hk.
    + apply pays_harmless; [by apply harmless_release|]. by intros [e|b] m _.
    + apply pays_harmless; [by apply harmless_extend|]. by intros [e|b] m _.
Qed.
End exclusion.

(** ** Degraded mode *)
(** Without a Redis client the lock excludes nobody: every acquisition with at
    least one attempt succeeds at once, whatever the cache holds under the key. *)
Theorem degraded_lock_excludes_nobody o w :
  client w = None → 0 <= nullish (lo_retries o) 0 →
  ∃ w' l, run (acquire o) w = (w', inr (Some l)) ∧ client w' = None ∧ key l = prefixedKey (lo_key o).
Proof.
  intros Hc Hr. unfold acquire. destruct (Z.to_nat (nullish (lo_retries o) 0 + 1)) as [|n] eqn:Hn; [lia|].
  cbn [acquire_loop]. do 2 eexists. unfold generateToken, tryAcquire, client_ready, from_server, createLock, step.
  cbn. rewrite Hc. cbn. rewrite Hc. cbn. split; [done|]. split; [exact Hc|done].
Qed.
End lock.
