(* ===== verification/Regions.v ===== *)
(** * Multi-region manager

    [packages/core/src/services/infrastructure/region-manager.ts]: the registry of
    regions and its primary, routing, probed health with its cache, and the
    broadcast of events with their window of deduplication.  Great-circle distances
    are floating-point numbers and enter as a parameter; round-trip times are
    integers of some unit. *)

From S2P Require Export Process.
From S2P Require Export JsMap.

(** ** Types *)
Section types.
Context {Geo : Type}.

Record RegionConfig := mkRegionConfig {
  id : string; name : string; mongodbUri : string; redisUrl : string; primary : bool; location : option Geo;
  tags : list (string * string) }.
(** [lat] and [long] are given together as a point when both are finite numbers. *)
Record UserLocation := mkUserLocation {
  regionId : option string; point : option Geo; countryCode : option string; ip : option string }.
Definition with_primary (b : bool) (r : RegionConfig) : RegionConfig :=
  mkRegionConfig (id r) (name r) (mongodbUri r) (redisUrl r) b (location r) (tags r).
End types.
Arguments RegionConfig : clear implicits.
Arguments UserLocation : clear implicits.

Record RegionEvent := mkRegionEvent {
  ev_id : option string; ev_type : string; ev_sourceRegion : option string; ev_issuedAt : option Z;
  ev_ttlSeconds : option Z; ev_userId : option string; ev_sessionId : option string; ev_data : option json }.
Record RegionProbeResult := mkProbeResult { pr_mongo : bool; pr_redis : bool; pr_rttMs : option Z; pr_probed : bool }.
Inductive region_status := healthy | degraded | down | unknown.
#[export] Instance region_status_eq_dec : EqDecision region_status.
Proof. solve_decision. Defined.
Record RegionHealth := mkRegionHealth {
  h_regionId : string; h_name : string; h_status : region_status; h_mongo : bool; h_redis : bool;
  h_rttMs : option Z; h_probed : bool; h_checkedAt : Z }.

Definition unconfiguredProbe : RegionProbeResult := mkProbeResult false false None false.
Definition statusFromProbe (result : RegionProbeResult) : region_status :=
  if negb (pr_probed result) then unknown
  else if pr_mongo result && pr_redis result then healthy
  else if pr_mongo result || pr_redis result then degraded else down.

Section manager.
(** Coordinates with the distance between them, where [None] is no number; the
    event handlers, compared by identity; the state outside the manager. *)
Context {Geo Handler World : Type} `{!EqDecision Handler} (haversineKm : Geo → Geo → option Z) (randomUUID : nat → string).
Notation RegionConfig := (RegionConfig Geo).
Notation UserLocation := (UserLocation Geo).

(** The fields of a manager; [regionsById] holds the configurations in the order of
    the options, [receiving] tells whether [unsubscribeTransport] is set. *)
Record RegionManager := mkRegionManager {
  regionsById : list (string * RegionConfig);
  geoResolver : option (UserLocation → exn + option string);
  dedupeWindowMs : Z;
  probeCacheTtlMs : Z;
  seenEvents : list (string * Z);
  handlers : list Handler;
  probeCache : list (string * (Z * RegionHealth));
  receiving : bool;
  outside : World;
}.
#[export] Instance settable_RegionManager : Settable RegionManager := {| eta_expand := λ m,
  mkRegionManager (regionsById m) (geoResolver m) (dedupeWindowMs m) (probeCacheTtlMs m) (seenEvents m) (handlers m)
    (probeCache m) (receiving m) (outside m) |}.
Notation state := (process RegionManager).

(** *** Construction *)
(** The loop over the identifiers. *)
Fixpoint check_ids (regions : list RegionConfig) (ids : list string) : exn + () :=
  match regions with
  | [] => inr tt
  | r :: rest =>
    if String.eqb (id r) "" then inl (JsError "RegionManager requires a unique id per region")
    else if bool_decide (id r ∈ ids) then inl (JsError ("RegionManager: duplicate region id " +:+ quoted (id r)))
    else check_ids rest (id r :: ids)
  end.
(** Promoting the first region when none is primary. *)
Definition promote_first (m : list (string * RegionConfig)) : list (string * RegionConfig) :=
  if existsb (λ kr, primary kr.2) m then m
  else match m with [] => [] | (k, r) :: rest => (k, with_primary true r) :: rest end.
Definition new_RegionManager (regions : list RegionConfig) (resolver : option (UserLocation → exn + option string))
    (dedupe probeTtl : option Z) (w : World) : exn + RegionManager :=
  match regions with
  | [] => inl (JsError "RegionManager requires at least one region")
  | _ =>
    match check_ids regions [] with
    | inl e => inl e
    | inr _ =>
      inr (mkRegionManager (promote_first (foldl (λ m r, map_set (id r) r m) [] regions)) resolver
             (nullish dedupe 60000) (nullish probeTtl 15000) [] [] [] false w)
    end
  end.

(** *** The registry *)
Definition configs (m : RegionManager) : list RegionConfig := map snd (regionsById m).
Definition getRegions := configs.
Definition getRegion (i : string) (m : RegionManager) : option RegionConfig := map_get i (regionsById m).
Definition hasRegion (i : string) (m : RegionManager) : bool := map_has i (regionsById m).
Definition getPrimary (m : RegionManager) : option RegionConfig :=
  match List.find primary (configs m) with Some r => Some r | None => head (configs m) end.
Definition getPrimaryId (m : RegionManager) : string := match getPrimary m with Some r => id r | None => "" end.
(** The loop of [switchPrimary]. *)
Definition set_primary (i : string) : list (string * RegionConfig) → list (string * RegionConfig) :=
  map (λ kr, (kr.1, with_primary (String.eqb (id kr.2) i) kr.2)).

(** *** Routing *)
(** The loop over the distances: strictly nearer regions replace the candidate. *)
Definition nearer (target : Geo) (best : option (RegionConfig * Z)) (r : RegionConfig) : option (RegionConfig * Z) :=
  match location r with
  | None => best
  | Some loc =>
    match haversineKm target loc with
    | None => best
    | Some d => match best with Some (_, km) => if d <? km then Some (r, d) else best | None => Some (r, d) end
    end
  end.
Definition nearest_by_distance (target : Geo) (regions : list RegionConfig) : option RegionConfig :=
  fst <$> foldl (nearer target) None regions.
Definition explicit_region (l : UserLocation) (m : RegionManager) : option RegionConfig :=
  if truthy (regionId l) then getRegion (nullish (regionId l) "") m else None.
Definition resolved_region (l : UserLocation) (m : RegionManager) : exn + option RegionConfig :=
  match geoResolver m with
  | None => inr None
  | Some resolve =>
    match resolve l with
    | inl e => inl e
    | inr r => inr (if truthy r then getRegion (nullish r "") m else None)
    end
  end.
Definition getNearestRegion (l : UserLocation) (m : RegionManager) : exn + option RegionConfig :=
  match explicit_region l m with
  | Some r => inr (Some r)
  | None =>
    match resolved_region l m with
    | inl e => inl e
    | inr (Some r) => inr (Some r)
    | inr None =>
      match point l with
      | Some target =>
        match nearest_by_distance target (configs m) with
        | Some r => inr (Some r)
        | None => inr (getPrimary m)
        end
      | None => inr (getPrimary m)
      end
    end
  end.
Definition nowhere : UserLocation := mkUserLocation None None None None.

(** *** Health *)
Context (probe : RegionConfig → prog state RegionProbeResult).
Definition unknown_region (i : string) : exn := JsError ("RegionManager: unknown region " +:+ quoted i).
(** [probeRegion]. *)
Definition cached_health (i : string) (m : RegionManager) (now : Z) : option RegionHealth :=
  match map_get i (probeCache m) with
  | Some (at_, h) => if now <=? at_ + probeCacheTtlMs m then Some h else None
  | None => None
  end.
Definition probeRegion (i : string) : prog state RegionHealth :=
  config ← reads (getRegion i);
  match config with
  | None => Throw (unknown_region i)
  | Some c =>
    cached ← Atom (λ p : state, (p, cached_health i (Process.state p) (time p))) Ret;
    match cached with
    | Some h => mret h
    | None =>
      result ← try_catch (probe c) (λ _, mret (mkProbeResult false false None true));
      checkedAt ← date_now;
      let h := mkRegionHealth i (name c) (statusFromProbe result) (pr_mongo result) (pr_redis result)
                 (pr_rttMs result) (pr_probed result) checkedAt in
      at_ ← date_now;
      modify (λ m, m <| probeCache ::= map_set i (at_, h) |>) ;;
      mret h
    end
  end.
Definition pruneProbeCache : prog state () :=
  Atom (λ p : state, (p <| Process.state ::= λ m, m <| probeCache ::=
    List.filter (λ e, negb (e.2.1 + probeCacheTtlMs m <? time p)) |> |>, tt)) Ret.
Fixpoint probe_all (ids : list string) : prog state (list RegionHealth) :=
  match ids with
  | [] => mret []
  | i :: rest => h ← probeRegion i; t ← probe_all rest; mret (h :: t)
  end.
Definition health : prog state (list RegionHealth) :=
  pruneProbeCache ;;
  regions ← reads configs;
  probe_all (map id regions).

(** The loop of [pickBestRegion] over the entries. *)
Definition better (best : option (RegionHealth * Z)) (h : RegionHealth) : option (RegionHealth * Z) :=
  if bool_decide (h_status h = down) then best
  else match h_rttMs h with
       | None => best
       | Some rtt => match best with Some (_, b) => if rtt <? b then Some (h, rtt) else best | None => Some (h, rtt) end
       end.
Definition pickBestRegion : prog state (option RegionConfig) :=
  entries ← health;
  match foldl better None entries with
  | Some (h, _) =>
    best ← reads (getRegion (h_regionId h));
    match best with
    | Some r => mret (Some r)
    | None => r ← reads (getNearestRegion nowhere); result_prog r
    end
  | None => r ← reads (getNearestRegion nowhere); result_prog r
  end.
Definition getClient (i : string) : prog state (RegionConfig * bool * prog state RegionHealth) :=
  config ← reads (getRegion i);
  match config with
  | None => Throw (unknown_region i)
  | Some c => mret (c, primary c, probeRegion i)
  end.

(** *** Events *)
Definition prune_seen (now : Z) (seen : list (string * Z)) : list (string * Z) :=
  List.filter (λ e, negb (e.2 <? now)) seen.
Definition event_expiry (e : RegionEvent) (window now : Z) : Z :=
  let ttlMs := match ev_ttlSeconds e with Some s => s * 1000 | None => window end in
  Z.max now (nullish (ev_issuedAt e) now + ttlMs).
(** [isNewEvent], which runs without interruption. *)
Definition is_new_event (e : RegionEvent) (p : state) : state * bool :=
  let p := match ev_id e with None => p <| drawn ::= S |> | Some _ => p end in
  let i := match ev_id e with Some i => i | None => randomUUID (pred (drawn p)) end in
  let now := time p in
  let p := p <| Process.state ::= λ m, m <| seenEvents ::= prune_seen now |> |> in
  let m := Process.state p in
  if match map_get i (seenEvents m) with Some expiresAt => now <=? expiresAt | None => false end then (p, false)
  else (p <| Process.state ::= λ m, m <| seenEvents ::= map_set i (event_expiry e (dedupeWindowMs m) now) |> |>, true).

Context (invoke : Handler → RegionEvent → prog state ()) (publish : RegionEvent → prog state ()).

(** [processIncoming], answering whether the event was handed to the handlers; the
    handlers do not register others while it runs. *)
Definition processIncoming (e : RegionEvent) : prog state bool :=
  fresh ← Atom (is_new_event e) Ret;
  if negb fresh then mret false
  else
    hs ← reads handlers;
    for_each hs (λ h, try_catch (invoke h e) (λ _, mret tt)) ;;
    mret true.

Definition stamp_event (input : RegionEvent) : prog state RegionEvent :=
  i ← match ev_id input with Some i => mret i | None => random randomUUID end;
  issuedAt ← match ev_issuedAt input with Some t => mret t | None => date_now end;
  source ← match ev_sourceRegion input with Some s => mret s | None => reads getPrimaryId end;
  mret (mkRegionEvent (Some i) (ev_type input) (Some source) (Some issuedAt) (ev_ttlSeconds input) (ev_userId input)
          (ev_sessionId input) (ev_data input)).
Definition broadcastEvent (input : RegionEvent) : prog state RegionEvent :=
  e ← stamp_event input;
  publish e ;;
  mret e.
Definition revokeSession (region sessionId : string) (userId : option string) : prog state RegionEvent :=
  broadcastEvent (mkRegionEvent None "SESSION_REVOKED" (Some region) None None userId (Some sessionId) None).
Definition switchPrimary (i : string) : prog state RegionConfig :=
  next ← reads (getRegion i);
  match next with
  | None => Throw (unknown_region i)
  | Some r =>
    source ← reads getPrimaryId;
    broadcastEvent (mkRegionEvent None "PRIMARY_CHANGED" (Some source) None None None None
                      (Some (JObj [("regionId", JStr i)]))) ;;
    modify (λ m, m <| regionsById ::= set_primary i |>) ;;
    mret (with_primary true r)
  end.

(** [subscribe] with the closure it returns, [start] and [stop]. *)
Definition subscribe (h : Handler) (m : RegionManager) : RegionManager :=
  m <| handlers ::= λ l, if bool_decide (h ∈ l) then l else l ++ [h] |>.
Definition unsubscribe (h : Handler) (m : RegionManager) : RegionManager :=
  m <| handlers ::= List.filter (λ x, negb (bool_decide (x = h))) |>.
Definition start (subscribe_transport : prog state ()) : prog state () :=
  already ← reads receiving;
  if (already : bool) then mret tt else subscribe_transport ;; modify (λ m, m <| receiving := true |>).
Definition stop (unsubscribe_transport : prog state ()) : prog state () :=
  was ← Atom (λ p : state, (p <| Process.state ::= λ m, m <| receiving := false |> |>, receiving (Process.state p))) Ret;
  if (was : bool) then unsubscribe_transport else mret tt.

(** The in-process transport, whose subscribers run one after another. *)
Definition local_publish (subscribers : list (RegionEvent → prog state ())) (e : RegionEvent) : prog state () :=
  for_each subscribers (λ h, try_catch (h e) (λ _, mret tt)).

(** *** Least elements

    Both selections keep the first element with the least key. *)
Definition pick {A} (key : A → option Z) (best : option (A * Z)) (x : A) : option (A * Z) :=
  match key x with
  | None => best
  | Some d => match best with Some (_, b) => if d <? b then Some (x, d) else best | None => Some (x, d) end
  end.
Definition least_of {A} (key : A → option Z) (l : list A) (best : option (A * Z)) : Prop :=
  match best with
  | Some (x, d) => In x l ∧ key x = Some d ∧ ∀ y d', In y l → key y = Some d' → d <= d'
  | None => ∀ y, In y l → key y = None
  end.
Lemma pick_least {A} (key : A → option Z) l : least_of key l (foldl (pick key) None l).
Proof.
  induction l as [|x l IH] using rev_ind; [by intros ? []|]. rewrite foldl_app. cbn [foldl]. unfold pick at 1.
  assert (∀ y, In y (l ++ [x]) ↔ In y l ∨ y = x) as Happ by (intros y; rewrite in_app_iff; cbn; naive_solver).
  destruct (key x) as [d|] eqn:Hx; destruct (foldl (pick key) None l) as [[y b]|]; cbn [least_of] in *.
  - destruct IH as (Hin & Hy & Hle). destruct (Z.ltb_spec d b); cbn; rewrite Happ; (split; [auto|split; [done|]]);
      intros z d' [Hz| ->]%Happ Hk; try (specialize (Hle _ _ Hz Hk)); try (rewrite Hx in Hk; injection Hk as <-); lia.
  - rewrite Happ. split; [auto|]. split; [done|]. intros z d' [Hz| ->]%Happ Hk; [by rewrite IH in Hk|].
    rewrite Hx in Hk. injection Hk as <-. lia.
  - destruct IH as (Hin & Hy & Hle). rewrite Happ. split; [auto|]. split; [done|]. intros z d' [Hz| ->]%Happ Hk; [by eapply Hle|congruence].
  - intros z [Hz| ->]%Happ; auto.
Qed.

Definition distance_to (target : Geo) (r : RegionConfig) : option Z :=
  match location r with Some loc => haversineKm target loc | None => None end.
Definition usable_rtt (h : RegionHealth) : option Z := if bool_decide (h_status h = down) then None else h_rttMs h.
Lemma nearer_pick target best r : nearer target best r = pick (distance_to target) best r.
Proof. unfold nearer, pick, distance_to. by destruct (location r). Qed.
Lemma better_pick best h : better best h = pick usable_rtt best h.
Proof. unfold better, pick, usable_rtt. by case_bool_decide. Qed.
Lemma foldl_pick {A} (f : option (A * Z) → A → option (A * Z)) key l acc :
  (∀ best x, f best x = pick key best x) → foldl f acc l = foldl (pick key) acc l.
Proof. intros Hf. revert acc. induction l as [|x l IH]; intros acc; cbn; [done|]. by rewrite Hf. Qed.
Lemma nearest_least target l : ∃ best, nearest_by_distance target l = fst <$> best ∧ least_of (distance_to target) l best.
Proof.
  eexists. split; [unfold nearest_by_distance; by rewrite (foldl_pick _ _ _ _ (nearer_pick target))|apply pick_least].
Qed.

(** *** Well-formed registries *)
(** At least one region; every region under its own identifier, none twice; a
    primary. *)
Definition registry_wf (m : list (string * RegionConfig)) : Prop :=
  m ≠ [] ∧ NoDup (map_keys m) ∧ (∀ k r, In (k, r) m → id r = k ∧ k ≠ "") ∧ existsb (λ kr, primary kr.2) m = true.

Lemma getRegion_In i m r : map_get i (regionsById m) = Some r → In r (configs m).
Proof. intros H%map_get_In. apply in_map_iff. by exists (i, r). Qed.
Lemma primary_exists m : registry_wf (regionsById m) → ∃ r, getPrimary m = Some r ∧ In r (configs m) ∧ primary r = true.
Proof.
  intros (_ & _ & _ & Hp). unfold getPrimary. apply existsb_exists in Hp as ([k r] & Hin & Hr).
  destruct (List.find primary (configs m)) as [x|] eqn:Hf.
  - exists x. split; [done|]. by apply List.find_some in Hf.
  - assert (In r (configs m)) as Hin' by (apply in_map_iff; by exists (k, r)).
    pose proof (List.find_none _ _ Hf r Hin'). cbn in Hr. congruence.
Qed.

(** Routing always finds a region: when the resolver does not throw, a
    well-formed manager routes every caller to a configured region, the one named
    explicitly when it exists, otherwise the one the resolver names, otherwise one
    no farther than any other with a known distance, and otherwise a primary. *)
Theorem routing_total l m :
  registry_wf (regionsById m) → (∀ resolve, geoResolver m = Some resolve → ∃ r, resolve l = inr r) →
  ∃ r, getNearestRegion l m = inr (Some r) ∧ In r (configs m) ∧
    match explicit_region l m with
    | Some r' => r = r'
    | None =>
      match resolved_region l m with
      | inr (Some r') => r = r'
      | _ =>
        match point l with
        | Some target =>
          (∃ d, distance_to target r = Some d ∧ ∀ r' d', In r' (configs m) → distance_to target r' = Some d' → d <= d') ∨
          (∀ r', In r' (configs m) → distance_to target r' = None) ∧ primary r = true
        | None => primary r = true
        end
      end
    end.
Proof.
  intros Hwf Hres. unfold getNearestRegion. destruct (explicit_region l m) as [r|] eqn:He.
  { exists r. unfold explicit_region in He. destruct (truthy _); [|done]. by apply getRegion_In in He. }
  unfold resolved_region. destruct (primary_exists m Hwf) as (pr & Hpr & Hprin & Hprim).
  assert (∃ o, match geoResolver m with
    | Some resolve => match resolve l with inl e => inl e | inr r => inr (if truthy r then getRegion (nullish r "") m else None) end
    | None => inr None end = inr (A := exn) o ∧ ∀ r, o = Some r → In r (configs m)) as (o & -> & Ho).
  { destruct (geoResolver m) as [resolve|]; [|by exists None]. destruct (Hres _ eq_refl) as [r ->]. eexists; split; [done|].
    destruct (truthy r); [|done]. intros x. apply getRegion_In. }
  destruct o as [r|]; [exists r; auto|]. destruct (point l) as [target|]; [|exists pr; by rewrite Hpr].
  destruct (nearest_least target (configs m)) as (best & -> & Hl). destruct best as [[r d]|]; cbn in *.
  - exists r. destruct Hl as (Hin & Hd & Hle). split; [done|]. split; [done|]. left. eauto.
  - exists pr. rewrite Hpr. auto.
Qed.

(** *** Construction *)
Lemma check_ids_spec regions ids :
  check_ids regions ids = inr tt ↔
  NoDup (map id regions) ∧ ∀ r, In r regions → id r ≠ "" ∧ id r ∉ ids.
Proof.
  revert ids. induction regions as [|r rest IH]; intros ids; cbn [check_ids map]; [split; [intros _; split; [constructor|done]|done]|].
  rewrite NoDup_cons. destruct (String.eqb_spec (id r) "") as [He|He].
  { split; [done|]. intros [_ Hr]. by destruct (Hr r (or_introl eq_refl)). }
  case_bool_decide as Hd.
  { split; [done|]. intros [_ Hr]. by destruct (Hr r (or_introl eq_refl)). }
  rewrite IH. split.
  - intros [Hnd Hr]. split; [split; [|done]|].
    + intros (r' & Hid & Hin)%list_elem_of_In%in_map_iff. destruct (Hr r' Hin) as [_ Hn]. apply Hn. rewrite Hid. left.
    + intros r' [<-|Hin]; [done|]. destruct (Hr r' Hin) as [? Hn]. split; [done|]. intros Hi. apply Hn. by right.
  - intros [[Hn Hnd] Hr]. split; [done|]. intros r' Hin. destruct (Hr r' (or_intror Hin)) as [? Hni]. split; [done|].
    intros [Hid|Hid]%elem_of_cons; [|done]. apply Hn, list_elem_of_In, in_map_iff. by exists r'.
Qed.

Lemma index_regions regions m :
  NoDup (map id regions) → (∀ r, In r regions → map_get (id r) m = None) →
  foldl (λ m r, map_set (id r) r m) m regions = m ++ map (λ r : RegionConfig, (id r, r)) regions.
Proof.
  revert m. induction regions as [|r rest IH]; intros m Hnd Hm; cbn; [by rewrite app_nil_r|].
  cbn in Hnd. apply NoDup_cons in Hnd as [Hr Hnd].
  assert (∀ (m : list (string * RegionConfig)) k v, map_get k m = None → map_set k v m = m ++ [(k, v)]) as Hset.
  { clear. induction m as [|[k0 v0] m IH]; intros k v; cbn; [done|]. destruct (String.eqb k k0); [done|]. intros Hk. by rewrite IH. }
  rewrite Hset, IH, <- app_assoc; [done|done| |by apply Hm; left].
  intros r' Hin. rewrite <- Hset, map_get_set by (apply Hm; by left). destruct (String.eqb_spec (id r') (id r)) as [He|_].
  - destruct Hr. rewrite <- He. apply list_elem_of_In, in_map_iff. by exists r'.
  - apply Hm. by right.
Qed.

(** A manager is built exactly from a non-empty list of regions with distinct,
    non-empty identifiers; its registry is then well-formed, keeps the regions in
    order, and only when none was primary makes the first one so. *)
Theorem construction_spec regions resolver dedupe ttl w :
  ((∃ m, new_RegionManager regions resolver dedupe ttl w = inr m) ↔
    regions ≠ [] ∧ NoDup (map id regions) ∧ ∀ r, In r regions → id r ≠ "") ∧
  ∀ m, new_RegionManager regions resolver dedupe ttl w = inr m →
    registry_wf (regionsById m) ∧
    configs m = (if existsb primary regions then regions
                 else match regions with [] => [] | r :: rest => with_primary true r :: rest end).
Proof.
  unfold new_RegionManager.
  assert (∀ r rest, check_ids (r :: rest) [] = inr tt →
    let m := foldl (λ m r, map_set (id r) r m) [] (r :: rest) in
    m = map (λ r : RegionConfig, (id r, r)) (r :: rest) ∧ registry_wf (promote_first m)) as Hwf.
  { intros r rest [Hnd Hne]%check_ids_spec m. unfold m. rewrite index_regions, app_nil_l by done. split; [done|].
    unfold promote_first. set (l := map _ _). assert (map_keys l = map id (r :: rest)) as Hk by (unfold l, map_keys; by rewrite map_map).
    assert (∀ k x, In (k, x) l → id x = k ∧ k ≠ "") as Hl by (intros k x (y & [= <- <-] & Hin)%in_map_iff; split; [done|by apply Hne]).
    destruct (existsb _ l) eqn:Hp.
    - split; [done|]. split; [by rewrite Hk|]. by split.
    - unfold l. cbn [map]. split; [done|]. split; [by rewrite <- Hk in Hnd|]. split; [|done].
      intros k x [[= <- <-]|Hin]; [cbn; split; [done|apply Hne; by left]|]. apply Hl. by right. }
  destruct regions as [|r rest]; [split; [split; [by intros [m Hm]|naive_solver]|done]|].
  destruct (check_ids (r :: rest) []) as [e|[]] eqn:Hc.
  - split; [|done]. split; [by intros [m Hm]|]. intros (_ & Hnd & Hne). exfalso.
    enough (check_ids (r :: rest) [] = inr tt) by congruence. apply check_ids_spec. split; [done|]. intros x Hx. split; [by apply Hne|]. set_solver.
  - destruct (Hwf r rest Hc) as [Hm Hwf']. cbv zeta in *. set (indexed := foldl _ [] (r :: rest)) in *. clearbody indexed. split.
    + split; [|eauto]. intros _. apply check_ids_spec in Hc as [Hnd Hne]. split; [done|]. split; [done|]. intros x Hx. by apply Hne.
    + intros m [= <-]. split; [exact Hwf'|]. unfold configs. cbn [regionsById]. rewrite Hm. unfold promote_first.
      assert (∀ l : list RegionConfig, existsb (λ kr : string * RegionConfig, primary kr.2) (map (λ r, (id r, r)) l) = existsb primary l ∧
        map snd (map (λ r : RegionConfig, (id r, r)) l) = l) as Hl.
      { induction l as [|x l [IH1 IH2]]; cbn; [done|]. by rewrite IH1, IH2. }
      destruct (Hl (r :: rest)) as [-> Hs]. destruct (existsb primary (r :: rest)); [done|]. cbn. f_equal. apply Hl.
Qed.

(** *** The primary *)
Definition primaries (m : list (string * RegionConfig)) : nat := count (λ kr, primary kr.2) m.
Definition one_primary (m : RegionManager) : Prop := registry_wf (regionsById m) ∧ primaries (regionsById m) = 1%nat.

Lemma set_primary_spec i m :
  registry_wf m → is_Some (map_get i m) →
  registry_wf (set_primary i m) ∧ primaries (set_primary i m) = 1%nat ∧
  (∀ k r, map_get k m = Some r → map_get k (set_primary i m) = Some (with_primary (String.eqb k i) r)).
Proof.
  intros (Hne & Hnd & Hid & _) [r Hr].
  assert (map_keys (set_primary i m) = map_keys m) as Hk by (unfold set_primary, map_keys; by rewrite map_map).
  assert (∀ l : list (string * RegionConfig), (∀ k r, In (k, r) l → id r = k) →
    ∀ k x, map_get k l = Some x → map_get k (set_primary i l) = Some (with_primary (String.eqb k i) x)) as Hget.
  { induction l as [|[k0 x0] l IH]; intros Hl k x; cbn; [done|]. destruct (String.eqb_spec k k0) as [->|].
    - intros [= ->]. by rewrite (Hl k0 x (or_introl eq_refl)).
    - apply IH. intros k' x' Hin. apply Hl. by right. }
  assert (∀ k x, map_get k m = Some x → map_get k (set_primary i m) = Some (with_primary (String.eqb k i) x)) as Hg.
  { apply Hget. intros k x Hin. by apply Hid. }
  assert (primaries (set_primary i m) = count (λ kr : string * RegionConfig, String.eqb kr.1 i) m) as Hcount.
  { unfold primaries, set_primary. clear -Hid. induction m as [|[k x] m IH]; [done|]. cbn [map]. rewrite !count_cons. cbn [fst snd].
    rewrite IH by (intros k' x' Hin; apply Hid; by right). cbn. by destruct (Hid k x (or_introl eq_refl)) as [-> _]. }
  assert (count (λ kr : string * RegionConfig, String.eqb kr.1 i) m = 1%nat) as Hone.
  { clear -Hnd Hr. induction m as [|[k x] m IH]; [done|]. rewrite count_cons. cbn [fst]. cbn in Hnd, Hr. apply NoDup_cons in Hnd as [Hn Hnd].
    destruct (String.eqb_spec i k) as [->|Hne].
    - rewrite String.eqb_refl. rewrite (proj2 (count_zero _ m)); [done|].
      destruct (List.find _ m) as [[k' x']|] eqn:Hf; [|done]. apply List.find_some in Hf as [Hin He%String.eqb_eq]. cbn in He. subst k'.
      destruct Hn. apply list_elem_of_In, in_map_iff. by exists (k, x').
    - rewrite (proj2 (String.eqb_neq k i)) by congruence. by apply IH. }
  split; [|split; [by rewrite Hcount|done]]. split; [by destruct m|]. split; [by rewrite Hk|]. split.
  - intros k x ([k' x'] & [= <- <-] & Hin)%in_map_iff. cbn. by apply Hid.
  - apply existsb_exists. exists (i, with_primary true r). split; [|done]. apply map_get_In. rewrite (Hg _ _ Hr). by rewrite String.eqb_refl.
Qed.

Section switching.
(** Publishing an event leaves the registry alone. *)
Definition same_registry (p p' : state) : Prop := regionsById (Process.state p') = regionsById (Process.state p).
#[local] Instance same_registry_preorder : PreOrder same_registry.
Proof. unfold same_registry. split; [done|]. by intros x y z -> ->. Qed.
Context (publish_frame : ∀ e, guarantee same_registry (publish e)).

Lemma broadcast_frame e : guarantee same_registry (broadcastEvent e).
Proof.
  unfold broadcastEvent, stamp_event. repeat (apply guarantee_bind; [|intros ?]); by repeat case_match.
Qed.

(** One primary among regions of fixed identifiers. *)
Definition one_primary_of (ks : list string) (m : RegionManager) : Prop :=
  one_primary m ∧ map_keys (regionsById m) = ks.
Lemma set_primary_keys i m : map_keys (set_primary i m) = map_keys m.
Proof. unfold set_primary, map_keys. by rewrite map_map. Qed.
Lemma map_get_in_keys {V} i (m : list (string * V)) : is_Some (map_get i m) ↔ i ∈ map_keys m.
Proof.
  split.
  - intros [v Hv%map_get_In]. apply list_elem_of_In, in_map_iff. by exists (i, v).
  - intros Hi. destruct (map_get i m) eqn:Hm; [eauto|]. by apply map_get_None_keys in Hm.
Qed.
Lemma harmless_switch ks i : harmless (on_state (one_primary_of ks)) (λ _, 0%nat) (switchPrimary i).
Proof.
  unfold switchPrimary. intros p [Hone Hk]. split; [done|]. exists 0%nat. split; [done|]. cbn [fst snd].
  change (harmless (on_state (one_primary_of ks)) (λ _, 0%nat)
    match getRegion i (Process.state p) with
    | None => Throw (unknown_region i)
    | Some r => source ← reads getPrimaryId;
        broadcastEvent (mkRegionEvent None "PRIMARY_CHANGED" (Some source) None None None None (Some (JObj [("regionId", JStr i)]))) ;;
        modify (λ m, m <| regionsById ::= set_primary i |>) ;; mret (with_primary true r)
    end).
  destruct (getRegion i (Process.state p)) as [r|] eqn:Hr; [|done].
  assert (i ∈ ks) as Hi by (rewrite <- Hk; apply map_get_in_keys; by exists r).
  apply harmless_bind; [by apply (harmless_reads (one_primary_of ks) (λ _, 0%nat))|]. intros source. apply harmless_bind.
  - apply guarantee_harmless. eapply guarantee_mono; [|apply broadcast_frame]. intros q q' Hq Hw. split; [|done].
    unfold on_state, one_primary_of, one_primary in *. by rewrite Hq.
  - intros _. apply harmless_bind; [|done]. apply (harmless_modify (one_primary_of ks) (λ _, 0%nat)). intros m [[Hwf _] Hm]. split; [|done].
    rewrite <- Hm in Hi. apply map_get_in_keys in Hi. destruct (set_primary_spec i _ Hwf Hi) as (Hw & Hc & _).
    split; [by split|]. cbn [regionsById set_field]. by rewrite set_primary_keys.
Qed.

(** There is one primary: a switch that returns leaves the region asked for as
    the only primary and the one [getPrimary] answers; and once a well-formed
    registry has one primary, it keeps exactly one through any interleaving of
    switches, whichever of them fail. *)
Theorem one_primary_kept :
  (∀ i p p' r, registry_wf (regionsById (Process.state p)) → run (switchPrimary i) p = (p', inr r) →
     one_primary (Process.state p') ∧ getPrimary (Process.state p') = Some r ∧ id r = i) ∧
  ∀ (E : state → state → Prop) p p' is_ ps',
    (∀ q q', E q q' → one_primary (Process.state q) →
       one_primary (Process.state q') ∧ map_keys (regionsById (Process.state q')) = map_keys (regionsById (Process.state q))) →
    one_primary (Process.state p) → reachable E (p, map (switchPrimary) is_) (p', ps') →
    one_primary (Process.state p').
Proof.
  split.
  - intros i p p' r Hwf. unfold switchPrimary. rewrite run_bind, run_reads.
    destruct (getRegion i (Process.state p)) as [x|] eqn:Hx; [|done]. rewrite run_bind, run_reads.
    intros (p1 & e & Hb & H)%run_bind_ok. epose proof (guarantee_run same_registry _ p (broadcast_frame _)) as Hs.
    rewrite Hb in Hs. unfold same_registry in Hs. cbn [fst] in Hs. injection H as <- <-.
    unfold one_primary, getPrimary, configs. cbn [Process.state regionsById set_field]. rewrite Hs.
    destruct (set_primary_spec i _ Hwf (ex_intro _ _ Hx)) as (Hw & Hone & Hget). split; [done|].
    destruct Hwf as (_ & Hnd & Hid & _). assert (id x = i) as Hxi by (apply map_get_In in Hx; by apply Hid in Hx as [? _]).
    split; [|done]. clear -Hid Hx Hxi Hone Hnd. unfold getRegion in Hx.
    assert (List.find primary (map snd (set_primary i (regionsById (Process.state p)))) = Some (with_primary true x)) as ->; [|done].
    revert Hx Hid Hnd. generalize (regionsById (Process.state p)). clear Hone p. intros m. induction m as [|[k y] m IH]; cbn; [done|].
    intros Hx Hid Hnd. apply NoDup_cons in Hnd as [_ Hnd]. destruct (Hid k y (or_introl eq_refl)) as [Hy _]. rewrite Hy.
    destruct (String.eqb_spec i k) as [->|Hne].
    + injection Hx as ->. by rewrite String.eqb_refl.
    + rewrite (proj2 (String.eqb_neq k i)) by congruence. cbn. apply IH; [done| |done]. intros k' x' Hin. apply Hid. by right.
  - intros E p p' is_ ps' HE Hp Hr.
    set (ks := map_keys (regionsById (Process.state p))).
    eapply (invariant_reachable (on_state (one_primary_of ks)) E); [|apply List.Forall_forall|exact Hr|by split].
    + intros q q' Hq [Hone Hk]. destruct (HE q q' Hq Hone) as [Hone' Hk']. split; [done|]. by rewrite Hk'.
    + intros t (i & <- & _)%in_map_iff. apply harmless_switch.
Qed.
End switching.

(** *** Events are handled once *)
Section delivery.
Context (x : string) (from horizon window : Z).

(** The clock is in the period, and the window is the manager's. *)
Definition in_period (p : state) : Prop := from <= time p <= horizon ∧ dedupeWindowMs (Process.state p) = window.
(** One delivery is left until the event is remembered beyond the horizon. *)
Definition undelivered (p : state) : nat :=
  match map_get x (seenEvents (Process.state p)) with Some e => if horizon <=? e then 0 else 1 | None => 1 end.
(** An event of this identifier that is to be remembered beyond the horizon,
    wherever in the period it arrives. *)
Definition remembered (e : RegionEvent) : Prop :=
  ev_id e = Some x ∧
  horizon <= nullish (ev_issuedAt e) from + match ev_ttlSeconds e with Some s => s * 1000 | None => window end.

Lemma map_get_filter_same {V} k (v : V) f (m : list (string * V)) :
  map_get k m = Some v → f (k, v) = true → map_get k (List.filter f m) = Some v.
Proof.
  induction m as [|[k0 v0] m IH]; cbn; [done|]. destruct (String.eqb_spec k k0) as [->|Hk].
  - intros [= ->] ->. cbn. by rewrite String.eqb_refl.
  - intros Hm Hf. destruct (f (k0, v0)); cbn; [rewrite (proj2 (String.eqb_neq _ _)) by done|]; auto.
Qed.
Lemma prune_keeps e now (seen : list (string * Z)) :
  map_get x seen = Some e → now <= e → map_get x (prune_seen now seen) = Some e.
Proof. intros He Hn. apply map_get_filter_same; [done|]. cbn. lia. Qed.

Lemma is_new_pays e p :
  remembered e → in_period p →
  let '(p', fresh) := is_new_event e p in
  in_period p' ∧ (undelivered p' + (if fresh : bool then 1 else 0) ≤ undelivered p)%nat.
Proof.
  intros [Hi Hw] [Hp Hwin]. unfold is_new_event. rewrite Hi. cbv zeta. cbn [Process.state set_field seenEvents time].
  destruct (map_get x (prune_seen (time p) (seenEvents (Process.state p)))) as [e0|] eqn:Hg.
  - destruct (Z.leb_spec (time p) e0).
    + split; [by split|]. unfold undelivered. cbn [Process.state set_field seenEvents]. rewrite Hg.
      destruct (map_get x (seenEvents (Process.state p))) as [e1|] eqn:H1; [|destruct (_ <=? _); lia].
      destruct (Z.leb_spec horizon e1); [|destruct (_ <=? _); lia].
      rewrite (prune_keeps e1 (time p) _ H1) in Hg by lia. injection Hg as <-. rewrite (proj2 (Z.leb_le _ _)) by lia. lia.
    + split; [by split|]. unfold undelivered. cbn [Process.state set_field seenEvents]. rewrite map_get_set, String.eqb_refl.
      rewrite (proj2 (Z.leb_le horizon _)); [|unfold event_expiry; cbn; destruct (ev_issuedAt e); cbn in *; rewrite Hwin; lia].
      destruct (map_get x (seenEvents (Process.state p))) as [e1|] eqn:H1; [|lia].
      destruct (Z.leb_spec horizon e1); [|lia]. rewrite (prune_keeps e1 (time p) _ H1) in Hg by lia. injection Hg as ->. lia.
  - split; [by split|]. unfold undelivered. cbn [Process.state set_field seenEvents]. rewrite map_get_set, String.eqb_refl.
    rewrite (proj2 (Z.leb_le horizon _)); [|unfold event_expiry; cbn; destruct (ev_issuedAt e); cbn in *; rewrite Hwin; lia].
    destruct (map_get x (seenEvents (Process.state p))) as [e1|] eqn:H1; [|lia].
    destruct (Z.leb_spec horizon e1); [|lia]. rewrite (prune_keeps e1 (time p) _ H1) in Hg by lia. done.
Qed.

(** Within the window an event is handled once: of any number of concurrent
    deliveries of events with one identifier, at most one reaches the handlers,
    as long as every copy was issued recently enough to be remembered until the end
    of the period, and none when the event was remembered before; handlers and the
    rest of the process doing nothing about the events seen. *)
Theorem event_handled_once (E : state → state → Prop) p p' es ps' :
  (∀ h e, harmless in_period undelivered (invoke h e)) →
  (∀ q q', E q q' → in_period q → in_period q' ∧ (undelivered q' ≤ undelivered q)%nat) →
  in_period p → Forall remembered es →
  reachable E (p, map (processIncoming) es) (p', ps') →
  (winners (λ fresh : bool, fresh) ps' ≤ undelivered p)%nat ∧ (undelivered p ≤ 1)%nat.
Proof.
  intros Hinv HE Hp Hes Hr. split; [|unfold undelivered; repeat case_match; lia].
  eapply (winners_bounded in_period undelivered E); [exact HE|exact Hp| |exact Hr].
  apply List.Forall_forall. intros t (e & <- & He)%in_map_iff. rewrite List.Forall_forall in Hes. unfold processIncoming.
  apply pays_bind, pays_atom. intros q Hq. pose proof (is_new_pays e q (Hes e He) Hq) as Hn.
  destruct (is_new_event e q) as [q' fresh]. destruct Hn as [HI Hle]. cbn [fst snd]. split; [done|].
  exists (if fresh then 1 else 0)%nat. split; [lia|]. destruct fresh; cbn [negb pays]; [|done].
  change (pays in_period undelivered 1 (hs ← reads handlers; for_each hs (λ h, try_catch (invoke h e) (λ _, mret tt)) ;; mret true) (won (λ b : bool, b))).
  apply pays_harmless_bind; [apply harmless_atom; [|done]; by intros|done|]. intros m hs Hm.
  apply pays_harmless_bind; [|done|by intros k [] Hk _; lia].
  apply harmless_for_each. intros h. by apply harmless_catch.
Qed.
End delivery.

(** *** The best region *)
(** The best region is the fastest that is not down: when the latest health of
    the regions gives a round-trip time to one that is not down, [pickBestRegion]
    answers a configured region whose entry is such and has the least time;
    otherwise it routes as for an unknown location. *)
Theorem best_region_fastest p p1 entries :
  run (health) p = (p1, inr entries) →
  (∀ h, In h entries → is_Some (getRegion (h_regionId h) (Process.state p1))) →
  match foldl better None entries with
  | Some (h, rtt) => ∃ r, run (pickBestRegion) p = (p1, inr (Some r)) ∧ getRegion (h_regionId h) (Process.state p1) = Some r ∧
      In h entries ∧ h_status h ≠ down ∧ h_rttMs h = Some rtt ∧
      ∀ h' rtt', In h' entries → h_status h' ≠ down → h_rttMs h' = Some rtt' → rtt <= rtt'
  | None => run (pickBestRegion) p = (p1, getNearestRegion nowhere (Process.state p1)) ∧
      ∀ h, In h entries → h_status h = down ∨ h_rttMs h = None
  end.
Proof.
  intros Hh Hin. pose proof (pick_least usable_rtt entries) as Hl. rewrite <- (foldl_pick _ _ _ _ better_pick) in Hl.
  unfold pickBestRegion. rewrite run_bind, Hh. unfold usable_rtt in Hl. destruct (foldl better None entries) as [[h rtt]|]; cbn in Hl.
  - destruct Hl as (He & Hk & Hle). destruct (Hin h He) as [r Hr]. case_bool_decide as Hd; [done|]. exists r.
    rewrite run_bind, run_reads, Hr. split_and!; try done. intros h' rtt' Hh' Hd' Hr'. apply (Hle h'); [done|]. by rewrite bool_decide_false.
  - rewrite run_bind, run_reads, run_result. split; [done|]. intros h' Hh'. specialize (Hl h' Hh'). case_bool_decide; auto.
Qed.
End manager.
