(* ===== verification/Webhooks.v ===== *)
(** * Webhooks

    [packages/core/src/services/events/webhook.service.ts]: deliveries to
    registered endpoints, signed and retried, with a ledger of the attempts.
    [fetch] is a program handed to the service; HMAC-SHA-256 and the formatting of
    dates are parameters. *)

From S2P Require Export World.

Section webhooks.
Context {P : Platform}.

Record FetchRequest := mkFetchRequest {
  rq_url : string; rq_headers : list (string * string); rq_body : string }.
Record FetchResponse := mkFetchResponse { rs_ok : bool; rs_status : Z }.

Context (hmac_sha256 : string → string → string) (toISOString : Z → string)
  (fetchImpl : FetchRequest → prog (world P) FetchResponse).

Record WebhookService := mkWebhookService { wb_maxRetries : Z }.
(** The constructor's default. *)
Definition new_webhooks (maxRetries : option Z) : WebhookService := mkWebhookService (nullish maxRetries 5).

Definition sign (secret payload : string) : string := to_hex (hmac_sha256 secret payload).
Definition randomSecret (i : nat) : string := to_base64url (randomBytes i 32).

(** [register] of the service. *)
Definition register_webhook (s : WebhookService) (url : string) (events : list string) (tenantId applicationId : option string) :
    prog (world P) WebhookDoc :=
  secret ← draw randomSecret;
  id ← draw newObjectId;
  let doc := mkWebhookDoc id tenantId applicationId url (Some secret) events true (Some (wb_maxRetries s)) in
  create doc ;;
  mret doc.

(** [list] of the service. *)
Definition list_webhooks (tenantId : option string) : prog (world P) (list WebhookDoc) :=
  if truthy tenantId then find_all (λ d, bool_decide (wh_tenantId d = tenantId)) else find_all (λ _, true).

(** [dispatch] finds the endpoints; each delivery then runs on its own. *)
Definition subscribed (event : string) (d : WebhookDoc) : bool := bool_decide (event ∈ wh_events d) && wh_active d.
Definition dispatch (event : string) : prog (world P) (list WebhookDoc) := find_all (subscribed event).

(** One attempt: the request, and the entry the ledger gets. *)
Definition delivery_body (event : string) (payload : list (string * json)) (t : Z) : string :=
  stringify (JObj [("event", JStr event); ("payload", JObj payload); ("timestamp", JStr (toISOString t))]%string).
Definition delivery_request (webhook : WebhookDoc) (event body : string) : FetchRequest :=
  mkFetchRequest (wh_url webhook)
    ([("content-type", "application/json")%string] ++
     (if truthy (wh_secret webhook) then [("x-pezhwan-signature"%string, sign (nullish (wh_secret webhook) "") body)] else []) ++
     [("x-pezhwan-event"%string, event)]) body.
Definition same_delivery (id : string) (d : WebhookDeliveryDoc) : bool := bool_decide (wd_id d = id).
Definition set_status (st : WebhookDeliveryStatus) (d : WebhookDeliveryDoc) : WebhookDeliveryDoc := d <| wd_status := st |>.
Definition set_retry (at_ : Z) (d : WebhookDeliveryDoc) : WebhookDeliveryDoc :=
  d <| wd_status := wd_retrying |> <| wd_nextAttemptAt := Some at_ |>.

(** Another attempt is due at the answer; [None] ends the delivery. *)
Definition max_retries (s : WebhookService) (webhook : WebhookDoc) : Z := nullish (wh_maxRetries webhook) (wb_maxRetries s).
Definition schedule_retry (id : string) (attempts : Z) : prog (world P) (option Z) :=
  t ← now;
  let nextAttemptAt := t + 1000 * 2 ^ attempts in
  update_one (same_delivery id) (set_retry nextAttemptAt) ;;
  mret (Some nextAttemptAt).

(** The [try] block of [deliver]. *)
Definition attempt (s : WebhookService) (webhook : WebhookDoc) (event : string) (payload : list (string * json))
    (body : string) (attempts : Z) : prog (world P) (option Z) :=
  response ← fetchImpl (delivery_request webhook event body);
  let ok := rs_ok response || (rs_status response =? 404) in
  id ← draw newObjectId;
  create (mkWebhookDeliveryDoc id (wh_id webhook) event payload (if ok then wd_delivered else wd_failed) attempts
    (Some (rs_status response)) None None) ;;
  if ok then mret None
  else if max_retries s webhook <=? attempts then update_one (same_delivery id) (set_status wd_failed) ;; mret None
  else schedule_retry id attempts.
(** The [catch] block. *)
Definition attempt_failed (s : WebhookService) (webhook : WebhookDoc) (event : string) (payload : list (string * json))
    (attempts : Z) (cause : exn) : prog (world P) (option Z) :=
  id ← draw newObjectId;
  create (mkWebhookDeliveryDoc id (wh_id webhook) event payload wd_failed attempts None (Some (err_message cause)) None) ;;
  if max_retries s webhook <=? attempts then mret None else schedule_retry id attempts.

(** The loop of [deliver]: [true] when it ended, [false] when the fuel did. *)
Fixpoint deliver_loop (fuel : nat) (s : WebhookService) (webhook : WebhookDoc) (event : string)
    (payload : list (string * json)) (body : string) (attempts : Z) : prog (world P) bool :=
  match fuel with
  | O => mret false
  | S fuel =>
    let attempts := attempts + 1 in
    next ← try_catch (attempt s webhook event payload body attempts) (attempt_failed s webhook event payload attempts);
    match next with
    | None => mret true
    | Some nextAttemptAt =>
      t ← now;
      sleep (Z.max 0 (nextAttemptAt - t)) ;;
      deliver_loop fuel s webhook event payload body attempts
    end
  end.
(** One attempt at least, and no more than the endpoint allows. *)
Definition delivery_fuel (s : WebhookService) (webhook : WebhookDoc) : nat := Z.to_nat (Z.max 1 (max_retries s webhook)).
Definition deliver (s : WebhookService) (webhook : WebhookDoc) (event : string) (payload : list (string * json)) :
    prog (world P) bool :=
  t ← now;
  t' ← now;
  deliver_loop (delivery_fuel s webhook) s webhook event payload (delivery_body event payload t') 0.

(** ** A delivery ends *)
Definition ledger (w : world P) : nat := length (docs (webhookDeliveries w)).

(** At most [n] entries are added to the ledger, whether the program throws or not. *)
Definition adds {A} (n : nat) (p : prog (world P) A) : Prop := ∀ w, (ledger (run p w).1 ≤ ledger w + n)%nat.

Lemma adds_bind {A B} n m (p : prog (world P) A) (k : A → prog (world P) B) :
  adds n p → (∀ a, adds m (k a)) → adds (n + m) (p ≫= k).
Proof.
  intros Hp Hk w. specialize (Hp w). rewrite run_bind. destruct (run p w) as [w1 [e|a]]; cbn [fst] in *; [lia|].
  specialize (Hk a w1). lia.
Qed.
Lemma adds_catch {A} n m (p : prog (world P) A) h : adds n p → (∀ e, adds m (h e)) → adds (n + m) (try_catch p h).
Proof.
  intros Hp Hh w. specialize (Hp w). rewrite run_catch. destruct (run p w) as [w1 [e|a]]; cbn [fst] in *; [|lia].
  specialize (Hh e w1). lia.
Qed.
Lemma adds_ret {A} (a : A) : adds 0 (mret a).
Proof. intros w. cbn. lia. Qed.
Lemma adds_op {A} n (f : world P → world P * (exn + A)) :
  (∀ w, (ledger (f w).1 ≤ ledger w + n)%nat) → adds n (store_op f).
Proof.
  intros Hf w. rewrite run_store_op. unfold apply_fault. destruct (faults w) as [|[x|] fs]; [apply Hf| |exact (Hf (w <| faults := fs |>))].
  cbn [fst]. destruct (fl_applied x); [exact (Hf (w <| faults := fs |>))|]. exact (Nat.le_add_r (ledger w) n).
Qed.
Lemma adds_create (d : WebhookDeliveryDoc) : adds 1 (create d).
Proof.
  apply adds_op. intros w. unfold insert_doc. pose proof (m_insert_law clash d (tbl w)) as Hi.
  destruct (m_insert clash d (tbl w)) as [c|]; cbn [fst]; [|lia]. destruct Hi as [_ (l1 & l2 & H1 & H2)].
  unfold ledger. cbn in *. rewrite H1, H2, !length_app. cbn. lia.
Qed.
Lemma length_alter_first {D} f (u : D → D) l : length (alter_first f u l) = length l.
Proof. induction l as [|d l IH]; cbn; [done|]. destruct (f d); cbn; by rewrite ?IH. Qed.
Lemma adds_update f (u : WebhookDeliveryDoc → WebhookDeliveryDoc) : adds 0 (update_one f u).
Proof. apply adds_op. intros w. unfold ledger. cbn. rewrite m_update_one_law, length_alter_first. lia. Qed.
Lemma adds_act {A} (f : world P → world P * A) : (∀ w, webhookDeliveries (f w).1 = webhookDeliveries w) → adds 0 (act f).
Proof. intros Hf w. rewrite run_act. unfold ledger. cbn. rewrite Hf. lia. Qed.
Lemma adds_retry id n : adds 0 (schedule_retry id n).
Proof.
  apply (adds_bind 0 0); [by apply adds_act|]. intros t. cbn zeta. apply (adds_bind 0 0); [apply adds_update|]. intros _. apply adds_ret.
Qed.

Lemma adds_attempt s webhook event payload body n :
  (∀ r, adds 0 (fetchImpl r)) → adds 1 (attempt s webhook event payload body n).
Proof.
  intros Hf. apply (adds_bind 0 1); [apply Hf|]. intros response. cbn zeta. apply (adds_bind 0 1); [by apply adds_act|]. intros id.
  apply (adds_bind 1 0); [apply adds_create|]. intros _. destruct (_ || _); [apply adds_ret|].
  destruct (_ <=? _); [|apply adds_retry]. apply (adds_bind 0 0); [apply adds_update|]. intros _. apply adds_ret.
Qed.
Lemma adds_attempt_failed s webhook event payload n e : adds 1 (attempt_failed s webhook event payload n e).
Proof.
  apply (adds_bind 0 1); [by apply adds_act|]. intros id. apply (adds_bind 1 0); [apply adds_create|]. intros _.
  destruct (_ <=? _); [apply adds_ret|apply adds_retry].
Qed.

(** Only an attempt before the last one asks for another. *)
Lemma attempt_next s webhook event payload body n w w' at_ :
  run (try_catch (attempt s webhook event payload body n) (attempt_failed s webhook event payload n)) w =
    (w', inr (Some at_)) → n < max_retries s webhook.
Proof.
  intros H. apply run_catch_ok in H as [H|(w1 & e & _ & H)].
  - unfold attempt in H. first_step H w1 response Hr. cbn zeta in H. first_step H w2 docid Hd. first_step H w3 u Hc.
    destruct (_ || _); [done|]. destruct (Z.leb_spec (max_retries s webhook) n); [|done].
    first_step H w4 u' Hu. done.
  - unfold attempt_failed in H. first_step H w2 docid Hd. first_step H w3 u Hc.
    by destruct (Z.leb_spec (max_retries s webhook) n).
Qed.

Lemma adds_deliver_loop fuel s webhook event payload body n :
  (∀ r, adds 0 (fetchImpl r)) → adds (2 * fuel) (deliver_loop fuel s webhook event payload body n).
Proof.
  intros Hf. revert n. induction fuel as [|fuel IH]; intros n; [apply adds_ret|]. cbn [deliver_loop].
  replace (2 * S fuel)%nat with (2 + 2 * fuel)%nat by lia. apply adds_bind.
  - apply (adds_catch 1 1); [by apply adds_attempt|]. intros e. apply adds_attempt_failed.
  - intros [next|]; [|intros w; cbn; lia]. apply (adds_bind 0); [by apply adds_act|]. intros t.
    apply (adds_bind 0); [by apply adds_act|]. intros _. apply IH.
Qed.

Lemma deliver_loop_ends fuel s webhook event payload body n w w' :
  (0 < fuel)%nat → max_retries s webhook <= n + Z.of_nat fuel →
  run (deliver_loop fuel s webhook event payload body n) w ≠ (w', inr false).
Proof.
  revert n w. induction fuel as [|fuel IH]; intros n w Hpos Hmax; [lia|]. cbn [deliver_loop]. intros H.
  first_step H w1 next Hn. destruct next as [next|]; [|done]. apply attempt_next in Hn.
  first_step H w2 t Ht. first_step H w3 u Hu. apply IH in H; [done|lia|lia].
Qed.

(** Delivering a webhook ends: whatever the endpoint answers and whichever
    database commands fail, the loop stops after at most as many attempts as the
    endpoint allows (one at least), and since an attempt writes one entry and its
    failure one more, the ledger grows by at most twice that number. *)
Theorem deliver_terminates s webhook event payload w :
  (∀ r, adds 0 (fetchImpl r)) →
  let w' := (run (deliver s webhook event payload) w).1 in
  (run (deliver s webhook event payload) w).2 ≠ inr false ∧
  (ledger w' ≤ ledger w + 2 * delivery_fuel s webhook)%nat.
Proof.
  intros Hf. cbn zeta. split.
  - destruct (run (deliver s webhook event payload) w) as [w' r] eqn:H. cbn [snd]. intros ->. unfold deliver in H.
    first_step H w1 t Ht. first_step H w2 t' Ht'. apply deliver_loop_ends in H; [done|unfold delivery_fuel; lia..].
  - assert (adds (0 + (0 + 2 * delivery_fuel s webhook)) (deliver s webhook event payload)) as Ha; [|apply Ha].
    apply adds_bind; [by apply adds_act|]. intros t. apply adds_bind; [by apply adds_act|]. intros t'. by apply adds_deliver_loop.
Qed.
End webhooks.
