(* ===== verification/Randomness.v ===== *)
(** * Random values and constant-time comparisons

    [packages/crypto/src/random.ts] and [packages/crypto/src/timing-safe.ts]. *)

From S2P Require Export World.
From S2P Require Export Password.
From Stdlib Require Import Ascii.

Section randomness.
Context {P : Platform}.

(** ** [random.ts] *)
Definition secureRandomBytes (len : nat) : prog (world P) string := draw (λ i, randomBytes i len).
Definition secureRandomHex (len : nat) : prog (world P) string := draw (λ i, to_hex (randomBytes i len)).
Definition secureRandomBase64 (len : nat) : prog (world P) string := draw (λ i, to_base64url (randomBytes i len)).

Definition ALPHANUMERIC : string := "ABCDEFGHIJKLMNOPQRSTUVWXYZabcdefghijklmnopqrstuvwxyz0123456789".
Fixpoint alphanumeric_of (bytes : string) : string :=
  match bytes with
  | EmptyString => EmptyString
  | String c r => String (char_at ALPHANUMERIC (nat_of_ascii c mod String.length ALPHANUMERIC)) (alphanumeric_of r)
  end.
Definition secureRandomAlphanumeric (len : nat) : prog (world P) string := draw (λ i, alphanumeric_of (randomBytes i len)).

(** The version and variant bits of a UUID: [(b & 0x0f) | 0x40] and
    [(b & 0x3f) | 0x80]. *)
Definition map_byte (f : Z → Z) (c : ascii) : ascii := ascii_of_nat (Z.to_nat (f (Z.of_nat (nat_of_ascii c)))).
Definition version_byte : ascii → ascii := map_byte (λ b, Z.lor (Z.land b 15) 64).
Definition variant_byte : ascii → ascii := map_byte (λ b, Z.lor (Z.land b 63) 128).
Fixpoint update_byte (n : nat) (f : ascii → ascii) (s : string) : string :=
  match s, n with
  | EmptyString, _ => EmptyString
  | String c r, O => String (f c) r
  | String c r, S n => String c (update_byte n f r)
  end.
Definition hex_slice (s : string) (from to : nat) : string := String.substring from (to - from) s.
Definition uuid_of (bytes : string) : string :=
  let hex := to_hex (update_byte 8 variant_byte (update_byte 6 version_byte bytes)) in
  String.concat "-" [hex_slice hex 0 8; hex_slice hex 8 12; hex_slice hex 12 16; hex_slice hex 16 20; hex_slice hex 20 32].
Definition generateUuidV4 : prog (world P) string := draw (λ i, uuid_of (randomBytes i 16)).

Definition secureRandomChoice {A} (items : list A) : prog (world P) A :=
  if (length items =? 0)%nat then Throw (JsError "Cannot select from empty array")
  else
    index ← draw (λ i, randomInt i 0 (Z.of_nat (length items)));
    match items !! Z.to_nat index with Some x => mret x | None => Throw (JsError "undefined") end.

(** The loop of [secureShuffle], from index [i] down to 1. *)
Definition swap {A} (i j : nat) (l : list A) : list A :=
  match l !! i, l !! j with Some x, Some y => <[j := x]> (<[i := y]> l) | _, _ => l end.
Fixpoint shuffle_from {A} (i : nat) (result : list A) : prog (world P) (list A) :=
  match i with
  | O => mret result
  | S i' =>
    j ← draw (λ d, randomInt d 0 (Z.of_nat i + 1));
    shuffle_from i' (swap i (Z.to_nat j) result)
  end.
Definition secureShuffle {A} (items : list A) : prog (world P) (list A) := shuffle_from (length items - 1) items.

(** ** Comparisons, on the UTF-8 bytes of strings *)
(** [timingSafeEqual] of two buffers of equal length. *)
Definition secureCompare (a b : string) : bool :=
  if negb (String.length a =? String.length b)%nat then false else String.eqb a b.
Definition secureCompareString (a b : string) : bool := secureCompare a b.
Definition secureCompareHex (a b : string) : bool := secureCompare (from_hex a) (from_hex b).
Definition timingSafeCompare (expected actual : string) : bool :=
  if negb (String.length expected =? String.length actual)%nat then false else String.eqb expected actual.
Definition timingSafeHexCompare (expected actual : string) : bool := timingSafeCompare expected actual.
Definition timingSafeBufferCompare (expected actual : string) : bool :=
  if negb (String.length expected =? String.length actual)%nat then false else String.eqb expected actual.
Definition compareRateLimitKeys (key1 key2 : string) : bool := timingSafeCompare key1 key2.

(** Digests of one algorithm have the same length. *)
Definition hashCompare (algorithm : HashAlgorithm) (expected actual : string) : bool :=
  String.eqb (createHash algorithm expected) (createHash algorithm actual).
Definition verifySecret (algorithm : HashAlgorithm) (input stored : string) : bool := hashCompare algorithm stored input.
Definition hashSecret (algorithm : HashAlgorithm) (secret : string) : string := to_hex (createHash algorithm secret).

Definition validateBearerToken (authHeader : option string) (expectedToken : string) : bool :=
  match authHeader with
  | None => false
  | Some h =>
    if String.eqb h "" then false
    else
      let token := if String.prefix "Bearer " h then String.substring 7 (String.length h - 7) h else h in
      timingSafeCompare expectedToken token
  end.
Definition validateCsrfToken (token : option string) (expected : string) : bool :=
  if truthy token then timingSafeCompare expected (nullish token "") else false.
Definition validateHmacSignature (hmac : string → string → string) (payload signature secret : string) : bool :=
  timingSafeHexCompare (to_hex (hmac secret payload)) signature.

(** The loop of [constantTimeEqual]. *)
Fixpoint xor_all (diff : Z) (a b : list Z) : Z :=
  match a, b with
  | x :: a, y :: b => xor_all (Z.lor diff (Z.lxor x y)) a b
  | _, _ => diff
  end.
Definition constantTimeEqual (a b : list Z) : bool :=
  if negb (length a =? length b)%nat then false else xor_all 0 a b =? 0.
Definition utf8 (s : string) : list Z := map (λ c, Z.of_nat (nat_of_ascii c)) (list_of_string s).
Definition constantTimeStringEqual (a b : string) : bool :=
  if negb (js_length a =? js_length b) then false else constantTimeEqual (utf8 a) (utf8 b).

(** ** Theorems *)
Lemma xor_all_zero a b d : 0 <= d → (length a = length b) → Forall (λ x, 0 <= x) a → Forall (λ x, 0 <= x) b →
  xor_all d a b = 0 ↔ d = 0 ∧ a = b.
Proof.
  revert b d. induction a as [|x a IH]; intros [|y b] d Hd Hl Ha Hb; cbn [length xor_all] in *; [tauto|done|done|].
  apply Forall_cons in Ha as [Hx Ha]. apply Forall_cons in Hb as [Hy Hb].
  assert (0 <= Z.lxor x y) by (apply Z.lxor_nonneg; lia). rewrite IH; [|by apply Z.lor_nonneg|lia|done|done].
  rewrite Z.lor_eq_0_iff, Z.lxor_eq_0_iff. naive_solver.
Qed.

Lemma compare_decides a b : (if negb (String.length a =? String.length b)%nat then false else String.eqb a b) = String.eqb a b.
Proof.
  destruct (Nat.eqb_spec (String.length a) (String.length b)) as [_|Hne]; [done|]. cbn. symmetry.
  apply String.eqb_neq. by intros ->.
Qed.

Lemma utf8_inj a b : utf8 a = utf8 b → a = b.
Proof.
  unfold utf8. revert b. induction a as [|x a IH]; intros [|y b]; cbn; [done..|]. intros [= H%Nat2Z.inj Hr].
  f_equal; [|by apply IH]. rewrite <- (ascii_nat_embedding x), H. apply ascii_nat_embedding.
Qed.

(** The constant-time comparisons decide equality: [constantTimeEqual], whose
    loop accumulates the exclusive-or of the bytes, answers true exactly on equal
    arrays, [constantTimeStringEqual] exactly on equal strings, and so do
    [timingSafeCompare], [secureCompareString] and the checks built on them. *)
Theorem comparisons_decide_equality :
  (∀ a b, Forall (λ x, 0 <= x < 256) a → Forall (λ x, 0 <= x < 256) b → constantTimeEqual a b = true ↔ a = b) ∧
  (∀ a b, constantTimeStringEqual a b = true ↔ a = b) ∧
  (∀ a b, timingSafeCompare a b = true ↔ a = b) ∧ (∀ a b, secureCompareString a b = true ↔ a = b) ∧
  (∀ t e, validateCsrfToken (Some t) e = true ↔ t ≠ "" ∧ t = e) ∧
  (∀ hmac payload signature secret,
     validateHmacSignature hmac payload signature secret = true ↔ signature = to_hex (hmac secret payload)).
Proof.
  assert (∀ a b, Forall (λ x, 0 <= x < 256) a → Forall (λ x, 0 <= x < 256) b → constantTimeEqual a b = true ↔ a = b) as Hct.
  { intros a b Ha Hb. unfold constantTimeEqual. destruct (Nat.eqb_spec (length a) (length b)) as [Hl|Hl]; cbn [negb].
    - rewrite Z.eqb_eq, xor_all_zero; [tauto|done|done|eapply Forall_impl; [exact Ha|]; cbn; lia|eapply Forall_impl; [exact Hb|]; cbn; lia].
    - split; [done|]. by intros ->. }
  assert (∀ s, Forall (λ x, 0 <= x < 256) (utf8 s)) as Hutf.
  { intros s. unfold utf8. apply List.Forall_forall. intros x (c & <- & _)%in_map_iff. pose proof (nat_ascii_bounded c). lia. }
  split; [done|]. split.
  { intros a b. unfold constantTimeStringEqual. destruct (Z.eqb_spec (js_length a) (js_length b)) as [|Hne]; cbn [negb].
    - rewrite Hct by apply Hutf. split; [apply utf8_inj|by intros ->].
    - split; [done|]. by intros ->. }
  assert (∀ a b, timingSafeCompare a b = true ↔ a = b) as Hts.
  { intros a b. unfold timingSafeCompare. rewrite compare_decides. apply String.eqb_eq. }
  split; [done|]. split; [intros a b; unfold secureCompareString, secureCompare; rewrite compare_decides; apply String.eqb_eq|].
  split.
  - intros t e. unfold validateCsrfToken. cbn [truthy nullish]. case_bool_decide as Ht; cbn [negb]; [naive_solver|].
    rewrite Hts. naive_solver.
  - intros hmac payload signature secret. unfold validateHmacSignature, timingSafeHexCompare. rewrite Hts. split; congruence.
Qed.

(** *** UUIDs *)
Definition is_hex (c : ascii) : bool := bool_decide (is_Some (index_of c HEX_ALPHABET)).
Definition one_of (cs : string) (c : ascii) : bool := bool_decide (is_Some (index_of c cs)).
(** [/^[0-9a-f]{8}-[0-9a-f]{4}-4[0-9a-f]{3}-[89ab][0-9a-f]{3}-[0-9a-f]{12}$/]. *)
Definition uuid_v4_pattern : list (ascii → bool) :=
  replicate 8 is_hex ++ [one_of "-"] ++ replicate 4 is_hex ++ [one_of "-"; one_of "4"] ++ replicate 3 is_hex ++
  [one_of "-"; one_of "89ab"] ++ replicate 3 is_hex ++ [one_of "-"] ++ replicate 12 is_hex.
Fixpoint matches (ps : list (ascii → bool)) (s : string) : bool :=
  match ps, s with
  | [], EmptyString => true
  | p :: ps, String c s => p c && matches ps s
  | _, _ => false
  end.

Lemma hex_high_ok c : is_hex (hex_high c) = true.
Proof. by destruct c as [[] [] [] [] [] [] [] []]. Qed.
Lemma hex_low_ok c : is_hex (hex_low c) = true.
Proof. by destruct c as [[] [] [] [] [] [] [] []]. Qed.
Lemma version_ok c : one_of "4" (hex_high (version_byte c)) = true.
Proof. by destruct c as [[] [] [] [] [] [] [] []]. Qed.
Lemma variant_ok c : one_of "89ab" (hex_high (variant_byte c)) = true.
Proof. by destruct c as [[] [] [] [] [] [] [] []]. Qed.

Lemma uuid_shape bytes : String.length bytes = 16%nat → matches uuid_v4_pattern (uuid_of bytes) = true.
Proof.
  intros Hl. do 16 (destruct bytes as [|? bytes]; [done|]). destruct bytes; [|done].
  unfold uuid_of. cbn [update_byte]. rewrite !to_hex_cons.
  cbn -[is_hex one_of hex_high hex_low version_byte variant_byte]. cbv [String.append]. cbn -[is_hex one_of hex_high hex_low version_byte variant_byte].
  by rewrite !hex_high_ok, !hex_low_ok, version_ok, variant_ok.
Qed.

(** C40: Generated UUIDs are version 4: with sixteen random bytes drawn,
    [generateUuidV4] returns five groups of lower-case hexadecimal digits of the
    right lengths, the third starting with the version and the fourth with the
    variant of RFC 4122. *)
Theorem generateUuidV4_shape w :
  (∀ i n, String.length (randomBytes i n) = n) →
  ∃ w' uuid, run generateUuidV4 w = (w', inr uuid) ∧ matches uuid_v4_pattern uuid = true ∧ String.length uuid = 36%nat.
Proof.
  intros Hr. unfold generateUuidV4. run_step. do 2 eexists. split; [done|].
  assert (∀ ps s, matches ps s = true → String.length s = length ps) as Hlen.
  { intros ps. induction ps as [|p ps IH]; intros [|c s]; cbn; try done. intros [_ H]%andb_prop. by rewrite (IH s). }
  pose proof (uuid_shape (randomBytes (draws w) 16) (Hr _ _)) as Hm. split; [done|]. by rewrite (Hlen _ _ Hm).
Qed.

(** *** Shuffling *)
Lemma swap_permutation {A} i j (l : list A) : swap i j l ≡ₚ l.
Proof.
  unfold swap. destruct (l !! i) as [x|] eqn:Hi; [|done]. destruct (l !! j) as [y|] eqn:Hj; [|done].
  by apply Permutation_insert_swap.
Qed.

Lemma shuffle_from_spec {A} i : ∀ (result : list A) w,
  ∃ w' out, run (shuffle_from i result) w = (w', inr out) ∧ out ≡ₚ result ∧ draws w' = (draws w + i)%nat.
Proof.
  induction i as [|i IH]; intros result w; cbn [shuffle_from]; [exists w, result; split_and!; [done..|lia]|].
  run_step. edestruct IH as (w' & out & -> & Hout & Hd). do 2 eexists. split_and!; [done| |cbn in Hd; lia].
  by rewrite Hout, swap_permutation.
Qed.

(** Shuffling loses and invents nothing: [secureShuffle] always returns, with
    a permutation of its input, after one draw per position but the first. *)
Theorem secureShuffle_permutation {A} (items : list A) w :
  ∃ w' out, run (secureShuffle items) w = (w', inr out) ∧ out ≡ₚ items ∧ draws w' = (draws w + (length items - 1))%nat.
Proof. apply shuffle_from_spec. Qed.
End randomness.
