(* ===== verification/Srp.v ===== *)
(** * Secure remote passwords

    [packages/core/src/services/auth/srp.service.ts], the SRP-6a server over the
    1024-bit group of RFC 5054.  SHA-256 and scrypt are parameters. *)

From S2P Require Export World.
From S2P Require Export Codec.
From Stdlib Require Import HexadecimalString HexadecimalZ Znumtheory Zpow_facts.

(** ** Big integers and hexadecimal strings *)
(** [n.toString(16)] of a non-negative [n]. *)
Definition toString16 (n : Z) : string := NilZero.string_of_int (Z.to_hex_int n).
(** [BigInt('0x' + s)]: [None] is its [SyntaxError]. *)
Definition BigInt_0x (s : string) : option Z :=
  match js_trim_end s with
  | EmptyString => None
  | t => option_map Z.of_hex_uint (NilEmpty.uint_of_string (js_lower t))
  end.

Lemma hex_string_plain d :
  js_trim_end (NilEmpty.string_of_uint d) = NilEmpty.string_of_uint d ∧
  js_lower (NilEmpty.string_of_uint d) = NilEmpty.string_of_uint d.
Proof.
  induction d; [done|..]; destruct IHd as [IH1 IH2]; cbn in *; rewrite IH1, IH2; split; try done;
    by destruct (NilEmpty.string_of_uint d).
Qed.

Lemma BigInt_0x_digits d : d ≠ Hexadecimal.Nil → BigInt_0x (NilEmpty.string_of_uint d) = Some (Z.of_hex_uint d).
Proof.
  intros Hd. unfold BigInt_0x. destruct (hex_string_plain d) as [-> Hl].
  destruct (NilEmpty.string_of_uint d) as [|c s] eqn:Hs; [by destruct d|]. rewrite Hl, <- Hs. by rewrite NilEmpty.usu.
Qed.

Lemma BigInt_0x_toString16 n : 0 <= n → BigInt_0x (toString16 n) = Some n.
Proof.
  intros Hn. pose proof (HexadecimalZ.of_to n) as Hof. destruct n as [|p|p]; [done| |lia].
  pose proof (HexadecimalPos.Unsigned.to_uint_nonnil p) as Hne. unfold toString16.
  change (Z.to_hex_int (Z.pos p)) with (Hexadecimal.Pos (Pos.to_hex_uint p)) in *.
  assert (NilZero.string_of_int (Hexadecimal.Pos (Pos.to_hex_uint p)) = NilEmpty.string_of_uint (Pos.to_hex_uint p)) as ->
    by (cbn; unfold NilZero.string_of_uint; by destruct (Pos.to_hex_uint p)).
  rewrite BigInt_0x_digits by done. f_equal. exact Hof.
Qed.

Lemma BigInt_0x_nonneg s n : BigInt_0x s = Some n → 0 <= n.
Proof.
  unfold BigInt_0x. destruct (js_trim_end s); [done|]. destruct (NilEmpty.uint_of_string _) as [d|]; [|done].
  intros [= <-]. unfold Z.of_hex_uint. lia.
Qed.

(** The big-endian value of a byte string, as [BigInt('0x' + buf.toString('hex'))]
    reads it. *)
Fixpoint bytes_value_from (acc : Z) (s : string) : Z :=
  match s with
  | EmptyString => acc
  | String c r => bytes_value_from (acc * 256 + Z.of_nat (Ascii.nat_of_ascii c)) r
  end.
Definition bytes_value (s : string) : Z := bytes_value_from 0 s.

(** [timingSafeEqual], which throws when the lengths differ. *)
Definition timingSafeEqual (a b : string) : exn + bool :=
  if (String.length a =? String.length b)%nat then inr (String.eqb a b)
  else inl (JsError "Input buffers must have the same byte length").

(** ** Modular exponentiation *)
(** The loop of [modPow]; the remainder of [BigInt]s takes the sign of the dividend. *)
Fixpoint modPow_loop (fuel : nat) (result base e m : Z) : Z :=
  match fuel with
  | O => result
  | S fuel =>
    if 0 <? e then
      modPow_loop fuel (if Z.land e 1 =? 1 then Z.rem (result * base) m else result)
        (Z.rem (base * base) m) (Z.shiftr e 1) m
    else result
  end.
(** Every turn halves the exponent. *)
Definition modPow_fuel (e : Z) : nat := S (Z.to_nat (Z.log2 e)).
Definition modPow (base exp m : Z) : Z := modPow_loop (modPow_fuel exp) 1 (Z.rem base m) exp m.

Lemma halve e : Z.shiftr e 1 = e / 2.
Proof. by rewrite Z.shiftr_div_pow2. Qed.
Lemma low_bit e : Z.land e 1 = e mod 2.
Proof. change 1 with (Z.ones 1). by rewrite Z.land_ones. Qed.

Lemma modPow_loop_spec fuel result base e m :
  0 < m → 0 <= result < m → 0 <= base < m → 0 <= e < 2 ^ Z.of_nat fuel →
  modPow_loop fuel result base e m = (result * base ^ e) mod m.
Proof.
  intros Hm. revert result base e. induction fuel as [|fuel IH]; intros result base e Hr Hb He; cbn [modPow_loop].
  - change (2 ^ Z.of_nat 0) with 1 in He. assert (e = 0) as -> by lia. rewrite Z.pow_0_r, Z.mul_1_r. by rewrite Z.mod_small.
  - rewrite Nat2Z.inj_succ, Z.pow_succ_r in He by lia.
    destruct (Z.ltb_spec 0 e) as [Hpos|Hz].
    2:{ assert (e = 0) as -> by lia. rewrite Z.pow_0_r, Z.mul_1_r. by rewrite Z.mod_small. }
    rewrite (Z.rem_mod_nonneg (base * base) m), halve, low_bit by nia.
    pose proof (Z.mod_pos_bound (base * base) m Hm) as Hbb. pose proof (Z.mod_pos_bound e 2 ltac:(lia)) as Hbit.
    assert (0 <= e / 2 < 2 ^ Z.of_nat fuel) as He' by (split; [apply Z.div_pos|apply Z.div_lt_upper_bound]; lia).
    rewrite IH; [| |done|done].
    2:{ destruct (_ =? 1); [|done]. rewrite Z.rem_mod_nonneg by nia. apply Z.mod_pos_bound. lia. }
    rewrite (Z.div_mod e 2) at 3 by lia. rewrite Z.pow_add_r, Z.pow_mul_r, Z.pow_2_r by lia.
    rewrite <- (Z.mul_mod_idemp_r _ (((base * base) mod m) ^ _)), <- Zpower_mod by lia.
    destruct (Z.eqb_spec (e mod 2) 1) as [Hodd|Heven].
    + rewrite Hodd, Z.pow_1_r, Z.rem_mod_nonneg, Z.mul_mod_idemp_r, Z.mul_mod_idemp_l by nia. f_equal. ring.
    + assert (e mod 2 = 0) as -> by lia. by rewrite Z.pow_0_r, Z.mul_1_r, Z.mul_mod_idemp_r by lia.
Qed.

Lemma modPow_fuel_enough e : 0 <= e → e < 2 ^ Z.of_nat (modPow_fuel e).
Proof.
  intros He. unfold modPow_fuel. rewrite Nat2Z.inj_succ, Z2Nat.id by apply Z.log2_nonneg.
  destruct (Z.eq_dec e 0) as [->|Hne]; [done|]. pose proof (Z.log2_spec e ltac:(lia)). lia.
Qed.

Lemma modPow_mod base e m : 1 < m → 0 <= base → 0 <= e → modPow base e m = base ^ e mod m.
Proof.
  intros Hm Hb He. unfold modPow. rewrite Z.rem_mod_nonneg by lia.
  rewrite modPow_loop_spec; [|lia|lia|apply Z.mod_pos_bound; lia|split; [done|by apply modPow_fuel_enough]].
  by rewrite Z.mul_1_l, <- Zpower_mod by lia.
Qed.

(** C39: [modPow] is modular exponentiation, and its loop ends: the fuel of the model
    suffices for every exponent, more changes nothing, and the result is
    [base ^ exp mod m], which is below the modulus. *)
Theorem modPow_correct base exp m extra :
  1 < m → 0 <= base → 0 <= exp →
  modPow base exp m = base ^ exp mod m ∧
  modPow_loop (modPow_fuel exp + extra) 1 (Z.rem base m) exp m = modPow base exp m ∧
  0 <= modPow base exp m < m.
Proof.
  intros Hm Hb He. rewrite modPow_mod by done. split_and!; [done| |apply Z.mod_pos_bound; lia|apply Z.mod_pos_bound; lia].
  rewrite Z.rem_mod_nonneg, modPow_loop_spec by (lia || (apply Z.mod_pos_bound; lia) || (split; [done|];
    apply Z.lt_le_trans with (1 := modPow_fuel_enough exp He), Z.pow_le_mono_r; lia)).
  by rewrite Z.mul_1_l, <- Zpower_mod by lia.
Qed.

(** ** The group *)
Definition N_HEX : string :=
  "EEAF0AB9ADB38DD69C33F80AFA8FC5E86072618775FF3C0B9EA2314C" +:+
  "9C256576D674DF7496EA81D3383B4813D692C6E0E0D5D8E250B98BE4" +:+
  "8E495C1D6089DAD15DC7D7B46154D6B6CE8EF4AD69B15D4982559B29" +:+
  "7BCF1885C529F566660E57EC68EDBC3C05726CC02FD4CBF4976EAA9A" +:+
  "FD5138FE8376435B9FC61D2FC0EB06E3".
Definition N : Z := nullish (BigInt_0x N_HEX) 0.
Definition g : Z := 2.

Section srp.
Context {P : Platform} (scryptSync : string → string → string).

(** [kFactor]. *)
Definition kFactor : Z :=
  Z.rem (bytes_value (createHash sha256 (from_hex N_HEX +:+ String (Ascii.ascii_of_nat 2) ""))) N.

Record SrpRegistrationVerifier := mkSrpRegistrationVerifier { sv_salt : string; sv_verifier : string }.
Record SrpSession := mkSrpSession {
  sp_serverPrivate : Z;
  sp_serverPublic : string;
  sp_u : Z;
  sp_salt : string;
  sp_verifier : Z;
  sp_serverProofKey : option string;
}.
#[export] Instance settable_SrpSession : Settable SrpSession := {| eta_expand := λ s, mkSrpSession
  (sp_serverPrivate s) (sp_serverPublic s) (sp_u s) (sp_salt s) (sp_verifier s) (sp_serverProofKey s) |}.

(** The private value of a password under a salt. *)
Definition private_value (identifier password saltHex : string) : Z :=
  Z.rem (bytes_value (scryptSync password (identifier +:+ ":" +:+ saltHex))) N.

(** [deriveVerifier]. *)
Definition deriveVerifier (identifier password : string) : prog (world P) SrpRegistrationVerifier :=
  salt ← draw (λ i, randomBytes i 16);
  let x := private_value identifier password (to_hex salt) in
  mret (mkSrpRegistrationVerifier (to_hex salt) (toString16 (modPow g x N))).

(** [begin]. *)
Fixpoint reduce_bytes (acc : Z) (s : string) : Z :=
  match s with
  | EmptyString => acc
  | String c r => reduce_bytes (Z.rem (acc * 256 + Z.of_nat (Ascii.nat_of_ascii c)) N) r
  end.
Definition SYNTAX_ERROR : exn := JsError "Cannot convert to a BigInt".
Definition begin (saltHex verifierHex : string) : prog (world P) SrpSession :=
  match BigInt_0x verifierHex with
  | None => Throw SYNTAX_ERROR
  | Some verifier =>
    b ← draw (λ i, reduce_bytes 0 (randomBytes i 32));
    let B := Z.rem (kFactor * verifier + modPow g b N) N in
    mret (mkSrpSession b (toString16 B) 0 saltHex verifier None)
  end.

(** [hashToKey]. *)
Fixpoint zeros (n : nat) : string := match n with O => EmptyString | S n => String (Ascii.ascii_of_nat 48) (zeros n) end.
Definition padStart0 (n : nat) (s : string) : string := zeros (n - String.length s) +:+ s.
Definition hashToKey (S : Z) (aHex bHex : string) : string :=
  scryptSync (padStart0 (String.length N_HEX) (toString16 S)) (aHex +:+ ":" +:+ bHex).

(** [validateClientProof]: the answer, and the session it leaves. *)
Definition scrambling (aHex bHex : string) : Z :=
  Z.rem (bytes_value (createHash sha256 (from_hex aHex +:+ from_hex bHex))) N.
Definition expected_proof (salt aHex bHex sessionKey : string) : string :=
  let identityHash := to_hex (createHash sha256 salt) in
  to_hex (createHash sha256 (from_hex identityHash +:+ from_hex aHex +:+ from_hex bHex +:+ sessionKey)).
Definition validateClientProof (session : SrpSession) (clientPublicHex clientProof : string) :
    exn + (bool * SrpSession) :=
  match BigInt_0x clientPublicHex with
  | None => inl SYNTAX_ERROR
  | Some A =>
    if Z.rem A N =? 0 then inr (false, session)
    else
      let u := scrambling clientPublicHex (sp_serverPublic session) in
      if u =? 0 then inr (false, session)
      else
        let S := modPow (Z.rem (A * modPow (sp_verifier session) u N) N) (sp_serverPrivate session) N in
        let sessionKey := hashToKey S clientPublicHex (sp_serverPublic session) in
        let expected := expected_proof (sp_salt session) clientPublicHex (sp_serverPublic session) sessionKey in
        match timingSafeEqual (from_hex expected) (from_hex clientProof) with
        | inl e => inl e
        | inr true => inr (true, session <| sp_serverProofKey := Some expected |>)
        | inr false => inr (false, session)
        end
  end.

(** The client of RFC 5054 with private value [a], for the password value [x]. *)
Definition client_public (a : Z) : string := toString16 (modPow g a N).
Definition client_secret (a x u B : Z) : Z :=
  modPow ((B - kFactor * modPow g x N) mod N) (a + u * x) N.
Definition client_proof (a x : Z) (salt bHex : string) : string :=
  let B := nullish (BigInt_0x bHex) 0 in
  let u := scrambling (client_public a) bHex in
  expected_proof salt (client_public a) bHex (hashToKey (client_secret a x u B) (client_public a) bHex).

(** ** Lemmas *)
Lemma N_large : 1 < N.
Proof. by vm_compute. Qed.
Lemma N_odd : N mod 2 = 1.
Proof. by vm_compute. Qed.

Lemma power_of_two_unit a : 0 <= a → 2 ^ a mod N ≠ 0.
Proof.
  intros Ha Hz. pose proof N_large. pose proof N_odd as Hodd.
  assert (rel_prime N (2 ^ a)) as Hr.
  { apply rel_prime_Zpower_r; [done|]. apply Zgcd_1_rel_prime. by vm_compute. }
  apply Z.mod_divide in Hz; [|lia].
  assert ((N | 1)) as Hd by (apply (Gauss N (2 ^ a) 1); [by rewrite Z.mul_1_r|done]).
  apply Z.divide_1_r_nonneg in Hd; lia.
Qed.

Lemma bytes_value_nonneg s acc : 0 <= acc → 0 <= bytes_value_from acc s.
Proof. revert acc. induction s as [|c s IH]; cbn; intros acc H; [done|]. apply IH. lia. Qed.
Lemma reduce_bytes_bound s acc : 0 <= acc < N → 0 <= reduce_bytes acc s < N.
Proof.
  revert acc. induction s as [|c s IH]; cbn [reduce_bytes]; intros acc H; [done|]. apply IH.
  pose proof N_large. rewrite Z.rem_mod_nonneg by lia. apply Z.mod_pos_bound. lia.
Qed.
Lemma rem_bound x : 0 <= x → 0 <= Z.rem x N < N.
Proof. intros Hx. pose proof N_large. rewrite Z.rem_mod_nonneg by lia. apply Z.mod_pos_bound. lia. Qed.

Lemma pow_mod_idemp x n : (x mod N) ^ n mod N = x ^ n mod N.
Proof. destruct (Z.neg_nonneg_cases n) as [Hn|Hn]; [by rewrite !Z.pow_neg_r|]. symmetry. by apply Zpower_mod. Qed.

(** Both sides reach the same secret. *)
Lemma secrets_agree a b x u :
  0 <= a → 0 <= b → 0 <= x → 0 <= u → 0 <= kFactor →
  let B := Z.rem (kFactor * (g ^ x mod N) + g ^ b mod N) N in
  client_secret a x u B = (g ^ a mod N * (g ^ x mod N) ^ u) ^ b mod N.
Proof.
  intros Ha Hb Hx Hu Hk B. pose proof N_large as HN. unfold client_secret, B.
  rewrite (modPow_mod g), modPow_mod by (done || nia || (apply Z.mod_pos_bound; lia)). rewrite pow_mod_idemp.
  assert (0 <= g ^ x mod N) by (apply Z.mod_pos_bound; lia). assert (0 <= g ^ b mod N) by (apply Z.mod_pos_bound; lia).
  rewrite Z.rem_mod_nonneg by nia. rewrite Zpower_mod by lia.
  assert (((kFactor * (g ^ x mod N) + g ^ b mod N) mod N - kFactor * (g ^ x mod N)) mod N = g ^ b mod N) as ->.
  { rewrite Zminus_mod_idemp_l, Z.add_simpl_l. apply Z.mod_mod. lia. }
  rewrite <- (pow_mod_idemp (_ * _)), Zmult_mod_idemp_l, <- Zmult_mod_idemp_r, (pow_mod_idemp _ u), Zmult_mod_idemp_r, !pow_mod_idemp.
  rewrite <- (Z.pow_mul_r g x u), <- Z.pow_add_r, <- !Z.pow_mul_r by nia. f_equal. f_equal. ring.
Qed.

Lemma kFactor_nonneg : 0 <= kFactor.
Proof. apply rem_bound, bytes_value_nonneg. lia. Qed.
Lemma private_value_nonneg identifier password salt : 0 <= private_value identifier password salt.
Proof. apply rem_bound, bytes_value_nonneg. lia. Qed.
Lemma scrambling_nonneg aHex bHex : 0 <= scrambling aHex bHex.
Proof. apply rem_bound, bytes_value_nonneg. lia. Qed.
Lemma timingSafeEqual_refl s : timingSafeEqual s s = inr true.
Proof. unfold timingSafeEqual. by rewrite Nat.eqb_refl, String.eqb_refl. Qed.
Lemma timingSafeEqual_true a b : timingSafeEqual a b = inr true → a = b.
Proof. unfold timingSafeEqual. destruct (_ =? _)%nat; [|done]. intros [= H]. by apply String.eqb_eq. Qed.

(** What the two calls of the server leave. *)
Lemma run_deriveVerifier identifier password w :
  ∃ w' v, run (deriveVerifier identifier password) w = (w', inr v) ∧
    sv_verifier v = toString16 (g ^ private_value identifier password (sv_salt v) mod N).
Proof.
  eexists _, _. split; [by cbn -[modPow private_value]|]. cbn -[modPow private_value].
  f_equal. apply modPow_mod; [apply N_large|done|apply private_value_nonneg].
Qed.

Lemma run_begin salt n w :
  0 <= n → ∃ w' session, run (begin salt (toString16 n)) w = (w', inr session) ∧
    sp_salt session = salt ∧ sp_verifier session = n ∧ 0 <= sp_serverPrivate session ∧
    sp_serverPublic session =
      toString16 (Z.rem (kFactor * sp_verifier session + g ^ sp_serverPrivate session mod N) N).
Proof.
  intros Hn. unfold begin. rewrite BigInt_0x_toString16 by done.
  eexists _, _. split; [by cbn -[reduce_bytes N modPow kFactor]|]. cbn -[reduce_bytes N modPow kFactor].
  pose proof N_large. pose proof (reduce_bytes_bound (randomBytes (draws w) 32) 0 ltac:(lia)).
  rewrite modPow_mod; [tauto|done..|]. lia.
Qed.

Lemma client_public_value a : 0 <= a → BigInt_0x (client_public a) = Some (g ^ a mod N).
Proof.
  intros Ha. pose proof N_large. unfold client_public. rewrite modPow_mod by done.
  apply BigInt_0x_toString16, Z.mod_pos_bound. lia.
Qed.

(** The secret the server computes. *)
Lemma server_secret A v u b :
  0 <= A → 0 <= v → 0 <= u → 0 <= b → modPow (Z.rem (A * modPow v u N) N) b N = (A * v ^ u) ^ b mod N.
Proof.
  intros HA Hv Hu Hb. pose proof N_large. rewrite (modPow_mod v) by done.
  pose proof (Z.mod_pos_bound (v ^ u) N ltac:(lia)). assert (0 <= A * (v ^ u mod N)) by nia.
  rewrite modPow_mod; [|done|by apply rem_bound|done]. rewrite Z.rem_mod_nonneg by lia.
  by rewrite Zmult_mod_idemp_r, pow_mod_idemp.
Qed.

(** ** The protocol *)
(** A proof computed from the right private value is accepted. *)
Lemma honest_proof_accepted a x session :
  0 <= a → 0 <= x → sp_verifier session = g ^ x mod N → 0 <= sp_serverPrivate session →
  sp_serverPublic session =
    toString16 (Z.rem (kFactor * sp_verifier session + g ^ sp_serverPrivate session mod N) N) →
  scrambling (client_public a) (sp_serverPublic session) ≠ 0 →
  let proof := client_proof a x (sp_salt session) (sp_serverPublic session) in
  validateClientProof session (client_public a) proof =
    inr (true, session <| sp_serverProofKey := Some proof |>).
Proof.
  intros Ha Hx Hver Hb HBhex Hu. pose proof N_large as HN.
  assert (∀ n, 0 <= n mod N) as Hmod by (intros n; by apply Z.mod_pos_bound, Z.lt_trans with 1).
  destruct session as [b Bhex u0 salt n key]. cbn [sp_serverPublic sp_serverPrivate sp_salt sp_verifier] in *. subst.
  set (B := Z.rem _ N) in *. assert (0 <= B) as HB.
  { apply rem_bound. pose proof kFactor_nonneg. pose proof (Hmod (g ^ x)). pose proof (Hmod (g ^ b)). nia. }
  cbn zeta. unfold client_proof, validateClientProof. rewrite BigInt_0x_toString16 by done.
  rewrite client_public_value by done.
  rewrite Z.rem_mod_nonneg, Z.mod_mod by (lia || apply Hmod).
  destruct (Z.eqb_spec (g ^ a mod N) 0) as [Hz|_]; [by apply power_of_two_unit in Hz|]. cbn zeta.
  cbn [sp_serverPublic sp_serverPrivate sp_salt sp_verifier nullish]. rewrite (proj2 (Z.eqb_neq _ _) Hu).
  rewrite server_secret by (done || apply Hmod || apply scrambling_nonneg).
  pose proof (secrets_agree a b x _ Ha Hb Hx (scrambling_nonneg (client_public a) (toString16 B)) kFactor_nonneg) as Hag.
  cbn zeta in Hag. fold B in Hag. rewrite Hag. by rewrite timingSafeEqual_refl.
Qed.

(** C34: Registration and sign-in of SRP fit together: whatever the salt and the
    server's private value drawn, [deriveVerifier] stores a verifier for the password,
    [begin] always opens a session on it, and a client that knows the password, with
    any private value, has its proof accepted, the session keeping the proof key;
    unless the scrambling value of the exchange is zero, the one case
    [validateClientProof] turns away. *)
Theorem srp_honest_client identifier password w :
  ∃ w1 v, run (deriveVerifier identifier password) w = (w1, inr v) ∧
  ∀ w2, ∃ w3 session, run (begin (sv_salt v) (sv_verifier v)) w2 = (w3, inr session) ∧
  ∀ a, 0 <= a → scrambling (client_public a) (sp_serverPublic session) ≠ 0 →
  let proof := client_proof a (private_value identifier password (sv_salt v)) (sv_salt v) (sp_serverPublic session) in
  validateClientProof session (client_public a) proof =
    inr (true, session <| sp_serverProofKey := Some proof |>).
Proof.
  destruct (run_deriveVerifier identifier password w) as (w1 & v & -> & Hv). exists w1, v. split; [done|]. intros w2.
  rewrite Hv. destruct (run_begin (sv_salt v) (g ^ private_value identifier password (sv_salt v) mod N) w2) as (w3 & session & -> & Hs).
  { apply Z.mod_pos_bound. pose proof N_large. lia. }
  exists w3, session. split; [done|]. intros a Ha Hu.
  destruct Hs as (Hsalt & Hver & Hb & HB). 
  set (x := private_value _ _ _) in *. rewrite <- Hsalt. apply honest_proof_accepted; try done. apply private_value_nonneg.
Qed.

(** [validateClientProof] accepts only what it should: the client's public key
    is a number that is not a multiple of the modulus, the scrambling value is not
    zero, and the proof is the digest over the salt, both public keys and the session
    key the server derives from its own private value and the stored verifier; a
    rejected proof leaves the session as it was. *)
Theorem srp_accepts_expected session aHex proof ok session' :
  0 <= sp_verifier session → 0 <= sp_serverPrivate session →
  validateClientProof session aHex proof = inr (ok, session') →
  if ok then
    ∃ A, BigInt_0x aHex = Some A ∧ A mod N ≠ 0 ∧ scrambling aHex (sp_serverPublic session) ≠ 0 ∧
      let u := scrambling aHex (sp_serverPublic session) in
      let S := (A * sp_verifier session ^ u) ^ sp_serverPrivate session mod N in
      let expected := expected_proof (sp_salt session) aHex (sp_serverPublic session)
                        (hashToKey S aHex (sp_serverPublic session)) in
      from_hex proof = from_hex expected ∧ session' = session <| sp_serverProofKey := Some expected |>
  else session' = session.
Proof.
  intros Hn Hb. unfold validateClientProof.
  destruct (BigInt_0x aHex) as [A|] eqn:HA; [|done]. apply BigInt_0x_nonneg in HA as HA0. pose proof N_large.
  destruct (Z.eqb_spec (Z.rem A N) 0) as [_|HAN]; [by intros [= <- <-]|]. rewrite Z.rem_mod_nonneg in HAN by lia.
  cbn zeta. destruct (Z.eqb_spec (scrambling aHex (sp_serverPublic session)) 0) as [_|Hu]; [by intros [= <- <-]|].
  rewrite server_secret by (done || apply scrambling_nonneg).
  destruct (timingSafeEqual _ _) as [e|[]] eqn:Ht; [done| |by intros [= <- <-]]. intros [= <- <-].
  apply timingSafeEqual_true in Ht. by exists A.
Qed.
End srp.
