(* ===== verification/SrpProtocol.v ===== *)
(** * The SRP module of the crypto package

    [packages/crypto/src/srp.ts]: both sides of the exchange over the modulus the
    file spells out.  SHA-256 and the random bytes come from the platform. *)

From S2P Require Export Process.
From S2P Require Export Srp.
From Stdlib Require Import Ascii HexadecimalString HexadecimalZ Znumtheory Zpow_facts.

(** The lines of [N_HEX]. *)
Definition MODP_HEX : string :=
  "FFFFFFFFFFFFFFFFC90FDAA22168C234C4C6628B80DC1CD1" +:+ "29024E088A67CC74020BBEA63B139B22514A08798E3404DD" +:+
  "EF9519B3CD3A431B302B0A6DF25F14374FE1356D6D51C245" +:+ "E485B576625E7EC6F44C42E9A637ED6B0BFF5CB6F406B7ED" +:+
  "EE386BFB5A899FA5ADF98E4E27349F329F7BBDF55F07CFE7" +:+ "D651E27B931BAE88F35CF3B8A9ABBF617A16D2EE15508AF8" +:+
  "C5F244DC5345EE09F1B9E5D49C5319D7226B07637C5E1814" +:+ "C0E7C83F00C0FFD8219CE45590668985D19B3507CD14A587" +:+
  "33E1CA224D96036720A16637E454F4A32C77B88D4D9A0152" +:+ "C54191E10745692089E66B707E46A879DC7E4BB38A7ABBBB" +:+
  "487B0D6E6B83E895932BCBCD26B1CF5C1F1E14AD06F13E69" +:+ "A0D70157F71A7C3F5D16D607144F998E13B9728D6F2D4EB7" +:+
  "A328916C2C8A38F07C8D661E2FA08F024B45D777E19E8E55" +:+ "BC3F7C2A3C2F3594B7D7C3D0E32088E5AD16E558094807B6" +:+
  "92E0A0977C63A8E5E7D727061A3368BE8B2D89E63C48D2B5" +:+ "1D6F3A125F6A7A7D7F7E45820DB50EBB5A20187D1E2A1AF0" +:+
  "C37D7AFEA01B1AF0F535B2658C127F60A828F250A1B9D693" +:+ "AF67A8D507E0E1D3A839A2897807E23C2F4C57C4B7E44A98" +:+
  "C5C421D1C1A1B4E5A8C0E566F8A0E4B87D2B52C8C6FB5000".
(** [params]. *)
Definition modulus : Z := nullish (BigInt_0x MODP_HEX) 0.
Definition generator : Z := 2.

(** [modPow]: here the base is first brought into the range of the modulus. *)
Definition modPow_euclid (base exp m : Z) : Z := modPow_loop (modPow_fuel exp) 1 (Z.rem (Z.rem base m + m) m) exp m.
(** [bigIntToHex]. *)
Definition bigIntToHex (n : Z) (byteLen : nat) : string := padStart0 (byteLen * 2) (toString16 n).

Section srp_protocol.
Context {P : Platform} {S : Type}.
Notation state := (process S).

Definition sha (data : string) : string := createHash sha256 data.
Definition calculatePasswordHash (username password salt : string) : string :=
  sha (from_hex (bigIntToHex modulus 256) +:+ from_hex (bigIntToHex generator 1) +:+ salt +:+
       sha (username +:+ ":" +:+ password)).

(** The loop of [randomBigInt]; [fuel] bounds its turns. *)
Definition byteLength : nat := Z.to_nat (ceil_div (Z.of_nat (String.length (toString16 modulus))) 2).
Definition acceptable (n : Z) : bool := negb (n =? 0) && (n <? modulus).
Definition drawn_integer (i : nat) : Z := bytes_value (randomBytes i byteLength).
Fixpoint randomBigInt (fuel : nat) : prog state (option Z) :=
  match fuel with
  | O => mret None
  | Datatypes.S fuel =>
    n ← random drawn_integer;
    if acceptable n then mret (Some n) else randomBigInt fuel
  end.

Definition generateVerifier (username password : string) (saltBytes i : nat) : string * string :=
  let salt := randomBytes i saltBytes in
  let x := bytes_value (calculatePasswordHash username password salt) in
  (bigIntToHex (modPow_euclid generator x modulus) 256, to_hex salt).

Record ServerSecret := mkServerSecret { sc_b : Z; sc_B : Z }.
Record ServerChallenge := mkServerChallenge { sch_B : string; sch_salt : string; sch_sessionId : string }.
Definition server_public (b : Z) : Z := Z.rem (generator * modPow_euclid generator b modulus) modulus.
Definition generateServerChallenge (fuel : nat) (salt : string) (sessionId : option string) :
    prog state (option (ServerChallenge * ServerSecret)) :=
  b ← randomBigInt fuel;
  match b with
  | None => mret None
  | Some b =>
    let B := server_public b in
    sid ← match sessionId with Some s => mret s | None => random (λ i, to_hex (randomBytes i 8)) end;
    mret (Some (mkServerChallenge (bigIntToHex B 256) salt sid, mkServerSecret b B))
  end.

(** The hash of both public values, and the proofs over a session key. *)
Definition scramble (A B : Z) : Z :=
  bytes_value (sha (from_hex (bigIntToHex A 256) +:+ from_hex (bigIntToHex B 256))).
Fixpoint xor_bytes (a b : string) : string :=
  match a, b with
  | String x a, String y b =>
    String (ascii_of_nat (Z.to_nat (Z.lxor (Z.of_nat (nat_of_ascii x)) (Z.of_nat (nat_of_ascii y))))) (xor_bytes a b)
  | _, _ => EmptyString
  end.
Definition group_hash : string :=
  xor_bytes (sha (from_hex (bigIntToHex modulus 256))) (sha (from_hex (bigIntToHex generator 1))).
Definition proof_M1 (salt A B K : string) : string := sha (group_hash +:+ sha (from_hex salt) +:+ A +:+ B +:+ K).
Definition proof_M2 (A M1 K : string) : string := sha (A +:+ M1 +:+ K).

Record ServerProof := mkServerProof { prf_M2 : string; prf_sessionKey : string }.
(** The secret the server derives. *)
Definition server_secret (A v u b : Z) : Z :=
  modPow_euclid (Z.rem (A * modPow_euclid v u modulus) modulus) b modulus.
Definition processClientChallenge (clientA verifier : string) (secret : ServerSecret) (salt : string) : exn + ServerProof :=
  match BigInt_0x verifier, BigInt_0x clientA with
  | Some v, Some A =>
    if Z.rem A modulus =? 0 then inl (JsError "SRP: Client public value A is zero")
    else
      let u := scramble A (sc_B secret) in
      if u =? 0 then inl (JsError "SRP: Computed scrambling parameter u is zero")
      else
        let K := sha (from_hex (bigIntToHex (server_secret A v u (sc_b secret)) 256)) in
        let M1 := proof_M1 salt (from_hex (bigIntToHex A 256)) (from_hex (bigIntToHex (sc_B secret) 256)) K in
        inr (mkServerProof (to_hex (proof_M2 (from_hex (bigIntToHex A 256)) M1 K)) (to_hex K))
  | _, _ => inl SYNTAX_ERROR
  end.

Definition same_bytes (a b : string) : bool :=
  if negb (String.length a =? String.length b)%nat then false else String.eqb a b.
Definition verifyServerProof (clientA clientM1 serverM2 sessionKey : string) : bool :=
  same_bytes (from_hex serverM2) (proof_M2 (from_hex clientA) (from_hex clientM1) (from_hex sessionKey)).
Definition computeClientProof (salt clientA serverB sessionKey : string) : string :=
  to_hex (proof_M1 salt (from_hex clientA) (from_hex serverB) (from_hex sessionKey)).
Definition validateClientProof (clientM1 expectedM1 : string) : bool := same_bytes (from_hex clientM1) (from_hex expectedM1).

Record ClientSession := mkClientSession { cl_a : Z; cl_A : Z; cl_sessionKey : string }.
Definition initiateClient (fuel : nat) : prog state (option (string * ClientSession)) :=
  a ← randomBigInt fuel;
  match a with
  | None => mret None
  | Some a =>
    let A := modPow_euclid generator a modulus in
    mret (Some (bigIntToHex A 256, mkClientSession a A ""))
  end.
(** The secret the client derives. *)
Definition client_side_secret (a x u B : Z) : Z :=
  modPow_euclid (B - Z.rem (modPow_euclid generator x modulus * u) modulus) (a + u * x) modulus.
Definition deriveClientSession (session : ClientSession) (username password salt serverB : string) :
    exn + (string * string * ClientSession) :=
  match BigInt_0x serverB with
  | None => inl SYNTAX_ERROR
  | Some B =>
    if Z.rem B modulus =? 0 then inl (JsError "SRP: Server public value B is zero")
    else
      let u := scramble (cl_A session) B in
      let x := bytes_value (calculatePasswordHash username password (from_hex salt)) in
      let K := to_hex (sha (from_hex (bigIntToHex (client_side_secret (cl_a session) x u B) 256))) in
      inr (computeClientProof salt (bigIntToHex (cl_A session) 256) serverB K, K,
           mkClientSession (cl_a session) (cl_A session) K)
  end.

(** ** Theorems *)
Lemma modPow_euclid_mod base exp m : 1 < m → 0 <= exp → modPow_euclid base exp m = base ^ exp mod m.
Proof.
  intros Hm He. unfold modPow_euclid.
  assert (Z.rem (Z.rem base m + m) m = base mod m) as ->.
  { pose proof (Z.rem_bound_abs base m ltac:(lia)). rewrite Z.rem_mod_nonneg by lia.
    rewrite Z.rem_eq by lia. replace (base - m * (base ÷ m) + m) with (base + (1 - base ÷ m) * m) by ring. apply Z_mod_plus_full. }
  rewrite modPow_loop_spec; [|lia|lia|apply Z.mod_pos_bound; lia|split; [done|by apply modPow_fuel_enough]].
  by rewrite Z.mul_1_l, <- Zpower_mod by lia.
Qed.

(** The group is not the one the file says: the modulus has 3648 bits and is
    divisible by 4096, so it is neither the 2048-bit group of RFC 5054 nor a prime,
    and every public value of a client whose exponent is at least twelve is
    divisible by 4096 as well. *)
Theorem modulus_is_not_prime :
  Z.log2 modulus = 3647 ∧ modulus mod 4096 = 0 ∧ ¬ prime modulus ∧
  ∀ a, 12 <= a → modPow_euclid generator a modulus mod 4096 = 0.
Proof.
  assert (modulus mod 4096 = 0) as Hm by (by vm_compute). assert (1 < modulus) as Hl by (by vm_compute).
  split; [by vm_compute|]. split; [done|]. split.
  - intros Hp. apply prime_divisors with (a := 2) in Hp; [destruct Hp as [Hp|[Hp|[Hp|Hp]]]; by vm_compute in Hp|].
    apply Z.mod_divide; [lia|]. by vm_compute.
  - intros a Ha. rewrite modPow_euclid_mod by lia. apply Z.mod_divide; [lia|]. rewrite (Z.mod_eq (generator ^ a)) by lia.
    apply Z.divide_sub_r; [|apply Z.divide_mul_l, Z.mod_divide; lia]. exists (2 ^ (a - 12)). change 4096 with (2 ^ 12).
    rewrite <- Z.pow_add_r by lia. unfold generator. f_equal. lia.
Qed.

(** Drawing an exponent ends at the first acceptable draw: with more fuel than
    the index of the first of the coming draws that is not zero and below the
    modulus, the loop returns that draw, which is in range, having consumed exactly
    the draws up to it. *)
Theorem randomBigInt_returns k fuel p :
  (k < fuel)%nat → acceptable (drawn_integer (drawn p + k)) = true →
  (∀ j, (j < k)%nat → acceptable (drawn_integer (drawn p + j)) = false) →
  ∃ p', run (randomBigInt fuel) p = (p', inr (Some (drawn_integer (drawn p + k)))) ∧
    drawn p' = (drawn p + k + 1)%nat ∧ 1 <= drawn_integer (drawn p + k) < modulus.
Proof.
  revert fuel p. induction k as [|k IH]; intros [|fuel] p Hf Hk Hj; try lia; cbn [randomBigInt]; rewrite run_bind, run_random.
  - rewrite Nat.add_0_r in *. rewrite Hk. eexists. split; [done|]. split; [cbn; lia|]. unfold acceptable in Hk.
    pose proof (bytes_value_nonneg (randomBytes (drawn p) byteLength) 0 ltac:(lia)) as Hn. unfold drawn_integer, bytes_value in *. lia.
  - pose proof (Hj 0%nat ltac:(lia)) as H0. rewrite Nat.add_0_r in H0. rewrite H0.
    destruct (IH fuel (p <| drawn ::= Datatypes.S |>)) as (p' & Hr & Hd & Hb); cbn [drawn set_field] in *.
    + lia.
    + by replace (Datatypes.S (drawn p) + k)%nat with (drawn p + Datatypes.S k)%nat by lia.
    + intros j Hjk. replace (Datatypes.S (drawn p) + j)%nat with (drawn p + Datatypes.S j)%nat by lia. apply Hj. lia.
    + replace (Datatypes.S (drawn p) + k)%nat with (drawn p + Datatypes.S k)%nat in * by lia. exists p'. split; [done|]. split; [lia|done].
Qed.

(** Padding with zeros does not change the number read. *)
Lemma BigInt_0x_zeros n s v : BigInt_0x s = Some v → BigInt_0x (zeros n +:+ s) = Some v.
Proof.
  intros Hs. induction n as [|n IH]; [done|]. replace (zeros (Datatypes.S n) +:+ s) with (String "0" (zeros n +:+ s)) by reflexivity.
  unfold BigInt_0x in *. cbn [js_trim_end]. destruct (js_trim_end (zeros n +:+ s)) as [|c t] eqn:Ht; [done|].
  change (js_lower (String "0" (String c t))) with (String "0" (js_lower (String c t))).
  change (NilEmpty.uint_of_string (String "0" (js_lower (String c t))))
    with (option_map Hexadecimal.D0 (NilEmpty.uint_of_string (js_lower (String c t)))).
  destruct (NilEmpty.uint_of_string (js_lower (String c t))) as [d|]; [|done]. exact IH.
Qed.
Lemma BigInt_bigIntToHex n k : 0 <= n → BigInt_0x (bigIntToHex n k) = Some n.
Proof. intros Hn. apply BigInt_0x_zeros. by apply BigInt_0x_toString16. Qed.

(** The arithmetic of both secrets, over any base and modulus. *)
Lemma rem_product x y N : 0 < N → 0 <= x → 0 <= y → Z.rem (x * y) N = (x * y) mod N.
Proof. intros HN Hx Hy. apply Z.rem_mod_nonneg; [by apply Z.mul_nonneg_nonneg|done]. Qed.
Lemma secrets_mod g N a x u b :
  1 < N → 0 <= g → 0 <= a → 0 <= x → 0 <= u → 0 <= b →
  modPow_euclid (Z.rem (modPow_euclid g a N * modPow_euclid (modPow_euclid g x N) u N) N) b N = g ^ (b * (a + u * x)) mod N ∧
  modPow_euclid (Z.rem (g * modPow_euclid g b N) N - Z.rem (modPow_euclid g x N * u) N) (a + u * x) N =
    (g ^ (b + 1) - u * g ^ x) ^ (a + u * x) mod N.
Proof.
  intros HN Hg Ha Hx Hu Hb. assert (∀ y, 0 <= y mod N) as Hpos by (intros; apply Z.mod_pos_bound; lia).
  rewrite !modPow_euclid_mod by (done || nia).
  rewrite !rem_product by (done || lia).
  assert (∀ y n, (y mod N) ^ n mod N = y ^ n mod N) as Hpow.
  { intros y n. destruct (Z.neg_nonneg_cases n) as [Hn|Hn]; [by rewrite !Z.pow_neg_r|]. symmetry. apply Zpower_mod. lia. }
  split.
  - rewrite !Hpow. rewrite <- (Hpow (_ * _) b), Zmult_mod_idemp_l, Zmult_mod_idemp_r, Hpow.
    rewrite <- Z.pow_mul_r, <- Z.pow_add_r, <- Z.pow_mul_r by nia. f_equal. f_equal. ring.
  - rewrite <- (Hpow (_ - _)), Zminus_mod_idemp_l, Zminus_mod_idemp_r, Zminus_mod, !Zmult_mod_idemp_l, Zmult_mod_idemp_r, <- Zminus_mod, Hpow.
    rewrite (Z.pow_add_r g b 1), Z.pow_1_r by lia. f_equal. f_equal. ring.
Qed.

(** What the two sides derive: from a client exponent [a], a password value [x],
    a scrambler [u] and a server exponent [b], the server's secret is
    [g ^ (b * (a + u * x))], the client's [(g ^ (b + 1) - u * g ^ x) ^ (a + u * x)];
    the client takes away the verifier times the scrambler, which the server never
    added to its public value. *)
Theorem secrets_derived a x u b :
  0 <= a → 0 <= x → 0 <= u → 0 <= b →
  server_secret (modPow_euclid generator a modulus) (modPow_euclid generator x modulus) u b =
    generator ^ (b * (a + u * x)) mod modulus ∧
  client_side_secret a x u (server_public b) = (generator ^ (b + 1) - u * generator ^ x) ^ (a + u * x) mod modulus.
Proof. intros Ha Hx Hu Hb. apply (secrets_mod generator modulus); [by vm_compute|done..]. Qed.

(** The proofs match when the keys do: whatever key the server derives, the proof
    a client computes over that key and the canonical texts of both public values is
    the one the server answers to, and the client accepts the server's proof. *)
Theorem proofs_follow_the_key A secret salt verifier proof :
  0 <= A → processClientChallenge (bigIntToHex A 256) verifier secret salt = inr proof →
  let M1 := computeClientProof salt (bigIntToHex A 256) (bigIntToHex (sc_B secret) 256) (prf_sessionKey proof) in
  verifyServerProof (bigIntToHex A 256) M1 (prf_M2 proof) (prf_sessionKey proof) = true ∧
  ∀ expected, validateClientProof M1 expected = true ↔ from_hex expected = from_hex M1.
Proof.
  intros HA. unfold processClientChallenge. rewrite BigInt_bigIntToHex by done.
  destruct (BigInt_0x verifier) as [v|]; [|done]. destruct (_ =? 0); [done|]. destruct (_ =? 0); [done|].
  intros [= <-]. cbn [prf_sessionKey prf_M2]. unfold verifyServerProof, computeClientProof, validateClientProof.
  assert (∀ a b, same_bytes a b = true ↔ a = b) as Hs.
  { intros a b. unfold same_bytes. destruct (Nat.eqb_spec (String.length a) (String.length b)) as [_|Hne]; cbn; [apply String.eqb_eq|].
    split; [done|]. by intros ->. }
  rewrite !from_to_hex. split; [by apply Hs|]. intros expected. rewrite Hs. split; congruence.
Qed.
End srp_protocol.
