(* ===== verification/WebAuthn.v ===== *)
(** * WebAuthn

    [packages/crypto/src/webauthn.ts]: the CBOR reader and writer, the parsers of
    attestation objects and authenticator data, the verification of registration
    and authentication responses, the signature encodings.  Buffers are lists of
    bytes.  SHA-256 comes from the platform, [createVerify] of Node's crypto is a
    parameter. *)

From S2P Require Export World.
From Stdlib Require Import Ascii.

(** ** Numbers that may be undefined *)
(** A number read from a buffer: [None] is [undefined] or [NaN]. *)
Notation number := (option Z).
Definition num_add (a b : number) : number :=
  match a, b with Some x, Some y => Some (x + y) | _, _ => None end.
(** The operand of a bit operation. *)
Definition bits (a : number) : Z := match a with Some x => x | None => 0 end.

Notation Buffer := (list ascii).
Definition u8 (c : ascii) : Z := Z.of_nat (nat_of_ascii c).
(** A byte of [Buffer.from([...])]: the value is taken modulo 256. *)
Definition to_byte (z : Z) : ascii := ascii_of_nat (Z.to_nat (z mod 256)).
(** [buf[i]]. *)
Definition at_ (buf : Buffer) (i : number) : number :=
  match i with
  | Some z => if z <? 0 then None else u8 <$> buf !! Z.to_nat z
  | None => None
  end.
(** [buf.subarray(start, end)] of non-negative offsets; [NaN] counts as 0. *)
Definition slice (buf : Buffer) (from to : number) : Buffer :=
  let f := Z.to_nat (bits from) in
  take (Z.to_nat (bits to) - f) (drop f buf).

(** ** CBOR *)
Definition CBOR_MAJOR_TEXT : Z := 3.
Definition CBOR_MAJOR_MAP : Z := 5.
Definition CBOR_MAJOR_BYTES : Z := 2.
Definition CBOR_MAJOR_INT : Z := 0.
Definition FLAG_UP : Z := 1.
Definition FLAG_AT : Z := 64.

Definition cborEncodeUInt (value : Z) : exn + Buffer :=
  if value <? 24 then inr [to_byte value]
  else if value <? 256 then inr [to_byte 24; to_byte value]
  else if value <? 65536 then inr [to_byte 25; to_byte (Z.land (Z.shiftr value 8) 255); to_byte (Z.land value 255)]
  else inl (JsError "CBOR: uint too large for 4 bytes").

(** The header of a map, of a text or of a byte string. *)
Definition map_header (n : Z) : Buffer :=
  if n <? 24 then [to_byte (Z.lor (Z.shiftl CBOR_MAJOR_MAP 5) n)]
  else [to_byte (Z.lor (Z.shiftl CBOR_MAJOR_MAP 5) 24); to_byte n].
Definition string_header (major n : Z) : Buffer :=
  if n <? 24 then [to_byte (Z.lor (Z.shiftl major 5) n)]
  else [to_byte (Z.lor (Z.shiftl major 5) 24); to_byte (Z.land (Z.shiftr n 8) 255); to_byte (Z.land n 255)].

Definition cborEncodeMap (entries : list (Buffer * Buffer)) : Buffer :=
  map_header (Z.of_nat (length entries)) ++ concat (map (λ kv, kv.1 ++ kv.2) entries).
Definition cborEncodeText (str : string) : Buffer :=
  let bytes := list_of_string str in
  string_header CBOR_MAJOR_TEXT (Z.of_nat (length bytes)) ++ bytes.
Definition cborEncodeBytes (buf : Buffer) : Buffer :=
  string_header CBOR_MAJOR_BYTES (Z.of_nat (length buf)) ++ buf.
Definition cborEncodeInt (value : Z) : exn + Buffer :=
  if (0 <=? value) && (value <? 24) then inr [to_byte (Z.lor (Z.shiftl CBOR_MAJOR_INT 5) value)]
  else cborEncodeUInt value.

(** The value and the number of bytes read. *)
Definition cborDecodeUInt (buf : Buffer) (offset : number) : exn + (number * Z) :=
  let additionalInfo := Z.land (bits (at_ buf offset)) 31 in
  if additionalInfo <? 24 then inr (Some additionalInfo, 1)
  else if additionalInfo =? 24 then inr (at_ buf (num_add offset (Some 1)), 2)
  else if additionalInfo =? 25 then
    inr (Some (Z.lor (Z.shiftl (bits (at_ buf (num_add offset (Some 1)))) 8) (bits (at_ buf (num_add offset (Some 2))))), 3)
  else inl (JsError "CBOR: unsupported uint size").

Definition cborDecodeBytes (buf : Buffer) (offset : number) : exn + (Buffer * number) :=
  '(len, bytesRead) ← cborDecodeUInt buf offset;
  let start := num_add offset (Some bytesRead) in
  inr (slice buf start (num_add start len), num_add (Some bytesRead) len).

(** The entries of [cborDecodeMap]; the keys of a [Map] may be [undefined]. *)
Fixpoint decode_entries (n : nat) (buf : Buffer) (pos : number) (m : gmap number Buffer) :
    exn + (gmap number Buffer * number) :=
  match n with
  | O => inr (m, pos)
  | S n =>
    '(key, keyRead) ← cborDecodeUInt buf pos;
    let pos := num_add pos (Some keyRead) in
    '(val, valRead) ← cborDecodeBytes buf pos;
    decode_entries n buf (num_add pos valRead) (<[key := val]> m)
  end.
(** [i < numEntries] is false at once for an undefined count. *)
Definition cborDecodeMap (buf : Buffer) (offset : number) : exn + (gmap number Buffer * number) :=
  '(numEntries, mapHeaderLen) ← cborDecodeUInt buf offset;
  '(m, pos) ← decode_entries (Z.to_nat (bits numEntries)) buf (num_add offset (Some mapHeaderLen)) ∅;
  inr (m, num_add pos (option_map Z.opp offset)).

(** ** Base64url *)
Definition replace_char (a b : ascii) (s : list ascii) : list ascii :=
  map (λ c, if Ascii.eqb c a then b else c) s.
Definition base64UrlToBuffer (str : string) : Buffer :=
  let base64 := replace_char "_" "/" (replace_char "-" "+" (list_of_string str)) in
  let padded := base64 ++ replicate ((4 - length base64 mod 4) mod 4) "="%char in
  list_of_string (from_base64 (string_of_list padded)).
Definition bufferToBase64Url (buf : Buffer) : string :=
  string_of_list (List.filter (λ c, negb (Ascii.eqb c "="))
    (replace_char "/" "_" (replace_char "+" "-" (list_of_string (to_base64 (string_of_list buf)))))).

(** ** Authenticator data *)
Record AttestedCredentialData := mkAttestedCredentialData {
  aaguid : Buffer; acd_credentialId : Buffer; credentialPublicKey : Buffer }.
Record AuthenticatorData := mkAuthenticatorData {
  rpIdHash : Buffer;
  flags : number;
  signCount : Buffer;
  attestedCredentialData : option AttestedCredentialData;
}.
Definition flag_set (f : number) (mask : Z) : bool := negb (Z.land (bits f) mask =? 0).

Definition parseAuthenticatorData (buf : Buffer) : AuthenticatorData :=
  let flags := at_ buf (Some 32) in
  mkAuthenticatorData (slice buf (Some 0) (Some 32)) flags (slice buf (Some 33) (Some 37))
    (if flag_set flags FLAG_AT then
       let credIdLen := Z.lor (Z.shiftl (bits (at_ buf (Some 53))) 8) (bits (at_ buf (Some 54))) in
       Some (mkAttestedCredentialData (slice buf (Some 37) (Some 53)) (slice buf (Some 55) (Some (55 + credIdLen)))
         (drop (Z.to_nat (55 + credIdLen)) buf))
     else None).

Record ParsedAttestation := mkParsedAttestation { fmt : Buffer; attStmt : Buffer; pa_authData : AuthenticatorData }.
Definition parseAttestationObject (buf : Buffer) : exn + ParsedAttestation :=
  '(m, _) ← cborDecodeMap buf (Some 0);
  inr (mkParsedAttestation (nullish (m !! Some 1) []) (nullish (m !! Some 2) [])
    (match m !! Some 3 with
     | Some authData => parseAuthenticatorData authData
     | None => mkAuthenticatorData (replicate 32 (to_byte 0)) (Some 0) (replicate 4 (to_byte 0)) None
     end)).

(** [buf.readUInt32BE(0)]. *)
Definition readUInt32BE (buf : Buffer) : exn + Z :=
  match buf with
  | a :: b :: c :: d :: _ => inr (u8 a * 2 ^ 24 + u8 b * 2 ^ 16 + u8 c * 2 ^ 8 + u8 d)
  | _ => inl (JsError "Attempt to access memory outside buffer bounds")
  end.

(** ** Signatures *)
Fixpoint trimLeadingZero (buf : Buffer) : Buffer :=
  match buf with
  | a :: ((_ :: _) as t) => if u8 a =? 0 then trimLeadingZero t else buf
  | _ => buf
  end.
Definition wrapInteger (buf : Buffer) : Buffer :=
  if negb (Z.land (bits (at_ buf (Some 0))) 128 =? 0) then
    to_byte 2 :: to_byte (Z.of_nat (length buf) + 1) :: to_byte 0 :: buf
  else to_byte 2 :: to_byte (Z.of_nat (length buf)) :: buf.
Definition rawToDerSignature (raw : Buffer) : Buffer :=
  let rDer := wrapInteger (trimLeadingZero (slice raw (Some 0) (Some 32))) in
  let sDer := wrapInteger (trimLeadingZero (slice raw (Some 32) (Some 64))) in
  to_byte 48 :: to_byte (Z.of_nat (length rDer) + Z.of_nat (length sDer)) :: rDer ++ sDer.
Definition buildRSAPublicKeyDER (n e : Buffer) : Buffer :=
  let seqPayload := wrapInteger (trimLeadingZero n) ++ wrapInteger (trimLeadingZero e) in
  to_byte 48 :: to_byte (Z.of_nat (length seqPayload)) :: seqPayload.

(** The key formats handed to [createVerify(...).verify]. *)
Inductive VerifyKey := SpkiDer (key : Buffer) | PublicKeyBuffer (key : Buffer).

(** ** Options *)
Inductive AuthenticatorAttachment := platform | cross_platform.
Inductive Requirement := required | preferred | discouraged.
Inductive AttestationConveyance := conveyance_none | indirect | direct.
Inductive COSEAlgorithm := cose_ES256 | cose_ES384 | cose_ES512 | cose_RS256 | cose_RS384 | cose_RS512 | cose_EdDSA.
Definition cose_id (a : COSEAlgorithm) : Z :=
  match a with
  | cose_ES256 => -7 | cose_ES384 => -35 | cose_ES512 => -36 | cose_RS256 => -257 | cose_RS384 => -258
  | cose_RS512 => -259 | cose_EdDSA => -8
  end.
Definition is_required (r : Requirement) : bool := match r with required => true | _ => false end.

Record PublicKeyCredentialDescriptor := mkDescriptor { pk_id : string; pk_transports : option (list string) }.
Record AuthenticatorSelection := mkAuthenticatorSelection {
  as_authenticatorAttachment : option AuthenticatorAttachment;
  as_residentKey : Requirement;
  as_requireResidentKey : bool;
  as_userVerification : Requirement;
}.
Record PublicKeyCredentialCreationOptions := mkCreationOptions {
  co_rpName : string;
  co_rpId : option string;
  co_userId : string;
  co_userName : string;
  co_userDisplayName : string;
  co_challenge : string;
  co_pubKeyCredParams : list COSEAlgorithm;
  co_timeout : Z;
  co_excludeCredentials : list PublicKeyCredentialDescriptor;
  co_authenticatorSelection : AuthenticatorSelection;
  co_attestation : AttestationConveyance;
}.
Record PublicKeyCredentialRequestOptions := mkRequestOptions {
  qo_challenge : string;
  qo_timeout : Z;
  qo_rpId : option string;
  qo_allowCredentials : list PublicKeyCredentialDescriptor;
  qo_userVerification : Requirement;
}.
(** The arguments of [generateRegistrationOptions]. *)
Record RegistrationInput := mkRegistrationInput {
  in_rpName : string;
  in_rpId : option string;
  in_userId : string;
  in_userName : string;
  in_userDisplayName : string;
  in_excludeCredentials : option (list string);
  in_authenticatorAttachment : option AuthenticatorAttachment;
  in_userVerification : option Requirement;
  in_residentKey : option Requirement;
  in_attestation : option AttestationConveyance;
  in_timeout : option Z;
}.

(** ** Ceremonies *)
Record RegistrationResult := mkRegistrationResult {
  rr_id : string; rr_rawId : string; rr_attestationObject : string; rr_clientDataJSON : string;
  rr_getTransports : option (list string) }.
Record AuthenticationResult := mkAuthenticationResult {
  ar_id : string; ar_rawId : string; ar_authenticatorData : string; ar_clientDataJSON : string;
  ar_signature : string; ar_userHandle : option string }.
Record WebAuthnCredential := mkWebAuthnCredential {
  cred_credentialId : string; cred_publicKey : string; cred_counter : Z; cred_transports : list string;
  cred_createdAt : Z }.
Record WebAuthnVerificationResult := mkWebAuthnVerificationResult {
  verified : bool;
  vr_credentialId : option string;
  vr_newCounter : option Z;
  vr_credentialPublicKey : option string;
  vr_attestationFormat : option string;
  vr_error : option string;
}.
Definition rejected (error : string) : WebAuthnVerificationResult :=
  mkWebAuthnVerificationResult false None None None None (Some error).

(** [v.k], which throws on [null]. *)
Definition property (v : json) (k : string) : exn + option json :=
  match v with
  | JNull => inl (JsError ("Cannot read properties of null (reading '" +:+ k +:+ "')"))
  | JObj l => inr (map_get k (rev l))
  | _ => inr None
  end.
Definition same_string (v : option json) (s : string) : bool :=
  match v with Some (JStr x) => String.eqb x s | _ => false end.

Section webauthn.
Context {P : Platform}.
(** [createVerify(algorithm).update(data).verify(key, signature)]: [None] when it throws. *)
Context (createVerify : string → Buffer → VerifyKey → Buffer → option bool).

Definition digest (s : string) : Buffer := list_of_string (createHash sha256 s).

Definition verifyEC256Signature (data signature x y : Buffer) : bool :=
  nullish (createVerify "SHA256" data (SpkiDer (to_byte 4 :: x ++ y)) (rawToDerSignature signature)) false.
Definition verifyRS256Signature (data signature n e : Buffer) : bool :=
  nullish (createVerify "RSA-SHA256" data (PublicKeyBuffer (buildRSAPublicKeyDER n e)) signature) false.

Definition verifyCOSESignature (publicKeyBuf data signature : Buffer) : exn + bool :=
  '(keyMap, _) ← cborDecodeMap publicKeyBuf (Some 0);
  inr match keyMap !! Some 1, keyMap !! Some 3 with
      | Some kty, Some alg =>
        let ktyValue := Z.land (bits (at_ kty (Some 0))) 31 in
        let first := at_ alg (Some 0) in
        let algId := if 32 <=? bits first then Some (- Z.land (bits first) 31 - 1) else first in
        if (ktyValue =? 2) && bool_decide (algId = Some (-7)) then
          match keyMap !! Some (-2), keyMap !! Some (-3) with
          | Some x, Some y => verifyEC256Signature data signature x y
          | _, _ => false
          end
        else if (ktyValue =? 3) && bool_decide (algId = Some (-257)) then
          match keyMap !! Some (-1), keyMap !! Some (-2) with
          | Some n, Some e => verifyRS256Signature data signature n e
          | _, _ => false
          end
        else false
      | _, _ => false
      end.

(** The checks of the client data: the error message they answer with. *)
Definition check_clientData (type challenge origin clientDataJSON : string) : exn + option string :=
  match parse clientDataJSON with
  | None => inl (JsError "Unexpected token in JSON")
  | Some clientData =>
    t ← property clientData "type";
    c ← property clientData "challenge";
    o ← property clientData "origin";
    inr (if negb (same_string t type) then Some "Invalid clientData type"
         else if negb (same_string c challenge) then Some "Challenge mismatch"
         else if negb (same_string o origin) then Some "Origin mismatch"
         else None)
  end.

Definition verifyRegistrationResponse (challenge origin rpId : string) (registrationResult : RegistrationResult) :
    exn + WebAuthnVerificationResult :=
  failed ← check_clientData "webauthn.create" challenge origin (from_base64 (rr_clientDataJSON registrationResult));
  match failed with
  | Some e => inr (rejected e)
  | None =>
    attData ← parseAttestationObject (base64UrlToBuffer (rr_attestationObject registrationResult));
    let authData := pa_authData attData in
    if negb (bool_decide (rpIdHash authData = digest rpId)) then inr (rejected "rpIdHash mismatch")
    else if negb (flag_set (flags authData) FLAG_UP) then inr (rejected "User Presence not verified")
    else
      counter ← readUInt32BE (signCount authData);
      inr (mkWebAuthnVerificationResult true (Some (rr_id registrationResult)) (Some counter)
        (Some (match attestedCredentialData authData with
               | Some acd => to_hex (string_of_list (credentialPublicKey acd))
               | None => ""
               end))
        (Some (string_of_list (fmt attData))) None)
  end.

Definition verifyAuthenticationResponse (challenge origin rpId : string)
    (authenticationResult : AuthenticationResult) (credential : WebAuthnCredential) :
    exn + WebAuthnVerificationResult :=
  let clientDataJSON := from_base64 (ar_clientDataJSON authenticationResult) in
  failed ← check_clientData "webauthn.get" challenge origin clientDataJSON;
  match failed with
  | Some e => inr (rejected e)
  | None =>
    let authenticatorData := base64UrlToBuffer (ar_authenticatorData authenticationResult) in
    let authData := parseAuthenticatorData authenticatorData in
    if negb (bool_decide (rpIdHash authData = digest rpId)) then inr (rejected "rpIdHash mismatch")
    else if negb (flag_set (flags authData) FLAG_UP) then inr (rejected "User Presence not verified")
    else
      newCounter ← readUInt32BE (signCount authData);
      if negb (cred_counter credential =? 0) && (newCounter <=? cred_counter credential) then
        inr (rejected "Counter did not increase")
      else
        let signature := base64UrlToBuffer (ar_signature authenticationResult) in
        let publicKeyBuf := list_of_string (from_hex (cred_publicKey credential)) in
        ok ← verifyCOSESignature publicKeyBuf (authenticatorData ++ digest clientDataJSON) signature;
        if (ok : bool) then
          inr (mkWebAuthnVerificationResult true (Some (cred_credentialId credential)) (Some newCounter) None None None)
        else inr (rejected "Signature verification failed")
  end.

Definition generateChallenge : prog (world P) string :=
  bytes ← draw (λ i, randomBytes i 32);
  mret (bufferToBase64Url (list_of_string bytes)).
Definition generateUserId (len : nat) : prog (world P) string :=
  bytes ← draw (λ i, randomBytes i len);
  mret (bufferToBase64Url (list_of_string bytes)).
Definition hashCredentialId (credentialId : string) : string := to_hex (createHash sha256 credentialId).

Definition generateRegistrationOptions (o : RegistrationInput) : prog (world P) PublicKeyCredentialCreationOptions :=
  let residentKey := nullish (in_residentKey o) preferred in
  challenge ← generateChallenge;
  mret (mkCreationOptions (in_rpName o) (in_rpId o) (bufferToBase64Url (list_of_string (in_userId o))) (in_userName o)
    (in_userDisplayName o) challenge [cose_ES256; cose_RS256] (nullish (in_timeout o) 60000)
    (map (λ id, mkDescriptor id None) (nullish (in_excludeCredentials o) []))
    (mkAuthenticatorSelection (in_authenticatorAttachment o) residentKey (is_required residentKey)
      (nullish (in_userVerification o) preferred))
    (nullish (in_attestation o) direct)).

Definition generateAuthenticationOptions (rpId : option string) (allowCredentials : option (list string))
    (userVerification : option Requirement) (timeout : option Z) : prog (world P) PublicKeyCredentialRequestOptions :=
  challenge ← generateChallenge;
  mret (mkRequestOptions challenge (nullish timeout 60000) rpId
    (map (λ id, mkDescriptor id (Some ["internal"])) (nullish allowCredentials []))
    (nullish userVerification preferred)).

(** [buildAttestationObject], for tests: the fields of [authData] at their widths. *)
Definition writeUInt16BE (n : Z) : exn + Buffer :=
  if (0 <=? n) && (n <? 65536) then inr [to_byte (n / 256); to_byte n]
  else inl (JsError "The value is out of range").
Definition writeUInt32BE (n : Z) : exn + Buffer :=
  if (0 <=? n) && (n <? 2 ^ 32) then inr [to_byte (n / 2 ^ 24); to_byte (n / 2 ^ 16); to_byte (n / 2 ^ 8); to_byte n]
  else inl (JsError "The value is out of range").
Definition authData_of (rpIdHash : Buffer) (flags signCount : Z) (credentialId publicKeyCose : Buffer) : exn + Buffer :=
  signCountBuf ← writeUInt32BE signCount;
  credIdLenBuf ← writeUInt16BE (Z.of_nat (length credentialId));
  let attCredData := replicate 16 (to_byte 0) ++ credIdLenBuf ++ credentialId ++ publicKeyCose in
  inr (rpIdHash ++ [to_byte flags] ++ signCountBuf ++ attCredData).
Definition buildAttestationObject (rpIdHash : Buffer) (flags signCount : Z) (credentialId publicKeyCose : Buffer)
    (fmt : option string) : exn + Buffer :=
  authData ← authData_of rpIdHash flags signCount credentialId publicKeyCose;
  k1 ← cborEncodeInt 1;
  k2 ← cborEncodeInt 2;
  k3 ← cborEncodeInt 3;
  inr (cborEncodeMap [(k1, cborEncodeText (nullish fmt "none")); (k2, cborEncodeBytes []); (k3, cborEncodeBytes authData)]).
End webauthn.

(** ** Lemmas on buffers *)
Lemma u8_to_byte z : u8 (to_byte z) = z mod 256.
Proof.
  pose proof (Z.mod_pos_bound z 256 ltac:(lia)). unfold u8, to_byte. rewrite nat_ascii_embedding by lia. lia.
Qed.
Lemma u8_bound c : 0 <= u8 c < 256.
Proof. unfold u8. pose proof (nat_ascii_bounded c). lia. Qed.

(** A position of a buffer, counted from the end of a prefix. *)
Lemma at_app pre buf k : 0 <= k → at_ (pre ++ buf) (Some (Z.of_nat (length pre) + k)) = at_ buf (Some k).
Proof.
  intros Hk. unfold at_. destruct (Z.ltb_spec (Z.of_nat (length pre) + k) 0); [lia|].
  destruct (Z.ltb_spec k 0); [lia|]. f_equal. rewrite lookup_app_r by lia. f_equal. lia.
Qed.
Lemma slice_app pre buf a b :
  0 <= a → slice (pre ++ buf) (Some (Z.of_nat (length pre) + a)) (Some (Z.of_nat (length pre) + b)) =
           slice buf (Some a) (Some b).
Proof.
  intros Ha. unfold slice. cbn [bits]. rewrite drop_app, drop_ge, app_nil_l by lia. f_equal; [lia|]. f_equal. lia.
Qed.

Lemma at_0 c buf : at_ (c :: buf) (Some 0) = Some (u8 c).
Proof. done. Qed.
Lemma at_1 a b buf : at_ (a :: b :: buf) (Some (0 + 1)) = Some (u8 b).
Proof. done. Qed.
Lemma at_2 a b c buf : at_ (a :: b :: c :: buf) (Some (0 + 2)) = Some (u8 c).
Proof. done. Qed.

Lemma decodeUInt_app pre buf :
  cborDecodeUInt (pre ++ buf) (Some (Z.of_nat (length pre))) = cborDecodeUInt buf (Some 0).
Proof.
  unfold cborDecodeUInt. cbn [num_add]. rewrite !at_app by lia.
  by rewrite <- (Z.add_0_r (Z.of_nat (length pre))), (at_app pre buf 0) by lia.
Qed.

(** The low five bits of an initial byte. *)
Lemma low_bits major n : 0 <= n < 32 → Z.land (Z.lor (Z.shiftl major 5) n mod 256) 31 = n.
Proof.
  intros Hn. change 256 with (2 ^ 8). change 31 with (Z.ones 5). rewrite <- Z.land_ones by lia.
  rewrite <- Z.land_assoc. change (Z.land (Z.ones 8) (Z.ones 5)) with (Z.ones 5).
  rewrite Z.land_lor_distr_l, !Z.land_ones by lia. rewrite Z.shiftl_mul_pow2, Z.mod_mul, Z.lor_0_l by lia.
  apply Z.mod_small. lia.
Qed.

(** Reading back what the writer wrote. *)
Definition header_ok (buf : Buffer) (v : Z) : Prop :=
  ∀ rest, cborDecodeUInt (buf ++ rest) (Some 0) = inr (Some v, Z.of_nat (length buf)).

Lemma header_short major n : 0 <= n < 24 → header_ok [to_byte (Z.lor (Z.shiftl major 5) n)] n.
Proof.
  intros Hn rest. unfold cborDecodeUInt. cbn [app]. rewrite at_0. cbn [bits].
  rewrite u8_to_byte, low_bits by lia.
  by rewrite (proj2 (Z.ltb_lt _ _)) by lia.
Qed.

Lemma header_long major n : 0 <= n < 256 → header_ok [to_byte (Z.lor (Z.shiftl major 5) 24); to_byte n] n.
Proof.
  intros Hn rest. unfold cborDecodeUInt. cbn [app num_add]. rewrite at_0. cbn [bits]. rewrite u8_to_byte, low_bits by lia.
  cbn [Z.ltb Z.compare Z.eqb]. rewrite at_1, u8_to_byte, Z.mod_small by lia. done.
Qed.

Lemma low_byte x : Z.land x 255 mod 256 = x mod 256.
Proof. change 255 with (Z.ones 8). rewrite Z.land_ones by lia. apply Z.mod_mod. lia. Qed.

(** The writer's integers. *)
Lemma encodeInt_ok k : 0 <= k < 65536 → ∃ b, cborEncodeInt k = inr b ∧ header_ok b k.
Proof.
  intros Hk. unfold cborEncodeInt, cborEncodeUInt. rewrite (proj2 (Z.leb_le 0 k)) by lia. cbn [andb].
  destruct (Z.ltb_spec k 24) as [H24|H24]; [eexists; split; [done|apply header_short; lia]|].
  destruct (Z.ltb_spec k 256) as [H256|H256]; [eexists; split; [done|apply (header_long 0); lia]|].
  rewrite (proj2 (Z.ltb_lt k 65536)) by lia. eexists. split; [done|]. intros rest. unfold cborDecodeUInt.
  cbn [app num_add]. rewrite at_0. cbn [bits]. change (Z.land (u8 (to_byte 25)) 31) with 25. cbn [Z.ltb Z.compare Z.eqb].
  rewrite at_1, at_2. cbn [bits]. rewrite !u8_to_byte, !low_byte, Z.shiftr_div_pow2 by lia.
  change (2 ^ 8) with 256. rewrite (Z.mod_small (k / 256)) by (split; [apply Z.div_pos|apply Z.div_lt_upper_bound]; lia).
  rewrite lor_shift by (lia || (apply Z.mod_pos_bound; lia)). do 3 f_equal. pose proof (Z.div_mod k 256). lia.
Qed.

Lemma slice_at pre v rest a b :
  a = Z.of_nat (length pre) → b = a + Z.of_nat (length v) → slice (pre ++ v ++ rest) (Some a) (Some b) = v.
Proof.
  intros -> ->. unfold slice. cbn [bits]. rewrite Nat2Z.id, drop_app_length. rewrite take_app_le, take_ge by lia. done.
Qed.

Lemma decodeBytes_written pre v rest :
  (length v < 24)%nat →
  cborDecodeBytes (pre ++ cborEncodeBytes v ++ rest) (Some (Z.of_nat (length pre))) =
    inr (v, Some (Z.of_nat (length (cborEncodeBytes v)))).
Proof.
  intros Hv. unfold cborDecodeBytes. rewrite decodeUInt_app. unfold cborEncodeBytes, string_header.
  rewrite (proj2 (Z.ltb_lt _ 24)) by lia. rewrite <- app_assoc, header_short by lia. cbn [mbind sum_bind num_add].
  rewrite app_assoc. rewrite slice_at by (rewrite ?length_app; cbn; lia). do 3 f_equal. rewrite length_app. cbn. lia.
Qed.

(** An entry as [buildAttestationObject] writes them. *)
Definition entry_written (kv : Z * Buffer) (e : Buffer * Buffer) : Prop :=
  cborEncodeInt kv.1 = inr e.1 ∧ e.2 = cborEncodeBytes kv.2.

Lemma decode_entries_written kvs es pre rest m :
  Forall2 entry_written kvs es → Forall (λ kv, 0 <= kv.1 < 65536 ∧ (length kv.2 < 24)%nat) kvs →
  let body := concat (map (λ kv, kv.1 ++ kv.2) es) in
  decode_entries (length kvs) (pre ++ body ++ rest) (Some (Z.of_nat (length pre))) m =
    inr (foldl (λ m kv, <[Some kv.1 := kv.2]> m) m kvs, Some (Z.of_nat (length (pre ++ body)))).
Proof.
  intros He. revert pre m. induction He as [|[k v] [kb vb] kvs es [Hk Hv] He IH]; intros pre m Hok; cbn zeta in *.
  - cbn. by rewrite app_nil_r.
  - apply Forall_cons in Hok as [[Hk' Hv'] Hok]. cbn [fst snd] in *. subst vb.
    destruct (encodeInt_ok k Hk') as (kb' & Hkb & Hh). rewrite Hk in Hkb. injection Hkb as <-.
    cbn [length decode_entries map concat fst snd]. rewrite <- !app_assoc, decodeUInt_app, Hh.
    cbn [mbind sum_bind num_add]. rewrite <- Nat2Z.inj_add, <- length_app, (app_assoc pre), decodeBytes_written by done.
    cbn [mbind sum_bind num_add]. rewrite <- Nat2Z.inj_add, <- length_app, app_assoc, IH by done.
    cbn [foldl fst snd]. by rewrite !app_assoc.
Qed.

(** What the writer encodes the reader decodes: a map whose keys are integers
    below [2 ^ 16] and whose values are byte strings shorter than 24 bytes, with at
    most 255 entries, comes back entry by entry, whatever follows it, and the number
    of bytes read is the length of the encoding. *)
Theorem cbor_map_round_trip kvs es rest :
  Forall2 entry_written kvs es → Forall (λ kv, 0 <= kv.1 < 65536 ∧ (length kv.2 < 24)%nat) kvs →
  (length kvs < 256)%nat →
  cborDecodeMap (cborEncodeMap es ++ rest) (Some 0) =
    inr (foldl (λ m kv, <[Some kv.1 := kv.2]> m) ∅ kvs, Some (Z.of_nat (length (cborEncodeMap es)))).
Proof.
  intros He Hok Hn. pose proof (Forall2_length _ _ _ He) as Hl. unfold cborDecodeMap, cborEncodeMap. rewrite <- Hl.
  assert (header_ok (map_header (Z.of_nat (length kvs))) (Z.of_nat (length kvs))) as Hh.
  { unfold map_header. destruct (Z.ltb_spec (Z.of_nat (length kvs)) 24); [apply header_short|apply header_long]; lia. }
  rewrite <- app_assoc, Hh. cbn [mbind sum_bind num_add bits]. rewrite Nat2Z.id, Z.add_0_l, decode_entries_written by done.
  cbn [mbind sum_bind num_add option_map]. by rewrite Z.add_0_r.
Qed.

(** ** Base64url round trip *)
Definition url_char (c : ascii) : ascii :=
  if Ascii.eqb (if Ascii.eqb c "+" then "-" else c) "/" then "_" else if Ascii.eqb c "+" then "-" else c.
Definition std_char (c : ascii) : ascii :=
  if Ascii.eqb (if Ascii.eqb c "-" then "+" else c) "_" then "/" else if Ascii.eqb c "-" then "+" else c.

(** Every buffer survives [bufferToBase64Url] and [base64UrlToBuffer]. *)
Lemma base64url_round_trip buf : base64UrlToBuffer (bufferToBase64Url buf) = buf.
Proof.
  unfold base64UrlToBuffer, bufferToBase64Url, replace_char. rewrite !map_map. fold url_char. fold std_char.
  unfold to_base64. rewrite !list_of_string_of_list. set (cs := encode 6 BASE64_ALPHABET (string_of_list buf)).
  assert (Forall (λ c, negb (Ascii.eqb (url_char c) "=") && Ascii.eqb (std_char (url_char c)) c = true) cs) as Hcs
    by (apply (encode_forall 6 BASE64_ALPHABET _ (λ c, negb (Ascii.eqb (url_char c) "=") && Ascii.eqb (std_char (url_char c)) c));
        [lia|by vm_compute]).
  assert (∀ n, List.filter (λ c, negb (Ascii.eqb c "=")) (map url_char (cs ++ replicate n "="%char)) = map url_char cs) as ->.
  { intros n. clear -Hcs. induction Hcs as [|c cs Hc _ IH]; cbn; [by induction n|].
    apply andb_prop in Hc as [-> _]. by rewrite IH. }
  rewrite map_map. assert (map (λ c, std_char (url_char c)) cs = cs) as ->.
  { clear -Hcs. induction Hcs as [|c cs Hc _ IH]; [done|]. cbn [map]. rewrite IH. f_equal.
    apply andb_prop in Hc as [_ Hc]. by apply Ascii.eqb_eq. }
  unfold cs at 1. rewrite from_base64_padded. apply list_of_string_of_list.
Qed.

(** ** Authenticator data round trip *)
Lemma at_at pre c rest k : k = Z.of_nat (length pre) → at_ (pre ++ c :: rest) (Some k) = Some (u8 c).
Proof. intros ->. rewrite <- (Z.add_0_r (Z.of_nat _)), at_app by lia. apply at_0. Qed.

Lemma readUInt32BE_write n b : writeUInt32BE n = inr b → length b = 4%nat ∧ readUInt32BE b = inr n.
Proof.
  unfold writeUInt32BE. destruct (Z.leb_spec 0 n); [|done]. destruct (Z.ltb_spec n (2 ^ 32)) as [Hn|]; [|done].
  intros [= <-]. split; [done|]. cbn [readUInt32BE]. rewrite !u8_to_byte. f_equal.
  change (2 ^ 32) with 4294967296 in Hn. change (2 ^ 24) with 16777216. change (2 ^ 16) with 65536. change (2 ^ 8) with 256.
  pose proof (Z.div_mod n 256 ltac:(lia)). pose proof (Z.div_mod (n / 256) 256 ltac:(lia)).
  pose proof (Z.div_mod (n / 65536) 256 ltac:(lia)). rewrite (Z.mod_small (n / 16777216)) by (split; [apply Z.div_pos|apply Z.div_lt_upper_bound]; lia).
  assert (n / 256 / 256 = n / 65536) by (by rewrite Z.div_div by lia). assert (n / 65536 / 256 = n / 16777216) by (by rewrite Z.div_div by lia). lia.
Qed.

Lemma writeUInt16BE_value n b :
  writeUInt16BE n = inr b → ∃ hi lo, b = [hi; lo] ∧ Z.lor (Z.shiftl (u8 hi) 8) (u8 lo) = n.
Proof.
  unfold writeUInt16BE. destruct (Z.leb_spec 0 n); [|done]. destruct (Z.ltb_spec n 65536); [|done]. cbn [andb].
  intros [= <-]. do 2 eexists. split; [done|]. rewrite !u8_to_byte. change 256 with (2 ^ 8).
  rewrite lor_shift by (lia || (apply Z.mod_pos_bound; lia)). change (2 ^ 8) with 256.
  rewrite (Z.mod_small (n / 256)) by (split; [apply Z.div_pos|apply Z.div_lt_upper_bound]; lia). pose proof (Z.div_mod n 256). lia.
Qed.

(** Authenticator data is read back as it is written: for a 32-byte digest,
    flags that announce a credential, a 32-bit counter and a credential id of fewer
    than [2 ^ 16] bytes, [parseAuthenticatorData] finds every field where
    [buildAttestationObject] put it, and the counter reads as the number written. *)
Theorem authenticator_data_round_trip h fl n cid pk authData :
  length h = 32%nat → 0 <= fl < 256 → Z.land fl FLAG_AT ≠ 0 →
  authData_of h fl n cid pk = inr authData →
  ∃ counter, parseAuthenticatorData authData =
    mkAuthenticatorData h (Some fl) counter (Some (mkAttestedCredentialData (replicate 16 (to_byte 0)) cid pk)) ∧
    readUInt32BE counter = inr n.
Proof.
  intros Hh Hfl Hat. unfold authData_of.
  assert (length (replicate 16 (to_byte 0)) = 16%nat) as Hz by done. generalize dependent (replicate 16 (to_byte 0)). intros zs Hz.
  destruct (writeUInt32BE n) as [e|sc] eqn:Hsc; cbn [mbind sum_bind]; [done|].
  destruct (writeUInt16BE _) as [e|lb] eqn:Hlb; cbn [mbind sum_bind]; [done|]. intros [= <-].
  apply readUInt32BE_write in Hsc as [Hl Hsc]. apply writeUInt16BE_value in Hlb as (hi & lo & -> & Hlen).
  exists sc. split; [|done].
  set (body := h ++ to_byte fl :: sc ++ zs ++ [hi; lo] ++ cid ++ pk). unfold parseAuthenticatorData.
  assert (at_ body (Some 32) = Some fl) as ->.
  { unfold body. rewrite at_at, u8_to_byte, Z.mod_small by lia. done. }
  unfold flag_set. cbn [bits]. rewrite (proj2 (Z.eqb_neq _ _) Hat). cbn [negb].
  assert (body = (h ++ [to_byte fl] ++ sc ++ zs) ++ hi :: (lo :: cid ++ pk)) as Hb1 by (unfold body; by rewrite <- !app_assoc).
  assert (body = (h ++ [to_byte fl] ++ sc ++ zs ++ [hi]) ++ lo :: (cid ++ pk)) as Hb2 by (unfold body; by rewrite <- !app_assoc).
  assert (at_ body (Some 53) = Some (u8 hi)) as -> by (rewrite Hb1; apply at_at; rewrite ?length_app; cbn; lia).
  assert (at_ body (Some 54) = Some (u8 lo)) as -> by (rewrite Hb2; apply at_at; rewrite ?length_app; cbn; lia).
  cbn [bits]. rewrite Hlen. clear Hb1 Hb2.
  assert (∀ pre v rest a b, body = pre ++ v ++ rest → a = Z.of_nat (length pre) → b = a + Z.of_nat (length v) →
    slice body (Some a) (Some b) = v) as Hs by (intros pre v rest a b ->; apply slice_at).
  rewrite (Hs [] h ([to_byte fl] ++ sc ++ zs ++ [hi; lo] ++ cid ++ pk)) by (done || (cbn; lia)).
  rewrite (Hs (h ++ [to_byte fl]) sc (zs ++ [hi; lo] ++ cid ++ pk))
    by ((unfold body; by rewrite <- !app_assoc) || (rewrite ?length_app; cbn; lia)).
  rewrite (Hs (h ++ [to_byte fl] ++ sc) zs ([hi; lo] ++ cid ++ pk))
    by ((unfold body; by rewrite <- !app_assoc) || (rewrite ?length_app; cbn; lia)).
  rewrite (Hs (h ++ [to_byte fl] ++ sc ++ zs ++ [hi; lo]) cid pk)
    by ((unfold body; by rewrite <- !app_assoc) || (rewrite ?length_app; cbn; lia)).
  do 3 f_equal. assert (body = (h ++ [to_byte fl] ++ sc ++ zs ++ [hi; lo] ++ cid) ++ pk) as -> by (unfold body; by rewrite <- !app_assoc).
  apply drop_app_length'. rewrite ?length_app. cbn. lia.
Qed.

(** ** Keys the reader produces *)
(** Every byte read is one, so an integer read is not negative. *)
Lemma at_nonneg buf i z : at_ buf i = Some z → 0 <= z.
Proof.
  unfold at_. destruct i as [i|]; [|done]. destruct (i <? 0); [done|]. destruct (buf !! _) as [c|]; [|done].
  intros [= <-]. apply u8_bound.
Qed.
Lemma bits_at_nonneg buf i : 0 <= bits (at_ buf i).
Proof. destruct (at_ buf i) as [z|] eqn:H; [by apply at_nonneg in H|done]. Qed.
Lemma decodeUInt_nonneg buf i z n : cborDecodeUInt buf i = inr (Some z, n) → 0 <= z.
Proof.
  unfold cborDecodeUInt. destruct (_ <? 24).
  { intros [= <- _]. by apply Z.land_nonneg; right. }
  destruct (_ =? 24); [intros [= H _]; by apply at_nonneg in H|].
  destruct (_ =? 25); [|done]. intros [= <- _]. apply Z.lor_nonneg. split; [|apply bits_at_nonneg].
  apply Z.shiftl_nonneg, bits_at_nonneg.
Qed.

Lemma decode_entries_keys n buf pos m m' pos' k :
  decode_entries n buf pos m = inr (m', pos') → k < 0 → m !! Some k = None → m' !! Some k = None.
Proof.
  revert pos m. induction n as [|n IH]; intros pos m; cbn [decode_entries]; [by intros [= <- _]|].
  destruct (cborDecodeUInt buf pos) as [e|[key kr]] eqn:Hk; cbn [mbind sum_bind]; [done|].
  destruct (cborDecodeBytes buf _) as [e|[v vr]]; cbn [mbind sum_bind]; [done|].
  intros H Hneg Hm. apply (IH _ _ H Hneg). rewrite lookup_insert_ne; [done|]. intros ->.
  apply decodeUInt_nonneg in Hk. lia.
Qed.

Lemma decodeMap_keys buf m pos k : cborDecodeMap buf (Some 0) = inr (m, pos) → k < 0 → m !! Some k = None.
Proof.
  unfold cborDecodeMap. destruct (cborDecodeUInt buf (Some 0)) as [e|[n hr]]; cbn [mbind sum_bind]; [done|].
  destruct (decode_entries _ _ _ _) as [e|[m' p]] eqn:H; cbn [mbind sum_bind]; [done|]. intros [= <- _] Hk.
  by eapply decode_entries_keys.
Qed.

Section ceremonies.
Context {P : Platform} (createVerify : string → Buffer → VerifyKey → Buffer → option bool).

(** The coordinates of a COSE key have negative labels: the reader never finds them. *)
Lemma verifyCOSE_false pk data sig ok : verifyCOSESignature createVerify pk data sig = inr ok → ok = false.
Proof.
  unfold verifyCOSESignature. destruct (cborDecodeMap pk (Some 0)) as [e|[m p]] eqn:Hm; cbn [mbind sum_bind]; [done|].
  assert (∀ k, k < 0 → m !! Some k = None) as Hk by (intros k; by eapply decodeMap_keys).
  rewrite (Hk (-1)), (Hk (-2)) by lia. intros [= <-]. by repeat case_match.
Qed.

(** No sign-in with a passkey succeeds: the reader only yields non-negative
    labels, the coordinates and the modulus of a COSE key carry negative ones, so
    whatever the response, the stored credential and the verdicts of Node's
    [createVerify], [verifyAuthenticationResponse] throws or answers that the
    response is not verified. *)
Theorem authentication_always_refused challenge origin rpId ar cred r :
  verifyAuthenticationResponse createVerify challenge origin rpId ar cred = inr r →
  verified r = false ∧ is_Some (vr_error r).
Proof.
  unfold verifyAuthenticationResponse. destruct (check_clientData _ _ _ _) as [e|[e|]]; cbn [mbind sum_bind]; [done| |].
  { by intros [= <-]. }
  destruct (negb (bool_decide _)); [by intros [= <-]|]. destruct (negb (flag_set _ _)); [by intros [= <-]|].
  destruct (readUInt32BE _) as [e|c]; cbn [mbind sum_bind]; [done|]. destruct (_ && _); [by intros [= <-]|].
  destruct (verifyCOSESignature _ _ _ _) as [e|ok] eqn:Hv; cbn [mbind sum_bind]; [done|].
  apply verifyCOSE_false in Hv as ->. by intros [= <-].
Qed.

(** A registration response is verified exactly when its client data is a
    JSON object of type [webauthn.create] naming the expected challenge and
    origin, its attestation object parses, the authenticator data carries the
    digest of the relying party's identifier, the user was present, and a whole
    counter was sent; the result then reports the presented credential id, that
    counter, and the public key and format of the attestation object. *)
Theorem registration_verified_iff challenge origin rpId rr r :
  verifyRegistrationResponse challenge origin rpId rr = inr r ∧ verified r = true ↔
  ∃ fields att n,
    parse (from_base64 (rr_clientDataJSON rr)) = Some (JObj fields) ∧
    map_get "type" (rev fields) = Some (JStr "webauthn.create") ∧
    map_get "challenge" (rev fields) = Some (JStr challenge) ∧
    map_get "origin" (rev fields) = Some (JStr origin) ∧
    parseAttestationObject (base64UrlToBuffer (rr_attestationObject rr)) = inr att ∧
    rpIdHash (pa_authData att) = digest rpId ∧
    Z.land (bits (flags (pa_authData att))) FLAG_UP ≠ 0 ∧
    readUInt32BE (signCount (pa_authData att)) = inr n ∧
    r = mkWebAuthnVerificationResult true (Some (rr_id rr)) (Some n)
          (Some (match attestedCredentialData (pa_authData att) with
                 | Some acd => to_hex (string_of_list (credentialPublicKey acd))
                 | None => ""
                 end))
          (Some (string_of_list (fmt att))) None.
Proof.
  assert (∀ v s, same_string v s = true ↔ v = Some (JStr s)) as Hstr.
  { intros [[]|] t; cbn; try (by split). rewrite String.eqb_eq. split; [by intros ->|by intros [= ->]]. }
  split.
  - intros [H Hv]. revert H. unfold verifyRegistrationResponse, check_clientData.
    destruct (parse _) as [[]|]; cbn [mbind sum_bind property same_string]; try done; try (intros [= <-]; done).
    destruct (same_string _ "webauthn.create") eqn:Ht; cbn [negb]; [|by intros [= <-]].
    destruct (same_string _ challenge) eqn:Hc; cbn [negb]; [|by intros [= <-]].
    destruct (same_string _ origin) eqn:Ho; cbn [negb]; [|by intros [= <-]].
    apply Hstr in Ht, Hc, Ho. destruct (parseAttestationObject _) as [e|att]; cbn [mbind sum_bind]; [done|].
    case_bool_decide as Hrp; cbn [negb]; [|by intros [= <-]]. unfold flag_set.
    destruct (Z.eqb_spec (Z.land (bits (flags (pa_authData att))) FLAG_UP) 0) as [|Hup]; cbn [negb]; [by intros [= <-]|].
    destruct (readUInt32BE _) as [e|n] eqn:Hn; cbn [mbind sum_bind]; [done|]. intros [= <-]. by exists l, att, n.
  - intros (fields & att & n & Hp & Ht & Hc & Ho & Hatt & Hrp & Hup & Hn & ->). split; [|done].
    unfold verifyRegistrationResponse, check_clientData. rewrite Hp. cbn [mbind sum_bind property].
    rewrite Ht, Hc, Ho. cbn [same_string]. rewrite !String.eqb_refl. cbn [negb]. rewrite Hatt. cbn [mbind sum_bind].
    rewrite bool_decide_true by done. cbn [negb]. unfold flag_set. rewrite (proj2 (Z.eqb_neq _ _) Hup). cbn [negb].
    by rewrite Hn.
Qed.

(** The attestation object a conforming authenticator sends without attestation, in
    canonical CBOR: a map of three text keys, [fmt], [attStmt] and [authData]. *)
Definition none_attestation (authData : Buffer) : Buffer :=
  to_byte 163 :: to_byte 99 :: list_of_string "fmt" ++ to_byte 100 :: list_of_string "none" ++
  to_byte 103 :: list_of_string "attStmt" ++ to_byte 160 :: to_byte 104 :: list_of_string "authData" ++
  to_byte 88 :: to_byte (Z.of_nat (length authData)) :: authData.

Lemma parse_none_attestation authData :
  ∃ att, parseAttestationObject (none_attestation authData) = inr att ∧ length (rpIdHash (pa_authData att)) = 6%nat.
Proof. eexists. split; [by vm_compute|done]. Qed.

(** Registration refuses what conforming authenticators send: when the client
    data is right but the attestation object is the canonical encoding of an
    attestation of format [none], whatever its authenticator data, the reader takes
    the length of a text key for the key, and the answer is an [rpIdHash]
    mismatch. *)
Theorem standard_attestation_refused challenge origin rpId rr authData :
  length (digest rpId) = 32%nat →
  check_clientData "webauthn.create" challenge origin (from_base64 (rr_clientDataJSON rr)) = inr None →
  base64UrlToBuffer (rr_attestationObject rr) = none_attestation authData →
  verifyRegistrationResponse challenge origin rpId rr = inr (rejected "rpIdHash mismatch").
Proof.
  intros Hd Hc Hb. unfold verifyRegistrationResponse. rewrite Hc, Hb. cbn [mbind sum_bind].
  destruct (parse_none_attestation authData) as (att & -> & Hl). cbn [mbind sum_bind].
  rewrite bool_decide_false by congruence. done.
Qed.
End ceremonies.

(** ** Encodings of signatures *)
Lemma trim_cons a b v : trimLeadingZero (a :: b :: v) = if u8 a =? 0 then trimLeadingZero (b :: v) else a :: b :: v.
Proof. done. Qed.

Lemma u8_zero a : u8 a = 0 → a = byte 0.
Proof. unfold u8. intros H. rewrite <- (ascii_nat_embedding a). by replace (nat_of_ascii a) with 0%nat by lia. Qed.

Lemma high_bit a : (negb (Z.land (u8 a) 128 =? 0)) = negb (nat_of_ascii a <? 128)%nat.
Proof. by destruct a as [[] [] [] [] [] [] [] []]. Qed.

Lemma byte_small n : (n < 256)%nat → to_byte (Z.of_nat n) = byte n.
Proof. intros Hn. unfold to_byte, byte. f_equal. rewrite Z.mod_small by lia. apply Nat2Z.id. Qed.

Lemma wrap_trimmed v : (0 < length v < 128)%nat → wrapInteger (trimLeadingZero v) = derInteger v.
Proof.
  intros [Hne Hl]. assert (∀ a t, (length (a :: t) < 128)%nat → der_trim (a :: t) = a :: t →
    wrapInteger (a :: t) = derInteger (a :: t)) as Hwrap.
  { intros a t Ht Hd. unfold wrapInteger, derInteger. rewrite Hd, at_0. cbn [bits]. rewrite high_bit.
    change (Z.of_nat (length (a :: t)) + 1) with (Z.of_nat (length (a :: t)) + Z.of_nat 1). rewrite <- Nat2Z.inj_add, !byte_small by lia.
    destruct (nat_of_ascii a <? 128)%nat; cbn [negb]; [done|]. do 3 f_equal. cbn. lia. }
  induction v as [|a v IH]; [cbn in Hne; lia|]. destruct v as [|b v]; [by apply Hwrap|]. rewrite trim_cons.
  destruct (Z.eqb_spec (u8 a) 0) as [Ha|Ha].
  - destruct (Nat.ltb_spec (nat_of_ascii b) 128) as [Hb|Hb].
    + rewrite IH by (cbn in *; lia). unfold derInteger. rewrite der_trim_cons. unfold u8 in Ha.
      rewrite (proj2 (Nat.eqb_eq _ _)), (proj2 (Nat.ltb_lt _ _)) by lia. done.
    + assert (trimLeadingZero (b :: v) = b :: v) as ->.
      { destruct v; [done|]. rewrite trim_cons. destruct (Z.eqb_spec (u8 b) 0); [|done]. unfold u8 in *. lia. }
      unfold derInteger. rewrite der_trim_cons, (proj2 (Nat.ltb_ge _ _)), andb_false_r by lia.
      unfold wrapInteger. rewrite at_0. cbn [bits]. rewrite high_bit, (proj2 (Nat.ltb_ge (nat_of_ascii b) _)) by lia. cbn [negb].
      rewrite (u8_zero a Ha). change (nat_of_ascii (byte 0) <? 128)%nat with true. cbn iota.
      change (Z.of_nat (length (b :: v)) + 1) with (Z.of_nat (length (b :: v)) + Z.of_nat 1).
      rewrite <- Nat2Z.inj_add, byte_small by (cbn in *; lia). do 2 f_equal. cbn. f_equal. lia.
  - apply Hwrap; [done|]. rewrite der_trim_cons. unfold u8 in Ha. by rewrite (proj2 (Nat.eqb_neq _ _)) by lia.
Qed.

(** The two encoders of ECDSA signatures agree: on every 64-byte signature,
    [rawToDerSignature] produces the bytes of [joseToDerSignature] of
    [packages/crypto/src/jwt.ts], which its decoder takes back to the signature. *)
Theorem der_encoders_agree raw :
  length raw = 64%nat →
  joseToDerSignature raw = inr (rawToDerSignature raw) ∧ derToJoseSignature (rawToDerSignature raw) = inr raw.
Proof.
  intros Hr. assert (joseToDerSignature raw = inr (rawToDerSignature raw)) as H; [|by split; [|apply derToJose_joseToDer]].
  unfold joseToDerSignature, rawToDerSignature. rewrite Hr, Nat.eqb_refl. cbn [negb].
  assert (slice raw (Some 0) (Some 32) = take 32 raw) as -> by done.
  assert (slice raw (Some 32) (Some 64) = drop 32 raw) as ->.
  { unfold slice. cbn [bits]. apply take_ge. rewrite length_drop. lia. }
  rewrite !wrap_trimmed by (rewrite ?length_take, ?length_drop; lia).
  destruct (derInteger_spec (take 32 raw)) as (p & Hp & Hpl & _); [rewrite length_take; lia|].
  destruct (derInteger_spec (drop 32 raw)) as (q & Hq & Hql & _); [rewrite length_drop; lia|].
  assert (length (derInteger (take 32 raw) ++ derInteger (drop 32 raw)) < 128)%nat as Hlen
    by (rewrite length_app, Hp, Hq; cbn; lia).
  rewrite (proj2 (Nat.ltb_lt _ _)) by done. rewrite <- Nat2Z.inj_add, <- length_app, byte_small by lia. done.
Qed.
