(* ===== verification/Passkeys.v ===== *)
(** * Passkeys

    [packages/core/src/services/auth/webauthn.service.ts]: the registration and
    authentication ceremonies over the verifiers of [packages/crypto], which are
    an interface here, with the in-process map of pending challenges and the
    credential collection. *)

From S2P Require Export AuditTrail.
From S2P Require Export WebAuthn.
From S2P Require Export Stock.
From S2P Require Export JsMap.
From Stdlib Require Import Ascii.

(** What the service relies on: the two verifiers of [packages/crypto]. *)
Class Verifiers := {
  verifyRegistration : string → string → string → RegistrationResult → exn + WebAuthnVerificationResult;
  verifyAuthentication : string → string → string → AuthenticationResult → WebAuthnCredential →
    exn + WebAuthnVerificationResult;
}.
(** The verifiers of [webauthn.ts]. *)
Definition crypto_verifiers {P : Platform} (createVerify : string → Buffer → VerifyKey → Buffer → option bool) :
    Verifiers := {|
  verifyRegistration := verifyRegistrationResponse;
  verifyAuthentication := verifyAuthenticationResponse createVerify |}.

Section passkeys.
Context {P : Platform} {V : Verifiers}.

Record WebAuthnConfig := mkWebAuthnConfig {
  wcf_rpName : string;
  wcf_rpId : string;
  wcf_origins : list string;
  wcf_requireUserVerification : option bool;
  wcf_requireResidentKey : option bool;
  wcf_attestation : option AttestationConveyance;
  wcf_challengeTtlMs : option Z;
}.
Record WebAuthnService := mkWebAuthnService {
  ws_rpName : string;
  ws_rpId : string;
  ws_origins : list string;
  ws_requireUserVerification : bool;
  ws_requireResidentKey : bool;
  ws_attestation : AttestationConveyance;
  ws_challengeTtlMs : Z;
  ws_audit : option AuditService;
}.
Definition DEFAULT_CHALLENGE_TTL_MS : Z := 5 * 60000.

Definition new_webauthn (c : WebAuthnConfig) (audit : option AuditService) : exn + WebAuthnService :=
  if String.eqb (wcf_rpId c) "" then inl (ValidationError "WebAuthn requires an rpId" "INVALID_CONFIG")
  else if (length (wcf_origins c) =? 0)%nat then
    inl (ValidationError "WebAuthn requires at least one allowed origin" "INVALID_CONFIG")
  else inr (mkWebAuthnService (wcf_rpName c) (wcf_rpId c) (wcf_origins c)
    (nullish (wcf_requireUserVerification c) false) (nullish (wcf_requireResidentKey c) false)
    (nullish (wcf_attestation c) conveyance_none) (nullish (wcf_challengeTtlMs c) DEFAULT_CHALLENGE_TTL_MS) audit).

(** [origin.replace(/\/$/, '')], [allows]. *)
Fixpoint strip_slash (s : string) : string :=
  match s with
  | EmptyString => EmptyString
  | String c EmptyString => if Ascii.eqb c "/" then EmptyString else s
  | String c r => String c (strip_slash r)
  end.
Definition allows (origin : string) (allowedOrigins : list string) : bool :=
  existsb (λ o, String.eqb (strip_slash o) (strip_slash origin)) allowedOrigins.

(** [takeChallenge]: look up, delete, and drop an expired one. *)
Definition takeChallenge (challenge : string) : prog (world P) (option WebAuthnChallenge) :=
  act (λ w, (w <| challengeStore ::= map_delete challenge |>,
             match map_get challenge (challengeStore w) with
             | Some p => if ch_expiresAt p <? clock w then None else Some p
             | None => None
             end)).
Definition remember (challenge userId : string) (ttl : Z) : prog (world P) () :=
  act (λ w, (w <| challengeStore ::= map_set challenge (mkWebAuthnChallenge challenge (Some userId) (clock w + ttl)) |>, tt)).

Record WebAuthnCredentialSummary := mkSummary {
  sm_credentialId : string;
  sm_nickname : option string;
  sm_transports : list string;
  sm_attestationFormat : option string;
  sm_aaguid : option string;
  sm_discoverable : bool;
  sm_createdAt : Z;
  sm_lastUsedAt : option Z;
}.
Definition toSummary (d : WebAuthnCredentialDoc) : WebAuthnCredentialSummary :=
  mkSummary (wc_credentialId d) (wc_nickname d) (wc_transports d) (wc_attestationFormat d) (wc_aaguid d)
    (wc_discoverable d) (wc_createdAt d) (wc_lastUsedAt d).

Definition conveyance_string (a : AttestationConveyance) : string :=
  match a with conveyance_none => "none" | indirect => "indirect" | direct => "direct" end.
Definition requirement (b : bool) : Requirement := if b then required else preferred.

Definition beginRegistration (s : WebAuthnService) (userId userName userDisplayName : string)
    (existingCredentialIds : list string) : prog (world P) (PublicKeyCredentialCreationOptions * string) :=
  options ← generateRegistrationOptions (mkRegistrationInput (ws_rpName s) (Some (ws_rpId s)) userId userName
    userDisplayName (Some existingCredentialIds) None (Some (requirement (ws_requireUserVerification s)))
    (Some (requirement (ws_requireResidentKey s))) (Some (ws_attestation s)) (Some 60000));
  remember (co_challenge options) userId (ws_challengeTtlMs s) ;;
  mret (options, co_challenge options).

(** The checks the two completions share: the origin, then the pending ceremony. *)
Definition ORIGIN_NOT_ALLOWED : exn := AuthenticationError "Origin not allowed" "WEB_AUTHN_ORIGIN".
Definition UNKNOWN_CHALLENGE : exn := AuthenticationError "Unknown or expired challenge" "WEB_AUTHN_CHALLENGE".
Definition pending_user (s : WebAuthnService) (expectedChallenge origin : string) : prog (world P) string :=
  throw_if (negb (allows origin (ws_origins s))) ORIGIN_NOT_ALLOWED ;;
  pending ← takeChallenge expectedChallenge;
  match pending with
  | Some p => if truthy (ch_userId p) then mret (nullish (ch_userId p) "") else Throw UNKNOWN_CHALLENGE
  | None => Throw UNKNOWN_CHALLENGE
  end.

Definition passkey_event (eventType userId : string) (metadata : list (string * json)) : AuditEntryInput :=
  audit_event eventType None None (Some userId) ([("method", JStr "webauthn")]%string ++ metadata).

(** The document of a verified credential; the schema requires a public key. *)
Definition new_credential (s : WebAuthnService) (userId id : string) (rr : RegistrationResult)
    (v : WebAuthnVerificationResult) (t : Z) : WebAuthnCredentialDoc :=
  mkWebAuthnCredentialDoc id userId userId (nullish (vr_credentialId v) "") (nullish (vr_credentialPublicKey v) "")
    (nullish (vr_newCounter v) 0) (nullish (rr_getTransports rr) [])
    (Some (nullish (vr_attestationFormat v) (conveyance_string (ws_attestation s)))) None None
    (ws_requireResidentKey s) (ws_requireUserVerification s) false None None t.
Definition with_credential_id (id : string) (d : WebAuthnCredentialDoc) : bool := bool_decide (wc_credentialId d = id).

(** [completeRegistration], after the ceremony has been found pending. *)
Definition finish_registration (s : WebAuthnService) (rr : RegistrationResult) (expectedChallenge origin userId : string) :
    prog (world P) WebAuthnCredentialSummary :=
  v ← from_result (verifyRegistration expectedChallenge origin (ws_rpId s) rr);
  throw_if (negb (verified v) || negb (truthy (vr_credentialId v)))
    (AuthenticationError (nullish (vr_error v) "Registration verification failed") "WEB_AUTHN_INVALID") ;;
  existing ← count_documents (with_credential_id (nullish (vr_credentialId v) ""));
  throw_if (0 <? existing) (ValidationError "Credential already registered" "WEB_AUTHN_DUPLICATE") ;;
  id ← draw newObjectId;
  t ← now;
  let doc := new_credential s userId id rr v t in
  throw_if (String.eqb (wc_publicKey doc) "") (JsError "Path `publicKey` is required.") ;;
  create doc ;;
  audit_log (ws_audit s) (passkey_event "MFA_ENABLED" userId [("credentialId", JStr (nullish (vr_credentialId v) ""))]%string) ;;
  mret (toSummary doc).
Definition completeRegistration (s : WebAuthnService) (rr : RegistrationResult) (expectedChallenge origin : string) :
    prog (world P) WebAuthnCredentialSummary :=
  userId ← pending_user s expectedChallenge origin;
  finish_registration s rr expectedChallenge origin userId.

(** The active credentials of a user. *)
Definition active_of (userId : string) (d : WebAuthnCredentialDoc) : bool :=
  bool_decide (wc_userId d = userId) && negb (wc_isRevoked d).
Definition listCredentialIds (userId : string) : prog (world P) (list string) :=
  docs ← find_all (active_of userId);
  mret (map wc_credentialId docs).
Definition listCredentials (userId : string) : prog (world P) (list WebAuthnCredentialSummary) :=
  docs ← find_sorted (λ d, - wc_createdAt d) (active_of userId);
  mret (map toSummary docs).

Definition beginAuthentication (s : WebAuthnService) (userId : string) (credentialIds : list string) :
    prog (world P) (PublicKeyCredentialRequestOptions * string) :=
  allowCredentials ← (if (0 <? length credentialIds)%nat then mret credentialIds else listCredentialIds userId);
  options ← generateAuthenticationOptions (Some (ws_rpId s)) (Some allowCredentials)
    (Some (requirement (ws_requireUserVerification s))) (Some 60000);
  remember (qo_challenge options) userId (ws_challengeTtlMs s) ;;
  mret (options, qo_challenge options).

Definition usable_credential (id : string) (d : WebAuthnCredentialDoc) : bool :=
  with_credential_id id d && negb (wc_isRevoked d).
Definition same_document (id : string) (d : WebAuthnCredentialDoc) : bool := bool_decide (wc_id d = id).
Definition stored_credential (d : WebAuthnCredentialDoc) : WebAuthnCredential :=
  mkWebAuthnCredential (wc_credentialId d) (wc_publicKey d) (wc_counter d) (wc_transports d) (wc_createdAt d).
Definition used (counter t : Z) (d : WebAuthnCredentialDoc) : WebAuthnCredentialDoc :=
  d <| wc_counter := counter |> <| wc_lastUsedAt := Some t |>.

(** [completeAuthentication], after the ceremony has been found pending. *)
Definition finish_authentication (s : WebAuthnService) (ar : AuthenticationResult) (expectedChallenge origin userId : string) :
    prog (world P) bool :=
  credential ← find_one (usable_credential (ar_id ar));
  match credential with
  | None => Throw (AuthenticationError "Unknown credential" "WEB_AUTHN_UNKNOWN")
  | Some d =>
    v ← from_result (verifyAuthentication expectedChallenge origin (ws_rpId s) ar (stored_credential d));
    if negb (verified v) then
      audit_log (ws_audit s) (passkey_event "MFA_CHALLENGE_FAILED" userId [("credentialId", JStr (wc_credentialId d))]%string) ;;
      mret false
    else
      let newCounter := nullish (vr_newCounter v) (wc_counter d) in
      if (0 <? wc_counter d) && (newCounter <=? wc_counter d) then
        audit_log (ws_audit s) (passkey_event "MFA_CHALLENGE_FAILED" userId
          [("credentialId", JStr (wc_credentialId d)); ("reason", JStr "counter_reuse_clone_detected")]%string) ;;
        mret false
      else
        t ← now;
        update_one (same_document (wc_id d)) (used newCounter t) ;;
        audit_log (ws_audit s) (passkey_event "MFA_CHALLENGE_SUCCESS" userId [("credentialId", JStr (wc_credentialId d))]%string) ;;
        mret true
  end.
Definition completeAuthentication (s : WebAuthnService) (ar : AuthenticationResult) (expectedChallenge origin : string) :
    prog (world P) bool :=
  userId ← pending_user s expectedChallenge origin;
  finish_authentication s ar expectedChallenge origin userId.

(** [updateOne] and [deleteOne] with the count they report. *)
Definition update_counted (f : WebAuthnCredentialDoc → bool) (u : WebAuthnCredentialDoc → WebAuthnCredentialDoc) :
    prog (world P) Z :=
  store_op (λ w, (upd_tbl (m_update_one f u) w, inr (if m_find_one f (tbl w) then 1 else 0))).
Definition delete_counted (f : WebAuthnCredentialDoc → bool) : prog (world P) Z :=
  store_op (λ w, (upd_tbl (m_delete_one f) w, inr (if m_find_one f (tbl w) then 1 else 0))).
Definition owned (userId credentialId : string) (d : WebAuthnCredentialDoc) : bool :=
  bool_decide (wc_userId d = userId) && with_credential_id credentialId d.
Definition CREDENTIAL_NOT_FOUND : exn := ValidationError "Credential not found" "WEB_AUTHN_NOT_FOUND".

Definition renameCredential (userId credentialId nickname : string) : prog (world P) () :=
  matchedCount ← update_counted (owned userId credentialId) (λ d, d <| wc_nickname := Some (js_trim nickname) |>);
  throw_if (matchedCount =? 0) CREDENTIAL_NOT_FOUND.
Definition deleteCredential (userId credentialId : string) : prog (world P) () :=
  deletedCount ← delete_counted (owned userId credentialId);
  throw_if (deletedCount =? 0) CREDENTIAL_NOT_FOUND.
Definition revoke_at (t : Z) (d : WebAuthnCredentialDoc) : WebAuthnCredentialDoc :=
  d <| wc_isRevoked := true |> <| wc_revokedAt := Some t |>.
Definition revokeCredential (userId credentialId : string) : prog (world P) () :=
  t ← now;
  matchedCount ← update_counted (owned userId credentialId) (revoke_at t);
  throw_if (matchedCount =? 0) CREDENTIAL_NOT_FOUND.
Definition hasCredentials (userId : string) : prog (world P) bool :=
  count ← count_documents (active_of userId);
  mret (0 <? count).
End passkeys.

(** ** Lemmas *)
Section lemmas.
Context {P : Platform} {V : Verifiers}.

(** Steps that leave the pending ceremonies alone. *)
Definition undisturbed (w w' : world P) : Prop :=
  challengeStore w' = challengeStore w ∧ (draws w ≤ draws w')%nat.
#[export] Instance undisturbed_preorder : PreOrder undisturbed.
Proof. split; [done|]. intros w1 w2 w3 [H1 H2] [H1' H2']. split; [congruence|lia]. Qed.
Lemma undisturbed_op {A} (f : world P → world P * (exn + A)) :
  (∀ w, undisturbed w (f w).1) → guarantee undisturbed (store_op f).
Proof. by apply guarantee_store_op; [apply _|]. Qed.
Lemma un_read {A} (f : world P → exn + A) : guarantee undisturbed (store_op (λ w, (w, f w))).
Proof. by apply undisturbed_op. Qed.
Lemma un_update_one (f : WebAuthnCredentialDoc → bool) u : guarantee undisturbed (update_one f u).
Proof. by apply undisturbed_op. Qed.
Lemma un_counted (f : WebAuthnCredentialDoc → bool) u : guarantee undisturbed (update_counted f u).
Proof. by apply undisturbed_op. Qed.
Lemma un_delete (f : WebAuthnCredentialDoc → bool) : guarantee undisturbed (delete_counted f).
Proof. by apply undisturbed_op. Qed.
Lemma un_create (d : WebAuthnCredentialDoc) : guarantee undisturbed (create d).
Proof. apply undisturbed_op. intros w. unfold insert_doc. by destruct (m_insert _ _ _). Qed.
Lemma un_now : guarantee undisturbed now.
Proof. by apply guarantee_act. Qed.
Lemma un_draw {A} (f : nat → A) : guarantee undisturbed (draw f).
Proof. apply guarantee_act. intros w. split; cbn; [done|lia]. Qed.
Lemma un_from_result {A} (r : exn + A) : guarantee undisturbed (from_result r).
Proof. by destruct r. Qed.
Lemma un_audit a input : guarantee undisturbed (audit_log a input).
Proof.
  destruct a as [a|]; [|done]. eapply guarantee_mono; [|apply g_log].
  intros w w' (Hr & _ & Hd & _). split; [|done]. unfold rest in Hr. by injection Hr.
Qed.
#[local] Hint Resolve un_read un_update_one un_counted un_delete un_create un_now un_draw un_from_result un_audit
  : guarantee_db.

Lemma un_finish_registration s rr c origin userId : guarantee undisturbed (finish_registration s rr c origin userId).
Proof. unfold finish_registration. cbn zeta. solve_guarantee. Qed.
Lemma un_finish_authentication s ar c origin userId : guarantee undisturbed (finish_authentication s ar c origin userId).
Proof. unfold finish_authentication. cbn zeta. solve_guarantee. Qed.

(** ** One response per ceremony *)
Section single_response.
Context (s : WebAuthnService) (c : string) (n0 : nat).

(** The challenges drawn from the [n0]-th draw on are not [c]. *)
Definition challenge_fresh : Prop :=
  ∀ i, (n0 ≤ i)%nat → bufferToBase64Url (list_of_string (randomBytes i 32)) ≠ c.
Definition pending_credit (w : world P) : nat := if map_has c (challengeStore w) then 1 else 0.
(** What may happen besides the requests: everything but a change of the map. *)
Definition ceremony_env (w w' : world P) : Prop := undisturbed w w'.

Lemma undisturbed_keeps w w' : undisturbed w w' → keeps (drawn n0) pending_credit w w'.
Proof. intros [H Hd] Hw. unfold drawn, pending_credit in *. rewrite H. split; [lia|done]. Qed.

Lemma harmless_undisturbed {A} (p : prog (world P) A) : guarantee undisturbed p → harmless (drawn n0) pending_credit p.
Proof. intros H. apply guarantee_harmless. by eapply guarantee_mono; [apply undisturbed_keeps|]. Qed.

(** The requests of the service. *)
Inductive ceremony_request :=
| BeginRegistration (userId userName displayName : string) (exclude : list string)
| CompleteRegistration (rr : RegistrationResult) (challenge origin : string)
| BeginAuthentication (userId : string) (credentialIds : list string)
| CompleteAuthentication (ar : AuthenticationResult) (challenge origin : string)
| RenameCredential (userId credentialId nickname : string)
| DeleteCredential (userId credentialId : string)
| RevokeCredential (userId credentialId : string).

Definition serve_ceremony (r : ceremony_request) : prog (world P) ceremony_request :=
  match r with
  | BeginRegistration u n d e => beginRegistration s u n d e ;; mret r
  | CompleteRegistration rr ch o => completeRegistration s rr ch o ;; mret r
  | BeginAuthentication u ids => beginAuthentication s u ids ;; mret r
  | CompleteAuthentication ar ch o => completeAuthentication s ar ch o ;; mret r
  | RenameCredential u i n => renameCredential u i n ;; mret r
  | DeleteCredential u i => deleteCredential u i ;; mret r
  | RevokeCredential u i => revokeCredential u i ;; mret r
  end.
Definition completed (r : ceremony_request) : bool :=
  match r with
  | CompleteRegistration _ ch _ | CompleteAuthentication _ ch _ => String.eqb ch c
  | _ => false
  end.

Lemma pays_pending_user ch origin :
  pays (drawn n0) pending_credit 0 (pending_user s ch origin)
    (λ r m, match r with inr _ => ch = c → (1 ≤ m)%nat | inl _ => True end).
Proof.
  unfold pending_user. apply pays_bind. destruct (negb _); [done|]. cbn [pays throw_if mret prog_mret].
  apply pays_bind, pays_atom. intros w Hw. cbn [fst snd]. split; [done|].
  destruct (map_get ch (challengeStore w)) as [p|] eqn:Hp.
  - exists (if String.eqb ch c then 1 else 0)%nat. split.
    + unfold pending_credit. cbn [challengeStore set_field]. unfold map_has. rewrite map_get_delete.
      destruct (String.eqb_spec ch c) as [<-|]; [by rewrite Hp|lia].
    + destruct (_ <? _); [done|]. cbn. destruct (truthy _); [|done]. cbn. intros ->. by rewrite String.eqb_refl.
  - exists 0%nat. split; [|done]. unfold pending_credit. cbn [challengeStore set_field]. unfold map_has. rewrite map_get_delete.
    destruct (String.eqb_spec ch c) as [<-|]; [cbn; lia|lia].
Qed.

Lemma remember_keeps w ch p :
  ch ≠ c → keeps (drawn n0) pending_credit w (w <| challengeStore ::= map_set ch p |>).
Proof.
  intros Hne Hw. split; [done|]. unfold pending_credit, map_has. cbn [challengeStore set_field]. rewrite map_get_set.
  by rewrite (proj2 (String.eqb_neq _ _)) by done.
Qed.

(** A ceremony that begins has a challenge of its own. *)
Lemma harmless_begin {O} (f : string → O) (challenge_of : O → string) userId :
  challenge_fresh → (∀ ch, challenge_of (f ch) = ch) → harmless (drawn n0) pending_credit (
    o ← (challenge ← generateChallenge; mret (f challenge));
    remember (challenge_of o) userId (ws_challengeTtlMs s) ;; mret (o, challenge_of o)).
Proof.
  intros Hf Ho. cbn. intros w Hw. split; [unfold drawn in *; cbn; lia|]. exists 0%nat. split; [reflexivity|].
  intros w' Hw'. rewrite Ho. destruct (remember_keeps w' (bufferToBase64Url (list_of_string (randomBytes (draws w) 32)))
    (mkWebAuthnChallenge (bufferToBase64Url (list_of_string (randomBytes (draws w) 32))) (Some userId) (clock w' + ws_challengeTtlMs s)))
    as [H1 H2]; [by apply Hf|done|]. split; [done|]. exists 0%nat.
  split; [rewrite !Nat.add_0_r; exact H2|done].
Qed.

Lemma pays_complete {A} ch origin (k : string → prog (world P) A) (r : ceremony_request) :
  (∀ u, guarantee undisturbed (k u)) → completed r = String.eqb ch c →
  pays (drawn n0) pending_credit 0 ((u ← pending_user s ch origin; k u) ;; mret r) (won completed).
Proof.
  intros Hk Hr. apply pays_bind, pays_bind. eapply pays_mono; [apply pays_pending_user|].
  intros [e|u] m Hm; [done|]. apply pays_harmless; [by apply harmless_undisturbed|].
  intros [e|a] m' Hle; [done|]. cbn. rewrite Hr. intros Hc%String.eqb_eq. specialize (Hm Hc). lia.
Qed.

Lemma pays_serve_ceremony r : challenge_fresh → pays (drawn n0) pending_credit 0 (serve_ceremony r) (won completed).
Proof.
  intros Hf. destruct r as [u n d e|rr ch o|u ids|ar ch o|u i n|u i|u i]; cbn [serve_ceremony].
  - apply pays_bind, pays_harmless; [|by intros [x|x] m _].
    unfold beginRegistration, generateRegistrationOptions. cbn zeta. by apply (harmless_begin _ co_challenge).
  - apply (pays_complete ch o (finish_registration s rr ch o)); [apply un_finish_registration|done].
  - apply pays_bind, pays_harmless; [|by intros [x|x] m _]. unfold beginAuthentication. apply harmless_bind.
    { apply harmless_undisturbed. unfold listCredentialIds. solve_guarantee. }
    intros al. unfold generateAuthenticationOptions. by apply (harmless_begin _ qo_challenge).
  - apply (pays_complete ch o (finish_authentication s ar ch o)); [apply un_finish_authentication|done].
  - apply pays_bind, pays_harmless; [|by intros [x|x] m _]. apply harmless_undisturbed. unfold renameCredential. solve_guarantee.
  - apply pays_bind, pays_harmless; [|by intros [x|x] m _]. apply harmless_undisturbed. unfold deleteCredential. solve_guarantee.
  - apply pays_bind, pays_harmless; [|by intros [x|x] m _]. apply harmless_undisturbed. unfold revokeCredential. solve_guarantee.
Qed.

(** C7: A passkey ceremony is answered once: among any number of requests in flight
    (ceremonies begun and completed, credentials renamed, deleted and revoked), in
    any interleaving, with failing database commands and a moving clock, at most one
    completion against a given challenge gets past it, and none when the challenge
    was not pending, provided the challenges drawn later are other ones. *)
Theorem ceremony_single_use w w' (rs : list ceremony_request) (ps' : list (prog (world P) ceremony_request)) :
  challenge_fresh → drawn n0 w → reachable ceremony_env (w, map serve_ceremony rs) (w', ps') →
  (winners completed ps' ≤ pending_credit w)%nat.
Proof.
  intros Hf Hw Hr. eapply (winners_bounded (drawn n0) pending_credit ceremony_env completed); [|done| |done].
  - intros v v'. apply undisturbed_keeps.
  - apply List.Forall_forall. intros p (r & <- & _)%in_map_iff. by apply pays_serve_ceremony.
Qed.
End single_response.

(** ** What a completed ceremony establishes *)
Lemma pending_user_ok s c origin w w' userId :
  run (pending_user s c origin) w = (w', inr userId) →
  allows origin (ws_origins s) = true ∧ userId ≠ "" ∧ w' = w <| challengeStore ::= map_delete c |> ∧
  ∃ p, map_get c (challengeStore w) = Some p ∧ ch_userId p = Some userId ∧ clock w <= ch_expiresAt p.
Proof.
  unfold pending_user. intros H. first_step H w1 u Hu. apply run_throw_if_ok in Hu as [Ho ->].
  apply negb_false_iff in Ho. first_step H w2 r Hr. unfold takeChallenge in Hr. rewrite run_act in Hr. injection Hr as <- Hr.
  destruct (map_get c (challengeStore w)) as [p|] eqn:Hp; cbn [snd] in Hr; [|subst r; discriminate H].
  destruct (Z.ltb_spec (ch_expiresAt p) (clock w)) as [|Hex]; [subst r; discriminate H|]. subst r.
  destruct (truthy (ch_userId p)) eqn:Ht; [|done]. apply truthy_some in Ht as (u' & Hu' & Hne).
  rewrite Hu' in H. injection H as <- <-.
  split; [done|]. split; [done|]. split; [done|]. by exists p.
Qed.

Definition same_credentials (w w' : world P) : Prop := webauthnCredentials w' = webauthnCredentials w.
Lemma audit_only_credentials w w' : audit_only w w' → same_credentials w w'.
Proof. intros (Hr & _). unfold rest in Hr. by injection Hr. Qed.

Lemma run_audit_ok a input (w w' : world P) r : run (audit_log a input) w = (w', r) → audit_only w w'.
Proof. destruct (run_audit_log a input w) as (w1 & Hr & Ha). rewrite Hr. by intros [= <- _]. Qed.

Lemma finish_registration_ok s rr c origin userId w w' summary :
  run (finish_registration s rr c origin userId) w = (w', inr summary) →
  ∃ v docid t, verifyRegistration c origin (ws_rpId s) rr = inr v ∧ verified v = true ∧
    let doc := new_credential s userId docid rr v t in
    vr_credentialId v = Some (wc_credentialId doc) ∧ wc_credentialId doc ≠ "" ∧ wc_publicKey doc ≠ "" ∧
    (∀ d, In d (docs (webauthnCredentials w)) → wc_credentialId d ≠ wc_credentialId doc) ∧
    inserted doc (docs (webauthnCredentials w)) (docs (webauthnCredentials w')) ∧ summary = toSummary doc.
Proof.
  unfold finish_registration. cbn zeta. intros H. first_step H w2 v Hv. rewrite run_from_result in Hv. injection Hv as <- Hv.
  first_step H w3 u0 Ht. apply run_throw_if_ok in Ht as [[Hver Hid]%orb_false_iff ->].
  apply negb_false_iff in Hver, Hid. apply truthy_some in Hid as (cid & Hcid & Hid).
  first_step H w4 n Hn. apply run_store_op_ok in Hn as (fs & Hn & _). injection Hn as <- Hn.
  first_step H w5 u1 Ht. apply run_throw_if_ok in Ht as [Hn0%Z.ltb_ge ->].
  first_step H w6 docid Hdraw. injection Hdraw as <- _. first_step H w7 t Hnow. injection Hnow as <- _.
  first_step H w8 u2 Ht. apply run_throw_if_ok in Ht as [Hpk%String.eqb_neq ->].
  first_step H w9 u3 Hcr. apply run_create_ok in Hcr as (Hins & _). first_step H w10 u4 Hlog. injection H as <- <-.
  apply run_audit_ok, audit_only_credentials in Hlog. exists v, docid, t. cbn zeta. rewrite Hlog.
  change (wc_credentialId (new_credential s userId docid rr v t)) with (nullish (vr_credentialId v) "").
  rewrite Hcid in *. cbn [nullish] in *. split_and!; try done. intros d Hd <-.
  rewrite m_count_law in Hn. assert (count (with_credential_id (wc_credentialId d)) (docs (webauthnCredentials w)) = 0%nat) as Hc by lia.
  apply count_zero in Hc. pose proof (find_none _ _ Hc d Hd) as Hf. unfold with_credential_id in Hf. by rewrite bool_decide_true in Hf.
Qed.

(** What a completed registration establishes: the origin is allowed, the
    challenge belonged to a pending ceremony of some user that had not expired and
    is pending no more, the verifier accepted the response for this challenge,
    origin and relying party, no stored credential had its id, and exactly one
    credential was stored: that user's, with the id, key and counter the verifier
    reported, unrevoked. *)
Theorem completeRegistration_sound s rr c origin w w' summary :
  run (completeRegistration s rr c origin) w = (w', inr summary) →
  ∃ userId p v doc,
    allows origin (ws_origins s) = true ∧
    map_get c (challengeStore w) = Some p ∧ ch_userId p = Some userId ∧ clock w <= ch_expiresAt p ∧
    map_get c (challengeStore w') = None ∧
    verifyRegistration c origin (ws_rpId s) rr = inr v ∧ verified v = true ∧
    vr_credentialId v = Some (wc_credentialId doc) ∧ wc_credentialId doc ≠ "" ∧
    (∀ d, In d (docs (webauthnCredentials w)) → wc_credentialId d ≠ wc_credentialId doc) ∧
    inserted doc (docs (webauthnCredentials w)) (docs (webauthnCredentials w')) ∧
    wc_userId doc = userId ∧ Some (wc_publicKey doc) = vr_credentialPublicKey v ∧ wc_publicKey doc ≠ "" ∧
    wc_counter doc = nullish (vr_newCounter v) 0 ∧ wc_isRevoked doc = false ∧ summary = toSummary doc.
Proof.
  unfold completeRegistration. intros H. first_step H w1 userId Hp.
  apply pending_user_ok in Hp as (Ho & Hne & -> & p & Hp & Hu & Hex).
  pose proof (guarantee_run undisturbed _ (w <| challengeStore ::= map_delete c |>) (un_finish_registration s rr c origin userId)) as [Hch _].
  rewrite H in Hch. cbn [fst challengeStore set_field] in Hch.
  apply finish_registration_ok in H as (v & docid & t & Hv & Hver & Hid & Hne' & Hpk & Hnew & Hins & ->).
  exists userId, p, v, (new_credential s userId docid rr v t). rewrite Hch, map_get_delete, String.eqb_refl.
  split_and!; try done. cbn in Hpk |- *. by destruct (vr_credentialPublicKey v).
Qed.

Lemma finish_authentication_ok s ar c origin userId w w' ok :
  run (finish_authentication s ar c origin userId) w = (w', inr ok) →
  ∃ d v, List.find (usable_credential (ar_id ar)) (docs (webauthnCredentials w)) = Some d ∧
    verifyAuthentication c origin (ws_rpId s) ar (stored_credential d) = inr v ∧
    if ok then
      let n := nullish (vr_newCounter v) (wc_counter d) in
      verified v = true ∧ (0 < wc_counter d → wc_counter d < n) ∧
      ∃ t, docs (webauthnCredentials w') =
        alter_first (same_document (wc_id d)) (used n t) (docs (webauthnCredentials w))
    else docs (webauthnCredentials w') = docs (webauthnCredentials w).
Proof.
  unfold finish_authentication. intros H. first_step H w1 r Hr. apply run_find_one_ok in Hr as (-> & fs & -> & _).
  change (tbl w) with (webauthnCredentials w) in H.
  destruct (List.find _ (docs (webauthnCredentials w))) as [d|]; [|done]. first_step H w2 v Hv.
  rewrite run_from_result in Hv. injection Hv as <- Hv. exists d, v. split; [done|]. split; [done|].
  assert (∀ a i v, run (audit_log a i ;; mret false) v = (w', inr ok) → ok = false ∧ same_credentials v w') as Hfail.
  { intros a i v0 Hl. first_step Hl w3 u Hl'. injection Hl as <- <-. split; [done|]. by eapply audit_only_credentials, run_audit_ok. }
  destruct (verified v); cbn [negb] in H; [|by apply Hfail in H as [-> ->]].
  destruct ((0 <? wc_counter d) && _) eqn:Hc; [by apply Hfail in H as [-> ->]|].
  first_step H w3 t Ht. injection Ht as <- _. first_step H w4 u Hup. apply run_update_one_ok in Hup as (fs' & -> & _).
  first_step H w5 u' Hl. injection H as <- <-. apply run_audit_ok, audit_only_credentials in Hl. rewrite Hl. split; [done|]. split.
  - apply andb_false_iff in Hc as [Hc%Z.ltb_ge|Hc%Z.leb_gt]; lia.
  - exists t. cbn. by rewrite m_update_one_law.
Qed.

(** What an answered sign-in establishes: the origin is allowed, the challenge
    belonged to a pending ceremony that had not expired and is pending no more, the
    presented id is that of a stored credential which is not revoked, and the
    verifier was asked about that credential.  When the answer is yes the verifier
    accepted the response, a counter that was in use went up, and the credential
    carries the new counter; when it is no, no credential changed. *)
Theorem completeAuthentication_sound s ar c origin w w' ok :
  run (completeAuthentication s ar c origin) w = (w', inr ok) →
  ∃ p d v,
    allows origin (ws_origins s) = true ∧
    map_get c (challengeStore w) = Some p ∧ clock w <= ch_expiresAt p ∧ map_get c (challengeStore w') = None ∧
    In d (docs (webauthnCredentials w)) ∧ wc_credentialId d = ar_id ar ∧ wc_isRevoked d = false ∧
    verifyAuthentication c origin (ws_rpId s) ar (stored_credential d) = inr v ∧
    if ok then
      let n := nullish (vr_newCounter v) (wc_counter d) in
      verified v = true ∧ (0 < wc_counter d → wc_counter d < n) ∧
      ∃ t, docs (webauthnCredentials w') =
        alter_first (same_document (wc_id d)) (used n t) (docs (webauthnCredentials w))
    else docs (webauthnCredentials w') = docs (webauthnCredentials w).
Proof.
  unfold completeAuthentication. intros H. first_step H w1 userId Hp.
  apply pending_user_ok in Hp as (Ho & _ & -> & p & Hp & _ & Hex).
  pose proof (guarantee_run undisturbed _ (w <| challengeStore ::= map_delete c |>) (un_finish_authentication s ar c origin userId)) as [Hch _].
  rewrite H in Hch. cbn [fst challengeStore set_field] in Hch.
  apply finish_authentication_ok in H as (d & v & Hd & Hv & Hok). cbn [webauthnCredentials set_field] in *.
  apply find_some in Hd as [Hin [Hid Hrev]%andb_prop]. apply bool_decide_eq_true in Hid. apply negb_true_iff in Hrev.
  exists p, d, v. rewrite Hch, map_get_delete, String.eqb_refl. by split_and!.
Qed.

(** What the two calls that withdraw a credential leave. *)
Lemma run_revoke_ok userId cid w w' u :
  run (revokeCredential userId cid) w = (w', inr u) →
  ∃ d t, List.find (owned userId cid) (docs (webauthnCredentials w)) = Some d ∧
    docs (webauthnCredentials w') = alter_first (owned userId cid) (revoke_at t) (docs (webauthnCredentials w)).
Proof.
  unfold revokeCredential. intros H. first_step H w1 t Ht. injection Ht as <- <-. first_step H w2 n Hn.
  apply run_store_op_ok in Hn as (fs & Hn & _). injection Hn as <- Hn. apply run_throw_if_ok in H as [Hn0 ->].
  cbn in Hn. rewrite m_find_one_law in Hn. destruct (List.find _ _) as [d|] eqn:Hd; [|by subst n].
  exists d, (clock w). split; [done|]. cbn. by rewrite m_update_one_law.
Qed.
Lemma run_delete_ok userId cid w w' u :
  run (deleteCredential userId cid) w = (w', inr u) →
  ∃ d, List.find (owned userId cid) (docs (webauthnCredentials w)) = Some d ∧
    docs (webauthnCredentials w') = remove_first (owned userId cid) (docs (webauthnCredentials w)).
Proof.
  unfold deleteCredential. intros H. first_step H w2 n Hn.
  apply run_store_op_ok in Hn as (fs & Hn & _). injection Hn as <- Hn. apply run_throw_if_ok in H as [Hn0 ->].
  cbn in Hn. rewrite m_find_one_law in Hn. destruct (List.find _ _) as [d|] eqn:Hd; [|by subst n].
  exists d. split; [done|]. cbn. by rewrite m_delete_one_law.
Qed.
Lemma owned_id userId cid l d : List.find (owned userId cid) l = Some d → wc_credentialId d = cid.
Proof. intros [_ [_ H]%andb_prop]%find_some. by apply bool_decide_eq_true in H. Qed.

(** Revoking or deleting a credential takes effect at once: once either call has
    returned, no sign-in that presents its id succeeds, whatever the ceremony and
    the response, as long as credential ids are unique in the store. *)
Theorem revoked_credential_refused s userId cid (delete : bool) ar c origin w w' v w'' r :
  unique_key wc_credentialId (docs (webauthnCredentials w)) →
  run (if delete then deleteCredential userId cid else revokeCredential userId cid) w = (w', inr tt) →
  webauthnCredentials v = webauthnCredentials w' → ar_id ar = cid →
  run (completeAuthentication s ar c origin) v = (w'', r) → ∃ e, r = inl e.
Proof.
  intros Hu Hrun Hv Hid Hc. destruct r as [e|ok]; [by exists e|]. exfalso.
  unfold completeAuthentication in Hc. first_step Hc w1 u Hp. apply pending_user_ok in Hp as (_ & _ & -> & _).
  apply finish_authentication_ok in Hc as (d & _ & Hd & _). cbn [webauthnCredentials set_field] in Hd. rewrite Hv, Hid in Hd.
  apply find_some in Hd as [Hin [Hcid Hrev]%andb_prop]. apply bool_decide_eq_true in Hcid.
  apply negb_true_iff in Hrev. destruct delete.
  - apply run_delete_ok in Hrun as (d0 & Hd0 & Hdocs). rewrite Hdocs in Hin.
    apply (In_remove_unique _ _ _ _ _ Hu Hd0) in Hin. apply owned_id in Hd0. congruence.
  - apply run_revoke_ok in Hrun as (d0 & t & Hd0 & Hdocs). rewrite Hdocs in Hin.
    apply (In_alter_unique _ _ _ _ _ _ Hu Hd0) in Hin as [->|[_ Hk]]; [done|]. apply owned_id in Hd0. congruence.
Qed.
End lemmas.
