(* ===== verification/Totp.v ===== *)
(** * Time-based one-time passwords

    [packages/crypto/src/totp.ts]: RFC 4226 / RFC 6238 codes over HMAC-SHA1, the
    base32 form of secrets, provisioning URIs and backup codes. *)

From S2P Require Export World.
From Stdlib Require Import Ascii.

(** ** Base32 *)
Definition BASE32_ALPHABET : string := "ABCDEFGHIJKLMNOPQRSTUVWXYZ234567".

(** [encodeBase32]. *)
Definition encodeBase32 (secret : string) : string := string_of_list (encode 5 BASE32_ALPHABET secret).

(** [base32DecodeAndHexBuffer] and [secretFromBase32]: padding is dropped, any
    other foreign character fails. *)
Fixpoint base32_values (l : list ascii) : option (list nat) :=
  match l with
  | [] => Some []
  | c :: l' => match index_of c BASE32_ALPHABET, base32_values l' with
               | Some n, Some ns => Some (n :: ns)
               | _, _ => None
               end
  end.
Definition secretFromBase32 (input : string) : option string :=
  let upper := List.filter (λ c, negb (Ascii.eqb c "=")) (list_of_string (js_upper input)) in
  decode_values 5 <$> base32_values upper.

Lemma base32_values_map cs ns :
  map (λ c, index_of c BASE32_ALPHABET) cs = map Some ns → base32_values cs = Some ns.
Proof.
  revert ns. induction cs as [|c cs IH]; intros [|n ns]; cbn; try done.
  intros [= -> Hm]. by rewrite (IH ns Hm).
Qed.

Lemma list_of_string_upper s : list_of_string (js_upper s) = map js_upper_ascii (list_of_string s).
Proof. induction s; cbn; congruence. Qed.

(** Every secret survives provisioning, whatever the case it is typed in. *)
Lemma base32_upper_id c : existsb (Ascii.eqb c) (list_of_string BASE32_ALPHABET) = true →
  js_upper_ascii c = c ∧ Ascii.eqb c "=" = false.
Proof.
  intros (d & Hin & Heq%Ascii.eqb_eq)%existsb_exists. subst d. cbn in Hin.
  by destruct_or! Hin; subst c.
Qed.

Lemma encode5_alphabet s :
  Forall (λ c, existsb (Ascii.eqb c) (list_of_string BASE32_ALPHABET) = true) (encode 5 BASE32_ALPHABET s).
Proof. apply encode_forall; [lia|by vm_compute]. Qed.

Lemma secret_round_trip s : secretFromBase32 (encodeBase32 s) = Some s.
Proof.
  unfold secretFromBase32, encodeBase32. rewrite list_of_string_upper, list_of_string_of_list.
  pose proof (encode5_alphabet s) as Ha.
  assert (map js_upper_ascii (encode 5 BASE32_ALPHABET s) = encode 5 BASE32_ALPHABET s) as ->.
  { clear -Ha. induction Ha as [|c l [Hc _]%base32_upper_id _ IH]; cbn; congruence. }
  assert (List.filter (λ c, negb (Ascii.eqb c "=")) (encode 5 BASE32_ALPHABET s) = encode 5 BASE32_ALPHABET s) as ->.
  { clear -Ha. induction Ha as [|c l [_ Hc]%base32_upper_id _ IH]; cbn; [done|]. rewrite Hc. cbn. by rewrite IH. }
  rewrite (base32_values_map _ (map bits_value (groups 5 (pad_zeros 5 (string_bits s))))).
  - cbn. f_equal. apply decode_values_encode. lia.
  - apply encode_values; [lia|by vm_compute].
Qed.

Section totp.
Context {P : Platform}.

(** [generateToptSecretBytes]. *)
Definition generateToptSecretBytes (i length : nat) : string := randomBytes i length.

(** ** HOTP *)
(** [counterBuf.writeBigUInt64BE(BigInt(counter))]; out of range it throws. *)
Fixpoint be_bytes (k : nat) (n : Z) : string :=
  match k with
  | O => ""
  | S k' => String (ascii_of_nat (Z.to_nat (n / 256 ^ Z.of_nat k' mod 256))) (be_bytes k' n)
  end.
Definition counter_buffer (counter : Z) : exn + string :=
  if (0 <=? counter) && (counter <? 2 ^ 64) then inr (be_bytes 8 counter)
  else inl (JsError "ERR_OUT_OF_RANGE").

(** [mac[i]!]; [undefined & mask] is 0. *)
Definition byte_at (i : Z) (s : string) : Z :=
  if i <? 0 then 0
  else match String.get (Z.to_nat i) s with Some c => Z.of_nat (nat_of_ascii c) | None => 0 end.

(** Dynamic truncation; every operand fits a non-negative 32-bit integer. *)
Definition truncate (mac : string) : Z :=
  let offset := Z.land (byte_at (Z.of_nat (String.length mac) - 1) mac) 15 in
  Z.lor (Z.lor (Z.lor (Z.shiftl (Z.land (byte_at offset mac) 127) 24)
                      (Z.shiftl (Z.land (byte_at (offset + 1) mac) 255) 16))
               (Z.shiftl (Z.land (byte_at (offset + 2) mac) 255) 8))
        (Z.land (byte_at (offset + 3) mac) 255).

(** [s.padStart(n, '0')]. *)
Definition padStart (n : nat) (s : string) : string :=
  string_of_list (replicate (n - String.length s) "0"%char) +:+ s.

Definition hotp_code (mac : string) (digits : nat) : string :=
  padStart digits (js_String (truncate mac mod 10 ^ Z.of_nat digits)).

(** [hotp]. *)
Definition hotp (secret : string) (counter : Z) (digits : nat) : exn + string :=
  match counter_buffer counter with
  | inr buf => inr (hotp_code (hmac_sha1 secret buf) digits)
  | inl e => inl e
  end.

(** ** TOTP *)
Definition DEFAULT_DIGITS : nat := 6.
Definition DEFAULT_STEP_SECONDS : Z := 30.
Definition DEFAULT_WINDOW_STEPS : nat := 1.

(** [generateTotp]. *)
Definition generateTotp (secret : string) (timeSeconds : Z) (digits : option nat) (step : option Z) : exn + string :=
  hotp secret (timeSeconds / nullish step DEFAULT_STEP_SECONDS) (nullish digits DEFAULT_DIGITS).

(** The loop of [verifyTotp] over the counters in the window. *)
Fixpoint any_candidate (code secret : string) (digits : nat) (counters : list Z) : exn + bool :=
  match counters with
  | [] => inr false
  | c :: cs =>
    match hotp secret c digits with
    | inl e => inl e
    | inr candidate => if String.eqb candidate code then inr true else any_candidate code secret digits cs
    end
  end.
Definition window_counters (counter : Z) (window : nat) : list Z :=
  map (λ k, counter - Z.of_nat window + Z.of_nat k) (seq 0 (2 * window + 1)).

(** [verifyTotp]. *)
Definition verifyTotp (code secret : string) (timeSeconds : Z) (digits : option nat) (step : option Z)
    (window : option nat) : exn + bool :=
  let counter := timeSeconds / nullish step DEFAULT_STEP_SECONDS in
  any_candidate code secret (nullish digits DEFAULT_DIGITS)
    (window_counters counter (nullish window DEFAULT_WINDOW_STEPS)).

(** ** Provisioning *)
(** [buildOtpauthUri]. *)
Definition buildOtpauthUri (issuer accountName secret : string) : string :=
  let label := encodeURIComponent (issuer +:+ ":" +:+ accountName) in
  let params := URLSearchParams_toString
    [("secret", encodeBase32 secret); ("issuer", issuer); ("algorithm", "SHA1");
     ("digits", js_String (Z.of_nat DEFAULT_DIGITS)); ("period", js_String DEFAULT_STEP_SECONDS)]%string in
  "otpauth://totp/" +:+ label +:+ "?" +:+ params.

Definition BACKUP_ALPHABET : string := "ABCDEFGHJKLMNPQRSTUVWXYZabcdefghijkmnpqrstuvwxyz23456789".

Definition backup_code (bytes : string) : string :=
  string_of_list (map (λ b, char_at BACKUP_ALPHABET (nat_of_ascii b mod String.length BACKUP_ALPHABET))
                      (list_of_string bytes)).

(** [generateBackupCodes]: one draw per code. *)
Fixpoint generateBackupCodes (count length : nat) : prog (world P) (list string) :=
  match count with
  | O => mret []
  | S n => c ← draw (λ i, backup_code (randomBytes i length)); cs ← generateBackupCodes n length; mret (c :: cs)
  end.

(** ** Lemmas *)
Lemma byte_at_bound i s : 0 <= byte_at i s < 256.
Proof.
  unfold byte_at. destruct (i <? 0); [lia|]. destruct (String.get _ s) as [c|]; [|lia].
  pose proof (nat_ascii_bounded c). lia.
Qed.

(** The value of the four bytes from [offset] on, big-endian. *)
Definition be_value (offset : Z) (mac : string) : Z :=
  ((byte_at offset mac * 256 + byte_at (offset + 1) mac) * 256 + byte_at (offset + 2) mac) * 256 +
  byte_at (offset + 3) mac.

Lemma truncate_spec mac :
  truncate mac = be_value (byte_at (Z.of_nat (String.length mac) - 1) mac mod 16) mac mod 2 ^ 31.
Proof.
  unfold truncate, be_value. change 15 with (Z.ones 4). rewrite Z.land_ones by lia. change (2 ^ 4) with 16.
  set (o := byte_at _ mac mod 16).
  pose proof (byte_at_bound o mac). pose proof (byte_at_bound (o + 1) mac).
  pose proof (byte_at_bound (o + 2) mac). pose proof (byte_at_bound (o + 3) mac).
  generalize dependent (byte_at o mac). generalize dependent (byte_at (o + 1) mac).
  generalize dependent (byte_at (o + 2) mac). generalize dependent (byte_at (o + 3) mac).
  intros b3 H3 b2 H2 b1 H1 b0 H0. change 255 with (Z.ones 8). change 127 with (Z.ones 7).
  rewrite !(land_low _ 8) by lia. rewrite Z.land_ones by lia. change (2 ^ 7) with 128.
  pose proof (Z.mod_pos_bound b0 128 ltac:(lia)) as Hm.
  assert (Z.lor (Z.lor (Z.lor ((b0 mod 128) ≪ 24) (b1 ≪ 16)) (b2 ≪ 8)) b3 =
    ((b0 mod 128 * 256 + b1) * 256 + b2) * 256 + b3) as ->.
  { rewrite !(Z.shiftl_mul_pow2 b1), !(Z.shiftl_mul_pow2 b2) by lia.
    rewrite (lor_shift (b0 mod 128)) by lia.
    replace (b0 mod 128 * 2 ^ 24 + b1 * 2 ^ 16) with ((b0 mod 128 * 256 + b1) ≪ 16)
      by (rewrite Z.shiftl_mul_pow2; lia).
    rewrite lor_shift by lia.
    replace ((b0 mod 128 * 256 + b1) * 2 ^ 16 + b2 * 2 ^ 8) with (((b0 mod 128 * 256 + b1) * 256 + b2) ≪ 8)
      by (rewrite Z.shiftl_mul_pow2; lia).
    rewrite lor_shift by lia. lia. }
  rewrite (Z.div_mod b0 128) at 2 by lia.
  replace ((((128 * (b0 / 128) + b0 mod 128) * 256 + b1) * 256 + b2) * 256 + b3)
    with (((b0 mod 128 * 256 + b1) * 256 + b2) * 256 + b3 + (b0 / 128) * 2 ^ 31) by lia.
  rewrite Z.mod_add by lia. symmetry. apply Z.mod_small. lia.
Qed.

Lemma hotp_ok secret c digits : 0 <= c < 2 ^ 64 → hotp secret c digits = inr (hotp_code (hmac_sha1 secret (be_bytes 8 c)) digits).
Proof.
  intros Hc. unfold hotp, counter_buffer. rewrite (proj2 (Z.leb_le _ _)), (proj2 (Z.ltb_lt _ _)) by lia. done.
Qed.

Lemma any_candidate_spec code secret digits cs :
  (∀ c, In c cs → 0 <= c < 2 ^ 64) →
  ∃ b, any_candidate code secret digits cs = inr b ∧
    (b = true ↔ ∃ c, In c cs ∧ hotp secret c digits = inr code).
Proof.
  induction cs as [|c cs IH]; intros Hcs; cbn [any_candidate].
  - exists false. split; [done|]. split; [done|]. by intros (c & [] & _).
  - destruct IH as (b & Hb & Hiff); [intros x Hx; apply Hcs; by right|].
    pose proof (hotp_ok secret c digits (Hcs c (or_introl eq_refl))) as Hh. rewrite Hh.
    destruct (String.eqb_spec (hotp_code (hmac_sha1 secret (be_bytes 8 c)) digits) code) as [He|He].
    + exists true. split; [done|]. split; [|done]. intros _. exists c. split; [by left|]. by rewrite Hh, He.
    + exists b. split; [done|]. rewrite Hiff. split.
      * intros (x & Hx & Hxc). exists x. split; [by right|done].
      * intros (x & [<-|Hx] & Hxc); [|by exists x]. rewrite Hh in Hxc. congruence.
Qed.

Lemma In_window counter window c :
  In c (window_counters counter window) ↔ counter - Z.of_nat window <= c <= counter + Z.of_nat window.
Proof.
  unfold window_counters. rewrite in_map_iff. split.
  - intros (k & <- & Hk%in_seq). lia.
  - intros Hc. exists (Z.to_nat (c - (counter - Z.of_nat window))). split; [lia|]. apply in_seq. lia.
Qed.

Lemma verifyTotp_spec code secret t :
  30 <= t < 2 ^ 63 →
  ∃ b, verifyTotp code secret t None None None = inr b ∧
    (b = true ↔ ∃ c, t / 30 - 1 <= c <= t / 30 + 1 ∧ hotp secret c 6 = inr code).
Proof.
  intros Ht. unfold verifyTotp. cbn [nullish]. unfold DEFAULT_STEP_SECONDS.
  assert (1 <= t / 30 < 2 ^ 63) by (split; [apply Z.div_le_lower_bound; lia|apply Z.div_lt_upper_bound; lia]).
  destruct (any_candidate_spec code secret DEFAULT_DIGITS (window_counters (t / 30) DEFAULT_WINDOW_STEPS))
    as (b & Hb & Hiff); [intros c Hc%In_window; unfold DEFAULT_WINDOW_STEPS in Hc; lia|].
  exists b. split; [done|]. rewrite Hiff. split; intros (c & Hc & Hh); exists c; (split; [|exact Hh]).
  - apply In_window in Hc. unfold DEFAULT_WINDOW_STEPS in Hc. lia.
  - apply In_window. unfold DEFAULT_WINDOW_STEPS. lia.
Qed.
End totp.

Lemma upper_lower s : js_upper (js_lower s) = js_upper s.
Proof.
  induction s as [|c s IH]; cbn; [done|]. rewrite IH. f_equal.
  by destruct c as [[] [] [] [] [] [] [] []].
Qed.

(** ** What the library promises *)
Section properties.
Context {P : Platform}.

(** a secret provisioned in base32 decodes to the same bytes, in upper or in
    lower case. *)
Theorem base32_round_trip (secret : string) :
  secretFromBase32 (encodeBase32 secret) = Some secret ∧
  secretFromBase32 (js_lower (encodeBase32 secret)) = Some secret.
Proof.
  split; [apply secret_round_trip|]. rewrite <- (secret_round_trip secret). unfold secretFromBase32.
  by rewrite upper_lower.
Qed.

(** the bit operations of [hotp] compute the dynamic truncation of RFC 4226:
    the low 31 bits of the four big-endian bytes found at the offset given by the
    last nibble, whatever the MAC. *)
Theorem truncate_is_rfc4226 (mac : string) :
  truncate mac = be_value (byte_at (Z.of_nat (String.length mac) - 1) mac mod 16) mac mod 2 ^ 31 ∧
  0 <= truncate mac < 2 ^ 31.
Proof.
  rewrite truncate_spec. split; [done|]. apply Z.mod_pos_bound. lia.
Qed.

(** [verifyTotp] returns at every time an epoch can give and accepts exactly
    the codes of the current, the previous and the next time step; in particular
    a code generated at most thirty seconds away from its verification. *)
Theorem verifyTotp_window (code secret : string) (t : Z) :
  30 <= t < 2 ^ 63 →
  ∃ b, verifyTotp code secret t None None None = inr b ∧
    (b = true ↔ ∃ c, t / 30 - 1 <= c <= t / 30 + 1 ∧ hotp secret c 6 = inr code) ∧
    (∀ u, Z.abs (u - t) <= 30 → generateTotp secret u None None = inr code → b = true).
Proof.
  intros Ht. destruct (verifyTotp_spec code secret t Ht) as (b & Hb & Hiff). exists b.
  split; [done|]. split; [done|]. intros u Hu Hg. apply Hiff. exists (u / 30). split; [|exact Hg].
  assert ((t - 30) / 30 <= u / 30 <= (t + 30) / 30) as Hd by (split; apply Z.div_le_mono; lia).
  replace (t - 30) with (t + (-1) * 30) in Hd by lia. replace (t + 30) with (t + 1 * 30) in Hd by lia.
  rewrite !Z.div_add in Hd by lia. lia.
Qed.
End properties.
