(* ===== verification/Encryption.v ===== *)
(** * Authenticated encryption

    [packages/crypto/src/encryption.ts]: AES-256-GCM and the data-key envelope.
    The cipher is the platform's; [AeadLaws] states what the code relies on. *)

From S2P Require Export World.

Section encryption.
Context {P : Platform}.

Record EncryptionResult := mkEncryptionResult { er_ciphertext : string; er_iv : string; er_authTag : string }.
Record EnvelopeEncryptionResult := mkEnvelopeEncryptionResult {
  ee_encrypted : EncryptionResult; ee_encryptedDataKey : string; ee_dataKeyIv : string }.

Definition INVALID_KEY_LENGTH : exn := JsError "Invalid key length".
Definition UNAUTHENTICATED : exn := JsError "Unsupported state or unable to authenticate data".

(** [Buffer.subarray]. *)
Definition subarray (s : string) (from to : nat) : string := String.substring from (to - from) s.
Definition subarray_from (s : string) (from : nat) : string := subarray s from (String.length s).

(** [encryptAes256Gcm] with a drawn IV; [createCipheriv] checks the key. *)
Definition encryptAes256Gcm (plaintext key associatedData : string) : prog (world P) EncryptionResult :=
  iv ← draw (λ i, randomBytes i 12);
  throw_if (negb (String.length key =? 32)%nat) INVALID_KEY_LENGTH ;;
  let sealed := aes_256_gcm_seal key iv associatedData plaintext in
  mret (mkEncryptionResult sealed.1 iv sealed.2).

(** [decryptAes256Gcm]. *)
Definition decryptAes256Gcm (encrypted : EncryptionResult) (key associatedData : string) : exn + string :=
  if negb (String.length key =? 32)%nat then inl INVALID_KEY_LENGTH
  else match aes_256_gcm_open key (er_iv encrypted) associatedData (er_ciphertext encrypted)
               (er_authTag encrypted) with
       | Some p => inr p
       | None => inl UNAUTHENTICATED
       end.

(** [envelopeEncrypt]. *)
Definition envelopeEncrypt (plaintext masterKey associatedData : string) :
    prog (world P) EnvelopeEncryptionResult :=
  dataKey ← draw (λ i, randomBytes i 32);
  encrypted ← encryptAes256Gcm plaintext dataKey associatedData;
  dekIv ← draw (λ i, randomBytes i 12);
  throw_if (negb (String.length masterKey =? 32)%nat) INVALID_KEY_LENGTH ;;
  let sealed := aes_256_gcm_seal masterKey dekIv "" dataKey in
  mret (mkEnvelopeEncryptionResult encrypted (dekIv +:+ sealed.2 +:+ sealed.1) dekIv).

(** [envelopeDecrypt]. *)
Definition envelopeDecrypt (encrypted : EnvelopeEncryptionResult) (masterKey associatedData : string) :
    exn + string :=
  let edk := ee_encryptedDataKey encrypted in
  let dekIv := subarray edk 0 12 in
  let dekAuthTag := subarray edk 12 28 in
  let dekCiphertext := subarray_from edk 28 in
  if negb (String.length masterKey =? 32)%nat then inl INVALID_KEY_LENGTH
  else match aes_256_gcm_open masterKey dekIv "" dekCiphertext dekAuthTag with
       | Some dataKey => decryptAes256Gcm (ee_encrypted encrypted) dataKey associatedData
       | None => inl UNAUTHENTICATED
       end.

(** ** What the cipher guarantees

    Random buffers have the requested size; what is sealed opens under the same
    key, IV and associated data; the ciphertext is as long as the plaintext and
    the tag has sixteen bytes; and what opens was sealed. *)
Class AeadLaws := {
  randomBytes_length : ∀ i n, String.length (randomBytes i n) = n;
  aes_round_trip : ∀ key iv aad p,
    let '(c, t) := aes_256_gcm_seal key iv aad p in
    aes_256_gcm_open key iv aad c t = Some p ∧ String.length c = String.length p ∧ String.length t = 16%nat;
  aes_open_sound : ∀ key iv aad c t p,
    aes_256_gcm_open key iv aad c t = Some p → aes_256_gcm_seal key iv aad p = (c, t);
}.

(** ** Lemmas on buffers *)
Lemma substring_app_l a b n : String.length a = n → String.substring 0 n (a +:+ b) = a.
Proof.
  intros <-. induction a as [|c a IH]; [by destruct b|].
  change (String c (String.substring 0 (String.length a) (a +:+ b)) = String c a). by rewrite IH.
Qed.

Lemma substring_app_r a b n m :
  String.length a = n → String.substring n m (a +:+ b) = String.substring 0 m b.
Proof. intros <-. induction a as [|c a IH]; cbn; [done|]. apply IH. Qed.

Lemma substring_all s : String.substring 0 (String.length s) s = s.
Proof. rewrite <- (str_app_nil s) at 2. by apply substring_app_l. Qed.

Lemma subarray_head a b n : String.length a = n → subarray (a +:+ b) 0 n = a.
Proof. intros Ha. unfold subarray. rewrite Nat.sub_0_r. by apply substring_app_l. Qed.

Lemma subarray_skip a b n from to :
  String.length a = n → (n ≤ from)%nat → subarray (a +:+ b) from to = subarray b (from - n) (to - n).
Proof.
  intros <- Hle. unfold subarray.
  replace (to - String.length a - (from - String.length a))%nat with (to - from)%nat by lia.
  replace from with (String.length a + (from - String.length a))%nat at 1 by lia.
  generalize (from - String.length a)%nat (to - from)%nat. intros d k. clear.
  induction a as [|c a IH]; [done|]. exact IH.
Qed.

Lemma subarray_whole s n : String.length s = n → subarray s 0 n = s.
Proof. intros <-. unfold subarray. rewrite Nat.sub_0_r. apply substring_all. Qed.

(** ** The envelope opens to what was sealed *)
Section laws.
Context `{!AeadLaws}.

Lemma seal_lengths key iv aad p :
  String.length (aes_256_gcm_seal key iv aad p).1 = String.length p ∧
  String.length (aes_256_gcm_seal key iv aad p).2 = 16%nat ∧
  aes_256_gcm_open key iv aad (aes_256_gcm_seal key iv aad p).1 (aes_256_gcm_seal key iv aad p).2 = Some p.
Proof.
  pose proof (aes_round_trip key iv aad p) as Hrt. revert Hrt.
  destruct (aes_256_gcm_seal key iv aad p) as [c t]. by intros (Ho & Hc & Ht).
Qed.

Lemma run_envelopeEncrypt plaintext masterKey aad w :
  String.length masterKey = 32%nat →
  ∃ e, run (envelopeEncrypt plaintext masterKey aad) w = (w <| draws ::= Nat.add 3 |>, inr e) ∧
    envelopeDecrypt e masterKey aad = inr plaintext ∧
    String.length (er_iv (ee_encrypted e)) = 12%nat ∧ String.length (er_authTag (ee_encrypted e)) = 16%nat ∧
    String.length (er_ciphertext (ee_encrypted e)) = String.length plaintext ∧
    String.length (ee_encryptedDataKey e) = 60%nat.
Proof.
  intros Hk. unfold envelopeEncrypt, encryptAes256Gcm. do 3 run_step.
  rewrite (randomBytes_length (draws w) 32). cbn [Nat.eqb negb]. do 3 run_step. rewrite Hk. cbn [Nat.eqb negb].
  rewrite run_ret. cbn [draws set_field].
  set (dk := randomBytes (draws w) 32). set (iv := randomBytes (S (draws w)) 12).
  set (div := randomBytes (S (S (draws w))) 12).
  destruct (seal_lengths dk iv aad plaintext) as (Hc & Ht & Ho).
  destruct (seal_lengths masterKey div "" dk) as (Hc' & Ht' & Ho').
  eexists. split; [by destruct w|]. unfold envelopeDecrypt. cbn [ee_encryptedDataKey ee_encrypted er_iv er_authTag er_ciphertext].
  assert (String.length div = 12%nat) as Hdiv by apply randomBytes_length.
  assert (String.length dk = 32%nat) as Hdk by apply randomBytes_length. rewrite Hdk in Hc'.
  set (c := (aes_256_gcm_seal masterKey div "" dk).1) in *. set (t := (aes_256_gcm_seal masterKey div "" dk).2) in *.
  rewrite (subarray_head div _ 12 Hdiv), (subarray_skip div _ 12) by (done || lia). cbn [Nat.sub].
  rewrite (subarray_head t _ 16 Ht'). unfold subarray_from.
  rewrite !str_app_length, Hdiv, Ht', Hc', (subarray_skip div _ 12) by (done || lia). cbn [Nat.sub Nat.add].
  rewrite (subarray_skip t _ 16) by (done || lia). cbn [Nat.sub]. rewrite (subarray_whole c 32 Hc').
  rewrite Hk. cbn [Nat.eqb negb]. rewrite Ho'. unfold decryptAes256Gcm. cbn [er_iv er_authTag er_ciphertext].
  rewrite Hdk. cbn [Nat.eqb negb]. rewrite Ho. repeat split; [apply randomBytes_length|done|done].
Qed.
End laws.
End encryption.
Arguments AeadLaws : clear implicits.
Arguments AeadLaws P : rename.
