(* ===== verification/Mfa.v ===== *)
(** * Multi-factor authentication

    [packages/core/src/services/mfa.service.ts]: encrypted TOTP secrets, backup
    codes, and the per-user lockout after failed challenges. *)

From S2P Require Export AuditTrail.
From S2P Require Export Totp.
From S2P Require Export Encryption.

Section mfa.
Context {P : Platform}.

(** [encryptionKey?: string | Buffer]. *)
Inductive KeySource := KeyBuffer (bytes : string) | KeyBase64 (text : string).
Definition key_bytes (k : KeySource) : string :=
  match k with KeyBuffer b => b | KeyBase64 t => from_base64 t end.

Record MfaService := mkMfaService {
  mf_tenantId : string;
  mf_applicationId : string;
  mf_audit : option AuditService;
  mf_encryptionKey : option KeySource;
}.

Record MfaSetupResult := mkMfaSetupResult {
  ms_secret : string; ms_otpauthUri : string; ms_backupCodes : list string }.

Definition MFA_MAX_ATTEMPTS : Z := 5.
Definition MFA_LOCK_MS : Z := 15 * 60000.
Definition MFA_ENVELOPE_VERSION : string := "v3:".
Definition MFA_PREVIOUS_ENVELOPE_VERSION : string := "v2:".
Definition MFA_ENVELOPE_AAD : string := "pezhwan:mfa-secret:v1".

(** The constructor. *)
Definition new_mfa (tenantId applicationId : string) (audit : option AuditService)
    (encryptionKey : option KeySource) : exn + MfaService :=
  match encryptionKey with
  | Some k =>
    if negb (String.length (key_bytes k) =? 32)%nat
    then inl (ValidationError "MFA encryption key must be 32 bytes" "INVALID_MFA_ENCRYPTION_KEY")
    else inr (mkMfaService tenantId applicationId audit encryptionKey)
  | None => inr (mkMfaService tenantId applicationId audit None)
  end.

(** [masterKey]. *)
Definition masterKey (m : MfaService) : exn + string :=
  match mf_encryptionKey m with
  | None | Some (KeyBase64 "") =>
    inl (ValidationError "MFA encryption is not configured" "MFA_ENCRYPTION_NOT_CONFIGURED")
  | Some k =>
    if negb (String.length (key_bytes k) =? 32)%nat
    then inl (ValidationError "Invalid MFA encryption key" "INVALID_MFA_ENCRYPTION_KEY")
    else inr (key_bytes k)
  end.

(** [wrapEnvelope]. *)
Definition envelope_payload (sealed : EnvelopeEncryptionResult) : string :=
  er_iv (ee_encrypted sealed) +:+ er_authTag (ee_encrypted sealed) +:+
  er_ciphertext (ee_encrypted sealed) +:+ ee_encryptedDataKey sealed.
Definition wrapEnvelope (m : MfaService) (secret : string) : prog (world P) string :=
  master ← from_result (masterKey m);
  sealed ← envelopeEncrypt secret master MFA_ENVELOPE_AAD;
  mret (MFA_ENVELOPE_VERSION +:+ to_base64 (envelope_payload sealed)).

Definition INVALID_MFA_SECRET : exn := ValidationError "Invalid MFA secret" "INVALID_MFA_SECRET".

(** [unwrap], on both layouts. *)
Definition unwrap_v3 (master rest : string) : exn + string :=
  let payload := from_base64 rest in
  let n := String.length payload in
  if (n <? 88)%nat then inl INVALID_MFA_SECRET
  else
    let encryptedDataKey := subarray_from payload (n - 60) in
    envelopeDecrypt
      (mkEnvelopeEncryptionResult
         (mkEncryptionResult (subarray payload 28 (n - 60)) (subarray payload 0 12) (subarray payload 12 28))
         encryptedDataKey (subarray encryptedDataKey 0 12))
      master MFA_ENVELOPE_AAD.
Definition unwrap_legacy (master raw : string) : exn + string :=
  let payload := from_base64 raw in
  if (String.length payload <? 28)%nat then inl INVALID_MFA_SECRET
  else decryptAes256Gcm
         (mkEncryptionResult (subarray_from payload 28) (subarray payload 0 12) (subarray payload 12 28))
         master "".
Definition unwrap (m : MfaService) (value : string) : exn + string :=
  match masterKey m with
  | inl e => inl e
  | inr master =>
    match strip MFA_ENVELOPE_VERSION value with
    | Some rest => unwrap_v3 master rest
    | None => unwrap_legacy master (nullish (strip MFA_PREVIOUS_ENVELOPE_VERSION value) value)
    end
  end.

(** [encryptSecret], [decryptSecret]. *)
Definition encryptSecret := wrapEnvelope.
Definition decryptSecret := unwrap.

(** [hashBackupCode], [matchHashes]. *)
Definition hashBackupCode (code : string) : string := to_base64 (createHash sha256 code).
Definition matchHashes (aHash code : string) : bool := String.eqb (from_base64 aHash) (createHash sha256 code).

Definition by_id (userId : string) (d : UserDoc) : bool := bool_decide (u_id d = userId).
Definition owned_codes (userId tenantId : string) (d : BackupCodeDoc) : bool :=
  bool_decide (b_userId d = userId) && bool_decide (b_tenantId d = tenantId).
Definition unused_codes (userId : string) (d : BackupCodeDoc) : bool :=
  bool_decide (b_userId d = userId) && bool_decide (b_usedAt d = None).

Definition mfa_event (m : MfaService) (eventType userId : string) : AuditEntryInput :=
  mkAuditEntryInput eventType None (Some (mf_tenantId m)) (Some (mf_applicationId m)) (Some userId)
    None None None None.

Definition MFA_ALREADY_ENABLED : exn := ValidationError "MFA is already enabled" "MFA_ALREADY_ENABLED".

(** [beginSetup]. *)
Definition store_backup_code (m : MfaService) (userId code : string) : prog (world P) () :=
  id ← draw newObjectId;
  create (mkBackupCodeDoc id userId (mf_tenantId m) (hashBackupCode code) None).
Definition set_pending (wrapped : string) (d : UserDoc) : UserDoc :=
  d <| u_mfaSecret := Some wrapped |> <| u_mfaSecretVerifiedAt := None |>.
Definition beginSetup (m : MfaService) (userId : string) : prog (world P) MfaSetupResult :=
  user ← find_one (by_id userId);
  match user with
  | None => Throw (ValidationError "User not found" "USER_NOT_FOUND")
  | Some u =>
    throw_if (u_mfaEnabled u) MFA_ALREADY_ENABLED ;;
    secret ← draw (λ i, generateToptSecretBytes i 32);
    let otpauthUri := buildOtpauthUri (mf_tenantId m) (nullish (u_email u) userId) secret in
    wrapped ← wrapEnvelope m secret;
    update_one (by_id userId) (set_pending wrapped) ;;
    backupCodes ← generateBackupCodes 10 10;
    delete_many (owned_codes userId (mf_tenantId m)) ;;
    for_each backupCodes (store_backup_code m userId) ;;
    audit_log (mf_audit m) (mfa_event m "BACKUP_CODES_GENERATED" userId) ;;
    mret (mkMfaSetupResult (encodeBase32 secret) otpauthUri backupCodes)
  end.

(** [verify], [computeFor]. *)
Definition verify_totp (secret code : string) : prog (world P) bool :=
  t ← now;
  from_result (verifyTotp code secret (t / 1000) None None None).
Definition computeFor (secret : string) : prog (world P) string :=
  t ← now;
  from_result (generateTotp secret (t / 1000) None None).

(** [enable]. *)
Definition set_enabled (t : Z) (d : UserDoc) : UserDoc :=
  d <| u_mfaEnabled := true |> <| u_mfaSecretVerifiedAt := Some t |>.
Definition MFA_SETUP_REQUIRED : exn := ValidationError "No pending MFA setup" "MFA_SETUP_REQUIRED".
Definition enable (m : MfaService) (userId code : string) : prog (world P) () :=
  user ← find_one (by_id userId);
  match user with
  | None => Throw MFA_SETUP_REQUIRED
  | Some u =>
    throw_if (negb (truthy (u_mfaSecret u))) MFA_SETUP_REQUIRED ;;
    throw_if (u_mfaEnabled u) MFA_ALREADY_ENABLED ;;
    secret ← from_result (unwrap m (nullish (u_mfaSecret u) ""));
    ok ← verify_totp secret code;
    throw_if (negb ok) (AuthenticationError "Invalid authenticator code" "INVALID_TOTP") ;;
    t ← now;
    update_one (by_id userId) (set_enabled t) ;;
    audit_log (mf_audit m) (mfa_event m "MFA_ENABLED" userId)
  end.

(** [touchVerified]. *)
Definition touchVerified (userId : string) : prog (world P) () :=
  t ← now;
  update_one (by_id userId) (λ d, d <| u_mfaSecretVerifiedAt := Some t |>).

Definition clear_failures (d : UserDoc) : UserDoc :=
  d <| u_mfaFailedAttempts := 0 |> <| u_mfaLockUntil := None |>.

(** [mfaLocked]. *)
Definition mfaLocked (userId : string) : prog (world P) bool :=
  user ← find_one (by_id userId);
  match user with
  | None => mret false
  | Some u =>
    let until := nullish (u_mfaLockUntil u) 0 in
    if 0 <? until then
      t ← now;
      if t <? until then mret true
      else update_one (by_id userId) clear_failures ;; mret false
    else mret false
  end.

(** [recordMfaFailure]. *)
Definition count_failure (d : UserDoc) : UserDoc := d <| u_mfaFailedAttempts ::= Z.add 1 |>.
Definition set_lock (until : Z) (d : UserDoc) : UserDoc := d <| u_mfaLockUntil := Some until |>.
Definition recordMfaFailure (userId : string) : prog (world P) () :=
  updated ← find_one_and_update (by_id userId) count_failure;
  match updated with
  | Some u =>
    if MFA_MAX_ATTEMPTS <=? u_mfaFailedAttempts u then
      t ← now;
      update_one (by_id userId) (set_lock (t + MFA_LOCK_MS))
    else mret tt
  | None => mret tt
  end.

(** [resetMfaFailures]. *)
Definition resetMfaFailures (userId : string) : prog (world P) () :=
  update_one (λ d, by_id userId d && (0 <? u_mfaFailedAttempts d)) clear_failures.

(** [tryBackupCode]. *)
Definition use_code (t : Z) (d : BackupCodeDoc) : BackupCodeDoc := d <| b_usedAt := Some t |>.
Definition tryBackupCode (m : MfaService) (userId code : string) : prog (world P) bool :=
  hashes ← find_all (unused_codes userId);
  used ← for_return hashes (λ row,
    if matchHashes (b_codeHash row) code then
      t ← now;
      update_one (λ d, bool_decide (b_id d = b_id row)) (use_code t) ;;
      audit_log (mf_audit m) (mfa_event m "BACKUP_CODE_USED" userId) ;;
      mret (Some true)
    else mret None);
  mret (nullish used false).

(** [verifyMfa]. *)
Definition verifyMfa (m : MfaService) (userId code : string) : prog (world P) bool :=
  locked ← mfaLocked userId;
  if (locked : bool) then mret false
  else
    user ← find_one (by_id userId);
    match user with
    | None => mret false
    | Some u =>
      if negb (u_mfaEnabled u) || negb (truthy (u_mfaSecret u)) then mret false
      else
        secret ← from_result (unwrap m (nullish (u_mfaSecret u) ""));
        ok ← verify_totp secret code;
        if (ok : bool) then touchVerified userId ;; resetMfaFailures userId ;; mret true
        else
          used ← tryBackupCode m userId code;
          if (used : bool) then touchVerified userId ;; resetMfaFailures userId ;; mret true
          else recordMfaFailure userId ;; mret false
    end.

(** [remainingBackupCodes], [isEnabled]. *)
Definition remainingBackupCodes (userId : string) : prog (world P) Z := count_documents (unused_codes userId).
Definition isEnabled (userId : string) : prog (world P) bool :=
  user ← find_one (by_id userId);
  mret (match user with Some u => u_mfaEnabled u | None => false end).

(** [disable]. *)
Definition set_disabled (d : UserDoc) : UserDoc :=
  d <| u_mfaEnabled := false |> <| u_mfaSecret := None |> <| u_mfaSecretVerifiedAt := None |>.
Definition INVALID_TOTP : exn := AuthenticationError "Invalid code" "INVALID_TOTP".
Definition disable (m : MfaService) (userId code : string) : prog (world P) () :=
  user ← find_one (by_id userId);
  match user with
  | None => Throw (ValidationError "MFA is not enabled" "MFA_NOT_ENABLED")
  | Some u =>
    throw_if (negb (u_mfaEnabled u)) (ValidationError "MFA is not enabled" "MFA_NOT_ENABLED") ;;
    locked ← mfaLocked userId;
    throw_if locked INVALID_TOTP ;;
    ok ← (if truthy (u_mfaSecret u)
          then secret ← from_result (unwrap m (nullish (u_mfaSecret u) "")); verify_totp secret code
          else mret false);
    ok ← (if (ok : bool) then mret true else tryBackupCode m userId code);
    (if (ok : bool) then mret tt else recordMfaFailure userId ;; Throw INVALID_TOTP) ;;
    resetMfaFailures userId ;;
    update_one (by_id userId) set_disabled ;;
    delete_many (λ d, bool_decide (b_userId d = userId)) ;;
    audit_log (mf_audit m) (mfa_event m "MFA_DISABLED" userId)
  end.
End mfa.

(** ** The envelope *)
Section envelope.
Context {P : Platform} `{!AeadLaws P} (m : MfaService).

Lemma masterKey_length k : masterKey m = inr k → String.length k = 32%nat.
Proof.
  unfold masterKey. destruct (mf_encryptionKey m) as [[b|t]|]; [| |done].
  - destruct (Nat.eqb_spec (String.length (key_bytes (KeyBuffer b))) 32) as [He|]; cbn [negb]; [|done].
    by intros [= <-].
  - destruct t as [|c t]; [done|].
    destruct (Nat.eqb_spec (String.length (key_bytes (KeyBase64 (String c t)))) 32) as [He|]; cbn [negb]; [|done].
    by intros [= <-].
Qed.

Lemma unwrap_payload k e :
  masterKey m = inr k →
  String.length (er_iv (ee_encrypted e)) = 12%nat → String.length (er_authTag (ee_encrypted e)) = 16%nat →
  String.length (ee_encryptedDataKey e) = 60%nat →
  unwrap m (MFA_ENVELOPE_VERSION +:+ to_base64 (envelope_payload e)) = envelopeDecrypt e k MFA_ENVELOPE_AAD.
Proof.
  intros Hk Hiv Htag Hdek. unfold unwrap. rewrite Hk.
  change (strip MFA_ENVELOPE_VERSION (MFA_ENVELOPE_VERSION +:+ to_base64 (envelope_payload e)))
    with (Some (to_base64 (envelope_payload e))). cbv iota beta. unfold unwrap_v3. rewrite from_to_base64.
  destruct e as [[c iv tag] dek div]. unfold envelope_payload. cbn [ee_encrypted er_iv er_authTag er_ciphertext ee_encryptedDataKey] in *.
  rewrite !str_app_length, Hiv, Htag, Hdek.
  replace (12 + (16 + (String.length c + 60)) <? 88)%nat with false by (symmetry; apply Nat.ltb_ge; lia).
  replace (12 + (16 + (String.length c + 60)) - 60)%nat with (28 + String.length c)%nat by lia.
  rewrite (subarray_head iv _ 12 Hiv), (subarray_skip iv _ 12 12 28) by (done || lia).
  cbn [Nat.sub]. rewrite (subarray_head tag _ 16 Htag).
  rewrite (subarray_skip iv _ 12 28) by (done || lia). rewrite (subarray_skip tag _ 16) by (done || lia).
  replace (28 - 12 - 16)%nat with 0%nat by lia. replace (28 + String.length c - 12 - 16)%nat with (String.length c) by lia.
  rewrite (subarray_head c _ (String.length c) eq_refl).
  unfold subarray_from. rewrite !str_app_length, Hiv, Htag, Hdek.
  rewrite (subarray_skip iv _ 12) by (done || lia). rewrite (subarray_skip tag _ 16) by (done || lia).
  rewrite (subarray_skip c _ (String.length c)) by (done || lia).
  replace (28 + String.length c - 12 - 16 - String.length c)%nat with 0%nat by lia.
  replace (12 + (16 + (String.length c + 60)) - 12 - 16 - String.length c)%nat with 60%nat by lia.
  rewrite (subarray_whole dek 60 Hdek). done.
Qed.

Lemma run_wrapEnvelope secret k w :
  masterKey m = inr k →
  ∃ v, run (wrapEnvelope m secret) w = (w <| draws ::= Nat.add 3 |>, inr v) ∧
    unwrap m v = inr secret ∧ truthy (Some v) = true.
Proof.
  intros Hk. unfold wrapEnvelope. rewrite Hk. cbn [from_result]. rewrite run_bind. cbn [run].
  destruct (run_envelopeEncrypt secret k MFA_ENVELOPE_AAD w (masterKey_length k Hk))
    as (e & Hrun & Hdec & Hiv & Htag & _ & Hdek).
  rewrite run_bind, Hrun, run_ret. eexists. split; [done|]. split; [|done].
  by rewrite (unwrap_payload k e Hk Hiv Htag Hdek).
Qed.
End envelope.

(** ** Challenges *)
Section challenges.
Context {P : Platform} (m : MfaService) (userId : string).

Definition the_user (w : world P) : option UserDoc := List.find (by_id userId) (docs (users w)).

Lemma run_mfaLocked_locked u until w :
  healthy w → the_user w = Some u → u_mfaLockUntil u = Some until → 0 <= clock w < until →
  run (mfaLocked userId) w = (w, inr true).
Proof.
  intros Hh Hu Hl Ht. unfold mfaLocked. run_step. cbn [tbl users_table]. fold (the_user w). rewrite Hu, Hl.
  cbn [nullish]. rewrite (proj2 (Z.ltb_lt 0 until)) by lia. run_step.
  by rewrite (proj2 (Z.ltb_lt _ _)) by lia.
Qed.

Lemma run_mfaLocked_free u w :
  healthy w → the_user w = Some u → u_mfaLockUntil u = None → run (mfaLocked userId) w = (w, inr false).
Proof.
  intros Hh Hu Hl. unfold mfaLocked. run_step. cbn [tbl users_table]. fold (the_user w). by rewrite Hu, Hl.
Qed.

(** The backup code a presented code redeems. *)
Definition redeems (code : string) (d : BackupCodeDoc) : bool :=
  unused_codes userId d && matchHashes (b_codeHash d) code.

Lemma find_filter_and {D} (f g : D → bool) l :
  List.find g (List.filter f l) = List.find (λ d, f d && g d) l.
Proof.
  induction l as [|d l IH]; cbn; [done|]. destruct (f d); cbn; [|done]. by destruct (g d).
Qed.

Lemma audit_only_mfa w w' : audit_only w w' → users w' = users w ∧ backupCodes w' = backupCodes w.
Proof. intros (Hr & _). unfold rest in Hr. by injection Hr. Qed.

Lemma run_tryBackupCode code w :
  healthy w →
  ∃ w', run (tryBackupCode m userId code) w =
      (w', inr (match List.find (redeems code) (docs (backupCodes w)) with Some _ => true | None => false end)) ∧
    healthy w' ∧ users w' = users w ∧ clock w <= clock w' ∧
    (List.find (redeems code) (docs (backupCodes w)) = None → w' = w) ∧
    docs (backupCodes w') =
      match List.find (redeems code) (docs (backupCodes w)) with
      | Some r => alter_first (λ d, bool_decide (b_id d = b_id r)) (use_code (clock w)) (docs (backupCodes w))
      | None => docs (backupCodes w)
      end.
Proof.
  intros Hh. unfold tryBackupCode. run_step. cbn [tbl backupCodes_table]. rewrite run_bind.
  unfold redeems. rewrite <- find_filter_and.
  induction (List.filter (unused_codes userId) (docs (backupCodes w))) as [|r l IH]; cbn [for_return List.find].
  - exists w. repeat split; [done|lia].
  - destruct (matchHashes (b_codeHash r) code); [|rewrite run_bind, run_ret; exact IH].
    clear IH. rewrite run_bind. do 2 run_step. cbn [upd_tbl backupCodes_table clock].
    set (w1 := set_field backupCodes _ w).
    rewrite run_bind. destruct (run_audit_log (mf_audit m) (mfa_event m "BACKUP_CODE_USED" userId) w1)
      as (w' & -> & Ha). rewrite run_ret, run_ret. destruct (audit_only_mfa _ _ Ha) as [Hus Hbc].
    destruct Ha as (_ & Hc & _ & Hhe). exists w'. cbn. split; [done|]. split; [by apply Hhe|].
    rewrite Hus, Hbc. split; [done|]. split; [exact Hc|]. split; [done|]. cbn. by rewrite m_update_one_law.
Qed.

(** A user under challenge: enabled, with a readable secret, not locked. *)
Record challenged (secret : string) (k : Z) (w : world P) : Prop := {
  cg_healthy : healthy w;
  cg_user : ∃ u, the_user w = Some u ∧ u_mfaEnabled u = true ∧ truthy (u_mfaSecret u) = true ∧
    unwrap m (nullish (u_mfaSecret u) "") = inr secret ∧ u_mfaLockUntil u = None ∧ u_mfaFailedAttempts u = k;
}.

(** A code that is neither a current TOTP nor an unused backup code. *)
Definition wrong_code (secret : string) (w : world P) (code : string) : Prop :=
  verifyTotp code secret (clock w / 1000) None None None = inr false ∧
  List.find (redeems code) (docs (backupCodes w)) = None.

(** Up to the decision of a challenge. *)
Lemma run_verifyMfa secret k code w b :
  challenged secret k w → verifyTotp code secret (clock w / 1000) None None None = inr b →
  run (verifyMfa m userId code) w =
  run (if b then touchVerified userId ;; resetMfaFailures userId ;; mret true
       else used ← tryBackupCode m userId code;
            if (used : bool) then touchVerified userId ;; resetMfaFailures userId ;; mret true
            else recordMfaFailure userId ;; mret false) w.
Proof.
  intros [Hh (u & Hu & He & Hs & Hun & Hl & _)] Hv. unfold verifyMfa.
  rewrite run_bind, (run_mfaLocked_free u w Hh Hu Hl). run_step. cbn [tbl users_table]. fold (the_user w).
  rewrite Hu, He, Hs. cbn [negb orb]. rewrite Hun. run_step. rewrite run_bind. unfold verify_totp. run_step. rewrite Hv. run_step. by destruct b.
Qed.

Lemma by_id_update (u : UserDoc → UserDoc) w d :
  (∀ d, u_id (u d) = u_id d) → the_user w = Some d →
  List.find (by_id userId) (docs (m_update_one (by_id userId) u (users w))) = Some (u d).
Proof.
  intros Hu Hd. rewrite m_update_one_law. apply find_alter_first; [done|].
  apply find_split in Hd as [Hd _]. unfold by_id in *. by rewrite Hu.
Qed.

(** One failed challenge below the limit, and the one that reaches it. *)
Lemma run_wrong secret k code w :
  challenged secret k w → wrong_code secret w code →
  ∃ w', run (verifyMfa m userId code) w = (w', inr false) ∧ healthy w' ∧ clock w' = clock w ∧
    backupCodes w' = backupCodes w ∧
    if k + 1 <? MFA_MAX_ATTEMPTS then challenged secret (k + 1) w'
    else ∃ u, the_user w' = Some u ∧ u_mfaLockUntil u = Some (clock w + MFA_LOCK_MS).
Proof.
  intros Hc [Hv Hb]. rewrite (run_verifyMfa secret k code w false Hc Hv). destruct Hc as [Hh (u & Hu & He & Hs & Hun & Hl & Hk)].
  rewrite run_bind. destruct (run_tryBackupCode code w Hh) as (w' & Hr & _ & _ & _ & Hsame & _).
  rewrite Hr, Hb. rewrite (Hsame Hb). rewrite run_bind. unfold recordMfaFailure. run_step. cbn [tbl users_table upd_tbl].
  fold (the_user w). rewrite Hu. cbn [option_map]. change (u_mfaFailedAttempts (count_failure u)) with (1 + u_mfaFailedAttempts u).
  rewrite Hk. set (w1 := set_field users _ w).
  assert (the_user w1 = Some (count_failure u)) as Hu1 by (by apply by_id_update).
  destruct (Z.ltb_spec (k + 1) MFA_MAX_ATTEMPTS) as [Hlt|Hge].
  - rewrite (proj2 (Z.leb_gt _ _)) by lia. rewrite run_ret, run_ret. exists w1. do 4 (split; [done|]). split; [done|].
    exists (count_failure u). repeat split; try done. change (1 + u_mfaFailedAttempts u = k + 1). lia.
  - rewrite (proj2 (Z.leb_le _ _)) by lia. do 3 run_step. cbn [upd_tbl users_table]. eexists. split; [done|].
    do 3 (split; [done|]). exists (set_lock (clock w + MFA_LOCK_MS) (count_failure u)). split; [|done].
    by apply (by_id_update _ w1).
Qed.

(** Five wrong codes in a row. *)
Lemma run_guesses secret codes k w :
  challenged secret k w → Forall (wrong_code secret w) codes → k + Z.of_nat (length codes) = MFA_MAX_ATTEMPTS →
  (0 < length codes)%nat →
  ∃ w', run (for_each codes (λ c, verifyMfa m userId c ;; mret tt)) w = (w', inr tt) ∧ healthy w' ∧
    ∃ u, the_user w' = Some u ∧ u_mfaLockUntil u = Some (clock w + MFA_LOCK_MS).
Proof.
  revert k w. induction codes as [|c codes IH]; intros k w Hc Hw Hk Hpos; [cbn in Hpos; lia|].
  apply Forall_cons in Hw as [Hcw Hw]. cbn [for_each length] in *. rewrite run_bind, run_bind.
  destruct (run_wrong secret k c w Hc Hcw) as (w1 & -> & Hh1 & Hcl & Hbc & Hst). rewrite run_ret.
  destruct codes as [|c' codes].
  - cbn [length] in Hk. rewrite (proj2 (Z.ltb_ge _ _)) in Hst by lia. exists w1. by split.
  - cbn [length] in Hk. rewrite (proj2 (Z.ltb_lt _ _)) in Hst by lia.
    destruct (IH (k + 1) w1) as (w' & Hr & Hh' & u & Hu & Hlock); [done| |cbn [length]; lia|cbn; lia|].
    + eapply Forall_impl; [exact Hw|]. intros x. unfold wrong_code. by rewrite Hcl, Hbc.
    + exists w'. split; [done|]. split; [done|]. exists u. by rewrite Hlock, Hcl.
Qed.
End challenges.

(** ** Provisioning *)
Section provisioning.
Context {P : Platform} (m : MfaService) (userId : string).

(** Commands that leave the users alone. *)
Definition users_kept (w w' : world P) : Prop := users w' = users w ∧ (healthy w → healthy w').
#[export] Instance users_kept_preorder : PreOrder users_kept.
Proof. split; [done|]. intros w1 w2 w3 [H1 H2] [H3 H4]. split; [congruence|auto]. Qed.

Lemma users_kept_op {A} (f : world P → world P * (exn + A)) :
  (∀ w, users_kept w (f w).1) → guarantee users_kept (store_op f).
Proof.
  apply guarantee_store_op; [apply _|]. intros w x fs Hf. split; [done|]. unfold healthy. congruence.
Qed.

Lemma kept_draw {A} (f : nat → A) : guarantee users_kept (draw f).
Proof. by apply guarantee_act. Qed.
Lemma kept_create (d : BackupCodeDoc) : guarantee users_kept (create d).
Proof. apply users_kept_op. intros w. unfold insert_doc. by destruct (m_insert _ _ _). Qed.
Lemma kept_delete (f : BackupCodeDoc → bool) : guarantee users_kept (delete_many f).
Proof. by apply users_kept_op. Qed.
Lemma kept_audit a input : guarantee users_kept (audit_log a input).
Proof.
  destruct a as [a|]; [|done]. eapply guarantee_mono; [|apply g_log]. intros w w' Ha. split; [|apply Ha].
  by destruct (audit_only_mfa w w' Ha).
Qed.
Lemma kept_backup_codes n k : guarantee users_kept (generateBackupCodes n k).
Proof.
  induction n as [|n IH]; [done|]. cbn [generateBackupCodes]. apply guarantee_bind; [apply kept_draw|].
  intros c. apply guarantee_bind; [done|]. done.
Qed.
#[local] Hint Resolve kept_draw kept_create kept_delete kept_audit kept_backup_codes : guarantee_db.

(** After a set-up that returned, the user holds the envelope of the secret that
    was shown. *)
Lemma run_beginSetup_ok `{!AeadLaws P} k w w1 r :
  masterKey m = inr k → healthy w → run (beginSetup m userId) w = (w1, inr r) →
  ∃ secret u v, ms_secret r = encodeBase32 secret ∧ healthy w1 ∧ the_user userId w1 = Some u ∧
    u_mfaEnabled u = false ∧ u_mfaSecret u = Some v ∧ truthy (Some v) = true ∧ unwrap m v = inr secret.
Proof.
  intros Hk Hh. unfold beginSetup. run_step. cbn [tbl users_table]. fold (the_user userId w).
  destruct (the_user userId w) as [u|] eqn:Hu; [|done]. run_step.
  destruct (u_mfaEnabled u) eqn:He; [done|]. run_step. set (secret := generateToptSecretBytes (draws w) 32).
  set (w2 := set_field draws S w). rewrite run_bind.
  destruct (run_wrapEnvelope m secret k w2 Hk) as (v & -> & Hun & Hv). set (w3 := set_field draws _ w2).
  run_step. cbn [upd_tbl users_table]. set (w4 := set_field users _ w3).
  assert (the_user userId w4 = Some (set_pending v u)) as Hu4 by (by apply (by_id_update userId _ w)).
  match goal with |- run ?p w4 = _ → _ => assert (guarantee users_kept p) as Hg end.
  { apply guarantee_bind; [apply kept_backup_codes|]. intros codes.
    apply guarantee_bind; [apply kept_delete|]. intros []. apply guarantee_bind; [|solve_guarantee].
    apply guarantee_for_each. intros c. unfold store_backup_code. solve_guarantee. }
  intros Hrun. pose proof (guarantee_run users_kept _ w4 Hg) as [Hus Hhe]. rewrite Hrun in Hus, Hhe.
  assert (ms_secret r = encodeBase32 secret) as Hr.
  { apply run_bind_ok in Hrun as (? & ? & _ & Hrun). apply run_bind_ok in Hrun as (? & ? & _ & Hrun).
    apply run_bind_ok in Hrun as (? & ? & _ & Hrun). apply run_bind_ok in Hrun as (? & ? & _ & Hrun).
    by apply run_ret_ok in Hrun as [_ ->]. }
  exists secret, (set_pending v u), v. split; [done|]. split; [by apply Hhe|].
  split; [|done]. unfold the_user in *. cbn in Hus. by rewrite Hus.
Qed.
End provisioning.

(** ** What the service promises *)
Section properties.
Context {P : Platform} (m : MfaService) (userId : string).

(** a TOTP secret survives storage: what [encryptSecret] writes decrypts to the
    same bytes under the same key, and a stored value too short to be an envelope
    is refused. *)
Theorem secret_envelope_round_trip `{!AeadLaws P} (key secret : string) (w : world P) :
  masterKey m = inr key →
  (∃ w' v, run (encryptSecret m secret) w = (w', inr v) ∧ decryptSecret m v = inr secret) ∧
  (∀ raw, (String.length (from_base64 raw) < 88)%nat →
     decryptSecret m (MFA_ENVELOPE_VERSION +:+ raw) = inl INVALID_MFA_SECRET).
Proof.
  intros Hk. split.
  - destruct (run_wrapEnvelope m secret key w Hk) as (v & Hr & Hu & _). eauto.
  - intros raw Hl. unfold decryptSecret, unwrap. rewrite Hk.
    change (strip MFA_ENVELOPE_VERSION (MFA_ENVELOPE_VERSION +:+ raw)) with (Some raw). cbv iota beta.
    unfold unwrap_v3. by rewrite (proj2 (Nat.ltb_lt _ _)).
Qed.

(** set-up works end to end.  After [beginSetup] returned, the TOTP of the
    displayed base32 secret at the time of confirmation enables MFA. *)
Theorem setup_then_enable `{!AeadLaws P} (key : string) (w w1 : world P) (r : MfaSetupResult) (t : Z) :
  masterKey m = inr key → healthy w → run (beginSetup m userId) w = (w1, inr r) →
  30000 <= t < 2 ^ 63 →
  ∃ secret code w2 u, secretFromBase32 (ms_secret r) = Some secret ∧
    generateTotp secret (t / 1000) None None = inr code ∧
    run (enable m userId code) (w1 <| clock := t |>) = (w2, inr tt) ∧
    the_user userId w2 = Some u ∧ u_mfaEnabled u = true.
Proof.
  intros Hk Hh Hr Ht.
  destruct (run_beginSetup_ok m userId key w w1 r Hk Hh Hr) as (secret & u & v & Hsec & Hh1 & Hu & He & Hv & Htr & Hun).
  assert (30 <= t / 1000 < 2 ^ 63) as Ht'
    by (split; [apply Z.div_le_lower_bound; lia|apply Z.div_lt_upper_bound; lia]).
  assert (1 <= t / 1000 / 30 < 2 ^ 63) as Ht''
    by (split; [apply Z.div_le_lower_bound; lia|apply Z.div_lt_upper_bound; lia]).
  pose proof (hotp_ok secret (t / 1000 / 30) 6 ltac:(lia)) as Hcode. set (code := hotp_code _ _) in Hcode.
  destruct (verifyTotp_spec code secret (t / 1000) Ht') as (b & Hb & Hiff).
  assert (b = true) as -> by (apply Hiff; exists (t / 1000 / 30); split; [lia|done]).
  exists secret, code. set (w2 := w1 <| clock := t |>). unfold enable.
  assert (run (find_one (by_id userId)) w2 = (w2, inr (Some u))) as Hfind by (rewrite run_find_one by done; by rewrite <- Hu).
  rewrite run_bind, Hfind. run_step. rewrite Hv, Htr. cbn [negb]. run_step. rewrite He.
  cbn [nullish]. rewrite Hun. run_step. unfold verify_totp. run_step.
  change (clock w2) with t. rewrite Hb. run_step. cbn [negb]. do 3 run_step.
  cbn [upd_tbl users_table]. set (w3 := set_field users _ w2).
  assert (the_user userId w3 = Some (set_enabled (clock w2) u)) as Hu3 by (by apply (by_id_update userId _ w2)).
  destruct (run_audit_log (mf_audit m) (mfa_event m "MFA_ENABLED" userId) w3) as (w4 & Hlog & Ha).
  exists w4, (set_enabled (clock w2) u). rewrite Hsec, secret_round_trip.
  split; [done|]. split; [exact Hcode|]. split; [exact Hlog|]. split; [|done].
  destruct (audit_only_mfa _ _ Ha) as [Hus _]. unfold the_user in *. by rewrite Hus.
Qed.

(** brute force is cut off.  After five wrong codes in a row every further
    challenge is refused for fifteen minutes, the correct code included, and
    nothing is written while the lock lasts. *)
Theorem five_failures_lock (secret : string) (codes : list string) (w : world P) :
  challenged m userId secret 0 w → Forall (wrong_code userId secret w) codes → length codes = 5%nat →
  ∃ w', run (for_each codes (λ c, verifyMfa m userId c ;; mret tt)) w = (w', inr tt) ∧
    ∀ code t, 0 <= t < clock w + MFA_LOCK_MS →
      run (verifyMfa m userId code) (w' <| clock := t |>) = (w' <| clock := t |>, inr false).
Proof.
  intros Hc Hw Hl. destruct (run_guesses m userId secret codes 0 w Hc Hw) as (w' & Hr & Hh' & u & Hu & Hlock);
    [rewrite Hl; done|lia|].
  exists w'. split; [done|]. intros code t Ht. set (v := w' <| clock := t |>). unfold verifyMfa.
  rewrite run_bind. by rewrite (run_mfaLocked_locked userId u (clock w + MFA_LOCK_MS) v).
Qed.

(** a backup code works once.  With unique code hashes and identifiers, a code
    accepted in place of a TOTP is marked used, and the same code is refused the
    next time. *)
Theorem backup_code_once (code : string) (w w' : world P) :
  healthy w → unique_key b_codeHash (docs (backupCodes w)) → unique_key b_id (docs (backupCodes w)) →
  (∀ d, In d (docs (backupCodes w)) → ∃ c, b_codeHash d = hashBackupCode c) →
  run (tryBackupCode m userId code) w = (w', inr true) →
  ∃ w2, run (tryBackupCode m userId code) w' = (w2, inr false).
Proof.
  intros Hh Hu Hid Hhash Hr. destruct (run_tryBackupCode m userId code w Hh) as (v & Hrun & Hh' & _ & _ & _ & Hd).
  rewrite Hr in Hrun. injection Hrun as <- Hb.
  destruct (List.find (redeems userId code) (docs (backupCodes w))) as [r|] eqn:Hf; [|done].
  destruct (run_tryBackupCode m userId code w' Hh') as (w2 & Hrun2 & _). exists w2. rewrite Hrun2. repeat f_equal.
  destruct (List.find (redeems userId code) (docs (backupCodes w'))) as [x|] eqn:Hx; [|done]. exfalso.
  apply find_some in Hx as [Hin Hrx]. rewrite Hd in Hin. pose proof (find_some _ _ Hf) as [Hrin Hrr].
  assert (List.find (λ d, bool_decide (b_id d = b_id r)) (docs (backupCodes w)) = Some r) as Hfr.
  { apply (find_by_key b_id _ _ (b_id r)); [done..|]. intros y. by rewrite bool_decide_eq_true. }
  apply (In_alter_unique b_id _ (use_code (clock w)) _ r x Hid Hfr) in Hin as [->|[Hin Hne]].
  - unfold redeems, unused_codes in Hrx. cbn in Hrx. by rewrite andb_false_r in Hrx.
  - assert (x = r) as ->; [|done]. apply (unique_key_eq _ _ _ _ Hu Hin Hrin).
    unfold redeems, matchHashes in Hrx, Hrr. bool_to_prop.
    destruct (Hhash x Hin) as (cx & Hcx), (Hhash r Hrin) as (cr & Hcr). rewrite Hcx, Hcr in *.
    unfold hashBackupCode in *. rewrite !from_to_base64 in *.
    repeat match goal with H : String.eqb _ _ = true |- _ => apply String.eqb_eq in H end. congruence.
Qed.
End properties.
