(* ===== verification/Policy.v ===== *)
(** * Policy engine

    [packages/core/src/services/authorization/policy-engine.ts] and
    [abac.service.ts]: declarative policies evaluated against a JSON decision
    context.  [undefined] is [None].  Object values are compared by identity in
    the source, and a policy never shares an object with a context. *)

From S2P Require Export Jwt.
From S2P Require Export Transactions.

Inductive PolicyOperator :=
| op_eq | op_ne | op_in | op_not_in | op_gt | op_gte | op_lt | op_lte | op_exists | op_match.

Inductive PolicyEffect := allow | deny.
#[export] Instance PolicyEffect_eq_dec : EqDecision PolicyEffect.
Proof. solve_decision. Defined.

Record PolicyRule := mkPolicyRule { pr_path : string; pr_op : PolicyOperator; pr_value : option json }.
Record Policy := mkPolicy { po_id : option string; po_effect : PolicyEffect; po_rules : list PolicyRule }.
Record PolicyDecision := mkPolicyDecision {
  pd_policyId : option string; pd_allowed : bool; pd_reasons : list string }.

(** ** Values *)

(** [a === b]. *)
Definition strict_eq (a b : option json) : bool :=
  match a, b with
  | None, None | Some JNull, Some JNull => true
  | Some (JBool x), Some (JBool y) => Bool.eqb x y
  | Some (JNum x), Some (JNum y) => x =? y
  | Some (JStr x), Some (JStr y) => String.eqb x y
  | _, _ => false
  end.

(** [String(j)], as array elements are joined. *)
Fixpoint element_string (j : json) : string :=
  match j with
  | JNull => ""
  | JBool b => if b then "true" else "false"
  | JNum n => js_String n
  | JStr s => s
  | JArr l => (fix join (l : list json) : string :=
                 match l with
                 | [] => ""
                 | [j] => element_string j
                 | j :: l' => element_string j +:+ "," +:+ join l'
                 end) l
  | JObj _ => "[object Object]"
  end.

(** [Number(e)]; [None] is [NaN]. *)
Definition json_Number (e : option json) : option Z :=
  match e with
  | None => None
  | Some JNull => Some 0
  | Some (JBool b) => Some (if b then 1 else 0)
  | Some (JNum n) => Some n
  | Some (JStr s) => js_Number s
  | Some (JArr l) => js_Number (element_string (JArr l))
  | Some (JObj _) => None
  end.

Definition compare_numbers (f : Z → Z → bool) (a e : option json) : bool :=
  match a with
  | Some (JNum x) => match json_Number e with Some y => f x y | None => false end
  | _ => false
  end.

(** [OPERATORS]. *)
Definition OPERATORS (op : PolicyOperator) (a e : option json) : bool :=
  match op with
  | op_eq => strict_eq a e
  | op_ne => negb (strict_eq a e)
  | op_in => match e with Some (JArr l) => existsb (λ item, strict_eq (Some item) a) l | _ => false end
  | op_not_in => match e with Some (JArr l) => negb (existsb (λ item, strict_eq (Some item) a) l) | _ => false end
  | op_gt => compare_numbers (λ x y, y <? x) a e
  | op_gte => compare_numbers (λ x y, y <=? x) a e
  | op_lt => compare_numbers (λ x y, x <? y) a e
  | op_lte => compare_numbers (λ x y, x <=? y) a e
  | op_exists => match a with None | Some JNull => false | _ => true end
  | op_match => match a, e with Some (JStr x), Some (JStr y) => includes y x | _, _ => false end
  end.

(** Own members of objects and elements of arrays. *)
Definition member (j : json) (segment : string) : option json :=
  match j with
  | JObj l => obj_get segment l
  | JArr l =>
    if String.eqb segment "length" then Some (JNum (Z.of_nat (length l)))
    else match js_Number segment with
         | Some n => if (0 <=? n) && String.eqb (js_String n) segment then nth_error l (Z.to_nat n) else None
         | None => None
         end
  | _ => None
  end.

(** [resolvePath]. *)
Definition resolvePath (context : json) (path : string) : option json :=
  foldl (λ current segment, match current with Some j => member j segment | None => None end)
    (Some context) (split_dot path).

(** ** Evaluation *)
Definition rule_holds (context : json) (rule : PolicyRule) : bool :=
  OPERATORS (pr_op rule) (resolvePath context (pr_path rule)) (pr_value rule).
Definition matched (context : json) (p : Policy) : bool := forallb (rule_holds context) (po_rules p).

Definition reason (p : Policy) : string :=
  (match po_effect p with allow => "allow" | deny => "deny" end) +:+ ":" +:+ nullish (po_id p) "anonymous".

(** [evaluate]: the loop over the policies. *)
Fixpoint evaluate (policies : list Policy) (context : json) : PolicyDecision :=
  match policies with
  | [] => mkPolicyDecision None false []
  | p :: ps =>
    if matched context p then mkPolicyDecision (po_id p) (bool_decide (po_effect p = allow)) [reason p]
    else evaluate ps context
  end.

(** [add]. *)
Definition add (policies : list Policy) (p : Policy) : list Policy := policies ++ [p].

(** ** [AbacService] *)
Record AbacContext := mkAbacContext {
  ab_userId : string; ab_tenantId : string; ab_applicationId : string;
  ab_resource : option string; ab_action : option string; ab_resourceId : option string;
  ab_attributes : option (list (string * json));
}.

(** [contextFrom]. *)
Definition contextFrom (i : AbacContext) : json :=
  JObj [("user", JObj [("id", JStr (ab_userId i)); ("tenantId", JStr (ab_tenantId i))]);
        ("tenant", JObj [("id", JStr (ab_tenantId i))]);
        ("application", JObj [("id", JStr (ab_applicationId i))]);
        ("request", JObj (opt_field "resourceId" (option_map JStr (ab_resourceId i)) ++
                          opt_field "resource" (option_map JStr (ab_resource i)) ++
                          opt_field "action" (option_map JStr (ab_action i)) ++
                          [("attributes", JObj (nullish (ab_attributes i) []))]))]%string.

(** [can]. *)
Definition abac_can (policies : list Policy) (input : AbacContext) : bool :=
  pd_allowed (evaluate policies (contextFrom input)).

(** ** Lemmas *)
Lemma evaluate_find policies context :
  evaluate policies context =
  match List.find (matched context) policies with
  | Some p => mkPolicyDecision (po_id p) (bool_decide (po_effect p = allow)) [reason p]
  | None => mkPolicyDecision None false []
  end.
Proof. induction policies as [|p ps IH]; cbn; [done|]. by destruct (matched context p). Qed.

Lemma find_app {A} (f : A → bool) l1 l2 :
  List.find f (l1 ++ l2) = match List.find f l1 with Some x => Some x | None => List.find f l2 end.
Proof. induction l1 as [|x l1 IH]; cbn; [done|]. by destruct (f x). Qed.

(** ** What the engine promises *)
Section properties.

(** The first policy all of whose rules hold decides, and without one access
    is denied.  So a request is allowed only by an explicit allow policy that no
    earlier matching policy overrides, and a policy added at run time never
    changes a request that was already decided. *)
Theorem first_match_decides (policies : list Policy) (context : json) (extra : Policy) :
  (pd_allowed (evaluate policies context) = true ↔
   ∃ before p after, policies = before ++ p :: after ∧ po_effect p = allow ∧ matched context p = true ∧
     ∀ q, In q before → matched context q = false) ∧
  (pd_reasons (evaluate policies context) ≠ [] →
   evaluate (add policies extra) context = evaluate policies context).
Proof.
  rewrite !evaluate_find. unfold add. rewrite find_app. split.
  - destruct (List.find (matched context) policies) as [p|] eqn:Hf; cbn.
    + rewrite bool_decide_eq_true. split.
      * intros He. apply find_split in Hf as [Hm (l1 & l2 & -> & Hb)]. by exists l1, p, l2.
      * intros (l1 & q & l2 & -> & He & Hm & Hb). rewrite find_app in Hf.
        destruct (List.find (matched context) l1) as [x|] eqn:Hx.
        -- apply find_some in Hx as [Hin Hx]. by rewrite (Hb x Hin) in Hx.
        -- cbn in Hf. rewrite Hm in Hf. by injection Hf as <-.
    + split; [done|]. intros (l1 & q & l2 & -> & He & Hm & Hb).
      pose proof (find_none_all _ _ q Hf) as Hq. rewrite Hq in Hm; [done|]. apply in_app_iff. right. by left.
  - by destruct (List.find (matched context) policies).
Qed.

(** a rule comparing the subject with itself is sound: the decision context
    binds the user, tenant and application of the request, so a policy restricted
    to one tenant allows no request of another. *)
Theorem tenant_policy_isolates (policies : list Policy) (tenant : string) (input : AbacContext) :
  (∀ p, In p policies → po_effect p = allow →
     In (mkPolicyRule "tenant.id" op_eq (Some (JStr tenant))) (po_rules p)) →
  abac_can policies input = true → ab_tenantId input = tenant.
Proof.
  intros Hp. unfold abac_can. rewrite evaluate_find.
  destruct (List.find _ policies) as [p|] eqn:Hf; [|done]. apply find_some in Hf as [Hin Hm].
  cbn [pd_allowed]. intros He%bool_decide_eq_true. specialize (Hp p Hin He).
  unfold matched in Hm. rewrite forallb_forall in Hm. specialize (Hm _ Hp).
  cbn in Hm. by apply String.eqb_eq in Hm.
Qed.
End properties.
