(* ===== verification/Authorization.v ===== *)
(** * Authorization service

    [packages/core/src/services/authorization.service.ts] and
    [authorization/permission.service.ts]: role-based access control with an
    optional policy engine in front of it. *)

From S2P Require Export AuditTrail.
From S2P Require Export AccountState.
From S2P Require Export Tokens.
From S2P Require Export Policy.

Section authorization.
Context {P : Platform}.

(** The scope of a decision. *)
Record AuthzContext := mkAuthzContext {
  az_userId : string; az_tenantId : string; az_applicationId : string }.

Record AuthorizationInput := mkAuthorizationInput {
  ai_context : AuthzContext;
  ai_resource : option string;
  ai_action : option string;
  ai_resourceId : option string;
  ai_permission : string;
}.

Record AuthorizationService := mkAuthorizationService {
  az_audit : option AuditService;
  az_accountState : bool;
  az_policy : option (AuthorizationInput → prog (world P) bool);
}.

(** [setPolicyEngine]. *)
Definition setPolicyEngine (az : AuthorizationService) (policy : AuthorizationInput → prog (world P) bool) :
    AuthorizationService := mkAuthorizationService (az_audit az) (az_accountState az) (Some policy).

(** [invalidateUserTokens]. *)
Definition bump_version (d : UserDoc) : UserDoc := d <| u_tokenVersion ::= Z.add 1 |>.
Definition invalidateUserTokens (az : AuthorizationService) (userId : string) : prog (world P) () :=
  update_one (λ d, bool_decide (u_id d = userId)) bump_version ;;
  if az_accountState az then invalidate userId else mret tt.

Definition named_role (c : AuthzContext) (roleName : string) (r : RoleDoc) : bool :=
  bool_decide (r_tenantId r = az_tenantId c) && bool_decide (r_applicationId r = az_applicationId c) &&
  bool_decide (r_name r = roleName).
Definition in_scope (c : AuthzContext) (a : UserRoleAssignmentDoc) : bool :=
  bool_decide (ra_userId a = az_userId c) && bool_decide (ra_tenantId a = az_tenantId c) &&
  bool_decide (ra_applicationId a = az_applicationId c).
Definition assignment_of (c : AuthzContext) (roleId : string) (a : UserRoleAssignmentDoc) : bool :=
  in_scope c a && bool_decide (ra_roleId a = roleId).

Definition role_event (c : AuthzContext) (action roleName : string) : AuditEntryInput :=
  audit_event "ROLE_CHANGED" (Some (az_tenantId c)) (Some (az_applicationId c)) (Some (az_userId c))
    [("action", JStr action); ("roleName", JStr roleName)]%string.

Definition ROLE_NOT_FOUND (roleName : string) : exn :=
  AuthorizationError ("Role " +:+ quoted roleName +:+ " not found in this application")
    "ROLE_NOT_FOUND".

(** [assignRole]. *)
Definition assignRole (az : AuthorizationService) (c : AuthzContext) (roleName : string) : prog (world P) () :=
  role ← find_one (named_role c roleName);
  match role with
  | None => Throw (ROLE_NOT_FOUND roleName)
  | Some r =>
    t ← now;
    find_one_and_upsert (assignment_of c (r_id r)) (λ a, a)
      (mkUserRoleAssignmentDoc (az_userId c) (az_tenantId c) (az_applicationId c) (r_id r) t) ;;
    audit_log (az_audit az) (role_event c "assign" roleName) ;;
    invalidateUserTokens az (az_userId c)
  end.

(** [removeRole]. *)
Definition removeRole (az : AuthorizationService) (c : AuthzContext) (roleName : string) : prog (world P) () :=
  role ← find_one (named_role c roleName);
  match role with
  | None => mret tt
  | Some r =>
    delete_one (assignment_of c (r_id r)) ;;
    audit_log (az_audit az) (role_event c "remove" roleName) ;;
    invalidateUserTokens az (az_userId c)
  end.

(** [getUserRoles]. *)
Definition getUserRoles (c : AuthzContext) : prog (world P) (list RoleDoc) :=
  assignments ← find_all (in_scope c);
  let roleIds := map ra_roleId assignments in
  if (length roleIds =? 0)%nat then mret []
  else find_all (λ r, bool_decide (r_id r ∈ roleIds)).

(** [getUserPermissions]. *)
Definition granted_ids (roles : list RoleDoc) : list string := concat (map r_permissionIds roles).
Definition grantable (c : AuthzContext) (ids : list string) (d : PermissionDoc) : bool :=
  bool_decide (p_id d ∈ ids) && bool_decide (p_tenantId d = az_tenantId c) &&
  bool_decide (p_applicationId d = az_applicationId c).
Definition getUserPermissions (c : AuthzContext) : prog (world P) (list string) :=
  roles ← getUserRoles c;
  let permissionIds := granted_ids roles in
  if (length permissionIds =? 0)%nat then mret []
  else perms ← find_all (grantable c permissionIds); mret (map p_name perms).

(** [hasRole], [hasPermission]. *)
Definition hasRole (c : AuthzContext) (roleName : string) : prog (world P) bool :=
  roles ← getUserRoles c;
  mret (existsb (λ r, bool_decide (r_name r = roleName)) roles).
Definition hasPermission (c : AuthzContext) (permission : string) : prog (world P) bool :=
  permissions ← getUserPermissions c;
  mret (bool_decide (permission ∈ permissions)).

(** [can]. *)
Definition denied_event (i : AuthorizationInput) (permission : list (string * json)) (why : string) : AuditEntryInput :=
  audit_event "AUTHZ_DENIED" (Some (az_tenantId (ai_context i))) (Some (az_applicationId (ai_context i)))
    (Some (az_userId (ai_context i)))
    (permission ++ opt_field "resource" (option_map JStr (ai_resource i)) ++
     opt_field "action" (option_map JStr (ai_action i)) ++
     opt_field "resourceId" (option_map JStr (ai_resourceId i)) ++ [("reason", JStr why)]%string).
Definition can (az : AuthorizationService) (i : AuthorizationInput) : prog (world P) bool :=
  allowed ← match az_policy az with Some policy => policy i | None => mret true end;
  if negb allowed then
    audit_log (az_audit az) (denied_event i [] "policy_denied") ;;
    mret false
  else
    granted ← hasPermission (ai_context i) (ai_permission i);
    if (granted : bool) then mret true
    else
      audit_log (az_audit az) (denied_event i [("permission", JStr (ai_permission i))]%string "no_permission") ;;
      mret false.

(** [AbacService] as the policy engine of the service. *)
Definition abac_policy (policies : list Policy) (i : AuthorizationInput) : prog (world P) bool :=
  mret (abac_can policies (mkAbacContext (az_userId (ai_context i)) (az_tenantId (ai_context i))
    (az_applicationId (ai_context i)) (ai_resource i) (ai_action i) (ai_resourceId i) None)).

(** [buildIdentityContext]: the identity and its [authenticatedAt]; [Promise.all]
    issues both reads. *)
Definition buildIdentityContext (c : AuthzContext) (sessionId : string) (authMethod : AuthMethod) :
    prog (world P) (AccessContext * Z) :=
  roles ← getUserRoles c;
  permissions ← getUserPermissions c;
  t ← now;
  mret (mkAccessContext (az_userId c) (az_tenantId c) (az_applicationId c) sessionId (map r_name roles)
    permissions authMethod None None None, t).

(** ** [PermissionService]

    The two operations of the authorization service it uses. *)
Record AuthorizationOps := mkAuthorizationOps {
  op_hasPermission : AuthzContext → string → prog (world P) bool;
  op_can : AuthorizationInput → prog (world P) bool;
}.
Definition service_ops (az : AuthorizationService) : AuthorizationOps := mkAuthorizationOps hasPermission (can az).

(** [hasAll]. *)
Fixpoint hasAll (ops : AuthorizationOps) (c : AuthzContext) (permissions : list string) : prog (world P) bool :=
  match permissions with
  | [] => mret true
  | p :: ps => ok ← op_hasPermission ops c p; if negb ok then mret false else hasAll ops c ps
  end.

(** [fromPolicyEngine]. *)
Definition fromPolicyEngine (engine : AuthorizationInput → prog (world P) bool) : AuthorizationOps :=
  mkAuthorizationOps (λ _ _, mret true) engine.

(** ** What is granted *)
Definition roles_of (c : AuthzContext) (w : world P) : list RoleDoc :=
  let ids := map ra_roleId (List.filter (in_scope c) (docs (userRoleAssignments w))) in
  List.filter (λ r, bool_decide (r_id r ∈ ids)) (docs (roles w)).
Definition permissions_of (c : AuthzContext) (w : world P) : list string :=
  map p_name (List.filter (grantable c (granted_ids (roles_of c w))) (docs (permissions w))).

Lemma run_getUserRoles c w : healthy w → run (getUserRoles c) w = (w, inr (roles_of c w)).
Proof.
  intros Hh. unfold getUserRoles, roles_of. run_step. cbn [tbl userRoleAssignments_table].
  destruct (map ra_roleId _) as [|i ids] eqn:Hi; cbn [length Nat.eqb].
  - rewrite run_ret. do 2 f_equal. symmetry. apply filter_ext_in_false. intros r _.
    apply bool_decide_eq_false. apply not_elem_of_nil.
  - by rewrite run_find_all.
Qed.

Lemma run_getUserPermissions c w : healthy w → run (getUserPermissions c) w = (w, inr (permissions_of c w)).
Proof.
  intros Hh. unfold getUserPermissions, permissions_of. rewrite run_bind, run_getUserRoles by done.
  destruct (granted_ids (roles_of c w)) as [|i ids] eqn:Hi; cbn [length Nat.eqb].
  - rewrite run_ret. do 2 f_equal. symmetry. rewrite (filter_ext_in_false (grantable c [])); [done|]. intros d _.
    unfold grantable. rewrite bool_decide_false; [done|]. apply not_elem_of_nil.
  - run_step. by rewrite run_ret.
Qed.

(** The grant relation: an assignment in scope, a role, one of its permissions. *)
Definition grants (c : AuthzContext) (w : world P) (permission : string) : Prop :=
  ∃ a r d, In a (docs (userRoleAssignments w)) ∧ In r (docs (roles w)) ∧ In d (docs (permissions w)) ∧
    ra_userId a = az_userId c ∧ ra_tenantId a = az_tenantId c ∧ ra_applicationId a = az_applicationId c ∧
    r_id r = ra_roleId a ∧ p_id d ∈ r_permissionIds r ∧
    p_tenantId d = az_tenantId c ∧ p_applicationId d = az_applicationId c ∧ p_name d = permission.

Lemma In_roles_of c w r :
  In r (roles_of c w) ↔ In r (docs (roles w)) ∧
    ∃ a, In a (docs (userRoleAssignments w)) ∧ in_scope c a = true ∧ ra_roleId a = r_id r.
Proof.
  unfold roles_of. rewrite filter_In, bool_decide_eq_true, list_elem_of_In, in_map_iff.
  split; intros [Hr Ha]; (split; [done|]).
  - destruct Ha as (a & He & [Hin Hs]%filter_In). by exists a.
  - destruct Ha as (a & Hin & Hs & He). exists a. split; [done|]. by apply filter_In.
Qed.

Lemma permissions_of_grants c w permission : permission ∈ permissions_of c w ↔ grants c w permission.
Proof.
  unfold permissions_of. rewrite list_elem_of_In, in_map_iff. split.
  - intros (d & <- & [Hd Hg]%filter_In). unfold grantable in Hg. bool_to_prop.
    apply list_elem_of_In in H. unfold granted_ids in H. apply in_concat in H as (l & Hl & Hin).
    apply in_map_iff in Hl as (r & <- & Hr). apply In_roles_of in Hr as (Hr & a & Ha & Hs & Hra).
    unfold in_scope in Hs. bool_to_prop. exists a, r, d. rewrite list_elem_of_In. auto 12.
  - intros (a & r & d & Ha & Hr & Hd & H1 & H2 & H3 & H4 & H5 & H6 & H7 & <-). exists d. split; [done|].
    apply filter_In. split; [done|]. unfold grantable. rewrite H6, H7, !(bool_decide_true (_ = _)) by done.
    rewrite !andb_true_r. apply bool_decide_eq_true. rewrite list_elem_of_In. unfold granted_ids. apply in_concat.
    exists (r_permissionIds r). split; [|by apply list_elem_of_In]. apply in_map_iff. exists r. split; [done|].
    apply In_roles_of. split; [done|]. exists a. split; [done|]. split; [|done].
    unfold in_scope. by rewrite H1, H2, H3, !bool_decide_true.
Qed.

Lemma run_hasPermission c p w :
  healthy w → run (hasPermission c p) w = (w, inr (bool_decide (p ∈ permissions_of c w))).
Proof. intros Hh. unfold hasPermission. by rewrite run_bind, run_getUserPermissions. Qed.
End authorization.

(** ** What the service promises *)
Section properties.
Context {P : Platform} (az : AuthorizationService).

(** C11: a permission is held exactly when an assignment of the user in that tenant
    and application leads through a role to a permission document of that same
    tenant and application with that name; nothing crosses tenants. *)
Theorem permission_iff_granted (c : AuthzContext) (permission : string) (w : world P) :
  healthy w →
  ∃ b, run (hasPermission c permission) w = (w, inr b) ∧ (b = true ↔ grants c w permission).
Proof.
  intros Hh. eexists. split; [by apply run_hasPermission|]. by rewrite bool_decide_eq_true, permissions_of_grants.
Qed.

(** [can] allows exactly what the policies, when there are any, and the roles
    both allow, and deciding changes nothing but the audit trail. *)
Theorem can_decides (policies : option (list Policy)) (i : AuthorizationInput) (w : world P) :
  healthy w → az_policy az = option_map abac_policy policies →
  ∃ w' b, run (can az i) w = (w', inr b) ∧ rest w' = rest w ∧
    (b = true ↔ grants (ai_context i) w (ai_permission i) ∧
       match policies with
       | Some ps => abac_can ps (mkAbacContext (az_userId (ai_context i)) (az_tenantId (ai_context i))
           (az_applicationId (ai_context i)) (ai_resource i) (ai_action i) (ai_resourceId i) None) = true
       | None => True
       end).
Proof.
  intros Hh Hp. unfold can. rewrite Hp.
  assert (∀ e, ∃ w', run (audit_log (az_audit az) e ;; mret false) w = (w', inr false) ∧ rest w' = rest w) as Hlog.
  { intros e. rewrite run_bind. destruct (run_audit_log (az_audit az) e w) as (w' & -> & Hr & _). by exists w'. }
  assert (∃ w' b, run (granted ← hasPermission (ai_context i) (ai_permission i);
      if (granted : bool) then mret true
      else audit_log (az_audit az) (denied_event i [("permission", JStr (ai_permission i))]%string "no_permission") ;;
           mret false) w = (w', inr b) ∧ rest w' = rest w ∧
    (b = true ↔ grants (ai_context i) w (ai_permission i))) as Hgrant.
  { rewrite run_bind, run_hasPermission by done. pose proof (permissions_of_grants (ai_context i) w (ai_permission i)) as Hg.
    destruct (bool_decide_reflect (ai_permission i ∈ permissions_of (ai_context i) w)) as [Hin|Hin].
    - exists w, true. split; [done|]. split; [done|]. tauto.
    - destruct (Hlog (denied_event i [("permission", JStr (ai_permission i))]%string "no_permission"))
        as (w' & -> & Hr). exists w', false. split; [done|]. split; [done|]. split; [done|tauto]. }
  destruct policies as [ps|]; cbn [option_map]; rewrite run_bind.
  - unfold abac_policy at 1. rewrite run_ret. destruct (abac_can ps _) eqn:Ha; cbn [negb].
    + destruct Hgrant as (w' & b & Hr & Hrest & Hiff). exists w', b. split; [exact Hr|]. split; [done|]. tauto.
    + destruct (Hlog (denied_event i [] "policy_denied")) as (w' & -> & Hr). exists w', false.
      split; [done|]. split; [done|]. by split; [|intros [_ ?]].
  - rewrite run_ret. cbn [negb]. destruct Hgrant as (w' & b & Hr & Hrest & Hiff). exists w', b.
    split; [exact Hr|]. split; [done|]. tauto.
Qed.

(** revoking a role takes effect at once.  After [removeRole] the role is no
    longer among the user's roles, and every access token minted at the previous
    token version fails the account check of its next request. *)
Theorem role_revocation_immediate `{!RedisCacheLaws cache} (c : AuthzContext) (roleName : string)
    (u : UserDoc) (r : RoleDoc) (w : world P) :
  healthy w → az_accountState az = true →
  List.find (λ d, bool_decide (u_id d = az_userId c)) (docs (users w)) = Some u →
  List.find (named_role c roleName) (docs (roles w)) = Some r →
  unique_key (λ a, (ra_userId a, ra_tenantId a, ra_applicationId a, ra_roleId a)) (docs (userRoleAssignments w)) →
  ∃ w1 w2, run (removeRole az c roleName) w = (w1, inr tt) ∧
    (∀ x, In x (roles_of c w1) → r_id x ≠ r_id r) ∧
    run (validate (az_userId c) (u_tokenVersion u)) w1 = (w2, inr false).
Proof.
  intros Hh Hacc Hu Hr Huniq. unfold removeRole. run_step. cbn [tbl roles_table]. rewrite Hr. run_step.
  cbn [upd_tbl userRoleAssignments_table]. set (w1 := set_field userRoleAssignments _ w). rewrite run_bind.
  destruct (run_audit_log (az_audit az) (role_event c "remove" roleName) w1) as (w2 & -> & Hrest & _ & _ & Hh2).
  assert (users w2 = users w ∧ roles w2 = roles w ∧ userRoleAssignments w2 = userRoleAssignments w1) as (Hus & Hro & Has).
  { unfold rest in Hrest. by injection Hrest. }
  specialize (Hh2 Hh). unfold invalidateUserTokens. run_step. rewrite Hacc. cbn [upd_tbl users_table].
  unfold invalidate. rewrite run_redis_del. set (w3 := set_field users _ w2). set (w4 := set_field redis _ w3).
  assert ((cache_get (account_cacheKey (az_userId c)) (clock w4) (redis w4)).2 = None) as Hg by apply get_deleted.
  destruct (run_validate_db (az_userId c) (u_tokenVersion u) w4 Hg Hh2) as (w5 & Hv).
  exists w4, w5. split; [done|]. split.
  - intros x (_ & a & Ha & Hs & He)%In_roles_of Heq. change (userRoleAssignments w4) with (userRoleAssignments w2) in Ha.
    rewrite Has in Ha. cbn in Ha. rewrite m_delete_one_law in Ha.
    assert (assignment_of c (r_id r) a = true) as Hmatch.
    { unfold assignment_of. rewrite Hs. by apply bool_decide_eq_true; congruence. }
    clear -Ha Hmatch Huniq. induction (docs (userRoleAssignments w)) as [|b l IH]; [done|]. cbn in Ha.
    apply unique_key_cons in Huniq as [Hl Hb]. destruct (assignment_of c (r_id r) b) eqn:Hbm.
    + apply (Hb a Ha). unfold assignment_of, in_scope in *. bool_to_prop. congruence.
    + destruct Ha as [<-|Ha]; [congruence|]. by apply IH.
  - rewrite Hv. do 3 f_equal. change (users w4) with (m_update_one (λ d, bool_decide (u_id d = az_userId c)) bump_version (users w2)).
    rewrite Hus, m_update_one_law.
    rewrite (find_alter_first _ bump_version _ u Hu) by (by apply find_split in Hu as [Hu _]).
    unfold account_ok. cbn [account_state as_exists as_isActive as_tokenVersionMatch].
    change (u_tokenVersion (bump_version u)) with (1 + u_tokenVersion u).
    rewrite (proj2 (Z.eqb_neq _ _)) by lia. apply andb_false_r.
Qed.
End properties.
