(* ===== verification/Frames.v ===== *)
(** * Frames

    What issuing a session and its tokens leaves alone: the collections of
    accounts, codes, tokens and roles.  The flows of the OAuth server and of the
    authentication engine are composed from these steps. *)

From S2P Require Export Session.
From S2P Require Export AuditTrail.

(** ** What issuing a session leaves alone *)
Section accounts_kept.
Context {P : Platform}.

(** The collections that neither sessions nor the log live in. *)
Definition accounts (w : world P) :=
  (users w, otps w, backupCodes w, verificationTokens w, oauthClients w, authorizationCodes w,
   permissions w, roles w, userRoleAssignments w).

Definition accounts_kept (w w' : world P) : Prop :=
  accounts w' = accounts w ∧ clock w <= clock w' ∧ (draws w ≤ draws w')%nat ∧ (healthy w → healthy w').
#[export] Instance accounts_kept_preorder : PreOrder accounts_kept.
Proof.
  split; [done|]. intros w1 w2 w3 (? & ? & ? & ?) (? & ? & ? & ?).
  split; [congruence|]. split; [lia|]. split; [lia|auto].
Qed.
Lemma accounts_kept_faults (w : world P) x fs : faults w = x :: fs → accounts_kept w (w <| faults := fs |>).
Proof. intros Hw. repeat split; [cbn; lia..|]. unfold healthy. congruence. Qed.
Lemma accounts_kept_op {A} (f : world P → world P * (exn + A)) :
  (∀ w, accounts_kept w (f w).1) → guarantee accounts_kept (store_op f).
Proof. apply guarantee_store_op; [apply _|apply accounts_kept_faults]. Qed.

Lemma kept_users w w' : accounts_kept w w' → users w' = users w.
Proof. by intros ([= H] & _). Qed.
Lemma kept_codes w w' :
  accounts_kept w w' → authorizationCodes w' = authorizationCodes w ∧ oauthClients w' = oauthClients w.
Proof. by intros ([= H] & _). Qed.
Lemma kept_links w w' : accounts_kept w w' → verificationTokens w' = verificationTokens w.
Proof. by intros ([= H] & _). Qed.
Lemma kept_healthy w w' : accounts_kept w w' → healthy w → healthy w'.
Proof. by intros (_ & _ & _ & H). Qed.

Lemma run_kept {A} (p : prog (world P) A) w w' r :
  guarantee accounts_kept p → run p w = (w', r) → accounts_kept w w'.
Proof.
  intros Hp Hr. change w' with (w', r).1. rewrite <- Hr. apply guarantee_run; [apply _|done].
Qed.

Lemma ak_read {A} (f : world P → exn + A) : guarantee accounts_kept (store_op (λ w, (w, f w))).
Proof. by apply accounts_kept_op. Qed.
Lemma ak_update_one (f : SessionDoc → bool) u : guarantee accounts_kept (update_one f u).
Proof. by apply accounts_kept_op. Qed.
Lemma ak_update_many (f : SessionDoc → bool) u : guarantee accounts_kept (update_many f u).
Proof. by apply accounts_kept_op. Qed.
Lemma ak_find_one_and_update (f : SessionDoc → bool) u : guarantee accounts_kept (find_one_and_update f u).
Proof. by apply accounts_kept_op. Qed.
Lemma ak_create (d : SessionDoc) : guarantee accounts_kept (create d).
Proof. apply accounts_kept_op. intros w. unfold insert_doc. by destruct (m_insert _ _ _). Qed.
Lemma ak_now : guarantee accounts_kept now.
Proof. by apply guarantee_act. Qed.
Lemma ak_draw {A} (f : nat → A) : guarantee accounts_kept (draw f).
Proof. apply guarantee_act. intros w. repeat split; cbn; [lia..|done]. Qed.
Lemma ak_redis_set k v ttl : guarantee accounts_kept (redis_set k v ttl).
Proof. by apply guarantee_act. Qed.
Lemma ak_redis_del k : guarantee accounts_kept (redis_del k).
Proof. by apply guarantee_act. Qed.
Lemma ak_audit a input : guarantee accounts_kept (audit_log a input).
Proof.
  destruct a as [a|]; [|done]. eapply guarantee_mono; [|apply g_log].
  intros w w' (Hr & ? & ? & ?). split; [|done]. unfold rest in Hr. injection Hr. unfold accounts. congruence.
Qed.
Lemma ak_lift_jwt {A} (r : jwt_error + A) : guarantee accounts_kept (lift_jwt r).
Proof. by destruct r. Qed.
Lemma ak_current_key : guarantee accounts_kept current_key.
Proof.
  apply guarantee_bind; [|apply ak_lift_jwt]. apply guarantee_act. intros w.
  destruct (KeyStore.current _ _ _ _) as [e|[s k]]; repeat split; cbn; (done || lia).
Qed.
#[local] Hint Resolve ak_read ak_update_one ak_update_many ak_find_one_and_update ak_create ak_now ak_draw
  ak_redis_set ak_redis_del ak_audit ak_lift_jwt ak_current_key : guarantee_db.

#[local] Opaque current_key.

Lemma ak_signAccessToken ts ctx : guarantee accounts_kept (signAccessToken ts ctx).
Proof. unfold signAccessToken. solve_guarantee. Qed.
Lemma ak_signIdToken ts i : guarantee accounts_kept (signIdToken ts i).
Proof. unfold signIdToken. solve_guarantee. Qed.
Lemma ak_createRefreshToken ts : guarantee accounts_kept (createRefreshToken ts).
Proof. apply ak_draw. Qed.
Lemma ak_revoke i : guarantee accounts_kept (revoke i).
Proof. unfold revoke. solve_guarantee. Qed.
Lemma ak_revokeFamily f : guarantee accounts_kept (revokeFamily f).
Proof. unfold revokeFamily. solve_guarantee. Qed.
#[local] Hint Resolve ak_revoke ak_revokeFamily ak_createRefreshToken : guarantee_db.
Lemma ak_create_session ss ctx : guarantee accounts_kept (create_session ss ctx).
Proof. unfold create_session, enforceSessionLimit, cacheLiveness. solve_guarantee. Qed.
Lemma ak_rotate ss d ctx : guarantee accounts_kept (Session.rotate ss d ctx).
Proof.
  assert (∀ work, (∀ b, guarantee accounts_kept (work b)) →
    guarantee accounts_kept (withTransaction (A := string * Z) work session_transaction)) as Htx.
  { intros work Hw. apply guarantee_withTransaction; [apply _|apply accounts_kept_faults| | |done|done].
    - intros w ms Hms. repeat split; cbn; (done || lia).
    - by intros w w' (_ & Hr). }
  unfold Session.rotate, cacheLiveness. apply guarantee_bind; [apply ak_now|]. intros t.
  apply guarantee_bind; [apply ak_draw|]. intros pair. apply guarantee_bind; [apply ak_now|]. intros a.
  apply guarantee_bind; [|solve_guarantee]. apply Htx. intros b. unfold txBody. solve_guarantee.
Qed.
Lemma ak_refuse h ctx : guarantee accounts_kept (refuse h ctx).
Proof. unfold refuse. solve_guarantee. Qed.
Lemma ak_refresh ss token ctx : guarantee accounts_kept (refresh ss token ctx).
Proof.
  unfold refresh. apply guarantee_bind; [apply ak_now|]. intros t.
  apply guarantee_bind; [apply ak_find_one_and_update|]. intros [d|]; [apply ak_rotate|apply ak_refuse].
Qed.
End accounts_kept.

#[export] Hint Resolve ak_read ak_update_one ak_now ak_draw ak_redis_del ak_audit ak_signAccessToken ak_signIdToken ak_revoke
  ak_create_session ak_refresh : guarantee_db.

(** ** What reading, signing and logging leave alone *)
Section quiet.
Context {P : Platform}.

Definition quiet (w w' : world P) : Prop := accounts_kept w w' ∧ sessions w' = sessions w.
#[export] Instance quiet_preorder : PreOrder quiet.
Proof.
  split; [by split|]. intros w1 w2 w3 [H1 H2] [H3 H4]. split; [by etrans|congruence].
Qed.
Lemma quiet_faults (w : world P) x fs : faults w = x :: fs → quiet w (w <| faults := fs |>).
Proof. intros Hw. split; [by eapply accounts_kept_faults|done]. Qed.
Lemma q_read {A} (f : world P → exn + A) : guarantee quiet (store_op (λ w, (w, f w))).
Proof. apply guarantee_store_op; [apply _|apply quiet_faults|done]. Qed.
Lemma q_find_one {D} {T : Table D} (f : D → bool) : guarantee quiet (find_one f).
Proof. apply q_read. Qed.
Lemma q_find_all {D} {T : Table D} (f : D → bool) : guarantee quiet (find_all f).
Proof. apply q_read. Qed.
Lemma q_now : guarantee quiet now.
Proof. by apply guarantee_act. Qed.
Lemma q_audit a i : guarantee quiet (audit_log a i).
Proof.
  destruct a as [a|]; [|done]. eapply guarantee_mono; [|apply g_log].
  intros w w' (Hr & ? & ? & ?). unfold rest in Hr. injection Hr as Hr. split; [|congruence].
  split; [unfold accounts; congruence|done].
Qed.
Lemma q_draw {A} (f : nat → A) : guarantee quiet (draw f).
Proof. apply guarantee_act. intros w. repeat split; cbn; (done || lia). Qed.
Lemma q_current_key : guarantee (W := world P) quiet current_key.
Proof.
  apply guarantee_bind; [|by intros [?|?]]. apply guarantee_act. intros w.
  destruct (KeyStore.current _ _ _ _) as [x|[s k]]; repeat split; cbn; (done || lia).
Qed.
Lemma q_lift_jwt {A} (r : jwt_error + A) : guarantee (W := world P) quiet (lift_jwt r).
Proof. by destruct r. Qed.
#[local] Hint Resolve q_find_one q_find_all q_now q_audit q_draw q_current_key q_lift_jwt : guarantee_db.
#[local] Opaque current_key.

Lemma q_signAccessToken ts c : guarantee (W := world P) quiet (signAccessToken ts c).
Proof. unfold signAccessToken. solve_guarantee. Qed.

Lemma run_quiet {A} (p : prog (world P) A) w w' r : guarantee quiet p → run p w = (w', r) → quiet w w'.
Proof. intros Hp Hr. change w' with (w', r).1. rewrite <- Hr. by apply (guarantee_run quiet). Qed.
End quiet.

#[export] Hint Resolve q_read q_find_one q_find_all q_now q_audit q_draw q_current_key q_lift_jwt q_signAccessToken : guarantee_db.
