(* ===== verification/ApiKeys.v ===== *)
(** * Credentials of machines

    API keys ([packages/core/src/services/apiKey.service.ts]) and client certificates
    ([services/auth/certificate.service.ts]). *)

From S2P Require Export World.
From S2P Require Export AuditTrail.
From S2P Require Import JsMap.

(** * API keys

    [packages/core/src/services/apiKey.service.ts]: keys shown once and stored as
    a digest. *)

Section api_keys.
Context {P : Platform}.

Definition KEY_PREFIX : string := "pk_live".
Definition hashKey (raw : string) : string := to_base64 (createHash sha256 raw).
(** A fresh key, and the part of it that is stored in clear. *)
Definition raw_key (i : nat) : string := KEY_PREFIX +:+ "_" +:+ to_base64url (randomBytes i 32).
Definition key_prefix (rawKey : string) : string :=
  KEY_PREFIX +:+ "_" +:+ String.substring (String.length KEY_PREFIX + 1) 8 rawKey.

Record CreateKeyInput := mkCreateKeyInput {
  ck_tenantId : string; ck_applicationId : string; ck_name : string; ck_scopes : option (list string) }.
Record CreatedKey := mkCreatedKey { rawKey : string; prefix : string; keyHash : string }.
Record ApiKeyIdentity := mkApiKeyIdentity {
  apiKeyId : string; ki_tenantId : string; ki_applicationId : string; ki_scopes : list string }.

Definition api_key_doc (i : CreateKeyInput) (id raw : string) : ApiKeyDoc :=
  mkApiKeyDoc id (ck_tenantId i) (ck_applicationId i) (ck_name i) (hashKey raw) (Some (key_prefix raw))
    (nullish (ck_scopes i) []) true None.

(** [create] of the service. *)
Definition create_api_key (i : CreateKeyInput) : prog (world P) CreatedKey :=
  raw ← draw raw_key;
  id ← draw newObjectId;
  create (api_key_doc i id raw) ;;
  mret (mkCreatedKey raw (key_prefix raw) (hashKey raw)).

Definition active_key (hash : string) (d : ApiKeyDoc) : bool := bool_decide (ap_keyHash d = hash) && ap_isActive d.
Definition key_expired (t : Z) (d : ApiKeyDoc) : bool :=
  match ap_expiresAt d with Some e => e <? t | None => false end.
Definition identity_of (d : ApiKeyDoc) : ApiKeyIdentity :=
  mkApiKeyIdentity (ap_id d) (ap_tenantId d) (ap_applicationId d) (ap_scopes d).

Definition authenticate (raw : string) : prog (world P) (option ApiKeyIdentity) :=
  doc ← find_one (active_key (hashKey raw));
  match doc with
  | None => mret None
  | Some d =>
    t ← now;
    mret (if key_expired t d then None else Some (identity_of d))
  end.

(** [revoke] of the service. *)
Definition deactivate (d : ApiKeyDoc) : ApiKeyDoc := d <| ap_isActive := false |>.
Definition revoke_api_key (id : string) : prog (world P) () :=
  update_one (λ d, bool_decide (ap_id d = id)) deactivate.

(** ** Lemmas *)
Lemma run_authenticate raw w :
  healthy w →
  run (authenticate raw) w =
    (w, inr match List.find (active_key (hashKey raw)) (docs (apiKeys w)) with
            | Some d => if key_expired (clock w) d then None else Some (identity_of d)
            | None => None
            end).
Proof.
  intros Hh. unfold authenticate. run_step. cbn [tbl apiKeys_table]. destruct (List.find _ _) as [d|]; [|done].
  by run_step.
Qed.

(** The life of an API key: the key [create] shows is well-formed and stored
    only as a digest; it authenticates at once, and for as long as it is active, as
    the tenant, application and scopes it was created for; and from the moment it
    is revoked it authenticates as nobody. *)
Theorem api_key_lifecycle i w :
  healthy w → unique_key ap_id (docs (apiKeys w)) →
  let doc := api_key_doc i (newObjectId (S (draws w))) (raw_key (draws w)) in
  existsb (clash doc) (docs (apiKeys w)) = false →
  ∃ w1 k, run (create_api_key i) w = (w1, inr k) ∧
    rawKey k = raw_key (draws w) ∧ inserted doc (docs (apiKeys w)) (docs (apiKeys w1)) ∧
    run (authenticate (rawKey k)) w1 =
      (w1, inr (Some (mkApiKeyIdentity (ap_id doc) (ck_tenantId i) (ck_applicationId i) (nullish (ck_scopes i) [])))) ∧
    ∃ w2, run (revoke_api_key (ap_id doc)) w1 = (w2, inr tt) ∧ run (authenticate (rawKey k)) w2 = (w2, inr None).
Proof.
  intros Hh Hui doc Hfresh. unfold create_api_key. do 2 run_step. rewrite run_bind.
  set (w0 := w <| draws ::= S |> <| draws ::= S |>). change (api_key_doc i (newObjectId _) _) with doc.
  destruct (run_create doc w0) as (c & -> & Hins); [done|done|]. rewrite run_ret. do 2 eexists. split; [done|].
  split; [done|]. cbn [rawKey upd_tbl apiKeys_table]. set (w1 := set_field apiKeys _ w0).
  assert (inserted doc (docs (apiKeys w)) (docs (apiKeys w1))) as Hins1 by exact Hins. split; [done|].
  assert (∀ d, In d (docs (apiKeys w)) → ap_id d ≠ ap_id doc ∧ ap_keyHash d ≠ ap_keyHash doc) as Hold.
  { intros d Hd. destruct (clash doc d) eqn:Hc.
    { rewrite (proj2 (existsb_exists _ _)) in Hfresh; [done|]. by exists d. }
    unfold clash, apiKeys_table, apiKey_clash in Hc.
    apply orb_false_iff in Hc as [H1 H2]. apply bool_decide_eq_false in H1, H2. split; congruence. }
  split.
  - rewrite run_authenticate by done. rewrite (inserted_find_new _ doc _ _ Hins1); [done|by unfold active_key, doc; rewrite bool_decide_true|].
    destruct (List.find _ (docs (apiKeys w))) as [d|] eqn:Hd; [|done].
    apply find_some in Hd as [Hd [Hk%bool_decide_eq_true _]%andb_prop]. by destruct (Hold d Hd).
  - unfold revoke_api_key. rewrite run_update_one by done. eexists. split; [done|]. rewrite run_authenticate by done.
    cbn [apiKeys set_field upd_tbl apiKeys_table]. rewrite m_update_one_law.
    destruct (List.find (active_key _) _) as [d|] eqn:Hd; [|done]. exfalso.
    apply find_some in Hd as [Hd [Hk%bool_decide_eq_true Hact]%andb_prop].
    assert (unique_key ap_id (docs (apiKeys w1))) as Hu1 by (apply (inserted_unique _ _ _ _ Hins1); [done|];
      intros x Hx; by apply not_eq_sym, Hold).
    assert (List.find (λ d, bool_decide (ap_id d = ap_id doc)) (docs (apiKeys w1)) = Some doc) as Hf.
    { apply (find_by_key ap_id _ doc (ap_id doc)); [done|by apply (inserted_In _ _ _ _ Hins1); left|done|]. intros x. apply bool_decide_eq_true. }
    apply (In_alter_unique ap_id _ _ _ _ _ Hu1 Hf) in Hd as [->|[Hd Hne]]; [done|].
    apply (inserted_In _ _ _ _ Hins1) in Hd as [->|Hd]; [done|]. by destruct (Hold d Hd).
Qed.
End api_keys.

(** * Client certificates

    [packages/core/src/services/auth/certificate.service.ts]: certificate
    authentication behind a proxy that ends the TLS connection.  The revocation checker
    is a parameter; a date is its number of milliseconds. *)

Section certificates.
Context {P : Platform}.

(** ** Data *)
Record CertificateConfig := mkCertificateConfig {
  cf_trustedCAs : option (list string); cf_requireChainVerification : option bool; cf_enableCrlCheck : option bool;
  cf_enableOcspCheck : option bool; cf_failClosedOnRevocationError : option bool; cf_maxChainDepth : option Z }.
Record PresentedCertificate := mkPresentedCertificate { pr_chainPem : option (list string); pr_certThumbprint : option string }.
Record CertificatePrincipal := mkCertificatePrincipal {
  subjectCN : option string; subjectDN : string; issuerCN : option string; sanDns : list string; sanEmail : list string;
  sanUpn : option string; sanUri : option string; serialNumber : option string; notBefore : option Z; notAfter : option Z;
  thumbprintSha256 : string }.
Record CertificateVerificationResult := mkCertificateVerificationResult {
  cv_verified : bool; cv_principal : option CertificatePrincipal; cv_error : option string }.
Definition RevocationChecker : Type := CertificatePrincipal → list string → prog (world P) bool.
Record CertificateService := mkCertificateService {
  ce_trustedCAs : list string; ce_requireChainVerification : bool; ce_enableCrlCheck : bool; ce_enableOcspCheck : bool;
  ce_failClosed : bool; ce_maxChainDepth : Z; ce_checker : option RevocationChecker; ce_audit : option AuditService }.
Definition new_certificate_service (c : CertificateConfig) (audit : option AuditService) : CertificateService :=
  mkCertificateService (nullish (cf_trustedCAs c) []) (nullish (cf_requireChainVerification c) true) (nullish (cf_enableCrlCheck c) false)
    (nullish (cf_enableOcspCheck c) false) (nullish (cf_failClosedOnRevocationError c) true) (nullish (cf_maxChainDepth c) 5) None audit.
Definition setRevocationChecker (checker : RevocationChecker) (s : CertificateService) : CertificateService :=
  mkCertificateService (ce_trustedCAs s) (ce_requireChainVerification s) (ce_enableCrlCheck s) (ce_enableOcspCheck s) (ce_failClosed s)
    (ce_maxChainDepth s) (Some checker) (ce_audit s).

(** ** Decoding *)
(** [s.replace(/p1|p2/g, '')], the patterns literal texts that are not empty. *)
Fixpoint remove_all (fuel : nat) (patterns : list string) (s : string) : string :=
  match fuel with
  | O => s
  | S fuel =>
    match List.find (λ p, is_prefix p s) patterns with
    | Some p => remove_all fuel patterns (String.substring (String.length p) (String.length s - String.length p) s)
    | None => match s with EmptyString => EmptyString | String c s => String c (remove_all fuel patterns s) end
    end
  end.
Definition without (patterns : list string) (s : string) : string := remove_all (String.length s) patterns s.
Definition BEGIN : string := "-----BEGIN CERTIFICATE-----".
Definition BEGIN_TRUSTED : string := "-----BEGIN TRUSTED CERTIFICATE-----".
Definition END_ : string := "-----END CERTIFICATE-----".
Definition END_TRUSTED : string := "-----END TRUSTED CERTIFICATE-----".
Definition spaceless (s : string) : string := string_of_list (List.filter (λ c, negb (js_is_space c)) (list_of_string s)).
Definition decodeDer (pem : string) : string :=
  from_base64 (spaceless (without [END_TRUSTED; END_] (without [BEGIN_TRUSTED; BEGIN] (without [END_] (without [BEGIN] pem))))).
Definition thumbprint (pem : string) : string := to_base64url (createHash sha256 (decodeDer pem)).
Definition bare (dn thumbprint : string) : CertificatePrincipal :=
  mkCertificatePrincipal None dn None [] [] None None None None None thumbprint.
Definition parsePrincipal (der thumbprint : string) : CertificatePrincipal := bare ("der:" +:+ String.substring 0 16 thumbprint) thumbprint.
Definition decode (pem : string) : CertificatePrincipal := parsePrincipal (decodeDer pem) (thumbprint pem).

(** ** Verification *)
Context (s : CertificateService).
Definition isTrustedSelfSigned (leaf : CertificatePrincipal) : bool := bool_decide (ce_trustedCAs s = []).
Definition verifyChain (chain : list string) (leaf : CertificatePrincipal) : bool :=
  if (0 <? ce_maxChainDepth s) && (ce_maxChainDepth s <? Z.of_nat (length chain)) then false
  else if bool_decide (length chain = 1%nat) && bool_decide (issuerCN leaf = subjectCN leaf) then isTrustedSelfSigned leaf
  else true.
Definition refused (message : string) (leaf : CertificatePrincipal) : CertificateVerificationResult :=
  mkCertificateVerificationResult false (Some leaf) (Some message).
(** The revocation check: [Some] refusal, or nothing to object. *)
Definition revocation (leaf : CertificatePrincipal) (chain : list string) : prog (world P) (option CertificateVerificationResult) :=
  match ce_checker s with
  | Some isRevoked =>
    if ce_enableCrlCheck s || ce_enableOcspCheck s then
      try_catch
        (revoked ← isRevoked leaf chain;
         mret (if (revoked : bool) then Some (refused "Certificate revoked" leaf) else None))
        (λ e, mret (if ce_failClosed s then Some (refused ("Revocation check failed: " +:+ err_message e) leaf) else None))
    else mret None
  | None => mret None
  end.
Definition verify_certificate (presented : PresentedCertificate) : prog (world P) CertificateVerificationResult :=
  match nullish (pr_chainPem presented) [] with
  | [] =>
    mret match pr_certThumbprint presented with
         | Some t => if truthy (Some t) then mkCertificateVerificationResult true (Some (bare ("thumbprint:" +:+ t) t)) None
                     else mkCertificateVerificationResult false None (Some "No certificate presented"%string)
         | None => mkCertificateVerificationResult false None (Some "No certificate presented"%string)
         end
  | leafPem :: rest =>
    let chain := leafPem :: rest in
    let leaf := decode leafPem in
    t ← now;
    if match notBefore leaf with Some b => t <? b | None => false end then mret (refused "Certificate not yet valid" leaf)
    else if match notAfter leaf with Some a => a <? t | None => false end then mret (refused "Certificate expired" leaf)
    else if ce_requireChainVerification s && negb (verifyChain chain leaf) then mret (refused "Certificate chain verification failed" leaf)
    else
      objection ← revocation leaf chain;
      match objection with
      | Some r => mret r
      | None =>
        audit_log (ce_audit s) (audit_event "SERVICE_AUTHENTICATED" None None None
          (app [("method"%string, JStr "mtls"); ("thumbprint"%string, JStr (thumbprintSha256 leaf))]
               (opt_field "cn" (option_map JStr (subjectCN leaf))))) ;;
        mret (mkCertificateVerificationResult true (Some leaf) None)
      end
  end.
Definition mapSubject (p : CertificatePrincipal) : option string :=
  match sanEmail p with
  | e :: _ => Some e
  | [] => if truthy (sanUpn p) then sanUpn p
          else if truthy (sanUri p) then sanUri p
          else match sanDns p with d :: _ => Some d | [] => subjectCN p end
  end.
(** [createStaticRevocationChecker]. *)
Definition static_checker (revokedThumbprints : prog (world P) (list string)) : RevocationChecker := λ principal _,
  list ← revokedThumbprints;
  mret (existsb (String.eqb (thumbprintSha256 principal)) list).

(** ** What verification looks at *)
(** Certificates are not examined.  Whoever presents texts is verified by their
    number alone: any chain no longer than the limit, and longer than one where a
    single text is accepted only if no authority is configured; a thumbprint without a
    certificate is verified as it is.  No signature, issuer, authority or date is
    looked at, whatever is presented, and the principal that comes out names nobody. *)
Theorem certificates_unexamined presented (w : world P) :
  ce_checker s = None → ce_requireChainVerification s = true →
  ∃ w' r, run (verify_certificate presented) w = (w', inr r) ∧
    cv_verified r = match nullish (pr_chainPem presented) [] with
                    | [] => truthy (pr_certThumbprint presented)
                    | [_] => negb ((0 <? ce_maxChainDepth s) && (ce_maxChainDepth s <? 1)) && bool_decide (ce_trustedCAs s = [])
                    | chain => negb ((0 <? ce_maxChainDepth s) && (ce_maxChainDepth s <? Z.of_nat (length chain)))
                    end ∧
    ∀ p, cv_principal r = Some p → mapSubject p = None.
Proof.
  intros Hc Hq. unfold verify_certificate. destruct (nullish (pr_chainPem presented) []) as [|leafPem rest].
  - do 2 eexists. split; [reflexivity|]. destruct (pr_certThumbprint presented) as [t|]; [|by split].
    destruct (truthy (Some t)) eqn:Ht; (split; [done|]); [|done]. by intros p [= <-].
  - rewrite run_bind, run_now. cbn [decode parsePrincipal bare notBefore notAfter]. rewrite Hq. cbn [andb].
    assert (verifyChain (leafPem :: rest) (decode leafPem) = match rest with
      | [] => negb ((0 <? ce_maxChainDepth s) && (ce_maxChainDepth s <? 1)) && bool_decide (ce_trustedCAs s = [])
      | _ => negb ((0 <? ce_maxChainDepth s) && (ce_maxChainDepth s <? Z.of_nat (length (leafPem :: rest)))) end) as Hv.
    { unfold verifyChain. destruct rest as [|x rest]; cbn [length].
      - change (Z.of_nat 1) with 1. by destruct (_ && _).
      - rewrite (bool_decide_false (S (S (length rest)) = 1%nat)) by lia. by destruct (_ && _). }
    cbv zeta. rewrite Hv. set (b := match rest with [] => _ | _ => _ end) in *.
    assert (match rest with [] => _ | _ :: _ => _ end = b) as -> by (by destruct rest).
    destruct b; cbn [negb].
    + rewrite run_bind. unfold revocation. rewrite Hc, run_ret.
      match goal with |- context [run (audit_log ?a ?i ≫= λ _, ?k) ?v] => destruct (run_audit_then a i k v) as (w' & Hr & _) end.
      exists w'. rewrite Hr. eexists. split; [reflexivity|]. split; [by destruct rest|]. by intros p [= <-].
    + do 2 eexists. split; [reflexivity|]. split; [by destruct rest|]. by intros p [= <-].
Qed.
End certificates.
