(* ===== verification/Middleware.v ===== *)
(** * HTTP middleware

    The Express middleware of [packages/express/src] ([security.ts], [index.ts],
    [apikey.ts], [rateLimit.ts]) and the framework-agnostic one of
    [packages/core/src/middleware], over requests and responses as records.  Of
    [requestContext] the logger and the response-time header, and everywhere metrics
    and audit entries, are left out.  A handler may change the request and the response, and calls [next], calls it
    with an error, or answers itself. *)

From S2P Require Export Authorization.
From S2P Require Export Tokens.
From S2P Require Export AccountState.
From S2P Require Export RateLimit.
From S2P Require Export Randomness.
From S2P Require ApiKeys.
From Stdlib Require Import Ascii.
From S2P Require Import JsMap.

(** ** Requests and responses *)
(** Header names are lower-case in requests; [cookies] holds the textual ones. *)
Record Request := mkRequest {
  method : string; path : string; headers : list (string * string); cookies : list (string * string);
  requestId : option string; correlationId : option string; client_ip : option string; remoteAddress : option string;
  identity : option IdentityContext }.
#[export] Instance settable_Request : Settable Request := {| eta_expand := λ r,
  mkRequest (method r) (path r) (headers r) (cookies r) (requestId r) (correlationId r) (client_ip r) (remoteAddress r)
    (identity r) |}.
Record Response := mkResponse { res_headers : list (string * string); res_cookies : list (string * string); res_status : option Z }.
#[export] Instance settable_Response : Settable Response := {| eta_expand := λ r,
  mkResponse (res_headers r) (res_cookies r) (res_status r) |}.
Definition setHeader (name value : string) (r : Response) : Response := r <| res_headers ::= map_set name value |>.
Definition no_response : Response := mkResponse [] [] None.

Inductive outcome := Next | NextError (e : exn) | Answered.

Definition SecurityEventError := pezhwan_error CSecurityEventError.
Definition SAFE_METHODS : list string := ["GET"; "HEAD"; "OPTIONS"; "TRACE"].
Definition safe_method (req : Request) : bool := bool_decide (method req ∈ SAFE_METHODS).

(** ** [security.ts] *)
Record SecurityHeadersOptions := mkSecurityHeadersOptions {
  so_hstsMaxAge : option Z; so_includeSubdomains : option bool; so_csp : option string;
  so_referrerPolicy : option string; so_permissionsPolicy : option string; so_frameOptions : option string }.
Definition DEFAULT_CSP : string :=
  "default-src 'self'; img-src 'self' data:; style-src 'self' 'unsafe-inline'; script-src 'self'; connect-src 'self'".
Definition securityHeaders (o : SecurityHeadersOptions) (req : Request) (res : Response) : Request * Response * outcome :=
  let hsts := if nullish (so_includeSubdomains o) true then "includeSubDomains" else "" in
  let res := setHeader "X-Content-Type-Options" "nosniff" res in
  let res := setHeader "Referrer-Policy" (nullish (so_referrerPolicy o) "strict-origin-when-cross-origin") res in
  let res := setHeader "Permissions-Policy" (nullish (so_permissionsPolicy o) "camera=(), microphone=(), geolocation=()") res in
  let res := setHeader "Content-Security-Policy" (nullish (so_csp o) DEFAULT_CSP) res in
  let res := setHeader "X-Frame-Options" (nullish (so_frameOptions o) "DENY") res in
  let res := setHeader "Strict-Transport-Security"
               (js_trim ("max-age=" +:+ js_String (nullish (so_hstsMaxAge o) 31536000) +:+ "; " +:+ hsts)) res in
  (req, res, Next).

Record CorsOptions := mkCorsOptions {
  co_allowedOrigins : list string; co_allowedMethods : option (list string); co_allowedHeaders : option (list string);
  co_allowCredentials : option bool; co_maxAge : option Z;
  (** Each entry as the test it makes of a path: equality or a prefix, or a [RegExp]. *)
  co_publicPaths : list (string → bool) }.
Definition public_prefix (p : string) (pathname : string) : bool := String.eqb pathname p || is_prefix p pathname.
Definition join_comma (l : list string) : string := String.concat ", " l.
Definition isPublicPath (o : CorsOptions) (pathname : string) : bool := existsb (λ p, p pathname) (co_publicPaths o).
Definition origin_of (req : Request) : option string := map_get "origin" (headers req).
Definition listed (o : CorsOptions) (origin : option string) : bool :=
  match origin with Some x => bool_decide (x ∈ co_allowedOrigins o) | None => false end.
Definition echo_origin (origin : string) (res : Response) : Response :=
  setHeader "Vary" "Origin" (setHeader "Access-Control-Allow-Origin" origin res).
Definition ALLOW_CREDENTIALS : string := "Access-Control-Allow-Credentials".
Definition corsAllowlist (o : CorsOptions) (req : Request) (res : Response) : Request * Response * outcome :=
  let origin := origin_of req in
  let isPublic := isPublicPath o (path req) in
  let allowed := listed o origin || isPublic && safe_method req in
  let credentials := nullish (co_allowCredentials o) true in
  if String.eqb (method req) "OPTIONS" then
    let res := setHeader "Access-Control-Allow-Methods"
                 (join_comma (nullish (co_allowedMethods o) ["GET"; "POST"; "PUT"; "PATCH"; "DELETE"])) res in
    let res := setHeader "Access-Control-Allow-Headers"
                 (join_comma (nullish (co_allowedHeaders o) ["Content-Type"; "Authorization"; "X-CSRF-Token"; "X-Request-Id"])) res in
    let res := setHeader "Access-Control-Max-Age" (js_String (nullish (co_maxAge o) 600)) res in
    let res := if truthy origin && allowed then
                 let res := echo_origin (nullish origin "") res in
                 if credentials && negb isPublic then setHeader ALLOW_CREDENTIALS "true" res else res
               else res in
    (req, res <| res_status := Some 204 |>, Answered)
  else if negb (truthy origin) then (req, res, Next)
  else if isPublic && safe_method req then (req, echo_origin (nullish origin "") res, Next)
  else if negb (listed o origin) then (req, res, NextError (SecurityEventError "Origin is not allowed" "ORIGIN_REJECTED"))
  else
    let res := echo_origin (nullish origin "") res in
    (req, if credentials then setHeader ALLOW_CREDENTIALS "true" res else res, Next).

(** *** What the allowlist promises *)
Definition header (name : string) (r : Response) : option string := map_get name (res_headers r).
Lemma header_set name name' v r : header name (setHeader name' v r) = if String.eqb name name' then Some v else header name r.
Proof. apply map_get_set. Qed.

(** Credentials never go to an origin that is not on the list: after the
    allowlist has run on a fresh response, the allowed origin, if any, is the
    request's own, on the list or reading a public path with a safe method; with
    credentials allowed it is on the list and the path is not a public one read
    safely; and a request other than a preflight, with an origin that is neither,
    does not get past it. *)
Theorem cors_allowlist_sound o req :
  let '(req', res, out) := corsAllowlist o req no_response in
  req' = req ∧
  (∀ x, header "Access-Control-Allow-Origin" res = Some x →
     origin_of req = Some x ∧ x ≠ "" ∧ (x ∈ co_allowedOrigins o ∨ isPublicPath o (path req) = true ∧ safe_method req = true)) ∧
  (header ALLOW_CREDENTIALS res ≠ None →
     ∃ x, header "Access-Control-Allow-Origin" res = Some x ∧ x ∈ co_allowedOrigins o ∧
       (isPublicPath o (path req) && safe_method req) = false) ∧
  (method req ≠ "OPTIONS" → truthy (origin_of req) = true → listed o (origin_of req) = false →
     (isPublicPath o (path req) && safe_method req) = false →
     ∃ e, out = NextError e ∧ err_code e = Some "ORIGIN_REJECTED" ∧ res = no_response).
Proof.
  assert (∀ x, listed o (Some x) = true ↔ x ∈ co_allowedOrigins o) as Hlisted by (intros x; apply bool_decide_eq_true).
  unfold corsAllowlist. destruct (String.eqb_spec (method req) "OPTIONS") as [Hm|Hm]; cbv zeta.
  - assert (safe_method req = true) as Hsafe by (unfold safe_method; rewrite Hm; by vm_compute). rewrite Hsafe, !andb_true_r.
    split; [done|]. unfold header at 1 2 3. cbn [res_headers set_field].
    destruct (truthy (origin_of req)) eqn:Ho; cbn [andb].
    + apply truthy_some in Ho as (x & -> & Hx). cbn [nullish].
      destruct (isPublicPath o (path req)) eqn:Hp; rewrite ?orb_true_r, ?andb_false_r, ?orb_false_r.
      * split; [intros y [= <-]; auto|]. by split.
      * destruct (listed o (Some x)) eqn:Hl; [|split; [done|split; done]]. apply Hlisted in Hl.
        destruct (nullish (co_allowCredentials o) true); cbn; (split; [intros y [= <-]; auto|split; [|done]]); [|done]. intros _. by exists x.
    + split; [done|]. by split.
  - destruct (truthy (origin_of req)) eqn:Ho; cbn [negb]; [|split; [done|by split_and!]].
    apply truthy_some in Ho as (x & Hox & Hx). rewrite Hox. cbn [nullish].
    destruct (isPublicPath o (path req) && safe_method req) eqn:Hp.
    + apply andb_true_iff in Hp as [-> ->]. split; [done|]. split; [intros y [= <-]; auto|]. by split.
    + destruct (listed o (Some x)) eqn:Hl; cbn [negb].
      * split; [done|]. apply Hlisted in Hl. split; [|split; [|done]].
        -- intros y. destruct (nullish _ true); intros [= <-]; auto.
        -- destruct (nullish _ true); [|done]. intros _. by exists x.
      * split; [done|]. split; [done|]. split; [done|]. intros _ _ _ _. by eexists.
Qed.

(** *** Double-submit cookies *)
Section middleware.
Context {P : Platform}.

Definition newRequestId : prog (world P) string := draw (λ i, uuid_of (randomBytes i 16)).
(** [s.replace(/-/g, '')]. *)
Definition drop_dashes (s : string) : string :=
  string_of_list (List.filter (λ c, negb (Ascii.eqb c "-"%char)) (list_of_string s)).
Record CsrfOptions := mkCsrfOptions { cs_cookieName : option string; cs_headerName : option string }.
Definition csrf_cookie (o : CsrfOptions) (req : Request) : option string :=
  map_get (nullish (cs_cookieName o) "pezhwan_csrf") (cookies req).
Definition csrf_header (o : CsrfOptions) (req : Request) : option string :=
  map_get (nullish (cs_headerName o) "x-csrf-token") (headers req).
Definition CSRF_REJECTED : exn := SecurityEventError "CSRF token mismatch" "CSRF_REJECTED".
Definition csrfProtection (o : CsrfOptions) (req : Request) (res : Response) : prog (world P) (Request * Response * outcome) :=
  if safe_method req then
    match csrf_cookie o req with
    | None =>
      i ← newRequestId;
      mret (req, res <| res_cookies ::= map_set (nullish (cs_cookieName o) "pezhwan_csrf") (drop_dashes i) |>, Next)
    | Some _ => mret (req, res, Next)
    end
  else
    if negb (truthy (csrf_cookie o req)) || negb (bool_decide (csrf_header o req = csrf_cookie o req)) then
      mret (req, res, NextError CSRF_REJECTED)
    else mret (req, res, Next).

(** [requestContext]: the identifier of the request, taken over or drawn. *)
Definition requestContext (headerName : string) (req : Request) (res : Response) :
    prog (world P) (Request * Response * outcome) :=
  i ← (if truthy (map_get headerName (headers req)) then mret (nullish (map_get headerName (headers req)) "") else newRequestId);
  mret (req <| requestId := Some i |> <| correlationId := Some i |>, setHeader headerName i res, Next).

(** [hash] and [validate] of [core/src/middleware/csrf.middleware.ts]. *)
Record CsrfResult := mkCsrfResult { cf_ok : bool; cf_reason : option string }.
Definition csrf_validate (origin method : string) (cookie header requestOrigin : option string) : CsrfResult :=
  if bool_decide (js_upper method ∈ ["GET"; "HEAD"; "OPTIONS"]) then mkCsrfResult true None
  else if negb (truthy cookie) || negb (truthy header) then mkCsrfResult false (Some "missing_token")
  else if negb (String.eqb (to_hex (createHash sha256 (nullish cookie ""))) (to_hex (createHash sha256 (nullish header ""))))
    then mkCsrfResult false (Some "mismatch")
  else if truthy requestOrigin && negb (bool_decide (requestOrigin = Some origin)) then mkCsrfResult false (Some "bad_origin")
  else mkCsrfResult true None.

(** State-changing requests need the cookie's value in the header: [csrfProtection]
    lets a request through exactly when its method is safe or it carries the same
    non-empty token in the cookie and in the header, and otherwise rejects it with
    [CSRF_REJECTED]; a safe request without the cookie is given one. *)
Theorem csrf_double_submit o req res w :
  ∃ w' res' out, run (csrfProtection o req res) w = (w', inr (req, res', out)) ∧
    (out = Next ↔ safe_method req = true ∨ ∃ t, t ≠ "" ∧ csrf_cookie o req = Some t ∧ csrf_header o req = Some t) ∧
    (out ≠ Next → out = NextError CSRF_REJECTED ∧ res' = res) ∧
    (safe_method req = true → csrf_cookie o req = None →
       is_Some (map_get (nullish (cs_cookieName o) "pezhwan_csrf") (res_cookies res'))).
Proof.
  unfold csrfProtection. destruct (safe_method req).
  - destruct (csrf_cookie o req) as [t|]; do 3 eexists; (split; [done|]); (split; [split; auto|]); (split; [done|]); [done|].
    intros _ _. cbn [res_cookies set_field]. rewrite map_get_set, String.eqb_refl. eauto.
  - destruct (truthy (csrf_cookie o req)) eqn:Ht; cbn [negb orb].
    + apply truthy_some in Ht as (t & Hc & Hne). rewrite Hc. case_bool_decide as Hh; cbn [negb]; do 3 eexists; (split; [done|]).
      * split; [|done]. split; [|done]. intros _. right. by exists t.
      * split; [|by split]. split; [done|]. intros [|(t' & _ & [= <-] & Hh')]; done.
    + do 3 eexists. split; [done|]. split; [|by split]. split; [done|]. intros [|(t & Hne & Hc & _)]; [done|].
      rewrite Hc, truthy_nonempty in Ht; done.
Qed.
End middleware.

(** ** [index.ts], [apikey.ts] and [rateLimit.ts] *)
Section authentication.
Context {P : Platform} (ts : TokenService).
Notation handler := (Request → Response → prog (world P) (Request * Response * outcome)).

(** [extractToken]. *)
Definition nonempty (s : string) : option string := if String.eqb s "" then None else Some s.
Definition bearer : string := "Bearer ".
Definition extractToken (req : Request) : option string :=
  match map_get "authorization" (headers req) with
  | Some h => if truthy (Some h) && is_prefix bearer h then nonempty (js_trim (String.substring 7 (String.length h - 7) h))
              else map_get "pezhwan_access" (cookies req)
  | None => map_get "pezhwan_access" (cookies req)
  end.

Definition method_is (m : string) (i : IdentityContext) : bool := match ic_authMethod i with JStr s => String.eqb s m | _ => false end.
Definition machineIdentity (i : IdentityContext) : bool := method_is "service" i || method_is "api_key" i.
(** [tokenVersion ?? 0]; a value that is not a number equals no version, which a
    negative one stands for. *)
Definition token_version (i : IdentityContext) : Z :=
  match ic_tokenVersion i with None | Some JNull => 0 | Some (JNum n) => n | Some _ => -1 end.
Definition createAuthenticate : handler := λ req res,
  match extractToken req with
  | None => mret (req, res, Next)
  | Some token =>
    if String.eqb token "" then mret (req, res, Next)
    else
      verified ← try_catch (i ← verifyAccessToken ts token; mret (Some i)) (λ _, mret None);
      match verified with
      | None => mret (req, res, Next)
      | Some i =>
        valid ← (if machineIdentity i then mret (inr true)
                 else try_catch (b ← validate (ic_userId i) (token_version i); mret (inr b)) (λ e, mret (inl e)));
        match valid with
        | inl e => mret (req, res, NextError e)
        | inr false => mret (req, res, Next)
        | inr true => mret (req <| identity := Some i |>, res, Next)
        end
      end
  end.

Definition UNAUTHENTICATED : exn := AuthenticationError "Authentication required" "UNAUTHENTICATED".
(** [v.includes(s)] on a claim: of an array a member, of a string a part; any other
    value has no such method, and the exception reaches Express's error handling. *)
Definition json_includes (v : json) (s : string) : option bool :=
  match v with JArr l => Some (existsb (λ x, is_str x s) l) | JStr t => Some (includes s t) | _ => None end.
Definition not_a_method : exn := JsError "includes is not a function".
Definition claim_gate (v : json) (s : string) (refusal : exn) : outcome :=
  match json_includes v s with Some true => Next | Some false => NextError refusal | None => NextError not_a_method end.
Definition requireAuth : handler := λ req res,
  mret (req, res, if bool_decide (is_Some (identity req)) then Next else NextError UNAUTHENTICATED).
Definition role_required (roleName : string) : exn :=
  AuthorizationError ("Role " +:+ quoted roleName +:+ " required") "ROLE_REQUIRED".
Definition requireRole (roleName : string) : handler := λ req res,
  mret (req, res, match identity req with
                  | None => NextError UNAUTHENTICATED
                  | Some i => claim_gate (ic_roles i) roleName (role_required roleName)
                  end).
Definition permission_required (permission : string) : exn :=
  AuthorizationError ("Permission " +:+ quoted permission +:+ " required") "PERMISSION_REQUIRED".
Definition requirePermission (permission : string) : handler := λ req res,
  mret (req, res, match identity req with
                  | None => NextError UNAUTHENTICATED
                  | Some i => claim_gate (ic_permissions i) permission (permission_required permission)
                  end).

(** [FreshPermissionsMiddleware] of [core/src/middleware]: the two reads are started
    together and run one after the other here. *)
Definition authz_context (i : IdentityContext) : AuthzContext :=
  mkAuthzContext (ic_userId i) (ic_tenantId i) (ic_applicationId i).
Definition with_grants (roles : list RoleDoc) (permissions : list string) (i : IdentityContext) : IdentityContext :=
  mkIdentityContext (ic_userId i) (ic_tenantId i) (ic_applicationId i) (ic_sessionId i) (JArr (map (λ r, JStr (r_name r)) roles))
    (JArr (map JStr permissions)) (ic_authMethod i) (ic_authenticatedAt i) (ic_tokenVersion i) (ic_scope i) (ic_clientId i).
Definition is_array (v : json) : bool := match v with JArr _ => true | _ => false end.
Definition refresh (i : IdentityContext) : prog (world P) IdentityContext :=
  if machineIdentity i || negb (is_array (ic_roles i)) then mret i
  else
    roles ← getUserRoles (authz_context i);
    permissions ← getUserPermissions (authz_context i);
    mret (with_grants roles permissions i).
Definition require_permission (i : IdentityContext) (permission : string) : prog (world P) IdentityContext :=
  fresh ← refresh i;
  match json_includes (ic_permissions fresh) permission with
  | Some true => mret fresh
  | Some false => Throw (permission_required permission)
  | None => Throw not_a_method
  end.
Definition with_identity (p : IdentityContext → prog (world P) IdentityContext) : handler := λ req res,
  match identity req with
  | None => mret (req, res, NextError UNAUTHENTICATED)
  | Some i =>
    r ← try_catch (f ← p i; mret (inr f)) (λ e, mret (inl e));
    mret match r with
         | inl e => (req, res, NextError e)
         | inr f => (req <| identity := Some f |>, res, Next)
         end
  end.
Definition requireFreshPermissions : handler := with_identity refresh.
Definition requireFreshPermission (permission : string) : handler := with_identity (λ i, require_permission i permission).

(** [createAuthenticateApiKey], without the metric and the audit entry. *)
Definition extractApiKey (req : Request) : option string :=
  match map_get "x-api-key" (headers req) with Some k => nonempty k | None => None end.
Definition api_key_identity (k : ApiKeys.ApiKeyIdentity) (t : Z) : IdentityContext :=
  mkIdentityContext ("apikey:" +:+ ApiKeys.apiKeyId k) (ApiKeys.ki_tenantId k) (ApiKeys.ki_applicationId k) "" (JArr [])
    (JArr (map JStr (ApiKeys.ki_scopes k))) (JStr "api_key") t None (Some (JStr (String.concat " " (ApiKeys.ki_scopes k)))) None.
Definition createAuthenticateApiKey : handler := λ req res,
  match extractApiKey req with
  | None => mret (req, res, Next)
  | Some raw =>
    try_catch
      (result ← ApiKeys.authenticate raw;
       match result with
       | None => mret (req, res, Next)
       | Some k => t ← now; mret (req <| identity := Some (api_key_identity k t) |>, res, Next)
       end)
      (λ _, mret (req, res, Next))
  end.
Definition requireApiKey : handler := λ req res,
  mret (req, res, match identity req with
                  | Some i => if method_is "api_key" i then Next
                              else NextError (AuthenticationError "A valid API key is required" "API_KEY_REQUIRED")
                  | None => NextError (AuthenticationError "A valid API key is required" "API_KEY_REQUIRED")
                  end).

(** [rateLimit]. *)
Definition defaultScope (req : Request) : string := nullish (client_ip req) (nullish (remoteAddress req) "0.0.0.0").
Definition rateLimit (rl : RateLimitService) (type : RateLimitType) (scope : option (Request → string)) : handler := λ req res,
  try_catch
    (result ← consume rl type (nullish scope defaultScope req);
     let res := if rr_limit result =? MAX_SAFE_INTEGER then res
                else setHeader "X-RateLimit-Remaining" (js_String (remaining result))
                       (setHeader "X-RateLimit-Limit" (js_String (rr_limit result)) res) in
     if allowed result then mret (req, res, Next)
     else mret (req, setHeader "Retry-After" (js_String (Z.max 1 (ceil_div (retryAfterMs result) 1000))) res
                       <| res_status := Some 429 |>, Answered))
    (λ _, mret (req, res, Next)).

(** Handlers one after another, as a router runs them. *)
Fixpoint pipeline (hs : list handler) : handler := λ req res,
  match hs with
  | [] => mret (req, res, Next)
  | h :: hs =>
    r ← h req res;
    match r with
    | (req', res', Next) => pipeline hs req' res'
    | _ => mret r
    end
  end.
End authentication.

(** ** What the composed middleware promises *)
Section guarded.
Context {P : Platform} (ts : TokenService).

(** A claim that had to be present. *)
Lemma run_required_claim l k w w' s : run (required_claim l k) w = (w', inr s) → w' = w ∧ obj_get k l = Some (JStr s).
Proof. unfold required_claim. destruct (obj_get k l) as [[]|]; try done. by destruct (String.eqb _ ""); intros [= <- <-]. Qed.

(** An accepted access token is one its key verified, and its claims are the
    identity; verifying changes nothing. *)
Lemma verifyAccessToken_inv token w w' i :
  run (verifyAccessToken ts token) w = (w', inr i) →
  w' = w ∧ ∃ kid key claims,
    KeyStore.byKid (clock w) kid (keyStore w) = Some key ∧
    verifyToken token key (verify_options ts) (clock w) = inr claims ∧
    obj_get "sub" (fields claims) = Some (JStr (ic_userId i)) ∧
    obj_get "tenantId" (fields claims) = Some (JStr (ic_tenantId i)) ∧
    ic_permissions i = json_or (obj_get "permissions" (fields claims)) (JArr []).
Proof.
  unfold verifyAccessToken. intros Hr.
  apply run_bind_ok in Hr as (w1 & u1 & [_ ->]%run_throw_if_ok & Hr).
  destruct (parse _) as [header|]; [|done]. rewrite run_bind, run_ret in Hr.
  apply run_bind_ok in Hr as (w1 & key_id & Hkid & Hr).
  unfold lift_jwt in Hkid. destruct (get_prop header "kid") as [e|k]; [done|]. injection Hkid as <- ->.
  apply run_bind_ok in Hr as (w1 & u2 & [_ ->]%run_throw_if_ok & Hr).
  rewrite run_bind, run_now in Hr. apply run_bind_ok in Hr as (w1 & store & [= <- <-] & Hr).
  destruct key_id as [[]|]; try done.
  destruct (KeyStore.byKid _ _ _) as [key|] eqn:Hkey; [|done]. rewrite run_bind, run_ret, run_bind, run_now in Hr.
  destruct (verifyToken _ _ _ _) as [e|claims] eqn:Hv; [done|]. rewrite run_bind, run_ret in Hr.
  apply run_bind_ok in Hr as (w1 & sub & [-> Hsub]%run_required_claim & Hr).
  apply run_bind_ok in Hr as (w1 & tenant & [-> Ht]%run_required_claim & Hr).
  apply run_bind_ok in Hr as (w1 & app & [-> _]%run_required_claim & Hr).
  apply run_bind_ok in Hr as (w1 & sess & [-> _]%run_required_claim & Hr).
  destruct (obj_get "iat" _) as [[]|]; try done. injection Hr as <- <-. split; [done|]. by exists s, key, claims.
Qed.

Notation handler := (Request → Response → prog (world P) (Request * Response * outcome)).

(** Past a list of handlers is past its first and then past the others. *)
Lemma pipeline_next (h : handler) hs req res w w' req' res' :
  run (pipeline (h :: hs) req res) w = (w', inr (req', res', Next)) →
  ∃ w1 req1 res1, run (h req res) w = (w1, inr (req1, res1, Next)) ∧
    run (pipeline hs req1 res1) w1 = (w', inr (req', res', Next)).
Proof.
  intros Hr. apply run_bind_ok in Hr as (w1 & [[req1 res1] []] & H1 & H2); [|by injection H2..]. eauto.
Qed.

(** What [createAuthenticate] leaves on the request. *)
Lemma createAuthenticate_identity req res w w1 req1 res1 i :
  run (createAuthenticate ts req res) w = (w1, inr (req1, res1, Next)) → identity req = None → identity req1 = Some i →
  ∃ token, extractToken req = Some token ∧ run (verifyAccessToken ts token) w = (w, inr i) ∧
    (machineIdentity i = true ∧ w1 = w ∨ run (validate (ic_userId i) (token_version i)) w = (w1, inr true)).
Proof.
  unfold createAuthenticate. intros Hr Hn Hi. destruct (extractToken req) as [token|]; [|naive_solver].
  destruct (String.eqb token ""); [naive_solver|]. exists token. split; [done|].
  apply run_bind_ok in Hr as (w2 & verified & Hv & Hr).
  apply run_catch_ok in Hv as [(w3 & j & Hv & [-> ->]%run_ret_ok)%run_bind_ok|(w3 & e & _ & [-> ->]%run_ret_ok)]; [|naive_solver].
  pose proof (verifyAccessToken_inv _ _ _ _ Hv) as [-> _].
  apply run_bind_ok in Hr as (w2 & valid & Hm & Hr). destruct (machineIdentity j) eqn:Hmj.
  - apply run_ret_ok in Hm as [-> ->]. injection Hr as <- <- _. injection Hi as <-. split; [done|]. by left.
  - apply run_catch_ok in Hm as [(w3 & b & Hm & [-> ->]%run_ret_ok)%run_bind_ok|(w3 & e & _ & [-> ->]%run_ret_ok)]; [|naive_solver].
    destruct b; [|naive_solver]. injection Hr as <- <- _. injection Hi as <-. split; [done|]. by right.
Qed.

(** C5: A guarded route is reached by the right people only: when a request without
    an identity gets past [authenticate], [requireAuth] and [requirePermission], it
    carries an access token that a key of the store verified under the configured
    issuer and audience; the identity the handler sees is that of its claims; they
    hold the permission; and for a person the account was found valid, which on a
    healthy database and without a cached answer means it exists, is active and has
    the token's version. *)
Theorem authenticated_route_sound permission req res w w' req' res' :
  identity req = None →
  run (pipeline [createAuthenticate ts; requireAuth; requirePermission permission] req res) w = (w', inr (req', res', Next)) →
  ∃ token i kid key claims,
    extractToken req = Some token ∧ identity req' = Some i ∧
    KeyStore.byKid (clock w) kid (keyStore w) = Some key ∧
    verifyToken token key (verify_options ts) (clock w) = inr claims ∧
    obj_get "sub" (fields claims) = Some (JStr (ic_userId i)) ∧
    obj_get "tenantId" (fields claims) = Some (JStr (ic_tenantId i)) ∧
    json_includes (json_or (obj_get "permissions" (fields claims)) (JArr [])) permission = Some true ∧
    (machineIdentity i = true ∨
     run (validate (ic_userId i) (token_version i)) w = (w', inr true) ∧
     ((cache_get (account_cacheKey (ic_userId i)) (clock w) (redis w)).2 = None → healthy w →
      ∃ d, List.find (λ d, bool_decide (u_id d = ic_userId i)) (docs (users w)) = Some d ∧
           u_isActive d = true ∧ u_tokenVersion d = token_version i)).
Proof.
  intros Hn (w1 & req1 & res1 & Ha & Hr)%pipeline_next.
  apply pipeline_next in Hr as (w2 & req2 & res2 & Hq & Hr). apply pipeline_next in Hr as (w3 & req3 & res3 & Hp & Hr).
  injection Hr as -> -> ->. injection Hq as -> -> -> Hq. case_bool_decide as Hs; [|done]. destruct Hs as [i Hi].
  unfold requirePermission in Hp. rewrite Hi in Hp. injection Hp as -> -> -> Hp.
  apply createAuthenticate_identity with (i := i) in Ha as (token & Ht & Hv & Hm); [|done..].
  pose proof (verifyAccessToken_inv _ _ _ _ Hv) as (_ & kid & key & claims & Hk & Hc & Hsub & Hten & Hperm).
  exists token, i, kid, key, claims. do 6 (split; [done|]). split.
  { rewrite <- Hperm. unfold claim_gate in Hp. by destruct (json_includes _ _) as [[]|]. }
  destruct Hm as [[Hm _]|Hm]; [by left|right]. split; [done|]. intros Hg Hh.
  destruct (validate_decides (ic_userId i) (token_version i) w Hg) as [Hd _]. destruct (Hd Hh) as (w4 & b & Hr & Hb).
  rewrite Hr in Hm. injection Hm as _ ->. by apply Hb.
Qed.

(** A member of a printed list of names. *)
Lemma includes_names l p : json_includes (JArr (map JStr l)) p = Some (bool_decide (p ∈ l)).
Proof.
  cbn. f_equal. induction l as [|x l IH]; [done|]. cbn [existsb map]. rewrite IH. cbn [is_str].
  destruct (String.eqb_spec x p) as [->|Hne]; cbn [orb]; [by rewrite bool_decide_true by constructor|].
  apply bool_decide_ext. rewrite elem_of_cons. naive_solver.
Qed.

(** A fresh permission is one the database grants now: on a healthy database a
    request gets past [requireFreshPermission] exactly when its identity is a
    machine's (or carries no list of roles) and its own claims include the
    permission, or an assignment of the person leads through a role of the tenant
    and application to it; the claims the handler sees then are the granted names. *)
Theorem fresh_permission_current permission req res w i :
  identity req = Some i → healthy w →
  ∃ req' out, run (requireFreshPermission permission req res) w = (w, inr (req', res, out)) ∧
    (machineIdentity i = false → is_array (ic_roles i) = true →
       (out = Next ↔ grants (authz_context i) w permission) ∧
       (out = Next → ∃ i', identity req' = Some i' ∧ ic_userId i' = ic_userId i ∧
                    ∀ p, json_includes (ic_permissions i') p = Some true ↔ grants (authz_context i) w p)) ∧
    (machineIdentity i = true ∨ is_array (ic_roles i) = false →
       out = Next ↔ json_includes (ic_permissions i) permission = Some true).
Proof.
  intros Hi Hh. unfold requireFreshPermission, with_identity. rewrite Hi. cbv beta.
  rewrite run_bind, run_catch, run_bind. unfold require_permission at 1. rewrite run_bind. unfold refresh.
  destruct (machineIdentity i || negb (is_array (ic_roles i))) eqn:Hm.
  - rewrite run_ret. apply orb_true_iff in Hm. rewrite negb_true_iff in Hm.
    destruct (json_includes (ic_permissions i) permission) as [[]|]; do 2 eexists; (split; [reflexivity|]);
      (split; [intros Hf Ht; destruct Hm; congruence|intros _; split; congruence]).
  - apply orb_false_iff in Hm as [Hmi Har%negb_false_iff].
    rewrite run_bind, run_getUserRoles, run_bind, run_getUserPermissions, run_ret by done. cbn [ic_permissions with_grants].
    rewrite includes_names. pose proof (permissions_of_grants (authz_context i) w) as Hg.
    case_bool_decide as Hp; rewrite Hg in Hp; do 2 eexists; (split; [reflexivity|]); (split; [intros _ _|intros [?|?]; congruence]);
      [|split; [split; [done|tauto]|done]].
    split; [naive_solver|]. intros _. eexists. split; [reflexivity|]. split; [done|]. intros p.
    cbn [ic_permissions with_grants]. rewrite includes_names, <- Hg.
    case_bool_decide; naive_solver.
Qed.
End guarded.
