(* ===== verification/OAuth.v ===== *)
(** * OAuth 2.1 / OpenID Connect

    [packages/core/src/services/oauth.service.ts]: client registration, the
    authorization-code grant with PKCE, the refresh-token and client-credentials
    grants, and the discovery document. *)

From S2P Require Export Frames.

Section oauth.
Context {P : Platform}.

(** ** Strings *)
(** [s.split(/\s+/)]. *)
Fixpoint split_ws (s : string) : list string :=
  match s with
  | EmptyString => [EmptyString]
  | String c s' =>
    if js_is_space c then
      match s' with
      | String c' _ => if js_is_space c' then split_ws s' else EmptyString :: split_ws s'
      | EmptyString => EmptyString :: split_ws s'
      end
    else match split_ws s' with
         | x :: l => String c x :: l
         | [] => [String c EmptyString]
         end
  end.

(** [l.join(' ')]. *)
Definition join_space (l : list string) : string := String.concat " " l.

(** ** Data *)
Record OAuthService := mkOAuthService {
  oa_tokens : TokenService;
  oa_sessions : SessionService;
  oa_audit : option AuditService;
  oa_issuer : string;
}.

Record AuthorizeInput := mkAuthorizeInput {
  az_clientId : string; az_redirectUri : string; az_scope : string; az_nonce : option string;
  az_userId : string; az_sessionId : string; az_applicationId : string; az_tenantId : string;
  az_authMethod : AuthMethod; az_codeChallenge : option string; az_codeChallengeMethod : option string }.

Record ExchangeInput := mkExchangeInput {
  ex_grantType : string; ex_clientId : string; ex_clientSecret : option string; ex_code : option string;
  ex_redirectUri : option string; ex_codeVerifier : option string; ex_refreshToken : option string;
  ex_scope : option string; ex_tenantId : string; ex_applicationId : string;
  ex_ip : option string; ex_userAgent : option string; ex_deviceLabel : option string }.

Record TokenResponse := mkTokenResponse {
  tr_accessToken : string; tr_refreshToken : option string; tr_idToken : option string;
  tr_expiresIn : Z; tr_scope : string }.

Definition PkceMethod_string (m : PkceMethod) : string :=
  match m with pkce_S256 => "S256" | pkce_plain => "plain" | pkce_none => "none" end.

Definition OAUTH_INVALID_CLIENT (message : string) : exn := AuthenticationError message "INVALID_CLIENT".
Definition INVALID_GRANT (message : string) : exn := AuthenticationError message "INVALID_GRANT".
Definition INVALID_SCOPE : exn := ValidationError "Invalid scope" "INVALID_SCOPE".

(** [hashSecret], [constantHashMatch]. *)
Definition hashSecret (s : string) : string := to_base64 (createHash sha256 s).
Definition constantHashMatch (presented storedHash : string) : bool :=
  String.eqb (createHash sha256 presented) (from_base64 storedHash).

(** [findClient]. *)
Definition client_filter (clientId tenantId applicationId : string) (d : OAuthClientDoc) : bool :=
  bool_decide (c_clientId d = clientId) && bool_decide (c_tenantId d = tenantId) &&
  bool_decide (c_applicationId d = applicationId).
Definition findClient (clientId tenantId applicationId : string) : prog (world P) (option OAuthClientDoc) :=
  find_one (client_filter clientId tenantId applicationId).

(** [assertClientScope]. *)
Definition assertClientScope (client : OAuthClientDoc) (tenantId applicationId : string) : prog (world P) () :=
  throw_if (negb (bool_decide (c_tenantId client = tenantId)) ||
            negb (bool_decide (c_applicationId client = applicationId))) (OAUTH_INVALID_CLIENT "Invalid client").

(** [registerClient]. *)
Definition registerClient (tenantId applicationId name : string) (redirectUris : list string)
    (grants : list OAuthGrant) (scopes : option (list string)) (confidential : option bool)
    (clientSecret : option string) : prog (world P) (string * option string) :=
  let public := bool_decide (confidential = Some false) in
  clientId ← draw (λ i, "client_" +:+ to_base64url (randomBytes i 16));
  secret ← match clientSecret with
           | Some s => mret s
           | None => draw (λ i, to_base64url (randomBytes i 32))
           end;
  id ← draw newObjectId;
  create (mkOAuthClientDoc id tenantId applicationId name clientId
    (if public then None else Some (hashSecret secret)) redirectUris grants
    (if public then [pkce_S256] else [pkce_S256; pkce_plain])
    (nullish scopes ["openid"; "profile"; "email"]%string) true (negb public)
    (if public then auth_none else client_secret_post)) ;;
  mret (clientId, if public then None else Some secret).

Definition client_failed (o : OAuthService) (clientId : string) : prog (world P) () :=
  audit_log (oa_audit o) (audit_event "OAUTH_CLIENT_AUTH_FAILED" None None None [("clientId", JStr clientId)]%string).

(** [authenticateClientAtTokenEndpoint]. *)
Definition authenticateClient (o : OAuthService) (clientId : string) (clientSecret : option string)
    (tenantId applicationId : string) : prog (world P) OAuthClientDoc :=
  client ← findClient clientId tenantId applicationId;
  match client with
  | None => client_failed o clientId ;; Throw (OAUTH_INVALID_CLIENT "Invalid client")
  | Some c =>
    if negb (c_isActive c) then client_failed o clientId ;; Throw (OAUTH_INVALID_CLIENT "Invalid client")
    else match c_tokenEndpointAuthMethod c with
         | auth_none => mret c
         | _ =>
           throw_if (negb (truthy clientSecret)) (OAUTH_INVALID_CLIENT "Client authentication required") ;;
           if negb (truthy (c_clientSecretHash c)) ||
              negb (constantHashMatch (nullish clientSecret "") (nullish (c_clientSecretHash c) ""))
           then client_failed o clientId ;; Throw (OAUTH_INVALID_CLIENT "Invalid client")
           else mret c
         end
  end.

(** [authorizeCode]. *)
Definition requested_scopes (scope : string) : list string :=
  if String.eqb scope "" then ["openid"]%string else split_ws scope.
Definition CODE_TTL_SECONDS : Z := 10 * 60.
Definition pkce_method (m : option string) : string := nullish m "S256".

Definition issued_code (i : AuthorizeInput) (id raw : string) (granted : list string) (expiresAt : Z) :
    AuthorizationCodeDoc :=
  mkAuthorizationCodeDoc id (hashSecret raw) (az_tenantId i) (az_applicationId i) (az_clientId i)
    (az_userId i) (az_sessionId i) (az_redirectUri i) granted (az_codeChallenge i)
    (Some (if String.eqb (pkce_method (az_codeChallengeMethod i)) "plain" then pkce_plain else pkce_S256))
    (az_nonce i) (az_authMethod i) expiresAt None.

Definition UNKNOWN_CLIENT : exn := ValidationError "Unknown client" "UNKNOWN_CLIENT".
Definition authorizeCode (o : OAuthService) (i : AuthorizeInput) : prog (world P) (string * Z) :=
  client ← findClient (az_clientId i) (az_tenantId i) (az_applicationId i);
  match client with
  | None => Throw UNKNOWN_CLIENT
  | Some c =>
    throw_if (negb (c_isActive c)) UNKNOWN_CLIENT ;;
    assertClientScope c (az_tenantId i) (az_applicationId i) ;;
    (if negb (bool_decide (az_redirectUri i ∈ c_redirectUris c)) then
       audit_log (oa_audit o) (audit_event "OAUTH_REDIRECT_URI_MISMATCH" None None (Some (az_userId i))
         [("clientId", JStr (az_clientId i)); ("redirectUri", JStr (az_redirectUri i))]%string) ;;
       Throw (ValidationError "Invalid redirect_uri" "INVALID_REDIRECT_URI")
     else mret tt) ;;
    throw_if (negb (bool_decide (authorization_code ∈ c_grants c)))
      (ValidationError "Client does not allow authorization_code grant" "UNSUPPORTED_GRANT") ;;
    let granted := requested_scopes (az_scope i) in
    throw_if (existsb (λ s, negb (bool_decide (s ∈ c_scopes c))) granted) INVALID_SCOPE ;;
    throw_if (negb (truthy (az_codeChallenge i))) (ValidationError "code_challenge is required" "PKCE_REQUIRED") ;;
    throw_if (negb (existsb (λ m, String.eqb (PkceMethod_string m) (pkce_method (az_codeChallengeMethod i)))
                            (c_pkceMethods c)))
      (ValidationError "Unsupported code_challenge_method" "INVALID_PKCE_METHOD") ;;
    raw ← draw (λ i, to_base64url (randomBytes i 32));
    t ← now;
    id ← draw newObjectId;
    create (issued_code i id raw granted (t + CODE_TTL_SECONDS * 1000)) ;;
    audit_log (oa_audit o) (audit_event "OAUTH_AUTHORIZE" (Some (c_tenantId c)) (Some (c_applicationId c))
      (Some (az_userId i)) [("clientId", JStr (az_clientId i)); ("scope", JArr (map JStr granted))]%string) ;;
    mret (raw, CODE_TTL_SECONDS)
  end.

(** [verifyPkce]. *)
Definition verifyPkce (verifier challenge : string) (method : option PkceMethod) : bool :=
  match method with
  | Some pkce_S256 => String.eqb (to_base64url (createHash sha256 verifier)) challenge
  | _ => String.eqb verifier challenge
  end.

(** The filter of the code look-up, and of the atomic redemption. *)
Definition code_filter (codeHash clientId tenantId applicationId : string) (d : AuthorizationCodeDoc) : bool :=
  bool_decide (a_codeHash d = codeHash) && bool_decide (a_clientId d = clientId) &&
  bool_decide (a_tenantId d = tenantId) && bool_decide (a_applicationId d = applicationId) &&
  bool_decide (a_consumedAt d = None).
Definition consume_code (t : Z) (d : AuthorizationCodeDoc) : AuthorizationCodeDoc := d <| a_consumedAt := Some t |>.

Definition code_identity (d : AuthorizationCodeDoc) (sessionId : string) : AccessContext :=
  mkAccessContext (a_userId d) (a_tenantId d) (a_applicationId d) sessionId [] [] (a_authMethod d)
    (Some (if String.eqb (join_space (a_scope d)) "" then "openid" else join_space (a_scope d))%string)
    (Some (a_clientId d)) None.

(** Everything before the atomic redemption. *)
Definition check_code (o : OAuthService) (client : OAuthClientDoc) (i : ExchangeInput) :
    prog (world P) AuthorizationCodeDoc :=
  throw_if (negb (truthy (ex_code i))) (ValidationError "code is required" "INVALID_GRANT") ;;
  let codeHash := hashSecret (nullish (ex_code i) "") in
  codeDoc ← find_one (code_filter codeHash (c_clientId client) (ex_tenantId i) (ex_applicationId i));
  match codeDoc with
  | None => Throw (INVALID_GRANT "Invalid or expired code")
  | Some d =>
    t ← now;
    throw_if (a_expiresAt d <? t) (INVALID_GRANT "Code expired") ;;
    throw_if (negb (bool_decide (ex_redirectUri i = Some (a_redirectUri d)))) (INVALID_GRANT "redirect_uri mismatch") ;;
    (if truthy (a_codeChallenge d) then
       throw_if (negb (truthy (ex_codeVerifier i))) (INVALID_GRANT "code_verifier required") ;;
       if negb (verifyPkce (nullish (ex_codeVerifier i) "") (nullish (a_codeChallenge d) "") (a_codeChallengeMethod d))
       then
         audit_log (oa_audit o) (audit_event "OAUTH_PKCE_FAILED" (Some (a_tenantId d)) (Some (a_applicationId d))
           (Some (a_userId d)) [("clientId", JStr (a_clientId d))]%string) ;;
         revoke (a_sessionId d) ;;
         Throw (INVALID_GRANT "PKCE verification failed")
       else mret tt
     else mret tt) ;;
    mret d
  end.

Definition session_context (userId tenantId applicationId : string) (i : ExchangeInput) : SessionContext :=
  mkSessionContext userId tenantId applicationId (ex_ip i) (ex_userAgent i) (ex_deviceLabel i).

Definition grant_event (eventType grantType : string) (userId tenantId applicationId sessionId clientId : string) :
    AuditEntryInput :=
  mkAuditEntryInput eventType None (Some tenantId) (Some applicationId) (Some userId) (Some sessionId) None None
    (Some [("grantType", JStr grantType); ("clientId", JStr clientId)]%string).

(** [exchangeAuthorizationCode]. *)
Definition exchangeAuthorizationCode (o : OAuthService) (client : OAuthClientDoc) (i : ExchangeInput) :
    prog (world P) TokenResponse :=
  d ← check_code o client i;
  t ← now;
  consumed ← find_one_and_update
    (λ x, bool_decide (a_id x = a_id d) &&
          code_filter (hashSecret (nullish (ex_code i) "")) (c_clientId client) (ex_tenantId i) (ex_applicationId i) x)
    (consume_code t);
  throw_if (bool_decide (consumed = None)) (INVALID_GRANT "Code already used") ;;
  session ← create_session (oa_sessions o) (session_context (a_userId d) (a_tenantId d) (a_applicationId d) i);
  accessToken ← signAccessToken (oa_tokens o) (code_identity d (cs_sessionId session));
  idToken ← (if bool_decide ("openid" ∈ a_scope d) then
               tok ← signIdToken (oa_tokens o) (mkIdTokenInput (a_userId d) (a_tenantId d) (a_applicationId d)
                       (cs_sessionId session) (a_nonce d) (join_space (a_scope d)) (a_clientId d));
               mret (Some tok)
             else mret None);
  audit_log (oa_audit o) (grant_event "OAUTH_TOKEN_ISSUED" "authorization_code" (a_userId d) (a_tenantId d)
    (a_applicationId d) (cs_sessionId session) (a_clientId d)) ;;
  mret (mkTokenResponse accessToken (Some (cs_refreshToken session)) idToken (ts_accessTokenTtlMs (oa_tokens o))
    (if String.eqb (join_space (a_scope d)) "" then "openid" else join_space (a_scope d))%string).

(** [exchangeRefreshToken]. *)
Definition exchangeRefreshToken (o : OAuthService) (client : OAuthClientDoc) (i : ExchangeInput) :
    prog (world P) TokenResponse :=
  throw_if (negb (bool_decide (refresh_token ∈ c_grants client)))
    (ValidationError "Client does not allow refresh_token grant" "UNSUPPORTED_GRANT") ;;
  throw_if (negb (truthy (ex_refreshToken i))) (ValidationError "refresh_token required" "INVALID_GRANT") ;;
  session ← refresh (oa_sessions o) (nullish (ex_refreshToken i) "")
    (mkRefreshContext (ex_ip i) (ex_userAgent i) (ex_deviceLabel i) (Some (ex_tenantId i)) (Some (ex_applicationId i)));
  accessToken ← signAccessToken (oa_tokens o) (mkAccessContext (cs_userId session) (cs_tenantId session)
    (cs_applicationId session) (cs_sessionId session) [] [] am_oauth None (Some (c_clientId client)) None);
  audit_log (oa_audit o) (grant_event "REFRESH_TOKEN_ROTATED" "refresh_token" (cs_userId session)
    (cs_tenantId session) (cs_applicationId session) (cs_sessionId session) (c_clientId client)) ;;
  mret (mkTokenResponse accessToken (Some (cs_refreshToken session)) None (ts_accessTokenTtlMs (oa_tokens o)) "openid").

(** [exchangeClientCredentials]. *)
Definition service_scopes (scope : option string) : list string := split_ws (js_trim (nullish scope "default")).
Definition exchangeClientCredentials (o : OAuthService) (client : OAuthClientDoc) (i : ExchangeInput) :
    prog (world P) TokenResponse :=
  throw_if (negb (bool_decide (client_credentials ∈ c_grants client)))
    (ValidationError "Client does not allow client_credentials grant" "UNSUPPORTED_GRANT") ;;
  let requested := service_scopes (ex_scope i) in
  throw_if (existsb (λ s, negb (bool_decide (s ∈ c_scopes client))) requested) INVALID_SCOPE ;;
  let scope := join_space requested in
  sessionId ← draw randomUUID;
  accessToken ← signAccessToken (oa_tokens o) (mkAccessContext ("client:" +:+ c_clientId client) (ex_tenantId i)
    (ex_applicationId i) sessionId ["SERVICE"]%string [] am_service (Some scope) (Some (c_clientId client)) None);
  audit_log (oa_audit o) (audit_event "SERVICE_AUTHENTICATED" (Some (ex_tenantId i)) (Some (ex_applicationId i)) None
    [("clientId", JStr (c_clientId client)); ("scope", JStr scope)]%string) ;;
  mret (mkTokenResponse accessToken None None 900 scope).

(** [exchange]. *)
Definition exchange (o : OAuthService) (i : ExchangeInput) : prog (world P) TokenResponse :=
  client ← authenticateClient o (ex_clientId i) (ex_clientSecret i) (ex_tenantId i) (ex_applicationId i);
  assertClientScope client (ex_tenantId i) (ex_applicationId i) ;;
  if String.eqb (ex_grantType i) "authorization_code" then exchangeAuthorizationCode o client i
  else if String.eqb (ex_grantType i) "refresh_token" then exchangeRefreshToken o client i
  else if String.eqb (ex_grantType i) "client_credentials" then exchangeClientCredentials o client i
  else Throw (ValidationError "Unsupported grant type" "UNSUPPORTED_GRANT").

(** [discovery]. *)
Definition discovery (o : OAuthService) : list (string * json) :=
  let strs l := JArr (map JStr l) in
  [("issuer", JStr (oa_issuer o)); ("authorization_endpoint", JStr (oa_issuer o +:+ "/v1/oauth/authorize"));
   ("token_endpoint", JStr (oa_issuer o +:+ "/v1/oauth/token"));
   ("jwks_uri", JStr (oa_issuer o +:+ "/.well-known/jwks.json"));
   ("response_types_supported", strs ["code"]);
   ("grant_types_supported", strs ["authorization_code"; "refresh_token"; "client_credentials"]);
   ("subject_types_supported", strs ["public"]);
   ("id_token_signing_alg_values_supported", strs ["RS256"]);
   ("token_endpoint_auth_methods_supported", strs ["client_secret_basic"; "client_secret_post"; "none"]);
   ("code_challenge_methods_supported", strs ["S256"]); ("scopes_supported", strs ["openid"; "profile"; "email"]);
   ("claims_supported", strs ["sub"; "iss"; "aud"; "exp"; "iat"; "nonce"])]%string.
End oauth.

(** ** Commands that leave codes and clients alone *)
Section handlers_kept.
Context {P : Platform} (o : OAuthService).

Lemma ak_clients (d : OAuthClientDoc) :
  guarantee (λ w w' : world P, authorizationCodes w' = authorizationCodes w ∧ draws w' = draws w) (create d).
Proof.
  apply guarantee_store_op; [|done|].
  - split; [done|]. intros w1 w2 w3 [H1 H2] [H3 H4]. split; congruence.
  - intros w. unfold insert_doc. by destruct (m_insert _ _ _).
Qed.
#[local] Opaque refresh create_session signAccessToken signIdToken revoke.

Lemma ak_authenticateClient c s t a : guarantee (W := world P) accounts_kept (authenticateClient o c s t a).
Proof. unfold authenticateClient, findClient, client_failed. solve_guarantee. Qed.
Lemma ak_check_code c i : guarantee (W := world P) accounts_kept (check_code o c i).
Proof. unfold check_code. solve_guarantee. Qed.
Lemma ak_exchangeRefreshToken c i : guarantee (W := world P) accounts_kept (exchangeRefreshToken o c i).
Proof. unfold exchangeRefreshToken. solve_guarantee. Qed.
Lemma ak_exchangeClientCredentials c i : guarantee (W := world P) accounts_kept (exchangeClientCredentials o c i).
Proof. unfold exchangeClientCredentials. solve_guarantee. Qed.
End handlers_kept.

(** ** A code is redeemed at most once *)
Section code_requests.
Context {P : Platform} (o : OAuthService).

Inductive oauth_request :=
| RegisterClient (tenantId applicationId name : string) (redirectUris : list string) (grants : list OAuthGrant)
    (scopes : option (list string)) (confidential : option bool) (clientSecret : option string)
| AuthorizeCode (i : AuthorizeInput)
| Exchange (i : ExchangeInput)
| RevokeSession (sessionId : string).

Inductive oauth_response :=
| Registered (r : string * option string)
| Code (r : string * Z)
| Tokens (r : TokenResponse)
| SessionRevoked.

Definition serve_oauth (r : oauth_request) : prog (world P) (oauth_request * oauth_response) :=
  match r with
  | RegisterClient t a n u g s c k => x ← registerClient t a n u g s c k; mret (r, Registered x)
  | AuthorizeCode i => x ← authorizeCode o i; mret (r, Code x)
  | Exchange i => x ← exchange o i; mret (r, Tokens x)
  | RevokeSession s => revoke s ;; mret (r, SessionRevoked)
  end.
End code_requests.

Section code_single_use.
Context {P : Platform} (o : OAuthService) (h : string) (n0 : nat).

(** The codes with hash [h] that can still be redeemed. *)
Definition live_code (d : AuthorizationCodeDoc) : bool :=
  bool_decide (a_codeHash d = h) && bool_decide (a_consumedAt d = None).
(** Codes drawn from the [n0]-th draw on do not hash to [h]. *)
Definition code_fresh_from : Prop := ∀ i, (n0 ≤ i)%nat → hashSecret (to_base64url (randomBytes i 32)) ≠ h.

Definition code_redeemed (r : oauth_request * oauth_response) : bool :=
  match r with
  | (Exchange i, Tokens _) => String.eqb (ex_grantType i) "authorization_code" &&
                              bool_decide (hashSecret (nullish (ex_code i) "") = h)
  | _ => false
  end.

Lemma stock_accounts_kept {A} (p : prog (world P) A) :
  guarantee accounts_kept p → harmless (drawn n0) (stock live_code) p.
Proof.
  intros Hp. apply guarantee_harmless. eapply guarantee_mono; [|exact Hp].
  intros w w' Hk. pose proof Hk as (_ & _ & Hd & _). apply stock_other; [apply (kept_codes _ _ Hk)|done].
Qed.

Lemma harmless_authorizeCode i : code_fresh_from → harmless (drawn n0) (stock live_code) (authorizeCode o i).
Proof.
  intros Hf. unfold authorizeCode. apply harmless_bind; [apply stock_accounts_kept, ak_read|].
  intros [c|]; [|done]. apply harmless_bind; [apply harmless_throw_if|]. intros _.
  apply harmless_bind; [apply harmless_throw_if|]. intros _. apply harmless_bind.
  { destruct (negb _); [|done]. apply harmless_bind; [apply stock_accounts_kept, ak_audit|]. done. }
  intros _. do 4 (apply harmless_bind; [apply harmless_throw_if|]; intros _).
  apply pays_bind, pays_atom. intros w Hw. cbn [fst snd pays]. split; [unfold drawn in *; cbn; lia|].
  exists 0%nat. split; [done|]. specialize (Hf (draws w) Hw). apply guarantee_harmless.
  apply guarantee_bind; [apply g_now|]. intros t. apply guarantee_bind; [apply g_draw|]. intros id.
  apply guarantee_bind; [|intros _; apply guarantee_bind; [|done]].
  - apply g_create. unfold live_code. cbn. by rewrite bool_decide_false.
  - eapply guarantee_mono; [|apply ak_audit]. intros v v' Hk. pose proof Hk as (_ & _ & Hd & _). apply stock_other; [apply (kept_codes _ _ Hk)|done].
Qed.

Lemma pays_exchangeCode c i :
  pays (drawn n0) (stock live_code) 0 (exchangeAuthorizationCode o c i) (λ r m, match r with
    inr _ => hashSecret (nullish (ex_code i) "") = h → (1 ≤ m)%nat | inl _ => True end).
Proof.
  unfold exchangeAuthorizationCode. apply pays_harmless_bind; [apply stock_accounts_kept, ak_check_code|done|].
  intros m d _. apply pays_harmless_bind; [apply stock_accounts_kept, ak_now|done|]. intros m' t _.
  assert (∀ n (e : CreatedSession → prog (world P) TokenResponse), (∀ s, harmless (drawn n0) (stock live_code) (e s)) →
    (hashSecret (nullish (ex_code i) "") = h → (1 ≤ n)%nat) →
    pays (drawn n0) (stock live_code) n
      (session ← create_session (oa_sessions o) (session_context (a_userId d) (a_tenantId d) (a_applicationId d) i); e session)
      (λ r m, match r with inr _ => hashSecret (nullish (ex_code i) "") = h → (1 ≤ m)%nat | inl _ => True end)) as Hrest.
  { intros n e He Hn. apply pays_harmless.
    - apply harmless_bind; [apply stock_accounts_kept, ak_create_session|done].
    - intros [x|x] k Hk; [done|]. intros Hh. specialize (Hn Hh). lia. }
  assert (∀ s, harmless (drawn n0) (stock live_code) (
    accessToken ← signAccessToken (oa_tokens o) (code_identity d (cs_sessionId s));
    idToken ← (if bool_decide ("openid" ∈ a_scope d) then
                 tok ← signIdToken (oa_tokens o) (mkIdTokenInput (a_userId d) (a_tenantId d) (a_applicationId d)
                         (cs_sessionId s) (a_nonce d) (join_space (a_scope d)) (a_clientId d));
                 mret (Some tok)
               else mret None);
    audit_log (oa_audit o) (grant_event "OAUTH_TOKEN_ISSUED" "authorization_code" (a_userId d) (a_tenantId d)
      (a_applicationId d) (cs_sessionId s) (a_clientId d)) ;;
    mret (mkTokenResponse accessToken (Some (cs_refreshToken s)) idToken (ts_accessTokenTtlMs (oa_tokens o))
      (if String.eqb (join_space (a_scope d)) "" then "openid" else join_space (a_scope d))%string))) as Htail.
  { intros s. apply stock_accounts_kept. apply guarantee_bind; [apply ak_signAccessToken|]. intros tok.
    apply guarantee_bind; [|intros id; apply guarantee_bind; [apply ak_audit|done]].
    destruct (bool_decide _); [|done]. apply guarantee_bind; [apply ak_signIdToken|done]. }
  destruct (decide (hashSecret (nullish (ex_code i) "") = h)) as [Hh|Hh].
  - apply pays_bind. eapply pays_mono; [apply (pays_frame _ _ _ 0 m'), pays_redeem|].
    + intros x Hx. unfold code_filter in Hx. bool_to_prop. unfold live_code.
      rewrite !bool_decide_true by congruence. done.
    + intros x. unfold live_code. cbn. by rewrite andb_false_r.
    + intros [e|[x|]] n (n' & -> & Hn); [done| |done]. apply (Hrest _ _ Htail). lia.
  - apply pays_harmless_bind; [|done|].
    + apply guarantee_harmless, g_find_one_and_update. intros x. unfold live_code. cbn. by rewrite andb_false_r.
    + intros k [x|] _; [|done]. by apply (Hrest _ _ Htail).
Qed.

Lemma pays_serve_oauth r :
  code_fresh_from → pays (drawn n0) (stock live_code) 0 (serve_oauth o r) (won code_redeemed).
Proof.
  intros Hf. destruct r as [t a n u g s c k|i|i|s]; cbn [serve_oauth]; apply pays_bind.
  - apply pays_harmless; [|by intros [e|x] m _]. apply guarantee_harmless.
    unfold registerClient. apply guarantee_bind; [apply g_draw|]. intros id.
    apply guarantee_bind; [destruct k; [done|apply g_draw]|]. intros sec. apply guarantee_bind; [apply g_draw|].
    intros oid. apply guarantee_bind; [|done]. eapply guarantee_mono; [|apply (ak_clients (mkOAuthClientDoc _ _ _ _ _ _ _ _ _ _ _ _ _))].
    intros w w' [Hc Hd]. apply stock_other; [done|lia].
  - apply pays_harmless; [by apply harmless_authorizeCode|]. by intros [e|x] m _.
  - unfold exchange. apply pays_harmless_bind; [apply stock_accounts_kept, ak_authenticateClient|done|].
    intros m c _. apply pays_harmless_bind; [apply harmless_throw_if|done|]. intros m' [] _.
    destruct (String.eqb (ex_grantType i) "authorization_code") eqn:Hg.
    + eapply pays_mono; [apply (pays_frame _ _ _ 0 m'), pays_exchangeCode|]. intros [e|x] k (k' & -> & Hk); [done|].
      cbn. rewrite Hg. intros Hw%bool_decide_eq_true. specialize (Hk Hw). lia.
    + assert (∀ p : prog (world P) TokenResponse, harmless (drawn n0) (stock live_code) p →
        pays (drawn n0) (stock live_code) m' p (λ r k, match r with
          inr a => pays (drawn n0) (stock live_code) k (mret (Exchange i, Tokens a)) (won code_redeemed)
        | inl e => won code_redeemed (inl e) k end)) as Hother.
      { intros p Hp. apply pays_harmless; [done|]. intros [e|x] k _; [done|]. cbn. by rewrite Hg. }
      destruct (String.eqb _ "refresh_token"); [apply Hother, stock_accounts_kept, ak_exchangeRefreshToken|].
      destruct (String.eqb _ "client_credentials"); [apply Hother, stock_accounts_kept, ak_exchangeClientCredentials|done].
  - apply pays_harmless; [|by intros [e|x] m _]. apply stock_accounts_kept, ak_revoke.
Qed.
End code_single_use.

(** ** What a successful exchange implies *)
Section soundness.
Context {P : Platform} (o : OAuthService).

Definition client_authenticated (i : ExchangeInput) (c : OAuthClientDoc) : Prop :=
  c_clientId c = ex_clientId i ∧ c_tenantId c = ex_tenantId i ∧ c_applicationId c = ex_applicationId i ∧
  c_isActive c = true ∧
  (c_tokenEndpointAuthMethod c = auth_none ∨
   ∃ secret stored, ex_clientSecret i = Some secret ∧ c_clientSecretHash c = Some stored ∧
     createHash sha256 secret = from_base64 stored).

(** The code [i] presents may be redeemed at time [t]. *)
Definition code_redeemable (i : ExchangeInput) (t : Z) (d : AuthorizationCodeDoc) : Prop :=
  a_codeHash d = hashSecret (nullish (ex_code i) "") ∧ a_clientId d = ex_clientId i ∧
  a_tenantId d = ex_tenantId i ∧ a_applicationId d = ex_applicationId i ∧ a_consumedAt d = None ∧
  t <= a_expiresAt d ∧ ex_redirectUri i = Some (a_redirectUri d) ∧
  ∀ challenge, a_codeChallenge d = Some challenge → challenge ≠ "" →
    ∃ verifier, ex_codeVerifier i = Some verifier ∧ verifyPkce verifier challenge (a_codeChallengeMethod d) = true.

Lemma authenticateClient_ok i w w' c :
  run (authenticateClient o (ex_clientId i) (ex_clientSecret i) (ex_tenantId i) (ex_applicationId i)) w = (w', inr c) →
  In c (docs (oauthClients w)) ∧ client_authenticated i c ∧ ∃ fs, w' = w <| faults := fs |>.
Proof.
  intros (w1 & r & Hf & Hr)%run_bind_ok. apply run_find_one_ok in Hf as [-> (fs & -> & _)].
  change (tbl w) with (oauthClients w) in Hr.
  destruct (List.find _ (docs (oauthClients w))) as [d|] eqn:Hd.
  2:{ by apply run_bind_ok in Hr as (w2 & u & _ & Hr). }
  apply find_some in Hd as [Hin Hd]. unfold client_filter in Hd. bool_to_prop.
  destruct (c_isActive d) eqn:Ha; [|by apply run_bind_ok in Hr as (w2 & u & _ & Hr)]. cbn [negb] in Hr.
  assert (c_tokenEndpointAuthMethod d = auth_none ∧ run (mret d) (w <| faults := fs |>) = (w', inr c) ∨
    run (throw_if (negb (truthy (ex_clientSecret i))) (OAUTH_INVALID_CLIENT "Client authentication required") ;;
      if negb (truthy (c_clientSecretHash d)) ||
         negb (constantHashMatch (nullish (ex_clientSecret i) "") (nullish (c_clientSecretHash d) ""))
      then client_failed o (ex_clientId i) ;; Throw (OAUTH_INVALID_CLIENT "Invalid client")
      else mret d) (w <| faults := fs |>) = (w', inr c)) as [[Hm Hret]|Hsec].
  { destruct (c_tokenEndpointAuthMethod d); auto. }
  - apply run_ret_ok in Hret as [-> ->]. split; [done|]. split; [|eauto].
    unfold client_authenticated. auto 6.
  - apply run_bind_ok in Hsec as (w2 & [] & Ht & Hsec). apply run_throw_if_ok in Ht as [Ht ->].
    apply negb_false_iff, truthy_some in Ht as (secret & Hsecret & _). rewrite Hsecret in Hsec.
    destruct (negb (truthy (c_clientSecretHash d)) || _) eqn:Hor in Hsec; [by apply run_bind_ok in Hsec as (w2 & u & _ & Hsec)|].
    apply run_ret_ok in Hsec as [-> ->]. apply orb_false_iff in Hor as [Hx%negb_false_iff Hy%negb_false_iff].
    apply truthy_some in Hx as (stored & Hstored & _). rewrite Hstored in Hy.
    apply String.eqb_eq in Hy. split; [done|]. split; [|eauto].
    unfold client_authenticated. do 4 (split; [done|]). right. by exists secret, stored.
Qed.

Lemma check_code_ok c i w w' d :
  c_clientId c = ex_clientId i → run (check_code o c i) w = (w', inr d) →
  In d (docs (authorizationCodes w)) ∧ code_redeemable i (clock w) d ∧ ∃ fs, w' = w <| faults := fs |>.
Proof.
  intros Hc. unfold check_code. intros (w1 & [] & Ht & Hr)%run_bind_ok.
  apply run_throw_if_ok in Ht as [_ ->]. apply run_bind_ok in Hr as (w1 & r & Hf & Hr).
  apply run_find_one_ok in Hf as [-> (fs & -> & _)]. change (tbl w) with (authorizationCodes w) in Hr.
  destruct (List.find _ (docs (authorizationCodes w))) as [x|] eqn:Hd; [|done].
  apply find_some in Hd as [Hin Hd]. unfold code_filter in Hd. bool_to_prop.
  rewrite run_bind, run_now in Hr. cbn [clock set_field] in Hr.
  apply run_bind_ok in Hr as (w1 & [] & [Hexp ->]%run_throw_if_ok & Hr).
  apply run_bind_ok in Hr as (w1 & [] & [Huri ->]%run_throw_if_ok & Hr).
  apply negb_false_iff, bool_decide_eq_true in Huri. apply Z.ltb_ge in Hexp.
  apply run_bind_ok in Hr as (w1 & [] & Hp & Hr). apply run_ret_ok in Hr as [-> ->].
  assert (w1 = w <| faults := fs |> ∧ ∀ challenge, a_codeChallenge x = Some challenge → challenge ≠ "" →
    ∃ verifier, ex_codeVerifier i = Some verifier ∧ verifyPkce verifier challenge (a_codeChallengeMethod x) = true)
    as [-> Hpkce].
  { destruct (truthy (a_codeChallenge x)) eqn:Hch.
    - apply run_bind_ok in Hp as (w2 & [] & [Hv ->]%run_throw_if_ok & Hp).
      apply negb_false_iff, truthy_some in Hv as (v & Hv & _). rewrite Hv in Hp |- *.
      destruct (negb (verifyPkce _ _ _)) eqn:Hok in Hp; [by apply run_bind_ok in Hp as (w2 & u & _ & (w3 & u' & _ & Hp)%run_bind_ok)|].
      apply run_ret_ok in Hp as [-> _]. split; [done|]. intros ch Hc' _. exists v. split; [done|].
      apply negb_false_iff in Hok. by rewrite Hc' in Hok.
    - apply run_ret_ok in Hp as [-> _]. split; [done|]. intros ch Hc' Hne. rewrite Hc' in Hch. cbn in Hch. by destruct ch. }
  split; [done|]. split; [|eauto]. unfold code_redeemable. repeat (split; [congruence || done|]). done.
Qed.

(** The exchange behind [grant_type=authorization_code]. *)
Lemma exchangeAuthorizationCode_ok c i w w' tr :
  c_clientId c = ex_clientId i → run (exchangeAuthorizationCode o c i) w = (w', inr tr) →
  ∃ d, In d (docs (authorizationCodes w)) ∧ code_redeemable i (clock w) d ∧
    (bool_decide ("openid" ∈ a_scope d) = bool_decide (tr_idToken tr ≠ None)) ∧
    docs (authorizationCodes w') =
      alter_first (λ x, bool_decide (a_id x = a_id d) && code_filter (a_codeHash d) (a_clientId d) (a_tenantId d)
        (a_applicationId d) x) (consume_code (clock w)) (docs (authorizationCodes w)).
Proof.
  intros Hc (w1 & d & Hd & Hr)%run_bind_ok. destruct (check_code_ok c i w w1 d Hc Hd) as (Hin & Hok & fs & ->).
  exists d. split; [done|]. split; [done|]. rewrite run_bind, run_now in Hr. cbn [clock set_field] in Hr.
  apply run_bind_ok in Hr as (w1 & cons & Hcons & Hr). apply run_store_op_ok in Hcons as (fs' & Hcons & _).
  apply run_bind_ok in Hr as (w2 & [] & [_ ->]%run_throw_if_ok & Hr).
  destruct Hok as (Hh & Hcl & Ht & Ha & _). rewrite Hh, Hcl, Ht, Ha. rewrite Hc in Hcons.
  assert (docs (authorizationCodes w1) = alter_first (λ x, bool_decide (a_id x = a_id d) &&
    code_filter (hashSecret (nullish (ex_code i) "")) (ex_clientId i) (ex_tenantId i) (ex_applicationId i) x)
    (consume_code (clock w)) (docs (authorizationCodes w))) as Hw1.
  { injection Hcons as <- _. cbn. by rewrite m_update_one_law. }
  apply run_bind_ok in Hr as (w2 & s & Hs & Hr). apply run_bind_ok in Hr as (w3 & tok & Htok & Hr).
  apply run_bind_ok in Hr as (w4 & idt & Hidt & Hr). apply run_bind_ok in Hr as (w5 & [] & Hlog & Hr).
  apply run_ret_ok in Hr as [-> ->]. cbn [tr_idToken]. split.
  - destruct (bool_decide ("openid" ∈ a_scope d)).
    + apply run_bind_ok in Hidt as (w6 & x & _ & Hidt). apply run_ret_ok in Hidt as [_ ->].
      by rewrite bool_decide_true.
    + apply run_ret_ok in Hidt as [_ ->]. by rewrite bool_decide_false by naive_solver.
  - assert (accounts_kept w1 w5) as [-> _]%kept_codes; [|done].
    etrans; [exact (run_kept _ _ _ _ (ak_create_session _ _) Hs)|].
    etrans; [exact (run_kept _ _ _ _ (ak_signAccessToken _ _) Htok)|].
    etrans; [|exact (run_kept _ _ _ _ (ak_audit _ _) Hlog)]. eapply run_kept; [|exact Hidt].
    destruct (bool_decide _); [|done]. apply guarantee_bind; [apply ak_signIdToken|done].
Qed.
End soundness.

(** ** Issuing codes *)
Section issuing.
Context {P : Platform} (o : OAuthService).

(** The client lets [i] obtain a code. *)
Definition may_authorize (i : AuthorizeInput) (c : OAuthClientDoc) : Prop :=
  c_clientId c = az_clientId i ∧ c_tenantId c = az_tenantId i ∧ c_applicationId c = az_applicationId i ∧
  c_isActive c = true ∧ az_redirectUri i ∈ c_redirectUris c ∧ authorization_code ∈ c_grants c ∧
  (∀ s, s ∈ requested_scopes (az_scope i) → s ∈ c_scopes c) ∧
  (∃ challenge, az_codeChallenge i = Some challenge ∧ challenge ≠ "") ∧
  ∃ m, m ∈ c_pkceMethods c ∧ PkceMethod_string m = pkce_method (az_codeChallengeMethod i).

Lemma scopes_contained (l scopes : list string) :
  existsb (λ s, negb (bool_decide (s ∈ scopes))) l = false ↔ ∀ s, s ∈ l → s ∈ scopes.
Proof.
  rewrite <- not_true_iff_false, existsb_exists. split.
  - intros Hn s Hs. destruct (decide (s ∈ scopes)) as [|Hns]; [done|]. destruct Hn. exists s.
    split; [by apply list_elem_of_In|]. by rewrite bool_decide_false.
  - intros Hs (s & Hin%list_elem_of_In & Hb). specialize (Hs s Hin). by rewrite bool_decide_true in Hb.
Qed.

Lemma authorizeCode_ok i w w' raw ttl :
  run (authorizeCode o i) w = (w', inr (raw, ttl)) →
  ∃ c id, In c (docs (oauthClients w)) ∧ may_authorize i c ∧ ttl = CODE_TTL_SECONDS ∧
    raw = to_base64url (randomBytes (draws w) 32) ∧
    inserted (issued_code i id raw (requested_scopes (az_scope i)) (clock w + CODE_TTL_SECONDS * 1000))
      (docs (authorizationCodes w)) (docs (authorizationCodes w')).
Proof.
  intros (w1 & r & Hf & Hr)%run_bind_ok. apply run_find_one_ok in Hf as [-> (fs & -> & _)].
  change (tbl w) with (oauthClients w) in Hr.
  destruct (List.find _ (docs (oauthClients w))) as [c|] eqn:Hd; [|done].
  apply find_some in Hd as [Hin Hd]. unfold client_filter in Hd. bool_to_prop.
  apply run_bind_ok in Hr as (w1 & [] & [Ha ->]%run_throw_if_ok & Hr).
  apply run_bind_ok in Hr as (w1 & [] & [_ ->]%run_throw_if_ok & Hr).
  apply run_bind_ok in Hr as (w1 & [] & Hu & Hr).
  destruct (decide (az_redirectUri i ∈ c_redirectUris c)) as [Huri|Huri].
  2:{ rewrite bool_decide_false in Hu by done. by apply run_bind_ok in Hu as (w2 & u & _ & Hu). }
  rewrite bool_decide_true in Hu by done. apply run_ret_ok in Hu as [-> _].
  apply run_bind_ok in Hr as (w1 & [] & [Hg ->]%run_throw_if_ok & Hr).
  apply run_bind_ok in Hr as (w1 & [] & [Hs ->]%run_throw_if_ok & Hr).
  apply run_bind_ok in Hr as (w1 & [] & [Hch ->]%run_throw_if_ok & Hr).
  apply run_bind_ok in Hr as (w1 & [] & [Hm ->]%run_throw_if_ok & Hr).
  apply negb_false_iff in Ha, Hg, Hch, Hm. apply bool_decide_eq_true in Hg. rewrite scopes_contained in Hs.
  apply truthy_some in Hch. apply existsb_exists in Hm as (m & Hm & Hmm%String.eqb_eq).
  rewrite run_bind, run_draw, run_bind, run_now, run_bind, run_draw in Hr.
  cbn [clock draws set_field] in Hr. apply run_bind_ok in Hr as (w1 & [] & Hcr & Hr).
  apply run_create_ok in Hcr as [Hins _].
  apply run_bind_ok in Hr as (w2 & [] & Hlog & Hr). apply run_ret_ok in Hr as [-> [= -> ->]].
  exists c, (newObjectId (S (draws w))). split; [done|]. split.
  - unfold may_authorize. do 7 (split; [done|]). split; [done|]. exists m. by rewrite list_elem_of_In.
  - split; [done|]. split; [done|]. destruct (kept_codes _ _ (run_kept _ _ _ _ (ak_audit _ _) Hlog)) as [-> _]. exact Hins.
Qed.

(** What the checks say about the code [d] at the time of [w]. *)
Lemma run_check_code c i w d code :
  healthy w → ex_code i = Some code → code ≠ "" →
  List.find (code_filter (hashSecret code) (c_clientId c) (ex_tenantId i) (ex_applicationId i))
    (docs (authorizationCodes w)) = Some d →
  ex_redirectUri i = Some (a_redirectUri d) →
  run (check_code o c i) w =
    if a_expiresAt d <? clock w then (w, inl (INVALID_GRANT "Code expired"))
    else run ((if truthy (a_codeChallenge d) then
       throw_if (negb (truthy (ex_codeVerifier i))) (INVALID_GRANT "code_verifier required") ;;
       if negb (verifyPkce (nullish (ex_codeVerifier i) "") (nullish (a_codeChallenge d) "") (a_codeChallengeMethod d))
       then
         audit_log (oa_audit o) (audit_event "OAUTH_PKCE_FAILED" (Some (a_tenantId d)) (Some (a_applicationId d))
           (Some (a_userId d)) [("clientId", JStr (a_clientId d))]%string) ;;
         revoke (a_sessionId d) ;;
         Throw (INVALID_GRANT "PKCE verification failed")
       else mret tt
     else mret tt) ;;
    mret d) w.
Proof.
  intros Hh Hc Hne Hf Hu. unfold check_code. rewrite Hc, (truthy_nonempty _ Hne).
  cbn [nullish]. do 2 run_step. cbn [negb]. change (tbl w) with (authorizationCodes w). rewrite Hf. cbn iota.
  do 2 run_step. destruct (a_expiresAt d <? clock w); [done|]. run_step.
  rewrite Hu, bool_decide_true by done. cbn [negb]. by rewrite !run_bind.
Qed.

(** A wrong verifier: the authorising session is revoked and the code survives. *)
Lemma run_wrong_verifier c i w d code verifier :
  healthy w → ex_code i = Some code → code ≠ "" →
  List.find (code_filter (hashSecret code) (c_clientId c) (ex_tenantId i) (ex_applicationId i))
    (docs (authorizationCodes w)) = Some d →
  ex_redirectUri i = Some (a_redirectUri d) → clock w <= a_expiresAt d → truthy (a_codeChallenge d) = true →
  ex_codeVerifier i = Some verifier → verifier ≠ "" →
  verifyPkce verifier (nullish (a_codeChallenge d) "") (a_codeChallengeMethod d) = false →
  ∃ w' t, run (exchangeAuthorizationCode o c i) w = (w', inl (INVALID_GRANT "PKCE verification failed")) ∧
    authorizationCodes w' = authorizationCodes w ∧ clock w <= t ∧
    docs (sessions w') =
      alter_first (λ x, bool_decide (s_id x = a_sessionId d)) (set_revoked t) (docs (sessions w)).
Proof.
  intros Hh Hc Hne Hf Hu He Hch Hv Hvne Hbad. unfold exchangeAuthorizationCode.
  rewrite run_bind, (run_check_code c i w d code) by done. rewrite (proj2 (Z.ltb_ge _ _)) by done.
  rewrite Hch, Hv, (truthy_nonempty _ Hvne). cbn [nullish].
  rewrite run_bind, run_bind, run_throw_if, Hbad. cbn [negb]. rewrite run_bind.
  match goal with |- context [run (audit_log ?a ?e) w] => destruct (run_audit_log a e w) as (w1 & -> & Ha) end.
  pose proof Ha as (Hr & Hck & _ & Hhe). specialize (Hhe Hh). unfold rest in Hr. injection Hr as Hr.
  unfold revoke. do 3 run_step. eexists _, (clock w1). split; [reflexivity|].
  cbn [authorizationCodes sessions upd_tbl sessions_table set_field]. rewrite m_update_one_law.
  split; [congruence|]. split; [done|]. congruence.
Qed.
End issuing.

(** ** What the service promises *)
Section properties.
Context {P : Platform} (o : OAuthService).

(** C3: an authorization code is exchanged for tokens at most once, however
    exchanges, authorizations, registrations and revocations interleave and
    whatever fails, and never when no unconsumed code with its hash is stored. *)
Theorem code_single_use (code : string) (n0 : nat) (w w' : world P) (requests : list oauth_request)
    (threads : list (prog (world P) (oauth_request * oauth_response))) :
  unique_key a_codeHash (docs (authorizationCodes w)) →
  code_fresh_from (hashSecret code) n0 → drawn n0 w →
  reachable (expiry_env AuthorizationCodeDoc) (w, map (serve_oauth o) requests) (w', threads) →
  (winners (code_redeemed (hashSecret code)) threads ≤
   if existsb (live_code (hashSecret code)) (docs (authorizationCodes w)) then 1 else 0)%nat.
Proof.
  intros Hu Hf Hd. set (h := hashSecret code).
  apply (single_use (T := authorizationCodes_table) (live_code h) n0 _ a_codeHash h w w' _ _ Hd Hu).
  - intros d. unfold live_code. intros ?. by bool_to_prop.
  - intros p (r & <- & _)%in_map_iff. by apply pays_serve_oauth.
Qed.

(** C14: whatever fails underway, the token endpoint only answers with tokens to an
    authenticated, active client of the tenant and application.  For an
    authorization code it moreover held an unconsumed and unexpired code issued
    to that client, the redirect URI it was issued for and, when there is a
    challenge, a verifier that matches it; the code is consumed.  For client
    credentials every granted scope is one of the client's, and neither a refresh
    token nor an ID token is issued. *)
Theorem exchange_sound (i : ExchangeInput) (w w' : world P) (tr : TokenResponse) :
  run (exchange o i) w = (w', inr tr) →
  ∃ c, In c (docs (oauthClients w)) ∧ client_authenticated i c ∧
  (ex_grantType i = "authorization_code" ∧
   (∃ d, In d (docs (authorizationCodes w)) ∧ code_redeemable i (clock w) d ∧
     bool_decide ("openid" ∈ a_scope d) = bool_decide (tr_idToken tr ≠ None) ∧
     docs (authorizationCodes w') =
       alter_first (λ x, bool_decide (a_id x = a_id d) && code_filter (a_codeHash d) (a_clientId d) (a_tenantId d)
         (a_applicationId d) x) (consume_code (clock w)) (docs (authorizationCodes w))) ∨
   ex_grantType i = "refresh_token" ∧ refresh_token ∈ c_grants c ∧
     authorizationCodes w' = authorizationCodes w ∨
   ex_grantType i = "client_credentials" ∧ client_credentials ∈ c_grants c ∧
     (∀ s, s ∈ service_scopes (ex_scope i) → s ∈ c_scopes c) ∧
     tr_scope tr = join_space (service_scopes (ex_scope i)) ∧
     tr_refreshToken tr = None ∧ tr_idToken tr = None ∧ authorizationCodes w' = authorizationCodes w).
Proof.
  intros (w1 & c & Hc & Hr)%run_bind_ok. destruct (authenticateClient_ok o i w w1 c Hc) as (Hin & Hok & fs & ->).
  exists c. split; [done|]. split; [done|]. pose proof Hok as (Hid & _).
  apply run_bind_ok in Hr as (w2 & [] & [_ ->]%run_throw_if_ok & Hr).
  destruct (String.eqb_spec (ex_grantType i) "authorization_code") as [Hg|_].
  { left. split; [done|]. destruct (exchangeAuthorizationCode_ok o c i _ w' tr Hid Hr) as (d & Hd). by exists d. }
  right. destruct (String.eqb_spec (ex_grantType i) "refresh_token") as [Hg|_].
  { left. split; [done|]. pose proof (kept_codes _ _ (run_kept _ _ _ _ (ak_exchangeRefreshToken o c i) Hr)) as [Hk _].
    apply run_bind_ok in Hr as (w2 & [] & [Ha _]%run_throw_if_ok & _).
    apply negb_false_iff, bool_decide_eq_true in Ha. done. }
  right. destruct (String.eqb_spec (ex_grantType i) "client_credentials") as [Hg|_]; [|done].
  split; [done|]. pose proof (kept_codes _ _ (run_kept _ _ _ _ (ak_exchangeClientCredentials o c i) Hr)) as [Hk _].
  apply run_bind_ok in Hr as (w2 & [] & [Ha ->]%run_throw_if_ok & Hr).
  apply run_bind_ok in Hr as (w2 & [] & [Hs ->]%run_throw_if_ok & Hr).
  apply negb_false_iff, bool_decide_eq_true in Ha. rewrite scopes_contained in Hs.
  apply run_bind_ok in Hr as (w2 & sid & _ & Hr). apply run_bind_ok in Hr as (w3 & tok & _ & Hr).
  apply run_bind_ok in Hr as (w4 & [] & _ & Hr). by apply run_ret_ok in Hr as [_ ->].
Qed.

(** whatever fails underway, a code is only issued for a client that may use
    the grant, to one of its redirect URIs, for scopes it was registered with and
    with a PKCE challenge; the stored code carries exactly what was asked for and
    lives ten minutes.  Exchanging it within them with a verifier for the
    challenge passes every check and yields the stored code, and afterwards it
    is refused as expired. *)
Theorem authorize_sound (i : AuthorizeInput) (e : ExchangeInput) (w w1 : world P) (raw : string) (ttl : Z) :
  run (authorizeCode o i) w = (w1, inr (raw, ttl)) →
  raw ≠ "" → (∀ d, In d (docs (authorizationCodes w)) → a_codeHash d ≠ hashSecret raw) →
  ex_code e = Some raw → ex_clientId e = az_clientId i → ex_tenantId e = az_tenantId i →
  ex_applicationId e = az_applicationId i → ex_redirectUri e = Some (az_redirectUri i) →
  ∃ c id, let d := issued_code i id raw (requested_scopes (az_scope i)) (clock w + ttl * 1000) in
    In c (docs (oauthClients w)) ∧ may_authorize i c ∧ ttl = 600 ∧
    inserted d (docs (authorizationCodes w)) (docs (authorizationCodes w1)) ∧
    (∀ v, healthy v → authorizationCodes v = authorizationCodes w1 →
       (∃ verifier, ex_codeVerifier e = Some verifier ∧ verifier ≠ "" ∧
          verifyPkce verifier (nullish (az_codeChallenge i) "") (a_codeChallengeMethod d) = true) →
       run (check_code o c e) v =
         (v, if clock w + 600 * 1000 <? clock v then inl (INVALID_GRANT "Code expired") else inr d)).
Proof.
  intros Hr Hne Hfresh Hcode Hcl Ht Ha Hu. destruct (authorizeCode_ok o i w w1 raw ttl Hr)
    as (c & id & Hin & Hok & -> & _ & Hins). exists c, id. intros d. split; [done|]. split; [done|].
  split; [done|]. split; [done|]. intros v Hh Hv (verifier & Hver & Hvne & Hpk).
  pose proof Hok as (Hcid & _ & _ & _ & _ & _ & _ & (ch & Hch & Hchne) & _).
  rewrite (run_check_code o c e v d raw Hh Hcode Hne); [|rewrite Hv|done].
  - change (a_expiresAt d) with (clock w + 600 * 1000). destruct (_ <? clock v); [done|].
    change (a_codeChallenge d) with (az_codeChallenge i). rewrite Hch, Hver in *. cbn [nullish] in *.
    rewrite (truthy_nonempty _ Hvne), (truthy_nonempty _ Hchne). rewrite run_bind, run_bind, run_throw_if. cbn [negb]. by rewrite Hpk.
  - apply (inserted_find_new _ d _ _ Hins).
    + unfold code_filter. cbn. rewrite !bool_decide_true by congruence. done.
    + destruct (List.find _ _) as [x|] eqn:Hx; [|done]. apply find_some in Hx as [Hxin Hx].
      unfold code_filter in Hx. bool_to_prop. by destruct (Hfresh x Hxin).
Qed.

(** presenting a code with a verifier that does not match its challenge
    revokes the session that authorized it, consumes nothing and is refused. *)
Theorem pkce_failure_revokes (c : OAuthClientDoc) (i : ExchangeInput) (w : world P) (d : AuthorizationCodeDoc)
    (code verifier : string) :
  healthy w → ex_code i = Some code → code ≠ "" →
  List.find (code_filter (hashSecret code) (c_clientId c) (ex_tenantId i) (ex_applicationId i))
    (docs (authorizationCodes w)) = Some d →
  ex_redirectUri i = Some (a_redirectUri d) → clock w <= a_expiresAt d → truthy (a_codeChallenge d) = true →
  ex_codeVerifier i = Some verifier → verifier ≠ "" →
  verifyPkce verifier (nullish (a_codeChallenge d) "") (a_codeChallengeMethod d) = false →
  ∃ w' t, run (exchangeAuthorizationCode o c i) w = (w', inl (INVALID_GRANT "PKCE verification failed")) ∧
    authorizationCodes w' = authorizationCodes w ∧ clock w <= t ∧
    docs (sessions w') =
      alter_first (λ x, bool_decide (s_id x = a_sessionId d)) (set_revoked t) (docs (sessions w)).
Proof. apply run_wrong_verifier. Qed.
End properties.
