(* ===== verification/CodeGrants.v ===== *)
(** * The OAuth package

    [packages/oauth/src]: PKCE ([pkce.ts]), one-time authorization codes
    ([authorization-code.ts]) over a store given as an interface with its in-memory
    implementation, and the token endpoint of [oauth.service.ts], whose client
    lookup and token issuer are callbacks. *)

From S2P Require Export World.
From S2P Require Export Process.
From S2P Require Export JsMap.

(** ** PKCE *)
Section pkce.
Context {P : Platform}.

(** [randomToken] and [sha256Hex] of [shared/src/utils/helpers.ts]. *)
Definition randomToken (bytes : nat) (i : nat) : string := to_base64url (randomBytes i bytes).
Definition sha256Hex (value : string) : string := to_hex (createHash sha256 value).

Definition generateCodeVerifier (bytes : nat) (i : nat) : string := to_base64url (randomBytes i bytes).
Definition generateCodeChallenge (verifier : string) (method : PkceMethod) : string :=
  match method with
  | pkce_plain => verifier
  | _ => to_base64url (createHash sha256 verifier)
  end.
(** [timingSafeEqual] of equally long buffers. *)
Definition buffers_equal (a b : string) : bool :=
  if negb (String.length a =? String.length b)%nat then false else String.eqb a b.
Definition verifyPkce (verifier : string) (challenge : option string) (method : option PkceMethod) : bool :=
  match challenge, method with
  | Some c, Some m =>
    if String.eqb c "" then false
    else match m with pkce_none => false | _ => buffers_equal (generateCodeChallenge verifier m) c end
  | _, _ => false
  end.

Lemma buffers_equal_iff a b : buffers_equal a b = true ↔ a = b.
Proof.
  unfold buffers_equal. destruct (Nat.eqb_spec (String.length a) (String.length b)) as [_|Hne]; cbn; [apply String.eqb_eq|].
  split; [done|]. by intros ->.
Qed.
Lemma verifyPkce_iff verifier challenge method :
  verifyPkce verifier challenge method = true ↔
  ∃ m, method = Some m ∧ m ≠ pkce_none ∧ challenge = Some (generateCodeChallenge verifier m) ∧
    generateCodeChallenge verifier m ≠ "".
Proof.
  unfold verifyPkce. destruct challenge as [c|], method as [m|]; try naive_solver.
  destruct (String.eqb_spec c "") as [->|Hc]; [naive_solver|].
  destruct m; rewrite ?buffers_equal_iff; naive_solver.
Qed.
End pkce.

(** ** Authorization codes *)
Record AuthorizationCode := mkAuthorizationCode {
  ac_id : string; codeHash : string; ac_tenantId : string; ac_applicationId : string; ac_clientId : string;
  ac_userId : string; ac_sessionId : string; ac_redirectUri : string; ac_scope : list string;
  ac_codeChallenge : option string; ac_codeChallengeMethod : option PkceMethod; ac_nonce : option string;
  ac_authMethod : AuthMethod; ac_expiresAt : Z; ac_consumedAt : option Z; ac_createdAt : Z }.
Definition consumed_at (t : Z) (r : AuthorizationCode) : AuthorizationCode :=
  mkAuthorizationCode (ac_id r) (codeHash r) (ac_tenantId r) (ac_applicationId r) (ac_clientId r) (ac_userId r)
    (ac_sessionId r) (ac_redirectUri r) (ac_scope r) (ac_codeChallenge r) (ac_codeChallengeMethod r) (ac_nonce r)
    (ac_authMethod r) (ac_expiresAt r) (Some t) (ac_createdAt r).

(** [AuthorizationCodeStore]; [record_of] is the record stored under an id. *)
Class AuthorizationCodeStore (S : Type) := {
  store_create : AuthorizationCode → S → S * (exn + ());
  store_findByHash : string → S → S * (exn + option AuthorizationCode);
  store_consume : string → Z → S → S * (exn + bool);
  record_of : S → string → option AuthorizationCode;
}.
(** What the store promises: codes are written under their id, found by their hash
    and consumed once; a call that throws may have taken effect. *)
Class AuthorizationCodeStoreLaws (S : Type) `{AuthorizationCodeStore S} := {
  create_record_law : ∀ r s, let '(s', res) := store_create r s in
    (∀ i, i ≠ ac_id r → record_of s' i = record_of s i) ∧
    (record_of s' (ac_id r) = Some r ∨ record_of s' (ac_id r) = record_of s (ac_id r) ∧ res ≠ inr tt);
  find_record_law : ∀ h s, let '(s', res) := store_findByHash h s in
    (∀ i, record_of s' i = record_of s i) ∧
    match res with
    | inr (Some r) => record_of s (ac_id r) = Some r ∧ codeHash r = h
    | inr None => ∀ i r, record_of s i = Some r → codeHash r ≠ h
    | inl _ => True
    end;
  consume_record_law : ∀ i t s, let '(s', res) := store_consume i t s in
    (∀ j, j ≠ i → record_of s' j = record_of s j) ∧
    match record_of s i with
    | Some r => match ac_consumedAt r with
                | None => record_of s' i = Some (consumed_at t r) ∧ res ≠ inr false ∨
                          record_of s' i = Some r ∧ ∃ e, res = inl e
                | Some _ => record_of s' i = Some r ∧ res ≠ inr true
                end
    | None => record_of s' i = None ∧ res ≠ inr true
    end;
}.

(** [MemoryAuthorizationCodeStore]. *)
Definition MemoryAuthorizationCodeStore : Type := list (string * AuthorizationCode).
Definition memory_create (r : AuthorizationCode) (s : MemoryAuthorizationCodeStore) : MemoryAuthorizationCodeStore :=
  map_set (ac_id r) r s.
Definition memory_findByHash (h : string) (s : MemoryAuthorizationCodeStore) : option AuthorizationCode :=
  List.find (λ r, String.eqb (codeHash r) h) (map snd s).
Definition memory_consume (i : string) (t : Z) (s : MemoryAuthorizationCodeStore) : MemoryAuthorizationCodeStore * bool :=
  match map_get i s with
  | Some r => match ac_consumedAt r with
              | Some _ => (s, false)
              | None => (map_set i (consumed_at t r) s, true)
              end
  | None => (s, false)
  end.

(** The records of a store that is only written by [create] and [consume]. *)
Record memory_store := mkMemoryStore {
  ms_records : MemoryAuthorizationCodeStore;
  ms_wf : bool_decide (NoDup (map_keys ms_records) ∧ Forall (λ kv, ac_id kv.2 = kv.1) ms_records) = true }.
Lemma memory_wf_iff m :
  bool_decide (NoDup (map_keys m) ∧ Forall (λ kv : string * AuthorizationCode, ac_id kv.2 = kv.1) m) = true ↔
  NoDup (map_keys m) ∧ ∀ k r, map_get k m = Some r → ac_id r = k.
Proof.
  rewrite bool_decide_eq_true. split; intros [Hn Hf]; (split; [done|]).
  - intros k r Hk%map_get_In. rewrite List.Forall_forall in Hf. by apply (Hf _ Hk).
  - apply List.Forall_forall. intros [k r] Hin. by apply Hf, In_map_get.
Qed.
Lemma memory_set_wf m i r :
  bool_decide (NoDup (map_keys m) ∧ Forall (λ kv : string * AuthorizationCode, ac_id kv.2 = kv.1) m) = true →
  ac_id r = i →
  bool_decide (NoDup (map_keys (map_set i r m)) ∧ Forall (λ kv, ac_id kv.2 = kv.1) (map_set i r m)) = true.
Proof.
  rewrite !memory_wf_iff. intros [Hn Hi] <-. split; [by apply NoDup_map_set|]. intros k x. rewrite map_get_set.
  destruct (String.eqb_spec k (ac_id r)) as [->|]; [naive_solver|apply Hi].
Qed.
Lemma memory_consume_wf m i t :
  bool_decide (NoDup (map_keys m) ∧ Forall (λ kv : string * AuthorizationCode, ac_id kv.2 = kv.1) m) = true →
  let m' := (memory_consume i t m).1 in
  bool_decide (NoDup (map_keys m') ∧ Forall (λ kv, ac_id kv.2 = kv.1) m') = true.
Proof.
  intros Hm. unfold memory_consume. destruct (map_get i m) as [r|] eqn:Hr; [|done].
  destruct (ac_consumedAt r); [done|]. cbn [fst]. apply memory_set_wf; [done|]. cbn.
  apply memory_wf_iff in Hm as [_ Hi]. by apply Hi.
Qed.

#[export] Instance memory_code_store : AuthorizationCodeStore memory_store := {
  store_create r s := (mkMemoryStore (memory_create r (ms_records s)) (memory_set_wf _ _ _ (ms_wf s) eq_refl), inr tt);
  store_findByHash h s := (s, inr (memory_findByHash h (ms_records s)));
  store_consume i t s := (mkMemoryStore (memory_consume i t (ms_records s)).1 (memory_consume_wf _ i t (ms_wf s)),
    inr (memory_consume i t (ms_records s)).2);
  record_of s i := map_get i (ms_records s);
}.
#[export] Instance memory_code_store_laws : AuthorizationCodeStoreLaws memory_store.
Proof.
  split.
  - intros r s. cbn. unfold memory_create. split; [|left; by rewrite map_get_set, String.eqb_refl].
    intros i Hi. by rewrite map_get_set, (proj2 (String.eqb_neq _ _)).
  - intros h s. cbn. destruct (proj1 (memory_wf_iff _) (ms_wf s)) as [Hn Hi]. split; [done|]. unfold memory_findByHash.
    destruct (List.find _ _) as [r|] eqn:Hf.
    + apply List.find_some in Hf as [([k x] & <- & Hin)%in_map_iff Hh%String.eqb_eq]. cbn [snd] in *.
      apply In_map_get in Hin; [|done]. by rewrite (Hi _ _ Hin).
    + intros i r Hr%map_get_In. apply String.eqb_neq, (List.find_none _ _ Hf r). apply in_map_iff. by exists (i, r).
  - intros i t s. cbn. unfold memory_consume. destruct (map_get i (ms_records s)) as [r|] eqn:Hr; cbn [fst snd].
    + destruct (ac_consumedAt r) as [|] eqn:Hc; cbn [fst snd]; [done|]. split.
      { intros j Hj. by rewrite map_get_set, (proj2 (String.eqb_neq _ _)). }
      left. by rewrite map_get_set, String.eqb_refl.
    + by rewrite Hr.
Qed.

Section manager.
Context {P : Platform} {S : Type} `{AuthorizationCodeStore S}.

Record AuthorizationCodeParams := mkCodeParams {
  cp_tenantId : string; cp_applicationId : string; cp_clientId : string; cp_userId : string; cp_sessionId : string;
  cp_redirectUri : string; cp_scope : list string; cp_codeChallenge : option string;
  cp_codeChallengeMethod : option PkceMethod; cp_nonce : option string; cp_authMethod : AuthMethod;
  cp_ttlMs : option Z }.
Definition DEFAULT_CODE_TTL_MS : Z := 5 * 60 * 1000.

(** [AuthorizationCodeManager.issue]. *)
Definition code_record (params : AuthorizationCodeParams) (id code : string) (now : Z) : AuthorizationCode :=
  mkAuthorizationCode id (sha256Hex code) (cp_tenantId params) (cp_applicationId params) (cp_clientId params)
    (cp_userId params) (cp_sessionId params) (cp_redirectUri params) (cp_scope params) (cp_codeChallenge params)
    (cp_codeChallengeMethod params) (cp_nonce params) (cp_authMethod params)
    (now + nullish (cp_ttlMs params) DEFAULT_CODE_TTL_MS) None now.
Definition issue (params : AuthorizationCodeParams) : prog (process S) (string * AuthorizationCode) :=
  code ← random (randomToken 32);
  now ← date_now;
  id ← random (randomToken 16);
  let record := code_record params id code now in
  call (store_create record) ;;
  mret (code, record).

(** [redeem]; the second reading of the clock is the default of [consume]. *)
Definition redeem (rawCode : string) : prog (process S) (option AuthorizationCode) :=
  record ← call (store_findByHash (sha256Hex rawCode));
  match record with
  | None => mret None
  | Some r =>
    match ac_consumedAt r with
    | Some _ => mret None
    | None =>
      t ← date_now;
      if ac_expiresAt r <=? t then mret None
      else
        at_ ← date_now;
        consumed ← call (store_consume (ac_id r) at_);
        mret (if (consumed : bool) then Some r else None)
    end
  end.
End manager.

(** ** The token endpoint *)
Record OAuthClientRecord := mkOAuthClientRecord {
  cr_clientId : string; redirectUris : list string; isConfidential : bool; clientSecretHash : option string;
  isActive : bool }.
Record OAuthTokenSet := mkOAuthTokenSet {
  ts_accessToken : string; ts_idToken : option string; ts_refreshToken : option string; ts_expiresIn : option Z }.
(** The argument of [issueTokens]. *)
Record IssueContext := mkIssueContext {
  ic_userId : string; ic_tenantId : string; ic_applicationId : string; ic_sessionId : option string;
  ic_authMethod : AuthMethod; ic_scope : list string; ic_clientId : option string }.
Record TokenResponse := mkTokenResponse { tp_tokens : OAuthTokenSet; tp_scope : string }.
Record TokenRequest := mkTokenRequest {
  rq_clientId : string; rq_clientSecret : option string; rq_redirectUri : string; rq_code : string;
  rq_codeVerifier : option string; rq_scope : option (list string) }.

Section service.
Context {P : Platform} {S : Type} `{AuthorizationCodeStore S}.
(** The callbacks of [OAuthServiceDeps]. *)
Context (loadClient : string → prog (process S) (option OAuthClientRecord))
  (issueTokens : IssueContext → prog (process S) OAuthTokenSet).

Definition CLIENT_AUTH_FAILED : string := "CLIENT_AUTHENTICATION_FAILED".
Definition requireActiveClient (clientId : string) : prog (process S) OAuthClientRecord :=
  client ← loadClient clientId;
  match client with
  | None => Throw (TokenError "Unknown OAuth client" "UNKNOWN_CLIENT")
  | Some c => if isActive c then mret c else Throw (TokenError "OAuth client is disabled" "CLIENT_DISABLED")
  end.
Definition authenticateClient (client : OAuthClientRecord) (clientSecret : option string) : prog (process S) () :=
  if negb (isConfidential client) then mret tt
  else if negb (truthy (clientSecretHash client)) || negb (truthy clientSecret) then
    Throw (AuthorizationError "Client authentication failed" CLIENT_AUTH_FAILED)
  else
    throw_if (negb (bool_decide (Some (sha256Hex (nullish clientSecret "")) = clientSecretHash client)))
      (AuthorizationError "Client authentication failed" CLIENT_AUTH_FAILED).

Definition redirect_mismatch : exn := TokenError "Redirect URI mismatch" "OAUTH_REDIRECT_URI_MISMATCH".
(** [issueCode], answering the code. *)
Definition issueCode (params : AuthorizationCodeParams) : prog (process S) string :=
  client ← requireActiveClient (cp_clientId params);
  throw_if (negb (bool_decide (cp_redirectUri params ∈ redirectUris client)))
    (ValidationError "Redirect URI mismatch" "OAUTH_REDIRECT_URI_MISMATCH") ;;
  r ← issue params;
  mret r.1.

Definition grant_context (r : AuthorizationCode) : IssueContext :=
  mkIssueContext (ac_userId r) (ac_tenantId r) (ac_applicationId r) (Some (ac_sessionId r)) (ac_authMethod r)
    (ac_scope r) (Some (ac_clientId r)).
Definition join_scope (l : list string) : string := String.concat " " l.
(** The checks of [exchangeAuthorizationCode] on a record that was redeemed. *)
Definition record_checks (request : TokenRequest) (record : AuthorizationCode) : prog (process S) () :=
  throw_if (negb (String.eqb (ac_redirectUri record) (rq_redirectUri request))) redirect_mismatch ;;
  throw_if (truthy (ac_codeChallenge record) &&
            negb (verifyPkce (nullish (rq_codeVerifier request) "") (ac_codeChallenge record)
                    (ac_codeChallengeMethod record)))
    (TokenError "PKCE verification failed" "PKCE_VERIFICATION_FAILED").
Definition exchangeAuthorizationCode (request : TokenRequest) : prog (process S) TokenResponse :=
  client ← requireActiveClient (rq_clientId request);
  authenticateClient client (rq_clientSecret request) ;;
  throw_if (negb (bool_decide (rq_redirectUri request ∈ redirectUris client))) redirect_mismatch ;;
  record ← redeem (rq_code request);
  match record with
  | None => Throw (TokenError "Invalid authorization code" "INVALID_AUTHORIZATION_CODE")
  | Some r =>
    record_checks request r ;;
    tokens ← issueTokens (grant_context r);
    mret (mkTokenResponse tokens (join_scope (ac_scope r)))
  end.

Definition clientCredentials (request : TokenRequest) : prog (process S) TokenResponse :=
  client ← requireActiveClient (rq_clientId request);
  throw_if (negb (isConfidential client))
    (AuthorizationError "Public clients cannot use client_credentials" CLIENT_AUTH_FAILED) ;;
  authenticateClient client (rq_clientSecret request) ;;
  let scope := nullish (rq_scope request) ["service"] in
  tokens ← issueTokens (mkIssueContext (cr_clientId client) "system" "system" None am_service scope
                          (Some (cr_clientId client)));
  mret (mkTokenResponse tokens (join_scope scope)).
End service.

(** ** Theorems *)
Section theorems.
Context {P : Platform} {S : Type} `{HS : AuthorizationCodeStore S} `{!AuthorizationCodeStoreLaws S}.
Notation state := (process S).

(** *** A code is redeemed once *)
Section single_use.
Context (i : string).

(** The record can be consumed once more. *)
Definition unconsumed (s : S) : nat :=
  match record_of s i with Some r => match ac_consumedAt r with None => 1 | Some _ => 0 end | None => 0 end.

Lemma find_keeps h s : unconsumed (store_findByHash h s).1 = unconsumed s.
Proof. pose proof (find_record_law h s) as Hl. destruct (store_findByHash h s). cbn. unfold unconsumed. by rewrite (proj1 Hl). Qed.

Lemma consume_pays j t s :
  let '(s', res) := store_consume j t s in
  (unconsumed s' + (if bool_decide (j = i) then match res with inr true => 1 | _ => 0 end else 0) ≤ unconsumed s)%nat.
Proof.
  pose proof (consume_record_law j t s) as Hl. destruct (store_consume j t s) as [s' res]. destruct Hl as [Ho Hr].
  unfold unconsumed. case_bool_decide as Hj; [subst j|].
  - destruct (record_of s i) as [r|]; [destruct (ac_consumedAt r) eqn:Hc|].
    + destruct Hr as [-> Hres]. rewrite Hc. destruct res as [e|[]]; [lia|done|lia].
    + destruct Hr as [[-> Hres]|[-> [e ->]]]; [cbn; destruct res as [e|[]]; lia|rewrite Hc; lia].
    + destruct Hr as [-> Hres]. destruct res as [e|[]]; [lia|done|lia].
  - rewrite Ho by done. lia.
Qed.

(** A redemption that answers the record. *)
Definition redeems (r : option AuthorizationCode) : bool :=
  match r with Some x => bool_decide (ac_id x = i) | None => false end.

Lemma pays_code_redeem code : pays (λ _ : state, True) (state_credit unconsumed) 0 (redeem code) (won redeems).
Proof.
  unfold redeem. apply pays_call_bind. intros p _. split; [done|]. exists 0%nat.
  split; [unfold state_credit; cbn [Process.state set_field]; rewrite find_keeps; lia|].
  destruct (store_findByHash _ _).2 as [e|[r|]]; [done| |done]. destruct (ac_consumedAt r); [done|].
  apply pays_date_now_bind. intros t. destruct (_ <=? _); [done|]. apply pays_date_now_bind. intros t'.
  apply pays_call_bind. intros p' _. split; [done|]. pose proof (consume_pays (ac_id r) t' (Process.state p')) as Hc.
  destruct (store_consume _ _ _) as [s' res]. cbn [fst snd].
  exists (if bool_decide (ac_id r = i) then match res with inr true => 1 | _ => 0 end else 0)%nat.
  split; [unfold state_credit; cbn [Process.state set_field]; lia|]. destruct res as [e|[]]; cbn; [done| |done].
  case_bool_decide; [lia|done].
Qed.

(** Authorization codes are single-use: of any number of concurrent
    redemptions of any codes, over any store that keeps its promises, at most one
    answers a given record, and none when it was consumed before; whatever the rest
    of the process does, as long as it does not make the record redeemable again. *)
Theorem code_redeemed_once (E : state → state → Prop) p p' codes ps' :
  (∀ q q', E q q' → unconsumed (Process.state q') ≤ unconsumed (Process.state q))%nat →
  reachable E (p, map redeem codes) (p', ps') →
  (winners redeems ps' ≤ 1)%nat ∧
  ((∀ r, record_of (Process.state p) i = Some r → ac_consumedAt r ≠ None) → winners redeems ps' = 0%nat).
Proof.
  intros HE Hr.
  assert (winners redeems ps' ≤ unconsumed (Process.state p))%nat as Hw.
  { eapply (winners_bounded (λ _, True) (state_credit unconsumed) E redeems); [|done| |exact Hr].
    - intros q q' Hq _. split; [done|]. by apply HE.
    - apply List.Forall_forall. intros x (c & <- & _)%in_map_iff. apply pays_code_redeem. }
  unfold unconsumed in Hw. split.
  - destruct (record_of _ i) as [r|]; [destruct (ac_consumedAt r)|]; lia.
  - intros Hn. destruct (record_of _ i) as [r|] eqn:Hi; [|lia]. specialize (Hn r eq_refl). destruct (ac_consumedAt r); [lia|done].
Qed.
End single_use.

(** *** What a redemption answers *)
Lemma run_code_redeem code p p' res :
  run (redeem code) p = (p', inr res) →
  match res with
  | Some r => record_of (Process.state p) (ac_id r) = Some r ∧ codeHash r = sha256Hex code ∧ ac_consumedAt r = None ∧
      time p < ac_expiresAt r ∧ record_of (Process.state p') (ac_id r) = Some (consumed_at (time p) r) ∧
      (∀ j, j ≠ ac_id r → record_of (Process.state p') j = record_of (Process.state p) j)
  | None => ∀ i r, record_of (Process.state p) i = Some r → codeHash r = sha256Hex code →
      (∀ j r', record_of (Process.state p) j = Some r' → codeHash r' = sha256Hex code → j = i) → ac_id r = i →
      ac_consumedAt r ≠ None ∨ ac_expiresAt r <= time p
  end ∧ time p' = time p.
Proof.
  unfold redeem. rewrite run_bind, run_call. pose proof (find_record_law (sha256Hex code) (Process.state p)) as Hf.
  destruct (store_findByHash _ _) as [s1 [e|[r|]]]; cbn [fst snd]; [done| |].
  - destruct Hf as (Hs1 & Hr & Hh).
    assert (∀ i r', record_of (Process.state p) i = Some r' →
      (∀ j r', record_of (Process.state p) j = Some r' → codeHash r' = sha256Hex code → j = i) → r' = r) as Huniq.
    { intros i r' Hi Hu. pose proof (Hu _ _ Hr Hh). naive_solver. }
    destruct (ac_consumedAt r) as [|] eqn:Hc.
    { intros [= <- <-]. split; [|done]. intros i r' Hi _ Hu _. left. rewrite (Huniq _ _ Hi Hu). by rewrite Hc. }
    rewrite run_bind, run_date_now. cbn [time set_field]. destruct (Z.leb_spec (ac_expiresAt r) (time p)) as [Ht|Ht].
    { intros [= <- <-]. split; [|done]. intros i r' Hi _ Hu _. right. by rewrite (Huniq _ _ Hi Hu). }
    rewrite run_bind, run_date_now, run_bind, run_call. cbn [Process.state time set_field].
    pose proof (consume_record_law (ac_id r) (time p) s1) as Hl. rewrite Hs1, Hr, Hc in Hl.
    destruct (store_consume _ _ _) as [s2 [e|b]]; cbn [fst snd]; [done|]. destruct Hl as [Ho [[Hr2 Hb]|[_ [e He]]]]; [|done].
    destruct b; [|done]. intros [= <- <-]. cbn [Process.state set_field]. split_and!; try done.
    intros j Hj. by rewrite Ho, Hs1.
  - destruct Hf as [_ Hn]. intros [= <- <-]. split; [|done]. intros i r Hi Hh. by destruct (Hn _ _ Hi).
Qed.

Lemma issue_record params p p' code r :
  run (issue params) p = (p', inr (code, r)) →
  r = code_record params (randomToken 16 (1 + drawn p)) code (time p) ∧ code = randomToken 32 (drawn p) ∧
  record_of (Process.state p') (ac_id r) = Some r ∧ time p' = time p ∧
  (∀ i, i ≠ ac_id r → record_of (Process.state p') i = record_of (Process.state p) i).
Proof.
  unfold issue. rewrite run_bind, run_random, run_bind, run_date_now, run_bind, run_random, run_bind, run_call.
  cbn [drawn time Process.state set_field].
  pose proof (create_record_law (code_record params (randomToken 16 (1 + drawn p)) (randomToken 32 (drawn p)) (time p)) (Process.state p)) as Hl.
  cbn [Nat.add] in *. destruct (store_create _ _) as [s' [e|[]]]; cbn [fst snd]; [done|].
  intros [= <- <- <-]. cbn [Process.state time set_field] in *. destruct Hl as [Ho [Hr|[_ Hr]]]; [|done]. by split_and!.
Qed.

(** A code works once and until it expires: a code issued under a fresh id, with
    no other record of the same digest, is answered by a redemption before its
    expiry with exactly the record issued, a redemption from then on answers none,
    and once it has been answered every later redemption answers none. *)
Theorem issued_code_round_trip params p p1 code r p2 p3 res p4 p5 res2 :
  run (issue params) p = (p1, inr (code, r)) →
  (∀ i x, record_of (Process.state p1) i = Some x → codeHash x = sha256Hex code → i = ac_id r) →
  (∀ i, record_of (Process.state p2) i = record_of (Process.state p1) i) →
  run (redeem code) p2 = (p3, inr res) →
  (∀ i, record_of (Process.state p4) i = record_of (Process.state p3) i) →
  run (redeem code) p4 = (p5, inr res2) →
  res = (if decide (time p2 < time p + nullish (cp_ttlMs params) DEFAULT_CODE_TTL_MS) then Some r else None) ∧
  (res = Some r → res2 = None).
Proof.
  intros Hi Hu H2 Hr H4 Hr2. destruct (issue_record _ _ _ _ _ Hi) as (Hrec & -> & Hr1 & _).
  assert (codeHash r = sha256Hex (randomToken 32 (drawn p)) ∧ ac_consumedAt r = None ∧
    ac_expiresAt r = time p + nullish (cp_ttlMs params) DEFAULT_CODE_TTL_MS) as (Hh & Hc & He) by by rewrite Hrec.
  apply run_code_redeem in Hr as [Hr _], Hr2 as [Hr2 _]. rewrite <- He. split.
  - destruct res as [x|]; cbn in Hr.
    + destruct Hr as (Hx & Hxh & _ & Ht & _). rewrite H2 in Hx. pose proof (Hu _ _ Hx Hxh) as Hid. rewrite Hid, Hr1 in Hx.
      injection Hx as <-. by rewrite decide_True.
    + case_decide as Ht; [|done]. rewrite <- H2 in Hr1. destruct (Hr _ _ Hr1 Hh) as [Hx|Hx]; [|done|done|lia].
      intros j r' Hj Hjh. rewrite H2 in Hj. by eapply Hu.
  - intros ->. destruct res2 as [x|]; [|done]. cbn in *. destruct Hr as (_ & _ & _ & _ & Hr3 & Ho).
    destruct Hr2 as (Hx & Hxh & Hxc & _). rewrite H4 in Hx. destruct (decide (ac_id x = ac_id r)) as [Hid|Hid].
    + rewrite Hid, Hr3 in Hx. by injection Hx as <-.
    + rewrite Ho, H2 in Hx by done. by destruct Hid; apply (Hu _ x).
Qed.

(** *** The token endpoint *)
Section endpoint.
Context (loadClient : string → prog state (option OAuthClientRecord)) (issueTokens : IssueContext → prog state OAuthTokenSet).
Notation exchange := (exchangeAuthorizationCode loadClient issueTokens).

Lemma run_requireActive clientId p p' c :
  run (requireActiveClient loadClient clientId) p = (p', inr c) →
  run (loadClient clientId) p = (p', inr (Some c)) ∧ isActive c = true.
Proof.
  unfold requireActiveClient. intros (p1 & [x|] & Hl & Hr)%run_bind_ok; [|done]. destruct (isActive x) eqn:Ha; [|done].
  injection Hr as <- <-. done.
Qed.
Lemma run_authenticateClient c secret p p' u :
  run (authenticateClient (S := S) c secret) p = (p', inr u) →
  p' = p ∧ (isConfidential c = true → ∃ x, secret = Some x ∧ clientSecretHash c = Some (sha256Hex x)).
Proof.
  unfold authenticateClient. destruct (isConfidential c); cbn [negb]; [|by intros [= <- _]].
  destruct (truthy secret) eqn:Hs; [|by rewrite orb_true_r]. apply truthy_some in Hs as (x & -> & _).
  destruct (truthy (clientSecretHash c)); cbn [negb orb]; [|done].
  intros [Hb ->]%run_throw_if_ok. split; [done|]. intros _. exists x. split; [done|].
  by apply negb_false_iff, bool_decide_eq_true in Hb.
Qed.
Lemma run_record_checks request r p p' u :
  run (record_checks (S := S) request r) p = (p', inr u) →
  p' = p ∧ ac_redirectUri r = rq_redirectUri request ∧
  ∀ challenge, ac_codeChallenge r = Some challenge → challenge ≠ "" →
    ∃ m, ac_codeChallengeMethod r = Some m ∧ m ≠ pkce_none ∧
      generateCodeChallenge (nullish (rq_codeVerifier request) "") m = challenge.
Proof.
  unfold record_checks. intros (p1 & [] & [Hr ->]%run_throw_if_ok & [Hk ->]%run_throw_if_ok)%run_bind_ok.
  split; [done|]. split; [by apply negb_false_iff, String.eqb_eq in Hr|]. intros challenge Hc Hne. rewrite Hc in Hk.
  rewrite truthy_nonempty in Hk by done. cbn [andb] in Hk. apply negb_false_iff, verifyPkce_iff in Hk.
  destruct Hk as (m & ? & ? & [= ->] & _). by exists m.
Qed.

(** Tokens are issued for a code only to an active client that has proved its
    secret when it is confidential, with a redirect URI it registered and the code
    was issued for, on a live unconsumed record of that code whose PKCE challenge
    the verifier answers; the record is consumed before the issuer is called, and
    the tokens are for the user, session and scope of the record. *)
Theorem token_request_sound request p p' response :
  run (exchange request) p = (p', inr response) →
  ∃ client p1 r p2 tokens,
    run (loadClient (rq_clientId request)) p = (p1, inr (Some client)) ∧ isActive client = true ∧
    (isConfidential client = true → ∃ secret, rq_clientSecret request = Some secret ∧ clientSecretHash client = Some (sha256Hex secret)) ∧
    rq_redirectUri request ∈ redirectUris client ∧ ac_redirectUri r = rq_redirectUri request ∧
    record_of (Process.state p1) (ac_id r) = Some r ∧ codeHash r = sha256Hex (rq_code request) ∧
    ac_consumedAt r = None ∧ time p1 < ac_expiresAt r ∧
    (∀ challenge, ac_codeChallenge r = Some challenge → challenge ≠ "" →
       ∃ m, ac_codeChallengeMethod r = Some m ∧ m ≠ pkce_none ∧
         generateCodeChallenge (nullish (rq_codeVerifier request) "") m = challenge) ∧
    record_of (Process.state p2) (ac_id r) = Some (consumed_at (time p1) r) ∧
    run (issueTokens (grant_context r)) p2 = (p', inr tokens) ∧
    response = mkTokenResponse tokens (join_scope (ac_scope r)).
Proof.
  unfold exchangeAuthorizationCode. intros (p1 & client & [Hl Ha]%run_requireActive & H)%run_bind_ok.
  apply run_bind_ok in H as (q & u & [-> Hs]%run_authenticateClient & H).
  apply run_bind_ok in H as (q & u' & [Hred ->]%run_throw_if_ok & H). apply negb_false_iff, bool_decide_eq_true in Hred.
  apply run_bind_ok in H as (p2 & [r|] & Hr & H); [|done]. apply run_code_redeem in Hr as [(Hr & Hh & Hc & Ht & Hr2 & _) _].
  apply run_bind_ok in H as (q & u'' & (-> & Huri & Hpkce)%run_record_checks & H).
  apply run_bind_ok in H as (p3 & tokens & Hi & [= -> <-]).
  exists client, p1, r, p2, tokens. by split_and!.
Qed.
End endpoint.
End theorems.
