(* ===== verification/Federation.v ===== *)
(** * Federated identities

    [packages/core/src/services/oauth/federated.service.ts], which links external
    subjects to users, and of [packages/oauth/src] the provider registry
    ([registry.ts]), the callback handler over it ([federation/oauth-federation.ts]),
    the verification of identity tokens ([oidc.service.ts]) and the token exchange
    ([token-exchange.ts]). *)

From S2P Require Export World.
From S2P Require Export JsMap.

(** ** Linked users *)
Section federated_identity.
Context {P : Platform}.

Record FederatedProfile := mkFederatedProfile { fp_email : option string }.
Record LinkIdentityInput := mkLinkIdentityInput {
  lk_tenantId : string; lk_provider : string; lk_subject : string; lk_userId : option string;
  lk_profile : option FederatedProfile; lk_autoProvision : option bool }.

(** The query of [findByProvider]: the two paths of the array are matched apart. *)
Definition has_identity (tenantId provider subject : string) (d : UserDoc) : bool :=
  bool_decide (u_tenantId d = tenantId) &&
  existsb (λ i, bool_decide (li_provider i = provider)) (u_identities d) &&
  existsb (λ i, bool_decide (li_subject i = subject)) (u_identities d).
Definition findByProvider (tenantId provider subject : string) : prog (world P) (option UserDoc) :=
  find_one (has_identity tenantId provider subject).

#[export] Instance LinkedIdentity_eq_dec : EqDecision LinkedIdentity.
Proof. solve_decision. Defined.
(** [$addToSet] and [$pull]. *)
Definition add_identity (i : LinkedIdentity) (d : UserDoc) : UserDoc :=
  d <| u_identities ::= λ l, if bool_decide (i ∈ l) then l else l ++ [i] |>.
Definition pull_identity (i : LinkedIdentity) (d : UserDoc) : UserDoc :=
  d <| u_identities ::= List.filter (λ x, negb (bool_decide (x = i))) |>.
Definition user_id_is (userId : string) (d : UserDoc) : bool := bool_decide (u_id d = userId).

Definition link (userId provider subject : string) : prog (world P) UserDoc :=
  user ← find_one_and_update (user_id_is userId) (add_identity (mkLinkedIdentity provider subject));
  match user with
  | Some u => mret u
  | None => Throw (ValidationError "User not found" "USER_NOT_FOUND")
  end.
Definition unlink (userId provider subject : string) : prog (world P) (option UserDoc) :=
  find_one_and_update (user_id_is userId) (pull_identity (mkLinkedIdentity provider subject)).

Definition provisioned_user (input : LinkIdentityInput) (email id : string) : UserDoc :=
  mkUserDoc id (lk_tenantId input) (Some (email_setter email)) None true false true 0 None
    [mkLinkedIdentity (lk_provider input) (lk_subject input)] 0 None false None None 0 None [].
Definition IDENTITY_UNLINKED : exn := ValidationError "No matching local user for federated identity" "IDENTITY_UNLINKED".

(** [resolve]; the boolean is [linked]. *)
Definition profile_email (input : LinkIdentityInput) : option string :=
  match lk_profile input with Some p => js_lower <$> fp_email p | None => None end.
Definition resolve (input : LinkIdentityInput) : prog (world P) (UserDoc * bool) :=
  existing ← findByProvider (lk_tenantId input) (lk_provider input) (lk_subject input);
  match existing with
  | Some u => mret (u, false)
  | None =>
    if truthy (lk_userId input) then
      u ← link (nullish (lk_userId input) "") (lk_provider input) (lk_subject input); mret (u, true)
    else if negb (truthy (profile_email input)) || negb (nullish (lk_autoProvision input) false) then
      Throw IDENTITY_UNLINKED
    else
      id ← draw newObjectId;
      let user := provisioned_user input (nullish (profile_email input) "") id in
      create user ;;
      mret (user, true)
  end.

(** *** Resolution *)
Lemma add_identity_has i d : i ∈ u_identities (add_identity i d).
Proof. unfold add_identity. cbn. case_bool_decide; [done|]. apply elem_of_app. right. by apply list_elem_of_singleton. Qed.
Lemma has_identity_member tenantId provider subject d :
  u_tenantId d = tenantId → mkLinkedIdentity provider subject ∈ u_identities d → has_identity tenantId provider subject d = true.
Proof.
  intros Ht Hi%list_elem_of_In. unfold has_identity. rewrite bool_decide_true by done. cbn [andb].
  apply andb_true_iff. split; apply existsb_exists; eexists; (split; [exact Hi|]); by apply bool_decide_true.
Qed.

Lemma run_resolve input w :
  healthy w →
  match List.find (has_identity (lk_tenantId input) (lk_provider input) (lk_subject input)) (docs (users w)) with
  | Some u => run (resolve input) w = (w, inr (u, false))
  | None =>
    if truthy (lk_userId input) then
      let i := mkLinkedIdentity (lk_provider input) (lk_subject input) in
      run (resolve input) w = (w <| users ::= m_update_one (user_id_is (nullish (lk_userId input) "")) (add_identity i) |>,
        match List.find (user_id_is (nullish (lk_userId input) "")) (docs (users w)) with
        | Some u => inr (add_identity i u, true)
        | None => inl (ValidationError "User not found" "USER_NOT_FOUND")
        end)
    else if negb (truthy (profile_email input)) || negb (nullish (lk_autoProvision input) false) then
      run (resolve input) w = (w, inl IDENTITY_UNLINKED)
    else
      let user := provisioned_user input (nullish (profile_email input) "") (newObjectId (draws w)) in
      if existsb (user_clash user) (docs (users w)) then
        run (resolve input) w = (w <| draws ::= S |>, inl duplicate_key)
      else ∃ c, run (resolve input) w = (w <| draws ::= S |> <| users := c |>, inr (user, true)) ∧
        inserted user (docs (users w)) (docs c)
  end.
Proof.
  intros Hh. unfold resolve, findByProvider. rewrite run_bind, run_find_one by done. change (tbl w) with (users w).
  destruct (List.find (has_identity _ _ _) _) as [u|]; [done|]. destruct (truthy (lk_userId input)).
  { cbv zeta. unfold link. rewrite !run_bind, run_find_one_and_update by done. change (tbl w) with (users w).
    by destruct (List.find _ _). }
  destruct (_ || _); [done|]. cbv zeta. run_step.
  set (user := provisioned_user _ _ _). set (w1 := w <| draws ::= S |>). assert (healthy w1) by done. rewrite run_bind.
  destruct (existsb (user_clash user) (docs (users w))) eqn:Hc.
  - by rewrite (run_create_clash user w1).
  - destruct (run_create user w1) as (c & -> & Hi); [done..|]. by exists c.
Qed.

(** Resolving an identity settles it: when [resolve] answers a user on a healthy
    store, that user holds the identity, only that user's identities changed or one
    user was added, and unless the user belongs to another tenant, resolving the
    same subject again, with or without a user id, answers a user that holds the
    identity, links nothing and writes nothing. *)
Theorem resolve_settles input w w1 u linked :
  healthy w → run (resolve input) w = (w1, inr (u, linked)) →
  has_identity (u_tenantId u) (lk_provider input) (lk_subject input) u = true ∧ In u (docs (users w1)) ∧
  (linked = false → w1 = w) ∧
  (∀ x, In x (docs (users w1)) → In x (docs (users w)) ∨ x = u) ∧
  (u_tenantId u = lk_tenantId input → ∀ again,
     lk_tenantId again = lk_tenantId input → lk_provider again = lk_provider input → lk_subject again = lk_subject input →
     ∃ u', run (resolve again) w1 = (w1, inr (u', false)) ∧
       has_identity (lk_tenantId input) (lk_provider input) (lk_subject input) u' = true).
Proof.
  intros Hh Hr. pose proof (run_resolve input w Hh) as Hs. set (i := mkLinkedIdentity (lk_provider input) (lk_subject input)) in *.
  assert (healthy w1 ∧ has_identity (u_tenantId u) (lk_provider input) (lk_subject input) u = true ∧ In u (docs (users w1)) ∧
    (linked = false → w1 = w) ∧ (∀ x, In x (docs (users w1)) → In x (docs (users w)) ∨ x = u)) as (Hh1 & Hi & Hin & Hl & Hx).
  { destruct (List.find (has_identity _ _ _) _) as [x|] eqn:Hf.
    { rewrite Hs in Hr. injection Hr as <- <- <-. apply List.find_some in Hf as [Hin Hx].
      assert (u_tenantId x = lk_tenantId input) as -> by (unfold has_identity in Hx; by repeat case_bool_decide).
      split_and!; auto. }
    destruct (truthy (lk_userId input)).
    { rewrite Hs in Hr. destruct (List.find _ _) as [x|] eqn:Hx; [|done]. injection Hr as <- <- <-.
      cbn [users set_field]. rewrite m_update_one_law. split; [done|]. split.
      { apply has_identity_member; [done|]. apply (add_identity_has i). }
      destruct (alter_first_some _ (add_identity i) _ _ Hx) as (l1 & l2 & He & -> & _). split; [apply in_elt|]. split; [done|].
      intros y Hy. rewrite He. rewrite !in_app_iff in *. cbn in *. naive_solver. }
    destruct (_ || _); [by rewrite Hs in Hr|]. cbv zeta in Hs. destruct (existsb _ _); [by rewrite Hs in Hr|].
    destruct Hs as (c & Hs & Hins). rewrite Hs in Hr. injection Hr as <- <- <-. cbn [users set_field]. split; [done|]. split.
    { apply has_identity_member; [done|]. by apply list_elem_of_singleton. }
    split; [|split; [done|]].
    - apply (inserted_In _ _ _ _ Hins). by left.
    - intros y Hy%(inserted_In _ _ _ _ Hins). destruct Hy; auto. }
  split_and!; try done. intros Ht again E0 E1 E2.
  pose proof (run_resolve again w1 Hh1) as Ha. rewrite E0, E1, E2 in Ha. clear Hs. revert Ha.
  destruct (List.find (has_identity _ _ _) _) as [u'|] eqn:Hf.
  - intros Ha. exists u'. split; [done|]. by apply List.find_some in Hf as [_ Hf].
  - exfalso. rewrite Ht in Hi. pose proof (List.find_none _ _ Hf u Hin). congruence.
Qed.
End federated_identity.

(** ** Identity tokens *)
Section id_token.
Context {C : JwtCrypto}.

(** The algorithm a header names; the libraries refuse any other string. *)
Definition alg_of_string (s : string) : option JwtSigningAlgorithm :=
  List.find (λ a, String.eqb (alg_string a) s)
    [RS256; ES256; EdDSA; HS256; ML_DSA_65; ML_DSA_87; hybrid_RS256_MLDSA65; hybrid_ES256_MLDSA65].
(** [verifyJwt] of [crypto/src/jwt.ts], with its [legacyClassicalKey]. *)
Definition legacyClassicalKey (kid privateKeyPem publicKeyPem : string) (a : JwtSigningAlgorithm) (now : Z) : SigningKey :=
  mkSigningKey kid a (if String.eqb publicKeyPem "" then None else Some publicKeyPem)
    (if String.eqb privateKeyPem "" then None else Some privateKeyPem) None None now ACTIVE None None None
    (now + 365 * 24 * 60 * 60 * 1000).
Definition verifyJwt (token publicKeyPem : string) (a : JwtSigningAlgorithm) (options : VerifyOptions) (now : Z) :
    jwt_error + json :=
  kid ← readKid token;
  verifyToken token (legacyClassicalKey kid "" publicKeyPem a now) options now.

(** [decodeIdToken]. *)
Definition decodeIdToken (token : string) : jwt_error + (json * json) :=
  match split_dot token with
  | h :: p :: _ =>
    if String.eqb h "" || String.eqb p "" then inl (PlainError "Malformed id_token")
    else
      header ← from_some (parse (from_base64 h)) (PlainError "Unexpected token");
      claims ← from_some (parse (from_base64 p)) (PlainError "Unexpected token");
      inr (header, claims)
  | _ => inl (PlainError "Malformed id_token")
  end.

Record VerifyIdTokenOptions := mkVerifyIdTokenOptions {
  vi_issuer : string; vi_audience : list string; vi_nonce : option string; vi_leewayMs : option Z }.
(** [String(v)] of a member of a parsed object. *)
Definition js_string_of (v : option json) : string :=
  match v with None => "undefined" | Some JNull => "null" | _ => string_or_empty v end.
(** [{ ...a, ...b }] of objects; the values spread nothing when they are not. *)
Definition members (v : json) : list (string * json) := match v with JObj l => l | _ => [] end.
Definition spread (a b : json) : json :=
  JObj (foldl (λ o kv, map_set kv.1 kv.2 o) [] (members a ++ members b)).
(** [v < n] for a member [v] and a number [n]: not of a missing or textual value. *)
Definition member_below (v : option json) (n : Z) : bool :=
  match v with
  | Some (JNum e) => e <? n
  | Some JNull => 0 <? n
  | Some (JBool b) => (if b then 1 else 0) <? n
  | Some (JStr s) => match js_Number (js_trim s) with Some e => e <? n | None => false end
  | _ => false
  end.

(** [verifyIdToken] at an instant; the key resolver may throw. *)
Definition verifyIdToken (token : string) (o : VerifyIdTokenOptions) (jwksProvider : option json → jwt_error + string)
    (now : Z) : jwt_error + json :=
  '(header, claims) ← decodeIdToken token;
  iss ← get_prop claims "iss";
  require (match iss with Some v => is_str v (vi_issuer o) | None => false end) (PlainError "id_token issuer mismatch") ≫= λ _,
  aud ← get_prop claims "aud";
  let tokenAudiences := match aud with Some (JArr l) => l | _ => [JStr (js_string_of aud)] end in
  require (existsb (λ a, match a with JStr s => bool_decide (s ∈ vi_audience o) | _ => false end) tokenAudiences)
    (PlainError "id_token audience mismatch") ≫= λ _,
  kid ← get_prop header "kid";
  pem ← jwksProvider kid;
  alg ← get_prop header "alg";
  algorithm ← match alg with
              | None | Some JNull => inr RS256
              | Some (JStr s) => from_some (alg_of_string s) (PlainError "is not a valid algorithm")
              | Some _ => inl (PlainError "is not a valid algorithm")
              end;
  verified ← verifyJwt token pem algorithm (mkVerifyOptions None None None) now;
  let claims2 := spread claims verified in
  exp ← get_prop claims2 "exp";
  require (negb (member_below exp (now / 1000 - nullish (vi_leewayMs o) 60000 / 1000))) (PlainError "id_token expired") ≫= λ _,
  nonce ← get_prop claims2 "nonce";
  require (negb (truthy (vi_nonce o)) || match nonce with Some v => is_str v (nullish (vi_nonce o) "") | None => false end)
    (PlainError "id_token nonce mismatch") ≫= λ _,
  inr claims2.

(** *** What an accepted identity token shows *)
Lemma alg_of_string_spec s a : alg_of_string s = Some a → alg_string a = s.
Proof. unfold alg_of_string. intros [_ H]%List.find_some. by apply String.eqb_eq. Qed.

Lemma get_prop_some v k x : get_prop v k = inr (Some x) → ∃ l, v = JObj l ∧ obj_get k l = Some x.
Proof. destruct v; try done. intros [= H]. eauto. Qed.

(** A token this package verifies itself under a resolved key. *)
Lemma verifyJwt_EdDSA token pem opts now claims :
  verifyJwt token pem EdDSA opts now = inr claims →
  ∃ h p sig, split_dot token = [h; p; sig] ∧ parse (from_base64 p) = Some claims ∧
    nodeVerify None (h +:+ "." +:+ p) pem (from_base64 sig) = Some true ∧ assertJwtClaims claims opts now = inr tt.
Proof.
  unfold verifyJwt. intros (kid & _ & Hv)%bind_ok. apply verifyToken_sound in Hv; [|done].
  destruct Hv as (h & p & segments & header & Hs & _ & _ & Hp & Hsig & Ha). unfold signatures_ok in Hsig. cbn in Hsig.
  destruct Hsig as (c & pub & -> & Hpub & Hn). destruct (String.eqb pem ""); [done|]. injection Hpub as <-. by exists h, p, c.
Qed.

(** An identity token is accepted only for the issuer and an audience the client
    names, with the nonce it sent, under the key the provider resolves and the
    algorithm the token names, when its numeric expiry plus the leeway has not
    passed; for EdDSA the signature covers the very claims answered, and a token
    past its numeric expiry is refused whatever the leeway. *)
Theorem id_token_sound token o jwks now claims :
  verifyIdToken token o jwks now = inr claims →
  ∃ header payload l kid pem a verified s,
    decodeIdToken token = inr (header, payload) ∧ payload = JObj l ∧ obj_get "iss" l = Some (JStr (vi_issuer o)) ∧
    s ∈ vi_audience o ∧
    (match obj_get "aud" l with Some (JArr vs) => In (JStr s) vs | v => js_string_of v = s end) ∧
    jwks kid = inr pem ∧ (get_prop header "alg" = inr (Some (JStr (alg_string a))) ∨ a = RS256) ∧
    verifyJwt token pem a (mkVerifyOptions None None None) now = inr verified ∧ claims = spread payload verified ∧
    (∀ e, get_prop claims "exp" = inr (Some (JNum e)) → now / 1000 - nullish (vi_leewayMs o) 60000 / 1000 <= e) ∧
    (∀ n, vi_nonce o = Some n → n ≠ "" → get_prop claims "nonce" = inr (Some (JStr n))) ∧
    (a = EdDSA → ∃ h p sig, split_dot token = [h; p; sig] ∧ verified = payload ∧ parse (from_base64 p) = Some payload ∧
       nodeVerify None (h +:+ "." +:+ p) pem (from_base64 sig) = Some true ∧
       ∀ e, obj_get "exp" l = Some (JNum e) → now / 1000 < e).
Proof.
  unfold verifyIdToken. intros ([header payload] & Hd & H)%bind_ok.
  apply bind_ok in H as (iss & Hiss & H). apply bind_ok in H as ([] & Hi%require_ok & H).
  destruct iss as [iss|]; [|done]. apply is_str_ok in Hi as ->. apply get_prop_some in Hiss as (l & -> & Hiss).
  apply bind_ok in H as (aud & Haud & H). injection Haud as <-. apply bind_ok in H as ([] & Ha%require_ok & H).
  apply bind_ok in H as (kid & _ & H). apply bind_ok in H as (pem & Hpem & H). apply bind_ok in H as (alg & Halg & H).
  apply bind_ok in H as (a & Ha' & H). apply bind_ok in H as (verified & Hv & H).
  apply bind_ok in H as (exp & Hexp & H). apply bind_ok in H as ([] & He%require_ok & H).
  apply bind_ok in H as (nonce & Hnonce & H). apply bind_ok in H as ([] & Hn%require_ok & [= <-]).
  apply existsb_exists in Ha as (x & Hin & Hx). destruct x as [| | |s| |]; try done. apply bool_decide_eq_true in Hx.
  exists header, (JObj l), l, kid, pem, a, verified, s. split_and!; try done.
  - destruct (obj_get "aud" l) as [[]|]; cbn in Hin; try (destruct Hin as [[= Hin]|[]]; exact Hin). exact Hin.
  - destruct alg as [[| | |x| |]|]; try done; [right; by injection Ha'| |right; by injection Ha'].
    left. apply from_some_ok, alg_of_string_spec in Ha' as ->. done.
  - intros e Hee. rewrite Hee in Hexp. injection Hexp as <-. cbn in He. lia.
  - intros n Hno Hne. rewrite Hno, truthy_nonempty in Hn by done. cbn [negb orb nullish] in Hn.
    destruct nonce as [v|]; [|done]. by apply is_str_ok in Hn as ->.
  - intros ->. destruct (verifyJwt_EdDSA _ _ _ _ _ Hv) as (h & p & sig & Hs & Hp & Hsig & Has).
    unfold decodeIdToken in Hd. rewrite Hs in Hd. destruct (_ || _); [done|].
    apply bind_ok in Hd as (hd & _ & Hd). apply bind_ok in Hd as (cl & Hc%from_some_ok & [= <- Heq]). subst cl.
    assert (verified = JObj l) as -> by congruence.
    exists h, p, sig. split_and!; try done. by apply (assertJwtClaims_ok l) in Has as [He' _].
Qed.
End id_token.

(** ** Providers *)
Record ProviderProfile := mkProviderProfile {
  pp_subject : string; pp_email : option string; pp_emailVerified : option bool; pp_name : option string;
  pp_picture : option string; pp_raw : option (list (string * json)) }.
Record SsoProfile := mkSsoProfile {
  sso_provider : string; sso_subject : string; sso_email : option string; sso_emailVerified : option bool;
  sso_name : option string; sso_picture : option string; sso_raw : list (string * json) }.
Definition toSsoProfile (provider : string) (p : ProviderProfile) : SsoProfile :=
  mkSsoProfile provider (pp_subject p) (pp_email p) (pp_emailVerified p) (pp_name p) (pp_picture p) (nullish (pp_raw p) []).
Record ExchangeResult := mkExchangeResult { xr_accessToken : string; xr_idToken : option string }.

Section providers.
Context {W Params : Type}.
(** [OAuthProviderAdapter]. *)
Record Adapter := mkAdapter {
  ad_name : string;
  ad_exchange : Params → prog W ExchangeResult;
  ad_getProfile : string → option string → prog W ProviderProfile }.

(** [ProviderRegistry]. *)
Definition Registry : Type := list (string * Adapter).
Definition register_adapter (a : Adapter) (r : Registry) : exn + Registry :=
  if String.eqb (ad_name a) "" then inl (JsError "A provider adapter must have a name")
  else if map_has (ad_name a) r then inl (JsError ("A provider named " +:+ quoted (ad_name a) +:+ " is already registered"))
  else inr (map_set (ad_name a) a r).
Fixpoint register_all (l : list Adapter) (r : Registry) : exn + Registry :=
  match l with
  | [] => inr r
  | a :: l => match register_adapter a r with inl e => inl e | inr r' => register_all l r' end
  end.
Definition get_adapter (name : string) (r : Registry) : exn + Adapter :=
  match map_get name r with
  | Some a => inr a
  | None => inl (pezhwan_error CProviderError ("OAuth provider " +:+ quoted name +:+ " is not configured") "PROVIDER_NOT_CONFIGURED")
  end.

(** The adapters of a registry are found under their own names. *)
Lemma register_all_spec l r r' :
  register_all l r = inr r' →
  NoDup (map ad_name l) ∧ (∀ a, In a l → ad_name a ≠ "" ∧ map_get (ad_name a) r = None) ∧
  ∀ name, map_get name r' = match List.find (λ a, String.eqb (ad_name a) name) l with
                            | Some a => Some a
                            | None => map_get name r
                            end.
Proof.
  revert r. induction l as [|a l IH]; intros r; cbn [register_all].
  { intros [= <-]. split; [constructor|]. by split. }
  unfold register_adapter. destruct (String.eqb_spec (ad_name a) "") as [|Hne]; [done|].
  destruct (map_has (ad_name a) r) eqn:Hh; [done|]. apply map_has_false_get in Hh.
  intros (Hnd & Hl & Hget)%IH. cbn [map List.find]. split; [|split].
  - constructor; [|done]. intros (b & Hb & Hin)%list_elem_of_In%in_map_iff. destruct (Hl b Hin) as [_ Hb'].
    rewrite Hb, map_get_set, String.eqb_refl in Hb'. done.
  - intros b [<-|Hin]; [done|]. destruct (Hl b Hin) as [Hb Hb']. split; [done|]. rewrite map_get_set in Hb'.
    by destruct (String.eqb _ _).
  - intros name. rewrite Hget, map_get_set. destruct (String.eqb_spec (ad_name a) name) as [<-|Hn].
    + rewrite String.eqb_refl. destruct (List.find _ l) as [b|] eqn:Hf; [|done].
      apply List.find_some in Hf as [Hin Hb%String.eqb_eq]. destruct (Hl b Hin) as [_ Hb']. by rewrite Hb, map_get_set, String.eqb_refl in Hb'.
    + destruct (List.find _ l); [done|]. by rewrite (proj2 (String.eqb_neq _ _)) by congruence.
Qed.

(** [OAuthFederationService.handleCallback] with its callbacks. *)
Context (registry : Registry) (findUserByIdentity : string → string → prog W (option string))
  (createUserFromProfile : SsoProfile → prog W string) (linkIdentity : string → string → string → SsoProfile → prog W ()).
Definition from_either {A} (r : exn + A) : prog W A := match r with inl e => Throw e | inr a => Ret a end.
Definition handleCallback (providerName : string) (params : Params) : prog W (string * bool * SsoProfile) :=
  adapter ← from_either (get_adapter providerName registry);
  exchange ← ad_exchange adapter params;
  profile ← ad_getProfile adapter (xr_accessToken exchange) (xr_idToken exchange);
  let sso := toSsoProfile providerName profile in
  existing ← findUserByIdentity providerName (pp_subject profile);
  match existing with
  | Some userId => linkIdentity userId providerName (pp_subject profile) sso ;; mret (userId, false, sso)
  | None =>
    userId ← createUserFromProfile sso;
    linkIdentity userId providerName (pp_subject profile) sso ;;
    mret (userId, true, sso)
  end.
End providers.

(** ** Token exchange *)
Section token_exchange.
Context {S Claims : Type} (verifySubject : string → exn + Claims)
  (reserveToken : Claims → list string → S → S * (exn + (string * Z))) (date : S → Z).

Record TokenExchangeParams := mkTokenExchangeParams {
  te_subjectToken : string; te_subjectTokenType : option string; te_requestedScope : option (list string);
  te_audience : option string; te_resource : option string }.
Record TokenExchangeResult := mkTokenExchangeResult {
  te_accessToken : string; te_expiresIn : Z; te_issuedTokenType : string; te_scope : string; te_issuedAt : Z }.
Definition ACCESS_TOKEN_TYPE : string := "urn:ietf:params:oauth:token-type:access_token".
Definition exchange_token (params : TokenExchangeParams) : prog S TokenExchangeResult :=
  throw_if (String.eqb (te_subjectToken params) "") (ValidationError "subject_token is required" "VALIDATION_FAILED") ;;
  claims ← match verifySubject (te_subjectToken params) with inl e => Throw e | inr c => mret c end;
  let scope := nullish (te_requestedScope params) [] in
  r ← Atom (reserveToken claims scope) Ret;
  '(accessToken, expiresIn) ← match r with inl e => Throw e | inr a => mret a end;
  t ← Atom (λ s, (s, date s)) Ret;
  mret (mkTokenExchangeResult accessToken expiresIn ACCESS_TOKEN_TYPE (String.concat " " scope) t).

(** The audience, the resource and the type of the subject token are not looked at:
    whatever they are, the exchange is the one without them. *)
Lemma exchange_ignores_audience params s :
  run (exchange_token params) s =
  run (exchange_token (mkTokenExchangeParams (te_subjectToken params) None (te_requestedScope params) None None)) s.
Proof. done. Qed.
End token_exchange.
