(* ===== verification/AuthEngine.v ===== *)
(** * Authentication engine

    [packages/core/src/auth/auth.engine.ts]: the flows of registration, login,
    refresh, password change and reset, magic links and e-mail verification,
    composed from the services of the other files. *)

From S2P Require Export Password.
From S2P Require Export Session.
From S2P Require Export Otp.
From S2P Require Export Mfa.
From S2P Require Export Authorization.
From S2P Require Export VerificationToken.
From S2P Require Export Frames.

Section engine.
Context {P : Platform}.

Record UserCreateInput := mkUserCreateInput {
  uc_tenantId : string;
  uc_applicationId : string;
  uc_email : option string;
  uc_phone : option string;
  uc_password : option string;
  uc_metadata : option (list (string * json));
}.

Record UserLookupInput := mkUserLookupInput {
  ul_tenantId : option string;
  ul_email : option string;
  ul_phone : option string;
  ul_userId : option string;
}.

Record IssuedTokens := mkIssuedTokens {
  it_accessToken : string; it_refreshToken : string; it_session : CreatedSession }.

(** [LoginResult]: the two shapes the flows return. *)
Inductive LoginResult :=
| MfaRequired (userId : string) (user : UserDoc)
| LoggedIn (user : UserDoc) (tokens : IssuedTokens).

(** The device part of a request. *)
Record DeviceInfo := mkDeviceInfo { dv_ip : option string; dv_userAgent : option string; dv_deviceLabel : option string }.

(** [AuthEngineDeps] with the options the flows read.  The account-state service
    has no state of its own. *)
Record AuthEngine := mkAuthEngine {
  en_tenantId : string;
  en_applicationId : string;
  en_issuer : string;
  en_passwordPolicy : PasswordPolicy;
  en_passwordHashParams : option Argon2Options;
  en_tokens : TokenService;
  en_sessions : SessionService;
  en_otp : OtpService;
  en_authorization : AuthorizationService (P := P);
  en_audit : option AuditService;
  en_mfa : option MfaService;
  en_verificationTokens : VerificationTokenService;
  en_lookupUser : option (UserLookupInput → prog (world P) (option UserDoc));
}.

Variable e : AuthEngine.

(** ** Helpers *)
(** [withAccountStore]. *)
Definition ACCOUNT_STORE_UNAVAILABLE : exn :=
  SecurityDependencyError "Account store unavailable" "FAILED_SECURITY_DEPENDENCY".
Definition withAccountStore {A} (op : prog (world P) A) : prog (world P) A :=
  try_catch op (λ err, if is_pezhwan err then Throw err else Throw ACCOUNT_STORE_UNAVAILABLE).

(** [findUser]. *)
Definition user_query (i : UserLookupInput) (d : UserDoc) : bool :=
  bool_decide (u_tenantId d = en_tenantId e) &&
  (if truthy (ul_userId i) then bool_decide (Some (u_id d) = ul_userId i)
   else if truthy (ul_email i) then bool_decide (u_email d = option_map email_setter (ul_email i))
   else if truthy (ul_phone i) then bool_decide (u_phone d = option_map js_trim (ul_phone i))
   else true).
Definition findUser (email phone userId : option string) : prog (world P) (option UserDoc) :=
  let i := mkUserLookupInput (Some (en_tenantId e)) email phone userId in
  match en_lookupUser e with
  | Some lookup => lookup i
  | None => find_one (user_query i)
  end.

(** [findUserById]. *)
Definition of_tenant (userId : string) (d : UserDoc) : bool :=
  bool_decide (u_id d = userId) && bool_decide (u_tenantId d = en_tenantId e).
Definition findUserById (userId : string) : prog (world P) (option UserDoc) := find_one (of_tenant userId).

(** [this.audit?.log({ eventType, userId, tenantId, applicationId, ip, metadata })]. *)
Definition engine_event (eventType userId tenantId applicationId : string) (ip : option string)
    (metadata : list (string * json)) : prog (world P) () :=
  audit_log (en_audit e) (mkAuditEntryInput eventType None (Some tenantId) (Some applicationId) (Some userId)
    None ip None (Some metadata)).

Definition ip_of (device : option DeviceInfo) : option string := device ≫= dv_ip.
Definition context_of (userId tenantId applicationId : string) (device : option DeviceInfo) : SessionContext :=
  mkSessionContext userId tenantId applicationId (device ≫= dv_ip) (device ≫= dv_userAgent)
    (device ≫= dv_deviceLabel).

(** [buildIdentity], [mintTokens]. *)
Definition buildIdentity (user : UserDoc) (sessionId : string) (authMethod : AuthMethod) (applicationId : string) :
    prog (world P) (AccessContext * Z) :=
  buildIdentityContext (mkAuthzContext (u_id user) (en_tenantId e) applicationId) sessionId authMethod.
Definition with_version (c : AccessContext) (tokenVersion : Z) : AccessContext :=
  mkAccessContext (ac_userId c) (ac_tenantId c) (ac_applicationId c) (ac_sessionId c) (ac_roles c)
    (ac_permissions c) (ac_authMethod c) (ac_scope c) (ac_clientId c) (Some tokenVersion).
Definition mintTokens (user : UserDoc) (session : CreatedSession) (applicationId : string)
    (authMethod : AuthMethod) : prog (world P) IssuedTokens :=
  identity ← buildIdentity user (cs_sessionId session) authMethod applicationId;
  accessToken ← signAccessToken (en_tokens e) (with_version identity.1 (u_tokenVersion user));
  mret (mkIssuedTokens accessToken (cs_refreshToken session) session).

Definition check_policy (password : string) : prog (world P) () :=
  let result := evaluatePassword password (en_passwordPolicy e) in
  throw_if (negb (pv_ok result)) (ValidationError (String.concat " " (pv_errors result)) "PASSWORD_POLICY").

(** ** Registration *)
Definition new_user (input : UserCreateInput) (id : string) (passwordHash : option string) : UserDoc :=
  mkUserDoc id (uc_tenantId input) (option_map email_setter (uc_email input)) (option_map js_trim (uc_phone input))
    false false true 0 passwordHash [] 0 None false None None 0 None (nullish (uc_metadata input) []).

Definition register (input : UserCreateInput) (device : option DeviceInfo) : prog (world P) (UserDoc * IssuedTokens) :=
  throw_if (negb (truthy (uc_email input)) && negb (truthy (uc_phone input)))
    (ValidationError "At least one identity handle (email or phone) is required" "IDENTITY_HANDLE_REQUIRED") ;;
  (if truthy (uc_password input) then check_policy (nullish (uc_password input) "")
   else throw_if (negb (truthy (uc_phone input)))
          (ValidationError "Password is required for email registration" "PASSWORD_REQUIRED")) ;;
  passwordHash ← (if truthy (uc_password input)
                  then h ← hashPassword (nullish (uc_password input) "") (en_passwordHashParams e); mret (Some h)
                  else mret None);
  id ← draw newObjectId;
  let doc := new_user input id passwordHash in
  create doc ;;
  session ← create_session (en_sessions e)
    (context_of id (uc_tenantId input) (uc_applicationId input) device);
  tokens ← mintTokens doc session (uc_applicationId input)
    (if truthy (uc_password input) then am_password else am_phone_otp);
  engine_event "USER_REGISTERED" id (uc_tenantId input) (uc_applicationId input) (ip_of device)
    [("channel", JStr (if truthy (uc_email input) then "email" else "phone"))]%string ;;
  mret (doc, tokens).

(** ** Login *)
Definition INVALID_CREDENTIALS : exn := AuthenticationError "Invalid credentials" "INVALID_CREDENTIALS".
Definition ACCOUNT_LOCKED (retryAfterMs : Z) : exn :=
  with_details (AuthenticationError "Account temporarily locked" "ACCOUNT_LOCKED")
    [("retryAfterMs", JNum retryAfterMs)]%string.
Definition ACCOUNT_DISABLED : exn := AuthenticationError "Account disabled" "ACCOUNT_DISABLED".
Definition INVALID_OTP : exn := AuthenticationError "Invalid or expired code" "INVALID_OTP".
Definition USER_NOT_FOUND : exn := AuthenticationError "User not found" "USER_NOT_FOUND".
Definition INVALID_LINK : exn := AuthenticationError "Invalid or expired token" "INVALID_TOKEN".

Definition MAX_FAILED_LOGINS : Z := 5.
Definition LOGIN_LOCK_MS : Z := 15 * 60000.

(** [recordFailedLogin]: the new count is computed from the document read before. *)
Definition set_failures (next : Z) (lockAt : option Z) (d : UserDoc) : UserDoc :=
  d <| u_failedLoginAttempts := next |> <| u_loginLockUntil := lockAt |>.
Definition recordFailedLogin (user : UserDoc) : prog (world P) () :=
  let next := u_failedLoginAttempts user + 1 in
  lockAt ← (if MAX_FAILED_LOGINS <=? next then t ← now; mret (Some (t + LOGIN_LOCK_MS)) else mret None);
  update_one (of_tenant (u_id user)) (set_failures next lockAt) ;;
  engine_event "LOGIN_FAILED" (u_id user) (en_tenantId e) (en_applicationId e) None
    [("attempts", JNum next); ("locked", JBool (bool_decide (lockAt ≠ None)))]%string ;;
  if bool_decide (lockAt ≠ None) then
    audit_log (en_audit e) (mkAuditEntryInput "ACCOUNT_LOCKED" None (Some (en_tenantId e))
      (Some (en_applicationId e)) (Some (u_id user)) None None None None)
  else mret tt.

(** [clearFailedLogin]. *)
Definition clearFailedLogin (user : UserDoc) : prog (world P) () :=
  update_one (of_tenant (u_id user)) (set_failures 0 None).

(** [completeLogin]. *)
Definition completeLogin (user : UserDoc) (authMethod : AuthMethod) (applicationId : string)
    (device : option DeviceInfo) : prog (world P) LoginResult :=
  session ← create_session (en_sessions e) (context_of (u_id user) (en_tenantId e) applicationId device);
  tokens ← mintTokens user session applicationId authMethod;
  engine_event "LOGIN_SUCCESS" (u_id user) (en_tenantId e) applicationId (ip_of device)
    [("authMethod", JStr (AuthMethod_string authMethod))]%string ;;
  mret (LoggedIn user tokens).

(** The answer when a second factor is due. *)
Definition mfa_pending (user : UserDoc) (authMethod applicationId : string) (device : option DeviceInfo) :
    prog (world P) LoginResult :=
  engine_event "LOGIN_SUCCESS" (u_id user) (en_tenantId e) applicationId (ip_of device)
    [("authMethod", JStr authMethod); ("mfaPending", JBool true)]%string ;;
  mret (MfaRequired (u_id user) user).

(** [user.loginLockUntil && new Date(user.loginLockUntil) > new Date()]. *)
Definition login_locked (user : UserDoc) (t : Z) : option Z :=
  match u_loginLockUntil user with Some until => if t <? until then Some until else None | None => None end.

(** [loginPassword]. *)
Definition loginPassword (applicationId : string) (email phone : option string) (password : string)
    (device : option DeviceInfo) : prog (world P) LoginResult :=
  found ← withAccountStore (findUser email phone None);
  match found with
  | None => Throw INVALID_CREDENTIALS
  | Some user =>
    t ← now;
    match login_locked user t with
    | Some until => t' ← now; Throw (ACCOUNT_LOCKED (until - t'))
    | None =>
      throw_if (negb (truthy (u_passwordHash user) && isArgon2Hash (nullish (u_passwordHash user) "")))
        INVALID_CREDENTIALS ;;
      if negb (verifyPassword password (nullish (u_passwordHash user) "")) then
        withAccountStore (recordFailedLogin user) ;;
        Throw INVALID_CREDENTIALS
      else
        throw_if (negb (u_isActive user)) ACCOUNT_DISABLED ;;
        withAccountStore (clearFailedLogin user) ;;
        second ← match en_mfa e with Some _ => withAccountStore (isEnabled (u_id user)) | None => mret false end;
        if (second : bool) then mfa_pending user "password" applicationId device
        else completeLogin user am_password applicationId device
    end
  end.

(** [loginOtp]. *)
Definition loginOtp (applicationId : string) (channel : OtpChannel) (target : string)
    (email phone : option string) (code : string) (device : option DeviceInfo) : prog (world P) LoginResult :=
  verification ← verifyOtp (en_otp e) channel target otp_login code;
  match verification with
  | Verified =>
    found ← findUser email phone None;
    match found with
    | None => Throw INVALID_OTP
    | Some user =>
      throw_if (negb (u_isActive user)) ACCOUNT_DISABLED ;;
      second ← match en_mfa e with Some _ => isEnabled (u_id user) | None => mret false end;
      if (second : bool) then mfa_pending user "email_otp" applicationId device
      else completeLogin user am_email_otp applicationId device
    end
  | _ => Throw INVALID_OTP
  end.

(** [verifyMfaLogin]. *)
Definition verifyMfaLogin (userId applicationId code : string) (device : option DeviceInfo) :
    prog (world P) (UserDoc * IssuedTokens) :=
  match en_mfa e with
  | None => Throw (AuthenticationError "MFA is not configured on this server" "MFA_NOT_CONFIGURED")
  | Some mfa =>
    found ← findUser None None (Some userId);
    throw_if (match found with Some u => negb (u_isActive u) | None => true end) ACCOUNT_DISABLED ;;
    ok ← verifyMfa mfa userId code;
    if negb (ok : bool) then
      engine_event "MFA_CHALLENGE_FAILED" userId (en_tenantId e) applicationId None
        [("authMethod", JStr "mfa_totp")]%string ;;
      Throw (AuthenticationError "Invalid MFA code" "INVALID_MFA_CODE")
    else
      userDoc ← findUser None None (Some userId);
      match userDoc with
      | None => Throw USER_NOT_FOUND
      | Some u =>
        session ← create_session (en_sessions e) (context_of userId (en_tenantId e) applicationId device);
        tokens ← mintTokens u session applicationId am_mfa_totp;
        engine_event "MFA_CHALLENGE_SUCCESS" userId (en_tenantId e) applicationId (ip_of device)
          [("authMethod", JStr "mfa_totp")]%string ;;
        engine_event "LOGIN_SUCCESS" userId (en_tenantId e) applicationId (ip_of device)
          [("authMethod", JStr "mfa_totp")]%string ;;
        mret (u, tokens)
      end
  end.

(** ** Sessions *)
Definition SESSION_CONTEXT_INVALID : exn :=
  AuthenticationError "Session context is invalid" "SESSION_CONTEXT_INVALID".

(** [refreshSession]. *)
Definition refreshSession (token : string) (device : option DeviceInfo) : prog (world P) IssuedTokens :=
  session ← refresh (en_sessions e) token
    (mkRefreshContext (device ≫= dv_ip) (device ≫= dv_userAgent) (device ≫= dv_deviceLabel) None None);
  throw_if (negb (String.eqb (cs_tenantId session) (en_tenantId e)) ||
            negb (String.eqb (cs_applicationId session) (en_applicationId e))) SESSION_CONTEXT_INVALID ;;
  identity ← buildIdentityContext (mkAuthzContext (cs_userId session) (en_tenantId e) (en_applicationId e))
    (cs_sessionId session) am_password;
  user ← findUserById (cs_userId session);
  accessToken ← signAccessToken (en_tokens e)
    (with_version identity.1 (match user with Some u => u_tokenVersion u | None => 0 end));
  mret (mkIssuedTokens accessToken (cs_refreshToken session) session).

(** ** Passwords *)
Definition set_password (hash : string) (version : Z) (d : UserDoc) : UserDoc :=
  d <| u_passwordHash := Some hash |> <| u_tokenVersion := version |>.

(** [changePassword]. *)
Definition changePassword (userId applicationId currentPassword newPassword : string) : prog (world P) () :=
  check_policy newPassword ;;
  found ← find_one (of_tenant userId);
  match found with
  | None => Throw USER_NOT_FOUND
  | Some user =>
    throw_if (negb (truthy (u_passwordHash user) && verifyPassword currentPassword (nullish (u_passwordHash user) "")))
      (AuthenticationError "Current password is incorrect" "INVALID_CURRENT_PASSWORD") ;;
    newHash ← hashPassword newPassword (en_passwordHashParams e);
    let nextVersion := u_tokenVersion user + 1 in
    update_one (of_tenant (u_id user)) (set_password newHash nextVersion) ;;
    invalidate (u_id user) ;;
    engine_event "PASSWORD_CHANGED" userId (en_tenantId e) applicationId None
      [("tokenVersion", JNum nextVersion)]%string
  end.

(** The common end of both resets: the tokens are minted from the document read
    before the update. *)
Definition reset_credentials (hash : string) (version : Z) (d : UserDoc) : UserDoc :=
  set_failures 0 None (set_password hash version d).
Definition finish_reset (user : UserDoc) (applicationId newPassword : string) (authMethod : AuthMethod)
    (device : option DeviceInfo) : prog (world P) (UserDoc * IssuedTokens) :=
  newHash ← hashPassword newPassword (en_passwordHashParams e);
  let nextVersion := u_tokenVersion user + 1 in
  update_one (of_tenant (u_id user)) (reset_credentials newHash nextVersion) ;;
  invalidate (u_id user) ;;
  revokeAll (u_id user) (Some applicationId) None ;;
  session ← create_session (en_sessions e) (context_of (u_id user) (en_tenantId e) applicationId device);
  tokens ← mintTokens user session applicationId authMethod;
  engine_event "PASSWORD_RESET" (u_id user) (en_tenantId e) applicationId (ip_of device)
    [("tokenVersion", JNum nextVersion)]%string ;;
  mret (user, tokens).

(** [resetPassword]. *)
Definition resetPassword (applicationId : string) (channel : OtpChannel) (target code newPassword : string)
    (device : option DeviceInfo) : prog (world P) (UserDoc * IssuedTokens) :=
  check_policy newPassword ;;
  verification ← verifyOtp (en_otp e) channel target otp_password_reset code;
  match verification with
  | Verified =>
    found ← match channel with
            | ch_email => findUser (Some target) None None
            | ch_phone => findUser None (Some target) None
            end;
    match found with
    | None => Throw INVALID_OTP
    | Some user => finish_reset user applicationId newPassword am_password device
    end
  | _ => Throw INVALID_OTP
  end.

(** [resetPasswordWithToken]. *)
Definition resetPasswordWithToken (applicationId token newPassword : string) (device : option DeviceInfo) :
    prog (world P) (UserDoc * IssuedTokens) :=
  check_policy newPassword ;;
  redeemed ← redeem (en_verificationTokens e) token;
  throw_if (negb (bool_decide (rr_kind redeemed = password_reset))) INVALID_LINK ;;
  found ← findUser None None (Some (rr_userId redeemed));
  match found with
  | None => Throw USER_NOT_FOUND
  | Some user => finish_reset user applicationId newPassword am_email_otp device
  end.

(** ** Magic links and verification tokens *)
(** [decoysFor]: the answer for unknown addresses. *)
Definition decoy_pad (target : string) : string :=
  let units := utf16 target in
  string_of_list (map (λ i, match nth_error units (i mod length units) with
                            | Some u => Ascii.ascii_of_nat (Z.to_nat (Z.land u 255))
                            | None => Ascii.ascii_of_nat 0
                            end) (seq 0 16)).
Definition decoysFor (target : string) : prog (world P) string :=
  t ← now; mret (to_base64url (decoy_pad target +:+ js_String t)).

(** The token of kind [kind] for the owner of an address, or a decoy. *)
Definition link_for (kind : VerificationTokenKind) (applicationId email : string) (redirectUri : option string)
    (user : UserDoc) : prog (world P) (string * Z) :=
  issue (en_verificationTokens e) (mkIssueTokenInput kind (en_tenantId e) applicationId (u_id user)
    (Some (js_lower email)) redirectUri None).

(** [forgotPassword]. *)
Definition forgotPassword (applicationId email : string) (redirectUri : option string) : prog (world P) (string * Z) :=
  found ← findUser (Some (js_lower email)) None None;
  match found with
  | None => token ← decoysFor email; mret (token, 900)
  | Some user =>
    link_for password_reset applicationId email
      (Some (nullish redirectUri (en_issuer e +:+ "/v1/auth/password/reset/confirm"))) user
  end.

(** [issueEmailVerification]. *)
Definition issueEmailVerification (applicationId email : string) (redirectUri : option string) :
    prog (world P) (string * Z) :=
  found ← findUser (Some (js_lower email)) None None;
  match found with
  | None => token ← decoysFor email; mret (token, 86400)
  | Some user => link_for email_verification applicationId email redirectUri user
  end.

(** [verifyEmailToken]. *)
Definition set_email_verified (d : UserDoc) : UserDoc := d <| u_emailVerified := true |>.
Definition verifyEmailToken (token : string) : prog (world P) () :=
  redeemed ← redeem (en_verificationTokens e) token;
  throw_if (negb (bool_decide (rr_kind redeemed = email_verification))) INVALID_LINK ;;
  update_one (of_tenant (rr_userId redeemed)) set_email_verified ;;
  engine_event "EMAIL_VERIFIED" (rr_userId redeemed) (rr_tenantId redeemed) (rr_applicationId redeemed) None
    (opt_field "email" (option_map JStr (rr_target redeemed))).

(** [sendMagicLink]. *)
Definition sendMagicLink (applicationId email : string) (redirectUri : option string) : prog (world P) (string * Z) :=
  found ← findUser (Some (js_lower email)) None None;
  match found with
  | None => token ← decoysFor email; mret (token, 900)
  | Some user =>
    issued ← link_for magic_link applicationId email redirectUri user;
    engine_event "MAGIC_LINK_SENT" (u_id user) (en_tenantId e) applicationId None
      [("email", JStr (js_lower email))]%string ;;
    mret issued
  end.

(** [redeemMagicLink]. *)
Definition redeemMagicLink (token : string) (device : option DeviceInfo) :
    prog (world P) (UserDoc * IssuedTokens * option string) :=
  redeemed ← redeem (en_verificationTokens e) token;
  throw_if (negb (bool_decide (rr_kind redeemed = magic_link))) INVALID_LINK ;;
  found ← findUser None None (Some (rr_userId redeemed));
  match found with
  | None => Throw USER_NOT_FOUND
  | Some user =>
    throw_if (negb (u_isActive user)) ACCOUNT_DISABLED ;;
    session ← create_session (en_sessions e)
      (context_of (u_id user) (rr_tenantId redeemed) (rr_applicationId redeemed) device);
    tokens ← mintTokens user session (rr_applicationId redeemed) am_magic_link;
    audit_log (en_audit e) (mkAuditEntryInput "MAGIC_LINK_VERIFIED" None (Some (rr_tenantId redeemed))
      (Some (rr_applicationId redeemed)) (Some (u_id user)) None (ip_of device) None None) ;;
    mret (user, tokens, rr_redirectUri redeemed)
  end.

(** [verifyEmail]. *)
Definition verifyEmail (applicationId email code : string) : prog (world P) () :=
  verification ← verifyOtp (en_otp e) ch_email email otp_verify_email code;
  match verification with
  | Verified =>
    found ← find_one (λ d, bool_decide (u_tenantId d = en_tenantId e) &&
                          bool_decide (u_email d = Some (email_setter email)));
    match found with
    | None => Throw USER_NOT_FOUND
    | Some user =>
      update_one (of_tenant (u_id user)) set_email_verified ;;
      engine_event "EMAIL_VERIFIED" (u_id user) (en_tenantId e) applicationId None [("email", JStr email)]%string
    end
  | _ => Throw INVALID_OTP
  end.
End engine.
