(* ===== verification/Login.v ===== *)
(** * What the flows of the authentication engine guarantee

    Password login, second factors, password changes and resets: the theorems
    about the definitions of AuthEngine.v. *)

From S2P Require Export AuthEngine.

(** ** Steps of the flows *)
Section steps.
Context {P : Platform} (e : AuthEngine).

#[local] Opaque current_key.
Lemma q_event ty u t a ip m : guarantee quiet (engine_event e ty u t a ip m).
Proof. apply q_audit. Qed.
Lemma q_getUserRoles c : guarantee (W := world P) quiet (getUserRoles c).
Proof. unfold getUserRoles. apply guarantee_bind; [apply q_find_all|]. intros l. cbn zeta. solve_guarantee. Qed.
Lemma q_getUserPermissions c : guarantee (W := world P) quiet (getUserPermissions c).
Proof.
  unfold getUserPermissions. apply guarantee_bind; [apply q_getUserRoles|]. intros l. cbn zeta. solve_guarantee.
Qed.
Lemma q_buildIdentityContext c s m : guarantee (W := world P) quiet (buildIdentityContext c s m).
Proof.
  apply guarantee_bind; [apply q_getUserRoles|]. intros r.
  apply guarantee_bind; [apply q_getUserPermissions|]. intros p. solve_guarantee.
Qed.
Lemma q_mintTokens u s a m : guarantee quiet (mintTokens e u s a m).
Proof.
  apply guarantee_bind; [apply q_buildIdentityContext|]. intros c.
  apply guarantee_bind; [apply q_signAccessToken|done].
Qed.

Lemma run_withAccountStore_ok {A} (op : prog (world P) A) w w' a :
  run (withAccountStore op) w = (w', inr a) → run op w = (w', inr a).
Proof. intros [H|(w1 & x & _ & H)]%run_catch_ok; [done|]. by destruct (is_pezhwan x). Qed.

Lemma run_withAccountStore {A} (op : prog (world P) A) w w' a :
  run op w = (w', inr a) → run (withAccountStore op) w = (w', inr a).
Proof. intros H. unfold withAccountStore. by rewrite run_catch, H. Qed.

Lemma run_findUser_by email phone w :
  en_lookupUser e = None → healthy w →
  run (withAccountStore (findUser e email phone None)) w =
  (w, inr (List.find (user_query e (mkUserLookupInput (Some (en_tenantId e)) email phone None)) (docs (users w)))).
Proof. intros Hl Hh. apply run_withAccountStore. unfold findUser. by rewrite Hl, run_find_one. Qed.

(** A stored active session of the user, carrying the refresh token of [s]. *)
Definition session_stored (userId tenantId applicationId : string) (s : CreatedSession) (w : world P) : Prop :=
  ∃ d, In d (docs (sessions w)) ∧ s_id d = cs_sessionId s ∧ s_status d = active ∧
    s_userId d = userId ∧ s_tenantId d = tenantId ∧ s_applicationId d = applicationId ∧
    s_expiresAt d = cs_expiresAt s ∧
    s_currentRefreshTokenHash d = hashRefreshToken (ss_tokens (en_sessions e)) (cs_refreshToken s).

(** Whatever fails, a created session is stored. *)
Lemma create_session_ok ctx w w' s :
  run (create_session (en_sessions e) ctx) w = (w', inr s) →
  session_stored (sc_userId ctx) (sc_tenantId ctx) (sc_applicationId ctx) s w'.
Proof.
  unfold create_session. intros Hr. first_step Hr w1 u Hl. unfold createRefreshToken in Hr.
  rewrite run_bind, run_draw, run_bind, run_draw, run_bind, run_now, run_bind, run_now, run_bind, run_draw in Hr.
  first_step Hr w2 u2 Hc. apply run_create_ok in Hc as [Hins _].
  unfold cacheLiveness in Hr. rewrite run_bind, run_redis_set in Hr. apply run_ret_ok in Hr as [-> ->].
  cbn [cs_sessionId cs_refreshToken]. eexists. split; [apply (inserted_In _ _ _ _ Hins); by left|]. done.
Qed.
End steps.

(** ** Signing in with a password *)
Section login.
Context {P : Platform} (e : AuthEngine).

(** The query for an e-mail address or a phone number. *)
Definition handle_query (email phone : option string) : UserDoc → bool :=
  user_query e (mkUserLookupInput (Some (en_tenantId e)) email phone None).

(** [user] can sign in with [password] at time [t]. *)
Definition may_login (email phone : option string) (password : string) (t : Z) (user : UserDoc) : Prop :=
  handle_query email phone user = true ∧ login_locked user t = None ∧ u_isActive user = true ∧
  ∃ h, u_passwordHash user = Some h ∧ isArgon2Hash h = true ∧ argon2_verify h password = inr true.

Lemma verifyPassword_true pw h : verifyPassword (P := P) pw h = true ↔ argon2_verify h pw = inr true.
Proof. unfold verifyPassword. destruct (argon2_verify h pw) as [x|[]]; naive_solver. Qed.

Lemma of_tenant_find u w email phone :
  unique_key u_id (docs (users w)) → In u (docs (users w)) → handle_query email phone u = true →
  List.find (of_tenant e (u_id u)) (docs (users w)) = Some u.
Proof.
  intros Hu Hin Hq. unfold handle_query, user_query in Hq. apply andb_true_iff in Hq as [Ht _].
  apply find_unique; [done| |].
  - unfold of_tenant. by rewrite bool_decide_true, Ht.
  - intros x Hx Hof. unfold of_tenant in Hof. bool_to_prop. by apply (unique_key_eq u_id (docs (users w))).
Qed.

(** Creating a session and minting its tokens, as the flows do it. *)
Lemma issue_session_ok {userId tenantId app} {am : AuthMethod} {u : UserDoc} {device w w1 w2 w3 s tk}
    {log : prog (world P) ()} {x} :
  run (create_session (en_sessions e) (context_of userId tenantId app device)) w = (w1, inr s) →
  run (mintTokens e u s app am) w1 = (w2, inr tk) → guarantee quiet log → run log w2 = (w3, inr x) →
  accounts_kept w w3 ∧ it_refreshToken tk = cs_refreshToken (it_session tk) ∧
  session_stored e userId tenantId app (it_session tk) w3.
Proof.
  intros Hs Htk Hq Hl. pose proof (run_kept _ _ _ _ (ak_create_session _ _) Hs) as K1.
  destruct (run_quiet _ _ _ _ (q_mintTokens e _ _ _ _) Htk) as [K2 S2].
  destruct (run_quiet _ _ _ _ Hq Hl) as [K3 S3]. split; [by do 2 (etrans; [eassumption|])|].
  unfold mintTokens in Htk. first_step Htk v1 c Hc. first_step Htk v2 a Ha. apply run_ret_ok in Htk as [-> ->].
  split; [done|]. apply create_session_ok in Hs as (d & Hin & Hd). exists d. split; [|exact Hd].
  cbn in S2. congruence.
Qed.

(** Completing a login stores a session and touches no account. *)
Lemma completeLogin_ok u m app device w w' r :
  run (completeLogin e u m app device) w = (w', inr r) →
  users w' = users w ∧ ∃ tokens, r = LoggedIn u tokens ∧
    it_refreshToken tokens = cs_refreshToken (it_session tokens) ∧
    session_stored e (u_id u) (en_tenantId e) app (it_session tokens) w'.
Proof.
  unfold completeLogin. intros Hr. first_step Hr w1 s Hs. first_step Hr w2 tk Htk. first_step Hr w3 x Hl.
  apply run_ret_ok in Hr as [-> ->].
  destruct (issue_session_ok Hs Htk (q_event e _ _ _ _ _ _) Hl) as (K & Ht & Hst).
  split; [by apply kept_users|]. by exists tk.
Qed.

Lemma mfa_pending_ok u am app device w w' r :
  run (mfa_pending e u am app device) w = (w', inr r) →
  r = MfaRequired (u_id u) u ∧ quiet w w'.
Proof.
  unfold mfa_pending. intros Hr. first_step Hr w1 x Hl. apply run_ret_ok in Hr as [-> ->].
  split; [done|]. exact (run_quiet _ _ _ _ (q_event e _ _ _ _ _ _) Hl).
Qed.

(** The second-factor gate of the logins. *)
Definition second_factor_due (u : UserDoc) : prog (world P) bool :=
  match en_mfa e with Some _ => withAccountStore (isEnabled (u_id u)) | None => mret false end.

Lemma second_factor_due_ok u w w' b :
  (∃ v, List.find (by_id (u_id u)) (docs (users w)) = Some v ∧ u_mfaEnabled v = u_mfaEnabled u) →
  run (second_factor_due u) w = (w', inr b) →
  b = match en_mfa e with Some _ => u_mfaEnabled u | None => false end ∧
  ∃ fs, w' = w <| faults := fs |> ∧ (healthy w → fs = []).
Proof.
  intros (v & Hv & Hvm) Hb. unfold second_factor_due in Hb.
  destruct (en_mfa e) as [mf|]; [|apply run_ret_ok in Hb as [-> ->]; split; [done|]; exists (faults w); by destruct w].
  apply run_withAccountStore_ok in Hb. unfold isEnabled in Hb. first_step Hb w2 x Hx.
  apply run_find_one_ok in Hx as [-> (fs & -> & Hhe)]. apply run_ret_ok in Hb as [-> ->].
  cbn [tbl users_table]. rewrite Hv. split; [done|]. by exists fs.
Qed.

Lemma second_factor_ok u am m app device w w' r :
  (∃ v, List.find (by_id (u_id u)) (docs (users w)) = Some v ∧ u_mfaEnabled v = u_mfaEnabled u) →
  run (second ← second_factor_due u;
       if (second : bool) then mfa_pending e u am app device else completeLogin e u m app device) w = (w', inr r) →
  users w' = users w ∧
  match r with
  | MfaRequired id u' => id = u_id u ∧ u' = u ∧ u_mfaEnabled u = true ∧ en_mfa e ≠ None ∧ sessions w' = sessions w
  | LoggedIn u' tokens => u' = u ∧ (en_mfa e = None ∨ u_mfaEnabled u = false) ∧
      it_refreshToken tokens = cs_refreshToken (it_session tokens) ∧
      session_stored e (u_id u) (en_tenantId e) app (it_session tokens) w'
  end.
Proof.
  intros Hv Hr. first_step Hr w1 b Hb. apply second_factor_due_ok in Hb as [-> (fs & -> & _)]; [|done].
  destruct (match en_mfa e with Some _ => u_mfaEnabled u | None => false end) eqn:Hmfa.
  - apply mfa_pending_ok in Hr as [-> [Hk Hs]]. split; [apply (kept_users _ _ Hk)|].
    destruct (en_mfa e); [|done]. repeat split; done.
  - apply completeLogin_ok in Hr as (Hk & tk & -> & Htk & Hst). split; [done|].
    split; [done|]. split; [|done]. destruct (en_mfa e); auto.
Qed.

(** The document a login clears, as the second factor finds it. *)
Lemma by_id_cleared u n lock l :
  unique_key u_id l → In u l → List.find (of_tenant e (u_id u)) l = Some u →
  List.find (by_id (u_id u)) (alter_first (of_tenant e (u_id u)) (set_failures n lock) l) = Some (set_failures n lock u).
Proof.
  intros Hu Hin Hf. apply find_alter_first_by; [|done|unfold by_id; by rewrite bool_decide_true].
  apply (find_by_key u_id _ _ (u_id u)); [done..|]. intros x. unfold by_id. by rewrite bool_decide_eq_true.
Qed.
(** A login that returns reached the gate with an account that may log in, its
    failures cleared. *)
Lemma loginPassword_gate app email phone password device w w' r :
  en_lookupUser e = None → unique_key u_id (docs (users w)) →
  run (loginPassword e app email phone password device) w = (w', inr r) →
  ∃ u fs, (healthy w → fs = []) ∧ In u (docs (users w)) ∧ may_login email phone password (clock w) u ∧
    let w1 := w <| faults := fs |> <| users := m_update_one (of_tenant e (u_id u)) (set_failures 0 None) (users w) |> in
    (∃ v, List.find (by_id (u_id u)) (docs (users w1)) = Some v ∧ u_mfaEnabled v = u_mfaEnabled u) ∧
    run (second ← second_factor_due u;
         if (second : bool) then mfa_pending e u "password" app device
         else completeLogin e u am_password app device) w1 = (w', inr r).
Proof.
  intros Hlk Hu Hr. unfold loginPassword in Hr. first_step Hr w1 found Hf. apply run_withAccountStore_ok in Hf.
  unfold findUser in Hf. rewrite Hlk in Hf. apply run_find_one_ok in Hf as [-> (fs & -> & Hhe)].
  change (tbl w) with (users w) in Hr.
  destruct (List.find _ (docs (users w))) as [u|] eqn:Hd; [|done]. apply find_some in Hd as [Hin Hq].
  rewrite run_bind, run_now in Hr. cbn [clock set_field] in Hr.
  destruct (login_locked u (clock w)) as [until|] eqn:Hlock; [by rewrite run_bind, run_now in Hr|].
  first_step Hr w1 x Hh. apply run_throw_if_ok in Hh as [Hh ->]. apply negb_false_iff, andb_true_iff in Hh as [Hh Harg].
  apply truthy_some in Hh as (h & Hh & _). rewrite Hh in *. cbn [nullish] in *.
  destruct (verifyPassword password h) eqn:Hv; cbn [negb] in Hr.
  2:{ first_step Hr w1 y Hy. done. }
  apply verifyPassword_true in Hv. first_step Hr w1 y Hact. apply run_throw_if_ok in Hact as [Hact%negb_false_iff ->].
  first_step Hr w2 z Hcl. apply run_withAccountStore_ok, run_update_one_ok in Hcl as (fs' & -> & Hhe').
  pose proof (of_tenant_find u w email phone Hu Hin Hq) as Hof.
  exists u, fs'. split; [intros Hw; by apply Hhe', Hhe|]. split; [done|]. split; [unfold may_login; eauto 10|]. cbn zeta. split; [|exact Hr].
  exists (set_failures 0 None u). split; [|done]. cbn. rewrite m_update_one_law. by apply by_id_cleared.
Qed.
End login.

(** ** Failed attempts *)
Section lockout.
Context {P : Platform} (e : AuthEngine) (app : string) (email phone : option string) (device : option DeviceInfo).
Hypothesis stored_users : en_lookupUser e = None.

Definition attempt (password : string) : prog (world P) LoginResult :=
  loginPassword e app email phone password device.

(** The account the handles select, open for password logins, after [k] failures. *)
Record targeted (h : string) (k : Z) (w : world P) : Prop := {
  tg_healthy : healthy w;
  tg_unique : unique_key u_id (docs (users w));
  tg_user : ∃ u, List.find (handle_query e email phone) (docs (users w)) = Some u ∧ u_passwordHash u = Some h ∧
    u_loginLockUntil u = None ∧ u_failedLoginAttempts u = k;
}.

(** The lock the [k]-th failure sets at [t]. *)
Definition lock_after (k t : Z) : option Z := if MAX_FAILED_LOGINS <=? k then Some (t + LOGIN_LOCK_MS) else None.

Lemma run_recordFailedLogin u w :
  healthy w →
  ∃ w', run (withAccountStore (recordFailedLogin e u)) w = (w', inr tt) ∧ quiet (w <| users := users w' |>) w' ∧
    users w' = m_update_one (of_tenant e (u_id u))
      (set_failures (u_failedLoginAttempts u + 1) (lock_after (u_failedLoginAttempts u + 1) (clock w))) (users w).
Proof.
  intros Hh. unfold withAccountStore. rewrite run_catch. unfold recordFailedLogin, lock_after.
  set (n := u_failedLoginAttempts u + 1). set (lk := if MAX_FAILED_LOGINS <=? n then Some (clock w + LOGIN_LOCK_MS) else None).
  assert (run (if MAX_FAILED_LOGINS <=? n then t ← now; mret (Some (t + LOGIN_LOCK_MS)) else mret None) w = (w, inr lk))
    as Hlk by (unfold lk; by destruct (MAX_FAILED_LOGINS <=? n)).
  rewrite run_bind, Hlk. run_step. set (w1 := upd_tbl _ w). rewrite run_bind.
  unfold engine_event. match goal with |- context [run (audit_log ?a ?i) w1] => destruct (run_audit_log a i w1) as (w2 & Hr2 & H2);
    pose proof (run_quiet _ _ _ _ (q_audit a i) Hr2) as Q2 end.
  rewrite Hr2. assert (users w2 = users w1) as Hus by (apply kept_users, Q2).
  assert (∀ w3, quiet w1 w3 → quiet (w <| users := users w3 |>) w3) as Hw1.
  { intros w3 Hq. pose proof (kept_users _ _ (proj1 Hq)) as Hu3. rewrite Hu3. exact Hq. }
  destruct (bool_decide (lk ≠ None)).
  - match goal with |- context [run (audit_log ?a ?i) w2] => destruct (run_audit_log a i w2) as (w3 & Hr3 & H3);
      pose proof (run_quiet _ _ _ _ (q_audit a i) Hr3) as Q3 end.
    rewrite Hr3. exists w3. split; [done|]. split; [apply Hw1; by etrans|].
    rewrite (kept_users _ _ (proj1 Q3)), Hus. done.
  - rewrite run_ret. exists w2. split; [done|]. split; [by apply Hw1|]. by rewrite Hus.
Qed.
(** While the account is locked nothing but the lock is looked at. *)
Lemma run_locked_attempt u until password w :
  healthy w → List.find (handle_query e email phone) (docs (users w)) = Some u →
  u_loginLockUntil u = Some until → clock w < until →
  run (attempt password) w = (w, inl (ACCOUNT_LOCKED (until - clock w))).
Proof.
  intros Hh Hf Hl Ht. unfold attempt, loginPassword. rewrite run_bind, run_findUser_by by done.
  unfold handle_query in Hf. rewrite Hf. run_step. unfold login_locked. rewrite Hl, (proj2 (Z.ltb_lt _ _) Ht).
  run_step. done.
Qed.

(** A wrong password is refused and counted; the fifth in a row locks. *)
Lemma run_wrong_attempt h k password w :
  targeted h k w → h ≠ "" → isArgon2Hash h = true → argon2_verify h password ≠ inr true →
  ∃ w', run (attempt password) w = (w', inl INVALID_CREDENTIALS) ∧ clock w <= clock w' ∧
    match lock_after (k + 1) (clock w) with
    | None => targeted h (k + 1) w'
    | Some until => healthy w' ∧ ∃ u, List.find (handle_query e email phone) (docs (users w')) = Some u ∧
        u_loginLockUntil u = Some until
    end.
Proof.
  intros [Hh Hu (u & Hf & Hpw & Hl & Hk)] Hne Ha Hv. unfold attempt, loginPassword.
  rewrite run_bind, run_findUser_by by done. pose proof Hf as Hf'. unfold handle_query in Hf. rewrite Hf. run_step. unfold login_locked. rewrite Hl. run_step.
  rewrite Hpw, (truthy_nonempty _ Hne). cbn [nullish]. rewrite Ha. cbn [negb andb].
  destruct (verifyPassword password h) eqn:Hvp; [by apply verifyPassword_true in Hvp|]. cbn [negb].
  rewrite run_bind. destruct (run_recordFailedLogin u w Hh) as (w' & -> & [Hq _] & Hus). rewrite Hk in Hus.
  exists w'. split; [done|]. pose proof Hq as (_ & Hc & _ & Hhe). cbn in Hc. split; [done|]. specialize (Hhe Hh).
  pose proof (find_some _ _ Hf') as [Hin Hqu].
  assert (∀ n lk, List.find (handle_query e email phone)
    (alter_first (of_tenant e (u_id u)) (set_failures n lk) (docs (users w))) = Some (set_failures n lk u)) as Hfind.
  { intros n lk. apply find_alter_first_by; [done|by eapply of_tenant_find|done]. }
  destruct (lock_after (k + 1) (clock w)) as [until|].
  - split; [done|]. exists (set_failures (k + 1) (Some until) u). rewrite Hus, m_update_one_law. by rewrite Hfind.
  - split; [done| |].
    + rewrite Hus, m_update_one_law. by apply unique_key_alter.
    + exists (set_failures (k + 1) None u). rewrite Hus, m_update_one_law. by rewrite Hfind.
Qed.

(** A row of refused logins. *)
Fixpoint refused_logins (passwords : list string) (w w' : world P) : Prop :=
  match passwords with
  | [] => w' = w
  | pw :: rest => ∃ w1, run (attempt pw) w = (w1, inl INVALID_CREDENTIALS) ∧ refused_logins rest w1 w'
  end.

Lemma run_guessed_passwords h passwords k w :
  h ≠ "" → isArgon2Hash h = true → targeted h k w →
  Forall (λ pw, argon2_verify h pw ≠ inr true) passwords →
  k + Z.of_nat (length passwords) = MAX_FAILED_LOGINS → (0 < length passwords)%nat →
  ∃ w' u until, refused_logins passwords w w' ∧ healthy w' ∧ clock w + LOGIN_LOCK_MS <= until ∧
    List.find (handle_query e email phone) (docs (users w')) = Some u ∧ u_loginLockUntil u = Some until.
Proof.
  intros Hne Ha. revert k w. induction passwords as [|pw pws IH]; intros k w Ht Hw Hk Hpos; [cbn in Hpos; lia|].
  apply Forall_cons in Hw as [Hpw Hw]. cbn [length refused_logins] in *.
  destruct (run_wrong_attempt h k pw w Ht Hne Ha Hpw) as (w1 & Hr1 & Hc1 & Hst). unfold lock_after in Hst.
  destruct pws as [|pw' pws].
  - cbn [length] in Hk. rewrite (proj2 (Z.leb_le _ _)) in Hst by lia. destruct Hst as (Hh1 & u & Hf & Hl).
    exists w1, u, (clock w + LOGIN_LOCK_MS). split; [by exists w1|]. repeat split; [done|lia|done|done].
  - cbn [length] in Hk. rewrite (proj2 (Z.leb_gt _ _)) in Hst by lia.
    destruct (IH (k + 1) w1 Hst Hw) as (w' & u & until & Hr & Hh' & Hun & Hf & Hl); [cbn [length]; lia|cbn; lia|].
    exists w', u, until. split; [by exists w1|]. repeat split; [done|lia|done|done].
Qed.
End lockout.

(** ** What the tokens of a login grant *)
Section access.
Context {P : Platform} (e : AuthEngine).

Definition keys_kept (w w' : world P) : Prop := keyStore w' = keyStore w.
#[export] Instance keys_kept_preorder : PreOrder keys_kept.
Proof. split; [done|]. unfold keys_kept. intros w1 w2 w3 ? ?. congruence. Qed.
Lemma kk_op {A} (f : world P → world P * (exn + A)) :
  (∀ w, keys_kept w (f w).1) → guarantee keys_kept (store_op f).
Proof. by apply guarantee_store_op; [apply _|]. Qed.
Lemma kk_create (d : SessionDoc) : guarantee keys_kept (create d).
Proof. apply kk_op. intros w. unfold insert_doc. by destruct (m_insert _ _ _). Qed.
Lemma kk_enforce u a : guarantee (W := world P) keys_kept (enforceSessionLimit (en_sessions e) u a).
Proof.
  unfold enforceSessionLimit. apply guarantee_bind; [by apply kk_op|]. intros n.
  destruct (_ <=? n); [|done]. apply guarantee_bind; [by apply kk_op|]. intros [d|]; [|done].
  apply guarantee_bind; [by apply guarantee_act|]. intros t. apply guarantee_bind; [by apply kk_op|]. done.
Qed.
Lemma kk_create_session ctx : guarantee (W := world P) keys_kept (create_session (en_sessions e) ctx).
Proof.
  apply guarantee_bind; [apply kk_enforce|]. intros _. do 5 (apply guarantee_bind; [by apply guarantee_act|]; intros ?).
  apply guarantee_bind; [apply kk_create|]. intros _. apply guarantee_bind; [by apply guarantee_act|done].
Qed.

(** The identity the access token of [user] carries. *)
Definition login_identity (user : UserDoc) (app sessionId : string) (m : AuthMethod) (w : world P) : AccessContext :=
  let c := mkAuthzContext (u_id user) (en_tenantId e) app in
  with_version (mkAccessContext (u_id user) (en_tenantId e) app sessionId (map r_name (roles_of c w))
    (permissions_of c w) m None None None) (u_tokenVersion user).

Lemma run_mintTokens_ok u s app m w w' tk :
  healthy w → run (mintTokens e u s app m) w = (w', inr tk) →
  it_session tk = s ∧ it_refreshToken tk = cs_refreshToken s ∧
  run (signAccessToken (en_tokens e) (login_identity u app (cs_sessionId s) m w)) w = (w', inr (it_accessToken tk)).
Proof.
  intros Hh Hr. unfold mintTokens, buildIdentity, buildIdentityContext in Hr. rewrite !run_bind in Hr.
  rewrite run_getUserRoles, run_bind, run_getUserPermissions, run_bind, run_now, run_ret in Hr by done.
  first_step Hr w1 a Ha. apply run_ret_ok in Hr as [-> ->]. do 2 (split; [done|]). exact Ha.
Qed.

(** Roles and permissions are read from collections the flows keep. *)
Lemma login_identity_kept u app s m w w' :
  accounts_kept w w' → login_identity u app s m w' = login_identity u app s m w.
Proof.
  intros (Ha & _). unfold accounts in Ha. injection Ha as _ _ _ _ _ _ Hp Hr Hra.
  unfold login_identity, permissions_of, roles_of. by rewrite Hp, Hr, Hra.
Qed.

(** A completed login on a healthy world, up to the log entry it ends with. *)
Lemma completeLogin_signed u m app device w w' u' tk :
  healthy w → run (completeLogin e u m app device) w = (w', inr (LoggedIn u' tk)) →
  ∃ w2 w3, keyStore w2 = keyStore w ∧ clock w <= clock w2 ∧ clock w2 <= clock w' ∧ healthy w' ∧ accounts_kept w w' ∧
    keyStore w' = keyStore w3 ∧
    run (signAccessToken (en_tokens e) (login_identity u app (cs_sessionId (it_session tk)) m w)) w2 =
      (w3, inr (it_accessToken tk)).
Proof.
  intros Hh. unfold completeLogin. intros Hr. first_step Hr w1 s Hs. first_step Hr w2 tk2 Htk. first_step Hr w3 x Hl.
  apply run_ret_ok in Hr as [-> [= -> ->]].
  pose proof (run_kept _ _ _ _ (ak_create_session _ _) Hs) as H1. pose proof H1 as (_ & Hc1 & _ & Hh1).
  destruct (run_quiet _ _ _ _ (q_mintTokens e _ _ _ _) Htk) as [H2 _].
  destruct (run_quiet _ _ _ _ (q_event e _ _ _ _ _ _) Hl) as [H3 _].
  destruct (run_mintTokens_ok u s app m w1 w2 tk2 (Hh1 Hh) Htk) as (Hses & _ & Hsign). subst s.
  exists w1, w2. split.
  { change w1 with (w1, @inr exn _ (it_session tk2)).1. rewrite <- Hs. apply (guarantee_run keys_kept), kk_create_session. }
  pose proof H2 as (_ & Hc2 & _ & Hh2). pose proof H3 as (_ & Hc3 & _ & Hh3). split; [done|]. split; [lia|].
  split; [auto|]. split; [by do 2 (etrans; [eassumption|])|]. split.
  - unfold engine_event in Hl. match type of Hl with run (audit_log ?a ?i) _ = _ =>
      destruct (run_audit_log a i w2) as (w4 & Hr4 & Ha) end. rewrite Hr4 in Hl. injection Hl as -> _.
    destruct Ha as (Ha & _). unfold rest in Ha. congruence.
  - rewrite <- (login_identity_kept u app _ m _ _ H1). exact Hsign.
Qed.
End access.

(** ** What the engine promises *)
Section properties.
Context {P : Platform} (e : AuthEngine).

(** C2: password login is sound whatever fails underway. *)
Theorem loginPassword_sound (app : string) (email phone : option string) (password : string)
    (device : option DeviceInfo) (w w' : world P) (r : LoginResult) :
  en_lookupUser e = None → unique_key u_id (docs (users w)) →
  run (loginPassword e app email phone password device) w = (w', inr r) →
  ∃ user, In user (docs (users w)) ∧ may_login e email phone password (clock w) user ∧
    docs (users w') = alter_first (of_tenant e (u_id user)) (set_failures 0 None) (docs (users w)) ∧
    match r with
    | MfaRequired id u => id = u_id user ∧ u = user ∧ u_mfaEnabled user = true ∧ en_mfa e ≠ None ∧
        sessions w' = sessions w
    | LoggedIn u tokens => u = user ∧ (en_mfa e = None ∨ u_mfaEnabled user = false) ∧
        it_refreshToken tokens = cs_refreshToken (it_session tokens) ∧
        session_stored e (u_id user) (en_tenantId e) app (it_session tokens) w'
    end.
Proof.
  intros Hlk Hu Hr. destruct (loginPassword_gate e _ _ _ _ _ _ _ _ Hlk Hu Hr) as (u & fs & _ & Hin & Hm & Hv & Hg).
  destruct (second_factor_ok _ _ _ _ _ _ _ _ _ Hv Hg) as [Hus Hres]. exists u. do 2 (split; [done|]). split; [|exact Hres].
  rewrite Hus. cbn. by rewrite m_update_one_law.
Qed.

(** C24: five wrong passwords in a row lock the account: for fifteen minutes every
    password login is refused, the right password included, and nothing is written. *)
Theorem five_failed_logins_lock (app : string) (email phone : option string) (device : option DeviceInfo)
    (h : string) (passwords : list string) (w : world P) :
  en_lookupUser e = None → targeted e email phone h 0 w → h ≠ "" → isArgon2Hash h = true →
  Forall (λ pw, argon2_verify h pw ≠ inr true) passwords → length passwords = 5%nat →
  ∃ w' until, refused_logins e app email phone device passwords w w' ∧ clock w + LOGIN_LOCK_MS <= until ∧
    ∀ password t, t < until →
      run (loginPassword e app email phone password device) (w' <| clock := t |>) =
      (w' <| clock := t |>, inl (ACCOUNT_LOCKED (until - t))).
Proof.
  intros Hlk Ht Hne Ha Hw Hl.
  destruct (run_guessed_passwords e app email phone device Hlk h passwords 0 w)
    as (w' & u & until & Hr & Hh & Hun & Hf & Hlock); [done..|by rewrite Hl|lia|].
  exists w', until. split; [done|]. split; [done|]. intros password t Hlt.
  by rewrite (run_locked_attempt e app email phone device Hlk u until password (w' <| clock := t |>)).
Qed.
End properties.
