(* ===== verification/Credentials.v ===== *)
(** * Changing and resetting credentials

    What [changePassword] and the password resets of the authentication engine
    guarantee about passwords, tokens and sessions. *)

From S2P Require Export Login.

(** ** The answer of the account check that is cached *)
Section account_cache.
Context {P : Platform} `{!RedisCacheLaws cache} (userId : string).

Definition account_uncached (w : world P) : Prop := cview (redis w) (account_cacheKey userId) = None.
Definition stays_uncached (w w' : world P) : Prop := account_uncached w → account_uncached w'.
#[export] Instance stays_uncached_preorder : PreOrder stays_uncached.
Proof. unfold stays_uncached. split; [intros w; done|]. intros w1 w2 w3 H1 H2 Hw. auto. Qed.

Lemma forgets_uncached w c : forgets (redis w) c → stays_uncached w (w <| redis := c |>).
Proof. unfold stays_uncached, account_uncached. cbn. intros Hf Hn. apply eq_None_not_Some. intros [x Hx%Hf]. congruence. Qed.

Lemma su_op {A} (f : world P → world P * (exn + A)) :
  (∀ w, redis (f w).1 = redis w) → guarantee stays_uncached (store_op f).
Proof.
  intros Hf. apply guarantee_store_op; [apply _|by intros w x fs _ Hw|]. intros w. unfold stays_uncached, account_uncached. by rewrite Hf.
Qed.
Lemma su_act {A} (f : world P → world P * A) :
  (∀ w, redis (f w).1 = redis w) → guarantee stays_uncached (act f).
Proof. intros Hf. apply guarantee_act. intros w. unfold stays_uncached, account_uncached. by rewrite Hf. Qed.
Lemma su_now : guarantee stays_uncached now.
Proof. by apply su_act. Qed.
Lemma su_draw {A} (f : nat → A) : guarantee stays_uncached (draw f).
Proof. by apply su_act. Qed.
Lemma su_find_all {D} {T : Table D} (f : D → bool) : guarantee stays_uncached (find_all f).
Proof. by apply su_op. Qed.
Lemma su_update_sessions (f : SessionDoc → bool) u : guarantee stays_uncached (update_one f u).
Proof. by apply su_op. Qed.
Lemma su_redis_del k : guarantee stays_uncached (redis_del k).
Proof. apply guarantee_act. intros w. apply forgets_uncached, del_law. Qed.
Lemma session_account_keys i : account_cacheKey userId ≠ session_cacheKey i.
Proof. done. Qed.
Lemma su_cacheLiveness i : guarantee stays_uncached (cacheLiveness i).
Proof.
  apply guarantee_act. intros w Hn. unfold account_uncached in *. cbn. apply eq_None_not_Some. intros [x Hx].
  apply set_other_law in Hx; [congruence|apply session_account_keys].
Qed.
Lemma su_audit a i : guarantee stays_uncached (audit_log a i).
Proof.
  destruct a as [a|]; [|done]. eapply guarantee_mono; [|apply g_log].
  intros w w' (Hr & _). unfold rest in Hr. injection Hr as Hr. unfold stays_uncached, account_uncached. congruence.
Qed.
#[local] Hint Resolve su_now su_draw su_find_all su_update_sessions su_redis_del su_cacheLiveness su_audit : guarantee_db.

Lemma su_revokeAll u a t : guarantee stays_uncached (revokeAll u a t).
Proof.
  unfold revokeAll. apply guarantee_bind; [solve_guarantee|]. intros l. apply guarantee_bind; [solve_guarantee|].
  intros t0. apply guarantee_bind; [by apply su_op|]. solve_guarantee.
Qed.
Lemma su_enforce ss u a : guarantee stays_uncached (enforceSessionLimit ss u a).
Proof.
  unfold enforceSessionLimit. apply guarantee_bind; [by apply su_op|]. intros n. destruct (_ <=? n); [|done].
  apply guarantee_bind; [by apply su_op|]. intros [d|]; [|done]. unfold revoke. solve_guarantee.
Qed.
Lemma su_create_session ss ctx : guarantee stays_uncached (create_session ss ctx).
Proof.
  apply guarantee_bind; [apply su_enforce|]. intros _. unfold createRefreshToken.
  do 5 (apply guarantee_bind; [solve [eauto with guarantee_db]|]; intros ?).
  apply guarantee_bind; [|solve_guarantee]. apply su_op. intros w. unfold insert_doc. by destruct (m_insert _ _ _).
Qed.
Lemma su_signAccessToken ts c : guarantee stays_uncached (signAccessToken ts c).
Proof.
  unfold signAccessToken. apply guarantee_bind; [apply su_now|]. intros t. apply guarantee_bind.
  { apply guarantee_bind; [|by intros [?|?]]. apply su_act. intros w.
    by destruct (KeyStore.current _ _ _ _) as [x|[s k]]. }
  intros k. do 2 (apply guarantee_bind; [solve [eauto with guarantee_db]|]; intros ?). by destruct (signToken _ _ _ _).
Qed.

(** Asked without a cached answer, the account check only accepts the stored version. *)
Lemma run_validate_other_version d tokenVersion w :
  healthy w → account_uncached w → List.find (by_id userId) (docs (users w)) = Some d →
  tokenVersion ≠ u_tokenVersion d → ∃ w', run (validate userId tokenVersion) w = (w', inr false).
Proof.
  intros Hh Hc Hf Hne. destruct (run_validate_db userId tokenVersion w) as (w' & Hr); [|done|].
  - destruct (get_law (account_cacheKey userId) (clock w) (redis w)) as [_ Hg].
    destruct (cache_get _ _ _) as [c [v|]]; [|done]. destruct (Hg v eq_refl) as (x & Hx & _). unfold account_uncached in Hc. congruence.
  - exists w'. rewrite Hr. change (λ d, bool_decide (u_id d = userId)) with (by_id userId). rewrite Hf.
    unfold account_ok, account_state. cbn. rewrite (proj2 (Z.eqb_neq _ _)) by done. by rewrite andb_false_r.
Qed.
End account_cache.

(** ** Passwords *)
Section passwords.
Context {P : Platform} (e : AuthEngine).

Lemma check_policy_ok pw w w' u :
  run (check_policy (P := P) e pw) w = (w', inr u) → satisfies pw (en_passwordPolicy e) ∧ w' = w.
Proof.
  intros [Hn ->]%run_throw_if_ok. split; [|done]. apply evaluatePassword_spec. by apply negb_false_iff.
Qed.

Lemma hashPassword_ok `{!Argon2Laws P} pw o w w' h :
  run (hashPassword (P := P) pw o) w = (w', inr h) →
  argon2_verify h pw = inr true ∧ isArgon2Hash h = true ∧ w' = w <| draws ::= S |>.
Proof.
  unfold hashPassword. rewrite run_bind, run_draw, run_from_result. intros [= <- Hh].
  split; [by eapply argon2_round_trip|]. split; [by eapply argon2_prefix|done].
Qed.

Lemma find_of_tenant userId w u :
  unique_key u_id (docs (users w)) → List.find (of_tenant e userId) (docs (users w)) = Some u →
  u_id u = userId ∧ List.find (by_id userId) (docs (users w)) = Some u.
Proof.
  intros Hu Hf. apply find_some in Hf as [Hin Ho]. unfold of_tenant in Ho. bool_to_prop. split; [done|].
  apply (find_by_key u_id _ _ userId); [done..|]. intros x. unfold by_id. by rewrite bool_decide_eq_true.
Qed.

(** The document of the user after its update. *)
Lemma by_id_updated (f : UserDoc → UserDoc) userId w u :
  unique_key u_id (docs (users w)) → List.find (of_tenant e userId) (docs (users w)) = Some u →
  u_id (f u) = u_id u →
  List.find (by_id userId) (alter_first (of_tenant e userId) f (docs (users w))) = Some (f u).
Proof.
  intros Hu Hf Hid. destruct (find_of_tenant userId w u Hu Hf) as [Hi Hb].
  apply find_alter_first_by; [done..|]. unfold by_id. by rewrite Hid, bool_decide_true.
Qed.
End passwords.

(** ** Resets *)
Section resets.
Context {P : Platform} `{!RedisCacheLaws cache} `{!Argon2Laws P} (e : AuthEngine).

Lemma ak_revokeAll u a t : guarantee (accounts_kept (P := P)) (revokeAll u a t).
Proof.
  unfold revokeAll. apply guarantee_bind; [apply ak_read|]. intros l. apply guarantee_bind; [apply ak_now|].
  intros t0. apply guarantee_bind; [apply ak_update_many|]. solve_guarantee.
Qed.

Lemma su_mintTokens userId u s a m : guarantee (stays_uncached userId) (mintTokens e u s a m).
Proof.
  assert (∀ c, guarantee (stays_uncached (P := P) userId) (getUserRoles c)) as Hroles.
  { intros c. apply guarantee_bind; [apply su_find_all|]. intros l. cbn zeta. destruct (_ =? _)%nat; [done|apply su_find_all]. }
  apply guarantee_bind; [|intros c; apply guarantee_bind; [apply su_signAccessToken|done]].
  apply guarantee_bind; [apply Hroles|]. intros r. apply guarantee_bind.
  - apply guarantee_bind; [apply Hroles|]. intros l. cbn zeta. destruct (_ =? _)%nat; [done|].
    apply guarantee_bind; [apply su_find_all|done].
  - intros p. apply guarantee_bind; [apply su_now|done].
Qed.

(** A creation for a user without active sessions leaves exactly its own active. *)
Lemma create_session_alone ctx w w' s :
  healthy w → (∀ d, In d (docs (sessions w)) → app_active (sc_userId ctx) (sc_applicationId ctx) d = false) →
  run (create_session (en_sessions e) ctx) w = (w', inr s) →
  ∀ d, In d (docs (sessions w')) → app_active (sc_userId ctx) (sc_applicationId ctx) d = true →
    s_id d = cs_sessionId s.
Proof.
  intros Hh Hno. unfold create_session. rewrite run_bind. unfold enforceSessionLimit.
  rewrite run_bind, run_count_documents by done. cbn [tbl sessions_table].
  assert (run (if ss_maxActiveSessions (en_sessions e) <=? Z.of_nat (count (app_active (sc_userId ctx) (sc_applicationId ctx)) (docs (sessions w)))
    then oldest ← find_least s_lastActiveAt (app_active (sc_userId ctx) (sc_applicationId ctx));
         match oldest with Some d => revoke (s_id d) | None => mret tt end else mret tt) w = (w, inr tt)) as ->.
  { destruct (_ <=? _); [|done]. rewrite run_bind, run_find_least by done. cbn [tbl sessions_table].
    pose proof (m_find_least_law s_lastActiveAt (app_active (sc_userId ctx) (sc_applicationId ctx)) (sessions w)) as Hl.
    destruct (m_find_least _ _ _) as [d|]; [|done]. destruct Hl as (Hin & Hact & _). by rewrite Hno in Hact. }
  unfold createRefreshToken. intros Hr.
  rewrite run_bind, run_draw, run_bind, run_draw, run_bind, run_now, run_bind, run_now, run_bind, run_draw in Hr.
  first_step Hr w1 u Hc. apply run_create_ok in Hc as [Hins _].
  unfold cacheLiveness in Hr. rewrite run_bind, run_redis_set in Hr. apply run_ret_ok in Hr as [-> ->].
  intros d Hd Hact. cbn [cs_sessionId]. apply (inserted_In _ _ _ _ Hins) in Hd as [->|Hd]; [done|].
  specialize (Hno d Hd). congruence.
Qed.

(** What a finished reset leaves behind. *)
Record reset_done (u : UserDoc) (app new : string) (tokens : IssuedTokens) (w w' : world P) : Prop := {
  rd_password : ∃ h, argon2_verify h new = inr true ∧ isArgon2Hash h = true ∧
    docs (users w') = alter_first (of_tenant e (u_id u)) (reset_credentials h (u_tokenVersion u + 1)) (docs (users w));
  rd_tokens : ∀ version, version ≠ u_tokenVersion u + 1 → ∃ v, run (validate (u_id u) version) w' = (v, inr false);
  rd_sessions : ∀ d, In d (docs (sessions w')) → app_active (u_id u) app d = true →
    s_id d = cs_sessionId (it_session tokens);
}.

Lemma finish_reset_done u app new m device w w' r :
  healthy w → unique_key u_id (docs (users w)) → unique_key s_id (docs (sessions w)) → app ≠ "" →
  List.find (of_tenant e (u_id u)) (docs (users w)) = Some u →
  run (finish_reset e u app new m device) w = (w', inr r) →
  r.1 = u ∧ reset_done u app new r.2 w w' ∧ verificationTokens w' = verificationTokens w.
Proof.
  intros Hh Hu Hus Happ Hf Hr. unfold finish_reset in Hr. first_step Hr w1 h Hhash.
  apply hashPassword_ok in Hhash as (Hv & Ha & ->). cbn zeta in Hr.
  rewrite run_bind, run_update_one, run_bind in Hr by done. unfold invalidate in Hr. rewrite run_redis_del in Hr.
  set (w2 := _ <| redis ::= _ |>) in Hr. assert (healthy w2) as Hh2 by done.
  assert (account_uncached (u_id u) w2) as Hun2 by apply del_law.
  first_step Hr w3 x Hrev. destruct (run_revokeAll (u_id u) (Some app) None w2 Hh2 Hus) as (w3' & Hrun & Hd3 & _).
  rewrite Hrun in Hrev. injection Hrev as -> _. pose proof (run_kept _ _ _ _ (ak_revokeAll _ _ _) Hrun) as K3.
  first_step Hr w4 s Hs. pose proof (run_kept _ _ _ _ (ak_create_session _ _) Hs) as K4.
  first_step Hr w5 tk Htk. destruct (run_quiet _ _ _ _ (q_mintTokens e _ _ _ _) Htk) as [K5 S5].
  first_step Hr w6 y Hl. destruct (run_quiet _ _ _ _ (q_event e _ _ _ _ _ _) Hl) as [K6 S6].
  apply run_ret_ok in Hr as [-> ->]. split; [done|].
  assert (accounts_kept w2 w6) as K by (etrans; [exact K3|]; etrans; [exact K4|]; by etrans).
  assert (healthy w3) as Hh3 by by apply (kept_healthy _ _ K3).
  assert (healthy w4) as Hh4 by by apply (kept_healthy _ _ K4).
  destruct (run_mintTokens_ok e u s app m w4 w5 tk Hh4 Htk) as (Hses & _).
  assert (docs (users w6) = alter_first (of_tenant e (u_id u)) (reset_credentials h (u_tokenVersion u + 1)) (docs (users w)))
    as Hd by (rewrite (kept_users _ _ K); cbn; by rewrite m_update_one_law).
  split; [split|by rewrite (kept_links _ _ K)].
  - exists h. done.
  - intros version Hne. apply (run_validate_other_version (u_id u) (reset_credentials h (u_tokenVersion u + 1) u)).
    + by apply (kept_healthy _ _ K).
    + assert (∀ A (p : prog (world P) A) v v' o, guarantee (stays_uncached (u_id u)) p → run p v = (v', o) →
        account_uncached (u_id u) v → account_uncached (u_id u) v') as Hkeep.
      { intros A p v v' o Hp Hrv. change v' with (v', o).1. rewrite <- Hrv. by apply (guarantee_run (stays_uncached (u_id u))). }
      eapply Hkeep; [apply su_audit|exact Hl|]. eapply Hkeep; [apply su_mintTokens|exact Htk|].
      eapply Hkeep; [apply su_create_session|exact Hs|]. eapply Hkeep; [apply su_revokeAll|exact Hrun|exact Hun2].
    + rewrite Hd. by apply by_id_updated.
    + done.
  - cbn [snd]. rewrite Hses, S6, S5. refine (create_session_alone _ _ _ _ Hh3 _ Hs).
    intros d Hin. cbn. rewrite Hd3 in Hin. apply In_alter_all in Hin as (d0 & _ & ->).
    destruct (user_active (u_id u) (Some app) None d0) eqn:Hact.
    + unfold app_active. apply andb_false_iff. right. by apply bool_decide_false.
    + unfold user_active, scoped in Hact. rewrite (truthy_nonempty _ Happ) in Hact. cbn [truthy] in Hact.
      unfold app_active. apply not_true_iff_false. intros Hb. bool_to_prop. by rewrite !bool_decide_true in Hact by congruence.
Qed.
End resets.

(** ** Redeeming a token inside a flow *)
Section redeeming.
Context {P : Platform} (e : AuthEngine).

(** [d] is a live token of the tenant and application that [token] redeems. *)
Definition token_valid (vt : VerificationTokenService) (token : string) (w : world P) (d : VerificationTokenDoc) : Prop :=
  In d (docs (verificationTokens w)) ∧ redeemable (hashToken vt token) d = true ∧
  v_tenantId d = vt_tenantId vt ∧ v_applicationId d = vt_applicationId vt ∧ clock w <= v_expiresAt d.

Lemma redeem_ok vt token w w' r :
  run (redeem vt token) w = (w', inr r) →
  ∃ d fs, token_valid vt token w d ∧ r = redeem_result d ∧ (healthy w → fs = []) ∧
    quiet (w <| faults := fs |> <| verificationTokens :=
      m_update_one (redeemable (hashToken vt token)) (consume (clock w)) (verificationTokens w) |>) w'.
Proof.
  unfold redeem. rewrite run_bind, run_now. intros Hr. first_step Hr w1 o Ho.
  apply run_store_op_ok in Ho as (fs & Ho & Hfs). injection Ho as <- <-. rewrite m_find_one_law in Hr.
  cbn [tbl verificationTokens_table verificationTokens set_field upd_tbl] in Hr.
  destruct (List.find _ (docs (verificationTokens w))) as [d|] eqn:Hd; cbn [option_map] in Hr; [|done].
  apply find_some in Hd as [Hin Hred]. change (v_tenantId (consume (clock w) d)) with (v_tenantId d) in Hr.
  first_step Hr w1 x Ht. apply run_throw_if_ok in Ht as [Ht%negb_false_iff ->]. apply bool_decide_eq_true in Ht.
  rewrite run_bind, run_now in Hr. first_step Hr w1 x' Hex. apply run_throw_if_ok in Hex as [Hex%Z.ltb_ge ->].
  first_step Hr w1 y Ha. apply run_throw_if_ok in Ha as [Ha%negb_false_iff ->]. apply bool_decide_eq_true in Ha.
  first_step Hr w2 z Hl. apply run_ret_ok in Hr as [-> ->].
  exists d, fs. split; [done|]. split; [done|]. split; [done|]. exact (run_quiet _ _ _ _ (q_audit _ _) Hl).
Qed.

Lemma findUser_by_id_ok userId w w' u :
  en_lookupUser e = None → userId ≠ "" → run (findUser e None None (Some userId)) w = (w', inr (Some u)) →
  List.find (of_tenant e userId) (docs (users w)) = Some u ∧ ∃ fs, w' = w <| faults := fs |> ∧ (healthy w → fs = []).
Proof.
  intros Hl Hne Hr. unfold findUser in Hr. rewrite Hl in Hr. apply run_find_one_ok in Hr as [Hf Hw]. split; [|exact Hw].
  rewrite Hf. cbn [tbl users_table]. apply find_ext. intros d. unfold user_query, of_tenant.
  cbn [ul_userId]. rewrite (truthy_nonempty _ Hne), andb_comm. f_equal. apply bool_decide_ext. naive_solver.
Qed.
End redeeming.

(** ** What the engine promises *)
Section properties.
Context {P : Platform} `{!RedisCacheLaws cache} `{!Argon2Laws P} (e : AuthEngine).

(** a password change.  It succeeds only for a user of the tenant who presents
    the current password and a new one that satisfies the policy; the stored hash
    then verifies the new password, and from that moment the account check refuses
    every token issued before.  No session is touched. *)
Theorem password_change_revokes_tokens (userId app current new : string) (w w' : world P) :
  healthy w → unique_key u_id (docs (users w)) →
  run (changePassword e userId app current new) w = (w', inr tt) →
  satisfies new (en_passwordPolicy e) ∧ sessions w' = sessions w ∧
  ∃ u old h, List.find (of_tenant e userId) (docs (users w)) = Some u ∧
    u_passwordHash u = Some old ∧ argon2_verify old current = inr true ∧
    argon2_verify h new = inr true ∧ isArgon2Hash h = true ∧
    docs (users w') = alter_first (of_tenant e userId) (set_password h (u_tokenVersion u + 1)) (docs (users w)) ∧
    ∀ version, version ≠ u_tokenVersion u + 1 → ∃ v, run (validate userId version) w' = (v, inr false).
Proof.
  intros Hh Hu Hr. unfold changePassword in Hr. first_step Hr w1 x Hp. apply check_policy_ok in Hp as [Hp ->].
  split; [done|]. rewrite run_bind, run_find_one in Hr by done. cbn [tbl users_table] in Hr.
  destruct (List.find (of_tenant e userId) (docs (users w))) as [u|] eqn:Hf; [|done].
  first_step Hr w1 y Hc. apply run_throw_if_ok in Hc as [Hc%negb_false_iff ->].
  apply andb_true_iff in Hc as [Hold Hc]. apply truthy_some in Hold as (old & Hold & _). rewrite Hold in Hc.
  apply verifyPassword_true in Hc. first_step Hr w1 h Hhash. apply hashPassword_ok in Hhash as (Hv & Ha & ->).
  cbn zeta in Hr. destruct (find_of_tenant e userId w u Hu Hf) as [Hid Hb]. rewrite Hid in Hr.
  rewrite run_bind, run_update_one, run_bind in Hr by done. unfold invalidate in Hr. rewrite run_redis_del in Hr.
  set (w2 := _ <| redis ::= _ |>) in Hr. unfold engine_event in Hr.
  pose proof (run_quiet _ _ _ _ (q_audit _ _) Hr) as [Hk Hs]. split; [exact Hs|].
  pose proof (kept_users _ _ Hk) as Hus. cbn in Hus.
  exists u, old, h. do 5 (split; [done|]). assert (docs (users w') = alter_first (of_tenant e userId)
    (set_password h (u_tokenVersion u + 1)) (docs (users w))) as Hd by (by rewrite Hus, m_update_one_law).
  split; [done|]. intros version Hne.
  apply (run_validate_other_version userId (set_password h (u_tokenVersion u + 1) u)).
  - by apply Hk.
  - match type of Hr with run ?p _ = _ => assert (stays_uncached userId w2 (run p w2).1) as Hst
      by apply (guarantee_run (stays_uncached userId)), su_audit end. rewrite Hr in Hst. apply Hst.
    apply del_law.
  - rewrite Hd. by apply by_id_updated.
  - done.
Qed.

(** a reset by link.  It succeeds only with an unconsumed, unexpired reset token
    of this tenant and application, which it consumes, and a password that
    satisfies the policy.  The owner's hash then verifies the new password and the
    failure counters are cleared; every token version but the new one is refused,
    the one of the token handed out with the answer included; and the session of
    the answer is the only active one the user has in the application. *)
Theorem reset_signs_out (app token new : string) (device : option DeviceInfo) (w w' : world P) (u : UserDoc)
    (tokens : IssuedTokens) :
  en_lookupUser e = None → healthy w → unique_key u_id (docs (users w)) → unique_key s_id (docs (sessions w)) →
  (∀ d, In d (docs (verificationTokens w)) → v_userId d ≠ "") → app ≠ "" →
  run (resetPasswordWithToken e app token new device) w = (w', inr (u, tokens)) →
  satisfies new (en_passwordPolicy e) ∧
  (∃ d, token_valid (en_verificationTokens e) token w d ∧ v_kind d = password_reset ∧
     List.find (of_tenant e (v_userId d)) (docs (users w)) = Some u) ∧
  docs (verificationTokens w') = alter_first (redeemable (hashToken (en_verificationTokens e) token))
    (consume (clock w)) (docs (verificationTokens w)) ∧
  reset_done e u app new tokens w w'.
Proof.
  intros Hlk Hh Hu Hus Hids Happ Hr. unfold resetPasswordWithToken in Hr. first_step Hr w1 x Hp.
  apply check_policy_ok in Hp as [Hp ->]. split; [done|]. first_step Hr w1 r Hred.
  apply redeem_ok in Hred as (d & fs & Hd & -> & Hfs & Hq). rewrite (Hfs Hh) in Hq.
  first_step Hr w2 y Hkind. apply run_throw_if_ok in Hkind as [Hkind%negb_false_iff ->].
  apply bool_decide_eq_true in Hkind. first_step Hr w3 o Ho. destruct o as [u'|]; [|done].
  destruct Hd as (Hin & Hd). pose proof Hq as [Hk Hs]. cbn in Hs.
  apply findUser_by_id_ok in Ho as (Hf & fs3 & -> & Hfs3); [|done|by apply Hids].
  assert (healthy w1) as Hh1 by by apply (kept_healthy _ _ Hk). rewrite (Hfs3 Hh1) in Hr.
  pose proof (kept_users _ _ Hk) as Hw1. cbn in Hw1. rewrite Hw1 in Hf.
  pose proof (find_of_tenant e _ w u' Hu Hf) as [Hid _].
  apply finish_reset_done in Hr as (Hr1 & Hr2 & Hlinks); cbn [users sessions set_field]; rewrite ?Hw1, ?Hs, ?Hid; try done.
  cbn [fst snd] in Hr1, Hr2. subst u'. split; [by exists d|].
  destruct Hr2 as [Hpw Htok Hses]. cbn in Hpw, Hlinks. rewrite Hw1 in Hpw. pose proof (kept_links _ _ Hk) as Hl.
  split; [rewrite Hlinks, Hl; cbn; by rewrite m_update_one_law|].
  by split.
Qed.
End properties.
