(* ===== verification/Flows.v ===== *)
(** * Registration, second factors and links

    The remaining flows of the authentication engine: who they let in, and that a
    link works once whichever flow it is presented to. *)

From S2P Require Export Credentials.

(** ** Second factors *)
Section second_factor.
Context {P : Platform} (m : MfaService) (userId : string).

(** [code] proves the second factor of [u] at the time of [w]: a current TOTP of the
    enrolled secret, or an unused backup code. *)
Definition factor_proved (code : string) (u : UserDoc) (w : world P) : Prop :=
  u_mfaEnabled u = true ∧ nullish (u_mfaLockUntil u) 0 <= Z.max 0 (clock w) ∧
  ∃ secret, unwrap m (nullish (u_mfaSecret u) "") = inr secret ∧
    (verifyTotp code secret (clock w / 1000) None None None = inr true ∨
     ∃ b, In b (docs (backupCodes w)) ∧ redeems userId code b = true).

Lemma for_return_some {A} (l : list A) (body : A → prog (world P) (option bool)) (Q : A → Prop) w w' :
  (∀ x v v' b, run (body x) v = (v', inr (Some b)) → Q x) →
  run (for_return l body) w = (w', inr (Some true)) → ∃ x, In x l ∧ Q x.
Proof.
  intros Hb. revert w. induction l as [|x l IH]; cbn [for_return]; intros w Hr; [done|].
  first_step Hr w1 o Ho. destruct o as [b|].
  - exists x. split; [by left|]. by eapply Hb.
  - destruct (IH w1 Hr) as (y & Hy & HQ). exists y. split; [by right|done].
Qed.

Lemma run_find_all_ok {D} {T : Table D} f (w w' : world P) r :
  run (find_all f) w = (w', inr r) → r = List.filter f (docs (tbl w)) ∧ ∃ fs, w' = w <| faults := fs |>.
Proof.
  intros (fs & Hf & _)%run_store_op_ok. rewrite m_find_law in Hf. injection Hf as <- <-.
  rewrite (tbl_frame w (w <| faults := fs |>)) by done. eauto.
Qed.

Lemma tryBackupCode_ok code w w' :
  run (tryBackupCode m userId code) w = (w', inr true) →
  ∃ b, In b (docs (backupCodes w)) ∧ redeems userId code b = true.
Proof.
  unfold tryBackupCode. intros Hr. first_step Hr w1 l Hl. apply run_find_all_ok in Hl as [-> _].
  first_step Hr w2 o Ho. apply run_ret_ok in Hr as [-> Hr]. destruct o as [[]|]; [|done..].
  apply (for_return_some _ _ (λ b, matchHashes (b_codeHash b) code = true)) in Ho as (b & Hb & Hm).
  - apply filter_In in Hb as [Hin Hun]. exists b. split; [done|]. unfold redeems. by rewrite Hun.
  - intros x v v' b. destruct (matchHashes _ _); [done|]. by intros [_ ?]%run_ret_ok.
Qed.

(** The lock check leaves the enrolment alone. *)
Lemma mfaLocked_ok w w' :
  run (mfaLocked userId) w = (w', inr false) →
  clock w' = clock w ∧ backupCodes w' = backupCodes w ∧
  ∀ u', the_user userId w' = Some u' → ∃ u, the_user userId w = Some u ∧
    u_mfaEnabled u' = u_mfaEnabled u ∧ u_mfaSecret u' = u_mfaSecret u ∧ nullish (u_mfaLockUntil u) 0 <= Z.max 0 (clock w).
Proof.
  unfold mfaLocked. intros Hr. first_step Hr w1 o Ho. apply run_find_one_ok in Ho as [Ho (fs & -> & _)].
  cbn [tbl users_table] in Ho. fold (the_user userId w) in Ho. destruct o as [u|].
  2:{ apply run_ret_ok in Hr as [-> _]. split; [done|]. split; [done|]. intros u' Hu'.
      change (the_user userId w = Some u') in Hu'. congruence. }
  cbn zeta in Hr. destruct (Z.ltb_spec 0 (nullish (u_mfaLockUntil u) 0)) as [Hpos|Hpos].
  - rewrite run_bind, run_now in Hr. destruct (Z.ltb_spec (clock (w <| faults := fs |>)) (nullish (u_mfaLockUntil u) 0)) as [|Hle];
      [done|]. cbn in Hle. first_step Hr w1 x Hx. apply run_update_one_ok in Hx as (fs' & -> & _).
    apply run_ret_ok in Hr as [-> _]. split; [done|]. split; [done|]. intros u' Hu'. exists u. split; [done|].
    change (List.find (by_id userId) (docs (m_update_one (by_id userId) clear_failures (users w))) = Some u') in Hu'.
    rewrite (by_id_update userId clear_failures w u) in Hu' by done. injection Hu' as <-.
    split; [done|]. split; [done|]. lia.
  - apply run_ret_ok in Hr as [-> _]. split; [done|]. split; [done|]. intros u' Hu'.
    change (the_user userId w = Some u') in Hu'. exists u. assert (u' = u) as -> by congruence.
    split; [done|]. split; [done|]. split; [done|]. lia.
Qed.

Lemma verifyMfa_ok code w w' :
  run (verifyMfa m userId code) w = (w', inr true) →
  ∃ u, the_user userId w = Some u ∧ factor_proved code u w.
Proof.
  unfold verifyMfa. intros Hr. first_step Hr w1 l Hl. destruct l; [done|]. apply mfaLocked_ok in Hl as (Hc & Hb & Hu).
  first_step Hr w2 o Ho. apply run_find_one_ok in Ho as [-> (fs & -> & _)]. cbn [tbl users_table] in Hr.
  fold (the_user userId w1) in Hr. destruct (the_user userId w1) as [u'|] eqn:Hu'; [|done].
  destruct (Hu u' eq_refl) as (u & Hf & He & Hs & Hlk). exists u. split; [done|]. unfold factor_proved.
  rewrite He, Hs in Hr. destruct (u_mfaEnabled u); [|done]. destruct (truthy (u_mfaSecret u)); [|done].
  cbn [negb orb] in Hr. split; [done|]. split; [done|].
  first_step Hr w2 secret Hsec. rewrite run_from_result in Hsec. injection Hsec as <- Hsec. exists secret.
  split; [done|]. first_step Hr w2 ok Hok. unfold verify_totp in Hok. rewrite run_bind, run_now, run_from_result in Hok.
  injection Hok as <- Hok. cbn [clock set_field] in Hok. rewrite Hc in Hok. destruct ok; [by left|].
  right. first_step Hr w3 used Hused. destruct used; [|by first_step Hr w4 x Hx].
  apply tryBackupCode_ok in Hused as (b & Hin & Hred). exists b. cbn in Hin. by rewrite Hb in Hin.
Qed.
End second_factor.

(** ** Who the flows let in *)
Section flows.
Context {P : Platform} (e : AuthEngine).

(** The two log entries of a completed challenge. *)
Lemma q_two_events ty1 ty2 u t a ip m :
  guarantee quiet (engine_event e ty1 u t a ip m ;; engine_event e ty2 u t a ip m).
Proof. apply guarantee_bind; [apply q_event|]. intros _. apply q_event. Qed.

(** The user a flow looks up by identifier. *)
Lemma findUser_found userId w w' u :
  en_lookupUser e = None → userId ≠ "" → run (findUser e None None (Some userId)) w = (w', inr (Some u)) →
  In u (docs (users w)) ∧ u_id u = userId ∧ u_tenantId u = en_tenantId e ∧ ∃ fs, w' = w <| faults := fs |>.
Proof.
  intros Hl Hne Hr. apply findUser_by_id_ok in Hr as (Hf & fs & -> & _); [|done..].
  apply find_some in Hf as [Hin Ho]. unfold of_tenant in Ho. bool_to_prop. eauto 6.
Qed.
End flows.

(** ** Links in flight *)
Section links.
Context {P : Platform} (e : AuthEngine) (h : string) (n0 : nat).
Hypothesis stored_users : en_lookupUser e = None.

(** The requests that send links, and those a link can be presented to. *)
Inductive link_request :=
| ForgotPassword (applicationId email : string) (redirectUri : option string)
| SendMagicLink (applicationId email : string) (redirectUri : option string)
| IssueEmailVerification (applicationId email : string) (redirectUri : option string)
| ResetPasswordWithToken (applicationId token newPassword : string) (device : option DeviceInfo)
| RedeemMagicLink (token : string) (device : option DeviceInfo)
| VerifyEmailToken (token : string).

(** The token a request presents, when it presents one. *)
Definition presented_link (r : link_request) : option string :=
  match r with
  | ResetPasswordWithToken _ token _ _ | RedeemMagicLink token _ | VerifyEmailToken token => Some token
  | _ => None
  end.

Definition serve_link (r : link_request) : prog (world P) link_request :=
  match r with
  | ForgotPassword a m u => forgotPassword e a m u ;; mret r
  | SendMagicLink a m u => sendMagicLink e a m u ;; mret r
  | IssueEmailVerification a m u => issueEmailVerification e a m u ;; mret r
  | ResetPasswordWithToken a t p d => resetPasswordWithToken e a t p d ;; mret r
  | RedeemMagicLink t d => redeemMagicLink e t d ;; mret r
  | VerifyEmailToken t => verifyEmailToken e t ;; mret r
  end.

(** A request that succeeded with the link whose token hashes to [h]. *)
Definition link_used (r : link_request) : bool :=
  bool_decide (option_map (hashToken (en_verificationTokens e)) (presented_link r) = Some h).

Notation calm := (harmless (drawn n0) (stock (redeemable h))).

Lemma calm_accounts {A} (p : prog (world P) A) : guarantee accounts_kept p → calm p.
Proof.
  intros Hp. apply guarantee_harmless. eapply guarantee_mono; [|exact Hp].
  intros w w' Hk. pose proof Hk as (_ & _ & Hd & _). apply stock_other; [apply (kept_links _ _ Hk)|done].
Qed.
Lemma calm_quiet {A} (p : prog (world P) A) : guarantee quiet p → calm p.
Proof. intros Hp. apply calm_accounts. eapply guarantee_mono; [|exact Hp]. by intros w w' []. Qed.
Lemma calm_update_user f u : calm (update_one (D := UserDoc) f u).
Proof.
  apply guarantee_harmless, guarantee_store_op; [apply _| |].
  - intros w x fs Hw. by eapply stock_faults.
  - intros w. by apply stock_other.
Qed.
Lemma calm_findUser email phone userId : calm (findUser e email phone userId).
Proof. unfold findUser. rewrite stored_users. apply calm_quiet, q_find_one. Qed.
Lemma calm_event ty u t a ip m : calm (engine_event e ty u t a ip m).
Proof. apply calm_quiet, q_event. Qed.

Lemma calm_finish_reset u app new m device : calm (finish_reset e u app new m device).
Proof.
  unfold finish_reset, hashPassword. apply harmless_bind.
  { apply harmless_bind; [apply calm_quiet, q_draw|]. by intros [x|v]. }
  intros hash. cbn zeta. apply harmless_bind; [apply calm_update_user|]. intros _.
  apply harmless_bind; [apply calm_accounts, ak_redis_del|]. intros _.
  apply harmless_bind; [apply calm_accounts, ak_revokeAll|]. intros _.
  apply harmless_bind; [apply calm_accounts, ak_create_session|]. intros s.
  apply harmless_bind; [apply calm_quiet, q_mintTokens|]. intros tk.
  apply harmless_bind; [apply calm_event|done].
Qed.

(** Presenting a link: whatever follows the redemption, success costs the link. *)
Definition costs_link {A} (token : string) (r : exn + A) (m : nat) : Prop :=
  match r with inr _ => hashToken (en_verificationTokens e) token = h → (1 ≤ m)%nat | inl _ => True end.

Lemma pays_link {A} token (k : RedeemResult → prog (world P) A) :
  (∀ r, calm (k r)) →
  pays (drawn n0) (stock (redeemable h)) 0 (redeem (en_verificationTokens e) token ≫= k) (costs_link token).
Proof.
  intros Hk. apply pays_bind. eapply pays_mono; [apply pays_redeem_token|]. intros [x|r] m Hm; [done|].
  eapply pays_mono; [apply (pays_frame _ _ _ 0 m), Hk|]. intros [x|a] n (n' & -> & _); [done|]. intros Hh.
  specialize (Hm Hh). lia.
Qed.

Lemma won_link {A} r token (p : prog (world P) A) :
  presented_link r = Some token → pays (drawn n0) (stock (redeemable h)) 0 p (costs_link token) →
  pays (drawn n0) (stock (redeemable h)) 0 (p ;; mret r) (won link_used).
Proof.
  intros Hr Hp. apply pays_bind. eapply pays_mono; [exact Hp|]. intros [x|a] m Hm; [done|].
  cbn. unfold link_used. rewrite Hr. cbn. intros [= Hh]%bool_decide_eq_true. by apply Hm.
Qed.

Lemma won_nothing {A} r (p : prog (world P) A) :
  presented_link r = None → calm p → pays (drawn n0) (stock (redeemable h)) 0 (p ;; mret r) (won link_used).
Proof.
  intros Hr Hp. apply pays_bind. apply pays_harmless; [exact Hp|]. intros [x|a] m _; [done|].
  cbn. unfold link_used. by rewrite Hr.
Qed.

Lemma pays_serve_link r :
  token_fresh_from (en_verificationTokens e) h n0 →
  pays (drawn n0) (stock (redeemable h)) 0 (serve_link r) (won link_used).
Proof.
  intros Hf. assert (∀ kind a m u v, calm (link_for e kind a m u v)) as Hlink by (intros; by apply harmless_issue).
  assert (∀ m, calm (decoysFor (P := P) m)) as Hdecoy.
  { intros m. apply harmless_bind; [apply calm_quiet, q_now|done]. }
  destruct r as [a m u|a m u|a m u|a t p d|t d|t]; cbn [serve_link].
  - apply won_nothing; [done|]. apply harmless_bind; [apply calm_findUser|]. intros [v|]; [apply Hlink|].
    by apply harmless_bind.
  - apply won_nothing; [done|]. apply harmless_bind; [apply calm_findUser|]. intros [v|]; [|by apply harmless_bind].
    apply harmless_bind; [apply Hlink|]. intros i. apply harmless_bind; [apply calm_event|done].
  - apply won_nothing; [done|]. apply harmless_bind; [apply calm_findUser|]. intros [v|]; [apply Hlink|].
    by apply harmless_bind.
  - apply (won_link _ t); [done|]. unfold resetPasswordWithToken, check_policy.
    destruct (negb _); [done|]. apply pays_link. intros r. apply harmless_bind; [apply harmless_throw_if|].
    intros _. apply harmless_bind; [apply calm_findUser|]. intros [v|]; [apply calm_finish_reset|done].
  - apply (won_link _ t); [done|]. apply pays_link. intros r. apply harmless_bind; [apply harmless_throw_if|].
    intros _. apply harmless_bind; [apply calm_findUser|]. intros [v|]; [|done].
    apply harmless_bind; [apply harmless_throw_if|]. intros _.
    apply harmless_bind; [apply calm_accounts, ak_create_session|]. intros s.
    apply harmless_bind; [apply calm_quiet, q_mintTokens|]. intros tk.
    apply harmless_bind; [apply calm_quiet, q_audit|done].
  - apply (won_link _ t); [done|]. apply pays_link. intros r. apply harmless_bind; [apply harmless_throw_if|].
    intros _. apply harmless_bind; [apply calm_update_user|]. intros _. apply calm_event.
Qed.
End links.

(** ** What the engine promises *)
Section properties.
Context {P : Platform} (e : AuthEngine).

(** C28: completing a challenged login.  Whatever fails, tokens are only issued for an
    active user of the tenant with an enrolled second factor that is not locked
    out, against a current TOTP of its secret or one of its unused backup codes. *)
Theorem verifyMfaLogin_sound (userId app code : string) (device : option DeviceInfo) (w w' : world P) (u : UserDoc)
    (tokens : IssuedTokens) :
  en_lookupUser e = None → userId ≠ "" → unique_key u_id (docs (users w)) →
  run (verifyMfaLogin e userId app code device) w = (w', inr (u, tokens)) →
  u_id u = userId ∧ u_tenantId u = en_tenantId e ∧
  (∃ m u0, en_mfa e = Some m ∧ In u0 (docs (users w)) ∧ u_id u0 = userId ∧ u_tenantId u0 = en_tenantId e ∧
     u_isActive u0 = true ∧ factor_proved m userId code u0 w) ∧
  it_refreshToken tokens = cs_refreshToken (it_session tokens) ∧
  session_stored e userId (en_tenantId e) app (it_session tokens) w'.
Proof.
  intros Hl Hne Hu Hr. unfold verifyMfaLogin in Hr. destruct (en_mfa e) as [m|] eqn:Hm; [|done].
  first_step Hr w1 o Ho. first_step Hr w2 x Hact. apply run_throw_if_ok in Hact as [Hact ->].
  destruct o as [u0|]; [|done]. apply negb_false_iff in Hact.
  apply findUser_found in Ho as (Hin & Hid & Ht & fs & ->); [|done..].
  first_step Hr w2 ok Hv. destruct ok; cbn [negb] in Hr; [|by first_step Hr w3 y Hy].
  apply verifyMfa_ok in Hv as (v & Hv & Hp). change (the_user userId w = Some v) in Hv.
  assert (v = u0) as ->.
  { apply find_some in Hv as [Hvin Hvid]. unfold by_id in Hvid. apply bool_decide_eq_true in Hvid.
    apply (unique_key_eq u_id (docs (users w))); [done..|congruence]. }
  first_step Hr w3 o Ho. destruct o as [u'|]; [|done].
  apply findUser_found in Ho as (_ & Hid' & Ht' & fs' & ->); [|done..].
  first_step Hr w4 s Hs. first_step Hr w5 tk Htk. first_step Hr w6 y1 Hl1. first_step Hr w7 y2 Hl2.
  apply run_ret_ok in Hr as [-> [= -> ->]].
  assert (run (engine_event e "MFA_CHALLENGE_SUCCESS" userId (en_tenantId e) app (ip_of device)
      [("authMethod", JStr "mfa_totp")]%string ;; engine_event e "LOGIN_SUCCESS" userId (en_tenantId e) app
      (ip_of device) [("authMethod", JStr "mfa_totp")]%string) w5 = (w7, inr y2)) as Hlog by by rewrite run_bind, Hl1.
  destruct (issue_session_ok e Hs Htk (q_two_events e _ _ _ _ _ _ _) Hlog) as (_ & Hrt & Hst).
  split; [done|]. split; [done|]. split; [|done]. exists m, u0. by repeat (split; [done|]).
Qed.

(** magic links.  Whatever fails, a magic link signs in only the active user of the
    tenant it was sent to, against an unconsumed, unexpired link of this tenant and
    application, which is consumed, and hands back the address stored with it. *)
Theorem redeemMagicLink_sound (token : string) (device : option DeviceInfo) (w w' : world P) (u : UserDoc)
    (tokens : IssuedTokens) (redirect : option string) :
  en_lookupUser e = None → (∀ d, In d (docs (verificationTokens w)) → v_userId d ≠ "") →
  run (redeemMagicLink e token device) w = (w', inr (u, tokens, redirect)) →
  ∃ d, token_valid (en_verificationTokens e) token w d ∧ v_kind d = magic_link ∧ redirect = v_redirectUri d ∧
    In u (docs (users w)) ∧ u_id u = v_userId d ∧ u_tenantId u = en_tenantId e ∧ u_isActive u = true ∧
    docs (verificationTokens w') = alter_first (redeemable (hashToken (en_verificationTokens e) token))
      (consume (clock w)) (docs (verificationTokens w)) ∧
    it_refreshToken tokens = cs_refreshToken (it_session tokens) ∧
    session_stored e (u_id u) (v_tenantId d) (v_applicationId d) (it_session tokens) w'.
Proof.
  intros Hl Hids Hr. unfold redeemMagicLink in Hr. first_step Hr w1 r Hred.
  apply redeem_ok in Hred as (d & fs & Hd & -> & _ & [Hk _]). first_step Hr w2 x Hkind.
  apply run_throw_if_ok in Hkind as [Hkind%negb_false_iff%bool_decide_eq_true ->].
  first_step Hr w2 o Ho. destruct o as [u'|]; [|done]. cbn [rr_userId redeem_result] in Ho.
  apply findUser_found in Ho as (Hin & Hid & Ht & fs' & ->); [|done|apply Hids, Hd].
  rewrite (kept_users _ _ Hk) in Hin. cbn in Hin.
  first_step Hr w2 y Hact. apply run_throw_if_ok in Hact as [Hact%negb_false_iff ->].
  first_step Hr w3 s Hs. first_step Hr w4 tk Htk. first_step Hr w5 z Hlog. apply run_ret_ok in Hr as [-> [= -> -> ->]].
  destruct (issue_session_ok e Hs Htk (q_audit _ _) Hlog) as (K & Hrt & Hst).
  exists d. do 7 (split; [done|]). split; [|done].
  rewrite (kept_links _ _ K). cbn [verificationTokens set_field]. rewrite (kept_links _ _ Hk). cbn. by rewrite m_update_one_law.
Qed.

(** registration.  Whatever fails, a registration that returns had an e-mail
    address or a phone number, stored an active account no other account of the
    tenant shares an address with, and a password that satisfies the policy; the
    account can then sign in by that address and password at any time, and the
    session handed out is stored. *)
Theorem register_then_login `{!Argon2Laws P} (input : UserCreateInput) (device : option DeviceInfo) (w w' : world P)
    (doc : UserDoc) (tokens : IssuedTokens) :
  run (register e input device) w = (w', inr (doc, tokens)) →
  truthy (uc_email input) || truthy (uc_phone input) = true ∧
  inserted doc (docs (users w)) (docs (users w')) ∧ u_isActive doc = true ∧ u_tokenVersion doc = 0 ∧
  session_stored e (u_id doc) (uc_tenantId input) (uc_applicationId input) (it_session tokens) w' ∧
  ∀ password, uc_password input = Some password → password ≠ "" →
    satisfies password (en_passwordPolicy e) ∧
    (uc_tenantId input = en_tenantId e → truthy (uc_email input) = true → ∀ t,
       List.find (handle_query e (uc_email input) None) (docs (users w')) = Some doc ∧
       may_login e (uc_email input) None password t doc).
Proof.
  unfold register. intros Hr. first_step Hr w1 x Hh. apply run_throw_if_ok in Hh as [Hh ->].
  first_step Hr w1 y Hp. first_step Hr w2 hash Hhash. rewrite run_bind, run_draw in Hr. cbn zeta in Hr.
  set (d := new_user input _ hash) in Hr.
  first_step Hr w3 z Hc. apply run_create_ok in Hc as (Hins & Hcl & _).
  first_step Hr w4 s Hs. first_step Hr w5 tk Htk. first_step Hr w6 l Hl. apply run_ret_ok in Hr as [-> [= -> ->]].
  destruct (issue_session_ok e Hs Htk (q_event e _ _ _ _ _ _) Hl) as (K & _ & Hst).
  assert (users w2 = users w ∧ ∀ pw, uc_password input = Some pw → pw ≠ "" →
    satisfies pw (en_passwordPolicy e) ∧ ∃ h, hash = Some h ∧ argon2_verify h pw = inr true ∧ isArgon2Hash h = true)
    as [Hw2 Hpw].
  { destruct (uc_password input) as [pw|].
    - destruct (truthy (Some pw)) eqn:Ht; cbn [nullish] in *.
      + apply check_policy_ok in Hp as [Hp ->]. first_step Hhash w7 h Hha. apply run_ret_ok in Hhash as [-> ->].
        apply hashPassword_ok in Hha as (Hv & Ha & ->). split; [done|]. intros ? [= <-] _. eauto 6.
      + apply run_throw_if_ok in Hp as [_ ->]. apply run_ret_ok in Hhash as [-> ->]. split; [done|].
        intros ? [= <-] Hne. by rewrite truthy_nonempty in Ht.
    - cbn [truthy] in *. apply run_throw_if_ok in Hp as [_ ->]. apply run_ret_ok in Hhash as [-> ->]. by split. }
  rewrite (kept_users _ _ K). cbn [tbl users_table users set_field] in Hins, Hcl. rewrite Hw2 in Hins, Hcl.
  split; [apply negb_false_iff; by rewrite negb_orb|]. split; [exact Hins|]. do 2 (split; [done|]). split; [exact Hst|].
  intros pw Hsome Hne. destruct (Hpw pw Hsome Hne) as (Hsat & h & -> & Hv & Ha). split; [done|]. intros Ht He t.
  assert (handle_query e (uc_email input) None d = true) as Hq.
  { unfold handle_query, user_query. cbn [ul_userId ul_email truthy]. rewrite He. unfold d, new_user. cbn.
    by rewrite !bool_decide_true. }
  split; [|split; [done|]; split; [done|]; split; [done|]; by exists h].
  apply (inserted_find_new _ _ _ _ Hins Hq). destruct (List.find _ (docs (users w))) as [v|] eqn:Hf; [|done].
  apply find_some in Hf as [Hin Hqv]. unfold handle_query, user_query in Hqv. cbn [ul_userId ul_email truthy] in Hqv.
  rewrite He in Hqv. bool_to_prop. exfalso. apply not_true_iff_false in Hcl. apply Hcl, existsb_exists. exists v.
  split; [done|]. unfold clash. cbn. unfold user_clash. cbn. destruct (uc_email input) as [em|]; [|done].
  cbn in *. apply orb_true_iff. right. rewrite bool_decide_true by congruence.
  match goal with H : u_email v = _ |- _ => rewrite H end. cbn. by rewrite bool_decide_true.
Qed.

(** C4: a link works once, whichever flow it is presented to.  Among any password
    resets, magic-link sign-ins and address confirmations in flight, with links
    being sent at the same time, in any interleaving and under any failures and
    expiries, at most one succeeds with a given link, and none when no unconsumed
    token with its hash is stored. *)
Theorem link_single_use (token : string) (n0 : nat) (w w' : world P) (requests : list link_request)
    (threads : list (prog (world P) link_request)) :
  let h := hashToken (en_verificationTokens e) token in
  en_lookupUser e = None → unique_key v_tokenHash (docs (verificationTokens w)) →
  token_fresh_from (en_verificationTokens e) h n0 → drawn n0 w →
  reachable (expiry_env VerificationTokenDoc) (w, map (serve_link e) requests) (w', threads) →
  (winners (link_used e h) threads ≤ if existsb (redeemable h) (docs (verificationTokens w)) then 1 else 0)%nat.
Proof.
  intros h Hl Hu Hf Hd.
  apply (single_use (T := verificationTokens_table) (redeemable h) n0 _ v_tokenHash h w w' _ _ Hd Hu).
  - intros d. unfold redeemable. intros ?. by bool_to_prop.
  - intros p (r & <- & _)%in_map_iff. by apply pays_serve_link.
Qed.
End properties.
