(* ===== verification/Tenancy.v ===== *)
(** * Tenants, quotas and subscriptions

    [core/src/services/tenant] and [core/src/services/ecosystem]: tenants,
    organizations and their teams, the quotas of a tenant and the usage counted
    against them, subscriptions and their billing.  The billing provider is a
    parameter; a limit or an amount is an integer. *)

From S2P Require Export World.
From S2P Require Import JsMap.
From Stdlib Require Import Ascii.

(** ** Slugs *)
(** [s.replace(/[^a-z0-9]+/g, '-')]; [dashed] says that the run has its dash. *)
Definition slug_char (ch : ascii) : bool :=
  let n := nat_of_ascii ch in (((48 <=? n) && (n <=? 57)) || ((97 <=? n) && (n <=? 122)))%nat.
Fixpoint dash_runs (dashed : bool) (s : string) : string :=
  match s with
  | EmptyString => EmptyString
  | String ch s => if slug_char ch then String ch (dash_runs false s)
                   else if dashed then dash_runs true s else String "-" (dash_runs true s)
  end.
(** [s.replace(/^-+|-+$/g, '')]. *)
Fixpoint strip_dashes (s : string) : string :=
  match s with String "-" s => strip_dashes s | _ => s end.
Fixpoint drop_dashes (s : string) : string :=
  match s with
  | EmptyString => EmptyString
  | String ch s => match drop_dashes s with
                   | EmptyString => if Ascii.eqb ch "-" then EmptyString else String ch EmptyString
                   | t => String ch t
                   end
  end.
Definition slugify (value : string) : string := drop_dashes (strip_dashes (dash_runs false (js_trim (js_lower value)))).

(** Mongoose refuses a document whose required paths are missing or empty. *)
Definition required_paths (paths : list (string * string)) : list string :=
  map fst (List.filter (λ p, String.eqb p.2 "") paths).
Definition validation_failed (model : string) (missing : list string) : exn :=
  JsError (model +:+ " validation failed: " +:+ String.concat ", " (map (λ p, p +:+ ": Path `" +:+ p +:+ "` is required.") missing)).

Section tenancy.
Context {P : Platform}.

Definition validated {A} (model : string) (paths : list (string * string)) (p : prog (world P) A) : prog (world P) A :=
  match required_paths paths with [] => p | missing => Throw (validation_failed model missing) end.

(** ** Tenants *)
Definition INVALID_TENANT : exn := ValidationError "A valid tenant name is required" "INVALID_TENANT".
Definition tenant_by_id (i : string) (d : TenantDoc) : bool := bool_decide (t_id d = i).
Definition create_tenant (name : string) (slug : option string) (config : option (list (string * json))) : prog (world P) TenantDoc :=
  let slug := match slug with Some s => s | None => slugify name end in
  if String.eqb slug "" then Throw INVALID_TENANT
  else
    id ← draw newObjectId;
    t ← now;
    let doc := mkTenantDoc id name slug true (nullish config []) t in
    validated "Tenant" [("name", name); ("slug", slug)]%string (create doc) ;;
    mret doc.
Definition get_tenant (i : string) : prog (world P) (option TenantDoc) := find_one (tenant_by_id i).
Definition tenant_by_slug (slug : string) : prog (world P) (option TenantDoc) := find_one (λ d, bool_decide (t_slug d = slug)).
Definition list_tenants : prog (world P) (list TenantDoc) := find_sorted (λ d, - t_createdAt d) (λ _, true).
Record TenantPatch := mkTenantPatch { tp_name : option string; tp_config : option (list (string * json)) }.
Definition patch_tenant (p : TenantPatch) (d : TenantDoc) : TenantDoc :=
  d <| t_name := nullish (tp_name p) (t_name d) |> <| t_config := nullish (tp_config p) (t_config d) |>.
Definition update_tenant (i : string) (p : TenantPatch) : prog (world P) (option TenantDoc) :=
  find_one_and_update (tenant_by_id i) (patch_tenant p).
Definition remove_tenant (i : string) : prog (world P) () := delete_one (tenant_by_id i).

(** ** Organizations *)
Definition INVALID_ORG : exn := ValidationError "A valid organization name is required" "INVALID_ORG".
Definition organization_by_id (i : string) (d : OrganizationDoc) : bool := bool_decide (or_id d = i).
Record CreateOrganizationInput := mkCreateOrganizationInput {
  co_name : string; co_slug : option string; co_tenantId : option string; co_ownerUserId : string; co_settings : option (list (string * json)) }.
(** The schema trims the name, and lowers and trims the slug. *)
Definition create_organization (input : CreateOrganizationInput) : prog (world P) OrganizationDoc :=
  let slug := match co_slug input with Some s => s | None => slugify (co_name input) end in
  if String.eqb slug "" then Throw INVALID_ORG
  else
    id ← draw newObjectId;
    let doc := mkOrganizationDoc id (js_trim (co_name input)) (js_trim (js_lower slug)) (co_tenantId input) (co_ownerUserId input)
      (nullish (co_settings input) []) in
    validated "Organization" [("name", or_name doc); ("slug", or_slug doc); ("ownerUserId", or_ownerUserId doc)]%string (create doc) ;;
    mret doc.
Definition get_organization (i : string) : prog (world P) (option OrganizationDoc) := find_one (organization_by_id i).
Definition organizations_of (tenantId : string) : prog (world P) (list OrganizationDoc) :=
  find_all (λ d, bool_decide (or_tenantId d = Some tenantId)).
Record OrganizationPatch := mkOrganizationPatch { op_name : option string; op_settings : option (list (string * json)) }.
Definition patch_organization (p : OrganizationPatch) (d : OrganizationDoc) : OrganizationDoc :=
  d <| or_name := match op_name p with Some n => js_trim n | None => or_name d end |> <| or_settings := nullish (op_settings p) (or_settings d) |>.
Definition update_organization (i : string) (p : OrganizationPatch) : prog (world P) (option OrganizationDoc) :=
  find_one_and_update (organization_by_id i) (patch_organization p).
Definition remove_organization (i : string) : prog (world P) () := delete_one (organization_by_id i).

(** ** Teams *)
Definition ORG_NOT_FOUND : exn := ValidationError "Organization not found" "ORG_NOT_FOUND".
Definition team_by_id (i : string) (d : TeamDoc) : bool := bool_decide (te_id d = i).
Definition create_team (name organizationId : string) (tenantId : option string) : prog (world P) TeamDoc :=
  organization ← get_organization organizationId;
  match organization with
  | None => Throw ORG_NOT_FOUND
  | Some o =>
    id ← draw newObjectId;
    let doc := mkTeamDoc id (js_trim name) (Some organizationId) (match tenantId with Some t => Some t | None => or_tenantId o end) [] [] in
    validated "Team" [("name", te_name doc)]%string (create doc) ;;
    mret doc
  end.
Definition teams_of (organizationId : string) : prog (world P) (list TeamDoc) :=
  find_all (λ d, bool_decide (te_organizationId d = Some organizationId)).
(** [$addToSet] and [$pull]. *)
Definition add_member (u : string) (d : TeamDoc) : TeamDoc :=
  if bool_decide (u ∈ te_memberIds d) then d else d <| te_memberIds ::= λ l, l ++ [u] |>.
Definition pull_member (u : string) (d : TeamDoc) : TeamDoc := d <| te_memberIds ::= List.filter (λ v, negb (String.eqb v u)) |>.
Definition addMember (teamId userId : string) : prog (world P) (option TeamDoc) := find_one_and_update (team_by_id teamId) (add_member userId).
Definition removeMember (teamId userId : string) : prog (world P) (option TeamDoc) := find_one_and_update (team_by_id teamId) (pull_member userId).
Definition remove_team (teamId : string) : prog (world P) () := delete_one (team_by_id teamId).

(** ** Quotas *)
Definition Limits : Type := list (string * Z).
Definition quota_of (tenantId : string) (d : TenantQuotaDoc) : bool := bool_decide (tq_tenantId d = tenantId).
Definition ensureDoc (limits : Limits) (tenantId : string) : prog (world P) TenantQuotaDoc :=
  find_one_and_upsert (quota_of tenantId) (λ d, d) (mkTenantQuotaDoc tenantId limits []).
Definition quota_exceeded (resource : string) : exn := RateLimitError ("Tenant quota exceeded for " +:+ resource).
(** [None] stands for [Infinity]. *)
Definition limit_of (limits : Limits) (resource : string) (d : TenantQuotaDoc) : option Z :=
  match map_get resource (tq_quotas d) with Some l => Some l | None => map_get resource limits end.
Definition used_of (resource : string) (d : TenantQuotaDoc) : Z := nullish (map_get resource (tq_usage d)) 0.
Definition exhausted (limits : Limits) (resource : string) (d : TenantQuotaDoc) : bool :=
  match limit_of limits resource d with Some limit => limit <=? used_of resource d | None => false end.
Definition check_quota (limits : Limits) (tenantId resource : string) : prog (world P) () :=
  doc ← ensureDoc limits tenantId;
  throw_if (exhausted limits resource doc) (quota_exceeded resource).
(** [$inc]. *)
Definition inc_usage (resource : string) (by_ : Z) (d : TenantQuotaDoc) : TenantQuotaDoc :=
  d <| tq_usage ::= map_set resource (used_of resource d + by_) |>.
Definition increment (tenantId resource : string) (by_ : Z) : prog (world P) Z :=
  doc ← find_one_and_upsert (quota_of tenantId) (inc_usage resource by_) (mkTenantQuotaDoc tenantId [] [(resource, by_)]);
  mret (nullish (map_get resource (tq_usage doc)) by_).
Definition usage_of (limits : Limits) (tenantId : string) : prog (world P) (list (string * Z)) :=
  doc ← ensureDoc limits tenantId;
  mret (tq_usage doc).
(** [UsageService] and [ApiUsageService]. *)
Record UsageSummary := mkUsageSummary { us_tenantId : string; us_resources : list (string * Z); us_reportedAt : Z }.
Definition summarize (limits : Limits) (tenantId : string) : prog (world P) UsageSummary :=
  l ← usage_of limits tenantId;
  t ← now;
  mret (mkUsageSummary tenantId l t).
Definition track (tenantId resource : string) (by_ : Z) : prog (world P) Z := increment tenantId resource by_.
Record UsageBreakdown := mkUsageBreakdown { ub_tenantId : string; ub_perResource : list (string * Z); ub_total : Z; ub_measuredAt : Z }.
Definition snapshot (limits : Limits) (tenantId : string) : prog (world P) UsageBreakdown :=
  s ← summarize limits tenantId;
  t ← now;
  mret (mkUsageBreakdown tenantId (us_resources s) (foldl (λ a kv, a + kv.2) 0 (us_resources s)) t).

(** ** Subscriptions *)
Definition PLAN_REQUIRED : exn := ValidationError "plan is required" "PLAN_REQUIRED".
Record CreateSubscriptionInput := mkCreateSubscriptionInput {
  cs_tenantId : option string; cs_applicationId : option string; cs_plan : string; cs_status : option SubscriptionStatus;
  cs_provider : option string; cs_externalId : option string; cs_cancelAtPeriodEnd : option bool }.
Definition subscription_by_id (i : string) (d : SubscriptionDoc) : bool := bool_decide (su_id d = i).
Definition create_subscription (input : CreateSubscriptionInput) : prog (world P) SubscriptionDoc :=
  if String.eqb (cs_plan input) "" then Throw PLAN_REQUIRED
  else
    id ← draw newObjectId;
    t ← now;
    let doc := mkSubscriptionDoc id (cs_tenantId input) (cs_applicationId input) (cs_plan input) (nullish (cs_status input) active_subscription)
      (nullish (cs_cancelAtPeriodEnd input) false) (cs_provider input) (cs_externalId input) t in
    create doc ;;
    mret doc.
Definition subscription_of (tenantId : string) : prog (world P) (option SubscriptionDoc) :=
  find_least (λ d, - su_createdAt d) (λ d, bool_decide (su_tenantId d = Some tenantId)).
Definition updateStatus (i : string) (s : SubscriptionStatus) : prog (world P) (option SubscriptionDoc) :=
  find_one_and_update (subscription_by_id i) (λ d, d <| su_status := s |>).
Definition cancel_subscription (i : string) (atPeriodEnd : bool) : prog (world P) (option SubscriptionDoc) := updateStatus i canceled.
Definition list_subscriptions (tenantId : option string) : prog (world P) (list SubscriptionDoc) :=
  find_all (λ d, if truthy tenantId then bool_decide (su_tenantId d = tenantId) else true).

(** ** Billing *)
(** [createCheckout(plan, customerRef)]: the address and the external identifier. *)
Context (createCheckout : option (string → string → prog (world P) (string * string))).
Record CheckoutResult := mkCheckoutResult { ck_url : string; ck_subscriptionId : string }.
Definition checkout (tenantId : string) (applicationId : option string) (plan : string) : prog (world P) CheckoutResult :=
  subscription ← create_subscription (mkCreateSubscriptionInput (Some tenantId) applicationId plan (Some trialing) None None None);
  match createCheckout with
  | Some ask =>
    session ← ask plan tenantId;
    updateStatus (su_id subscription) trialing ;;
    mret (mkCheckoutResult (session : string * string).1 (su_id subscription))
  | None =>
    updateStatus (su_id subscription) active_subscription ;;
    mret (mkCheckoutResult "" (su_id subscription))
  end.
Definition webhookStatusChanged (externalId : string) (s : SubscriptionStatus) : prog (world P) () :=
  l ← list_subscriptions None;
  match List.find (λ d, bool_decide (su_externalId d = Some externalId)) l with
  | Some d => updateStatus (su_id d) s ;; mret tt
  | None => mret tt
  end.
End tenancy.

(** ** Slugs are canonical *)
(** Runs of letters and digits separated by single dashes; [dashed] says that a dash
    came before. *)
Fixpoint slug_from (dashed : bool) (s : string) : bool :=
  match s with
  | EmptyString => true
  | String c s => if slug_char c then slug_from false s else Ascii.eqb c "-" && negb dashed && slug_from true s
  end.
Lemma slug_char_lower c : slug_char c = true → js_lower_ascii c = c ∧ js_is_space c = false ∧ Ascii.eqb c "-" = false.
Proof. destruct c as [[] [] [] [] [] [] [] []]; vm_compute; by intros. Qed.
Lemma dash_runs_slug s : ∀ d, slug_from d (dash_runs d s) = true.
Proof.
  induction s as [|c s IH]; intros d; [done|]. cbn [dash_runs]. destruct (slug_char c) eqn:Hc; [cbn; rewrite Hc; apply IH|].
  destruct d; [apply IH|]. cbn. apply IH.
Qed.
Lemma strip_dashes_slug s : ∀ d, slug_from d s = true → slug_from true (strip_dashes s) = true.
Proof.
  induction s as [|c s IH]; intros d; [done|]. cbn [slug_from]. destruct (slug_char c) eqn:Hc.
  - intros H. assert (strip_dashes (String c s) = String c s) as ->; [|cbn; by rewrite Hc].
    destruct c as [[] [] [] [] [] [] [] []]; done.
  - intros [[Hd%Ascii.eqb_eq _]%andb_true_iff Hs]%andb_true_iff. subst c. by apply (IH true).
Qed.
Lemma drop_dashes_cons c s : drop_dashes (String c s) = "" ∨ drop_dashes (String c s) = String c (drop_dashes s).
Proof. cbn [drop_dashes]. destruct (drop_dashes s); [destruct (Ascii.eqb c "-"); auto|auto]. Qed.
Lemma drop_dashes_slug s : ∀ d, slug_from d s = true → slug_from d (drop_dashes s) = true.
Proof.
  induction s as [|c s IH]; intros d H; [done|]. destruct (drop_dashes_cons c s) as [->| ->]; [done|]. cbn [slug_from] in *.
  destruct (slug_char c); [by apply IH|]. apply andb_true_iff in H as [-> H]. by apply IH.
Qed.
Lemma drop_dashes_twice s : drop_dashes (drop_dashes s) = drop_dashes s.
Proof.
  induction s as [|c s IH]; [done|]. cbn [drop_dashes]. destruct (drop_dashes s) as [|c' t] eqn:Ht.
  - destruct (Ascii.eqb c "-") eqn:Hc; [done|]. cbn. by rewrite Hc.
  - change (drop_dashes (String c (String c' t))) with (match drop_dashes (String c' t) with EmptyString => if Ascii.eqb c "-" then "" else String c "" | x => String c x end).
    by rewrite IH.
Qed.
Lemma slug_spaceless s : ∀ d, slug_from d s = true → js_lower s = s ∧ js_trim_end s = s ∧ dash_runs d s = s.
Proof.
  induction s as [|c s IH]; intros d H; [done|]. cbn [slug_from js_lower js_trim_end dash_runs] in *. destruct (slug_char c) eqn:Hc.
  - destruct (slug_char_lower c Hc) as (-> & Hs & _). destruct (IH _ H) as (-> & -> & ->). split; [done|]. split; [|done].
    by destruct s; [rewrite Hs|].
  - apply andb_true_iff in H as [[Hd%Ascii.eqb_eq Hn]%andb_true_iff H]. subst c. destruct (IH _ H) as (-> & -> & ->).
    destruct d; [done|]. split; [done|]. split; [by destruct s|done].
Qed.
Lemma slug_head s : slug_from true s = true → strip_dashes s = s ∧ js_trim_start s = s.
Proof.
  destruct s as [|c s]; [done|]. cbn [slug_from]. destruct (slug_char c) eqn:Hc; [|by destruct (Ascii.eqb c "-")]. intros _.
  destruct (slug_char_lower c Hc) as (_ & Hs & _). cbn [js_trim_start]. rewrite Hs. split; [|done].
  destruct c as [[] [] [] [] [] [] [] []]; done.
Qed.
Lemma dash_runs_head s : slug_from true s = true → dash_runs false s = s.
Proof. intros H. pose proof (slug_spaceless s true H) as (_ & _ & He). destruct s as [|c s]; [done|]. cbn in *. destruct (slug_char c); [done|by destruct (Ascii.eqb c "-")]. Qed.
Lemma slugify_form s : slug_from true (slugify s) = true ∧ drop_dashes (slugify s) = slugify s.
Proof.
  unfold slugify. split; [|apply drop_dashes_twice]. apply drop_dashes_slug. eapply strip_dashes_slug, dash_runs_slug.
Qed.

(** slugs are canonical.  Whatever the name, its slug consists of letters and
    digits in runs separated by single dashes, with no dash at either end, and the
    slug of a slug is itself. *)
Theorem slugify_canonical (name : string) :
  slug_from true (slugify name) = true ∧ drop_dashes (slugify name) = slugify name ∧ slugify (slugify name) = slugify name.
Proof.
  destruct (slugify_form name) as [Hs Hd]. split; [done|]. split; [done|]. unfold slugify at 1, js_trim.
  destruct (slug_spaceless _ _ Hs) as (Hl & He & _). destruct (slug_head _ Hs) as (Hh & Ht). by rewrite Hl, Ht, He, dash_runs_head, Hh, Hd.
Qed.

(** ** Counting *)
Section counting.
Context {P : Platform} (tenantId resource : string).

Definition counter (w : world P) : Z :=
  match List.find (quota_of tenantId) (docs (tenantQuotas w)) with Some d => used_of resource d | None => 0 end.
Lemma used_inc by_ d : used_of resource (inc_usage resource by_ d) = used_of resource d + by_.
Proof. unfold used_of at 1, inc_usage. cbn. by rewrite map_get_set, String.eqb_refl. Qed.
Lemma used_new by_ : used_of resource (mkTenantQuotaDoc tenantId [] [(resource, by_)]) = by_.
Proof. unfold used_of. cbn. by rewrite String.eqb_refl. Qed.

(** What an upsert of the quota document does to the counter. *)
Lemma upsert_counter u d k (w : world P) :
  (∀ x, tq_tenantId (u x) = tq_tenantId x) → (∀ x, used_of resource (u x) = used_of resource x + k) →
  tq_tenantId d = tenantId → used_of resource d = k →
  let r := match m_find_one (quota_of tenantId) (tbl w) with
           | Some x => (upd_tbl (m_update_one (quota_of tenantId) u) w, inr (u x))
           | None => let '(w', r) := insert_doc d w in (w', match r with inl e => inl e | inr _ => inr d end)
           end in
  counter r.1 = counter w + k ∧ ∃ x, r.2 = inr x ∧ List.find (quota_of tenantId) (docs (tenantQuotas r.1)) = Some x ∧
    (List.find (quota_of tenantId) (docs (tenantQuotas w)) = None → x = d) ∧
    (∀ y, List.find (quota_of tenantId) (docs (tenantQuotas w)) = Some y → x = u y).
Proof.
  intros Hu Hk Hd Hn. cbv zeta. rewrite m_find_one_law. change (tbl w) with (tenantQuotas w). unfold counter at 2.
  destruct (List.find _ (docs (tenantQuotas w))) as [x|] eqn:Hx; cbn [fst snd].
  - assert (List.find (quota_of tenantId) (docs (tenantQuotas (upd_tbl (m_update_one (quota_of tenantId) u) w))) = Some (u x)) as Hf.
    { change (tenantQuotas (upd_tbl ?g w)) with (g (tenantQuotas w)). rewrite m_update_one_law.
      apply find_alter_first; [done|]. apply List.find_some in Hx as [_ Hx%bool_decide_eq_true]. apply bool_decide_eq_true. congruence. }
    unfold counter. rewrite Hf. split; [by apply Hk|]. exists (u x). repeat (split; [done|]). by intros y [= ->].
  - unfold insert_doc. pose proof (m_insert_law clash d (tenantQuotas w)) as Hi. cbn [tbl tenantQuotas_table].
    destruct (m_insert _ _ _) as [c|].
    + destruct Hi as [_ Hi]. cbn [fst snd]. assert (List.find (quota_of tenantId) (docs c) = Some d) as Hf.
      { eapply inserted_find_new; [exact Hi|by apply bool_decide_eq_true|done]. }
      change (counter (upd_tbl (λ _, c) w)) with (match List.find (quota_of tenantId) (docs c) with Some d => used_of resource d | None => 0 end).
      change (tenantQuotas (upd_tbl (λ _, c) w)) with c. rewrite Hf. split; [lia|]. by exists d.
    + apply existsb_exists in Hi as (y & Hy & Hc%bool_decide_eq_true). pose proof (List.find_none _ _ Hx y Hy) as Hne%bool_decide_eq_false.
      congruence.
Qed.

(** A command that adds to the counter: none, all when it returns. *)
Definition added (by_ : Z) {A} (r : exn + A) (d : Z) : Prop := d = by_ ∨ d = 0 ∧ ∃ e, r = inl e.
Lemma tallies_increment by_ : tallies counter (increment (P := P) tenantId resource by_) (added by_) 0.
Proof.
  unfold increment. apply tallies_bind. intros w.
  assert (∀ fs, counter (w <| faults := fs |>) = counter w) as Hfs by done.
  pose proof (λ w, upsert_counter (inc_usage resource by_) (mkTenantQuotaDoc tenantId [] [(resource, by_)]) by_ w (λ _, eq_refl)
    (used_inc by_) eq_refl (used_new by_)) as Hu. cbv zeta in Hu.
  assert (∀ (r : exn + TenantQuotaDoc) d, d = by_ ∨ d = 0 ∧ (∃ e, r = inl e) → tallies counter (from_result r : prog (world P) _)
    (λ r d, match r with inr a => tallies counter (mret (nullish (map_get resource (tq_usage a)) by_) : prog (world P) _) (added by_) d | inl e => added by_ (inl (B := Z) e) d end) d) as Hr.
  { intros [e|a] d [->|[-> [e' He]]]; cbn; [by left|right; by split; [|eexists]|by left|done]. }
  apply Hr. unfold apply_fault. destruct (faults w) as [|[x|] fs]; cbn [fst snd].
  - left. destruct (Hu w) as [-> _]. lia.
  - destruct (fl_applied x).
    + left. destruct (Hu (w <| faults := fs |>)) as [-> _]. rewrite Hfs. lia.
    + right. rewrite Hfs. split; [lia|by eexists].
  - left. destruct (Hu (w <| faults := fs |>)) as [-> _]. rewrite Hfs. lia.
Qed.

(** C13: no increment is lost.  However the increments of any number of requests
    interleave, and whichever commands fail, once they have finished the counter of
    the tenant has moved by their amounts: each request that returned counts
    exactly once, one that threw once or not at all. *)
Theorem increments_never_lost (E : world P → world P → Prop) (amounts : list Z) (w w' : world P) (ps' : list (prog (world P) Z)) :
  (∀ w w', E w w' → counter w' = counter w) →
  reachable E (w, map (increment tenantId resource) amounts) (w', ps') →
  Forall (λ p, match p with Atom _ _ => False | _ => True end) ps' →
  ∃ ds, counter w' = counter w + foldr Z.add 0 ds ∧ length ds = length ps' ∧
    ∀ i p d by_, ps' !! i = Some p → ds !! i = Some d → amounts !! i = Some by_ → d = by_ ∨ d = 0 ∧ ∃ e, p = Throw e.
Proof.
  intros HE Hr Hfin.
  destruct (accounted_reachable counter (λ i r d, ∀ by_, amounts !! i = Some by_ → added by_ r d) E (counter w) _ _ HE Hr) as (ds & Hl & Hm & Hp).
  { apply accounted_start. intros i p Hi. change ((increment tenantId resource <$> amounts) !! i = Some p) in Hi. rewrite list_lookup_fmap in Hi. destruct (amounts !! i) as [by_|] eqn:Ha; [|done]. injection Hi as <-.
    eapply tallies_mono; [|apply tallies_increment]. by intros r d Hd ? [= <-]. }
  exists ds. split; [done|]. split; [done|]. intros i p d by_ Hi Hd Ha. specialize (Hp i p d Hi Hd).
  pose proof (Forall_lookup_1 _ _ _ _ Hfin Hi) as Hdone. destruct p as [a|e|]; [| |done]; cbn in Hp.
  - destruct (Hp by_ Ha) as [->|(_ & e & [=])]. by left.
  - destruct (Hp by_ Ha) as [->|[-> _]]; [by left|]. right. by split; [|eexists].
Qed.

(** *** Checking before counting *)
Lemma run_upsert u d k (w : world P) :
  healthy w → (∀ x, tq_tenantId (u x) = tq_tenantId x) → (∀ x, used_of resource (u x) = used_of resource x + k) →
  tq_tenantId d = tenantId → used_of resource d = k →
  ∃ w' x, run (find_one_and_upsert (quota_of tenantId) u d) w = (w', inr x) ∧ counter w' = counter w + k ∧ healthy w' ∧
    List.find (quota_of tenantId) (docs (tenantQuotas w')) = Some x ∧
    (List.find (quota_of tenantId) (docs (tenantQuotas w)) = None → x = d) ∧
    (∀ y, List.find (quota_of tenantId) (docs (tenantQuotas w)) = Some y → x = u y).
Proof.
  intros Hw Hu Hk Hd Hn. pose proof (upsert_counter u d k w Hu Hk Hd Hn) as Hc. cbv zeta in Hc.
  unfold find_one_and_upsert. rewrite run_store_op_healthy by done.
  assert (∀ g, healthy (upd_tbl (D := TenantQuotaDoc) g w)) as Hg by done.
  set (r := match m_find_one _ _ with Some _ => _ | None => _ end) in *. assert (healthy r.1) as Hr.
  { unfold r. destruct (m_find_one _ _); [apply Hg|]. unfold insert_doc. by destruct (m_insert _ _ _). }
  clearbody r. destruct Hc as (Hm & x & Hx & H). exists r.1, x. rewrite <- Hx. split; [apply surjective_pairing|done].
Qed.
Context (limits : Limits) (L : Z).
(** The limit in force for the tenant. *)
Definition limited_to (w : world P) : Prop :=
  match List.find (quota_of tenantId) (docs (tenantQuotas w)) with
  | Some d => limit_of limits resource d = Some L
  | None => map_get resource limits = Some L
  end.
Lemma run_check_quota (w : world P) :
  healthy w → limited_to w →
  ∃ w', run (check_quota limits tenantId resource) w = (w', if L <=? counter w then inl (quota_exceeded resource) else inr tt) ∧
    counter w' = counter w ∧ healthy w' ∧ limited_to w'.
Proof.
  intros Hw HL. destruct (run_upsert (λ d, d) (mkTenantQuotaDoc tenantId limits []) 0 w Hw) as (w' & x & Hr & Hc & Hw' & Hf & Hnew & Hold).
  1-4: try done; intros; lia.
  exists w'. unfold check_quota, ensureDoc. rewrite run_bind, Hr, run_throw_if. assert (limit_of limits resource x = Some L) as Hx.
  { unfold limited_to in HL. destruct (List.find _ (docs (tenantQuotas w))) as [y|] eqn:Hy; [by rewrite (Hold y eq_refl)|].
    rewrite (Hnew eq_refl). unfold limit_of. cbn. by rewrite HL. }
  assert (used_of resource x = counter w) as Hux by (unfold counter in Hc; rewrite Hf in Hc; unfold counter; lia).
  unfold exhausted. rewrite Hx, Hux. split; [by destruct (L <=? counter w)|]. split; [lia|]. split; [done|]. unfold limited_to. by rewrite Hf.
Qed.
Lemma run_increment by_ (w : world P) :
  healthy w → limited_to w →
  ∃ w', run (increment tenantId resource by_) w = (w', inr (counter w')) ∧ counter w' = counter w + by_ ∧ healthy w' ∧ limited_to w'.
Proof.
  intros Hw HL. destruct (run_upsert (inc_usage resource by_) (mkTenantQuotaDoc tenantId [] [(resource, by_)]) by_ w Hw (λ _, eq_refl)
    (used_inc by_) eq_refl (used_new by_)) as (w' & x & Hr & Hc & Hw' & Hf & Hnew & Hold).
  assert (limit_of limits resource x = Some L) as Hx.
  { unfold limited_to in HL. destruct (List.find _ (docs (tenantQuotas w))) as [y|] eqn:Hy; [by rewrite (Hold y eq_refl)|].
    rewrite (Hnew eq_refl). unfold limit_of. cbn. by rewrite HL. }
  exists w'. unfold increment. rewrite run_bind, Hr. unfold counter at 1. rewrite Hf. split; [|split; [done|split; [done|unfold limited_to; by rewrite Hf]]].
  change (run (mret (nullish (map_get resource (tq_usage x)) by_)) w' = (w', inr (used_of resource x))). unfold used_of.
  destruct (map_get resource (tq_usage x)) eqn:Hm; [done|]. exfalso. destruct (List.find _ (docs (tenantQuotas w))) as [y|].
  - rewrite (Hold y eq_refl) in Hm. unfold inc_usage in Hm. cbn in Hm. by rewrite map_get_set, String.eqb_refl in Hm.
  - rewrite (Hnew eq_refl) in Hm. cbn in Hm. by rewrite String.eqb_refl in Hm.
Qed.

(** A request that uses one unit when the quota allows it. *)
Definition use_unit : prog (world P) () :=
  try_catch (check_quota limits tenantId resource ;; increment tenantId resource 1 ;; mret tt) (λ _, mret tt).
Lemma run_use_unit (w : world P) :
  healthy w → limited_to w → counter w <= L →
  ∃ w', run use_unit w = (w', inr tt) ∧ counter w' = Z.min L (counter w + 1) ∧ healthy w' ∧ limited_to w'.
Proof.
  intros Hw HL Hle. destruct (run_check_quota w Hw HL) as (w1 & Hr & Hc & Hw1 & HL1).
  unfold use_unit. rewrite run_catch, run_bind, Hr. destruct (Z.leb_spec L (counter w)).
  - exists w1. split; [done|]. split; [lia|done].
  - destruct (run_increment 1 w1 Hw1 HL1) as (w2 & Hi & Hc2 & Hw2 & HL2). exists w2. rewrite run_bind, Hi. split; [done|].
    split; [lia|done].
Qed.

(** a tenant gets exactly its quota.  Requests that check the quota before they
    count, one after the other, bring the counter to the limit and never beyond:
    after [n] of them it is the limit or [n] more than before, whichever is less. *)
Theorem quota_met_exactly (n : nat) (w : world P) :
  healthy w → limited_to w → counter w <= L →
  ∃ w', run (for_each (replicate n tt) (λ _, use_unit)) w = (w', inr tt) ∧ counter w' = Z.min L (counter w + Z.of_nat n).
Proof.
  revert w. induction n as [|n IH]; intros w Hw HL Hle.
  - exists w. split; [done|]. cbn. lia.
  - destruct (run_use_unit w Hw HL Hle) as (w1 & Hr & Hc & Hw1 & HL1). destruct (IH w1 Hw1 HL1) as (w' & Hr' & Hc'); [lia|].
    exists w'. cbn [replicate for_each]. rewrite run_bind, Hr. split; [done|]. lia.
Qed.
End counting.

(** ** Billing *)
Section billing.
Context {P : Platform} (ask : string → string → prog (world P) (string * string)).
Definition unreferenced (w : world P) : Prop := Forall (λ d, su_externalId d = None) (docs (subscriptions w)).
Definition stays_unreferenced (w w' : world P) : Prop := unreferenced w → unreferenced w'.
#[export] Instance stays_unreferenced_preorder : PreOrder stays_unreferenced.
Proof. unfold stays_unreferenced. split; [by intros w|]. intros w1 w2 w3 H1 H2 H. auto. Qed.
Hypothesis provider_elsewhere : ∀ p c, guarantee stays_unreferenced (ask p c).
Lemma unreferenced_op {A} (f : world P → world P * (exn + A)) : (∀ w, stays_unreferenced w (f w).1) → guarantee stays_unreferenced (store_op f).
Proof. apply guarantee_store_op; [apply _|]. intros w x fs _ H. exact H. Qed.
Lemma unreferenced_status i st : guarantee (W := world P) stays_unreferenced (updateStatus i st).
Proof.
  apply unreferenced_op. intros w H. unfold unreferenced in *. cbn [fst]. change (subscriptions (upd_tbl ?g w)) with (g (subscriptions w)).
  rewrite m_update_one_law. induction H as [|d l Hd Hl IH]; [constructor|]. cbn. destruct (subscription_by_id i d); (constructor; [exact Hd|]); [exact Hl|exact IH].
Qed.
Lemma checkout_unreferenced tenantId applicationId plan : guarantee (W := world P) stays_unreferenced (checkout (Some ask) tenantId applicationId plan).
Proof.
  unfold checkout, create_subscription. apply guarantee_bind.
  - destruct (String.eqb _ ""); [done|]. apply guarantee_bind; [apply guarantee_act; intros w H; exact H|]. intros id. apply guarantee_bind; [apply guarantee_act; intros w H; exact H|].
    intros t. apply guarantee_bind; [|done]. apply unreferenced_op. intros w H. unfold insert_doc.
    match goal with |- context [m_insert clash ?d _] => pose proof (m_insert_law clash d (tbl w)) as Hi end.
    destruct (m_insert _ _ _) as [c|]; [|done]. destruct Hi as [_ Hi]. unfold unreferenced in *. cbn [fst].
    change (subscriptions (upd_tbl (λ _, c) w)) with c. apply Forall_forall. intros d Hd%list_elem_of_In.
    apply (inserted_In _ _ _ _ Hi) in Hd as [->|Hd]; [done|]. rewrite Forall_forall in H. by apply H, list_elem_of_In.
  - intros d. apply guarantee_bind; [apply provider_elsewhere|]. intros session. apply guarantee_bind; [apply unreferenced_status|done].
Qed.

(** the billing provider is never heard.  A checkout drops the identifier the
    provider answers with, so that where all subscriptions come from checkouts no
    notification finds its subscription, and none changes a status. *)
Theorem checkout_never_reconciled tenantId applicationId plan externalId st (w w1 w2 : world P) r r' :
  unreferenced w → run (checkout (Some ask) tenantId applicationId plan) w = (w1, r) →
  run (webhookStatusChanged externalId st) w1 = (w2, r') → subscriptions w2 = subscriptions w1.
Proof.
  intros H H1 H2. assert (unreferenced w1) as Hu.
  { pose proof (guarantee_run stays_unreferenced _ w (checkout_unreferenced tenantId applicationId plan)) as Hg. rewrite H1 in Hg. by apply Hg. }
  unfold webhookStatusChanged, list_subscriptions, find_all in H2. rewrite run_bind, run_store_op in H2. unfold apply_fault in H2.
  assert (∀ fs, List.find (λ d, bool_decide (su_externalId d = Some externalId)) (m_find (λ _, true) (subscriptions (w1 <| faults := fs |>))) = None) as Hf.
  { intros fs. rewrite m_find_law. change (subscriptions (w1 <| faults := fs |>)) with (subscriptions w1). unfold unreferenced in Hu.
    induction Hu as [|d l Hd _ IH]; [done|]. cbn. rewrite Hd. cbn. done. }
  destruct (faults w1) as [|[x|] fs].
  - specialize (Hf (faults w1)). replace (w1 <| faults := faults w1 |>) with w1 in Hf by (by destruct w1). cbn [truthy tbl subscriptions_table] in H2.
    rewrite Hf in H2. by injection H2 as <- _.
  - destruct (fl_applied x); by injection H2 as <- _.
  - cbn [truthy tbl subscriptions_table] in H2. rewrite Hf in H2. by injection H2 as <- _.
Qed.
End billing.
