(* ===== verification/Migrations.v ===== *)
(** * Migrations

    The runner and the migrations that change data, and what they do to the secrets of
    the users. *)

From S2P Require Export Mfa.
From Stdlib Require Import Ascii.

(** * Migrations

    [migrations/migration-runner.ts], the re-encryption of stored second-factor
    secrets [migrations/004-mfa-secrets-encryption.ts] with both of its roll-backs,
    and [migrations/003-add-audit-sequence.ts].  Command-line flags and environment
    variables are arguments. *)

Section migrations.
Context {P : Platform}.

(** ** Envelopes of the migration *)
Definition ENVELOPE_V2 : string := "v2:".
Definition key_required : exn := JsError "PEZHWAN_MFA_ENCRYPTION_KEY (base64 32-byte) is required".
Definition key_wrong_size : exn := JsError "PEZHWAN_MFA_ENCRYPTION_KEY must decode to 32 bytes".
Definition getKey (raw : option string) : exn + string :=
  if negb (truthy raw) then inl key_required
  else
    let key := from_base64 (nullish raw "") in
    if (String.length key =? 32)%nat then inr key else inl key_wrong_size.
(** [wrapV2], with the number of the drawn vector. *)
Definition sealed_v2 (secret key : string) (i : nat) : string :=
  let iv := randomBytes i 12 in
  let sealed := aes_256_gcm_seal key iv "" secret in
  ENVELOPE_V2 +:+ to_base64 (iv +:+ sealed.2 +:+ sealed.1).
Definition wrapV2 (secret key : string) : prog (world P) string := i ← draw (λ i, i); mret (sealed_v2 secret key i).
Definition too_short : exn := JsError "Envelope too short".
Definition unwrapEnvelope (value key : string) : exn + string :=
  let payload := from_base64 (nullish (strip ENVELOPE_V2 value) value) in
  if (String.length payload <? 28)%nat then inl too_short
  else decryptAes256Gcm (mkEncryptionResult (subarray_from payload 28) (subarray payload 0 12) (subarray payload 12 28)) key "".

Inductive classification := is_current | is_legacy (secret : string) | is_corrupt | is_unrecognized.
Definition classify (value : option string) (key : string) : classification :=
  match value with
  | None | Some "" => is_unrecognized
  | Some v =>
    match strip ENVELOPE_V2 v with
    | Some _ => match unwrapEnvelope v key with inr _ => is_current | inl _ => is_corrupt end
    | None =>
      match unwrapEnvelope v key with
      | inr decoded => is_legacy decoded
      | inl _ => let decoded := from_base64 v in
                 if (20 <=? String.length decoded)%nat then is_legacy decoded else is_corrupt
      end
    end
  end.

(** ** The migration of the secrets *)
Record Counters := mkCounters {
  cn_current : Z; cn_upgraded : Z; cn_corrupt : Z; cn_unrecognized : Z; cn_failed : Z;
  skippedCorrupt : list string; skippedUnrecognized : list string }.
#[export] Instance settable_Counters : Settable Counters := {| eta_expand := λ c,
  mkCounters (cn_current c) (cn_upgraded c) (cn_corrupt c) (cn_unrecognized c) (cn_failed c) (skippedCorrupt c) (skippedUnrecognized c) |}.
Definition no_counts : Counters := mkCounters 0 0 0 0 0 [] [].
Record Flags := mkFlags { APPLY : bool; VALIDATE : bool; BATCH_SIZE : Z }.

Definition set_secret (v : option string) (d : UserDoc) : UserDoc := d <| u_mfaSecret := v |>.
Definition has_secret (d : UserDoc) : bool := match u_mfaSecret d with Some _ => true | None => false end.
Definition holding (id stored : string) (d : UserDoc) : bool := bool_decide (u_id d = id) && bool_decide (u_mfaSecret d = Some stored).
Definition backup_of (id : string) (b : MfaBackupDoc) : bool := bool_decide (mb_userId b = id).
(** Sets a secret; how many documents changed, and whether one was found. *)
Definition write_secret (f : UserDoc → bool) (v : string) : prog (world P) (bool * bool) :=
  store_op (λ w : world P, (w <| users ::= m_update_one f (set_secret (Some v)) |>,
                  inr (match m_find_one f (users w) with
                       | Some d => (negb (bool_decide (u_mfaSecret d = Some v)), true)
                       | None => (false, false)
                       end))).
(** The branch of a legacy secret when it is written. *)
Definition upgrade (fl : Flags) (key : string) (d : UserDoc) (stored plain : string) (c : Counters) : prog (world P) Counters :=
  t ← now;
  id ← draw newObjectId;
  find_one_and_upsert (backup_of (u_id d)) (λ b, b <| mb_secret := stored |> <| mb_migratedAt := t |>)
    (mkMfaBackupDoc id (u_id d) stored t) ;;
  envelope ← wrapV2 plain key;
  res ← write_secret (holding (u_id d) stored) envelope;
  if (res : bool * bool).1 then
    valid ← (if VALIDATE fl then check ← from_result (unwrapEnvelope envelope key); mret (bool_decide (check = plain)) else mret true);
    if (valid : bool) then mret (c <| cn_upgraded ::= Z.add 1 |>)
    else
      write_secret (λ x, bool_decide (u_id x = u_id d)) stored ;;
      mret (c <| cn_failed ::= Z.add 1 |> <| skippedCorrupt ::= λ l, l ++ [u_id d] |>)
  else mret (c <| cn_failed ::= Z.add 1 |>).
Definition migrate_user (fl : Flags) (key : string) (d : UserDoc) (c : Counters) : prog (world P) Counters :=
  match classify (u_mfaSecret d) key with
  | is_current => mret (c <| cn_current ::= Z.add 1 |>)
  | is_legacy plain => if APPLY fl then upgrade fl key d (nullish (u_mfaSecret d) "") plain c else mret (c <| cn_upgraded ::= Z.add 1 |>)
  | is_corrupt => mret (c <| cn_corrupt ::= Z.add 1 |> <| skippedCorrupt ::= λ l, l ++ [u_id d] |>)
  | is_unrecognized => mret (c <| cn_unrecognized ::= Z.add 1 |> <| skippedUnrecognized ::= λ l, l ++ [u_id d] |>)
  end.
Fixpoint migrate_all (fl : Flags) (key : string) (l : list UserDoc) (c : Counters) : prog (world P) Counters :=
  match l with
  | [] => mret c
  | d :: l => c ← migrate_user fl key d c; migrate_all fl key l c
  end.
(** [cursor.limit(n).toArray()] the first time; the driver refuses to change a
    cursor that was read, so the second time throws. *)
Definition limited {A} (n : Z) (l : list A) : list A := if n =? 0 then l else take (Z.to_nat (Z.abs n)) l.
Definition cursor_in_use : exn := JsError "Cursor is already initialized".
Definition another_batch (size : Z) {A} (batch : list A) : bool := (0 <? length batch)%nat && (size <=? Z.of_nat (length batch)).
Definition migrate_secrets (fl : Flags) (key : string) : prog (world P) Counters :=
  l ← find_all has_secret;
  let batch := limited (BATCH_SIZE fl) l in
  c ← migrate_all fl key batch no_counts;
  throw_if (another_batch (BATCH_SIZE fl) batch) cursor_in_use ;;
  mret c.

(** [runRollback]: a row is cleared when its user changed. *)
Fixpoint rollback_all (l : list MfaBackupDoc) (restored : Z) : prog (world P) Z :=
  match l with
  | [] => mret restored
  | row :: l =>
    res ← write_secret (λ d, bool_decide (u_id d = mb_userId row)) (mb_secret row);
    restored ← (if (res : bool * bool).1 then delete_one (λ b, bool_decide (mb_id b = mb_id row)) ;; mret (restored + 1) else mret restored);
    rollback_all l restored
  end.
Definition runRollback (size : Z) : prog (world P) Z :=
  l ← find_all (λ _ : MfaBackupDoc, true);
  let batch := limited size l in
  restored ← rollback_all batch 0;
  throw_if (another_batch size batch) cursor_in_use ;;
  mret restored.
(** [main]. *)
Definition main_004 (fl : Flags) (rollback : bool) (raw_key : option string) : prog (world P) () :=
  if rollback then runRollback (BATCH_SIZE fl) ;; mret tt
  else
    key ← from_result (getKey raw_key);
    migrate_secrets fl key ;;
    mret tt.
(** The standalone [rollback/004-mfa-secrets-rollback.ts]: a row is cleared when its user was found. *)
Fixpoint restore_all (l : list MfaBackupDoc) (counts : Z * Z) : prog (world P) (Z * Z) :=
  match l with
  | [] => mret counts
  | row :: l =>
    res ← write_secret (λ d, bool_decide (u_id d = mb_userId row)) (mb_secret row);
    counts ← (if (res : bool * bool).1 || res.2 then delete_one (λ b, bool_decide (mb_id b = mb_id row)) ;; mret (counts.1 + 1, counts.2)
              else mret (counts.1, counts.2 + 1));
    restore_all l counts
  end.
Definition run_restore (size : Z) : prog (world P) (Z * Z) :=
  l ← find_all (λ _ : MfaBackupDoc, true);
  let batch := limited size l in
  counts ← restore_all batch (0, 0);
  throw_if (another_batch size batch) cursor_in_use ;;
  mret counts.

(** ** The runner *)
Definition digit_at (n : nat) (s : string) : bool := match String.get n s with Some ch => is_digit ch | None => false end.
Definition ends_with (suffix s : string) : bool :=
  (String.length suffix <=? String.length s)%nat &&
  String.eqb (String.substring (String.length s - String.length suffix) (String.length suffix) s) suffix.
(** [/^\d{3}-.+\.(ts|mjs|js)$/]. *)
Definition is_migration (f : string) : bool :=
  digit_at 0 f && digit_at 1 f && digit_at 2 f && match String.get 3 f with Some ch => Ascii.eqb ch "-" | None => false end &&
  existsb (λ ext, ends_with ext f && (4 + String.length ext <? String.length f)%nat) [".ts"; ".mjs"; ".js"]%string.
Fixpoint insert_name (f : string) (l : list string) : list string :=
  match l with
  | [] => [f]
  | g :: l' => if String.leb f g then f :: l else g :: insert_name f l'
  end.
Definition listMigrations (dir : list string) : list string := foldr insert_name [] (List.filter is_migration dir).
Definition unknown_command (c : string) : exn := JsError ("Unknown command: " +:+ c +:+ ". Use " +:+ quoted "up" +:+ " or " +:+ quoted "status" +:+ ".").
(** A module is imported; it may export [up]. *)
Context (import : string → prog (world P) (option (prog (world P) ()))).
Definition apply_file (f : string) : prog (world P) () :=
  up ← import f;
  (match up with Some up => up | None => mret tt end) ;;
  id ← draw newObjectId;
  t ← now;
  create (mkMigrationRecord id f t).
Fixpoint apply_files (files applied : list string) : prog (world P) () :=
  match files with
  | [] => mret tt
  | f :: files =>
    if bool_decide (f ∈ applied) then apply_files files applied
    else apply_file f ;; apply_files files (f :: applied)
  end.
Definition run_migrations (command : string) (dir : list string) : prog (world P) () :=
  let files := listMigrations dir in
  applied ← find_all (λ _ : MigrationRecord, true);
  if String.eqb command "status" then mret tt
  else if negb (String.eqb command "up") then Throw (unknown_command command)
  else apply_files files (map mg_name applied).

(** ** The sequence of the audit trail *)
Definition counter_id : string := "audit".
Definition is_counter (d : AuditSequenceDoc) : bool := bool_decide (q_id d = counter_id).
Definition validation_failed : exn := JsError "003-add-audit-sequence validation failed".
(** The flags of the command line. *)
Definition main_003 (apply dry validate rollback : bool) : prog (world P) () :=
  let dry_run := negb apply || dry in
  if rollback then mret tt
  else
    existing ← find_one is_counter;
    (match existing with
     | Some _ => mret tt
     | None => if dry_run then mret tt
               else find_one_and_upsert is_counter (λ d, d) (mkAuditSequenceDoc counter_id 0 None) ;; mret tt
     end) ;;
    if validate && apply then
      counter ← find_one is_counter;
      match counter with Some _ => mret tt | None => Throw validation_failed end
    else mret tt.
End migrations.

(** * The migration of the second-factor secrets

    What [Migrations] does to the secrets of the users: what a run writes, how the
    service reads it afterwards, and that rolling back undoes it. *)

Section envelopes.
Context {P : Platform} `{!AeadLaws P}.

Lemma strip_app p s : strip p (p +:+ s) = Some s.
Proof.
  induction p as [|c p IH]; [by destruct s|]. change (String c p +:+ s) with (String c (p +:+ s)). cbn [strip].
  by rewrite Ascii.eqb_refl.
Qed.

Lemma unwrap_sealed s key i : String.length key = 32%nat → unwrapEnvelope (sealed_v2 s key i) key = inr s.
Proof.
  intros Hk. unfold unwrapEnvelope, sealed_v2. rewrite strip_app. cbn [nullish]. rewrite from_to_base64.
  destruct (seal_lengths key (randomBytes i 12) "" s) as (Hc & Ht & Ho).
  set (ct := (aes_256_gcm_seal key (randomBytes i 12) "" s).1) in *. set (tag := (aes_256_gcm_seal key (randomBytes i 12) "" s).2) in *.
  assert (String.length (randomBytes i 12) = 12%nat) as Hi by apply randomBytes_length.
  rewrite !str_app_length, Hi, Ht. rewrite (proj2 (Nat.ltb_ge _ _)) by lia.
  rewrite (subarray_head _ _ 12 Hi), (subarray_skip _ _ 12) by (done || lia). cbn [Nat.sub]. rewrite (subarray_head tag _ 16 Ht).
  unfold subarray_from. rewrite !str_app_length, Hi, Ht, (subarray_skip _ _ 12) by (done || lia).
  rewrite (subarray_skip tag _ 16) by (done || lia). replace (28 - 12 - 16)%nat with 0%nat by lia.
  rewrite (subarray_whole ct) by lia. unfold decryptAes256Gcm. rewrite Hk. cbn [Nat.eqb negb er_iv er_ciphertext er_authTag].
  by rewrite Ho.
Qed.
Lemma classify_sealed s key i : String.length key = 32%nat → classify (Some (sealed_v2 s key i)) key = is_current.
Proof.
  intros Hk. unfold classify. pose proof (unwrap_sealed s key i Hk) as Hu. unfold sealed_v2 in *.
  change (ENVELOPE_V2 +:+ ?x) with (String "v" (String "2" (String ":" x))) in *. cbn [strip ENVELOPE_V2]. cbn. 
  by rewrite Hu.
Qed.

Lemma migrated_read m key secret i :
  masterKey m = inr key → String.length key = 32%nat → decryptSecret m (sealed_v2 secret key i) = inr secret.
Proof.
  intros Hm Hk. unfold decryptSecret, unwrap. rewrite Hm. pose proof (unwrap_sealed secret key i Hk) as Hs. unfold sealed_v2 in *.
  change (strip MFA_ENVELOPE_VERSION (ENVELOPE_V2 +:+ _)) with (@None string).
  change MFA_PREVIOUS_ENVELOPE_VERSION with ENVELOPE_V2. rewrite strip_app. cbn [nullish].
  unfold unwrapEnvelope in Hs. rewrite strip_app in Hs. cbn [nullish] in Hs. unfold unwrap_legacy. by destruct (_ <? 28)%nat.
Qed.

(** the service reads a migrated secret as it read the secret before.  A legacy
    envelope that opens under the key decrypts to the same secret after the
    migration has replaced it. *)
Theorem migrated_secret_read_alike (m : MfaService) (key old secret : string) (i : nat) :
  masterKey m = inr key → String.length key = 32%nat →
  strip MFA_ENVELOPE_VERSION old = None → strip ENVELOPE_V2 old = None → unwrapEnvelope old key = inr secret →
  classify (Some old) key = is_legacy secret ∧
  decryptSecret m old = inr secret ∧ decryptSecret m (sealed_v2 secret key i) = inr secret.
Proof.
  intros Hm Hk H3 H2 Hu. assert (old ≠ "") as Hne by (intros ->; discriminate). split.
  { unfold classify. destruct old; [done|]. by rewrite H2, Hu. }
  split; [|by apply migrated_read].
  unfold decryptSecret, unwrap. change MFA_PREVIOUS_ENVELOPE_VERSION with ENVELOPE_V2. rewrite Hm, H3, H2. cbn [nullish].
  unfold unwrapEnvelope in Hu. rewrite H2 in Hu. cbn [nullish] in Hu. unfold unwrap_legacy. by destruct (_ <? 28)%nat.
Qed.

(** *** The envelopes the service writes now *)
Lemma groups_length {A} k (l : list A) : (0 < k)%nat → length (groups k l) = (length l / k)%nat.
Proof.
  intros Hk. remember (length l) as n eqn:Hn. revert l Hn. induction n as [n IH] using lt_wf_ind. intros l Hn.
  destruct (Nat.lt_ge_cases n k) as [Hlt|Hge].
  - rewrite groups_short by lia. by rewrite Nat.div_small.
  - rewrite <- (take_drop k l), groups_cons by (rewrite ?length_take; lia). cbn [length].
    rewrite (IH (n - k)%nat) by (rewrite ?length_drop; lia).
    replace n with (n - k + 1 * k)%nat at 2 by lia. rewrite Nat.div_add by lia. lia.
Qed.
Lemma decode_length vs : String.length (decode_values 6 vs) = (6 * length vs / 8)%nat.
Proof.
  unfold decode_values. rewrite length_string_of_list, length_map, groups_length by lia. f_equal.
  induction vs as [|v vs IH]; [done|]. cbn [map concat length]. rewrite length_app, IH.
  change (length (value_bits 6 v)) with 6%nat. lia.
Qed.
Lemma version_read_as_base64 p : (String.length p < String.length (from_base64 (MFA_ENVELOPE_VERSION +:+ to_base64 p)))%nat.
Proof.
  assert (String.length p = (6 * length (base64_values (list_of_string (to_base64 p))) / 8)%nat) as Hp.
  { rewrite <- decode_length. change (decode_values 6 _) with (from_base64 (to_base64 p)). by rewrite from_to_base64. }
  unfold from_base64. rewrite decode_length.
  change (list_of_string (MFA_ENVELOPE_VERSION +:+ to_base64 p)) with
    (["v"; "3"; ":"]%char ++ list_of_string (to_base64 p)).
  change (base64_values (["v"; "3"; ":"]%char ++ ?l)) with ([47; 55]%nat ++ base64_values l).
  rewrite length_app. cbn [length]. set (n := length _) in *. rewrite Hp.
  apply (Nat.lt_le_trans _ ((6 * n + 1 * 8) / 8)%nat); [rewrite Nat.div_add by lia; lia|]. apply Nat.div_le_mono; lia.
Qed.

(** C16: The migration replaces the secrets the service writes.  The service seals with
    the prefix of its third envelope, which the migration does not know.  Unless the
    bytes its text decodes to happen to open under the key as an envelope of the
    second version (a forgery, for an authenticated cipher; this is the hypothesis
    [∀ s, unwrapEnvelope v key ≠ inr s]), the migration takes the text for a raw
    base64 secret and seals its bytes; the service, which read the secret before,
    reads those bytes afterwards, and they are not the secret. *)
Theorem enrolled_secret_replaced (m : MfaService) (key secret v : string) (i : nat) (w w' : world P) :
  masterKey m = inr key → run (encryptSecret m secret) w = (w', inr v) → (∀ s, unwrapEnvelope v key ≠ inr s) →
  decryptSecret m v = inr secret ∧ classify (Some v) key = is_legacy (from_base64 v) ∧
  decryptSecret m (sealed_v2 (from_base64 v) key i) = inr (from_base64 v) ∧ from_base64 v ≠ secret.
Proof.
  intros Hm Hr Hno. pose proof (masterKey_length m key Hm) as Hk.
  assert (decryptSecret m v = inr secret) as Hd.
  { destruct (run_wrapEnvelope m secret key w Hm) as (v' & Hr' & Hd' & _). unfold encryptSecret in Hr; unfold decryptSecret; congruence. }
  unfold encryptSecret, wrapEnvelope in Hr. rewrite Hm in Hr. cbn [from_result] in Hr. rewrite run_bind in Hr. cbn [run] in Hr.
  destruct (run_envelopeEncrypt secret key MFA_ENVELOPE_AAD w Hk) as (e & Hrun & _ & Hiv & Htag & Hct & Hdek).
  rewrite run_bind, Hrun, run_ret in Hr. injection Hr as _ <-.
  pose proof (version_read_as_base64 (envelope_payload e)) as Hlen. set (v := MFA_ENVELOPE_VERSION +:+ to_base64 (envelope_payload e)) in *.
  assert (String.length (envelope_payload e) = String.length secret + 88)%nat as Hp.
  { unfold envelope_payload. rewrite !str_app_length. lia. }
  split; [done|]. split; [|split].
  - unfold classify. destruct v as [|ch v'] eqn:Hv; [done|]. rewrite <- Hv in *.
    assert (strip ENVELOPE_V2 v = None) as -> by done. destruct (unwrapEnvelope v key) as [x|s] eqn:Hu; [|by destruct (Hno s)].
    by rewrite (proj2 (Nat.leb_le _ _)) by lia.
  - apply (migrated_read m key); [done|done].
  - intros Heq. rewrite Heq in Hlen. lia.
Qed.
End envelopes.

(** ** What a run writes *)
Section runs.
Context {P : Platform} `{!AeadLaws P} (fl : Flags) (key : string).
Hypothesis key_size : String.length key = 32%nat.

(** Every secret that changes was a legacy one, and its envelope holds it. *)
Definition upgraded (d d' : UserDoc) : Prop :=
  d' = d ∨ ∃ v s i, u_mfaSecret d = Some v ∧ classify (Some v) key = is_legacy s ∧ d' = set_secret (Some (sealed_v2 s key i)) d.
#[export] Instance upgraded_preorder : PreOrder upgraded.
Proof.
  split; [by left|]. intros d1 d2 d3 [->|(v & s & i & Hv & Hc & ->)]; [done|].
  intros [->|(v' & s' & i' & Hv' & Hc' & ->)]; [by right; exists v, s, i|].
  cbn in Hv'. injection Hv' as <-. by rewrite classify_sealed in Hc'.
Qed.
Definition only_upgrades (w w' : world P) : Prop := Forall2 upgraded (docs (users w)) (docs (users w')).
#[export] Instance only_upgrades_preorder : PreOrder only_upgrades.
Proof.
  unfold only_upgrades. split.
  - intros w. reflexivity.
  - intros w1 w2 w3 H1 H2. by etrans.
Qed.
Lemma only_upgrades_same w w' : docs (users w') = docs (users w) → only_upgrades w w'.
Proof. unfold only_upgrades. by intros ->. Qed.
Lemma only_op {A} (f : world P → world P * (exn + A)) : (∀ w, only_upgrades w (f w).1) → guarantee only_upgrades (store_op f).
Proof. apply guarantee_store_op; [apply _|]. intros w x fs _. by apply only_upgrades_same. Qed.
Lemma only_act {A} (f : world P → world P * A) : (∀ w, users (f w).1 = users w) → guarantee only_upgrades (act f).
Proof. intros Hf. apply guarantee_act. intros w. apply only_upgrades_same. by rewrite Hf. Qed.
Lemma only_write id v s i :
  classify (Some v) key = is_legacy s → guarantee only_upgrades (write_secret (P := P) (holding id v) (sealed_v2 s key i)).
Proof.
  intros Hc. apply only_op. intros w. unfold only_upgrades. cbn [fst]. change (users (set_field users ?g w)) with (g (users w)).
  rewrite m_update_one_law. induction (docs (users w)) as [|d l IH]; cbn; [constructor|].
  destruct (holding id v d) eqn:Hh.
  - unfold holding in Hh. apply andb_true_iff in Hh as [_ Hv%bool_decide_eq_true]. constructor; [right; eauto 7|reflexivity].
  - constructor; [by left|exact IH].
Qed.
Lemma only_backup f u d : guarantee (W := world P) only_upgrades (find_one_and_upsert (D := MfaBackupDoc) f u d).
Proof.
  apply only_op. intros w. apply only_upgrades_same. destruct (m_find_one _ _); [done|]. unfold insert_doc.
  by destruct (m_insert _ _ _).
Qed.
Lemma validated (s : string) : (from_result (inr s) ≫= λ check, mret (bool_decide (check = s))) = (mret true : prog (world P) bool).
Proof. change (mret (bool_decide (s = s)) = (mret true : prog (world P) bool)). by rewrite bool_decide_true. Qed.
Lemma only_upgrade d v s c : classify (Some v) key = is_legacy s → guarantee only_upgrades (upgrade (P := P) fl key d v s c).
Proof.
  intros Hc. unfold upgrade. apply guarantee_bind; [by apply only_act|]. intros t. apply guarantee_bind; [by apply only_act|]. intros id.
  apply guarantee_bind; [apply only_backup|]. intros _.
  change (wrapV2 s key ≫= ?k) with (draw (P := P) (λ i, i) ≫= λ i, k (sealed_v2 s key i)). cbv beta.
  apply guarantee_bind; [by apply only_act|]. intros i. apply guarantee_bind; [by apply only_write|]. intros [[] ?]; [|done].
  cbn [fst]. rewrite unwrap_sealed, validated by done. by destruct (VALIDATE fl).
Qed.
Lemma only_migrate_all l : ∀ c, guarantee (W := world P) only_upgrades (migrate_all fl key l c).
Proof.
  induction l as [|d l IH]; intros c; [done|]. cbn [migrate_all]. apply guarantee_bind; [|done]. unfold migrate_user.
  destruct (classify (u_mfaSecret d) key) as [|s| |] eqn:Hc; [done| |done..]. destruct (APPLY fl); [|done].
  destruct (u_mfaSecret d) as [v|]; [by apply only_upgrade|done].
Qed.

(** C21: The migration never overwrites a change.  Whatever runs at the same time and
    whichever command fails, every single action of a migration leaves each user
    as it was, or replaces a legacy secret, read at that moment, by an envelope
    that opens to it; no other field and no other secret is written. *)
Theorem migration_only_upgrades : guarantee (W := world P) only_upgrades (migrate_secrets fl key).
Proof.
  unfold migrate_secrets. apply guarantee_bind; [by apply only_op|]. intros l. apply guarantee_bind; [apply only_migrate_all|].
  intros c. apply guarantee_bind; [apply guarantee_throw_if|done].
Qed.

(** *** A run that returns *)
Definition moved (d d' : UserDoc) : Prop :=
  match classify (u_mfaSecret d) key with
  | is_legacy s => ∃ i, d' = set_secret (Some (sealed_v2 s key i)) d
  | _ => d' = d
  end.
Lemma alter_first_map {D} (k : D → string) (f : D → bool) (u : D → D) d l :
  unique_key k l → In d l → f d = true → (∀ x, f x = true → k x = k d) →
  alter_first f u l = map (λ x, if bool_decide (k x = k d) then u x else x) l.
Proof.
  induction l as [|x l IH]; [done|]. intros [Hl Hx]%unique_key_cons Hin Hd Hf. cbn.
  destruct (f x) eqn:Hfx.
  - rewrite bool_decide_true by auto. f_equal. symmetry. rewrite <- (map_id l) at 2. apply map_ext_in. intros y Hy.
    rewrite bool_decide_false; [done|]. rewrite <- (Hf x Hfx). intros Heq. by apply (Hx y Hy).
  - destruct Hin as [->|Hin]; [congruence|]. rewrite bool_decide_false.
    + f_equal. by apply IH.
    + intros Heq. by apply (Hx d Hin).
Qed.
Notation backups w := (docs (mfaSecretsBackup w)).
Lemma run_upsert_backup d v id t w w' b :
  run (find_one_and_upsert (P := P) (backup_of (u_id d)) (λ b, b <| mb_secret := v |> <| mb_migratedAt := t |>) (mkMfaBackupDoc id (u_id d) v t)) w = (w', inr b) →
  users w' = users w ∧ draws w' = draws w ∧ (∃ b, In b (backups w') ∧ mb_userId b = u_id d ∧ mb_secret b = v) ∧
  (∀ b, In b (backups w') → mb_userId b = u_id d ∧ mb_secret b = v ∨ In b (backups w)) ∧
  (∀ b, In b (backups w) → mb_userId b ≠ u_id d → In b (backups w')).
Proof.
  intros (fs & Hf & _)%run_store_op_ok. rewrite m_find_one_law in Hf. cbn [tbl mfaSecretsBackup_table] in Hf.
  change (mfaSecretsBackup (w <| faults := fs |>)) with (mfaSecretsBackup w) in Hf.
  destruct (List.find _ _) as [x|] eqn:Hx.
  - injection Hf as <- _. do 2 (split; [done|]).
    assert (∀ f, mfaSecretsBackup (set_field mfaSecretsBackup f (w <| faults := fs |>)) = f (mfaSecretsBackup w)) as -> by done.
    rewrite m_update_one_law.
    destruct (alter_first_some _ (λ b, b <| mb_secret := v |> <| mb_migratedAt := t |>) _ _ Hx) as (l1 & l2 & Hl & -> & _).
    apply List.find_some in Hx as [_ Hx%bool_decide_eq_true]. split; [|split].
    + eexists. split; [apply in_app_iff; right; left; reflexivity|done].
    + intros y [Hy|[<-|Hy]]%in_app_iff; [right|by left|right]; rewrite Hl; apply in_app_iff; [by left|by right; right].
    + intros y. rewrite Hl, !in_app_iff. intros [Hy|[<-|Hy]] Hne; [by left|done|by right; right].
  - unfold insert_doc in Hf. pose proof (m_insert_law clash (mkMfaBackupDoc id (u_id d) v t) (mfaSecretsBackup w)) as Hi.
    cbn [tbl mfaSecretsBackup_table] in Hf. change (mfaSecretsBackup (w <| faults := fs |>)) with (mfaSecretsBackup w) in Hf.
    destruct (m_insert _ _ _) as [c|]; [|done]. injection Hf as <- _. destruct Hi as [_ Hi]. do 2 (split; [done|]).
    assert (∀ f, mfaSecretsBackup (set_field mfaSecretsBackup f (w <| faults := fs |>)) = f (mfaSecretsBackup w)) as -> by done.
    split; [|split].
    + eexists. split; [by apply (inserted_In _ _ _ _ Hi); left|done].
    + intros y [->|Hy]%(inserted_In _ _ _ _ Hi); [by left|by right].
    + intros y Hy _. apply (inserted_In _ _ _ _ Hi). by right.
Qed.
Lemma run_write_secret f v w w' r :
  run (write_secret (P := P) f v) w = (w', inr r) →
  docs (users w') = alter_first f (set_secret (Some v)) (docs (users w)) ∧ mfaSecretsBackup w' = mfaSecretsBackup w ∧
  r.2 = (if List.find f (docs (users w)) then true else false).
Proof.
  intros (fs & Hf & _)%run_store_op_ok. injection Hf as <- <-. change (users (w <| faults := fs |>)) with (users w).
  change (users (set_field users ?g (w <| faults := fs |>))) with (g (users w)). rewrite m_update_one_law, m_find_one_law.
  split; [done|]. split; [done|]. by destruct (List.find _ _).
Qed.

(** One user of a run, and the rest of the collection. *)
Definition patched (d : UserDoc) (u : UserDoc → UserDoc) (l : list UserDoc) : list UserDoc :=
  map (λ x, if bool_decide (u_id x = u_id d) then u x else x) l.
Record kept_but (d : UserDoc) (v : string) (w w' : world P) : Prop := {
  kb_new : ∀ b, In b (backups w') → mb_userId b = u_id d ∧ mb_secret b = v ∨ In b (backups w);
  kb_old : ∀ b, In b (backups w) → mb_userId b ≠ u_id d → In b (backups w') }.
Lemma upgrade_ok d v s c w w' c' :
  run (upgrade fl key d v s c) w = (w', inr c') → u_mfaSecret d = Some v →
  In d (docs (users w)) → unique_key u_id (docs (users w)) →
  ∃ i, docs (users w') = patched d (set_secret (Some (sealed_v2 s key i))) (docs (users w)) ∧
    (∃ b, In b (backups w') ∧ mb_userId b = u_id d ∧ mb_secret b = v) ∧ kept_but d v w w'.
Proof.
  intros H Hv Hin Hu. unfold upgrade in H. rewrite run_bind, run_now, run_bind, run_draw in H.
  first_step H w1 b Hb. apply run_upsert_backup in Hb as (Hus & _ & Hex & Hnew & Hold).
  change (wrapV2 s key ≫= ?k) with (draw (P := P) (λ i, i) ≫= λ i, k (sealed_v2 s key i)) in H. cbv beta in H.
  rewrite run_bind, run_draw in H. set (w2 := w1 <| draws ::= S |>) in *. first_step H w3 r Hr.
  apply run_write_secret in Hr as (Hdocs & Hbk & _). exists (draws w1).
  change (users w2) with (users w1) in Hdocs. rewrite Hus in Hdocs. change (users (w <| draws ::= S |>)) with (users w) in Hdocs.
  assert (users w' = users w3 ∧ mfaSecretsBackup w' = mfaSecretsBackup w1) as [-> Hbk'].
  { change (mfaSecretsBackup w2) with (mfaSecretsBackup w1) in Hbk. destruct (r.1); cbv beta iota in H.
    - rewrite unwrap_sealed, validated in H by done. destruct (VALIDATE fl); injection H as <- _; done.
    - by injection H as <- _. }
  split; [|split; [by rewrite Hbk'|by split; rewrite Hbk']].
  rewrite Hdocs. apply alter_first_map; [done|done| |].
  - unfold holding. by rewrite Hv, !bool_decide_true.
  - intros x. unfold holding. by intros [Hx%bool_decide_eq_true _]%andb_true_iff.
Qed.

(** What a run over some of the users did. *)
Record migrated (l : list UserDoc) (w w' : world P) : Prop := {
  mi_users : Forall2 (λ d d', if bool_decide (u_id d ∈ map u_id l) then moved d d' else d' = d) (docs (users w)) (docs (users w'));
  mi_backed : ∀ d v s, In d l → u_mfaSecret d = Some v → classify (Some v) key = is_legacy s →
    ∃ b, In b (backups w') ∧ mb_userId b = u_id d ∧ mb_secret b = v;
  mi_new : ∀ b, In b (backups w') →
    (∃ d s, In d l ∧ mb_userId b = u_id d ∧ u_mfaSecret d = Some (mb_secret b) ∧ classify (Some (mb_secret b)) key = is_legacy s) ∨ In b (backups w);
  mi_old : ∀ b, In b (backups w) → mb_userId b ∉ map u_id l → In b (backups w') }.
Lemma patched_ids d u l : (∀ x, u_id (u x) = u_id x) → map u_id (patched d u l) = map u_id l.
Proof. intros Hu. unfold patched. rewrite map_map. apply map_ext. intros x. by case_bool_decide. Qed.
Lemma In_patched_other d u l x : In x l → u_id x ≠ u_id d → In x (patched d u l).
Proof. intros Hx Hne. unfold patched. apply in_map_iff. exists x. by rewrite bool_decide_false. Qed.
Lemma Forall2_map_left {A B C} (R : B → C → Prop) (f : A → B) l k : Forall2 R (map f l) k → Forall2 (λ x y, R (f x) y) l k.
Proof. revert k. induction l as [|x l IH]; intros k H; inversion H; subst; constructor; auto. Qed.
Lemma Forall2_In {A B} (R Q : A → B → Prop) l k : Forall2 R l k → (∀ x y, In x l → R x y → Q x y) → Forall2 Q l k.
Proof.
  induction 1 as [|x y l k Hxy _ IH]; intros Hq; constructor; [apply Hq; [by left|done]|]. apply IH. intros a b Ha. apply Hq. by right.
Qed.
Lemma migrate_user_ok d c w w' c' :
  run (migrate_user fl key d c) w = (w', inr c') → APPLY fl = true → In d (docs (users w)) → unique_key u_id (docs (users w)) →
  ∃ u, moved d (u d) ∧ (∀ x, u_id (u x) = u_id x) ∧ docs (users w') = patched d u (docs (users w)) ∧
    match classify (u_mfaSecret d) key with
    | is_legacy s => ∃ v, u_mfaSecret d = Some v ∧ (∃ b, In b (backups w') ∧ mb_userId b = u_id d ∧ mb_secret b = v) ∧ kept_but d v w w'
    | _ => mfaSecretsBackup w' = mfaSecretsBackup w
    end.
Proof.
  intros H Ha Hin Hu. unfold migrate_user, moved in *.
  assert (∀ l, patched d (λ x, x) l = l) as Hid.
  { intros l. unfold patched. rewrite <- (map_id l) at 2. apply map_ext. intros x. by case_bool_decide. }
  destruct (classify (u_mfaSecret d) key) as [|s| |] eqn:Hc; [exists (λ x, x); injection H as <- _; by rewrite Hid| |
    exists (λ x, x); injection H as <- _; by rewrite Hid..].
  rewrite Ha in H. destruct (u_mfaSecret d) as [v|] eqn:Hv; [|done].
  apply upgrade_ok in H as (i & Hd & Hb & Hk); [|done..]. exists (set_secret (Some (sealed_v2 s key i))). split; [by exists i|].
  split; [done|]. split; [done|]. by exists v.
Qed.
Lemma migrate_all_ok : ∀ l c w w' c', run (migrate_all fl key l c) w = (w', inr c') → APPLY fl = true →
  NoDup (map u_id l) → incl l (docs (users w)) → unique_key u_id (docs (users w)) → migrated l w w'.
Proof.
  induction l as [|d l IH]; intros c w w' c' H Ha Hnd Hincl Hu; cbn [migrate_all] in H.
  - injection H as <- _. split; try done; [|by right]. cbn. clear. induction (docs (users w)); constructor; done.
  - first_step H w1 c1 H1. apply NoDup_cons in Hnd as [Hd Hnd].
    pose proof (Hincl d (or_introl eq_refl)) as Hind.
    apply migrate_user_ok in H1 as (u & Hmoved & Hid & Hdocs & Hbk); [|done..].
    assert (unique_key u_id (docs (users w1))) as Hu1 by (unfold unique_key in *; by rewrite Hdocs, patched_ids).
    assert (∀ x, In x l → u_id x ≠ u_id d) as Hne.
    { intros x Hx Heq. apply Hd. rewrite <- Heq. by apply list_elem_of_In, in_map. }
    destruct (IH _ _ _ _ H Ha Hnd) as [H2 Hbd Hnew Hold]; [|done|].
    { intros x Hx. rewrite Hdocs. apply In_patched_other; [apply Hincl; by right|by apply Hne]. }
    split.
    + rewrite Hdocs in H2. apply Forall2_map_left in H2. eapply Forall2_In; [exact H2|]. cbv beta. intros x y Hx.
      cbn [map]. destruct (bool_decide_reflect (u_id x = u_id d)) as [Hxd|Hxd].
      * assert (x = d) as -> by (by apply (unique_key_eq u_id (docs (users w)))). rewrite Hid, bool_decide_false by done.
        intros ->. rewrite bool_decide_true by set_solver. done.
      * intros Hr. destruct (bool_decide_reflect (u_id x ∈ map u_id l)) as [Hl|Hl];
          [rewrite bool_decide_true by set_solver|rewrite bool_decide_false by set_solver]; done.
    + intros x v s [<-|Hx] Hv Hc; [|by apply (Hbd x v s)]. rewrite Hv, Hc in Hbk.
      destruct Hbk as (v' & [= <-] & (b & Hb & Hbi & Hbs) & _). exists b. split; [|done]. apply Hold; [done|]. by rewrite Hbi.
    + intros b Hb. destruct (Hnew b Hb) as [(x & s & Hx & Hi & Hv & Hc)|Hb1]; [left; exists x, s; split; [by right|done]|].
      destruct (classify (u_mfaSecret d) key) as [|s| |] eqn:Hc; [right; congruence| |right; congruence..].
      destruct Hbk as (v & Hv & _ & [Hn _]). destruct (Hn b Hb1) as [[Hi ->]|Hb0]; [|by right].
      left. exists d, s. split; [by left|]. rewrite Hv in *. done.
    + intros b Hb Hn. cbn in Hn. apply Hold; [|set_solver].
      destruct (classify (u_mfaSecret d) key) as [|s| |] eqn:Hc; [congruence| |congruence..].
      destruct Hbk as (v & Hv & _ & [_ Ho]). apply Ho; [done|set_solver].
Qed.

Lemma unique_key_filter {D} (k : D → string) (f : D → bool) l : unique_key k l → unique_key k (List.filter f l).
Proof.
  induction l as [|d l IH]; [done|]. intros [Hl Hd]%unique_key_cons. cbn. destruct (f d); [|by apply IH].
  apply unique_key_cons. split; [by apply IH|]. intros y [Hy _]%List.filter_In. by apply Hd.
Qed.
(** A run that does not throw saw every document it looked for. *)
Lemma limited_all {A} n (l : list A) : another_batch n (limited n l) = false → 0 < n → limited n l = l.
Proof.
  unfold limited, another_batch. intros H Hn. rewrite (proj2 (Z.eqb_neq _ _)) in * by lia. rewrite Z.abs_eq in * by lia.
  destruct l as [|x l]; [by rewrite take_nil|]. apply take_ge. apply andb_false_iff in H as [H|H].
  - destruct (Z.to_nat n) eqn:He; [lia|done].
  - apply Z.leb_gt in H. rewrite length_take in H. lia.
Qed.
Lemma run_migrate w w' c :
  run (migrate_secrets fl key) w = (w', inr c) → APPLY fl = true → 0 < BATCH_SIZE fl → unique_key u_id (docs (users w)) →
  migrated (List.filter has_secret (docs (users w))) w w'.
Proof.
  intros H Ha Hsize Hu. unfold migrate_secrets in H. first_step H w1 l Hl. apply run_store_op_ok in Hl as (fs & Hl & _).
  injection Hl as <- <-. rewrite m_find_law in H. cbn [tbl users_table] in H. change (users (w <| faults := fs |>)) with (users w) in H.
  set (l := List.filter has_secret (docs (users w))) in *. first_step H w2 c2 Hrun.
  rewrite run_bind, run_throw_if in H. destruct (another_batch _ _) eqn:Hmore; [done|]. injection H as <- _.
  rewrite (limited_all _ _ Hmore) in Hrun by done. destruct (migrate_all_ok l _ (w <| faults := fs |>) _ _ Hrun Ha) as [H1 H2 H3 H4].
  - apply unique_key_filter. done.
  - intros x. unfold l. by intros [Hx _]%List.filter_In.
  - done.
  - by split.
Qed.

(** a complete migration moves every legacy secret, and backs each one up.  On a
    run that returns, each user whose secret is legacy has an envelope that opens
    to it and nothing else changed, every other user is as before, and the backup
    has the original of every secret that was replaced. *)
Theorem migration_complete (w w' : world P) (c : Counters) :
  run (migrate_secrets fl key) w = (w', inr c) → APPLY fl = true → 0 < BATCH_SIZE fl → unique_key u_id (docs (users w)) →
  Forall2 moved (docs (users w)) (docs (users w')) ∧
  ∀ d v s, In d (docs (users w)) → u_mfaSecret d = Some v → classify (Some v) key = is_legacy s →
    ∃ b, In b (backups w') ∧ mb_userId b = u_id d ∧ mb_secret b = v.
Proof.
  intros H Ha Hsize Hu. pose proof (run_migrate w w' c H Ha Hsize Hu) as [H2 Hb _ _]. split.
  - eapply Forall2_In; [exact H2|]. cbv beta. intros x y Hx.
    destruct (bool_decide_reflect (u_id x ∈ map u_id (List.filter has_secret (docs (users w))))) as [|Hn]; [done|].
    intros ->. unfold moved. destruct (u_mfaSecret x) as [v|] eqn:Hv; [|done]. destruct Hn. apply list_elem_of_In, in_map, List.filter_In.
    split; [done|]. unfold has_secret. by rewrite Hv.
  - intros d v s Hd Hv Hc. apply (Hb d v s); [|done..]. apply List.filter_In. split; [done|]. unfold has_secret. by rewrite Hv.
Qed.

Lemma moved_id d d' : moved d d' → u_id d' = u_id d.
Proof. unfold moved. destruct (classify _ _); try (by intros ->). by intros [i ->]. Qed.
Lemma moved_fixed d d' : moved d d' → ∀ z, moved d' z → z = d'.
Proof.
  unfold moved. destruct (classify (u_mfaSecret d) key) as [|s| |] eqn:Hc; [intros ->; by rewrite Hc| |intros ->; by rewrite Hc..].
  intros [i ->] z. change (u_mfaSecret (set_secret (Some ?v) d)) with (Some v). by rewrite classify_sealed.
Qed.
Lemma Forall2_ids l l' : Forall2 (λ d d' : UserDoc, u_id d' = u_id d) l l' → map u_id l = map u_id l'.
Proof. induction 1 as [|x y l l' Hxy _ IH]; [done|]. cbn. by rewrite Hxy, IH. Qed.
Lemma Forall2_right {A B} (R : A → B → Prop) (Q : B → Prop) l k : Forall2 R l k → (∀ x y, In x l → R x y → Q y) → Forall Q k.
Proof.
  induction 1 as [|x y l k Hxy _ IH]; intros Hq; constructor; [apply (Hq x y); [by left|done]|]. apply IH. intros a b Ha. apply Hq. by right.
Qed.

Lemma migrated_ids w w' c : run (migrate_secrets fl key) w = (w', inr c) → APPLY fl = true → 0 < BATCH_SIZE fl →
  unique_key u_id (docs (users w)) → unique_key u_id (docs (users w')).
Proof.
  intros H Ha Hsize Hu. apply run_migrate in H; [|done..]. destruct H as [H _ _ _]. unfold unique_key in *.
  replace (map u_id (docs (users w'))) with (map u_id (docs (users w))); [done|].
  apply Forall2_ids. eapply Forall2_In; [exact H|]. cbv beta. intros x y _. case_bool_decide; [apply moved_id|by intros ->].
Qed.

(** migrating twice is migrating once: a run over users whose secrets a run has
    moved changes no user. *)
Theorem migration_idempotent (w w1 w2 : world P) (c1 c2 : Counters) :
  run (migrate_secrets fl key) w = (w1, inr c1) → run (migrate_secrets fl key) w1 = (w2, inr c2) →
  APPLY fl = true → 0 < BATCH_SIZE fl → unique_key u_id (docs (users w)) →
  docs (users w2) = docs (users w1).
Proof.
  intros H1 H2 Ha Hsize Hu. pose proof (migrated_ids _ _ _ H1 Ha Hsize Hu) as Hu1. apply run_migrate in H1; [|done..].
  destruct H1 as [H1 _ _ _].
  apply run_migrate in H2; [|done..]. destruct H2 as [H2 _ _ _].
  assert (Forall (λ y, ∀ z, moved y z → z = y) (docs (users w1))) as Hfix.
  { eapply Forall2_right; [exact H1|]. cbv beta. intros x y Hx. destruct (bool_decide_reflect (u_id x ∈ map u_id (List.filter has_secret (docs (users w))))) as [|Hn].
    - apply moved_fixed.
    - intros ->. intros z. unfold moved. destruct (u_mfaSecret x) as [v|] eqn:Hv; [|done].
      destruct Hn. apply list_elem_of_In, in_map, List.filter_In. split; [done|]. unfold has_secret. by rewrite Hv. }
  revert H2 Hfix. generalize (map u_id (List.filter has_secret (docs (users w1)))). generalize (docs (users w2)) (docs (users w1)). clear.
  intros l2 l1 ids. induction 1 as [|y z l1 l2 Hyz _ IH]; intros Hfix; [done|]. apply Forall_cons in Hfix as [Hy Hfix].
  f_equal; [|by apply IH]. case_bool_decide; auto.
Qed.

(** *** Rolling back *)
Definition restored (rows : list MfaBackupDoc) (d : UserDoc) : UserDoc :=
  foldl (λ d row, if bool_decide (u_id d = mb_userId row) then set_secret (Some (mb_secret row)) d else d) d rows.
Lemma alter_by_id (u : UserDoc → UserDoc) i l :
  unique_key u_id l → alter_first (λ d, bool_decide (u_id d = i)) u l = map (λ d, if bool_decide (u_id d = i) then u d else d) l.
Proof.
  induction l as [|x l IH]; [done|]. intros [Hl Hx]%unique_key_cons. cbn. destruct (bool_decide_reflect (u_id x = i)) as [<-|Hne].
  - f_equal. symmetry. rewrite <- (map_id l) at 2. apply map_ext_in. intros y Hy. rewrite bool_decide_false; [done|].
    intros Heq. by apply (Hx y Hy).
  - f_equal. by apply IH.
Qed.
Lemma write_by_id row w w' r :
  run (write_secret (λ d, bool_decide (u_id d = mb_userId row)) (mb_secret row)) w = (w', inr r) → unique_key u_id (docs (users w)) →
  docs (users w') = map (λ d, restored [row] d) (docs (users w)) ∧ unique_key u_id (docs (users w')).
Proof.
  intros (Hd & _)%run_write_secret Hu. rewrite Hd, alter_by_id by done. split; [done|]. unfold unique_key in *.
  rewrite map_map, (map_ext _ u_id); [done|]. intros x. by case_bool_decide.
Qed.
Lemma restored_cons row rows d : restored (row :: rows) d = restored rows (restored [row] d).
Proof. done. Qed.
Lemma run_deleted {A} (f : MfaBackupDoc → bool) (a : A) w w' r :
  run (delete_one f ;; mret a) w = (w', inr r) → users w' = users w ∧ r = a.
Proof.
  intros H. first_step H w1 u Hw1. apply run_store_op_ok in Hw1 as (fs & Hw1 & _). injection Hw1 as <- _. by injection H as <- <-.
Qed.
Lemma rollback_all_ok : ∀ rows n w w' r, run (rollback_all rows n) w = (w', inr r) → unique_key u_id (docs (users w)) →
  docs (users w') = map (restored rows) (docs (users w)).
Proof.
  induction rows as [|row rows IH]; intros n w w' r H Hu; cbn [rollback_all] in H.
  - injection H as <- _. by rewrite map_id.
  - first_step H w1 res Hw1. apply write_by_id in Hw1 as [Hd Hu1]; [|done]. first_step H w2 n2 Hw2.
    assert (users w2 = users w1) as Hus.
    { destruct (res.1); [by apply run_deleted in Hw2 as [-> _]|by injection Hw2 as <- _]. }
    rewrite (IH _ _ _ _ H), Hus, Hd, map_map by (by rewrite Hus). done.
Qed.
Lemma restore_all_ok : ∀ rows n w w' r, run (restore_all rows n) w = (w', inr r) → unique_key u_id (docs (users w)) →
  docs (users w') = map (restored rows) (docs (users w)).
Proof.
  induction rows as [|row rows IH]; intros n w w' r H Hu; cbn [restore_all] in H.
  - injection H as <- _. by rewrite map_id.
  - first_step H w1 res Hw1. apply write_by_id in Hw1 as [Hd Hu1]; [|done]. first_step H w2 n2 Hw2.
    assert (users w2 = users w1) as Hus.
    { destruct (_ || _); [by apply run_deleted in Hw2 as [-> _]|by injection Hw2 as <- _]. }
    rewrite (IH _ _ _ _ H), Hus, Hd, map_map by (by rewrite Hus). done.
Qed.
Lemma restored_hit rows d v : ∀ d', d' = set_secret v d → (∀ b, In b rows → mb_userId b = u_id d → u_mfaSecret d = Some (mb_secret b)) →
  v = u_mfaSecret d ∨ (∃ b, In b rows ∧ mb_userId b = u_id d) → restored rows d' = d.
Proof.
  assert (∀ d : UserDoc, set_secret (u_mfaSecret d) d = d) as Hsame by (by intros []).
  revert v. induction rows as [|row rows IH]; intros v d' -> Hall Hv.
  - destruct Hv as [->|(b & [] & _)]. apply Hsame.
  - rewrite restored_cons. unfold restored at 2. cbn [foldl]. change (u_id (set_secret v d)) with (u_id d).
    case_bool_decide as Hrow.
    + apply (IH (Some (mb_secret row))); [done|intros b Hb; apply Hall; by right|]. left. symmetry. apply Hall; [by left|done].
    + apply (IH v); [done|intros b Hb; apply Hall; by right|]. destruct Hv as [|(b & [->|Hb] & Hi)]; [by left|congruence|].
      right. by exists b.
Qed.
(** The rows a run left, put back on what it wrote. *)
Lemma restored_all l w w1 : migrated l w w1 → incl l (docs (users w)) → unique_key u_id (docs (users w)) → backups w = [] →
  map (restored (backups w1)) (docs (users w1)) = docs (users w).
Proof.
  intros [H2 Hbd Hnew _] Hincl Hu Hnone.
  assert (∀ d b, In d (docs (users w)) → In b (backups w1) → mb_userId b = u_id d → u_mfaSecret d = Some (mb_secret b)) as Hrow.
  { intros d b Hd Hb Hi. destruct (Hnew b Hb) as [(x & s & Hx & Hxi & Hv & _)|Hn]; [|by rewrite Hnone in Hn].
    assert (x = d) as ->; [|done]. apply (unique_key_eq u_id (docs (users w))); [done|by apply Hincl|done|congruence]. }
  assert (Forall2 (λ d d', restored (backups w1) d' = d) (docs (users w)) (docs (users w1))) as Hf.
  { eapply Forall2_In; [exact H2|]. cbv beta. intros d d' Hd Hr.
    assert (∀ d : UserDoc, d = set_secret (u_mfaSecret d) d) as Hsame by (by intros []).
    assert (d' = d → restored (backups w1) d' = d) as Hkeep.
    { intros ->. apply (restored_hit _ d (u_mfaSecret d)); [done| |by left]. intros b Hb. by apply Hrow. }
    destruct (bool_decide_reflect (u_id d ∈ map u_id l)) as [Hin|]; [|by apply Hkeep]. unfold moved in Hr.
    destruct (classify (u_mfaSecret d) key) as [|s| |] eqn:Hc; [by apply Hkeep| |by apply Hkeep..]. destruct Hr as [i ->].
    eapply restored_hit; [done|intros b Hb; by apply Hrow|]. right. destruct (u_mfaSecret d) as [v|] eqn:Hv; [|done].
    apply list_elem_of_In, in_map_iff in Hin as (x & Hx & Hxl).
    assert (x = d) as -> by (apply (unique_key_eq u_id (docs (users w))); [done|by apply Hincl|done|done]).
    destruct (Hbd d v s Hxl Hv Hc) as (b & Hb & Hi & _). by exists b. }
  clear -Hf. induction Hf as [|x y l k Hxy _ IH]; [done|]. cbn. by rewrite Hxy, IH.
Qed.
Lemma all_rows w w' rows : run (find_all (P := P) (λ _ : MfaBackupDoc, true)) w = (w', inr rows) → users w' = users w ∧ rows = backups w.
Proof.
  intros (fs & Hf & _)%run_store_op_ok. injection Hf as <- <-. split; [done|]. rewrite m_find_law.
  cbn [tbl mfaSecretsBackup_table]. change (mfaSecretsBackup (w <| faults := fs |>)) with (mfaSecretsBackup w).
  induction (docs (mfaSecretsBackup w)) as [|x l IH]; [done|]. cbn. by rewrite IH.
Qed.

(** C20: rolling back restores every secret.  After a complete migration that started
    without backups, a complete roll-back, by the flag of the migration or by its
    script, leaves every user exactly as it was before the migration. *)
Theorem rollback_restores (w w1 : world P) (c : Counters) (size : Z) :
  run (migrate_secrets fl key) w = (w1, inr c) → APPLY fl = true → 0 < BATCH_SIZE fl → unique_key u_id (docs (users w)) →
  backups w = [] → 0 < size →
  (∀ w2 n, run (runRollback size) w1 = (w2, inr n) → docs (users w2) = docs (users w)) ∧
  (∀ w2 n, run (run_restore size) w1 = (w2, inr n) → docs (users w2) = docs (users w)).
Proof.
  intros H Ha Hsize Hu Hnone Hn. pose proof (migrated_ids _ _ _ H Ha Hsize Hu) as Hu1. apply run_migrate in H; [|done..].
  assert (map (restored (backups w1)) (docs (users w1)) = docs (users w)) as Hall.
  { apply (restored_all _ _ _ H); [|done..]. by intros x [Hx _]%List.filter_In. }
  split; intros w2 n Hr; unfold runRollback, run_restore in Hr; first_step Hr w3 rows Hrows.
  all: apply all_rows in Hrows as [Hus ->]; first_step Hr w4 n' Hw4; rewrite run_bind, run_throw_if in Hr.
  all: destruct (another_batch _ _) eqn:Hmore; [done|]; injection Hr as <- _; rewrite (limited_all _ _ Hmore Hn) in Hw4.
  - rewrite (rollback_all_ok _ _ _ _ _ Hw4), Hus by (by rewrite Hus). done.
  - rewrite (restore_all_ok _ _ _ _ _ Hw4), Hus by (by rewrite Hus). done.
Qed.
End runs.
