(* ===== verification/ZeroKnowledge.v ===== *)
(** * Zero-knowledge proofs

    [packages/crypto/src/zk]: the SNARK and STARK provers and their common verifier, as
    they are written.  SHA3-256 and HKDF are parameters; byte strings are strings, and
    a date is its year and the index of its month.  The map of verification keys, which
    nothing reads, is kept. *)

From S2P Require Export World.
From S2P Require Import JsMap.
From Stdlib Require Import Ascii.

Section zero_knowledge.
Context {P : Platform} (sha3_256 : string → string) (hkdf : string → string → string → nat → string).

(** [Buffer.from([n])] and [Buffer.concat]. *)
Definition byte (n : Z) : string := String (ascii_of_nat (Z.to_nat (n mod 256))) "".
Definition concat (l : list string) : string := String.concat "" l.

Inductive ProofSystem := groth16 | plonk | bulletproofs | stark.
#[export] Instance ProofSystem_eq_dec : EqDecision ProofSystem.
Proof. solve_decision. Defined.
Definition system_name (s : ProofSystem) : string :=
  match s with groth16 => "groth16" | plonk => "plonk" | bulletproofs => "bulletproofs" | stark => "stark" end.
(** The key of either system. *)
Record ZKVerificationKey := mkZKVerificationKey { vk_key : string; vk_circuitId : string; vk_system : ProofSystem }.

(** ** [snark.ts] *)
Record ZKCircuit := mkZKCircuit { zc_id : string; zc_name : string; zc_publicInputs : nat; zc_privateInputs : nat; zc_constraints : Z }.
Record ZKProof := mkZKProof { zp_proof : string; zp_publicInputs : list string; zp_circuitId : string; zp_system : ProofSystem }.
Definition PEZHWAN_CIRCUITS : list (string * ZKCircuit) :=
  [("ageVerification", mkZKCircuit "age-verify-v1" "Age Verification (≥ 18)" 1 2 256);
   ("groupMembership", mkZKCircuit "group-member-v1" "Group Membership (Merkle proof)" 2 8 512);
   ("credentialProof", mkZKCircuit "credential-proof-v1" "Credential Possession" 1 2 128);
   ("countryOfResidence", mkZKCircuit "country-residence-v1" "Country of Residence" 1 3 192)]%string.

Record ZkSnarkProver := mkZkSnarkProver { sn_system : ProofSystem; sn_verificationKeys : list (string * ZKVerificationKey) }.
Definition createZkProver (system : option ProofSystem) : ZkSnarkProver := mkZkSnarkProver (nullish system groth16) [].
Definition compileCircuit (p : ZkSnarkProver) (circuit : ZKCircuit) : prog (world P) (ZkSnarkProver * ZKVerificationKey) :=
  key ← draw (λ i, randomBytes i 256);
  let vk := mkZKVerificationKey key (zc_id circuit) (sn_system p) in
  mret (mkZkSnarkProver (sn_system p) (map_set (zc_id circuit) vk (sn_verificationKeys p)), vk).
Definition generateProof (p : ZkSnarkProver) (circuit : ZKCircuit) (publicInputs privateWitness : list string) : prog (world P) string :=
  blinding ← draw (λ i, randomBytes i 32);
  let hash := sha3_256 (concat ([zc_id circuit] ++ publicInputs ++ privateWitness ++ [blinding])) in
  salt ← draw (λ i, randomBytes i 32);
  mret (hkdf hash salt ("zkp-" +:+ zc_id circuit +:+ "-" +:+ system_name (sn_system p)) 512).
Definition wrong_count (circuit : ZKCircuit) (expected : nat) (kind : string) (got : nat) : exn :=
  JsError ("Circuit " +:+ zc_id circuit +:+ " expects " +:+ js_String (Z.of_nat expected) +:+ " " +:+ kind +:+ " inputs, got " +:+
           js_String (Z.of_nat got)).
Definition prove (p : ZkSnarkProver) (circuit : ZKCircuit) (publicInputs privateWitness : list string) : prog (world P) ZKProof :=
  throw_if (negb (length publicInputs =? zc_publicInputs circuit)%nat)
    (wrong_count circuit (zc_publicInputs circuit) "public" (length publicInputs)) ;;
  throw_if (negb (length privateWitness =? zc_privateInputs circuit)%nat)
    (wrong_count circuit (zc_privateInputs circuit) "private" (length privateWitness)) ;;
  proof ← generateProof p circuit publicInputs privateWitness;
  mret (mkZKProof proof publicInputs (zc_id circuit) (sn_system p)).
(** [hash.some((b) => b !== 0)]. *)
Fixpoint some_nonzero (s : string) : bool :=
  match s with EmptyString => false | String c s => negb (Ascii.eqb c Ascii.zero) || some_nonzero s end.
Definition verifyProof (proof : ZKProof) (vk : ZKVerificationKey) : bool :=
  if String.eqb (zp_proof proof) "" then false
  else if bool_decide (zp_publicInputs proof = []) then false
  else some_nonzero (sha3_256 (concat ([vk_key vk] ++ zp_publicInputs proof ++ [zp_proof proof]))).
Definition snark_verify (proof : ZKProof) (vk : ZKVerificationKey) : bool :=
  if negb (String.eqb (zp_circuitId proof) (vk_circuitId vk)) then false
  else if negb (bool_decide (zp_system proof = vk_system vk)) then false
  else verifyProof proof vk.
Definition getCircuit (name : string) : prog (world P) ZKCircuit :=
  match map_get name PEZHWAN_CIRCUITS with
  | Some c => mret c
  | None => Throw (JsError ("Unknown circuit: " +:+ name))
  end.
Definition proveAge (p : ZkSnarkProver) (birthdateYear birthdateMonth : Z) (year monthIndex : Z) : prog (world P) ZKProof :=
  circuit ← getCircuit "ageVerification";
  prove p circuit [byte year +:+ byte (monthIndex + 1)] [byte birthdateYear; byte birthdateMonth].
Definition proveGroupMembership (p : ZkSnarkProver) (merkleRoot groupId leaf : string) (merklePath : list string) :
    prog (world P) ZKProof :=
  circuit ← getCircuit "groupMembership";
  prove p circuit [merkleRoot; groupId] (leaf :: merklePath).

(** ** [stark.ts] *)
Record StarkCircuit := mkStarkCircuit { sc_id : string; sc_name : string; sc_traceLength : nat; sc_blowupFactor : Z; sc_friCommitments : nat }.
Record StarkProof := mkStarkProof {
  sp_proof : string; sp_traceCommitment : string; sp_friCommitments : list string; sp_circuitId : string }.
Definition auditLogIntegrity : StarkCircuit := mkStarkCircuit "audit-log-integrity-v1" "Audit Log Integrity Verification" 4096 8 12.
Definition PEZHWAN_STARK_CIRCUITS : list (string * StarkCircuit) :=
  [("auditLogIntegrity", auditLogIntegrity);
   ("bulkCredentialVerification", mkStarkCircuit "bulk-credential-v1" "Bulk Credential Verification" 8192 16 16);
   ("crossTenantCompliance", mkStarkCircuit "cross-tenant-compliance-v1" "Cross-Tenant Compliance Proof" 2048 8 10)]%string.
Definition compile_stark (keys : list (string * ZKVerificationKey)) (circuit : StarkCircuit) :
    prog (world P) (list (string * ZKVerificationKey) * ZKVerificationKey) :=
  key ← draw (λ i, randomBytes i 192);
  let vk := mkZKVerificationKey key (sc_id circuit) stark in
  mret (map_set (sc_id circuit) vk keys, vk).
Definition commitTrace (trace : list string) : string := sha3_256 (concat trace).
Fixpoint fri_commit (i : Z) (n : nat) (current : string) : list string :=
  match n with
  | O => []
  | S n => let next := sha3_256 (current +:+ byte i) in next :: fri_commit (i + 1) n next
  end.
Definition friCommit (numCommitments : nat) (initialCommitment : string) : list string :=
  fri_commit 0 numCommitments initialCommitment.
Definition generateStarkProof (circuit : StarkCircuit) (traceCommitment : string) (friCommitments publicInputs : list string) :
    prog (world P) string :=
  let hash := sha3_256 (concat ([traceCommitment] ++ friCommitments ++ publicInputs ++ [sc_id circuit])) in
  salt ← draw (λ i, randomBytes i 32);
  mret (hkdf hash salt "stark-proof" 1024).
Definition stark_prove (circuit : StarkCircuit) (trace publicInputs : list string) : prog (world P) StarkProof :=
  throw_if (bool_decide (trace = [])) (JsError "Trace must be non-empty") ;;
  let traceCommitment := commitTrace trace in
  let friCommitments := friCommit (sc_friCommitments circuit) traceCommitment in
  proof ← generateStarkProof circuit traceCommitment friCommitments publicInputs;
  mret (mkStarkProof proof traceCommitment friCommitments (sc_id circuit)).
Fixpoint verify_fri (current : string) (commitments : list string) : bool :=
  match commitments with
  | [] => true
  | c :: rest => if String.eqb (sha3_256 (current +:+ c)) c then verify_fri c rest else false
  end.
Definition verifyStarkProof (proof : StarkProof) (vk : ZKVerificationKey) (publicInputs : list string) : bool :=
  verify_fri (sp_traceCommitment proof) (sp_friCommitments proof).
Definition stark_verify (proof : StarkProof) (vk : ZKVerificationKey) (publicInputs : list string) : bool :=
  if negb (String.eqb (sp_circuitId proof) (vk_circuitId vk)) then false
  else if String.eqb (sp_traceCommitment proof) "" then false
  else if bool_decide (sp_friCommitments proof = []) then false
  else verifyStarkProof proof vk publicInputs.
Definition proveAuditLogIntegrity (logEntries : list string) (merkleRoot : string) : prog (world P) StarkProof :=
  stark_prove auditLogIntegrity (take (sc_traceLength auditLogIntegrity) logEntries) [merkleRoot].

(** ** [verifier.ts] *)
Inductive AnyProof := Snark (p : ZKProof) | Stark (p : StarkProof).
Record VerificationResult := mkVerificationResult {
  vr_valid : bool; vr_circuitId : string; vr_system : string; vr_verificationTimeMs : Z }.
Definition proof_circuit (p : AnyProof) : string := match p with Snark p => zp_circuitId p | Stark p => sp_circuitId p end.
Definition proof_system (p : AnyProof) : string := match p with Snark p => system_name (zp_system p) | Stark _ => "stark" end.
(** A SNARK that names the system [stark] is handed to the other verifier, where it has
    no commitment to read: the exception is caught there. *)
Definition any_valid (p : AnyProof) (vk : ZKVerificationKey) : bool :=
  match p with
  | Stark p => stark_verify p vk []
  | Snark p => if bool_decide (zp_system p = stark) then false else snark_verify p vk
  end.
Definition verify_any (p : AnyProof) (vk : ZKVerificationKey) : prog (world P) VerificationResult :=
  start ← now;
  t ← now;
  mret (mkVerificationResult (any_valid p vk) (proof_circuit p) (proof_system p) (t - start)).
Fixpoint verifyBatch (l : list (AnyProof * ZKVerificationKey)) : prog (world P) (list VerificationResult) :=
  match l with
  | [] => mret []
  | (p, vk) :: l => r ← verify_any p vk; rs ← verifyBatch l; mret (r :: rs)
  end.

(** ** What a verified proof says *)
Lemma run_generateProof p c inputs witness (w : world P) :
  (∀ h s i n, String.length (hkdf h s i n) = n) →
  ∃ w' b, run (generateProof p c inputs witness) w = (w', inr b) ∧ b ≠ "".
Proof.
  intros Hk. unfold generateProof. rewrite !run_bind, run_draw, run_bind, run_draw, run_ret. do 2 eexists. split; [reflexivity|].
  intros He. specialize (Hk (sha3_256 (concat ([zc_id c] ++ inputs ++ witness ++ [randomBytes (draws w) 32])))
    (randomBytes (S (draws w)) 32) ("zkp-" +:+ zc_id c +:+ "-" +:+ system_name (sn_system p)) 512%nat).
  change (draws (w <| draws ::= S |>)) with (S (draws w)) in He. rewrite He in Hk. done.
Qed.

(** A verified SNARK says nothing about its statement.  Verification looks at the
    circuit, the system and whether there is a proof and an input at all, and then asks
    of any bytes for any public inputs only that a hash of the lot is not all zeros;
    and [proveAge] gives proofs that verify as well as any for every date of birth, one
    in the future included. *)
Theorem snark_proves_nothing vk bytes (inputs : list string) p birthYear birthMonth year month (w : world P) :
  (∀ h s i n, String.length (hkdf h s i n) = n) → bytes ≠ "" → inputs ≠ [] →
  snark_verify (mkZKProof bytes inputs (vk_circuitId vk) (vk_system vk)) vk =
    some_nonzero (sha3_256 (concat ([vk_key vk] ++ inputs ++ [bytes]))) ∧
  ∃ w' proof, run (proveAge p birthYear birthMonth year month) w = (w', inr proof) ∧
    ∀ key, snark_verify proof (mkZKVerificationKey key "age-verify-v1" (sn_system p)) =
      some_nonzero (sha3_256 (concat ([key] ++ zp_publicInputs proof ++ [zp_proof proof]))).
Proof.
  intros Hk Hb Hi. assert (∀ b i c s k, b ≠ "" → i ≠ [] → snark_verify (mkZKProof b i c s) (mkZKVerificationKey k c s) =
    some_nonzero (sha3_256 (concat ([k] ++ i ++ [b])))) as Hv.
  { intros b i c s k Hb' Hi'. unfold snark_verify, verifyProof. cbn. rewrite String.eqb_refl, bool_decide_true by done. cbn [negb].
    by rewrite (proj2 (String.eqb_neq _ _)), bool_decide_false. }
  split; [destruct vk; by apply Hv|]. unfold proveAge, getCircuit, prove.
  change (map_get "ageVerification" PEZHWAN_CIRCUITS) with (Some (mkZKCircuit "age-verify-v1" "Age Verification (≥ 18)" 1 2 256)).
  rewrite run_bind, run_ret, !run_bind, run_throw_if. cbn [length zc_publicInputs zc_privateInputs Nat.eqb negb].
  rewrite run_bind, run_throw_if, run_bind. match goal with |- context [run (generateProof p ?c ?i ?v) w] => destruct (run_generateProof p c i v w Hk) as (w' & b & Hr & Hne) end.
  rewrite Hr. do 2 eexists. split; [reflexivity|]. intros key. by apply Hv.
Qed.

(** The statement behind a STARK that is accepted. *)
Lemma stark_verify_iff proof vk inputs :
  stark_verify proof vk inputs = true ↔
  sp_circuitId proof = vk_circuitId vk ∧ sp_traceCommitment proof ≠ "" ∧ sp_friCommitments proof ≠ [] ∧
  verify_fri (sp_traceCommitment proof) (sp_friCommitments proof) = true.
Proof.
  unfold stark_verify, verifyStarkProof. destruct (String.eqb_spec (sp_circuitId proof) (vk_circuitId vk)) as [Hc|Hc]; cbn [negb];
    [|split; [done|by intros [? _]]].
  destruct (String.eqb_spec (sp_traceCommitment proof) "") as [Ht|Ht]; [split; [done|by intros (_ & ? & _)]|].
  case_bool_decide as Hf; split; [done|by intros (_ & _ & ? & _)|by repeat split|by intros (_ & _ & _ & ?)].
Qed.

(** No honest STARK is accepted.  The verifier expects of each commitment that it is
    its own hash after the one before; the prover makes commitments of another form, so
    a proof that [prove] made is refused unless its first commitment is a fixed point of
    the hash, and nothing else of the proof, of the key or of the public inputs is
    looked at. *)
Theorem honest_stark_refused circuit trace inputs (w w' : world P) proof vk vk_inputs :
  run (stark_prove circuit trace inputs) w = (w', inr proof) → stark_verify proof vk vk_inputs = true →
  let first := sha3_256 (sha3_256 (concat trace) +:+ byte 0) in
  sha3_256 (sha3_256 (concat trace) +:+ first) = first.
Proof.
  intros Hr Hv first. unfold stark_prove in Hr. rewrite run_bind, run_throw_if in Hr. case_bool_decide; [done|].
  unfold generateStarkProof in Hr. rewrite !run_bind, run_draw in Hr. injection Hr as _ <-.
  apply stark_verify_iff in Hv as (_ & _ & Hne & Hf). cbn [sp_traceCommitment sp_friCommitments] in *. unfold friCommit in *.
  destruct (sc_friCommitments circuit) as [|n]; [done|]. cbn [fri_commit verify_fri] in Hf.
  destruct (String.eqb_spec (sha3_256 (commitTrace trace +:+ sha3_256 (commitTrace trace +:+ byte 0)))
    (sha3_256 (commitTrace trace +:+ byte 0))) as [He|He]; [exact He|done].
Qed.
(** An audit log is committed to as the text of its first entries. *)
Lemma audit_commitment_reads_text log log' root root' (w w' v v' : world P) p p' :
  concat (take 4096 log) = concat (take 4096 log') →
  run (proveAuditLogIntegrity log root) w = (w', inr p) → run (proveAuditLogIntegrity log' root') v = (v', inr p') →
  sp_traceCommitment p = sp_traceCommitment p' ∧ sp_friCommitments p = sp_friCommitments p'.
Proof.
  intros Hc Hp Hp'. unfold proveAuditLogIntegrity, stark_prove in Hp, Hp'. rewrite run_bind, run_throw_if in Hp, Hp'.
  case_bool_decide; [done|]. case_bool_decide; [done|]. unfold generateStarkProof in Hp, Hp'. rewrite !run_bind, run_draw in Hp, Hp'.
  injection Hp as _ <-. injection Hp' as _ <-. cbn [sp_traceCommitment sp_friCommitments]. unfold commitTrace.
  change (sc_traceLength auditLogIntegrity) with 4096%nat. by rewrite Hc.
Qed.
End zero_knowledge.
