(* ===== verification/PostQuantum.v ===== *)
(** * Post-quantum and hybrid cryptography

    [packages/crypto/src/pq]: the wrappers of ML-KEM, ML-DSA, Falcon and SLH-DSA around
    a library that is a parameter, and the hybrid scheme that joins one of them to a
    classical algorithm, a parameter too.  The three signers share their code but for
    the sizes, the label of their errors and the rule for the length of a signature; a
    call that has the library draw its own randomness is given the number of a draw. *)

From S2P Require Export World.

(** ** The primitives *)
Record SignatureScheme := mkSignatureScheme {
  ps_keygen : option string → nat → string * string;
  ps_sign : string → string → string → exn + string;
  ps_verify : string → string → string → exn + bool }.
Record Kem := mkKem {
  pk_keygen : option string → nat → string * string;
  pk_encapsulate : string → option string → nat → exn + (string * string);
  pk_decapsulate : string → string → exn + string }.
(** What FIPS 203 and the signature standards promise of key pairs. *)
Definition kem_correct (k : Kem) : Prop := ∀ seed i rand j ct ss,
  pk_encapsulate k (pk_keygen k seed i).1 rand j = inr (ct, ss) → pk_decapsulate k ct (pk_keygen k seed i).2 = inr ss.
Definition signatures_correct (s : SignatureScheme) : Prop := ∀ seed i message entropy sig,
  ps_sign s message (ps_keygen s seed i).2 entropy = inr sig → ps_verify s sig message (ps_keygen s seed i).1 = inr true.

(** ** The signers *)
(** [b.length]. *)
Definition blen (s : string) : Z := Z.of_nat (String.length s).
Record SignerParams := mkSignerParams { publicKeyBytes : Z; privateKeyBytes : Z; signatureBytes : Z; securityLevel : Z }.
(** Bytes with the algorithm they are for. *)
Record Tagged (A : Type) := mkTagged { raw : string; algorithm : A }.
Arguments mkTagged {A}.
Arguments raw {A}.
Arguments algorithm {A}.
Record KeyPair (A : Type) := mkKeyPair { publicKey : Tagged A; privateKey : Tagged A }.
Arguments mkKeyPair {A}.
Arguments publicKey {A}.
Arguments privateKey {A}.

Section signer.
Context {P : Platform} {A : Type} `{!EqDecision A} (label : string) (name : A → string) (params : A → SignerParams)
  (long_enough : SignerParams → Z → bool) (hedged : bool) (noble : A → SignatureScheme) (alg : A).
Definition generateKeyPair (seed : option string) : prog (world P) (KeyPair A) :=
  k ← draw (ps_keygen (noble alg) seed);
  mret (mkKeyPair (mkTagged k.1 alg) (mkTagged k.2 alg)).
Definition key_mismatch (a : A) : exn :=
  JsError (label +:+ " key algorithm '" +:+ name a +:+ "' does not match signer algorithm '" +:+ name alg +:+ "'").
Definition key_wrong_size (n : Z) : exn :=
  JsError ("Expected secret key length " +:+ js_String (privateKeyBytes (params alg)) +:+ ", got " +:+ js_String n).
Definition sign (message : string) (privateKey : Tagged A) : prog (world P) (Tagged A) :=
  throw_if (negb (bool_decide (algorithm privateKey = alg))) (key_mismatch (algorithm privateKey)) ;;
  throw_if (negb (blen (raw privateKey) =? privateKeyBytes (params alg))) (key_wrong_size (blen (raw privateKey))) ;;
  entropy ← draw (λ i, if hedged then randomBytes i 32 else "");
  sig ← from_result (ps_sign (noble alg) message (raw privateKey) entropy);
  mret (mkTagged sig alg).
(** It never throws. *)
Definition verify (message : string) (signature publicKey : Tagged A) : bool :=
  if negb (bool_decide (algorithm signature = alg)) || negb (bool_decide (algorithm publicKey = alg)) then false
  else if negb (long_enough (params alg) (blen (raw signature))) ||
          negb (blen (raw publicKey) =? publicKeyBytes (params alg)) then false
  else match ps_verify (noble alg) (raw signature) message (raw publicKey) with inr b => b | inl _ => false end.

(** A signature of a generated key verifies, when the library's keys and signatures
    have the sizes of the table. *)
Lemma run_sign_verify message seed i (w w' : world P) sig :
  signatures_correct (noble alg) →
  let k := ps_keygen (noble alg) seed i in
  blen k.1 = publicKeyBytes (params alg) → long_enough (params alg) (blen (raw sig)) = true →
  run (sign message (mkTagged k.2 alg)) w = (w', inr sig) → verify message sig (mkTagged k.1 alg) = true.
Proof.
  intros Hc k Hpub Hlen Hr. unfold sign in Hr. cbn [algorithm raw] in Hr. rewrite run_bind, run_throw_if in Hr.
  rewrite bool_decide_true in Hr by done. cbn [negb] in Hr. rewrite run_bind, run_throw_if in Hr.
  destruct (_ =? _); [|done]. cbn [negb] in Hr. rewrite run_bind, run_draw, run_bind, run_from_result in Hr.
  destruct (ps_sign _ _ _ _) as [e|s] eqn:Hs; [done|]. rewrite run_ret in Hr. injection Hr as _ <-.
  unfold verify. cbn [algorithm raw] in *. rewrite !bool_decide_true by done. cbn [negb orb]. rewrite Hlen, Hpub, Z.eqb_refl. cbn [negb orb].
  unfold k. by rewrite (Hc _ _ _ _ _ Hs).
Qed.
End signer.
Definition exact_length (p : SignerParams) (n : Z) : bool := n =? signatureBytes p.

(** *** ML-DSA *)
Inductive DilithiumAlgorithm := Dilithium2 | Dilithium3 | Dilithium5.
#[export] Instance DilithiumAlgorithm_eq_dec : EqDecision DilithiumAlgorithm.
Proof. solve_decision. Defined.
Definition dilithium_name (a : DilithiumAlgorithm) : string :=
  match a with Dilithium2 => "Dilithium2" | Dilithium3 => "Dilithium3" | Dilithium5 => "Dilithium5" end.
Definition DILITHIUM_PARAMS (a : DilithiumAlgorithm) : SignerParams :=
  match a with
  | Dilithium2 => mkSignerParams 1312 2560 2420 2
  | Dilithium3 => mkSignerParams 1952 4032 3309 3
  | Dilithium5 => mkSignerParams 2592 4896 4627 5
  end.
Definition dilithium_sign {P : Platform} := @sign P _ _ "ML-DSA" dilithium_name DILITHIUM_PARAMS true.
Definition dilithium_verify := @verify DilithiumAlgorithm _ DILITHIUM_PARAMS exact_length.

(** *** Falcon *)
Inductive FalconAlgorithm := Falcon_512 | Falcon_1024.
#[export] Instance FalconAlgorithm_eq_dec : EqDecision FalconAlgorithm.
Proof. solve_decision. Defined.
Definition falcon_name (a : FalconAlgorithm) : string := match a with Falcon_512 => "Falcon-512" | Falcon_1024 => "Falcon-1024" end.
Definition FALCON_PARAMS (a : FalconAlgorithm) : SignerParams :=
  match a with Falcon_512 => mkSignerParams 897 1281 666 1 | Falcon_1024 => mkSignerParams 1793 2305 1280 5 end.
Definition falcon_length (p : SignerParams) (n : Z) : bool := (n <=? signatureBytes p) && (20 <=? n).
Definition falcon_sign {P : Platform} := @sign P _ _ "Falcon" falcon_name FALCON_PARAMS false.
Definition falcon_verify := @verify FalconAlgorithm _ FALCON_PARAMS falcon_length.

(** *** SLH-DSA *)
Inductive SphincsAlgorithm := SLH_128f | SLH_192f | SLH_256f.
#[export] Instance SphincsAlgorithm_eq_dec : EqDecision SphincsAlgorithm.
Proof. solve_decision. Defined.
Definition sphincs_name (a : SphincsAlgorithm) : string :=
  match a with SLH_128f => "SLH-DSA-SHA2-128f" | SLH_192f => "SLH-DSA-SHA2-192f" | SLH_256f => "SLH-DSA-SHA2-256f" end.
Definition SPHINCS_PARAMS (a : SphincsAlgorithm) : SignerParams :=
  match a with
  | SLH_128f => mkSignerParams 32 64 17088 128
  | SLH_192f => mkSignerParams 48 96 35664 192
  | SLH_256f => mkSignerParams 32 64 49856 256
  end.
Definition sphincs_sign {P : Platform} := @sign P _ _ "SLH-DSA" sphincs_name SPHINCS_PARAMS false.
Definition sphincs_verify := @verify SphincsAlgorithm _ SPHINCS_PARAMS exact_length.

(** The strongest hash-based signer does not work: the table gives the keys of
    [SLH-DSA-SHA2-256f] the sizes of the 128-bit set, so with a library whose keys have
    the sizes of FIPS 205, 64 and 128 bytes, no message is ever signed with a generated
    key, and no signature verifies under one. *)
Theorem sphincs_256f_never_signs {P : Platform} noble message seed i (w : world P) signature :
  blen (ps_keygen (noble SLH_256f) seed i).1 = 64 → blen (ps_keygen (noble SLH_256f) seed i).2 = 128 →
  let k := ps_keygen (noble SLH_256f) seed i in
  run (sphincs_sign noble SLH_256f message (mkTagged k.2 SLH_256f)) w =
    (w, inl (JsError "Expected secret key length 64, got 128")) ∧
  sphincs_verify noble SLH_256f message signature (mkTagged k.1 SLH_256f) = false.
Proof.
  intros Hpub Hsec k. split.
  - unfold sphincs_sign, sign. cbn [algorithm raw]. rewrite run_bind, run_throw_if, bool_decide_true by done. cbn [negb].
    rewrite run_bind, run_throw_if. unfold k. rewrite Hsec. reflexivity.
  - unfold sphincs_verify, verify. cbn [algorithm raw]. unfold k. rewrite Hpub.
    destruct (negb (bool_decide (algorithm signature = SLH_256f)) || _); [done|]. cbn [SPHINCS_PARAMS publicKeyBytes Z.eqb Pos.eqb negb].
    by rewrite orb_true_r.
Qed.

(** ** ML-KEM *)
Inductive KyberAlgorithm := Kyber_512 | Kyber_768 | Kyber_1024.
#[export] Instance KyberAlgorithm_eq_dec : EqDecision KyberAlgorithm.
Proof. solve_decision. Defined.
Definition kyber_name (a : KyberAlgorithm) : string :=
  match a with Kyber_512 => "Kyber-512" | Kyber_768 => "Kyber-768" | Kyber_1024 => "Kyber-1024" end.
Record KyberParams := mkKyberParams { ky_publicKeyBytes : Z; ky_privateKeyBytes : Z; ky_ciphertextBytes : Z; ky_sharedSecretBytes : Z; ky_securityLevel : Z }.
Definition KYBER_PARAMS (a : KyberAlgorithm) : KyberParams :=
  match a with
  | Kyber_512 => mkKyberParams 800 1632 768 32 1
  | Kyber_768 => mkKyberParams 1184 2400 1088 32 3
  | Kyber_1024 => mkKyberParams 1568 3168 1568 32 5
  end.

Record KemPair := mkKemPair { kp_publicKey : Tagged KyberAlgorithm; kp_privateKey : Tagged KyberAlgorithm }.
Record Encapsulation := mkEncapsulation { ec_ciphertext : Tagged KyberAlgorithm; ec_sharedSecret : string }.
Definition zeros (n : Z) : string := string_of_list (replicate (Z.to_nat n) Ascii.zero).

Section kyber.
Context {P : Platform} (noble : KyberAlgorithm → Kem) (alg : KyberAlgorithm).
Definition kyber_keygen (seed : option string) : prog (world P) KemPair :=
  k ← draw (pk_keygen (noble alg) seed);
  mret (mkKemPair (mkTagged k.1 alg) (mkTagged k.2 alg)).
Definition kem_mismatch (what : string) (a : KyberAlgorithm) : exn :=
  JsError ("ML-KEM " +:+ what +:+ " algorithm '" +:+ kyber_name a +:+ "' does not match KEM algorithm '" +:+ kyber_name alg +:+ "'").
Definition public_wrong_size (n : Z) : exn :=
  JsError ("Expected public key length " +:+ js_String (ky_publicKeyBytes (KYBER_PARAMS alg)) +:+ ", got " +:+ js_String n).
Definition encapsulate (publicKey : Tagged KyberAlgorithm) (msgRand : option string) : prog (world P) Encapsulation :=
  throw_if (negb (bool_decide (algorithm publicKey = alg))) (kem_mismatch "public key" (algorithm publicKey)) ;;
  throw_if (negb (blen (raw publicKey) =? ky_publicKeyBytes (KYBER_PARAMS alg))) (public_wrong_size (blen (raw publicKey))) ;;
  let rand := match msgRand with Some r => if blen r =? 32 then Some r else None | None => None end in
  r ← draw (pk_encapsulate (noble alg) (raw publicKey) rand);
  r ← from_result r;
  mret (mkEncapsulation (mkTagged r.1 alg) r.2).
Definition legs_wrong_size (ct sk : Z) : exn :=
  JsError ("Expected ct/sk lengths " +:+ js_String (ky_ciphertextBytes (KYBER_PARAMS alg)) +:+ "/" +:+
    js_String (ky_privateKeyBytes (KYBER_PARAMS alg)) +:+ ", got " +:+ js_String ct +:+ "/" +:+ js_String sk).
Definition decapsulate (ciphertext privateKey : Tagged KyberAlgorithm) : exn + string :=
  if negb (bool_decide (algorithm ciphertext = alg)) then inl (kem_mismatch "ciphertext" (algorithm ciphertext))
  else if negb (blen (raw ciphertext) =? ky_ciphertextBytes (KYBER_PARAMS alg)) ||
          negb (blen (raw privateKey) =? ky_privateKeyBytes (KYBER_PARAMS alg))
       then inl (legs_wrong_size (blen (raw ciphertext)) (blen (raw privateKey)))
  else match pk_decapsulate (noble alg) (raw ciphertext) (raw privateKey) with
       | inr ss => inr ss
       | inl _ => inr (zeros (ky_sharedSecretBytes (KYBER_PARAMS alg)))
       end.
End kyber.

(** ** Hybrids *)
Inductive HybridMode := x25519_kyber768 | x25519_kyber1024 | rsa_dilithium3 | ecdsa_dilithium3.
#[export] Instance HybridMode_eq_dec : EqDecision HybridMode.
Proof. solve_decision. Defined.
(** The classical algorithms: X25519, and the signatures of the key a PEM text holds. *)
Record Classical := mkClassical {
  x25519_keygen : nat → string * string;
  x25519_shared : string → string → exn + string;
  pem_keygen : HybridMode → nat → string * string;
  node_sign : string → string → nat → exn + string;
  node_verify : string → string → string → exn + bool }.
Definition agreement (c : Classical) : Prop := ∀ i j,
  x25519_shared c (x25519_keygen c i).2 (x25519_keygen c j).1 = x25519_shared c (x25519_keygen c j).2 (x25519_keygen c i).1.
Definition classical_correct (c : Classical) : Prop := ∀ m i j message sig,
  node_sign c message (pem_keygen c m i).2 j = inr sig → node_verify c message (pem_keygen c m i).1 sig = inr true.
Record HybridKeyPair := mkHybridKeyPair {
  hk_mode : HybridMode; hk_classicalPublicKey : string; hk_classicalPrivateKey : string; hk_pqPublicKey : string; hk_pqPrivateKey : string }.
Record HybridEncapsulation := mkHybridEncapsulation { he_classical : string; he_postQuantum : string; he_sharedSecret : string }.
Record HybridSignature := mkHybridSignature { hs_classical : string; hs_postQuantum : string; hs_mode : HybridMode }.

Section hybrid.
Context {P : Platform} (cl : Classical) (kems : KyberAlgorithm → Kem) (signers : DilithiumAlgorithm → SignatureScheme)
  (hkdf : string → string → string → nat → string) (mode : HybridMode).
Definition isKem : bool := match mode with x25519_kyber768 | x25519_kyber1024 => true | _ => false end.
Definition kem_alg : KyberAlgorithm := match mode with x25519_kyber1024 => Kyber_1024 | _ => Kyber_768 end.
Definition hybrid_keygen : prog (world P) HybridKeyPair :=
  if isKem then
    c ← draw (x25519_keygen cl);
    k ← kyber_keygen kems kem_alg None;
    mret (mkHybridKeyPair mode c.1 c.2 (raw (kp_publicKey k)) (raw (kp_privateKey k)))
  else
    c ← draw (pem_keygen cl mode);
    k ← generateKeyPair signers Dilithium3 None;
    mret (mkHybridKeyPair mode c.1 c.2 (raw (publicKey k)) (raw (privateKey k))).
Definition deriveHybridSecret (ecdSecret kemSecret : string) : string :=
  hkdf (ecdSecret +:+ kemSecret) (zeros 32) "pezhwan-hybrid-x25519-mlkem-v1" 32.
Definition needs_kem (op : string) : exn := JsError ("HybridCrypto." +:+ op +:+ " requires an x25519+kyber mode").
Definition hybrid_encapsulate (k : HybridKeyPair) : prog (world P) HybridEncapsulation :=
  throw_if (negb isKem) (needs_kem "encapsulate") ;;
  eph ← draw (x25519_keygen cl);
  ecdhSecret ← from_result (x25519_shared cl eph.2 (hk_classicalPublicKey k));
  rand ← draw (λ i, randomBytes i 32);
  e ← encapsulate kems kem_alg (mkTagged (hk_pqPublicKey k) kem_alg) (Some rand);
  mret (mkHybridEncapsulation eph.1 (raw (ec_ciphertext e)) (deriveHybridSecret ecdhSecret (ec_sharedSecret e))).
Definition hybrid_decapsulate (e : HybridEncapsulation) (k : HybridKeyPair) : exn + string :=
  if negb isKem then inl (needs_kem "decapsulate")
  else match x25519_shared cl (hk_classicalPrivateKey k) (he_classical e) with
       | inl x => inl x
       | inr ecdhSecret =>
         match decapsulate kems kem_alg (mkTagged (he_postQuantum e) kem_alg) (mkTagged (hk_pqPrivateKey k) kem_alg) with
         | inl x => inl x
         | inr kemSecret => inr (deriveHybridSecret ecdhSecret kemSecret)
         end
       end.
Definition needs_signature : exn := JsError "HybridCrypto.sign requires a signature mode (rsa/ecdsa+dilithium3)".
Definition hybrid_sign (message : string) (k : HybridKeyPair) : prog (world P) HybridSignature :=
  throw_if isKem needs_signature ;;
  c ← draw (node_sign cl message (hk_classicalPrivateKey k));
  classicalSig ← from_result c;
  pqSig ← dilithium_sign signers Dilithium3 message (mkTagged (hk_pqPrivateKey k) Dilithium3);
  mret (mkHybridSignature classicalSig (raw pqSig) mode).
Definition hybrid_verify (message : string) (signature : HybridSignature) (k : HybridKeyPair) : bool :=
  if isKem then false
  else
    let classicalValid := match node_verify cl message (hk_classicalPublicKey k) (hs_classical signature) with inr b => b | inl _ => false end in
    let pqValid := dilithium_verify signers Dilithium3 message (mkTagged (hs_postQuantum signature) Dilithium3)
                     (mkTagged (hk_pqPublicKey k) Dilithium3) in
    classicalValid && pqValid.

(** ** Both legs *)
(** A hybrid signature verifies exactly when both of its legs do, under the keys of the
    right lengths; in a key-exchange mode none does. *)
Lemma hybrid_verify_iff message signature k :
  hybrid_verify message signature k = true ↔
  isKem = false ∧ node_verify cl message (hk_classicalPublicKey k) (hs_classical signature) = inr true ∧
  blen (hs_postQuantum signature) = 3309 ∧ blen (hk_pqPublicKey k) = 1952 ∧
  ps_verify (signers Dilithium3) (hs_postQuantum signature) message (hk_pqPublicKey k) = inr true.
Proof.
  clear hkdf. unfold hybrid_verify. destruct isKem; [naive_solver|]. rewrite andb_true_iff. unfold dilithium_verify, verify. cbn [algorithm raw].
  rewrite !bool_decide_true by done. cbn [negb orb]. unfold exact_length. cbn [DILITHIUM_PARAMS signatureBytes publicKeyBytes].
  destruct (Z.eqb_spec (blen (hs_postQuantum signature)) 3309), (Z.eqb_spec (blen (hk_pqPublicKey k)) 1952);
    destruct (node_verify _ _ _ _) as [|[]], (ps_verify _ _ _ _) as [|[]]; cbn; naive_solver.
Qed.

(** C17: The two ends of a hybrid key exchange agree.  With a key-encapsulation library
    and a Diffie-Hellman function that do what their standards say, what [encapsulate]
    returns for a generated key pair, [decapsulate] recovers with the pair, in either
    mode. *)
Theorem hybrid_secrets_agree (w w1 w2 w3 : world P) k e :
  kem_correct (kems kem_alg) → agreement cl →
  (∀ seed i, blen (pk_keygen (kems kem_alg) seed i).2 = ky_privateKeyBytes (KYBER_PARAMS kem_alg)) →
  (∀ pub rand j ct ss, pk_encapsulate (kems kem_alg) pub rand j = inr (ct, ss) → blen ct = ky_ciphertextBytes (KYBER_PARAMS kem_alg)) →
  run hybrid_keygen w = (w1, inr k) → run (hybrid_encapsulate k) w2 = (w3, inr e) →
  hybrid_decapsulate e k = inr (he_sharedSecret e).
Proof.
  intros Hk Ha Hsk Hct Hg He. unfold hybrid_encapsulate in He. rewrite run_bind, run_throw_if in He.
  unfold hybrid_keygen in Hg. unfold hybrid_decapsulate. destruct isKem; [|done]. cbn [negb] in *.
  unfold kyber_keygen in Hg. rewrite run_bind, run_draw, !run_bind, run_draw in Hg. rewrite !run_ret in Hg. injection Hg as _ <-. cbn [hk_classicalPublicKey
    hk_classicalPrivateKey hk_pqPublicKey hk_pqPrivateKey kp_publicKey kp_privateKey raw] in *.
  rewrite run_bind, run_draw, run_bind, run_from_result in He. rewrite Ha in He.
  destruct (x25519_shared cl (x25519_keygen cl (draws w)).2 _) as [x|ecdh] eqn:Hx; [done|].
  rewrite run_bind, run_draw in He. first_step He w4 enc Henc. injection He as _ <-. cbn [he_classical he_postQuantum he_sharedSecret].
  rewrite Hx. unfold encapsulate in Henc. cbn [algorithm raw] in Henc. rewrite run_bind, run_throw_if, bool_decide_true in Henc by done. cbn [negb] in Henc.
  rewrite run_bind, run_throw_if in Henc. destruct (_ =? _); [|done]. cbn [negb] in Henc. rewrite run_bind, run_draw, run_bind, run_from_result in Henc.
  destruct (pk_encapsulate _ _ _ _) as [x|[ct ss]] eqn:Hp; [done|]. injection Henc as _ <-. cbn [ec_ciphertext ec_sharedSecret raw fst snd].
  unfold decapsulate. cbn [algorithm raw]. rewrite bool_decide_true by done. cbn [negb]. rewrite Hsk, (Hct _ _ _ _ _ Hp), !Z.eqb_refl. cbn [negb orb].
  by rewrite (Hk _ _ _ _ _ _ Hp).
Qed.

(** C23: What [sign] signs with a generated pair, [verify] accepts; and it accepts
    nothing on the strength of one leg: the classical signature has to verify under the
    classical key, and the ML-DSA-65 one, of the right length, under the post-quantum
    key, whatever the message, the signature and the keys; in a key-exchange mode no
    signature verifies. *)
Theorem hybrid_signatures_verify message message' (w w1 w2 w3 : world P) k k' s s' :
  classical_correct cl → signatures_correct (signers Dilithium3) →
  (∀ seed i, blen (ps_keygen (signers Dilithium3) seed i).1 = 1952) →
  (∀ m sk r sig, ps_sign (signers Dilithium3) m sk r = inr sig → blen sig = 3309) →
  run hybrid_keygen w = (w1, inr k) → run (hybrid_sign message k) w2 = (w3, inr s) →
  hybrid_verify message s k = true ∧
  (hybrid_verify message' s' k' = true →
   isKem = false ∧ node_verify cl message' (hk_classicalPublicKey k') (hs_classical s') = inr true ∧
   blen (hs_postQuantum s') = 3309 ∧ blen (hk_pqPublicKey k') = 1952 ∧
   ps_verify (signers Dilithium3) (hs_postQuantum s') message' (hk_pqPublicKey k') = inr true).
Proof.
  clear hkdf. intros Hc Hs Hpub Hlen Hg Hr. split; [|by intros ?%hybrid_verify_iff]. apply hybrid_verify_iff. unfold hybrid_sign in Hr. rewrite run_bind, run_throw_if in Hr.
  unfold hybrid_keygen in Hg. destruct isKem; [done|]. unfold generateKeyPair in Hg.
  rewrite run_bind, run_draw, !run_bind, run_draw in Hg. rewrite !run_ret in Hg. injection Hg as _ <-.
  cbn [hk_classicalPublicKey hk_classicalPrivateKey hk_pqPublicKey hk_pqPrivateKey publicKey privateKey raw] in *.
  rewrite run_bind, run_draw, run_bind, run_from_result in Hr. destruct (node_sign _ _ _ _) as [x|c] eqn:Hn; [done|].
  first_step Hr w4 pqs Hsig. injection Hr as _ <-. cbn [hs_classical hs_postQuantum].
  unfold dilithium_sign, sign in Hsig. cbn [algorithm raw] in Hsig. rewrite run_bind, run_throw_if, bool_decide_true in Hsig by done. cbn [negb] in Hsig.
  rewrite run_bind, run_throw_if in Hsig. destruct (_ =? _); [|done]. cbn [negb] in Hsig. rewrite run_bind, run_draw, run_bind, run_from_result in Hsig.
  destruct (ps_sign _ _ _ _) as [x|b] eqn:Hb; [done|]. injection Hsig as _ <-. cbn [raw].
  split; [done|]. split; [by apply (Hc _ _ _ _ _ Hn)|]. split; [by apply (Hlen _ _ _ _ Hb)|]. split; [apply Hpub|by apply (Hs _ _ _ _ _ Hb)].
Qed.
End hybrid.
