(* ===== verification/Hsm.v ===== *)
(** * Hardware security modules and cloud key management

    [packages/crypto/src/hsm]: the PKCS#11 manager with its simulated provider, and the
    clients of the three cloud services. *)

From S2P Require Export World.
From S2P Require Import JsMap.
From S2P Require Import Encryption.

(** * Hardware security modules

    [packages/crypto/src/hsm]: the session manager over a PKCS#11 provider, and the
    simulated provider it starts with ([pkcs11.ts]).  A provider is a record of
    operations, each one step of a device that may fail; latencies are left out. *)

(** ** [pkcs11.ts] *)
Record Pkcs11Config := mkPkcs11Config {
  libraryPath : string; slotId : option Z; pin : string; poolSize : option Z; timeoutMs : option Z }.
Inductive HsmKeyType := RSA | EC | AES | Generic.
Record HsmKeyHandle := mkHsmKeyHandle {
  hk_handle : Z; hk_label : string; hk_type : HsmKeyType; hk_sizeBits : Z; canSign : bool; canDecrypt : bool; canEncrypt : bool }.
Record HsmSession := mkHsmSession { hsm_handle : Z; hsm_readOnly : bool }.
Record Pkcs11SignResult := mkPkcs11SignResult { sg_signature : string; sg_mechanism : string; sg_keyLabel : string }.
Record Pkcs11EncryptResult := mkPkcs11EncryptResult { er_ciphertext : string; er_iv : option string; er_mechanism : string }.

(** A command of a device of state [S]. *)
Definition device (S A : Type) : Type := S → S * (exn + A).
Record Pkcs11Provider (S : Type) := mkPkcs11Provider {
  pv_initialize : Pkcs11Config → device S ();
  pv_finalize : device S ();
  pv_openSession : Z → bool → device S HsmSession;
  pv_closeSession : HsmSession → device S ();
  pv_login : HsmSession → string → device S ();
  pv_findKey : HsmSession → string → device S (option HsmKeyHandle);
  pv_sign : HsmSession → HsmKeyHandle → string → string → device S Pkcs11SignResult;
  pv_encrypt : HsmSession → HsmKeyHandle → string → string → option string → device S Pkcs11EncryptResult;
  pv_decrypt : HsmSession → HsmKeyHandle → string → string → option string → device S string;
  pv_generateRandom : HsmSession → Z → device S string }.
Arguments mkPkcs11Provider {S}.
Arguments pv_initialize {S}.
Arguments pv_finalize {S}.
Arguments pv_openSession {S}.
Arguments pv_closeSession {S}.
Arguments pv_login {S}.
Arguments pv_findKey {S}.
Arguments pv_sign {S}.
Arguments pv_encrypt {S}.
Arguments pv_decrypt {S}.
Arguments pv_generateRandom {S}.

(** The manager: its fields, and the device behind it. *)
Record Pkcs11Manager (S : Type) := mkPkcs11Manager {
  initialized : bool; session : option HsmSession; hardware : S }.
Arguments mkPkcs11Manager {S}.
Arguments initialized {S}.
Arguments session {S}.
Arguments hardware {S}.
#[export] Instance settable_Pkcs11Manager S : Settable (Pkcs11Manager S) := {| eta_expand := λ m,
  mkPkcs11Manager (initialized m) (session m) (hardware m) |}.

Section manager.
Context {S : Type} (pv : Pkcs11Provider S) (config : Pkcs11Config).
Notation M := (Pkcs11Manager S).
Definition command {A} (f : device S A) : prog M A :=
  Atom (λ m : M, let '(s, r) := f (hardware m) in (m <| hardware := s |>, r))
    (λ r, match r with inr a => Ret a | inl e => Throw e end).
Definition set (f : M → M) : prog M () := Atom (λ m, (f m, tt)) Ret.
Definition get {A} (f : M → A) : prog M A := Atom (λ m, (m, f m)) Ret.
Definition initialize : prog M () :=
  started ← get initialized;
  if (started : bool) then mret tt
  else
    command (pv_initialize pv config) ;;
    s ← command (pv_openSession pv (nullish (slotId config) 0) false);
    set (λ m, m <| session := Some s |>) ;;
    command (pv_login pv s (pin config)) ;;
    set (λ m, m <| initialized := true |>).
Definition shutdown : prog M () :=
  s ← get session;
  match s with
  | Some s => command (pv_closeSession pv s) ;; set (λ m, m <| session := None |>)
  | None => mret tt
  end ;;
  command (pv_finalize pv) ;;
  set (λ m, m <| initialized := false |>).
Definition NOT_INITIALIZED : exn := JsError "Pkcs11Manager: not initialized. Call initialize() first.".
(** [ensureInitialized], with the session it leaves to use. *)
Definition ensureInitialized : prog M HsmSession :=
  started ← get initialized;
  s ← get session;
  match s with Some s => if (started : bool) then mret s else Throw NOT_INITIALIZED | None => Throw NOT_INITIALIZED end.
Definition findKey (label : string) : prog M (option HsmKeyHandle) := s ← ensureInitialized; command (pv_findKey pv s label).
Definition hsm_sign (key : HsmKeyHandle) (data : string) (mechanism : option string) : prog M Pkcs11SignResult :=
  s ← ensureInitialized; command (pv_sign pv s key data (nullish mechanism "SHA256-RSA-PKCS")).
Definition hsm_encrypt (key : HsmKeyHandle) (data : string) (mechanism iv : option string) : prog M Pkcs11EncryptResult :=
  s ← ensureInitialized; command (pv_encrypt pv s key data (nullish mechanism "AES-CBC") iv).
Definition hsm_decrypt (key : HsmKeyHandle) (data : string) (mechanism iv : option string) : prog M string :=
  s ← ensureInitialized; command (pv_decrypt pv s key data (nullish mechanism "AES-CBC") iv).
Definition generateRandom (length : Z) : prog M string := s ← ensureInitialized; command (pv_generateRandom pv s length).

(** The calls a client can make. *)
Inductive hsm_call :=
| Initialize | Shutdown | FindKey (label : string) | Sign (key : HsmKeyHandle) (data : string) (mechanism : option string)
| Encrypt (key : HsmKeyHandle) (data : string) (mechanism iv : option string)
| Decrypt (key : HsmKeyHandle) (data : string) (mechanism iv : option string) | Random (length : Z).
Definition serve_call (c : hsm_call) : prog M () :=
  match c with
  | Initialize => initialize
  | Shutdown => shutdown
  | FindKey l => findKey l ;; mret tt
  | Sign k d m => hsm_sign k d m ;; mret tt
  | Encrypt k d m iv => hsm_encrypt k d m iv ;; mret tt
  | Decrypt k d m iv => hsm_decrypt k d m iv ;; mret tt
  | Random n => generateRandom n ;; mret tt
  end.
(** Calls one after the other, whatever they throw. *)
Fixpoint serve_calls (l : list hsm_call) : prog M () :=
  match l with [] => mret tt | c :: l => try_catch (serve_call c) (λ _, mret tt) ;; serve_calls l end.

Lemma run_hsm_command {A} (f : device S A) m :
  run (command f) m = (m <| hardware := (f (hardware m)).1 |>, (f (hardware m)).2).
Proof. unfold command. cbn. destruct (f (hardware m)) as [s [e|a]]; done. Qed.
Definition uses_hardware (c : hsm_call) : bool := match c with Initialize | Shutdown => false | _ => true end.
(** Without a session no operation reaches the device. *)
Lemma run_not_ready c m :
  uses_hardware c = true → initialized m = false ∨ session m = None → run (serve_call c) m = (m, inl NOT_INITIALIZED).
Proof.
  intros Hc Hm. assert (run ensureInitialized m = (m, inl NOT_INITIALIZED)) as He.
  { unfold ensureInitialized, get. cbn. destruct (session m); [|done]. destruct Hm as [->|]; done. }
  destruct c; try done; cbn [serve_call]; unfold findKey, hsm_sign, hsm_encrypt, hsm_decrypt, generateRandom; by rewrite !run_bind, He.
Qed.

(** A shutdown that fails in [finalize] wedges the manager for good: the session is
    gone and the manager still takes itself for initialized, so that from then on
    [initialize] does nothing and every operation throws that it was not called; only
    another shutdown, with the device willing, ends this. *)
Theorem failed_finalize_wedges m m' e calls :
  run shutdown m = (m', inl e) → initialized m = true → session m' = None → Forall (λ c, c ≠ Shutdown) calls →
  run (serve_calls calls) m' = (m', inr tt) ∧ run initialize m' = (m', inr tt) ∧
  ∀ c, uses_hardware c = true → run (serve_call c) m' = (m', inl NOT_INITIALIZED).
Proof.
  intros Hr Hi Hs Hc. assert (initialized m' = true) as Hi'.
  { unfold shutdown, get, set in Hr. rewrite run_bind in Hr. cbn [run] in Hr. destruct (session m) as [s|].
    - rewrite !run_bind, run_hsm_command in Hr. destruct (pv_closeSession pv s (hardware m)) as [h [x|u]]; [by injection Hr as <- _|].
      cbn [fst snd] in Hr. cbn [run] in Hr. rewrite run_bind, run_hsm_command in Hr.
      destruct (pv_finalize pv _) as [h' [x|u']]; [by injection Hr as <- _|done].
    - rewrite !run_bind, run_ret, run_bind, run_hsm_command in Hr. destruct (pv_finalize pv _) as [h' [x|u']]; [by injection Hr as <- _|done]. }
  assert (run initialize m' = (m', inr tt)) as Hinit.
  { unfold initialize, get. rewrite run_bind. cbn [run]. by rewrite Hi'. }
  assert (∀ c, uses_hardware c = true → run (serve_call c) m' = (m', inl NOT_INITIALIZED)) as Hops.
  { intros c Hu. apply run_not_ready; [done|by right]. }
  split; [|by split]. induction Hc as [|c l Hne _ IH]; [done|]. cbn [serve_calls]. rewrite run_bind, run_catch.
  destruct (uses_hardware c) eqn:Hu; [by rewrite (Hops c Hu), run_ret|]. destruct c; try done. cbn [serve_call]. by rewrite Hinit.
Qed.

End manager.

(** *** The simulated provider *)
Section simulated.
Context {P : Platform} (hmac_sha256 : string → string → string)
  (cbc_encrypt : string → string → string → string) (cbc_decrypt : string → string → string → exn + string).
Record Simulated := mkSimulated { sim_sessions : list (Z * HsmSession); sim_counter : Z; sim_draws : nat }.
Definition new_simulated (d : nat) : Simulated := mkSimulated [] 0 d.
Definition sim_open (readOnly : bool) : device Simulated HsmSession := λ s,
  let handle := sim_counter s + 1 in
  let session := mkHsmSession handle readOnly in
  (mkSimulated (sim_sessions s ++ [(handle, session)]) handle (sim_draws s), inr session).
Definition sim_close (session : HsmSession) : device Simulated () := λ s,
  (mkSimulated (List.filter (λ p, negb (p.1 =? hsm_handle session)) (sim_sessions s)) (sim_counter s) (sim_draws s), inr tt).
Definition sim_drawn (n : nat) (s : Simulated) : Simulated := mkSimulated (sim_sessions s) (sim_counter s) (sim_draws s + n).
Definition sim_encrypt (data mechanism : string) (iv : option string) : device Simulated Pkcs11EncryptResult := λ s,
  let '(actualIv, d) := match iv with Some v => (v, sim_draws s) | None => (randomBytes (sim_draws s) 16, Datatypes.S (sim_draws s)) end in
  (mkSimulated (sim_sessions s) (sim_counter s) (Datatypes.S d),
   inr (mkPkcs11EncryptResult (cbc_encrypt (randomBytes d 32) actualIv data) (Some actualIv) mechanism)).
Definition sim_decrypt (data : string) (iv : option string) : device Simulated string := λ s,
  let key := randomBytes (sim_draws s) 32 in
  match iv with
  | Some v => (sim_drawn 1 s, cbc_decrypt key v data)
  | None => (sim_drawn 2 s, cbc_decrypt key (randomBytes (Datatypes.S (sim_draws s)) 16) data)
  end.
Definition SimulatedPkcs11Provider : Pkcs11Provider Simulated := mkPkcs11Provider
  (λ _ s, (s, inr tt))
  (λ s, (mkSimulated [] (sim_counter s) (sim_draws s), inr tt))
  (λ _ readOnly, sim_open readOnly)
  sim_close
  (λ _ _ s, (s, inr tt))
  (λ _ label s, (s, inr (Some (mkHsmKeyHandle 1 label RSA 2048 true true true))))
  (λ _ key data mechanism s, (s, inr (mkPkcs11SignResult (hmac_sha256 (hk_label key) data) mechanism (hk_label key))))
  (λ _ _ data mechanism iv, sim_encrypt data mechanism iv)
  (λ _ _ data _ iv, sim_decrypt data iv)
  (λ _ length s, (sim_drawn 1 s, inr (randomBytes (sim_draws s) (Z.to_nat length)))).

(** What the simulated device encrypts it cannot decrypt: the key of every call is
    drawn afresh and dropped, so that decrypting what was just encrypted, with the
    vector that was returned, is decrypting with a key that has nothing to do with it. *)
Lemma simulated_key_dropped session key data s s' r :
  pv_encrypt SimulatedPkcs11Provider session key data "AES-CBC" None s = (s', inr r) →
  er_ciphertext r = cbc_encrypt (randomBytes (Datatypes.S (sim_draws s)) 32) (randomBytes (sim_draws s) 16) data ∧
  (pv_decrypt SimulatedPkcs11Provider session key (er_ciphertext r) "AES-CBC" (er_iv r) s').2 =
    cbc_decrypt (randomBytes (Datatypes.S (Datatypes.S (sim_draws s))) 32) (randomBytes (sim_draws s) 16)
      (cbc_encrypt (randomBytes (Datatypes.S (sim_draws s)) 32) (randomBytes (sim_draws s) 16) data).
Proof. intros [= <- <-]. done. Qed.
End simulated.

(** * Cloud key-management services

    [packages/crypto/src/hsm]: the clients of AWS KMS, Azure Key Vault and Google Cloud
    KMS, and what they do when their SDK is not installed.  An SDK is a parameter: what
    importing it and making its client give, if anything, and the commands of the
    client. *)

Section cloud_kms.
Context {P : Platform}.
Notation M := (prog (world P)).

(** [throw new Error(`... failed: ${err.message}`)]. *)
Definition failing {A} (label : string) (op : M A) : M A :=
  try_catch op (λ e, Throw (JsError (label +:+ " failed: " +:+ err_message e))).

(** ** [aws-kms.ts] *)
Record AwsKmsConfig := mkAwsKmsConfig {
  aw_region : string; aw_accessKeyId : option string; aw_secretAccessKey : option string; aw_keyArn : option string;
  aw_keyAlias : option string; aw_endpoint : option string }.
(** A sealed or opened text with the key and algorithm the service names. *)
Record KmsResult := mkKmsResult { km_data : string; km_key : string; km_algorithm : string }.
Record DataKey := mkDataKey { dk_plaintext : string; dk_encrypted : string; dk_key : string }.
Record AwsSdk := mkAwsSdk {
  aws_encrypt : option string → string → option (list (string * string)) → string → M KmsResult;
  aws_decrypt : string → option (list (string * string)) → string → M KmsResult;
  aws_dataKey : option string → string → option (list (string * string)) → M DataKey }.
(** The credentials the client is made with. *)
Definition credentials (c : AwsKmsConfig) : option (string * string) :=
  if truthy (aw_accessKeyId c) && truthy (aw_secretAccessKey c)
  then Some (nullish (aw_accessKeyId c) "", nullish (aw_secretAccessKey c) "") else None.
Record AwsKmsClient := mkAwsKmsClient { ac_config : AwsKmsConfig; ac_sdk : option AwsSdk }.
Definition createAwsKmsClient (c : AwsKmsConfig) : AwsKmsClient := mkAwsKmsClient c None.
(** [sdk] is the module, when it can be imported; making its client may throw. *)
Definition aws_initialize (sdk : option (string → option (string * string) → option string → exn + AwsSdk)) (c : AwsKmsClient) : AwsKmsClient :=
  match sdk with
  | None => c
  | Some make => mkAwsKmsClient (ac_config c)
      match make (aw_region (ac_config c)) (credentials (ac_config c)) (aw_endpoint (ac_config c)) with
      | inr s => Some s
      | inl _ => None
      end
  end.
Definition simulated_arn (c : AwsKmsClient) : string := nullish (aw_keyArn (ac_config c)) "arn:aws:kms:simulated".
Definition aws_simulateEncrypt (c : AwsKmsClient) (plaintext : string) : M KmsResult :=
  key ← draw (λ i, randomBytes i 32);
  iv ← draw (λ i, randomBytes i 16);
  let '(encrypted, authTag) := aes_256_gcm_seal key iv "" plaintext in
  mret (mkKmsResult (iv +:+ authTag +:+ encrypted) (simulated_arn c) "SYMMETRIC_DEFAULT").
Definition sub_from (n : nat) (s : string) : string := String.substring n (String.length s - n) s.
Definition UNAUTHENTIC : exn := JsError "Unsupported state or unable to authenticate data".
Definition aws_simulateDecrypt (c : AwsKmsClient) (ciphertext : string) : M KmsResult :=
  key ← draw (λ i, randomBytes i 32);
  match aes_256_gcm_open key (String.substring 0 16 ciphertext) "" (sub_from 32 ciphertext) (String.substring 16 16 ciphertext) with
  | Some plaintext => mret (mkKmsResult plaintext (simulated_arn c) "SYMMETRIC_DEFAULT")
  | None => Throw UNAUTHENTIC
  end.
Definition aws_simulateGenerateDataKey (c : AwsKmsClient) : M DataKey :=
  plaintext ← draw (λ i, randomBytes i 32);
  encrypted ← draw (λ i, randomBytes i 64);
  mret (mkDataKey plaintext encrypted (simulated_arn c)).
(** [keyArn ?? keyAlias]. *)
Definition key_id (c : AwsKmsClient) : option string :=
  match aw_keyArn (ac_config c) with Some k => Some k | None => aw_keyAlias (ac_config c) end.
Definition kms_encrypt (c : AwsKmsClient) (plaintext : string) (context : option (list (string * string))) : M KmsResult :=
  match ac_sdk c with
  | None => aws_simulateEncrypt c plaintext
  | Some s => failing "AWS KMS encrypt" (aws_encrypt s (key_id c) plaintext context "SYMMETRIC_DEFAULT")
  end.
Definition kms_decrypt (c : AwsKmsClient) (ciphertext : string) (context : option (list (string * string))) : M KmsResult :=
  match ac_sdk c with
  | None => aws_simulateDecrypt c ciphertext
  | Some s => failing "AWS KMS decrypt" (aws_decrypt s ciphertext context "SYMMETRIC_DEFAULT")
  end.
Definition kms_generateDataKey (c : AwsKmsClient) (context : option (list (string * string))) : M DataKey :=
  match ac_sdk c with
  | None => aws_simulateGenerateDataKey c
  | Some s => failing "AWS KMS generateDataKey" (aws_dataKey s (key_id c) "AES_256" context)
  end.

(** ** [azure-keyvault.ts] *)
Record AzureKeyVaultConfig := mkAzureKeyVaultConfig {
  az_vaultUrl : string; az_tenant : option string; az_clientId : option string; az_clientSecret : option string; az_keyName : option string }.
(** The cryptography client of a key, and the encryption the key client is asked for. *)
Record AzureSdk := mkAzureSdk {
  azure_crypto : string → M ((string → string → M (string * string * option string)) * (string → string → M (string * string)));
  azure_key_encrypt : string → string → string → M string }.
Record AzureEncryptResult := mkAzureEncryptResult { zr_data : string; zr_keyName : string; zr_algorithm : string; zr_keyVersion : option string }.
Definition vault_key (c : AzureKeyVaultConfig) : string := nullish (az_keyName c) "pezhwan-master".
Definition azure_simulateEncrypt (c : AzureKeyVaultConfig) (plaintext : string) : M AzureEncryptResult :=
  data ← draw (λ i, randomBytes i (String.length plaintext + 32));
  mret (mkAzureEncryptResult data (vault_key c) "RSA-OAEP-256" None).
Definition azure_simulateDecrypt (c : AzureKeyVaultConfig) (ciphertext : string) : M AzureEncryptResult :=
  data ← draw (λ i, randomBytes i 32);
  mret (mkAzureEncryptResult data (vault_key c) "RSA-OAEP-256" None).
Definition azure_encrypt (c : AzureKeyVaultConfig) (sdk : option AzureSdk) (plaintext : string) (algorithm : option string) : M AzureEncryptResult :=
  match sdk with
  | None => azure_simulateEncrypt c plaintext
  | Some s => failing "Azure Key Vault encrypt"
      (k ← azure_crypto s (vault_key c);
       r ← k.1 (nullish algorithm "RSA-OAEP-256") plaintext;
       mret (mkAzureEncryptResult r.1.1 (vault_key c) r.1.2 r.2))
  end.
Definition azure_decrypt (c : AzureKeyVaultConfig) (sdk : option AzureSdk) (ciphertext : string) (algorithm : option string) : M AzureEncryptResult :=
  match sdk with
  | None => azure_simulateDecrypt c ciphertext
  | Some s => failing "Azure Key Vault decrypt"
      (k ← azure_crypto s (vault_key c);
       r ← k.2 (nullish algorithm "RSA-OAEP-256") ciphertext;
       mret (mkAzureEncryptResult r.1 (vault_key c) r.2 None))
  end.
Definition azure_generateDataKey (c : AzureKeyVaultConfig) (sdk : option AzureSdk) (keyName : option string) : M DataKey :=
  let name := match keyName with Some n => n | None => vault_key c end in
  plaintext ← draw (λ i, randomBytes i 32);
  match sdk with
  | None => encrypted ← draw (λ i, randomBytes i 256); mret (mkDataKey plaintext encrypted name)
  | Some s => failing "Azure Key Vault generateDataKey"
      (r ← azure_key_encrypt s name "RSA-OAEP-256" plaintext; mret (mkDataKey plaintext r name))
  end.

(** ** [gcp-kms.ts] *)
Record GcpKmsConfig := mkGcpKmsConfig { gc_projectId : string; gc_locationId : string; gc_keyRingId : string; gc_keyId : string }.
(** A name and data in, data and the name of a key out. *)
Record GcpSdk := mkGcpSdk { gcp_encrypt : string → string → M (string * string); gcp_decrypt : string → string → M (string * string) }.
Record GcpEncryptResult := mkGcpEncryptResult { ge_ciphertext : string; ge_keyName : string; ge_protectionLevel : string }.
Record GcpDecryptResult := mkGcpDecryptResult { gd_plaintext : string; gd_keyName : string; gd_primaryKeyName : string }.
Definition keyVersionName (c : GcpKmsConfig) (version : option string) : string :=
  "projects/" +:+ gc_projectId c +:+ "/locations/" +:+ gc_locationId c +:+ "/keyRings/" +:+ gc_keyRingId c +:+
  "/cryptoKeys/" +:+ gc_keyId c +:+ "/cryptoKeyVersions/" +:+ nullish version "1".
Definition gcp_simulateEncrypt (c : GcpKmsConfig) (plaintext : string) : M GcpEncryptResult :=
  data ← draw (λ i, randomBytes i (String.length plaintext + 32));
  mret (mkGcpEncryptResult data (gc_keyId c) "SOFTWARE").
Definition gcp_simulateDecrypt (c : GcpKmsConfig) (ciphertext : string) : M GcpDecryptResult :=
  data ← draw (λ i, randomBytes i 32);
  mret (mkGcpDecryptResult data (gc_keyId c) (keyVersionName c None)).
Definition gcp_kms_encrypt (c : GcpKmsConfig) (sdk : option GcpSdk) (plaintext : string) : M GcpEncryptResult :=
  match sdk with
  | None => gcp_simulateEncrypt c plaintext
  | Some s => failing "GCP KMS encrypt"
      (r ← gcp_encrypt s (keyVersionName c None) plaintext; mret (mkGcpEncryptResult r.1 (gc_keyId c) "HSM"))
  end.
Definition gcp_kms_decrypt (c : GcpKmsConfig) (sdk : option GcpSdk) (ciphertext : string) : M GcpDecryptResult :=
  match sdk with
  | None => gcp_simulateDecrypt c ciphertext
  | Some s => failing "GCP KMS decrypt"
      (r ← gcp_decrypt s (keyVersionName c None) ciphertext; mret (mkGcpDecryptResult r.1 (gc_keyId c) r.2))
  end.
Definition gcp_generateDataKey (c : GcpKmsConfig) (sdk : option GcpSdk) : M DataKey :=
  plaintext ← draw (λ i, randomBytes i 32);
  match sdk with
  | None => encrypted ← draw (λ i, randomBytes i 256); mret (mkDataKey plaintext encrypted (gc_keyId c))
  | Some s => failing "GCP KMS generateDataKey"
      (r ← gcp_encrypt s (keyVersionName c None) plaintext; mret (mkDataKey plaintext r.1 (gc_keyId c)))
  end.

(** ** Without an SDK *)
(** Without their SDKs the cloud clients answer as if all went well and lose the data.
    Azure's and Google's ciphertexts are the same for all plaintexts of a length, and
    what they decrypt is the same for all ciphertexts; AWS seals under a key it drops,
    so that what it sealed opens later only if the text that comes out, sealed under the
    key drawn then, is the very same ciphertext. *)
Theorem simulated_kms_loses_data `{!AeadLaws P} aws azure gcp plaintext plaintext' (w w1 w2 w3 : world P) r r' :
  String.length plaintext = String.length plaintext' →
  run (azure_encrypt azure None plaintext None) w = run (azure_encrypt azure None plaintext' None) w ∧
  run (gcp_kms_encrypt gcp None plaintext) w = run (gcp_kms_encrypt gcp None plaintext') w ∧
  (∀ c c', run (azure_decrypt azure None c None) w = run (azure_decrypt azure None c' None) w) ∧
  (∀ c c', run (gcp_kms_decrypt gcp None c) w = run (gcp_kms_decrypt gcp None c') w) ∧
  (run (kms_encrypt (createAwsKmsClient aws) plaintext None) w = (w1, inr r) →
   run (kms_decrypt (createAwsKmsClient aws) (km_data r) None) w2 = (w3, inr r') →
   let iv := randomBytes (S (draws w)) 16 in
   aes_256_gcm_seal (randomBytes (draws w2) 32) iv "" (km_data r') = aes_256_gcm_seal (randomBytes (draws w) 32) iv "" plaintext).
Proof.
  intros Heq. unfold azure_encrypt, azure_simulateEncrypt, gcp_kms_encrypt, gcp_simulateEncrypt. rewrite Heq.
  do 2 (split; [reflexivity|]). do 2 (split; [reflexivity|]). intros Hr Hd. set (iv := randomBytes (S (draws w)) 16). unfold kms_encrypt, createAwsKmsClient, aws_simulateEncrypt in Hr. cbn [ac_sdk] in Hr.
  rewrite run_bind, run_draw, run_bind, run_draw in Hr. change (draws (w <| draws ::= S |>)) with (S (draws w)) in Hr. fold iv in Hr.
  pose proof (aes_round_trip (randomBytes (draws w) 32) iv "" plaintext) as Hs.
  destruct (aes_256_gcm_seal (randomBytes (draws w) 32) iv "" plaintext) as [encrypted tag] eqn:Hseal. destruct Hs as (_ & _ & Ht).
  injection Hr as _ <-. assert (String.length iv = 16%nat) as Hiv by apply randomBytes_length.
  unfold kms_decrypt, aws_simulateDecrypt in Hd. cbn [ac_sdk createAwsKmsClient km_data] in Hd. rewrite run_bind, run_draw in Hd.
  rewrite (substring_app_l iv _ 16 Hiv), (substring_app_r iv _ 16 16 Hiv), (substring_app_l tag _ 16 Ht) in Hd.
  assert (sub_from 32 (iv +:+ tag +:+ encrypted) = encrypted) as Hsub.
  { unfold sub_from. rewrite <- str_app_assoc, !str_app_length, Hiv, Ht. rewrite (substring_app_r (iv +:+ tag) encrypted 32)
      by (rewrite str_app_length; lia). replace (16 + 16 + String.length encrypted - 32)%nat with (String.length encrypted) by lia. apply substring_all. }
  rewrite Hsub in Hd. destruct (aes_256_gcm_open _ _ _ _ _) as [p|] eqn:Ho; [|done]. injection Hd as _ <-. cbn [km_data].
  by apply aes_open_sound.
Qed.
End cloud_kms.
