(* ===== verification/WebSocket.v ===== *)
(** * WebSocket server

    [packages/express/src/websocket]: the handshake, the frames of RFC 6455 and
    the clients.  Bytes are integers; a socket is a number, what is written to it
    is a log.  Listeners of the events the server emits are not run: the events
    are a log too. *)

From S2P Require Export Codec.
From S2P Require Export Json.
From S2P Require Export JsMap.
From Stdlib Require Import Ascii.

(** ** UTF-8 as [Buffer.toString] reads it *)
Definition REPLACEMENT : list Z := [239; 191; 189].
(** A sequence in progress: the bytes missing, the range of the next one, those read. *)
Definition pending : Type := nat * (Z * Z) * list Z.
Definition utf8_start (b : Z) : list Z * option pending :=
  if b <? 128 then ([b], None)
  else if b <? 194 then (REPLACEMENT, None)
  else if b <? 224 then ([], Some (1%nat, (128, 191), [b]))
  else if b =? 224 then ([], Some (2%nat, (160, 191), [b]))
  else if b =? 237 then ([], Some (2%nat, (128, 159), [b]))
  else if b <? 240 then ([], Some (2%nat, (128, 191), [b]))
  else if b =? 240 then ([], Some (3%nat, (144, 191), [b]))
  else if b <? 244 then ([], Some (3%nat, (128, 191), [b]))
  else if b =? 244 then ([], Some (3%nat, (128, 143), [b]))
  else (REPLACEMENT, None).
Definition utf8_step (p : option pending) (b : Z) : list Z * option pending :=
  match p with
  | None => utf8_start b
  | Some (n, (lo, hi), bs) =>
    if (lo <=? b) && (b <=? hi) then
      match n with
      | 1%nat => (bs ++ [b], None)
      | _ => ([], Some (pred n, (128, 191), bs ++ [b]))
      end
    else let '(out, q) := utf8_start b in (REPLACEMENT ++ out, q)
  end.
Fixpoint utf8_decode (p : option pending) (l : list Z) : list Z :=
  match l with
  | [] => match p with None => [] | Some _ => REPLACEMENT end
  | b :: l => let '(out, q) := utf8_step p b in out ++ utf8_decode q l
  end.
Definition byte_char (b : Z) : ascii := ascii_of_nat (Z.to_nat b).
Definition toString (l : list Z) : string := string_of_list (map byte_char (utf8_decode None l)).
Definition bytes_of (s : string) : list Z := map (λ c, Z.of_nat (nat_of_ascii c)) (list_of_string s).

(** ** Frames *)
Definition WS_GUID : string := "258EAFA5-E914-47DA-95CA-C5AB0DC85B11".
Definition OP_CONTINUATION : Z := 0.
Definition OP_TEXT : Z := 1.
Definition OP_BINARY : Z := 2.
Definition OP_CLOSE : Z := 8.
Definition OP_PING : Z := 9.
Definition OP_PONG : Z := 10.
Definition FIN : Z := 128.

Definition subarray (from to : Z) (buf : list Z) : list Z := take (Z.to_nat (to - from)) (drop (Z.to_nat from) buf).
Definition byte_at (buf : list Z) (i : nat) : Z := nth i buf 0.
Definition readUInt16BE (buf : list Z) (i : nat) : Z := byte_at buf i * 2 ^ 8 + byte_at buf (i + 1).
Definition readUInt32BE (buf : list Z) (i : nat) : Z := readUInt16BE buf i * 2 ^ 16 + readUInt16BE buf (i + 2).
Definition blen (buf : list Z) : Z := Z.of_nat (length buf).

(** [payload[i] ^ mask[i % 4]]. *)
Definition unmask (mask payload : list Z) : list Z := imap (λ i b, Z.lxor b (byte_at mask (i mod 4))) payload.

(** The length and where it ends: [None] when bytes are missing, [inl] when it is
    too large to be read. *)
Definition extended_length (buf : list Z) (len7 : Z) : option (() + Z * Z) :=
  if len7 =? 126 then if blen buf <? 4 then None else Some (inr (readUInt16BE buf 2, 4))
  else if len7 =? 127 then
    if blen buf <? 10 then None
    else if negb (readUInt32BE buf 2 =? 0) then Some (inl tt) else Some (inr (readUInt32BE buf 6, 10))
  else Some (inr (len7, 2)).

Inductive parsed := Incomplete | Refused (code : Z) | Frame (opcode : Z) (payload rest : list Z).
Definition parse_frame (maxPayload : Z) (buffer : list Z) : parsed :=
  if blen buffer <? 2 then Incomplete
  else
    let b0 := byte_at buffer 0 in
    let b1 := byte_at buffer 1 in
    let masked := negb (Z.land b1 128 =? 0) in
    match extended_length buffer (Z.land b1 127) with
    | None => Incomplete
    | Some (inl _) => Refused 1009
    | Some (inr (length, offset)) =>
      if maxPayload <? length then Refused 1009
      else
        let maskLen := if masked then 4 else 0 in
        if blen buffer <? offset + maskLen + length then Incomplete
        else
          let raw := subarray (offset + maskLen) (offset + maskLen + length) buffer in
          let payload := if masked then unmask (subarray offset (offset + 4) buffer) raw else raw in
          Frame (Z.land b0 15) payload (drop (Z.to_nat (offset + maskLen + length)) buffer)
    end.

Definition low8 (n : Z) : Z := Z.land n 255.
Definition frame_header (opcode : Z) (n : Z) : list Z :=
  Z.lor FIN opcode ::
  (if n <? 126 then [n]
   else if n <? 65536 then [126; low8 (Z.shiftr n 8); low8 n]
   else [127; 0; 0; 0; 0; low8 (Z.shiftr n 24); low8 (Z.shiftr n 16); low8 (Z.shiftr n 8); low8 n]).

(** ** The server *)
Section server.
Context {Identity : Type}.

Record WsClient := mkWsClient { id : string; socket : nat; identity : Identity; connectedAt : Z }.
Inductive ws_event := connection (c : WsClient) | message (c : WsClient) (text : string) | binary (c : WsClient) (payload : list Z)
  | closed (c : WsClient).
Record WsServer := mkWsServer {
  clients : list (string * WsClient); maxPayload : Z; written : list (nat * list Z); destroyed : list nat; emitted : list ws_event }.
#[export] Instance settable_WsServer : Settable WsServer := {| eta_expand := λ s,
  mkWsServer (clients s) (maxPayload s) (written s) (destroyed s) (emitted s) |}.

Definition new_server (max : option Z) : WsServer := mkWsServer [] (nullish max (256 * 1024)) [] [] [].
Definition clientCount (s : WsServer) : Z := Z.of_nat (length (clients s)).
Definition clientsList (s : WsServer) : list WsClient := map snd (clients s).

Definition emit (e : ws_event) (s : WsServer) : WsServer := s <| emitted ::= λ l, l ++ [e] |>.
Definition write (k : nat) (bytes : list Z) (s : WsServer) : WsServer := s <| written ::= λ l, l ++ [(k, bytes)] |>.
Definition destroy (k : nat) (s : WsServer) : WsServer := s <| destroyed ::= λ l, l ++ [k] |>.
Definition writeFrame (k : nat) (opcode : Z) (payload : list Z) (s : WsServer) : WsServer :=
  write k payload (write k (frame_header opcode (blen payload)) s).
(** [drop]. *)
Definition drop_client (c : WsClient) (s : WsServer) : WsServer :=
  if map_has (id c) (clients s) then destroy (socket c) (emit (closed c) (s <| clients ::= map_delete (id c) |>)) else s.
Definition fail (c : WsClient) (code : Z) (s : WsServer) : WsServer :=
  drop_client c (writeFrame (socket c) OP_CLOSE [low8 (Z.shiftr code 8); low8 code] s).

(** The [switch] on the opcode; [false] ends the connection. *)
Definition handle_frame (c : WsClient) (opcode : Z) (payload : list Z) (s : WsServer) : WsServer * bool :=
  if opcode =? OP_TEXT then (emit (message c (toString payload)) s, true)
  else if opcode =? OP_BINARY then (emit (binary c payload) s, true)
  else if opcode =? OP_PING then (writeFrame (socket c) OP_PONG payload s, true)
  else if opcode =? OP_CLOSE then (drop_client c s, false)
  else if (opcode =? OP_CONTINUATION) || (opcode =? OP_PONG) then (s, true)
  else (fail c 1002 s, false).
(** [consumeFrames]: every frame takes two bytes at least. *)
Fixpoint consume_loop (fuel : nat) (c : WsClient) (s : WsServer) (buffer : list Z) : WsServer * list Z :=
  match fuel with
  | O => (s, buffer)
  | S fuel =>
    match parse_frame (maxPayload s) buffer with
    | Incomplete => (s, buffer)
    | Refused code => (fail c code s, [])
    | Frame opcode payload rest =>
      let '(s, more) := handle_frame c opcode payload s in
      if more then consume_loop fuel c s rest else (s, [])
    end
  end.
Definition consumeFrames (c : WsClient) (s : WsServer) (buffer : list Z) : WsServer * list Z :=
  consume_loop (length buffer) c s buffer.
(** A chunk arrives; a destroyed socket has no more data. *)
Definition on_data (c : WsClient) (x : WsServer * list Z) (chunk : list Z) : WsServer * list Z :=
  if bool_decide (socket c ∈ destroyed x.1) then x else consumeFrames c x.1 (x.2 ++ chunk).

(** [handleUpgrade] with the key of the request, at two readings of the clock; the
    client it registers. *)
Definition accept_key (sha1 : string → string) (key : string) : string := to_base64 (sha1 (key +:+ WS_GUID)).
Definition crlf : string := String (ascii_of_nat 13) (String (ascii_of_nat 10) "").
Definition switching (accept : string) : string :=
  "HTTP/1.1 101 Switching Protocols" +:+ crlf +:+ "Upgrade: websocket" +:+ crlf +:+ "Connection: Upgrade" +:+ crlf +:+
  "Sec-WebSocket-Accept: " +:+ accept +:+ crlf +:+ crlf.
Definition handleUpgrade (sha1 : string → string) (key : option string) (k : nat) (who : Identity) (t t' : Z) (s : WsServer) :
    WsServer * option WsClient :=
  let key := nullish key "" in
  if String.eqb key "" then (destroy k s, None)
  else
    let accept := accept_key sha1 key in
    let client := mkWsClient (accept +:+ "-" +:+ toString36 t) k who t' in
    (emit (connection client) (write k (bytes_of (switching accept)) s <| clients ::= map_set (id client) client |>), Some client).

(** [wsEvent], [broadcast], [send] and [close]. *)
Definition wsEvent (type : string) (t : Z) (payload : option json) : json :=
  JObj ([("type"%string, JStr type); ("ts"%string, JNum t)] ++ match payload with Some p => [("payload"%string, p)] | None => [] end).
Definition event_bytes (type : string) (t : Z) (payload : option json) : list Z := bytes_of (stringify (wsEvent type t payload)).
Definition send (c : WsClient) (type : string) (t : Z) (payload : option json) (s : WsServer) : WsServer :=
  writeFrame (socket c) OP_TEXT (event_bytes type t payload) s.
Definition broadcast (type : string) (t : Z) (payload : option json) (s : WsServer) : WsServer :=
  foldl (λ s c, writeFrame (socket c) OP_TEXT (event_bytes type t payload) s) s (clientsList s).
Definition close (s : WsServer) : WsServer :=
  (foldl (λ s c, destroy (socket c) (writeFrame (socket c) OP_CLOSE [3; 232] s)) s (clientsList s)) <| clients := [] |>.

(** ** Frames read back *)
Lemma byte_at_app l l' i : (i < length l)%nat → byte_at (l ++ l') i = byte_at l i.
Proof. unfold byte_at. apply app_nth1. Qed.
Lemma readUInt16BE_app l l' i : (i + 1 < length l)%nat → readUInt16BE (l ++ l') i = readUInt16BE l i.
Proof. intros. unfold readUInt16BE. by rewrite !byte_at_app by lia. Qed.
Lemma readUInt32BE_app l l' i : (i + 3 < length l)%nat → readUInt32BE (l ++ l') i = readUInt32BE l i.
Proof. intros. unfold readUInt32BE. by rewrite !readUInt16BE_app by lia. Qed.
Lemma blen_app l l' : blen (l ++ l') = blen l + blen l'.
Proof. unfold blen. rewrite length_app. lia. Qed.
Lemma subarray_app from to l l' : 0 <= from → to <= blen l → subarray from to (l ++ l') = subarray from to l.
Proof.
  unfold subarray, blen. intros H0 H. rewrite drop_app, take_app_le; [done|]. rewrite length_drop. lia.
Qed.
Lemma extended_length_app buf more n r :
  2 <= blen buf → extended_length buf n = Some r → extended_length (buf ++ more) n = Some r.
Proof.
  unfold extended_length. rewrite blen_app. intros Hl. assert (0 <= blen more) by (unfold blen; lia).
  destruct (n =? 126).
  - destruct (Z.ltb_spec (blen buf) 4); [done|]. rewrite (proj2 (Z.ltb_ge _ _)) by lia.
    by rewrite readUInt16BE_app by (unfold blen in *; lia).
  - destruct (n =? 127); [|done]. destruct (Z.ltb_spec (blen buf) 10); [done|]. rewrite (proj2 (Z.ltb_ge _ _)) by lia.
    by rewrite !readUInt32BE_app by (unfold blen in *; lia).
Qed.
Definition bytes (l : list Z) : Prop := Forall (λ b, 0 <= b < 256) l.
Lemma ws_byte_bound l i : bytes l → 0 <= byte_at l i < 256.
Proof.
  intros H. unfold byte_at. destruct (nth_in_or_default i l 0) as [Hin| ->]; [|lia].
  unfold bytes in H. rewrite List.Forall_forall in H. by apply H.
Qed.
Lemma readUInt16BE_bound l i : bytes l → 0 <= readUInt16BE l i < 2 ^ 16.
Proof. intros H. unfold readUInt16BE. pose proof (ws_byte_bound l i H). pose proof (ws_byte_bound l (i + 1) H). lia. Qed.
Lemma readUInt32BE_bound l i : bytes l → 0 <= readUInt32BE l i < 2 ^ 32.
Proof. intros H. unfold readUInt32BE. pose proof (readUInt16BE_bound l i H). pose proof (readUInt16BE_bound l (i + 2) H). lia. Qed.
Lemma land_ones_bound b n : 0 <= n → 0 <= Z.land b (Z.ones n) < 2 ^ n.
Proof. intros Hn. rewrite Z.land_ones by done. apply Z.mod_pos_bound. lia. Qed.
Lemma extended_length_bounds buf b len off :
  bytes buf → 2 <= blen buf → extended_length buf (Z.land b 127) = Some (inr (len, off)) → 0 <= len ∧ 2 <= off <= 10 ∧ off <= blen buf.
Proof.
  intros Hb Hl. pose proof (land_ones_bound b 7 ltac:(lia)) as Hlow. change (Z.ones 7) with 127 in Hlow. unfold extended_length.
  pose proof (readUInt16BE_bound buf 2 Hb). pose proof (readUInt32BE_bound buf 6 Hb).
  destruct (_ =? 126); [destruct (Z.ltb_spec (blen buf) 4); [done|]; intros [= <- <-]; lia|].
  destruct (_ =? 127); [|intros [= <- <-]; lia].
  destruct (Z.ltb_spec (blen buf) 10); [done|]. destruct (negb _); [done|]. intros [= <- <-]; lia.
Qed.

(** More bytes do not change a decision. *)
Lemma parse_frame_app max buf more :
  bytes buf →
  match parse_frame max buf with
  | Incomplete => True
  | Refused code => parse_frame max (buf ++ more) = Refused code
  | Frame op payload rest => parse_frame max (buf ++ more) = Frame op payload (rest ++ more)
  end.
Proof.
  intros Hb. unfold parse_frame. destruct (Z.ltb_spec (blen buf) 2) as [|Hl]; [done|].
  assert (0 <= blen more) by (unfold blen; lia).
  rewrite blen_app, (proj2 (Z.ltb_ge _ _)) by lia. rewrite !byte_at_app by (unfold blen in *; lia).
  destruct (extended_length buf _) as [[u|[len off]]|] eqn:He; [|..|done]; rewrite (extended_length_app _ _ _ _ Hl He); [done|].
  apply extended_length_bounds in He as (Hlen & Hoff & Hle); [|done..].
  destruct (max <? len); [done|]. destruct (negb _).
  - destruct (Z.ltb_spec (blen buf) (off + 4 + len)) as [|Hfull]; [done|]. rewrite (proj2 (Z.ltb_ge _ _)) by lia.
    rewrite !subarray_app by lia. by rewrite drop_app_le by (unfold blen in *; lia).
  - destruct (Z.ltb_spec (blen buf) (off + 0 + len)) as [|Hfull]; [done|]. rewrite (proj2 (Z.ltb_ge _ _)) by lia.
    rewrite !subarray_app by lia. by rewrite drop_app_le by (unfold blen in *; lia).
Qed.
Lemma parse_frame_shrinks max buf op payload rest :
  bytes buf → parse_frame max buf = Frame op payload rest → (length rest + 2 ≤ length buf)%nat ∧ bytes rest.
Proof.
  intros Hb. unfold parse_frame. destruct (Z.ltb_spec (blen buf) 2) as [|Hl]; [done|].
  destruct (extended_length buf _) as [[u|[len off]]|] eqn:He; [done| |done].
  apply extended_length_bounds in He as (Hlen & Hoff & Hle); [|done..].
  destruct (max <? len); [done|]. destruct (Z.ltb_spec (blen buf) (off + (if negb (Z.land (byte_at buf 1) 128 =? 0) then 4 else 0) + len)) as [|Hfull]; [done|].
  intros [= _ _ <-]. rewrite length_drop. unfold blen in *. split; [|by apply Forall_drop].
  assert (0 <= if negb (Z.land (byte_at buf 1) 128 =? 0) then 4 else 0) by (case_match; lia). lia.
Qed.

(** ** The stream *)
(** The client is registered and its socket is open. *)
Definition live (c : WsClient) (s : WsServer) : Prop := map_get (id c) (clients s) = Some c ∧ socket c ∉ destroyed s.

Lemma drop_live c s : live c s → socket c ∈ destroyed (drop_client c s).
Proof.
  intros [Hc _]. unfold drop_client. assert (map_has (id c) (clients s) = true) as -> by (unfold map_has; apply bool_decide_eq_true; by eexists).
  cbn. apply elem_of_app. right. by apply list_elem_of_singleton.
Qed.
Lemma write_live c k b s : live c s → live c (write k b s).
Proof. done. Qed.
Lemma fail_closes c code s : live c s → socket c ∈ destroyed (fail c code s).
Proof. intros Hs. by apply drop_live. Qed.
Lemma handle_frame_live c op payload s :
  live c s →
  match handle_frame c op payload s with
  | (s', true) => live c s' ∧ maxPayload s' = maxPayload s
  | (s', false) => socket c ∈ destroyed s'
  end.
Proof.
  intros Hs. unfold handle_frame.
  destruct (op =? OP_TEXT); [by split|]. destruct (op =? OP_BINARY); [by split|]. destruct (op =? OP_PING); [by split|].
  destruct (op =? OP_CLOSE); [by apply drop_live|]. destruct (_ || _); [by split|]. by apply fail_closes.
Qed.
Lemma consume_fuel c : ∀ n m s buf,
  bytes buf → (length buf ≤ n)%nat → (length buf ≤ m)%nat → consume_loop n c s buf = consume_loop m c s buf.
Proof.
  induction n as [|n IH]; intros [|m] s buf Hb Hn Hm; [done| | |].
  - destruct buf; [|cbn in *; lia]. done.
  - destruct buf; [|cbn in *; lia]. done.
  - cbn [consume_loop]. destruct (parse_frame _ buf) as [|code|op payload rest] eqn:Hp; [done..|].
    apply parse_frame_shrinks in Hp as [Hl Hr]; [|done]. destruct (handle_frame c op payload s) as [s' []]; [|done].
    apply IH; [done|lia..].
Qed.
Lemma consume_app c more : bytes more → ∀ n m s buf,
  bytes buf → live c s → (length buf ≤ n)%nat → (length (buf ++ more) ≤ m)%nat →
  consume_loop m c s (buf ++ more) =
    let x := consume_loop n c s buf in
    if bool_decide (socket c ∈ destroyed x.1) then x else consumeFrames c x.1 (x.2 ++ more).
Proof.
  intros Hmore. induction n as [|n IH]; intros m s buf Hb Hs Hn Hm; cbn [consume_loop].
  - cbn. rewrite bool_decide_false by apply Hs. unfold consumeFrames.
    apply consume_fuel; [by apply Forall_app|lia..].
  - pose proof (parse_frame_app (maxPayload s) buf more Hb) as Ha. destruct (parse_frame _ buf) as [|code|op payload rest] eqn:Hp.
    + cbn. rewrite bool_decide_false by apply Hs. unfold consumeFrames. apply consume_fuel; [by apply Forall_app|lia..].
    + cbn. rewrite bool_decide_true by (by apply fail_closes). destruct m as [|m].
      { destruct buf; [done|cbn in *; lia]. }
      cbn [consume_loop]. by rewrite Ha.
    + apply parse_frame_shrinks in Hp as [Hl Hr]; [|done]. destruct m as [|m]; [rewrite length_app in Hm; lia|].
      cbn [consume_loop]. rewrite Ha. pose proof (handle_frame_live c op payload s Hs) as Hh.
      destruct (handle_frame c op payload s) as [s' []].
      * apply IH; [done|apply Hh|lia|]. rewrite length_app in *. lia.
      * cbn. by rewrite bool_decide_true.
Qed.

(** C12: what a client says does not depend on how the network cuts it.  Receiving a
    chunk and then another is receiving the two at once: the same events, the same
    answers, the same bytes kept, and a connection that the first chunk ends stays
    ended. *)
Theorem chunks_concatenate (c : WsClient) (s : WsServer) (buffer a b : list Z) :
  live c s → bytes buffer → bytes a → bytes b →
  on_data c (on_data c (s, buffer) a) b = on_data c (s, buffer) (a ++ b).
Proof.
  intros Hs Hb Ha Hbb. unfold on_data at 2 3. cbn [fst snd]. rewrite bool_decide_false by apply Hs.
  unfold consumeFrames at 2. rewrite app_assoc, (consume_app c b Hbb (length (buffer ++ a))); try done.
  by apply Forall_app.
Qed.

(** ** Frames that are written are read back *)
Lemma subarray_middle (a b c : list Z) from to :
  from = blen a → to = from + blen b → subarray from to (a ++ b ++ c) = b.
Proof.
  intros -> ->. unfold subarray, blen. rewrite Nat2Z.id, drop_app_length.
  replace (Z.to_nat _) with (length b) by lia. apply take_app_length.
Qed.
Lemma parse_known max b0 b1 ext key raw rest :
  extended_length (b0 :: b1 :: ext ++ key ++ raw ++ rest) (Z.land b1 127) = Some (inr (blen raw, 2 + blen ext)) →
  blen raw <= max → blen key = (if negb (Z.land b1 128 =? 0) then 4 else 0) →
  parse_frame max (b0 :: b1 :: ext ++ key ++ raw ++ rest) =
    Frame (Z.land b0 15) (if negb (Z.land b1 128 =? 0) then unmask key raw else raw) rest.
Proof.
  intros He Hmax Hkey. unfold parse_frame. set (buf := b0 :: b1 :: ext ++ key ++ raw ++ rest) in *.
  assert (blen buf = 2 + blen ext + blen key + blen raw + blen rest) as Hlen.
  { unfold buf, blen. cbn [length]. rewrite !length_app. lia. }
  assert (0 <= blen ext ∧ 0 <= blen key ∧ 0 <= blen raw ∧ 0 <= blen rest) as (? & ? & ? & ?) by (unfold blen; lia).
  rewrite (proj2 (Z.ltb_ge _ _)) by lia. change (byte_at buf 0) with b0. change (byte_at buf 1) with b1. rewrite He.
  rewrite (proj2 (Z.ltb_ge _ _)) by lia. rewrite <- Hkey, (proj2 (Z.ltb_ge _ _)) by lia.
  assert (subarray (2 + blen ext + blen key) (2 + blen ext + blen key + blen raw) buf = raw) as ->.
  { replace buf with ((b0 :: b1 :: ext ++ key) ++ raw ++ rest) by (unfold buf; cbn [app]; by rewrite <- app_assoc).
    apply subarray_middle; [|done]. unfold blen. cbn [length]. rewrite length_app. lia. }
  assert (drop (Z.to_nat (2 + blen ext + blen key + blen raw)) buf = rest) as ->.
  { replace buf with ((b0 :: b1 :: ext ++ key ++ raw) ++ rest) by (unfold buf; cbn [app]; by rewrite <- !app_assoc).
    rewrite drop_app_ge; rewrite ?length_app; unfold blen in *; cbn [length]; rewrite !length_app; [|lia].
    replace (Z.to_nat _ - _)%nat with 0%nat by lia. apply drop_0. }
  destruct (negb _); [|done]. f_equal. f_equal.
  replace buf with ((b0 :: b1 :: ext) ++ key ++ raw ++ rest) by done.
  apply subarray_middle; [unfold blen; cbn [length]; lia|lia].
Qed.

(** A frame as a client sends it. *)
Definition masked_header (h : list Z) : list Z := match h with b0 :: b1 :: r => b0 :: Z.lor b1 128 :: r | _ => h end.
Definition client_frame (opcode : Z) (mask payload : list Z) : list Z :=
  masked_header (frame_header opcode (blen payload)) ++ mask ++ unmask mask payload.
Definition server_frame (opcode : Z) (payload : list Z) : list Z := frame_header opcode (blen payload) ++ payload.

Lemma low8_mod n : low8 n = n mod 256.
Proof. unfold low8. change 255 with (Z.ones 8). by rewrite Z.land_ones. Qed.
Lemma shifted_low8 n k : 0 <= k → low8 (Z.shiftr n k) = (n / 2 ^ k) mod 256.
Proof. intros. by rewrite low8_mod, Z.shiftr_div_pow2. Qed.
(** The length in a header is the length that is read. *)
Lemma header_length op n :
  0 <= n < 2 ^ 32 →
  ∃ l7 ext, frame_header op n = Z.lor FIN op :: l7 :: ext ∧ 0 <= l7 < 128 ∧
    ∀ b0 b1 t, extended_length (b0 :: b1 :: ext ++ t) l7 = Some (inr (n, 2 + blen ext)).
Proof.
  intros Hn. unfold frame_header. destruct (Z.ltb_spec n 126); [|destruct (Z.ltb_spec n 65536)].
  - exists n, []. split; [done|]. split; [lia|]. intros b0 b1 t. unfold extended_length.
    by rewrite (proj2 (Z.eqb_neq n 126)), (proj2 (Z.eqb_neq n 127)) by lia.
  - do 2 eexists. split; [done|]. split; [lia|]. intros b0 b1 t. unfold extended_length. cbn [Z.eqb Pos.eqb].
    rewrite (proj2 (Z.ltb_ge _ _)) by (unfold blen; cbn [length app]; lia). do 3 f_equal.
    unfold readUInt16BE, byte_at. cbn [nth app Nat.add]. rewrite shifted_low8, low8_mod by done.
    rewrite (Z.mod_small (n / 2 ^ 8)) by (split; [apply Z.div_pos|apply Z.div_lt_upper_bound]; lia).
    change (2 ^ 8) with 256. pose proof (Z.div_mod n 256 ltac:(lia)). lia.
  - do 2 eexists. split; [done|]. split; [lia|]. intros b0 b1 t. unfold extended_length. cbn [Z.eqb Pos.eqb].
    rewrite (proj2 (Z.ltb_ge _ _)) by (unfold blen; cbn [length app]; lia).
    change (readUInt32BE (b0 :: b1 :: _ ++ t) 2) with 0. cbn [negb Z.eqb]. do 3 f_equal.
    unfold readUInt32BE, readUInt16BE, byte_at. cbn [nth app Nat.add]. rewrite !shifted_low8, low8_mod by done.
    rewrite (Z.mod_small (n / 2 ^ 24)) by (split; [apply Z.div_pos|apply Z.div_lt_upper_bound]; lia).
    change (2 ^ 24) with (256 * (256 * 256)). change (2 ^ 16) with (256 * 256). change (2 ^ 8) with 256.
    rewrite <- !Z.div_div by lia. pose proof (Z.div_mod n 256 ltac:(lia)). pose proof (Z.div_mod (n / 256) 256 ltac:(lia)).
    pose proof (Z.div_mod (n / 256 / 256) 256 ltac:(lia)). lia.
Qed.
Lemma land_opcode op : 0 <= op < 16 → Z.land (Z.lor FIN op) 15 = op.
Proof.
  intros H. rewrite Z.land_lor_distr_l. change (Z.land FIN 15) with 0. rewrite Z.lor_0_l.
  change 15 with (Z.ones 4). rewrite Z.land_ones by done. apply Z.mod_small. lia.
Qed.
Lemma mask_bit l : 0 <= l < 128 →
  Z.land l 127 = l ∧ Z.land l 128 = 0 ∧ Z.land (Z.lor l 128) 127 = l ∧ Z.land (Z.lor l 128) 128 = 128.
Proof.
  intros H. assert (Z.land l 127 = l) as H1 by (change 127 with (Z.ones 7); rewrite Z.land_ones by done; apply Z.mod_small; lia).
  assert (Z.land l 128 = 0) as H2 by (rewrite <- H1, <- Z.land_assoc; apply Z.land_0_r).
  rewrite !Z.land_lor_distr_l, H1, H2. cbn. rewrite Z.lor_0_r. done.
Qed.
Lemma unmask_twice mask payload : unmask mask (unmask mask payload) = payload.
Proof.
  apply list_eq. intros i. unfold unmask. rewrite !list_lookup_imap. destruct (payload !! i) as [b|]; [|done].
  cbn. f_equal. by rewrite Z.lxor_assoc, Z.lxor_nilpotent, Z.lxor_0_r.
Qed.

(** C26: every frame comes back.  What the server writes, and what a client that masks
    as RFC 6455 demands writes, is read as the opcode and the payload it was made
    from, at every length up to the limit, and what follows the frame is left. *)
Theorem frames_round_trip (max opcode : Z) (mask payload rest : list Z) :
  0 <= opcode < 16 → length mask = 4%nat → blen payload <= max → blen payload < 2 ^ 32 →
  parse_frame max (server_frame opcode payload ++ rest) = Frame opcode payload rest ∧
  parse_frame max (client_frame opcode mask payload ++ rest) = Frame opcode payload rest.
Proof.
  intros Hop Hmask Hmax Hlen. destruct (header_length opcode (blen payload)) as (l7 & ext & Hh & Hl & He); [unfold blen in *; lia|].
  destruct (mask_bit l7 Hl) as (H1 & H2 & H3 & H4). unfold server_frame, client_frame. rewrite Hh. cbn [masked_header].
  rewrite <- !app_assoc. cbn [app]. split.
  - rewrite <- (app_nil_l (payload ++ rest)), (parse_known max _ l7 ext [] payload rest); rewrite ?H1, ?H2; [by rewrite land_opcode|apply He|done|done].
  - rewrite (parse_known max _ (Z.lor l7 128) ext mask (unmask mask payload) rest).
    + rewrite H4, land_opcode by done. cbn. by rewrite unmask_twice.
    + rewrite H3. unfold blen at 1, unmask at 2. rewrite length_imap. apply He.
    + unfold blen, unmask. by rewrite length_imap.
    + rewrite H4. unfold blen. by rewrite Hmask.
Qed.

(** ** What a connection keeps and touches *)
Lemma handle_frame_max c op payload s : maxPayload (handle_frame c op payload s).1 = maxPayload s.
Proof.
  unfold handle_frame, fail, drop_client. repeat (case_match; try done).
Qed.
Lemma consume_rest c : ∀ n s buf,
  bytes buf → (length buf ≤ n)%nat → 0 <= maxPayload s →
  parse_frame (maxPayload s) (consume_loop n c s buf).2 = Incomplete.
Proof.
  induction n as [|n IH]; intros s buf Hb Hn Hm; cbn [consume_loop].
  - by destruct buf; [|cbn in Hn; lia].
  - destruct (parse_frame _ buf) as [|code|op payload rest] eqn:Hp; [done..|].
    apply parse_frame_shrinks in Hp as [Hl Hr]; [|done]. pose proof (handle_frame_max c op payload s) as Hk.
    destruct (handle_frame c op payload s) as [s' []]; [|done]. cbn in Hk. rewrite <- Hk in *. apply IH; [done|lia|done].
Qed.
Lemma incomplete_short max buf : bytes buf → 0 <= max → parse_frame max buf = Incomplete → blen buf < 14 + max.
Proof.
  intros Hb Hmax. unfold parse_frame. destruct (Z.ltb_spec (blen buf) 2) as [|Hl]; [lia|].
  destruct (extended_length buf _) as [[u|[len off]]|] eqn:He; [done| |].
  - apply extended_length_bounds in He as (Hlen & Hoff & Hle); [|done..]. destruct (Z.ltb_spec max len); [done|].
    destruct (Z.ltb_spec (blen buf) (off + (if negb (Z.land (byte_at buf 1) 128 =? 0) then 4 else 0) + len)); [|done].
    assert ((if negb (Z.land (byte_at buf 1) 128 =? 0) then 4 else 0) <= 4) by (case_match; lia). lia.
  - unfold extended_length in He. destruct (_ =? 126); [destruct (Z.ltb_spec (blen buf) 4); [lia|done]|].
    destruct (_ =? 127); [|done]. destruct (Z.ltb_spec (blen buf) 10); [lia|]. by destruct (negb _).
Qed.

Lemma consume_bytes c n : ∀ s buf, bytes buf → bytes (consume_loop n c s buf).2.
Proof.
  induction n as [|n IH]; intros s buf Hb; cbn [consume_loop]; [done|].
  destruct (parse_frame _ buf) as [|code|op payload rest] eqn:Hp; [done|constructor|].
  apply parse_frame_shrinks in Hp as [_ Hr]; [|done]. destruct (handle_frame c op payload s) as [s' []]; [by apply IH|constructor].
Qed.

(** the memory a connection holds is bounded.  Whatever arrives, in chunks of any
    size, the bytes kept for the next chunk are fewer than the limit on a payload
    and the longest header, and no frame that could be read is among them. *)
Theorem kept_bytes_bounded (c : WsClient) (s : WsServer) (buffer chunk : list Z) :
  bytes buffer → bytes chunk → 0 <= maxPayload s → socket c ∉ destroyed s →
  let kept := (on_data c (s, buffer) chunk).2 in
  blen kept < 14 + maxPayload s ∧ parse_frame (maxPayload s) kept = Incomplete.
Proof.
  intros Hb Hc Hm Ho. unfold on_data. cbn [fst snd]. rewrite bool_decide_false by done. unfold consumeFrames. cbv zeta.
  assert (bytes (buffer ++ chunk)) as Hbytes by (by apply Forall_app).
  pose proof (consume_rest c _ s (buffer ++ chunk) Hbytes ltac:(done) Hm) as Hi.
  split; [|exact Hi]. apply incomplete_short; [|done..]. by apply consume_bytes.
Qed.

(** The socket, the registration and the events of one client. *)
Definition about (c : WsClient) (e : ws_event) : Prop := match e with connection d | message d _ | binary d _ | closed d => d = c end.
Record own (c : WsClient) (s s' : WsServer) : Prop := {
  own_written : ∃ w, written s' = written s ++ w ∧ Forall (λ x, x.1 = socket c) w;
  own_emitted : ∃ e, emitted s' = emitted s ++ e ∧ Forall (about c) e;
  own_destroyed : ∃ d, destroyed s' = destroyed s ++ d ∧ Forall (λ k, k = socket c) d;
  own_clients : ∀ i, i ≠ id c → map_get i (clients s') = map_get i (clients s) }.
#[export] Instance own_preorder c : PreOrder (own c).
Proof.
  split.
  - intros s. split; [exists []..|done]; by rewrite app_nil_r.
  - intros s1 s2 s3 [(w & Hw & Fw) (e & He & Fe) (d & Hd & Fd) Hc] [(w' & Hw' & Fw') (e' & He' & Fe') (d' & Hd' & Fd') Hc'].
    split.
    + exists (w ++ w'). rewrite Hw', Hw, app_assoc. split; [done|by apply Forall_app].
    + exists (e ++ e'). rewrite He', He, app_assoc. split; [done|by apply Forall_app].
    + exists (d ++ d'). rewrite Hd', Hd, app_assoc. split; [done|by apply Forall_app].
    + intros i Hi. by rewrite Hc', Hc.
Qed.
Lemma own_write c b s : own c s (write (socket c) b s).
Proof. split; [by exists [(socket c, b)]; split; [|repeat constructor]|exists []; by rewrite app_nil_r..|done]. Qed.
Lemma own_emit c e s : about c e → own c s (emit e s).
Proof. intros He. split; [exists []; by rewrite app_nil_r|by exists [e]; split; [|repeat constructor]|exists []; by rewrite app_nil_r|done]. Qed.
Lemma own_frame c op payload s : own c s (writeFrame (socket c) op payload s).
Proof. etrans; apply own_write. Qed.
Lemma own_drop c s : own c s (drop_client c s).
Proof.
  unfold drop_client. destruct (map_has _ _); [|done]. split; cbn.
  - exists []. by rewrite app_nil_r.
  - exists [closed c]. by split; [|repeat constructor].
  - exists [socket c]. by split; [|repeat constructor].
  - intros i Hi. rewrite map_get_delete. destruct (String.eqb_spec (id c) i); [congruence|done].
Qed.
Lemma own_fail c code s : own c s (fail c code s).
Proof. etrans; [apply own_frame|apply own_drop]. Qed.
Lemma own_handle c op payload s : own c s (handle_frame c op payload s).1.
Proof.
  unfold handle_frame. repeat case_match; cbn; try done; auto using own_emit, own_frame, own_drop, own_fail.
  all: by apply own_emit.
Qed.
Lemma own_consume c n : ∀ s buf, own c s (consume_loop n c s buf).1.
Proof.
  induction n as [|n IH]; intros s buf; cbn [consume_loop]; [done|]. case_match; [done|apply own_fail|].
  pose proof (own_handle c opcode payload s) as Ho. destruct (handle_frame c opcode payload s) as [s' []]; [|done].
  etrans; [exact Ho|apply IH].
Qed.

(** a connection touches nothing of another.  Whatever bytes a client sends, the
    server writes to and closes no socket but the client's own, emits events of no
    other client, and leaves every other registration. *)
Theorem data_stays_within_connection (c : WsClient) (x : WsServer * list Z) (chunk : list Z) :
  own c x.1 (on_data c x chunk).1.
Proof. unfold on_data. case_match; [done|apply own_consume]. Qed.
End server.
