(* ===== verification/Secrets.v ===== *)
(** * Secret providers

    [packages/core/src/secretProvider.ts]: secrets from the environment, from mounted
    files, from HashiCorp Vault, from AWS Secrets Manager, and from a chain of them.
    The file system and the network are parameters that act on a state of their own;
    so are SHA-256, HMAC and the text of a date.  A timeout is an exception of the
    network. *)

From S2P Require Export Effects.
From S2P Require Export Federation.
From S2P Require Import WebSocket.
From Stdlib Require Import Ascii.

(** ** Texts *)
(** [s.split('/')]. *)
Fixpoint split_slash (s : string) : list string :=
  match s with
  | EmptyString => [""]
  | String c s =>
    if Ascii.eqb c "/" then "" :: split_slash s
    else match split_slash s with x :: l => String c x :: l | [] => [String c ""] end
  end.
Definition join_slash (l : list string) : string := String.concat "/" l.
Definition in_range (lo hi : nat) (c : ascii) : bool := ((lo <=? nat_of_ascii c) && (nat_of_ascii c <=? hi))%nat.
(** [/[A-Za-z0-9_.-]/]. *)
Definition name_char (c : ascii) : bool :=
  in_range 65 90 c || in_range 97 122 c || in_range 48 57 c || Ascii.eqb c "_" || Ascii.eqb c "." || Ascii.eqb c "-".
Fixpoint every_char (f : ascii → bool) (s : string) : bool :=
  match s with EmptyString => true | String c s => f c && every_char f s end.
(** [s.replace(/^\/+/, '')] and [s.replace(/\/+$/, '')]. *)
Fixpoint drop_slashes (s : string) : string :=
  match s with String c r => if Ascii.eqb c "/" then drop_slashes r else s | EmptyString => EmptyString end.
Fixpoint strip_slashes (s : string) : string :=
  match s with
  | EmptyString => EmptyString
  | String c s => match strip_slashes s with
                  | EmptyString => if Ascii.eqb c "/" then EmptyString else String c EmptyString
                  | t => String c t
                  end
  end.
Fixpoint ends_with (p s : string) : bool :=
  String.eqb p s || match s with String _ r => ends_with p r | EmptyString => false end.
(** [encodeURIComponent] of a text given by its bytes. *)
Definition unreserved (c : ascii) : bool :=
  name_char c || Ascii.eqb c "!" || Ascii.eqb c "~" || Ascii.eqb c "*" || Ascii.eqb c "'" || Ascii.eqb c "(" || Ascii.eqb c ")".
Fixpoint encode_component (s : string) : string :=
  match s with
  | EmptyString => EmptyString
  | String c s => (if unreserved c then String c "" else String "%" (js_upper (to_hex (String c "")))) +:+ encode_component s
  end.
(** The path of a URL as [fetch] sends it: the URL parser resolves the segments [.]
    and [..]; [seen] is what was read, the last segment first. *)
Fixpoint resolve (seen path : list string) : list string :=
  match path with
  | [] => rev seen
  | x :: path =>
    if String.eqb x ".." then match path with [] => rev ("" :: tail seen) | _ => resolve (tail seen) path end
    else if String.eqb x "." then match path with [] => rev ("" :: seen) | _ => resolve seen path end
    else resolve (x :: seen) path
  end.

(** The order of [sort] without a comparison. *)
Definition string_le (a b : string) : Prop := String.leb a b = true.
#[export] Instance string_le_dec : RelDecision string_le := λ a b, bool_eq_dec (String.leb a b) true.

(** ** The outside *)
Record Request := mkRequest {
  rq_url : string; rq_method : string; rq_headers : list (string * string); rq_body : option string }.
(** The status of an answer, and what reading its body as JSON gives. *)
Record Answer := mkAnswer { an_status : Z; an_json : exn + json }.
Definition answer_ok (a : Answer) : bool := (200 <=? an_status a) && (an_status a <=? 299).
Inductive read_failure := ENOENT | ReadFailed (e : exn).

(** The state: the token of the Vault provider, and the rest of the world. *)
Record SecretState (W : Type) := mkSecretState { cachedToken : option json; outside : W }.
Arguments mkSecretState {W}.
Arguments cachedToken {W}.
Arguments outside {W}.

Section secrets.
Context {W : Type} (env : string → option string)
  (readFile : string → W → W * (read_failure + string))
  (fetch : Request → W → W * (exn + Answer))
  (clock : W → Z) (toISOString : Z → string)
  (sha256 : string → string) (hmac_sha256 : string → string → string).
Notation M := (prog (SecretState W)).

Definition on_outside {A} (f : W → W * A) : M A :=
  Atom (λ s, let '(w, r) := f (outside s) in (mkSecretState (cachedToken s) w, r)) Ret.
Definition fetched (r : Request) : M Answer :=
  a ← on_outside (fetch r);
  match a with inr a => mret a | inl e => Throw e end.
Definition cache_token (t : option json) : M () := Atom (λ s, (mkSecretState t (outside s), tt)) Ret.
Definition cached : M (option json) := Atom (λ s, (s, cachedToken s)) Ret.
Definition json_of (a : Answer) : M json := match an_json a with inr j => mret j | inl e => Throw e end.
(** [v.k]. *)
Definition property (v : json) (k : string) : M (option json) :=
  match get_prop v k with inr x => mret x | inl _ => Throw (JsError "Cannot read properties of null") end.

(** ** The interface *)
Record SecretProvider := mkSecretProvider { getOptionalSecret : string → M (option string) }.
Definition SecretNotFoundError (name : string) : exn :=
  JsError ("Required secret " +:+ quoted name +:+ " was not found").
(** The [getSecret] of every provider but the chain. *)
Definition getSecret (p : SecretProvider) (name : string) : M string :=
  value ← getOptionalSecret p name;
  match value with Some v => mret v | None => Throw (SecretNotFoundError name) end.

(** *** The environment *)
Definition getSecretSync (name : string) : option string := if truthy (env name) then env name else None.
Definition EnvSecretProvider : SecretProvider := mkSecretProvider (λ name, mret (getSecretSync name)).

(** *** Files *)
Definition file_name_ok (name : string) : bool :=
  negb (String.eqb name "") && every_char name_char name && negb (String.eqb name ".") && negb (String.eqb name "..").
Definition invalid_name (name : string) : exn := JsError ("Invalid secret name " +:+ quoted name).
Definition file_getOptionalSecret (directory name : string) : M (option string) :=
  throw_if (negb (file_name_ok name)) (invalid_name name) ;;
  content ← on_outside (readFile (directory +:+ "/" +:+ name));
  match content with
  | inr c => mret (if String.eqb (js_trim c) "" then None else Some (js_trim c))
  | inl ENOENT => mret None
  | inl (ReadFailed e) => Throw e
  end.
Definition FileSecretProvider (directory : string) : SecretProvider := mkSecretProvider (file_getOptionalSecret directory).

(** *** The chain *)
Definition chain_getOptionalSecret (providers : list SecretProvider) (name : string) : M (option string) :=
  for_return providers (λ p, getOptionalSecret p name).
Definition chain_getSecret (providers : list SecretProvider) (name : string) : M string :=
  r ← for_return providers (λ p, getOptionalSecret p name);
  match r with Some v => mret v | None => Throw (SecretNotFoundError name) end.
Definition NO_PROVIDERS : exn := JsError "ChainSecretProvider requires at least one provider".
Definition ChainSecretProvider (providers : list SecretProvider) : exn + SecretProvider :=
  match providers with [] => inl NO_PROVIDERS | _ => inr (mkSecretProvider (chain_getOptionalSecret providers)) end.

(** *** Vault *)
Record VaultSecretProviderOptions := mkVaultSecretProviderOptions {
  va_baseUrl : string; va_token : option string; va_roleId : option string; va_secretId : option string;
  va_mountPath : option string; va_kvVersion : option Z }.
Record VaultSecretProvider := mkVaultSecretProvider {
  vt_baseUrl : string; vt_mountPath : string; vt_kvVersion : Z; vt_roleId : option string; vt_secretId : option string }.
(** The constructor; the token it caches is the second component. *)
Definition new_vault (o : VaultSecretProviderOptions) : exn + (VaultSecretProvider * option json) :=
  if String.eqb (va_baseUrl o) "" then inl (JsError "VaultSecretProvider requires a baseUrl")
  else inr (mkVaultSecretProvider (strip_slashes (va_baseUrl o)) (strip_slashes (drop_slashes (nullish (va_mountPath o) "secret")))
              (nullish (va_kvVersion o) 2) (va_roleId o) (va_secretId o), option_map JStr (va_token o)).
Definition login_request (v : VaultSecretProvider) (role secret : string) : Request :=
  mkRequest (vt_baseUrl v +:+ "/v1/auth/approle/login") "POST" [("Content-Type", "application/json")]%string
    (Some (stringify (JObj [("role_id", JStr role); ("secret_id", JStr secret)]%string))).
Definition js_truthy (v : option json) : bool :=
  match v with
  | None | Some JNull | Some (JBool false) => false
  | Some (JStr s) => negb (String.eqb s "")
  | Some (JNum n) => negb (n =? 0)
  | _ => true
  end.
(** [v?.k]. *)
Definition optional_property (v : option json) (k : string) : M (option json) :=
  match v with None | Some JNull => mret None | Some v => property v k end.
Definition ensureToken (v : VaultSecretProvider) : M (option json) :=
  t ← cached;
  if js_truthy t then mret t
  else if truthy (vt_roleId v) && truthy (vt_secretId v) then
    res ← fetched (login_request v (nullish (vt_roleId v) "") (nullish (vt_secretId v) ""));
    throw_if (negb (answer_ok res)) (JsError ("Vault AppRole login failed (" +:+ js_String (an_status res) +:+ ")")) ;;
    body ← json_of res;
    auth ← property body "auth";
    token ← optional_property auth "client_token";
    throw_if (negb (js_truthy token)) (JsError "Vault AppRole login returned no client token") ;;
    cache_token token ;;
    mret token
  else Throw (JsError "VaultSecretProvider requires a token or AppRole credentials").
Definition vault_name_ok (name : string) : bool :=
  negb (String.eqb name "") && every_char (λ c, name_char c || Ascii.eqb c "/") name &&
  negb (is_prefix "/" name) && negb (ends_with "/" name).
Definition data_path (v : VaultSecretProvider) (name : string) : string :=
  let encoded := join_slash (map encode_component (split_slash name)) in
  if vt_kvVersion v =? 2 then vt_mountPath v +:+ "/data/" +:+ encoded else vt_mountPath v +:+ "/" +:+ encoded.
Definition read_request (v : VaultSecretProvider) (token : option json) (name : string) : Request :=
  mkRequest (vt_baseUrl v +:+ "/v1/" +:+ data_path v name) "GET" [("X-Vault-Token"%string, js_string_of token)] None.

(** [Object.entries(v)]. *)
Fixpoint char_texts (s : string) : list string :=
  match s with EmptyString => [] | String c s => String c "" :: char_texts s end.
Definition indexed {A} (l : list A) : list (string * A) := imap (λ i x, (js_String (Z.of_nat i), x)) l.
Definition js_entries (v : json) : list (string * json) :=
  match v with
  | JObj l => foldl (λ o kv, map_set kv.1 kv.2 o) [] l
  | JArr l => indexed l
  | JStr s => indexed (map JStr (char_texts s))
  | _ => []
  end.
Definition string_at (k : string) (v : json) : option string :=
  match map_get k (js_entries v) with Some (JStr s) => Some s | _ => None end.
Definition unexpected_shape (name : string) : exn :=
  JsError ("Vault secret " +:+ quoted name +:+ " has an unexpected shape; expose a string field (e.g. " +:+ quoted "value" +:+ ")").
Definition resolveValue (v : json) (lastSegment name : string) : exn + option string :=
  match string_at lastSegment v with
  | Some s => inr (Some s)
  | None =>
    match string_at "value" v with
    | Some s => inr (Some s)
    | None =>
      match string_at "secret" v with
      | Some s => inr (Some s)
      | None =>
        match js_entries v with
        | [(_, JStr s)] => inr (Some s)
        | [] => inr None
        | _ => inl (unexpected_shape name)
        end
      end
    end
  end.
(** [x ?? {}]. *)
Definition or_empty (v : option json) : json := match v with None | Some JNull => JObj [] | Some v => v end.
Definition secret_map (v : VaultSecretProvider) (body : json) : M json :=
  data ← property body "data";
  if vt_kvVersion v =? 2 then inner ← optional_property data "data"; mret (or_empty inner) else mret (or_empty data).
Definition vault_answer (v : VaultSecretProvider) (name : string) (res : Answer) : M (option string) :=
  if an_status res =? 404 then mret None
  else
    throw_if (negb (answer_ok res)) (JsError ("Vault read failed (" +:+ js_String (an_status res) +:+ ")")) ;;
    body ← json_of res;
    map ← secret_map v body;
    match resolveValue map (List.last (split_slash name) name) name with inr r => mret r | inl e => Throw e end.
Definition invalid_vault_name (name : string) : exn := JsError ("Invalid Vault secret name " +:+ quoted name).
Definition vault_getOptionalSecret (v : VaultSecretProvider) (name : string) : M (option string) :=
  throw_if (negb (vault_name_ok name)) (invalid_vault_name name) ;;
  token ← ensureToken v;
  res ← fetched (read_request v token name);
  vault_answer v name res.
Definition vault_provider (v : VaultSecretProvider) : SecretProvider := mkSecretProvider (vault_getOptionalSecret v).

(** *** AWS Secrets Manager *)
Record AwsSecretsManagerOptions := mkAwsSecretsManagerOptions {
  sm_region : option string; sm_accessKeyId : option string; sm_secretAccessKey : option string;
  sm_sessionToken : option string; sm_endpoint : option string }.
Record AwsSecretsManagerProvider := mkAwsSecretsManagerProvider {
  ap_region : string; ap_accessKeyId : string; ap_secretAccessKey : string; ap_sessionToken : option string; ap_endpoint : string }.
(** [a || b]. *)
Definition either (a b : option string) : option string := if truthy a then a else b.
Definition or_env (o : option string) (name : string) : option string := match o with Some s => Some s | None => env name end.
Definition NO_ACCESS_KEYS : exn :=
  JsError "AwsSecretsManagerProvider requires access keys (options or AWS_ACCESS_KEY_ID/AWS_SECRET_ACCESS_KEY)".
Definition new_aws (o : AwsSecretsManagerOptions) : exn + AwsSecretsManagerProvider :=
  let region := nullish (either (sm_region o) (either (env "AWS_REGION") (either (env "AWS_DEFAULT_REGION") (Some "us-east-1"%string)))) "" in
  let accessKeyId := nullish (or_env (sm_accessKeyId o) "AWS_ACCESS_KEY_ID") "" in
  let secretAccessKey := nullish (or_env (sm_secretAccessKey o) "AWS_SECRET_ACCESS_KEY") "" in
  if String.eqb accessKeyId "" || String.eqb secretAccessKey "" then inl NO_ACCESS_KEYS
  else inr (mkAwsSecretsManagerProvider region accessKeyId secretAccessKey (or_env (sm_sessionToken o) "AWS_SESSION_TOKEN")
              (strip_slashes (nullish (sm_endpoint o) ("https://secretsmanager." +:+ region +:+ ".amazonaws.com")))).

(** [iso.replace(/[:-]|\.\d{3}/g, '')]. *)
Fixpoint compact_date (s : string) : string :=
  match s with
  | EmptyString => EmptyString
  | String c r =>
    if Ascii.eqb c ":" || Ascii.eqb c "-" then compact_date r
    else match r with
         | String x (String y (String z r')) =>
           if Ascii.eqb c "." && is_digit x && is_digit y && is_digit z then compact_date r' else String c (compact_date r)
         | _ => String c (compact_date r)
         end
  end.
(** [value.replace(/\s+/g, ' ')]. *)
Fixpoint squeeze (spaced : bool) (s : string) : string :=
  match s with
  | EmptyString => EmptyString
  | String c r => if js_is_space c then if spaced then squeeze true r else String " " (squeeze true r) else String c (squeeze false r)
  end.
Definition trimAll (value : string) : string := js_trim (squeeze false value).
(** [endpoint.replace(/^https?:\/\//, '')]. *)
Definition without_scheme (url : string) : string :=
  if is_prefix "http://" url then String.substring 7 (String.length url - 7) url
  else if is_prefix "https://" url then String.substring 8 (String.length url - 8) url
  else url.
Definition LF : string := String "010" "".
Definition TARGET : string := "secretsmanager.GetSecretValue".
Definition signed_headers (p : AwsSecretsManagerProvider) (target amzDate : string) : list (string * string) :=
  app [("content-type", "application/x-amz-json-1.1"); ("host", without_scheme (ap_endpoint p)); ("x-amz-date", amzDate);
       ("x-amz-target", target)]%string
      (match ap_sessionToken p with Some t => if String.eqb t "" then [] else [("x-amz-security-token"%string, t)] | None => [] end).
Definition canonical_request (headers : list (string * string)) (names : list string) (payloadHash : string) : string :=
  String.concat LF ["POST"; "/"; ""; String.concat "" (map (λ h, h +:+ ":" +:+ trimAll (nullish (map_get h headers) "undefined") +:+ LF) names);
                    String.concat ";" names; payloadHash]%string.
Definition aws_sign (p : AwsSecretsManagerProvider) (target body amzDate : string) : string :=
  let dateStamp := String.substring 0 8 amzDate in
  let scope := dateStamp +:+ "/" +:+ ap_region p +:+ "/secretsmanager/aws4_request" in
  let headers := signed_headers p target amzDate in
  let names := merge_sort string_le (map fst headers) in
  let request := canonical_request headers names (to_hex (sha256 body)) in
  let stringToSign := String.concat LF ["AWS4-HMAC-SHA256"%string; amzDate; scope; to_hex (sha256 request)] in
  let dateKey := hmac_sha256 ("AWS4" +:+ ap_secretAccessKey p) dateStamp in
  let regionKey := hmac_sha256 dateKey (ap_region p) in
  let serviceKey := hmac_sha256 regionKey "secretsmanager" in
  let signingKey := hmac_sha256 serviceKey "aws4_request" in
  let signature := to_hex (hmac_sha256 signingKey stringToSign) in
  "AWS4-HMAC-SHA256 Credential=" +:+ ap_accessKeyId p +:+ "/" +:+ scope +:+ ", SignedHeaders=" +:+ String.concat ";" names +:+
  ", Signature=" +:+ signature.
Definition aws_request (p : AwsSecretsManagerProvider) (name amzDate : string) : Request :=
  let body := stringify (JObj [("SecretId"%string, JStr name)]) in
  mkRequest (ap_endpoint p) "POST"
    (app [("Content-Type", "application/x-amz-json-1.1"); ("X-Amz-Target", TARGET); ("X-Amz-Date", amzDate)]%string
       (app (match ap_sessionToken p with Some t => if String.eqb t "" then [] else [("X-Amz-Security-Token"%string, t)] | None => [] end)
            [("Authorization"%string, aws_sign p TARGET body amzDate)]))
    (Some body).
Definition aws_payload (payload : json) : M (option string) :=
  plain ← property payload "SecretString";
  match plain with
  | Some (JStr s) => mret (Some s)
  | _ =>
    binary ← property payload "SecretBinary";
    match binary with
    | Some (JStr b) => mret (Some (WebSocket.toString (bytes_of (from_base64 b))))
    | _ => mret None
    end
  end.
Definition aws_failed (status : Z) (kind : string) : exn :=
  JsError ("AWS Secrets Manager request failed (" +:+ js_String status +:+ kind +:+ ")").
Definition aws_refusal (res : Answer) : M (option string) :=
  kind ← property (match an_json res with inr j => j | inl _ => JObj [] end) "__type";
  match kind with
  | None | Some JNull => Throw (aws_failed (an_status res) "")
  | Some (JStr t) =>
    if ends_with "ResourceNotFoundException" t then mret None
    else Throw (aws_failed (an_status res) (if String.eqb t "" then "" else " " +:+ t))
  | Some _ => Throw (JsError "errorBody.__type?.endsWith is not a function")
  end.
Definition aws_getOptionalSecret (p : AwsSecretsManagerProvider) (name : string) : M (option string) :=
  t ← on_outside (λ w, (w, clock w));
  res ← fetched (aws_request p name (compact_date (toISOString t)));
  if answer_ok res then payload ← json_of res; aws_payload payload else aws_refusal res.
Definition aws_provider (p : AwsSecretsManagerProvider) : SecretProvider := mkSecretProvider (aws_getOptionalSecret p).

(** *** The factory *)
Record SecretProviderConfig := mkSecretProviderConfig {
  sc_env : option bool; sc_secretFileDirectory : option string;
  sc_vault : option VaultSecretProviderOptions; sc_aws : option AwsSecretsManagerOptions }.
Definition createSecretProvider (c : SecretProviderConfig) : exn + (SecretProvider * option json) :=
  let files := if truthy (sc_secretFileDirectory c) then [FileSecretProvider (nullish (sc_secretFileDirectory c) "")] else [] in
  match match sc_vault c with None => inr ([], None) | Some o => match new_vault o with inl e => inl e | inr (v, t) => inr ([vault_provider v], t) end end with
  | inl e => inl e
  | inr (vaults, t) =>
    match match sc_aws c with None => inr [] | Some o => match new_aws o with inl e => inl e | inr p => inr [aws_provider p] end end with
    | inl e => inl e
    | inr clouds =>
      match ChainSecretProvider (files ++ vaults ++ clouds ++ if bool_decide (sc_env c = Some false) then [] else [EnvSecretProvider]) with
      | inl e => inl e
      | inr p => inr (p, t)
      end
    end
  end.
End secrets.

(** ** Segments of a path *)
Lemma split_slash_ne s : split_slash s ≠ [].
Proof. destruct s as [|c s]; cbn; [done|]. destruct (Ascii.eqb c "/"); [done|]. by destruct (split_slash s). Qed.
Lemma join_split s : join_slash (split_slash s) = s.
Proof.
  unfold join_slash. induction s as [|c s IH]; [done|]. cbn [split_slash]. pose proof (split_slash_ne s) as Hne.
  destruct (Ascii.eqb_spec c "/") as [->|Hc]; destruct (split_slash s) as [|x l] eqn:Hs; try done; [cbn; by rewrite <- IH|].
  rewrite <- IH. destruct l; reflexivity.
Qed.
Lemma split_app a b : split_slash (a +:+ "/" +:+ b) = split_slash a ++ split_slash b.
Proof.
  induction a as [|c a IH]; [reflexivity|]. change (String c a +:+ "/" +:+ b) with (String c (a +:+ "/" +:+ b)).
  cbn [split_slash]. rewrite IH.
  destruct (Ascii.eqb c "/"); [done|]. pose proof (split_slash_ne a). by destruct (split_slash a).
Qed.
Lemma every_char_app f a b : every_char f (a +:+ b) = every_char f a && every_char f b.
Proof. induction a as [|c a IH]; [done|]. change (String c a +:+ b) with (String c (a +:+ b)). cbn [every_char]. by rewrite IH, andb_assoc. Qed.
Lemma every_char_mono f g s : (∀ c, f c = true → g c = true) → every_char f s = true → every_char g s = true.
Proof. intros Hfg. induction s as [|c s IH]; cbn; [done|]. intros [Hc Hs]%andb_true_iff. rewrite IH, (Hfg c) by done. done. Qed.
Lemma split_chars f s : every_char (λ c, f c || Ascii.eqb c "/") s = true → Forall (λ x, every_char f x = true) (split_slash s).
Proof.
  induction s as [|c s IH]; cbn; [by repeat constructor|]. intros [Hc Hs]%andb_true_iff. specialize (IH Hs).
  destruct (Ascii.eqb c "/"); [by constructor|]. rewrite orb_false_r in Hc. destruct (split_slash s) as [|x l]; [repeat constructor; cbn; by rewrite Hc|].
  apply Forall_cons in IH as [Hx Hl]. constructor; [|done]. cbn. by rewrite Hc.
Qed.
Lemma split_slashless s : every_char name_char s = true → split_slash s = [s].
Proof.
  induction s as [|c s IH]; [done|]. cbn. intros [Hc Hs]%andb_true_iff. rewrite IH by done.
  destruct (Ascii.eqb_spec c "/") as [->|]; [done|reflexivity].
Qed.
Lemma encode_plain s : every_char name_char s = true → encode_component s = s.
Proof.
  induction s as [|c s IH]; [done|]. cbn. intros [Hc Hs]%andb_true_iff. unfold unreserved. rewrite Hc. cbn. by rewrite IH.
Qed.

(** A segment the URL parser leaves alone, and the parser on such segments. *)
Definition plain_segment (x : string) : Prop := x ≠ "." ∧ x ≠ "..".
Lemma resolve_plain seen l path : Forall plain_segment l → resolve seen (l ++ path) = resolve (rev l ++ seen) path.
Proof.
  revert seen. induction l as [|x l IH]; intros seen; [reflexivity|]. intros [[H1 H2] Hl]%Forall_cons. cbn [app resolve].
  rewrite (proj2 (String.eqb_neq x "..")), (proj2 (String.eqb_neq x ".")) by done. rewrite IH by done.
  cbn [rev]. by rewrite <- app_assoc.
Qed.
Lemma resolve_up n seen path : path ≠ [] → resolve seen (replicate n ".."%string ++ path) = resolve (drop n seen) path.
Proof.
  intros Hp. revert seen. induction n as [|n IH]; intros seen; [reflexivity|]. cbn [replicate app resolve]. rewrite String.eqb_refl.
  destruct (replicate n ".."%string ++ path) as [|y l] eqn:Hl; [apply app_eq_nil in Hl as [_ ?]; done|]. rewrite IH.
  destruct seen as [|z seen]; [|done]. cbn [tail]. by rewrite !drop_nil.
Qed.

(** A name [vault_name_ok] accepts names the path it looks like. *)
Lemma data_path_ok v name :
  vault_name_ok name = true →
  data_path v name = (if vt_kvVersion v =? 2 then vt_mountPath v +:+ "/data/" else vt_mountPath v +:+ "/") +:+ name.
Proof.
  unfold vault_name_ok. intros Hok. bool_to_prop. assert (map encode_component (split_slash name) = split_slash name) as He.
  { match goal with H : every_char _ name = true |- _ => apply split_chars in H as Hf end. clear -Hf.
    induction Hf as [|x l Hx Hl IH]; [done|]. cbn. by rewrite IH, encode_plain. }
  unfold data_path. cbv zeta. rewrite He, join_split. destruct (vt_kvVersion v =? 2); by rewrite str_app_assoc.
Qed.

(** ** What the providers do *)
Section behaviour.
Context {W : Type} (env : string → option string)
  (readFile : string → W → W * (read_failure + string))
  (fetch : Request → W → W * (exn + Answer))
  (clock : W → Z) (toISOString : Z → string)
  (sha256 : string → string) (hmac_sha256 : string → string → string).
Notation M := (prog (SecretState W)).

(** Providers asked in turn, each of which has nothing. *)
Fixpoint passed_over (l : list (@SecretProvider W)) (name : string) (s s' : SecretState W) : Prop :=
  match l with
  | [] => s' = s
  | p :: l => ∃ s1, run (getOptionalSecret p name) s = (s1, inr None) ∧ passed_over l name s1 s'
  end.

(** C25: A chain answers with its first provider that does not answer that it has
    nothing, be it with a secret or with an exception, and asks none of those behind it;
    it has nothing exactly when no provider has anything; and the required secret is the
    optional one, or the error that names it. *)
Theorem chain_answers_first providers name (s s' : SecretState W) r :
  (run (chain_getOptionalSecret providers name) s = (s', r) ↔
   (r = inr None ∧ passed_over providers name s s') ∨
   (r ≠ inr None ∧ ∃ l1 p l2 s1, providers = l1 ++ p :: l2 ∧ passed_over l1 name s s1 ∧ run (getOptionalSecret p name) s1 = (s', r))) ∧
  run (chain_getSecret providers name) s =
    (let '(w, r) := run (chain_getOptionalSecret providers name) s in
     (w, match r with inr (Some v) => inr v | inr None => inl (SecretNotFoundError name) | inl e => inl e end)).
Proof.
  split.
  - unfold chain_getOptionalSecret. revert s. induction providers as [|p l IH]; intros s.
    + cbn. split; [intros [= <- <-]; by left|]. intros [[-> ->]|(_ & l1 & q & l2 & s1 & He & _)]; [done|by destruct l1].
    + cbn [for_return]. rewrite run_bind. destruct (run (getOptionalSecret p name) s) as [s1 [e|[v|]]] eqn:Hp.
      * split; [intros [= <- <-]; right; split; [done|]; by exists [], p, l, s|].
        intros [[-> (s2 & H & _)]|(_ & l1 & q & l2 & s2 & He & Hl & Hq)]; [congruence|].
        destruct l1 as [|x l1]; injection He as -> ->; [cbn in Hl; congruence|destruct Hl as (s3 & H & _); congruence].
      * split; [intros [= <- <-]; right; split; [done|]; by exists [], p, l, s|].
        intros [[-> (s2 & H & _)]|(_ & l1 & q & l2 & s2 & He & Hl & Hq)]; [congruence|].
        destruct l1 as [|x l1]; injection He as -> ->; [cbn in Hl; subst s2; rewrite Hp in Hq; by injection Hq as -> <-|].
        destruct Hl as (s3 & H & _). congruence.
      * rewrite IH. split.
        -- intros [[-> Hl]|(Hr & l1 & q & l2 & s2 & -> & Hl & Hq)]; [left; split; [done|]; by exists s1|].
           right. split; [done|]. exists (p :: l1), q, l2, s2. split; [done|]. split; [by exists s1|done].
        -- intros [[-> (s2 & H & Hl)]|(Hr & l1 & q & l2 & s2 & He & Hl & Hq)].
           ++ left. split; [done|]. rewrite Hp in H. by injection H as ->.
           ++ destruct l1 as [|x l1]; injection He as -> ->; [cbn in Hl; subst s2; rewrite Hp in Hq; by injection Hq as _ <-|].
              destruct Hl as (s3 & H & Hl). rewrite Hp in H. injection H as ->. right. split; [done|]. by exists l1, q, l2, s2.
  - unfold chain_getSecret, chain_getOptionalSecret. rewrite run_bind.
    by destruct (run (for_return providers _) s) as [w [e|[v|]]].
Qed.

(** A mounted secret is read from its directory and nowhere else: a name is refused
    before anything is read, or it is a single segment that is no dot segment, so that
    the path read is that of an entry of the directory whatever the directory. *)
Theorem file_secret_confined directory name (s : SecretState W) :
  run (file_getOptionalSecret readFile directory name) s =
    (if file_name_ok name then
       let '(w, c) := readFile (directory +:+ "/" +:+ name) (outside s) in
       (mkSecretState (cachedToken s) w,
        match c with
        | inr c => inr (if String.eqb (js_trim c) "" then None else Some (js_trim c))
        | inl ENOENT => inr None
        | inl (ReadFailed e) => inl e
        end)
     else (s, inl (invalid_name name))) ∧
  (file_name_ok name = true →
   split_slash (directory +:+ "/" +:+ name) = split_slash directory ++ [name] ∧
   ∀ seen, resolve seen [name] = rev (name :: seen)).
Proof.
  split.
  - unfold file_getOptionalSecret, on_outside. rewrite run_bind, run_throw_if. destruct (file_name_ok name); [|done]. cbn.
    destruct (readFile _ (outside s)) as [w [[|e]|c]]; done.
  - unfold file_name_ok. intros Hok. bool_to_prop. split; [rewrite split_app; f_equal; by apply split_slashless|].
    intros seen. cbn. by destruct (String.eqb name ".."), (String.eqb name ".").
Qed.

(** *** Vault *)
(** The name, reached from [n] levels below. *)
Fixpoint climb (n : nat) (name : string) : string := match n with O => name | S n => "../" +:+ climb n name end.
Lemma split_climb n name : split_slash (climb n name) = replicate n ".."%string ++ split_slash name.
Proof. induction n as [|n IH]; [done|]. cbn [climb]. change ("../" +:+ climb n name) with (".." +:+ "/" +:+ climb n name). by rewrite split_app, IH. Qed.
Lemma ends_with_char c s t : t ≠ "" → ends_with (String c "") (s +:+ t) = ends_with (String c "") t.
Proof.
  intros Ht. induction s as [|d s IH]; [done|]. change (String d s +:+ t) with (String d (s +:+ t)). cbn [ends_with]. rewrite IH.
  destruct (String.eqb_spec (String c "") (String d (s +:+ t))) as [He|]; [|done]. injection He as _ He. by destruct s, t.
Qed.
Lemma climb_ok n name : vault_name_ok name = true → vault_name_ok (climb n name) = true.
Proof.
  intros Hok. induction n as [|n IH]; [done|]. cbn [climb]. unfold vault_name_ok in *. bool_to_prop.
  rewrite ends_with_char by (by intros He; rewrite He in *). rewrite every_char_app. by repeat (apply andb_true_iff; split); try apply negb_true_iff.
Qed.
(** What the paths of a provider begin with. *)
Definition data_prefix (v : VaultSecretProvider) : string :=
  if vt_kvVersion v =? 2 then vt_mountPath v +:+ "/data" else vt_mountPath v.
Lemma run_vault_read v name (s : SecretState W) :
  vault_name_ok name = true → js_truthy (cachedToken s) = true →
  run (vault_getOptionalSecret fetch v name) s =
  run (fetched fetch (read_request v (cachedToken s) name) ≫= vault_answer v name) s.
Proof.
  intros Hok Ht. unfold vault_getOptionalSecret. rewrite Hok, run_bind, run_throw_if. cbn [negb]. rewrite run_bind.
  assert (run (ensureToken fetch v) s = (s, inr (cachedToken s))) as ->; [|done].
  unfold ensureToken, cached. rewrite run_bind. cbn [run]. by rewrite Ht.
Qed.

(** C31: A name of a Vault secret can leave the mount.  With enough segments [..] before
    it, a name that is accepted is accepted still, and the request that carries the
    token goes, once the URL parser has resolved the path, to that name directly under
    [/v1/], whatever the mount. *)
Theorem vault_name_leaves_mount v name (s : SecretState W) :
  vault_name_ok name = true → js_truthy (cachedToken s) = true → Forall plain_segment (split_slash (data_prefix v)) →
  let n := length (split_slash (data_prefix v)) in
  let request := read_request v (cachedToken s) (climb n name) in
  run (vault_getOptionalSecret fetch v (climb n name)) s = run (fetched fetch request ≫= vault_answer v (climb n name)) s ∧
  ∃ path, rq_url request = vt_baseUrl v +:+ "/v1/" +:+ path ∧ ∀ seen, resolve seen (split_slash path) = resolve seen (split_slash name).
Proof.
  intros Hok Ht Hp n request. split; [apply run_vault_read; [by apply climb_ok|done]|].
  exists (data_path v (climb n name)). split; [done|]. intros seen. rewrite data_path_ok by (by apply climb_ok).
  assert ((if vt_kvVersion v =? 2 then vt_mountPath v +:+ "/data/" else vt_mountPath v +:+ "/") +:+ climb n name =
          data_prefix v +:+ "/" +:+ climb n name) as ->.
  { unfold data_prefix. destruct (vt_kvVersion v =? 2); rewrite !str_app_assoc; reflexivity. }
  rewrite split_app, resolve_plain, split_climb, resolve_up by (done || apply split_slash_ne).
  unfold n. by rewrite drop_app_length' by (by rewrite length_rev).
Qed.

(** Reads one after the other, whatever they throw. *)
Fixpoint all_reads (v : VaultSecretProvider) (names : list string) : M (list (exn + option string)) :=
  match names with
  | [] => mret []
  | name :: names =>
    r ← try_catch (x ← vault_getOptionalSecret fetch v name; mret (inr x)) (λ e, mret (inl e));
    rs ← all_reads v names;
    mret (r :: rs)
  end.

(** A Vault token is never renewed.  Once a token is cached, a provider that could
    log in again does not: when the server answers that token with 403, as it does when
    its lease has ended, every read from then on fails with that answer, and the token
    stays. *)
Theorem vault_token_never_renewed v t names (s : SecretState W) :
  js_truthy (Some t) = true → cachedToken s = Some t → Forall (λ name, vault_name_ok name = true) names →
  (∀ name w, ∃ w' j, fetch (read_request v (Some t) name) w = (w', inr (mkAnswer 403 j))) →
  ∃ s', run (all_reads v names) s = (s', inr (map (λ _, inl (JsError "Vault read failed (403)")) names)) ∧ cachedToken s' = Some t.
Proof.
  intros Ht. revert s. induction names as [|name names IH]; intros s Hs Hn Hf; [by exists s|].
  apply Forall_cons in Hn as [Hok Hn]. destruct (Hf name (outside s)) as (w' & j & Hr).
  assert (run (vault_getOptionalSecret fetch v name) s = (mkSecretState (Some t) w', inl (JsError "Vault read failed (403)"))) as Hv.
  { rewrite run_vault_read by (done || by rewrite Hs). unfold fetched, on_outside. rewrite Hs, !run_bind. cbn [run]. by rewrite Hr, Hs. }
  cbn [all_reads]. rewrite run_bind, run_catch, run_bind, Hv, run_ret, run_bind.
  destruct (IH (mkSecretState (Some t) w')) as (s' & Hs' & Hc); [done..|]. rewrite Hs'. by exists s'.
Qed.

(** What AWS is asked is what was signed: the names are in order, and the canonical
    request of the signature is the one the server makes of the names and of the headers
    of the request it gets, as long as the [Host] it sees is the endpoint without its
    scheme. *)
Theorem aws_signs_what_is_sent p name amzDate (host_of : string → string) :
  host_of (ap_endpoint p) = without_scheme (ap_endpoint p) →
  let request := aws_request sha256 hmac_sha256 p name amzDate in
  let names := merge_sort string_le (map fst (signed_headers p TARGET amzDate)) in
  let received := ("host"%string, host_of (rq_url request)) :: map (λ h, (js_lower h.1, h.2)) (rq_headers request) in
  StronglySorted string_le names ∧
  canonical_request (signed_headers p TARGET amzDate) names (to_hex (sha256 (nullish (rq_body request) ""))) =
  canonical_request received names (to_hex (sha256 (nullish (rq_body request) ""))).
Proof.
  intros Hh request names received. subst request names received. unfold aws_request, signed_headers. cbn [rq_url rq_headers rq_body nullish].
  rewrite Hh. destruct (ap_sessionToken p) as [t|]; [destruct (String.eqb t "")|]; cbn [app map fst];
    (split; [repeat constructor|]); unfold canonical_request; reflexivity.
Qed.
End behaviour.
