(* ===== verification/EnvConfig.v ===== *)
(** * Configuration

    [apps/identity-server/src/config/env.ts]: the environment of the identity server,
    the checks of a production deployment, the durations and budgets, the configuration
    object and its cache; and [packages/core/src/config/env.ts], the environment of the
    core.  The schema is a parameter: what [safeParse] of the validation library gives of
    an environment, its issues or the values it read.  Numbers that are computed are
    doubles; those the schema promises to be integers are integers. *)

From S2P Require Export JsNumber.
From S2P Require Export Jwt.
From Stdlib Require Import Ascii SpecFloat.

(** ** [Number] of a text *)
Definition decimal (ds : string) : Z := nullish (js_Number ds) 0.
Definition strlen (s : string) : Z := Z.of_nat (String.length s).
(** [m] tenths raised to [e10], rounded once; beyond 1e400 and below 1e-400 nothing is left
    to round. *)
Definition scaled (negative : bool) (m : Z) (width e10 : Z) : num :=
  match m with
  | Zpos p =>
    if 400 <? e10 then S754_infinity negative
    else if width + e10 <? -400 then S754_zero negative
    else if 0 <=? e10 then num_of_Z ((if negative then -1 else 1) * m * 10 ^ e10)
    else num_div (S754_finite negative p 0) (S754_finite false (Z.to_pos (10 ^ (- e10))) 0)
  | _ => S754_zero negative
  end.
Definition exponent (s : string) : option Z :=
  match s with
  | EmptyString => Some 0
  | String c r =>
    if Ascii.eqb c "e" || Ascii.eqb c "E" then
      let '(sign, r) := match r with
                        | String "-" r => (-1, r)
                        | String "+" r => (1, r)
                        | _ => (1, r)
                        end in
      let '(ds, rest) := digits r in
      if negb (String.eqb ds "") && String.eqb rest "" then Some (sign * decimal ds) else None
    else None
  end.
Definition decimal_number (negative : bool) (s : string) : num :=
  if String.eqb s "Infinity" then S754_infinity negative
  else
    let '(whole, r) := digits s in
    let '(fraction, r) := match r with String "." r => digits r | _ => (EmptyString, r) end in
    if String.eqb whole "" && String.eqb fraction "" then S754_nan
    else match exponent r with
         | Some e => scaled negative (decimal (whole +:+ fraction)) (strlen (whole +:+ fraction)) (e - strlen fraction)
         | None => S754_nan
         end.
Fixpoint in_base (b : Z) (acc : Z) (s : string) : option Z :=
  match s with
  | EmptyString => Some acc
  | String c r => match hex_value c with
                  | Some d => if Z.of_nat d <? b then in_base b (acc * b + Z.of_nat d) r else None
                  | None => None
                  end
  end.
Definition radix (c : ascii) : option Z :=
  if Ascii.eqb c "x" || Ascii.eqb c "X" then Some 16
  else if Ascii.eqb c "o" || Ascii.eqb c "O" then Some 8
  else if Ascii.eqb c "b" || Ascii.eqb c "B" then Some 2
  else None.
Definition StringToNumber (value : string) : num :=
  let s := js_trim value in
  match s with
  | EmptyString => S754_zero false
  | String "0" (String c (String d r)) =>
    match radix c with
    | Some b => match in_base b 0 (String d r) with Some n => num_of_Z n | None => S754_nan end
    | None => decimal_number false s
    end
  | String "-" r => decimal_number true r
  | String "+" r => decimal_number false r
  | _ => decimal_number false s
  end.
Definition is_finite (a : num) : bool := match a with S754_zero _ | S754_finite _ _ _ => true | _ => false end.

(** ** The environment of the identity server *)
(** What the schema reads. *)
Record EnvConfig := mkEnvConfig {
  NODE_ENV : string; PEZHWAN_PORT : Z; PEZHWAN_BODY_LIMIT : string; PEZHWAN_ISSUER : string; PEZHWAN_TENANT_ID : string;
  PEZHWAN_APPLICATION_ID : string; PEZHWAN_MONGODB_URI : string; PEZHWAN_MONGO_POOL_SIZE : Z; PEZHWAN_MONGO_TIMEOUT_MS : Z;
  PEZHWAN_REDIS_URL : option string; PEZHWAN_ACCESS_TOKEN_TTL : string; PEZHWAN_REFRESH_TOKEN_TTL : string;
  PEZHWAN_SESSION_TTL : string; PEZHWAN_JWT_ALGORITHM : string; PEZHWAN_KEY_ENCAPSULATION_ALGORITHM : string;
  PEZHWAN_TOKEN_HASH_ALGORITHM : string; PEZHWAN_AUDIT_HASH_ALGORITHM : string; PEZHWAN_ARGON2_MEMORY_COST : Z;
  PEZHWAN_ARGON2_TIME_COST : Z; PEZHWAN_ARGON2_PARALLELISM : Z; PEZHWAN_JWKS_CACHE_TTL : Z; PEZHWAN_SIGNING_KEYS_PATH : string;
  PEZHWAN_SIGNING_KEY_ROTATION_MS : Z; PEZHWAN_MFA_ENCRYPTION_KEY : option string; PEZHWAN_COOKIE_DOMAIN : string;
  PEZHWAN_COOKIE_SECURE : bool; PEZHWAN_COOKIE_SAMESITE : string; PEZHWAN_ALLOWED_ORIGINS : string; PEZHWAN_OTP_TTL : Z;
  PEZHWAN_OTP_MAX_ATTEMPTS : Z; PEZHWAN_OTP_RESEND_COOLDOWN : Z; PEZHWAN_OTP_LENGTH : Z; PEZHWAN_OTP_EMAIL_PROVIDER : string;
  PEZHWAN_OTP_SMS_PROVIDER : string; PEZHWAN_SMTP_HOST : option string; PEZHWAN_SMTP_PORT : option Z; PEZHWAN_SMTP_SECURE : bool;
  PEZHWAN_SMTP_USER : option string; PEZHWAN_SMTP_PASS : option string; PEZHWAN_SMTP_FROM : option string;
  PEZHWAN_SENDGRID_API_KEY : option string; PEZHWAN_SENDGRID_FROM : option string; PEZHWAN_SES_REGION : option string;
  PEZHWAN_SES_ACCESS_KEY_ID : option string; PEZHWAN_SES_SECRET_ACCESS_KEY : option string; PEZHWAN_SES_FROM : option string;
  PEZHWAN_TWILIO_ACCOUNT_SID : option string; PEZHWAN_TWILIO_AUTH_TOKEN : option string; PEZHWAN_TWILIO_FROM : option string;
  PEZHWAN_SNS_REGION : option string; PEZHWAN_SNS_ACCESS_KEY_ID : option string; PEZHWAN_SNS_SECRET_ACCESS_KEY : option string;
  PEZHWAN_RATE_LIMIT_LOGIN : string; PEZHWAN_RATE_LIMIT_OTP : string; PEZHWAN_RATE_LIMIT_API : string;
  PEZHWAN_LOCKOUT_MAX_ATTEMPTS : Z; PEZHWAN_LOCKOUT_DURATION : Z; PEZHWAN_ADMIN_EMAIL : option string;
  PEZHWAN_ADMIN_PASSWORD : option string; PEZHWAN_OTEL_ENDPOINT : option string; PEZHWAN_REQUEST_LOGGING : bool;
  PEZHWAN_LOG_LEVEL : string; PEZHWAN_ENV : option string }.
Definition environment : Type := string → option string.

(** [s.split(',')]. *)
Fixpoint split_comma (s : string) : list string :=
  match s with
  | EmptyString => [""]
  | String c s =>
    if Ascii.eqb c "," then "" :: split_comma s
    else match split_comma s with x :: l => String c x :: l | [] => [String c ""] end
  end.
Definition missing (o : option string) : bool := negb (truthy o).
(** The first error of a production deployment. *)
Definition assertProductionSafety (raw : EnvConfig) : option exn :=
  if negb (String.eqb (NODE_ENV raw) "production") then None
  else if negb (is_prefix "https://" (PEZHWAN_ISSUER raw)) then Some (JsError "PEZHWAN_ISSUER must use HTTPS in production")
  else if negb (PEZHWAN_COOKIE_SECURE raw) then Some (JsError "PEZHWAN_COOKIE_SECURE must be true in production")
  else if PEZHWAN_SIGNING_KEY_ROTATION_MS raw =? 0 then Some (JsError "PEZHWAN_SIGNING_KEY_ROTATION_MS cannot be 0 in production")
  else if missing (PEZHWAN_MFA_ENCRYPTION_KEY raw) then Some (JsError "PEZHWAN_MFA_ENCRYPTION_KEY is required in production")
  else if existsb (λ origin, String.eqb (js_trim origin) "*") (split_comma (PEZHWAN_ALLOWED_ORIGINS raw))
    then Some (JsError ("PEZHWAN_ALLOWED_ORIGINS cannot contain " +:+ quoted "*" +:+ " in production"))
  else if String.eqb (PEZHWAN_OTP_EMAIL_PROVIDER raw) "console"
    then Some (JsError "PEZHWAN_OTP_EMAIL_PROVIDER=console is not allowed in production")
  else if String.eqb (PEZHWAN_OTP_SMS_PROVIDER raw) "mock"
    then Some (JsError "PEZHWAN_OTP_SMS_PROVIDER=mock is not allowed in production")
  else if String.eqb (PEZHWAN_OTP_EMAIL_PROVIDER raw) "smtp" && (missing (PEZHWAN_SMTP_HOST raw) || missing (PEZHWAN_SMTP_FROM raw))
    then Some (JsError "PEZHWAN_SMTP_HOST and PEZHWAN_SMTP_FROM are required when email provider is smtp")
  else if String.eqb (PEZHWAN_OTP_EMAIL_PROVIDER raw) "sendgrid" &&
          (missing (PEZHWAN_SENDGRID_API_KEY raw) || missing (PEZHWAN_SENDGRID_FROM raw))
    then Some (JsError "PEZHWAN_SENDGRID_API_KEY and PEZHWAN_SENDGRID_FROM are required when email provider is sendgrid")
  else if String.eqb (PEZHWAN_OTP_EMAIL_PROVIDER raw) "ses" &&
          (missing (PEZHWAN_SES_REGION raw) || missing (PEZHWAN_SES_ACCESS_KEY_ID raw) ||
           missing (PEZHWAN_SES_SECRET_ACCESS_KEY raw) || missing (PEZHWAN_SES_FROM raw))
    then Some (JsError "PEZHWAN_SES_* credentials are required when email provider is ses")
  else if String.eqb (PEZHWAN_OTP_SMS_PROVIDER raw) "twilio" &&
          (missing (PEZHWAN_TWILIO_ACCOUNT_SID raw) || missing (PEZHWAN_TWILIO_AUTH_TOKEN raw) || missing (PEZHWAN_TWILIO_FROM raw))
    then Some (JsError "PEZHWAN_TWILIO_* credentials are required when sms provider is twilio")
  else if String.eqb (PEZHWAN_OTP_SMS_PROVIDER raw) "sns" &&
          (missing (PEZHWAN_SNS_REGION raw) || missing (PEZHWAN_SNS_ACCESS_KEY_ID raw) || missing (PEZHWAN_SNS_SECRET_ACCESS_KEY raw))
    then Some (JsError "PEZHWAN_SNS_* credentials are required when sms provider is sns")
  else None.

(** ** Durations and budgets *)
(** [/^(\d+)unit$/]: the digits. *)
Definition with_unit (unit s : string) : option string :=
  let '(ds, rest) := digits s in if negb (String.eqb ds "") && String.eqb rest unit then Some ds else None.
Definition invalid_duration (value : string) : exn :=
  JsError ("Invalid duration format: " +:+ quoted value +:+ ". Use e.g. " +:+ quoted "15m" +:+ ", " +:+ quoted "30d" +:+ ", " +:+
           quoted "500ms" +:+ ".").
Definition parseDuration (value : string) : exn + num :=
  let trimmed := js_lower (js_trim value) in
  match with_unit "ms" trimmed with Some ds => inr (StringToNumber ds) | None =>
  match with_unit "s" trimmed with Some ds => inr (num_mul (StringToNumber ds) (num_of_Z 1000)) | None =>
  match with_unit "m" trimmed with Some ds => inr (num_mul (StringToNumber ds) (num_of_Z 60000)) | None =>
  match with_unit "h" trimmed with Some ds => inr (num_mul (StringToNumber ds) (num_of_Z 3600000)) | None =>
  match with_unit "d" trimmed with Some ds => inr (num_mul (StringToNumber ds) (num_of_Z 86400000)) | None =>
    let n := StringToNumber trimmed in
    if is_finite n && num_le (num_of_Z 0) n then inr n else inl (invalid_duration value)
  end end end end end.

Record Budget := mkBudget { bg_limit : num; bg_windowMs : num }.
Definition unit_ms (u : string) : num :=
  if String.eqb u "s" then num_of_Z 1000
  else if String.eqb u "m" then num_of_Z 60000
  else if String.eqb u "h" then num_of_Z 3600000
  else num_of_Z 86400000.
(** [/^(\d+)\/(\d+)(s|m|h|d)?$/i] on a text: the groups, the unit [s] when absent. *)
Definition budget_parts (s : string) : option (string * string * string) :=
  let '(limit, r) := digits s in
  match r with
  | String "/" r =>
    let '(window, u) := digits r in
    let unit := js_lower (if String.eqb u "" then "s" else u) in
    if negb (String.eqb limit "") && negb (String.eqb window "") && existsb (String.eqb unit) ["s"; "m"; "h"; "d"]%string
    then Some (limit, window, unit) else None
  | _ => None
  end.
Definition parseBudget (value : string) : exn + Budget :=
  match budget_parts (js_trim value) with
  | None => inl (JsError ("Invalid rate-limit budget: " +:+ quoted value +:+ ". Use e.g. " +:+ quoted "10/15m" +:+ "."))
  | Some (l, w, u) =>
    let limit := StringToNumber l in
    let windowMs := num_mul (StringToNumber w) (unit_ms u) in
    if num_lt limit (num_of_Z 1) || num_lt windowMs (num_of_Z 1000)
    then inl (JsError ("Invalid rate-limit budget: " +:+ quoted value +:+ "."))
    else inr (mkBudget limit windowMs)
  end.

(** ** The configuration *)
Record ServerConfig := mkServerConfig { cs_port : Z; cs_bodyLimit : string }.
Record DatabaseConfig := mkDatabaseConfig { cd_mongodbUri : string; cd_mongoPoolSize : Z; cd_mongoTimeoutMs : Z }.
Record RedisConfig := mkRedisConfig { cr_url : option string; cr_enabled : bool }.
Record TokensConfig := mkTokensConfig {
  ct_accessTokenTtlMs : num; ct_refreshTokenTtlMs : num; ct_sessionTtlMs : num; ct_algorithm : string; ct_jwksCacheTtl : Z }.
Record PasswordHashParams := mkPasswordHashParams { ph_algorithm : string; ph_memoryCost : Z; ph_timeCost : Z; ph_parallelism : Z }.
Record CryptoConfig := mkCryptoConfig {
  cc_jwtSigningAlgorithm : string; cc_keyEncapsulationAlgorithm : string; cc_tokenHashAlgorithm : string;
  cc_auditHashAlgorithm : string; cc_passwordHashParams : PasswordHashParams }.
Record SigningKeysConfig := mkSigningKeysConfig { ck_path : string; ck_rotationIntervalMs : Z }.
Record CookieConfig := mkCookieConfig { co_domain : option string; co_secure : bool; co_sameSite : string }.
Record OtpConfig := mkOtpConfig {
  cp_ttlMs : Z; cp_maxAttempts : Z; cp_resendCooldownMs : Z; cp_codeLength : Z; cp_emailProvider : string; cp_smsProvider : string }.
Record SmtpConfig := mkSmtpConfig {
  sp_host : option string; sp_port : option Z; sp_secure : bool; sp_user : option string; sp_pass : option string; sp_from : option string }.
(** The credentials of the other transports, in the order the code lists them. *)
Record OtpProvidersConfig := mkOtpProvidersConfig {
  op_smtp : SmtpConfig; op_sendgrid : option string * option string;
  op_ses : option string * option string * option string * option string;
  op_twilio : option string * option string * option string; op_sns : option string * option string * option string }.
Record RateLimitConfig := mkRateLimitConfig {
  rc_login : string; rc_otp : string; rc_api : string; rc_lockoutMaxAttempts : Z; rc_lockoutDurationMs : Z;
  rc_rules_login : Budget; rc_rules_otp : Budget; rc_rules_api : Budget }.
Record Config := mkConfig {
  cg_env : string; cg_isProduction : bool; cg_isDevelopment : bool; cg_isTest : bool; cg_server : ServerConfig;
  cg_issuer : string; cg_tenantId : string; cg_applicationId : string; cg_database : DatabaseConfig; cg_redis : RedisConfig;
  cg_tokens : TokensConfig; cg_crypto : CryptoConfig; cg_signingKeys : SigningKeysConfig; cg_mfaEncryptionKey : option string;
  cg_cookie : CookieConfig; cg_allowedOrigins : list string; cg_otp : OtpConfig; cg_otpProviders : OtpProvidersConfig;
  cg_rateLimit : RateLimitConfig; cg_admin : option string * option string; cg_otelEndpoint : option string;
  cg_requestLogging : bool; cg_logLevel : string }.
Definition allowed_origins (raw : EnvConfig) : list string :=
  List.filter (λ o, negb (String.eqb o "")) (map js_trim (split_comma (PEZHWAN_ALLOWED_ORIGINS raw))).
Definition buildConfig (raw : EnvConfig) : exn + Config :=
  let allowedOrigins := allowed_origins raw in
  accessTokenTtlMs ← parseDuration (PEZHWAN_ACCESS_TOKEN_TTL raw);
  refreshTokenTtlMs ← parseDuration (PEZHWAN_REFRESH_TOKEN_TTL raw);
  sessionTtlMs ← parseDuration (PEZHWAN_SESSION_TTL raw);
  login ← parseBudget (PEZHWAN_RATE_LIMIT_LOGIN raw);
  otp ← parseBudget (PEZHWAN_RATE_LIMIT_OTP raw);
  api ← parseBudget (PEZHWAN_RATE_LIMIT_API raw);
  mret (mkConfig (NODE_ENV raw) (String.eqb (NODE_ENV raw) "production") (String.eqb (NODE_ENV raw) "development")
    (String.eqb (NODE_ENV raw) "test") (mkServerConfig (PEZHWAN_PORT raw) (PEZHWAN_BODY_LIMIT raw))
    (PEZHWAN_ISSUER raw) (PEZHWAN_TENANT_ID raw) (PEZHWAN_APPLICATION_ID raw)
    (mkDatabaseConfig (PEZHWAN_MONGODB_URI raw) (PEZHWAN_MONGO_POOL_SIZE raw) (PEZHWAN_MONGO_TIMEOUT_MS raw))
    (mkRedisConfig (PEZHWAN_REDIS_URL raw) (truthy (PEZHWAN_REDIS_URL raw)))
    (mkTokensConfig accessTokenTtlMs refreshTokenTtlMs sessionTtlMs (PEZHWAN_JWT_ALGORITHM raw) (PEZHWAN_JWKS_CACHE_TTL raw))
    (mkCryptoConfig (PEZHWAN_JWT_ALGORITHM raw) (PEZHWAN_KEY_ENCAPSULATION_ALGORITHM raw) (PEZHWAN_TOKEN_HASH_ALGORITHM raw)
      (PEZHWAN_AUDIT_HASH_ALGORITHM raw) (mkPasswordHashParams "argon2id" (PEZHWAN_ARGON2_MEMORY_COST raw)
        (PEZHWAN_ARGON2_TIME_COST raw) (PEZHWAN_ARGON2_PARALLELISM raw)))
    (mkSigningKeysConfig (PEZHWAN_SIGNING_KEYS_PATH raw) (PEZHWAN_SIGNING_KEY_ROTATION_MS raw)) (PEZHWAN_MFA_ENCRYPTION_KEY raw)
    (mkCookieConfig (if String.eqb (PEZHWAN_COOKIE_DOMAIN raw) "" then None else Some (PEZHWAN_COOKIE_DOMAIN raw))
      (PEZHWAN_COOKIE_SECURE raw) (PEZHWAN_COOKIE_SAMESITE raw))
    allowedOrigins
    (mkOtpConfig (PEZHWAN_OTP_TTL raw) (PEZHWAN_OTP_MAX_ATTEMPTS raw) (PEZHWAN_OTP_RESEND_COOLDOWN raw) (PEZHWAN_OTP_LENGTH raw)
      (PEZHWAN_OTP_EMAIL_PROVIDER raw) (PEZHWAN_OTP_SMS_PROVIDER raw))
    (mkOtpProvidersConfig (mkSmtpConfig (PEZHWAN_SMTP_HOST raw) (PEZHWAN_SMTP_PORT raw) (PEZHWAN_SMTP_SECURE raw)
        (PEZHWAN_SMTP_USER raw) (PEZHWAN_SMTP_PASS raw) (PEZHWAN_SMTP_FROM raw))
      (PEZHWAN_SENDGRID_API_KEY raw, PEZHWAN_SENDGRID_FROM raw)
      (PEZHWAN_SES_REGION raw, PEZHWAN_SES_ACCESS_KEY_ID raw, PEZHWAN_SES_SECRET_ACCESS_KEY raw, PEZHWAN_SES_FROM raw)
      (PEZHWAN_TWILIO_ACCOUNT_SID raw, PEZHWAN_TWILIO_AUTH_TOKEN raw, PEZHWAN_TWILIO_FROM raw)
      (PEZHWAN_SNS_REGION raw, PEZHWAN_SNS_ACCESS_KEY_ID raw, PEZHWAN_SNS_SECRET_ACCESS_KEY raw))
    (mkRateLimitConfig (PEZHWAN_RATE_LIMIT_LOGIN raw) (PEZHWAN_RATE_LIMIT_OTP raw) (PEZHWAN_RATE_LIMIT_API raw)
      (PEZHWAN_LOCKOUT_MAX_ATTEMPTS raw) (PEZHWAN_LOCKOUT_DURATION raw) login otp api)
    (PEZHWAN_ADMIN_EMAIL raw, PEZHWAN_ADMIN_PASSWORD raw) (PEZHWAN_OTEL_ENDPOINT raw) (PEZHWAN_REQUEST_LOGGING raw)
    (PEZHWAN_LOG_LEVEL raw)).

(** ** Reading it *)
(** What a call comes to: a value, an exception, or the end of the process. *)
Inductive outcome (A : Type) := Returned (a : A) | Threw (e : exn) | Exited (code : Z).
Arguments Returned {A}.
Arguments Threw {A}.
Arguments Exited {A}.
(** The environment of the process, and the configuration the module keeps. *)
Record Process := mkProcess { environ : environment; cachedConfig : option Config }.
Section config.
Context (safeParse : environment → list (string * string) + EnvConfig).
Definition issues_text (issues : list (string * string)) : string :=
  String.concat (String "010" "") (map (λ i, "  - " +:+ fst i +:+ ": " +:+ snd i) issues).
Definition validateEnv (input : environment) : exn + EnvConfig :=
  match safeParse input with
  | inl issues => inl (JsError ("Invalid environment configuration:" +:+ String "010" "" +:+ issues_text issues))
  | inr raw => match assertProductionSafety raw with Some e => inl e | None => inr raw end
  end.
Definition parseEnv (env : environment) : outcome EnvConfig :=
  match safeParse env with
  | inl _ => Exited 1
  | inr raw => match assertProductionSafety raw with Some e => Threw e | None => Returned raw end
  end.
Definition getConfig (p : Process) : Process * outcome Config :=
  match cachedConfig p with
  | Some c => (p, Returned c)
  | None =>
    match parseEnv (environ p) with
    | Returned raw => match buildConfig raw with
                      | inr c => (mkProcess (environ p) (Some c), Returned c)
                      | inl e => (p, Threw e)
                      end
    | Threw e => (p, Threw e)
    | Exited n => (p, Exited n)
    end
  end.

(** ** The environment of the core *)
Record CoreEnvConfig := mkCoreEnvConfig {
  ce_nodeEnv : string; ce_issuer : string; ce_audience : string; ce_mongoUri : string; ce_redisUri : option string;
  ce_logLevel : string; ce_accessTokenTtl : num; ce_refreshTokenTtl : num; ce_mfaCodeTtlSeconds : num;
  ce_sessionIdleTimeoutMinutes : num; ce_trustDeviceTtlDays : num; ce_corsOrigins : list string; ce_disableSignups : bool;
  ce_webhookSecret : option string; ce_jwtSigningAlgorithm : string; ce_keyEncapsulationAlgorithm : string;
  ce_tokenHashAlgorithm : string; ce_auditHashAlgorithm : string; ce_memoryCost : num; ce_timeCost : num; ce_parallelism : num }.
(** [/^(1|true|yes|on)$/i.test(value)]. *)
Definition env_bool (value : option string) (fallback : bool) : bool :=
  match value with None => fallback | Some v => existsb (String.eqb (js_lower v)) ["1"; "true"; "yes"; "on"]%string end.
Definition env_num (value : option string) (fallback : Z) : num :=
  match value with
  | None => num_of_Z fallback
  | Some v => if is_nan (StringToNumber v) then num_of_Z fallback else StringToNumber v
  end.
Definition Env_parse (source : environment) : CoreEnvConfig :=
  mkCoreEnvConfig
    (if bool_decide (source "NODE_ENV" = Some "production"%string) then "production"
     else if bool_decide (source "NODE_ENV" = Some "test"%string) then "test" else "development")
    (nullish (source "PEZHWAN_ISSUER") "http://localhost:4000") (nullish (source "PEZHWAN_AUDIENCE") "pezhwan.clients")
    (nullish (source "MONGODB_URI") "mongodb://127.0.0.1:27017/pezhwan") (source "REDIS_URI")
    (nullish (source "PEZHWAN_LOG_LEVEL") "info") (env_num (source "ACCESS_TOKEN_TTL") 900)
    (env_num (source "REFRESH_TOKEN_TTL") 2592000) (env_num (source "MFA_CODE_TTL_SECONDS") 300)
    (env_num (source "SESSION_IDLE_TIMEOUT_MINUTES") 240) (env_num (source "TRUST_DEVICE_TTL_DAYS") 30)
    (List.filter (λ o, negb (String.eqb o "")) (split_comma (nullish (source "PEZHWAN_CORS_ORIGINS") "http://localhost:3000")))
    (env_bool (source "PEZHWAN_DISABLE_SIGNUPS") false) (source "PEZHWAN_WEBHOOK_SECRET")
    (nullish (source "PEZHWAN_JWT_SIGNING_ALGORITHM") "RS256") (nullish (source "PEZHWAN_KEY_ENCAPSULATION_ALGORITHM") "RSA-OAEP")
    (nullish (source "PEZHWAN_TOKEN_HASH_ALGORITHM") "sha256") (nullish (source "PEZHWAN_AUDIT_HASH_ALGORITHM") "sha256")
    (env_num (source "PEZHWAN_ARGON2_MEMORY_COST") 65536) (env_num (source "PEZHWAN_ARGON2_TIME_COST") 3)
    (env_num (source "PEZHWAN_ARGON2_PARALLELISM") 1).
End config.

(** ** Numbers of digits *)
Lemma js_String_digits n : 0 <= n → all_digits (js_String n) = true.
Proof. intros Hn. unfold js_String. destruct n as [|p|p]; [done| |lia]. cbn. destruct (Pos.to_uint p); try done; apply string_of_uint_digits. Qed.
Lemma digits_String n r : 0 <= n → no_digit r = true → digits (js_String n +:+ r) = (js_String n, r).
Proof. intros Hn Hr. apply digits_app; [by apply js_String_digits|done]. Qed.
Lemma digits_all s : all_digits s = true → digits s = (s, "").
Proof. intros Hs. rewrite <- (str_app_nil s) at 1. by apply digits_app. Qed.
Lemma digits_are_digits s : all_digits (fst (digits s)) = true.
Proof. induction s as [|c s IH]; cbn; [done|]. destruct (is_digit c) eqn:Hc; [|done]. destruct (digits s) as [d r]. cbn in *. by rewrite Hc. Qed.
Lemma digit_visible c : is_digit c = true → js_is_space c = false.
Proof. destruct c as [[] [] [] [] [] [] [] []]; done. Qed.
Lemma trim_end_plain s : (∀ c, In c (list_of_string s) → js_is_space c = false) → js_trim_end s = s.
Proof.
  induction s as [|c s IH]; [done|]. intros Hs. cbn. rewrite IH by (intros d Hd; apply Hs; by right).
  destruct s; [|done]. by rewrite (Hs c (or_introl eq_refl)).
Qed.
Lemma all_digits_In s c : all_digits s = true → In c (list_of_string s) → is_digit c = true.
Proof. induction s as [|d s IH]; [done|]. cbn. intros [Hd Hs]%andb_true_iff [->|Hin]; auto. Qed.
Lemma trim_digits s : all_digits s = true → js_trim s = s.
Proof.
  intros Hs. unfold js_trim. assert (js_trim_start s = s) as ->.
  { destruct s as [|c s]; [done|]. cbn in *. bool_to_prop. by rewrite digit_visible. }
  apply trim_end_plain. intros c Hc. by apply digit_visible, (all_digits_In s).
Qed.
(** [Number] of digits is the double nearest to the number they write. *)
Lemma number_of_digits ds :
  ds ≠ "" → all_digits ds = true → StringToNumber ds = match decimal ds with Zpos p => num_of_Z (Zpos p) | _ => S754_zero false end.
Proof.
  intros Hne Hd. assert (StringToNumber ds = decimal_number false ds) as ->.
  { unfold StringToNumber. cbv zeta. rewrite trim_digits by done. destruct ds as [|c r]; [done|].
    cbn in Hd. apply andb_true_iff in Hd as [Hc Hr]. destruct c as [[] [] [] [] [] [] [] []]; try discriminate Hc; try reflexivity.
    destruct r as [|d [|x r]]; try reflexivity. cbn in Hr. apply andb_true_iff in Hr as [Hd _].
    destruct d as [[] [] [] [] [] [] [] []]; try discriminate Hd; reflexivity. }
  unfold decimal_number. assert (String.eqb ds "Infinity" = false) as ->.
  { destruct ds as [|[[] [] [] [] [] [] [] []] r]; done. }
  rewrite digits_all by done. rewrite (proj2 (String.eqb_neq ds "")) by done. cbn [andb exponent String.eqb]. rewrite str_app_nil.
  unfold scaled, strlen. destruct (decimal ds) as [|p|p]; [done| |done]. cbn [String.length].
  replace (0 - Z.of_nat 0) with 0 by lia. cbn [Z.ltb Z.leb Z.compare]. 
  rewrite (proj2 (Z.ltb_ge _ _)) by lia. by rewrite !Z.mul_1_l, Z.pow_0_r, Z.mul_1_r.
Qed.
Lemma number_String n : 0 <= n → StringToNumber (js_String n) = num_of_Z n.
Proof.
  intros Hn. rewrite number_of_digits by (apply js_String_nonempty || by apply js_String_digits).
  unfold decimal. rewrite js_Number_String. cbn. by destruct n.
Qed.
Lemma number_digits_nonneg ds : ds ≠ "" → all_digits ds = true → nonnegative (StringToNumber ds) = true.
Proof. intros Hne Hd. rewrite number_of_digits by done. destruct (decimal ds); [done| |done]. by apply num_of_Z_nonneg. Qed.
Lemma with_unit_some u s ds : with_unit u s = Some ds → ds ≠ "" ∧ all_digits ds = true ∧ ∃ r, digits s = (ds, r) ∧ r = u.
Proof.
  unfold with_unit. pose proof (digits_are_digits s) as Hd. destruct (digits s) as [d r]. destruct (String.eqb_spec d ""); [done|].
  destruct (String.eqb_spec r u) as [->|]; [|done]. intros [= ->]. eauto.
Qed.
Lemma mul_of_Z n k : 0 <= n → 0 < k < 2 ^ 53 → n * k < 2 ^ 53 → num_mul (num_of_Z n) (num_of_Z k) = num_of_Z (n * k).
Proof.
  intros Hn [Hk Hk'] Hb. destruct k as [|q|q]; [lia| |lia]. destruct n as [|p|p]; [|clear Hn|lia].
  - by rewrite (num_of_Z_exact q) by (by apply bits_small).
  - rewrite num_mul_exact; [by rewrite Pos2Z.inj_mul|apply bits_small; nia..].
Qed.
Lemma lt_of_Z n k : 0 < n < 2 ^ 53 → 0 < k < 2 ^ 53 → num_lt (num_of_Z n) (num_of_Z k) = (n <? k).
Proof. intros Hn Hk. destruct n as [|p|p], k as [|q|q]; try lia. apply num_lt_exact; apply bits_small; lia. Qed.

(** ** Durations and budgets *)
Definition UNITS : list (string * Z) := [("ms", 1); ("s", 1000); ("m", 60000); ("h", 3600000); ("d", 86400000)]%string.
Lemma with_unit_String n u v : 0 <= n → no_digit v = true → with_unit u (js_String n +:+ v) = if String.eqb v u then Some (js_String n) else None.
Proof.
  intros Hn Hv. unfold with_unit. rewrite digits_String by done. rewrite (proj2 (String.eqb_neq _ "")) by apply js_String_nonempty. done.
Qed.
Lemma lower_digits s : all_digits s = true → js_lower s = s.
Proof.
  induction s as [|c s IH]; [done|]. cbn. intros [Hc Hs]%andb_true_iff. rewrite IH by done. f_equal.
  by destruct c as [[] [] [] [] [] [] [] []].
Qed.
Lemma lower_app a b : js_lower (a +:+ b) = js_lower a +:+ js_lower b.
Proof. induction a as [|c a IH]; [done|]. change (String c a +:+ b) with (String c (a +:+ b)). cbn [js_lower]. by rewrite IH. Qed.
Lemma trim_number n v : 0 <= n → v ≠ "" → js_trim_end v = v → js_trim (js_String n +:+ v) = js_String n +:+ v.
Proof.
  intros Hn Hv He. pose proof (js_String_digits n Hn) as Hd. pose proof (js_String_nonempty n) as Hne.
  unfold js_trim. assert (js_trim_start (js_String n +:+ v) = js_String n +:+ v) as ->.
  { destruct (js_String n) as [|c s]; [done|]. cbn in Hd. bool_to_prop. change (String c s +:+ v) with (String c (s +:+ v)). cbn. by rewrite digit_visible. }
  clear Hne Hd. induction (js_String n) as [|c s IH]; [done|]. change (String c s +:+ v) with (String c (s +:+ v)). cbn [js_trim_end]. rewrite IH.
  by destruct s, v.
Qed.

(** C29: A duration is read as it is written: a number with its unit is exactly that many
    milliseconds, up to the integers a double holds; nothing that is read is negative or
    no number; and an empty duration is not refused: it is zero. *)
Theorem durations_read value n u k :
  In (u, k) UNITS → 0 <= n → n * k < 2 ^ 53 →
  parseDuration (js_String n +:+ u) = inr (num_of_Z (n * k)) ∧
  (∀ r, parseDuration value = inr r → nonnegative r = true) ∧
  (js_trim value = "" → parseDuration value = inr (num_of_Z 0)).
Proof.
  intros Hu Hn Hb. split; [|split].
  - assert (v_ok : u ≠ "" ∧ js_trim_end u = u ∧ no_digit u = true ∧ js_lower u = u)
      by (cbn in Hu; repeat destruct Hu as [[= <- <-]|Hu]; done).
    destruct v_ok as (Hne & He & Hnd & Hl). unfold parseDuration. cbv zeta.
    rewrite trim_number, lower_app, Hl, lower_digits by (done || by apply js_String_digits). rewrite !with_unit_String by done.
    cbn in Hu. repeat destruct Hu as [[= <- <-]|Hu]; cbn [String.eqb Ascii.eqb Bool.eqb]; try done;
      rewrite number_String by done; rewrite ?Z.mul_1_r; try done; by rewrite mul_of_Z.
  - intros r. unfold parseDuration. cbv zeta. set (t := js_lower (js_trim value)).
    repeat match goal with |- context [match with_unit ?w t with Some _ => _ | None => _ end] =>
      let H := fresh "H" in destruct (with_unit w t) eqn:H; [apply with_unit_some in H as (? & ? & _); intros [= <-]|clear H] end.
    1: by apply number_digits_nonneg.
    1-4: apply num_mul_nonneg; [by apply number_digits_nonneg|done].
    rewrite <- nonnegative_le. destruct (is_finite _ && nonnegative _) eqn:Hf; [|done]. intros [= <-]. by apply andb_true_iff in Hf as [_ ?].
  - intros He. unfold parseDuration. cbv zeta. by rewrite He.
Qed.

(** A budget is read as it is written, and one that is read allows something: at least
    one request, in a window of at least a second. *)
Theorem budgets_read value n w u k :
  In (u, k) (tail UNITS) → 0 < n < 2 ^ 53 → 0 < w → w * k < 2 ^ 53 →
  parseBudget (js_String n +:+ "/" +:+ js_String w +:+ u) = inr (mkBudget (num_of_Z n) (num_of_Z (w * k))) ∧
  ∀ b, parseBudget value = inr b →
    nonnegative (bg_limit b) = true ∧ nonnegative (bg_windowMs b) = true ∧
    num_lt (bg_limit b) (num_of_Z 1) = false ∧ num_lt (bg_windowMs b) (num_of_Z 1000) = false.
Proof.
  intros Hu Hn Hw Hb. split.
  - assert (v_ok : u ≠ "" ∧ js_trim_end u = u ∧ no_digit u = true ∧ js_lower u = u ∧ existsb (String.eqb u) ["s"; "m"; "h"; "d"]%string = true ∧
                   unit_ms u = num_of_Z k ∧ 1000 <= k < 2 ^ 53) by (cbn in Hu; repeat destruct Hu as [[= <- <-]|Hu]; done).
    destruct v_ok as (Hne & He & Hnd & Hl & Hx & Hk & Hk1). unfold parseBudget.
    rewrite trim_number; [|lia|done|].
    2: { change ("/" +:+ js_String w +:+ u) with (String "/" (js_String w +:+ u)). cbn [js_trim_end].
         assert (js_trim_end (js_String w +:+ u) = js_String w +:+ u) as ->; [|by destruct (js_String w), u].
         induction (js_String w) as [|c s IH]; [done|]. change (String c s +:+ u) with (String c (s +:+ u)). cbn [js_trim_end]. rewrite IH. by destruct s, u. }
    unfold budget_parts. rewrite digits_String by (lia || done). change ("/" +:+ js_String w +:+ u) with (String "/" (js_String w +:+ u)).
    cbv iota beta. rewrite digits_String by (lia || done). rewrite (proj2 (String.eqb_neq u "")) by done. rewrite Hl, Hx.
    rewrite !(proj2 (String.eqb_neq _ "")) by apply js_String_nonempty. cbn [negb andb]. rewrite !number_String by lia. rewrite Hk.
    rewrite mul_of_Z, !lt_of_Z by nia. rewrite !(proj2 (Z.ltb_ge _ _)) by nia. done.
  - intros b. unfold parseBudget. destruct (budget_parts (js_trim value)) as [[[l v] x]|] eqn:Hp; [|done].
    destruct (num_lt _ _ || num_lt _ _) eqn:Hlt; [done|]. intros [= <-]. apply orb_false_iff in Hlt as [H1 H2]. cbn [bg_limit bg_windowMs].
    unfold budget_parts in Hp. pose proof (digits_are_digits (js_trim value)) as Hd. destruct (digits (js_trim value)) as [ds r]. cbn [fst] in Hd.
    destruct r as [|[[] [] [] [] [] [] [] []] r]; try done. pose proof (digits_are_digits r) as Hd2. destruct (digits r) as [ds2 r2]. cbn [fst] in Hd2.
    destruct (_ && _) eqn:Hc; [|done]. injection Hp as -> -> <-. bool_to_prop.
    repeat match goal with H : String.eqb _ _ = false |- _ => apply String.eqb_neq in H end.
    split; [by apply number_digits_nonneg|]. split; [|done]. unfold unit_ms.
    repeat match goal with |- context [if ?c then _ else _] => destruct c end; (apply num_mul_nonneg; [by apply number_digits_nonneg|done]).
Qed.

(** ** Production *)
(** What a production configuration keeps to. *)
Definition present (o : option string) : Prop := truthy o = true.
Definition production_safe (c : Config) : Prop :=
  cg_isProduction c = true →
  is_prefix "https://" (cg_issuer c) = true ∧ co_secure (cg_cookie c) = true ∧ ck_rotationIntervalMs (cg_signingKeys c) ≠ 0 ∧
  present (cg_mfaEncryptionKey c) ∧ ¬ In "*"%string (cg_allowedOrigins c) ∧
  cp_emailProvider (cg_otp c) ≠ "console" ∧ cp_smsProvider (cg_otp c) ≠ "mock" ∧
  (cp_emailProvider (cg_otp c) = "smtp" → present (sp_host (op_smtp (cg_otpProviders c))) ∧ present (sp_from (op_smtp (cg_otpProviders c)))) ∧
  (cp_emailProvider (cg_otp c) = "sendgrid" → present (op_sendgrid (cg_otpProviders c)).1 ∧ present (op_sendgrid (cg_otpProviders c)).2) ∧
  (cp_emailProvider (cg_otp c) = "ses" → let '(r, i, k, f) := op_ses (cg_otpProviders c) in present r ∧ present i ∧ present k ∧ present f) ∧
  (cp_smsProvider (cg_otp c) = "twilio" → let '(a, t, f) := op_twilio (cg_otpProviders c) in present a ∧ present t ∧ present f) ∧
  (cp_smsProvider (cg_otp c) = "sns" → let '(r, i, k) := op_sns (cg_otpProviders c) in present r ∧ present i ∧ present k).
Definition process_safe (p : Process) : Prop := ∀ c, cachedConfig p = Some c → production_safe c.

Lemma missing_false o : missing o = false → present o.
Proof. unfold missing, present. by intros ->%negb_false_iff. Qed.
Lemma guarded_false (name what : string) (b : bool) : String.eqb name what && b = false → name = what → b = false.
Proof. intros H ->. by rewrite String.eqb_refl in H. Qed.
Lemma star_not_allowed raw :
  existsb (λ origin, String.eqb (js_trim origin) "*") (split_comma (PEZHWAN_ALLOWED_ORIGINS raw)) = false → ¬ In "*"%string (allowed_origins raw).
Proof.
  unfold allowed_origins. intros He [(o & Ho & Hin)%in_map_iff _]%filter_In.
  assert (existsb (λ origin, String.eqb (js_trim origin) "*") (split_comma (PEZHWAN_ALLOWED_ORIGINS raw)) = true); [|congruence].
  apply existsb_exists. exists o. split; [done|]. by rewrite Ho.
Qed.
Lemma build_safe raw c : assertProductionSafety raw = None → buildConfig raw = inr c → production_safe c.
Proof.
  intros Hs Hb. unfold buildConfig in Hb.
  repeat match type of Hb with (?m ≫= _) = _ => destruct m as [e|?]; [discriminate Hb|]; cbn [mbind sum_bind] in Hb end.
  injection Hb as <-. unfold production_safe.
  cbn [cg_isProduction cg_issuer cg_cookie co_secure cg_signingKeys ck_rotationIntervalMs cg_mfaEncryptionKey cg_allowedOrigins cg_otp
       cp_emailProvider cp_smsProvider cg_otpProviders op_smtp op_sendgrid op_ses op_twilio op_sns sp_host sp_from fst snd].
  intros Hp. unfold assertProductionSafety in Hs. rewrite Hp in Hs. cbn [negb] in Hs.
  repeat match type of Hs with (if ?c then _ else _) = _ => let E := fresh "E" in destruct c eqn:E; [discriminate Hs|] end.
  repeat match goal with H : negb _ = false |- _ => apply negb_false_iff in H end.
  repeat match goal with H : String.eqb _ "console" = false |- _ => apply String.eqb_neq in H | H : String.eqb _ "mock" = false |- _ => apply String.eqb_neq in H end.
  do 2 (split; [done|]). split; [by apply Z.eqb_neq|]. split; [by apply missing_false|]. split; [by apply star_not_allowed|]. do 2 (split; [done|]).
  repeat match goal with H : String.eqb ?a ?b && _ = false |- _ => pose proof (guarded_false a b _ H); clear H end.
  repeat split; intros; match goal with H : ?a = ?b → _, H' : ?a = ?b |- _ => specialize (H H') end; bool_to_prop;
    repeat match goal with H : _ || _ = false |- _ => apply orb_false_iff in H as [? ?] end; by apply missing_false.
Qed.

(** C15: No unsafe production configuration is ever handed out.  Whatever the schema makes
    of an environment, a configuration [getConfig] returns is safe if it is one of
    production: an issuer over HTTPS, secure cookies, rotating keys, a key for the second
    factors, no wildcard origin, no development transport, and the credentials of the
    transports that are chosen.  Once it was returned it is returned from then on,
    whatever becomes of the environment, and a failure keeps nothing. *)
Theorem production_config_safe safeParse p p' r :
  process_safe p → getConfig safeParse p = (p', r) →
  process_safe p' ∧ environ p' = environ p ∧
  match r with
  | Returned c => production_safe c ∧ ∀ env', getConfig safeParse (mkProcess env' (cachedConfig p')) = (mkProcess env' (cachedConfig p'), Returned c)
  | _ => cachedConfig p = None ∧ p' = p
  end.
Proof.
  intros Hp. unfold getConfig at 1. destruct (cachedConfig p) as [c|] eqn:Hc; [intros [= <- <-]; split; [done|]; split; [done|]; split; [by apply Hp|]; intros env'; unfold getConfig; cbn [cachedConfig]; by rewrite Hc|].
  unfold parseEnv. destruct (safeParse (environ p)) as [i|raw]; [intros [= <- <-]; done|].
  destruct (assertProductionSafety raw) as [e|] eqn:Ha; [intros [= <- <-]; done|].
  destruct (buildConfig raw) as [e|c] eqn:Hb; [intros [= <- <-]; done|]. intros [= <- <-].
  pose proof (build_safe _ _ Ha Hb) as Hs. split; [by intros ? [= <-]|done].
Qed.
