(* ===== verification/Infrastructure.v ===== *)
(** * Infrastructure

    The MongoDB and Redis connections, the statistics of slow queries, and the plugins
    of [packages/core]. *)

From S2P Require Export Effects.
From S2P Require Export JsNumber.
From S2P Require Export Jwt.
From S2P Require Export JsMap.
From Stdlib Require Import SpecFloat.

(** * Connections

    [packages/core/src/services/infrastructure/connection-pool.ts], the MongoDB
    connection with its retries, and [redis-manager.ts], the Redis connection of the
    three topologies with its health checks.  The drivers are parameters: commands on a
    state of their own that may fail.  The clock advances by what is slept. *)

(** ** The MongoDB connection *)
Record ConnectionPoolOptions := mkConnectionPoolOptions {
  po_uri : string; po_connectTimeoutMs : option Z; po_maxRetries : option Z; po_retryDelayMs : option Z }.
Record Pool (W : Type) := mkPool {
  connected : bool; connectedAt : option Z; lastError : option string; server : W; time : Z }.
Arguments mkPool {W}.
Arguments connected {W}.
Arguments connectedAt {W}.
Arguments lastError {W}.
Arguments server {W}.
Arguments time {W}.
#[export] Instance settable_Pool W : Settable (Pool W) := {| eta_expand := λ p,
  mkPool (connected p) (connectedAt p) (lastError p) (server p) (time p) |}.
(** The driver: connecting within a timeout, disconnecting, the state it reports with the
    host, port and name of the database, and the ping. *)
Record Mongoose (W : Type) := mkMongoose {
  mg_connect : string → Z → W → W * (exn + ());
  mg_disconnect : W → W * (exn + ());
  mg_readyState : W → Z;
  mg_host : W → option string; mg_port : W → option Z; mg_name : W → option string;
  mg_ping : W → W * (exn + ()) }.
Arguments mg_connect {W}.
Arguments mg_disconnect {W}.
Arguments mg_readyState {W}.
Arguments mg_host {W}.
Arguments mg_port {W}.
Arguments mg_name {W}.
Arguments mg_ping {W}.
Inductive HealthStatus := Connected | Disconnected | Error.
Record ConnectionHealth := mkConnectionHealth {
  ch_status : HealthStatus; ch_readyState : Z; ch_host : option string; ch_port : option Z; ch_database : option string;
  ch_uptimeMs : option Z; ch_error : option string }.

Section pool.
Context {W : Type} (mongoose : Mongoose W) (options : ConnectionPoolOptions).
Notation M := (prog (Pool W)).
Definition maxRetries : Z := nullish (po_maxRetries options) 3.
Definition retryDelayMs : Z := nullish (po_retryDelayMs options) 1000.
Definition connectTimeoutMs : Z := nullish (po_connectTimeoutMs options) 10000.
Definition new_pool (w : W) (t : Z) : Pool W := mkPool false None None w t.
Definition read {A} (f : Pool W → A) : M A := Atom (λ p, (p, f p)) Ret.
Definition write (f : Pool W → Pool W) : M () := Atom (λ p, (f p, tt)) Ret.
Definition sleep (ms : Z) : M () := write (λ p, p <| time ::= Z.add ms |>).
Definition driver {A} (f : W → W * (exn + A)) : M A :=
  r ← Atom (λ p, let '(w, r) := f (server p) in (p <| server := w |>, r)) Ret;
  match r with inr a => mret a | inl e => Throw e end.
Definition failed_to_connect (last : option string) : exn :=
  JsError ("ConnectionPool: failed to connect after " +:+ js_String maxRetries +:+ " attempts. Last error: " +:+ nullish last "null").
(** The loop, with [rounds] rounds to go. *)
Fixpoint attempts (rounds : nat) (attempt : Z) : M () :=
  match rounds with
  | O => last ← read lastError; Throw (failed_to_connect last)
  | S rounds =>
    r ← try_catch
          (driver (mg_connect mongoose (po_uri options) connectTimeoutMs) ;;
           write (λ p, p <| connected := true |> <| connectedAt := Some (time p) |> <| lastError := None |>) ;;
           mret true)
          (λ e, write (λ p, p <| lastError := Some (err_message e) |>) ;;
                (if attempt <? maxRetries then sleep (retryDelayMs * attempt) else mret tt) ;;
                mret false);
    if (r : bool) then mret tt else attempts rounds (attempt + 1)
  end.
Definition connect : M () :=
  c ← read connected;
  if (c : bool) then mret tt else attempts (Z.to_nat maxRetries) 1.
Definition disconnect : M () :=
  c ← read connected;
  if negb (c : bool) then mret tt
  else finally (driver (mg_disconnect mongoose)) (write (λ p, p <| connected := false |> <| connectedAt := None |>)).
Definition health : M ConnectionHealth := read (λ p,
  let state := mg_readyState mongoose (server p) in
  if state =? 1 then
    mkConnectionHealth Connected state (mg_host mongoose (server p)) (mg_port mongoose (server p)) (mg_name mongoose (server p))
      match connectedAt p with Some t => if t =? 0 then None else Some (time p - t) | None => None end None
  else if state =? 2 then mkConnectionHealth Disconnected state None None None None None
  else mkConnectionHealth (if truthy (lastError p) then Error else Disconnected) state None None None None (lastError p)).
Definition ping : M bool :=
  try_catch
    (state ← read (λ p, mg_readyState mongoose (server p));
     if state =? 1 then driver (mg_ping mongoose) ;; mret true else mret false)
    (λ _, mret false).
Definition isConnected (p : Pool W) : bool := connected p && (mg_readyState mongoose (server p) =? 1).

(** *** What connecting comes to *)
(** The server after [k] attempts that fail, with the last error. *)
Fixpoint refused (k : nat) (last : option string) (w : W) : option (W * option string) :=
  match k with
  | O => Some (w, last)
  | S k => match mg_connect mongoose (po_uri options) connectTimeoutMs w with
           | (w, inl e) => refused k (Some (err_message e)) w
           | _ => None
           end
  end.
Lemma refused_S k last w :
  refused (S k) last w =
  match refused k last w with
  | Some (w, _) => match mg_connect mongoose (po_uri options) connectTimeoutMs w with
                   | (w, inl e) => Some (w, Some (err_message e))
                   | _ => None
                   end
  | None => None
  end.
Proof.
  revert last w. induction k as [|k IH]; intros last w; [cbn; by destruct (mg_connect _ _ _ _) as [? [?|?]]|].
  cbn [refused] in IH |- *. destruct (mg_connect mongoose (po_uri options) connectTimeoutMs w) as [w' [e|[]]]; [|done]. apply IH.
Qed.
(** What is slept before the rounds after the [k] first ones. *)
Definition slept (attempt : Z) (k : nat) : Z := retryDelayMs * (Z.of_nat k * attempt + Z.of_nat k * (Z.of_nat k - 1) / 2).
Lemma slept_S attempt k : slept attempt (S k) = retryDelayMs * attempt + slept (attempt + 1) k.
Proof.
  unfold slept. rewrite <- Z.mul_add_distr_l. f_equal. rewrite Nat2Z.inj_succ.
  replace (Z.succ (Z.of_nat k) * (Z.succ (Z.of_nat k) - 1)) with (Z.of_nat k * (Z.of_nat k - 1) + Z.of_nat k * 2) by lia.
  rewrite Z.div_add by lia. lia.
Qed.
Lemma run_attempt_ok rounds attempt p w :
  mg_connect mongoose (po_uri options) connectTimeoutMs (server p) = (w, inr tt) →
  run (attempts (S rounds) attempt) p = (mkPool true (Some (time p)) None w (time p), inr tt).
Proof.
  intros Hc. cbn [attempts]. unfold driver, write. rewrite run_bind, run_catch, !run_bind. cbn [run]. rewrite Hc. reflexivity.
Qed.
Lemma run_attempt_failed rounds attempt p w e :
  mg_connect mongoose (po_uri options) connectTimeoutMs (server p) = (w, inl e) →
  run (attempts (S rounds) attempt) p =
  run (attempts rounds (attempt + 1))
    (mkPool (connected p) (connectedAt p) (Some (err_message e)) w (time p + if attempt <? maxRetries then retryDelayMs * attempt else 0)).
Proof.
  intros Hc. cbn [attempts]. unfold driver, sleep, write. rewrite run_bind, run_catch, !run_bind. cbn [run]. rewrite Hc. cbn [run].
  rewrite !run_bind. cbn [run]. destruct (attempt <? maxRetries); cbn; [rewrite (Z.add_comm (time p))|rewrite Z.add_0_r]; reflexivity.
Qed.

(** C27: Connecting ends, and how it ends is settled by the first attempts: it succeeds as
    soon as one of the first [maxRetries] attempts does, after waiting once, twice and so
    on the delay for those before; when all of them fail it throws the last error after
    as many attempts, the wait after the last one left out.  Nothing else is tried, and a
    pool that is connected tries nothing. *)
Theorem connect_outcome (p : Pool W) :
  connected p = false →
  (∃ k w1 last w2, Z.of_nat k < maxRetries ∧ refused k (lastError p) (server p) = Some (w1, last) ∧
     mg_connect mongoose (po_uri options) connectTimeoutMs w1 = (w2, inr tt) ∧
     run connect p = (mkPool true (Some (time p + slept 1 k)) None w2 (time p + slept 1 k), inr tt)) ∨
  (∃ w last, refused (Z.to_nat maxRetries) (lastError p) (server p) = Some (w, last) ∧
     run connect p = (mkPool false (connectedAt p) last w (time p + slept 1 (Z.to_nat maxRetries - 1)), inl (failed_to_connect last))).
Proof.
  intros Hc. unfold connect, read. rewrite run_bind. cbn [run]. rewrite Hc.
  assert (∀ rounds attempt p, connected p = false → attempt + Z.of_nat rounds = maxRetries + 1 →
    (∃ k w1 last w2, (k < rounds)%nat ∧ refused k (lastError p) (server p) = Some (w1, last) ∧
       mg_connect mongoose (po_uri options) connectTimeoutMs w1 = (w2, inr tt) ∧
       run (attempts rounds attempt) p = (mkPool true (Some (time p + slept attempt k)) None w2 (time p + slept attempt k), inr tt)) ∨
    (∃ w last, refused rounds (lastError p) (server p) = Some (w, last) ∧
       run (attempts rounds attempt) p = (mkPool false (connectedAt p) last w (time p + slept attempt (rounds - 1)), inl (failed_to_connect last)))) as H.
  { clear p Hc. induction rounds as [|rounds IH]; intros attempt p Hc Ha.
    - right. exists (server p), (lastError p). split; [done|]. cbn [attempts]. unfold read. rewrite run_bind. cbn. unfold slept. cbn.
      rewrite Z.mul_0_r, Z.add_0_r. by destruct p; cbn in *; subst.
    - destruct (mg_connect mongoose (po_uri options) connectTimeoutMs (server p)) as [w [e|[]]] eqn:Hm.
      + rewrite (run_attempt_failed _ _ _ _ _ Hm). cbn [refused]. rewrite Hm.
        destruct rounds as [|rounds].
        * right. exists w, (Some (err_message e)). split; [done|]. cbn [attempts]. unfold read. rewrite run_bind. cbn.
          rewrite (proj2 (Z.ltb_ge _ _)) by lia. unfold slept. cbn. by rewrite Hc, Z.mul_0_r.
        * rewrite (proj2 (Z.ltb_lt _ _)) by lia.
          destruct (IH (attempt + 1) (mkPool (connected p) (connectedAt p) (Some (err_message e)) w (time p + retryDelayMs * attempt)) Hc ltac:(lia))
            as [(k & w1 & last & w2 & Hk & Hf & Hok & Hr)|(w' & last & Hf & Hr)];
            cbn [connected connectedAt lastError server time] in Hf, Hr.
          -- left. exists (S k), w1, last, w2. split; [lia|]. cbn [refused]. rewrite Hm. split; [done|]. split; [done|]. rewrite Hr.
             by rewrite slept_S, Z.add_assoc.
          -- right. exists w', last. split; [done|]. rewrite Hr. replace (S (S rounds) - 1)%nat with (S (rounds - 0)) by lia. rewrite slept_S, Z.add_assoc. done.
      + left. exists 0%nat, (server p), (lastError p), w. split; [lia|]. split; [done|]. split; [done|]. rewrite (run_attempt_ok _ _ _ _ Hm).
        unfold slept. cbn. by rewrite Z.mul_0_r, Z.add_0_r. }
  destruct (Z.le_gt_cases maxRetries 0) as [Hz|Hz].
  - right. exists (server p), (lastError p). replace (Z.to_nat maxRetries) with O by lia. split; [done|]. cbn [attempts]. unfold read.
    rewrite run_bind. cbn. unfold slept. cbn. rewrite Z.mul_0_r, Z.add_0_r. by destruct p; cbn in *; subst.
  - destruct (H (Z.to_nat maxRetries) 1 p Hc ltac:(lia)) as [(k & w1 & last & w2 & Hk & Hx)|Hx]; [left|by right].
    exists k, w1, last, w2. split; [lia|done].
Qed.
End pool.

(** ** The Redis connection *)
Record SentinelConfig := mkSentinelConfig {
  sn_masterName : string; sn_sentinels : list (string * Z); sn_password : option string; sn_db : option Z; sn_sentinelPassword : option string }.
Record ClusterConfig := mkClusterConfig { cl_nodes : list (string * Z); cl_password : option string; cl_readOnlyReplicas : option bool }.
Inductive NodeRole := Master | SentinelNode | ClusterNode.
Inductive NodeStatus := Healthy | Degraded | Down.
Record NodeHealth := mkNodeHealth { nh_host : string; nh_port : Z; nh_role : NodeRole; nh_latencyMs : Z; nh_status : NodeStatus }.
Record ClusterHealth := mkClusterHealth { hc_overall : NodeStatus; hc_nodes : list NodeHealth; hc_checkedAt : Z }.
Inductive RedisTopology := Standalone | Sentinel | Cluster.
Record EnhancedRedisManagerOptions := mkEnhancedRedisManagerOptions {
  eo_url : option string; eo_sentinel : option SentinelConfig; eo_cluster : option ClusterConfig; eo_namespace : option string;
  eo_connectTimeoutMs : option Z; eo_maxRetriesPerRequest : option Z; eo_retryStrategy : option (Z → option Z) }.
(** What a client is made with. *)
Record RedisSettings := mkRedisSettings { rs_connectTimeout : Z; rs_maxRetriesPerRequest : Z; rs_retryStrategy : Z → option Z }.
Inductive RedisTarget :=
| ToSentinel (sentinels : list (string * Z)) (name : string) (password : option string) (db : Z) (sentinelPassword : option string)
| ToCluster (nodes : list (string * Z)) (password : option string) (scaleReads : string)
| ToUrl (url : string).
(** The driver, over clients [C]; a client need not have every command. *)
Record Ioredis (C W : Type) := mkIoredis {
  io_new : RedisTarget → RedisSettings → W → W * (exn + C);
  io_connect : C → W → W * (exn + ());
  io_ping : C → option (W → W * (exn + ()));
  io_setHealth : C → option (W → W * (exn + ()));
  io_disconnect : C → option (W → W * (exn + ()));
  io_status : C → W → string;
  io_now : W → Z }.
Arguments io_new {C W}.
Arguments io_connect {C W}.
Arguments io_ping {C W}.
Arguments io_setHealth {C W}.
Arguments io_disconnect {C W}.
Arguments io_status {C W}.
Arguments io_now {C W}.
Record RedisManager (C W : Type) := mkRedisManager {
  rm_client : option C; rm_connected : bool; rm_cache : option C; rm_server : W }.
Arguments mkRedisManager {C W}.
Arguments rm_client {C W}.
Arguments rm_connected {C W}.
Arguments rm_cache {C W}.
Arguments rm_server {C W}.
#[export] Instance settable_RedisManager C W : Settable (RedisManager C W) := {| eta_expand := λ m,
  mkRedisManager (rm_client m) (rm_connected m) (rm_cache m) (rm_server m) |}.

Section redis.
Context {C W : Type} (ioredis : Ioredis C W) (options : EnhancedRedisManagerOptions).
Notation M := (prog (RedisManager C W)).
Definition topology : RedisTopology :=
  match eo_sentinel options, eo_cluster options with Some _, _ => Sentinel | None, Some _ => Cluster | None, None => Standalone end.
Definition default_retry (times : Z) : option Z := if 10 <? times then None else Some (Z.min (times * 200) 5000).
Definition settings : RedisSettings :=
  mkRedisSettings (nullish (eo_connectTimeoutMs options) 3000) (nullish (eo_maxRetriesPerRequest options) 2)
    (nullish (eo_retryStrategy options) default_retry).
Definition new_manager (w : W) : RedisManager C W := mkRedisManager None false None w.
Definition connectedClient (m : RedisManager C W) : option C := if rm_connected m then rm_client m else None.
Definition rget {A} (f : RedisManager C W → A) : M A := Atom (λ m, (m, f m)) Ret.
Definition rset (f : RedisManager C W → RedisManager C W) : M () := Atom (λ m, (f m, tt)) Ret.
Definition redis_driver {A} (f : W → W * (exn + A)) : M A :=
  r ← Atom (λ m, let '(w, r) := f (rm_server m) in (m <| rm_server := w |>, r)) Ret;
  match r with inr a => mret a | inl e => Throw e end.
Definition target : exn + RedisTarget :=
  match topology, eo_sentinel options, eo_cluster options with
  | Sentinel, Some c, _ => inr (ToSentinel (sn_sentinels c) (sn_masterName c) (sn_password c) (nullish (sn_db c) 0) (sn_sentinelPassword c))
  | Cluster, _, Some c => inr (ToCluster (cl_nodes c) (cl_password c) (if nullish (cl_readOnlyReplicas c) false then "slave" else "master"))
  | _, _, _ => if truthy (eo_url options) then inr (ToUrl (nullish (eo_url options) ""))
               else inl (JsError "EnhancedRedisManager: no connection target configured")
  end.
(** [connectSentinel], [connectCluster] and [connectStandalone]. *)
Definition connect_to (t : RedisTarget) : M () :=
  c ← redis_driver (io_new ioredis t settings);
  rset (λ m, m <| rm_cache := Some c |>) ;;
  rset (λ m, m <| rm_client := Some c |>) ;;
  redis_driver (io_connect ioredis c) ;;
  rset (λ m, m <| rm_connected := true |>).
Definition redis_connect : M () :=
  busy ← rget (λ m, bool_decide (is_Some (rm_client m)) || rm_connected m);
  if (busy : bool) then mret tt
  else match target with inr t => connect_to t | inl e => Throw e end.
Definition rnow : M Z := rget (λ m, io_now ioredis (rm_server m)).
Definition checkNode (role : NodeRole) (node : string * Z) : M NodeHealth :=
  start ← rnow;
  t ← rnow;
  mret (mkNodeHealth node.1 node.2 role (t - start) Healthy).
Fixpoint check_nodes (role : NodeRole) (l : list (string * Z)) : M (list NodeHealth) :=
  match l with [] => mret [] | n :: l => h ← checkNode role n; hs ← check_nodes role l; mret (h :: hs) end.
Definition check_primary (c : C) : M NodeHealth :=
  start ← rnow;
  try_catch
    (match io_ping ioredis c with Some f => redis_driver f | None => mret tt end ;;
     t ← rnow;
     mret (mkNodeHealth "primary" 0 Master (t - start) Healthy))
    (λ _, t ← rnow; mret (mkNodeHealth "primary" 0 Master (t - start) Down)).
Definition is_down (n : NodeHealth) : bool := match nh_status n with Down => true | _ => false end.
Definition overall_of (nodes : list NodeHealth) : NodeStatus :=
  let downCount := length (List.filter is_down nodes) in
  if (downCount =? 0)%nat then Healthy else if (downCount <? length nodes)%nat then Degraded else Down.
Definition healthCheck : M ClusterHealth :=
  nodes ← match eo_sentinel options, eo_cluster options with
          | Some c, _ => check_nodes SentinelNode (sn_sentinels c)
          | None, Some c => check_nodes ClusterNode (cl_nodes c)
          | None, None => mret []
          end;
  primary ← rget connectedClient;
  all ← match primary with Some c => n ← check_primary c; mret (nodes ++ [n]) | None => mret nodes end;
  t ← rnow;
  mret (mkClusterHealth (overall_of all) all t).
Definition isHealthy : M bool :=
  try_catch
    (c ← rget rm_client;
     match c with
     | None => mret false
     | Some c =>
       s ← rget (λ m, io_status ioredis c (rm_server m));
       if negb (String.eqb s "ready") then mret false
       else match io_setHealth ioredis c with Some f => redis_driver f | None => mret tt end ;; mret true
     end)
    (λ _, mret false).
Definition redis_disconnect : M () :=
  finally
    (rset (λ m, m <| rm_connected := false |>) ;;
     c ← rget rm_client;
     match c with
     | Some c => match io_disconnect ioredis c with Some f => redis_driver f | None => mret tt end
     | None => mret tt
     end)
    (rset (λ m, m <| rm_client := None |>) ;; rset (λ m, m <| rm_cache := None |>)).

(** A connection that fails at first is never tried again.  The client is kept
    before it connects, so when connecting throws the manager holds a client it does not
    count as connected; each later [connect] returns at once, as if all were well,
    without a command to the driver. *)
Theorem failed_connect_never_retried (m m' : RedisManager C W) c e :
  rm_client m = None → rm_connected m = false → run redis_connect m = (m', inl e) → rm_client m' = Some c →
  connectedClient m' = None ∧ rm_cache m' = Some c ∧ run redis_connect m' = (m', inr tt).
Proof.
  intros Hc Hn Hr Hc'. assert (rm_connected m' = false ∧ rm_cache m' = Some c) as [Hn' Hk].
  { unfold redis_connect, rget in Hr. rewrite run_bind in Hr. cbn [run] in Hr. rewrite Hc, Hn, bool_decide_false in Hr by (by intros [? ?]). cbn [orb] in Hr.
    destruct target as [x|t]; [injection Hr as <- _; congruence|].
    unfold connect_to, redis_driver, rset in Hr. cbn [run mbind prog_mbind prog_bind] in Hr.
    destruct (io_new ioredis t settings (rm_server m)) as [w [x|c']]; cbn in Hr; [injection Hr as <- _; cbn in Hc'; congruence|].
    destruct (io_connect ioredis c' w) as [w' [x|[]]]; cbn in Hr; [|done]. injection Hr as <- _. cbn in *. split; [done|congruence]. }
  unfold connectedClient. rewrite Hn'. split; [done|]. split; [done|].
  unfold redis_connect, rget. rewrite run_bind. cbn [run]. rewrite Hc'. cbn. done.
Qed.

Lemma run_check_nodes role l m :
  run (check_nodes role l) m = (m, inr (map (λ n, mkNodeHealth n.1 n.2 role 0 Healthy) l)).
Proof.
  induction l as [|n l IH]; [done|]. cbn [check_nodes]. rewrite run_bind.
  assert (run (checkNode role n) m = (m, inr (mkNodeHealth n.1 n.2 role 0 Healthy))) as ->.
  { unfold checkNode, rnow, rget. cbn. by rewrite Z.sub_diag. }
  by rewrite run_bind, IH.
Qed.
(** Whether the ping of the connected client fails. *)
Definition ping_fails (m : RedisManager C W) : bool :=
  match connectedClient m with
  | Some c => match io_ping ioredis c with Some f => match (f (rm_server m)).2 with inl _ => true | inr _ => false end | None => false end
  | None => false
  end.
Lemma no_node_down role l : List.filter is_down (map (λ n : string * Z, mkNodeHealth n.1 n.2 role 0 Healthy) l) = [].
Proof. induction l as [|n l IH]; [done|]. exact IH. Qed.

(** The health check looks at one thing: the ping of the connected client.  It never
    throws; what it reports is healthy unless that ping fails, so a manager that was
    never connected, or whose connection failed, is healthy; and when the ping fails the
    manager is down only if no node is configured, for the nodes are not asked and count
    as healthy. *)
Theorem health_is_the_ping (m : RedisManager C W) :
  ∃ m' h, run healthCheck m = (m', inr h) ∧
    hc_overall h = (if ping_fails m then
                      match eo_sentinel options, eo_cluster options with
                      | Some c, _ => if bool_decide (sn_sentinels c = []) then Down else Degraded
                      | None, Some c => if bool_decide (cl_nodes c = []) then Down else Degraded
                      | None, None => Down
                      end
                    else Healthy).
Proof.
  unfold healthCheck. rewrite run_bind.
  set (nodes := match eo_sentinel options, eo_cluster options with
                | Some c, _ => map (λ n : string * Z, mkNodeHealth n.1 n.2 SentinelNode 0 Healthy) (sn_sentinels c)
                | None, Some c => map (λ n : string * Z, mkNodeHealth n.1 n.2 ClusterNode 0 Healthy) (cl_nodes c)
                | None, None => [] end).
  assert (run (match eo_sentinel options, eo_cluster options with
          | Some c, _ => check_nodes SentinelNode (sn_sentinels c)
          | None, Some c => check_nodes ClusterNode (cl_nodes c)
          | None, None => mret []
          end) m = (m, inr nodes)) as ->.
  { unfold nodes. destruct (eo_sentinel options), (eo_cluster options); by rewrite ?run_check_nodes. }
  assert (List.filter is_down nodes = []) as Hd by (unfold nodes; destruct (eo_sentinel options), (eo_cluster options); try apply no_node_down; done).
  assert (∀ n, nh_status n = Healthy → overall_of (nodes ++ [n]) = Healthy) as Hup.
  { intros n Hn. unfold overall_of. rewrite List.filter_app, Hd. cbn. unfold is_down. by rewrite Hn. }
  assert (∀ n, nh_status n = Down → overall_of (nodes ++ [n]) = match nodes with [] => Down | _ => Degraded end) as Hdown.
  { intros n Hn. unfold overall_of. rewrite List.filter_app, Hd. cbn. unfold is_down. rewrite Hn. cbn. rewrite length_app.
    destruct nodes as [|x l]; cbn; [done|]. rewrite Nat.add_1_r. by destruct l. }
  assert (match nodes with [] => Down | _ => Degraded end =
          match eo_sentinel options, eo_cluster options with
          | Some c, _ => if bool_decide (sn_sentinels c = []) then Down else Degraded
          | None, Some c => if bool_decide (cl_nodes c = []) then Down else Degraded
          | None, None => Down end) as Hn.
  { unfold nodes. destruct (eo_sentinel options) as [c|]; [by destruct (sn_sentinels c)|]. destruct (eo_cluster options) as [c|]; [by destruct (cl_nodes c)|done]. }
  rewrite <- Hn. unfold rget at 1. rewrite run_bind. cbn [run]. unfold ping_fails. destruct (connectedClient m) as [c|].
  - rewrite run_bind, run_bind. unfold check_primary, rnow, rget. rewrite run_bind. cbn [run]. rewrite run_catch, run_bind.
    destruct (io_ping ioredis c) as [f|].
    + unfold redis_driver. rewrite !run_bind. cbn [run]. destruct (f (rm_server m)) as [w [e|[]]]; cbn; do 2 eexists; (split; [reflexivity|]);
        [by apply Hdown|by apply Hup].
    + cbn. do 2 eexists. split; [reflexivity|]. by apply Hup.
  - cbn. do 2 eexists. split; [reflexivity|]. cbn. unfold overall_of. by rewrite Hd.
Qed.
End redis.

(** * Query statistics

    [packages/core/src/services/infrastructure/query-optimizer.ts]: the bounded log of
    slow queries, the suggestions and the statistics over it.  Durations and counts are
    integers; a quotient of two of them is compared and rounded as the exact one, which
    it is below 2^40; the index of the percentile is that of the double 0.95. *)

(** ** Data *)
Inductive Impact := High | Medium | Low.
Record IndexSuggestion := mkIndexSuggestion {
  is_collection : string; is_key : list string; is_reason : string; is_estimatedImpact : Impact }.
Record QueryEntry := mkQueryEntry {
  qe_namespace : string; qe_operation : string; qe_filter : list (string * json); qe_durationMs : Z;
  qe_docsExamined : Z; qe_docsReturned : Z; qe_indexesUsed : list string }.
Record SlowQueryEntry := mkSlowQueryEntry { sq_entry : QueryEntry; sq_timestamp : Z; sq_suggestion : option IndexSuggestion }.
Record CollectionStats := mkCollectionStats { st_collection : string; st_count : Z; st_avgMs : Z }.
Record QueryStats := mkQueryStats {
  st_totalQueries : Z; st_slowQueries : Z; st_avgDurationMs : Z; st_p95DurationMs : Z; st_topSlowCollections : list CollectionStats }.
Record QueryOptimizer := mkQueryOptimizer {
  slowQueries : list SlowQueryEntry; thresholdMs : Z; maxEntries : Z; enableSuggestions : bool }.
#[export] Instance settable_QueryOptimizer : Settable QueryOptimizer := {| eta_expand := λ q,
  mkQueryOptimizer (slowQueries q) (thresholdMs q) (maxEntries q) (enableSuggestions q) |}.
Definition new_optimizer (slowQueryThresholdMs maxRetriedEntries : option Z) (suggestions : option bool) : QueryOptimizer :=
  mkQueryOptimizer [] (nullish slowQueryThresholdMs 100) (nullish maxRetriedEntries 1000) (nullish suggestions true).

(** ** Recording *)
(** [examined / returned > n], with [returned > 0]. *)
Definition ratio_above (n examined returned : Z) : bool := (0 <? returned) && (n * returned <? examined).
Definition generateSuggestion (e : QueryEntry) : option IndexSuggestion :=
  if ratio_above 5 (qe_docsExamined e) (qe_docsReturned e) then
    let filterKeys := List.filter (λ k, negb (String.eqb k "_id")) (map fst (qe_filter e)) in
    match filterKeys with
    | [] => None
    | _ => Some (mkIndexSuggestion (qe_namespace e) filterKeys
                   ("High doc-examined ratio. Consider an index on: " +:+ String.concat ", " filterKeys)
                   (if ratio_above 20 (qe_docsExamined e) (qe_docsReturned e) then High else Medium))
    end
  else None.
(** [a.splice(0, a.length - max)] when there are more than [max]. *)
Definition evict (max : Z) (l : list SlowQueryEntry) : list SlowQueryEntry :=
  if max <? Z.of_nat (length l) then drop (Z.to_nat (Z.of_nat (length l) - max)) l else l.
Definition record (e : QueryEntry) (t : Z) (q : QueryOptimizer) : QueryOptimizer :=
  if qe_durationMs e <? thresholdMs q then q
  else q <| slowQueries := evict (maxEntries q)
       (slowQueries q ++ [mkSlowQueryEntry e t (if enableSuggestions q then generateSuggestion e else None)]) |>.
Definition getSlowQueries (collection : option string) (q : QueryOptimizer) : list SlowQueryEntry :=
  if truthy collection then List.filter (λ s, String.eqb (qe_namespace (sq_entry s)) (nullish collection "")) (slowQueries q)
  else slowQueries q.
Definition clear (q : QueryOptimizer) : QueryOptimizer := q <| slowQueries := [] |>.

(** ** Explained plans

    The namespace is a text or missing, the counts are numbers or missing, as MongoDB
    sends them; a namespace of another kind throws. *)
Definition not_text (what : string) : exn := JsError (what +:+ " is not a function").
(** [o[k]] of an object that may be missing or of another kind. *)
Definition member (o : option json) (k : string) : option json := match o with Some (JObj l) => obj_get k l | _ => None end.
Definition truthy_json (v : option json) : bool :=
  match v with
  | None | Some JNull | Some (JBool false) => false
  | Some (JStr s) => negb (String.eqb s "")
  | Some (JNum n) => negb (n =? 0)
  | _ => true
  end.
(** [namespace.split('.')[1]]: what is between the first dot and the second. *)
Definition second_part (s : string) : string := match split_dot s with _ :: x :: _ => x | _ => "" end.
Definition has_dot (s : string) : bool := match split_dot s with _ :: _ :: _ => true | _ => false end.
Definition number_or_zero (v : option json) : Z := match v with Some (JNum n) => n | _ => 0 end.
Definition suggestion (collection reason : string) (impact : Impact) : IndexSuggestion := mkIndexSuggestion collection ["_id"%string] reason impact.
Definition analyseExplain (explainOutput : list (string * json)) : exn + list IndexSuggestion :=
  let planning := obj_get "queryPlanner" explainOutput in
  let execution := obj_get "executionStats" explainOutput in
  if negb (truthy_json planning) || negb (truthy_json execution) then inr []
  else
    match member planning "namespace" with
    | Some (JNum _) | Some (JBool _) | Some (JObj _) | Some (JArr _) => inl (not_text "namespace.includes")
    | ns =>
      let namespace := match ns with Some (JStr s) => s | _ => "" end in
      let collection := if has_dot namespace then second_part namespace else namespace in
      let winningPlan := member planning "winningPlan" in
      let docsExamined := number_or_zero (member execution "totalDocsExamined") in
      let docsReturned := number_or_zero (member execution "totalDocsReturned") in
      inr ((if truthy_json winningPlan && match member winningPlan "stage" with Some (JStr s) => String.eqb s "COLLSCAN" | _ => false end
            then [suggestion collection "No index used (collection scan). Add a targeted index for the query filter." High] else []) ++
           (if ratio_above 10 docsExamined docsReturned
            then [suggestion collection ("High doc-examined ratio (" +:+ js_String docsExamined +:+ ":" +:+ js_String docsReturned +:+
                    "). Consider a more selective index.") Medium] else []) ++
           match member planning "indexFilterSet" with
           | Some (JBool false) => [suggestion collection "No index filters applied. Ensure indexes cover the query predicates." Medium]
           | _ => []
           end)
    end.

(** ** Statistics *)
(** [Math.round(a / b)] for positive [b]. *)
Definition round_ratio (a b : Z) : Z := (2 * a + b) / (2 * b).
Definition num_floor (x : num) : Z :=
  match x with
  | S754_finite s m e => let v := (if s then -1 else 1) * Zpos m in if 0 <=? e then v * 2 ^ e else v / 2 ^ (- e)
  | _ => 0
  end.
Definition p95Index (total : Z) : Z := num_floor (num_mul (num_of_Z total) (lit 95)).
Definition durations (q : QueryOptimizer) : list Z := map (λ s, qe_durationMs (sq_entry s)) (slowQueries q).
Definition total_of (l : list Z) : Z := foldl Z.add 0 l.
(** The map from collections to counts and totals. *)
Fixpoint by_collection (m : list (string * (Z * Z))) (l : list SlowQueryEntry) : list (string * (Z * Z)) :=
  match l with
  | [] => m
  | e :: l =>
    let coll := qe_namespace (sq_entry e) in
    let d := qe_durationMs (sq_entry e) in
    by_collection (map_set coll match map_get coll m with Some (c, t) => (c + 1, t + d) | None => (1, d) end m) l
  end.
Definition top_collections (q : QueryOptimizer) : list CollectionStats :=
  take 10 (sort_by (λ c, - st_avgMs c)
    (map (λ kv : string * (Z * Z), mkCollectionStats kv.1 kv.2.1 (round_ratio kv.2.2 kv.2.1)) (by_collection [] (slowQueries q)))).
Definition query_stats (q : QueryOptimizer) : QueryStats :=
  match slowQueries q with
  | [] => mkQueryStats 0 0 0 0 []
  | _ =>
    let total := Z.of_nat (length (slowQueries q)) in
    let sorted := sort_by id (durations q) in
    mkQueryStats total total (round_ratio (total_of (durations q)) total)
      (nth (Z.to_nat (p95Index total)) sorted (List.last sorted 0)) (top_collections q)
  end.

(** ** The log is a window *)
Definition slow_entries (q : QueryOptimizer) (l : list (QueryEntry * Z)) : list SlowQueryEntry :=
  map (λ et : QueryEntry * Z, mkSlowQueryEntry et.1 et.2 (if enableSuggestions q then generateSuggestion et.1 else None))
    (List.filter (λ et, thresholdMs q <=? qe_durationMs et.1) l).
Definition record_all (l : list (QueryEntry * Z)) (q : QueryOptimizer) : QueryOptimizer := foldl (λ q et, record et.1 et.2 q) q l.
Definition last_of (max : Z) (l : list SlowQueryEntry) : list SlowQueryEntry := drop (length l - Z.to_nat max) l.
Lemma evict_last max l : 0 <= max → evict max l = last_of max l.
Proof.
  intros Hm. unfold evict, last_of. destruct (Z.ltb_spec max (Z.of_nat (length l))).
  - f_equal. lia.
  - replace (length l - Z.to_nat max)%nat with 0%nat by lia. done.
Qed.
Lemma last_of_snoc max l x : 0 <= max → last_of max (last_of max l ++ [x]) = last_of max (l ++ [x]).
Proof.
  intros Hm. unfold last_of. rewrite !length_app, length_drop. cbn [length]. set (n := length l). set (k := Z.to_nat max).
  destruct (decide (n <= k)%nat).
  - replace (n - k)%nat with 0%nat by lia. by rewrite drop_0, Nat.sub_0_r.
  - replace (n - (n - k) + 1 - k)%nat with 1%nat by lia. destruct k as [|k'] eqn:Hk.
    + rewrite (drop_ge l) by lia. cbn. rewrite drop_ge by (rewrite length_app; cbn; lia). done.
    + rewrite !drop_app_le by (rewrite ?length_drop; lia). rewrite drop_drop. do 2 f_equal. lia.
Qed.

Lemma slow_entries_app q l1 l2 : slow_entries q (l1 ++ l2) = slow_entries q l1 ++ slow_entries q l2.
Proof. unfold slow_entries. by rewrite List.filter_app, map_app. Qed.
Lemma record_all_last q0 l :
  0 <= maxEntries q0 → slowQueries q0 = [] →
  let q := record_all l q0 in
  slowQueries q = last_of (maxEntries q0) (slow_entries q0 l) ∧ thresholdMs q = thresholdMs q0 ∧ maxEntries q = maxEntries q0 ∧
  enableSuggestions q = enableSuggestions q0.
Proof.
  intros Hm Hq. cbv zeta. induction l as [|[e t] l IH] using rev_ind; [unfold record_all; cbn; by rewrite Hq|].
  unfold record_all in *. rewrite foldl_app. cbn [foldl fst snd]. destruct IH as (Hs & Ht & Hx & He).
  set (q := foldl _ q0 l) in *. unfold record. rewrite Ht.
  rewrite slow_entries_app. unfold slow_entries at 2. cbn [List.filter fst].
  rewrite Z.leb_antisym. destruct (qe_durationMs e <? thresholdMs q0); cbn [negb map].
  - by rewrite app_nil_r.
  - cbn. rewrite Hx, evict_last, Hs, He by done. by rewrite last_of_snoc.
Qed.
(** The counts of the map. *)
Definition counted (m : list (string * (Z * Z))) : Z := foldr (λ kv a, kv.2.1 + a) 0 m.
Lemma counted_set k v m :
  counted (map_set k v m) = counted m + v.1 - match map_get k m with Some x => x.1 | None => 0 end.
Proof.
  unfold counted in *. induction m as [|[k' v'] m IH]; cbn [map_set map_get foldr fst snd]; [lia|].
  destruct (String.eqb k k'); cbn [foldr fst snd]; [lia|]. rewrite IH. lia.
Qed.
Lemma counted_all m l : counted (by_collection m l) = counted m + Z.of_nat (length l).
Proof.
  revert m. induction l as [|e l IH]; intros m; cbn [by_collection length]; [lia|]. rewrite IH, counted_set.
  destruct (map_get _ m) as [[c t]|]; cbn; lia.
Qed.
Lemma sorted_take {A} (R : A → A → Prop) n l : StronglySorted R l → StronglySorted R (take n l).
Proof. intros Hs. rewrite <- (take_drop n l) in Hs. by apply StronglySorted_app_1_l in Hs. Qed.

Lemma sorted_impl {A} (R R' : A → A → Prop) l : (∀ a b, R a b → R' a b) → StronglySorted R l → StronglySorted R' l.
Proof. intros Hi. induction 1 as [|x l Hl IH Hx]; constructor; [done|]. eapply Forall_impl; [exact Hx|]. auto. Qed.

(** C33: The log of slow queries is the window it is meant to be.  After any queries the
    log of a fresh optimizer holds the most recent [maxEntries] of those that took at
    least the threshold, in order and each once, never more than the limit; the totals
    of the collections count each entry once, and the list of collections is ordered by
    the rounded mean, the slowest first. *)
Theorem slow_log_is_a_window threshold max suggestions l :
  0 <= nullish max 1000 →
  let q0 := new_optimizer threshold max suggestions in
  let q := record_all l q0 in
  slowQueries q = last_of (nullish max 1000) (slow_entries q0 l) ∧
  Z.of_nat (length (slowQueries q)) <= nullish max 1000 ∧
  counted (by_collection [] (slowQueries q)) = st_totalQueries (query_stats q) ∧
  StronglySorted (λ a b, st_avgMs b <= st_avgMs a) (top_collections q).
Proof.
  intros Hm q0 q. destruct (record_all_last q0 l Hm eq_refl) as (Hs & _). fold q in Hs. split; [exact Hs|]. split; [|split].
  - rewrite Hs. unfold last_of. rewrite length_drop. change (maxEntries q0) with (nullish max 1000). lia.
  - rewrite counted_all. unfold query_stats. by destruct (slowQueries q).
  - unfold top_collections. apply sorted_take. eapply sorted_impl; [|apply (sort_by_sorted (λ c, - st_avgMs c))]. cbn. intros a b Hab. lia.
Qed.

(** * Plugins

    [packages/core/src/plugins]: the hooks, the loader with its cache of modules and the
    manager.  A module is a parameter, with what the code reads of it: the entries of the
    object it exports as its hooks, and the list when that is an array.  Handlers are
    values that can be compared, and running one is a parameter too: it acts on the world
    outside, and does not itself register handlers for the event being run. *)

Section plugins.
Context {W H Mod : Type} `{!EqDecision H}
  (import : string → W → W * (exn + Mod)) (resolved : string → string)
  (hook_entries : Mod → list (string * option H)) (hook_names : Mod → option (list string))
  (handle : H → string → W → W * (exn + ())).

(** ** [hooks.ts] *)
Definition Hooks : Type := list (string * list H).
Definition handlers_of (name : string) (h : Hooks) : list H := nullish (map_get name h) [].
Definition register (name : string) (handler : H) (h : Hooks) : Hooks := map_set name (handlers_of name h ++ [handler]) h.
(** What the function [register] returns does. *)
Definition unregister (name : string) (handler : H) (h : Hooks) : Hooks :=
  map_set name (List.filter (λ entry, negb (bool_decide (entry = handler))) (handlers_of name h)) h.
Definition has_hook (name : string) (h : Hooks) : bool := (0 <? length (handlers_of name h))%nat.
Fixpoint run_handlers (l : list H) (event : string) (w : W) : W * bool :=
  match l with
  | [] => (w, true)
  | x :: l => match handle x event w with (w, inr _) => run_handlers l event w | (w, inl _) => (w, false) end
  end.
Definition run_hook (name : string) (h : Hooks) (w : W) : W * bool := run_handlers (handlers_of name h) name w.

(** ** [plugin-loader.ts] *)
Record PluginManifest := mkPluginManifest { mf_name : string; mf_version : string; mf_entry : string; mf_enabled : option bool }.
Record LoadedPlugin := mkLoadedPlugin { lp_manifest : PluginManifest; lp_exports : Mod; lp_hooks : option (list string) }.
Definition starts_with_any (l : list string) (s : string) : bool :=
  existsb (λ p, String.eqb p (String.substring 0 (String.length p) s)) l.
Definition resolveUrl (specifier : string) : string :=
  if starts_with_any ["."; "/"; "file:"]%string specifier then resolved specifier else specifier.
(** ** [plugin-manager.ts] *)
Inductive PluginState := Active | Disabled | Errored.
Record PluginStatus := mkPluginStatus {
  ps_manifest : PluginManifest; ps_exports : option Mod; ps_hooks : option (list string); ps_state : PluginState; ps_lastError : option string }.
(** The module cache, the hooks and the maps of the manager. *)
Record Manager := mkManager {
  cache : list (string * Mod); hooks : Hooks; statuses : list (string * PluginStatus); loadedPlugins : list (string * LoadedPlugin);
  outer : W }.
#[export] Instance settable_Manager : Settable Manager := {| eta_expand := λ m,
  mkManager (cache m) (hooks m) (statuses m) (loadedPlugins m) (outer m) |}.
Definition load_module (enabledOnly : bool) (manifest : PluginManifest) : prog Manager LoadedPlugin :=
  throw_if (enabledOnly && bool_decide (mf_enabled manifest = Some false)) (JsError ("Plugin " +:+ mf_name manifest +:+ " is disabled")) ;;
  let url := resolveUrl (mf_entry manifest) in
  cached ← Atom (λ m : Manager, (m, map_get url (cache m))) Ret;
  module ← match cached with
           | Some x => mret x
           | None =>
             r ← Atom (λ m : Manager, let '(w, r) := import url (outer m) in (m <| outer := w |>, r)) Ret;
             match r with
             | inr x => Atom (λ m : Manager, (m <| cache := map_set url x (cache m) |>, tt)) Ret ;; mret x
             | inl e => Throw e
             end
           end;
  mret (mkLoadedPlugin manifest module (hook_names module)).
Fixpoint register_all (l : list (string * option H)) (h : Hooks) : Hooks :=
  match l with
  | [] => h
  | (name, Some handler) :: l => register_all l (register name handler h)
  | (_, None) :: l => register_all l h
  end.
Definition activateHooks (s : PluginStatus) (m : Manager) : Manager :=
  match ps_exports s with Some x => m <| hooks := register_all (hook_entries x) (hooks m) |> | None => m end.
Definition change (f : Manager → Manager) : prog Manager () := Atom (λ m, (f m, tt)) Ret.
Definition load (enabledOnly : bool) (mult : PluginManifest) : prog Manager PluginStatus :=
  try_catch
    (loaded ← load_module enabledOnly mult;
     change (λ m, m <| loadedPlugins := map_set (mf_name mult) loaded (loadedPlugins m) |>) ;;
     let status := mkPluginStatus (lp_manifest loaded) (Some (lp_exports loaded)) (lp_hooks loaded)
                     (if bool_decide (mf_enabled mult = Some false) then Disabled else Active) None in
     change (λ m, m <| statuses := map_set (mf_name mult) status (statuses m) |>) ;;
     (if bool_decide (mf_enabled mult = Some false) then mret tt else change (activateHooks status)) ;;
     mret status)
    (λ cause,
     let broken := mkPluginStatus mult None None Errored (Some (err_message cause)) in
     change (λ m, m <| statuses := map_set (mf_name mult) broken (statuses m) |>) ;;
     mret broken).
Definition set_status (name : string) (s : PluginStatus) (m : Manager) : Manager := m <| statuses := map_set name s (statuses m) |>.
Definition enable (name : string) (m : Manager) : Manager * option PluginStatus :=
  match map_get name (statuses m) with
  | None => (m, None)
  | Some s =>
    match ps_state s with
    | Active => (m, Some s)
    | _ =>
      match map_get name (loadedPlugins m) with
      | Some fresh =>
        let s1 := mkPluginStatus (ps_manifest s) (Some (lp_exports fresh)) (lp_hooks fresh) Active None in
        (set_status name s1 (activateHooks s1 m), Some s1)
      | None =>
        let s1 := mkPluginStatus (ps_manifest s) (ps_exports s) (ps_hooks s) Active None in
        (set_status name s1 m, Some s1)
      end
    end
  end.
Definition disable (name : string) (m : Manager) : Manager * option PluginStatus :=
  match map_get name (statuses m) with
  | None => (m, None)
  | Some s =>
    let s1 := mkPluginStatus (ps_manifest s) (ps_exports s) (ps_hooks s) Disabled (ps_lastError s) in
    (set_status name s1 m, Some s1)
  end.

(** ** What disabling does *)
Lemma handlers_register n name x h :
  handlers_of n (register name x h) = handlers_of n h ++ if String.eqb n name then [x] else [].
Proof.
  unfold handlers_of at 1, register. rewrite map_get_set. destruct (String.eqb_spec n name) as [->|]; [done|].
  by rewrite app_nil_r.
Qed.
(** The handlers a module has for a hook, in order. *)
Definition own_handlers (n : string) (l : list (string * option H)) : list H :=
  flat_map (λ e : string * option H, if String.eqb n e.1 then match e.2 with Some x => [x] | None => [] end else []) l.
Lemma handlers_register_all n l h : handlers_of n (register_all l h) = handlers_of n h ++ own_handlers n l.
Proof.
  revert h. induction l as [|[name [x|]] l IH]; intros h; cbn [register_all own_handlers flat_map fst snd].
  - by rewrite app_nil_r.
  - rewrite IH, handlers_register, <- app_assoc. by destruct (String.eqb n name).
  - rewrite IH. by destruct (String.eqb n name).
Qed.
(** [k] rounds of disabling a plugin and enabling it again. *)
Fixpoint toggled (k : nat) (name : string) (m : Manager) : Manager :=
  match k with O => m | S k => toggled k name (enable name (disable name m).1).1 end.

(** C35: A disabled plugin keeps running, and runs once more for each time it is enabled
    again.  Disabling changes the state that is shown and nothing else: every hook has
    the handlers it had; and after [k] rounds of disabling and enabling, each hook runs
    the handlers of the plugin [k] more times than before. *)
Theorem disabled_plugins_run name k (m : Manager) s loaded :
  map_get name (statuses m) = Some s → map_get name (loadedPlugins m) = Some loaded →
  (∃ s', (disable name m).2 = Some s' ∧ ps_state s' = Disabled ∧ map_get name (statuses (disable name m).1) = Some s') ∧
  hooks (disable name m).1 = hooks m ∧
  (∀ event w, run_hook event (hooks (disable name m).1) w = run_hook event (hooks m) w) ∧
  ∀ event, handlers_of event (hooks (toggled k name m)) =
           handlers_of event (hooks m) ++ concat (replicate k (own_handlers event (hook_entries (lp_exports loaded)))).
Proof.
  intros Hs Hl. assert (hooks (disable name m).1 = hooks m) as Hh by (unfold disable; by rewrite Hs).
  split; [|split; [done|split; [by intros; rewrite Hh|]]].
  - unfold disable. rewrite Hs. eexists. split; [reflexivity|]. split; [done|]. cbn. by rewrite map_get_set, String.eqb_refl.
  - intros event. clear Hh. revert m s Hs Hl. induction k as [|k IH]; intros m s Hs Hl; [by rewrite app_nil_r|].
    cbn [toggled replicate concat]. unfold disable. rewrite Hs. cbn [fst]. unfold enable, set_status at 1. cbn [statuses].
    change (statuses (set_status name ?x m)) with (map_set name x (statuses m)). unfold set_status at 1. cbn.
    rewrite map_get_set, String.eqb_refl. cbn [ps_state]. cbn. rewrite Hl. cbn.
    erewrite IH; [|cbn; by rewrite map_get_set, String.eqb_refl|cbn; exact Hl].
    cbn. rewrite handlers_register_all. by rewrite <- app_assoc.
Qed.
End plugins.
