(* ===== verification/Routes.v ===== *)
(** * The runtime and its HTTP routes

    [packages/core/src/pezhwan.ts], what a configuration makes of the services;
    [packages/express/src/routes.ts] and [routes.extra.ts], the routes over them;
    [routes.oauth.ts] and the handshake of the WebSocket. *)

From S2P Require Export AuthEngine.
From S2P Require Export OAuth.
From S2P Require Export RateLimit.
From S2P Require Import Tenancy.
From S2P Require Import JsMap.
From S2P Require Export Middleware.
From S2P Require WebSocket.

(** * The runtime

    [packages/core/src/pezhwan.ts]: what a configuration makes of the services, and
    the adoption of persisted signing keys.  The services that the routes reach are
    kept; the logger, the metrics and the trace are left out.  [files] are the keys
    the file adapter of the key store has saved last: the files of expired keys, which
    a restart prunes, are not kept. *)

Section facade.
Context {P : Platform}.

(** The overrides of [DEFAULT_CRYPTO_CONFIG]; an algorithm is a name. *)
Record CryptoOverrides := mkCryptoOverrides {
  cy_jwtSigningAlgorithm : option string; cy_tokenHashAlgorithm : option HashAlgorithm;
  cy_auditHashAlgorithm : option HashAlgorithm; cy_passwordHashParams : option Argon2Options }.
Definition no_overrides : CryptoOverrides := mkCryptoOverrides None None None None.
Record OtpConfig := mkOtpConfig {
  oc_codeLength : option nat; oc_ttlMs : option Z; oc_maxAttempts : option Z; oc_resendCooldownMs : option Z;
  oc_attemptsWindowMs : option Z }.
Definition no_otp_config : OtpConfig := mkOtpConfig None None None None None.
(** [otpDelivery], when it is given, says whether it has [sendSms]; [redis] whether a
    client is given. *)
Record PezhwanConfig := mkPezhwanConfig {
  pc_tenantId : string; pc_applicationId : string; pc_issuer : string; pc_audience : string;
  pc_accessTokenTtlMs : option Z; pc_jwtAlgorithm : option string; pc_crypto : CryptoOverrides; pc_redis : bool;
  pc_passwordPolicy : option PasswordPolicy; pc_mfaEncryptionKey : option KeySource; pc_otp : OtpConfig;
  pc_otpDelivery : option bool; pc_lookupUser : option (UserLookupInput → prog (world P) (option UserDoc));
  pc_maxActiveSessions : option Z; pc_rateLimits : RateLimitType → option RateLimitRule; pc_quota : Limits }.
Record PezhwanRuntime := mkPezhwanRuntime {
  pz_config : PezhwanConfig; pz_tokens : TokenService; pz_sessions : SessionService; pz_audit : AuditService;
  pz_authorization : AuthorizationService (P := P); pz_rateLimiter : RateLimitService; pz_auth : AuthEngine (P := P);
  pz_mfa : MfaService; pz_oauth : OAuthService; pz_verificationTokens : VerificationTokenService; pz_quota : Limits }.

Definition DEFAULT_QUOTA_LIMITS : Limits :=
  [("users", 1000); ("sessions", 10000); ("api_keys", 100); ("oath_clients", 50); ("webhooks", 20);
   ("storage_bytes", 5 * 1024 * 1024 * 1024)]%string.
Definition SUPPORTED_SIGNING_ALGORITHMS : list JwtSigningAlgorithm :=
  [RS256; ES256; EdDSA; ML_DSA_65; ML_DSA_87; hybrid_RS256_MLDSA65; hybrid_ES256_MLDSA65].
Definition unsupported_algorithm (configured : string) : exn :=
  JsError ("Pezhwan: JWT signing algorithm " +:+ quoted configured +:+ " (crypto.jwtSigningAlgorithm) is not " +:+
    "available in this build. Supported: RS256, ES256, EdDSA, ML-DSA-65, ML-DSA-87, " +:+
    "hybrid-RS256-MLDSA65, hybrid-ES256-MLDSA65.").
Definition resolveSigningAlgorithm (configured : string) : exn + JwtSigningAlgorithm :=
  match List.find (λ a, String.eqb (alg_string a) configured) SUPPORTED_SIGNING_ALGORITHMS with
  | Some a => inr a
  | None => inl (unsupported_algorithm configured)
  end.
Definition configured_algorithm (c : PezhwanConfig) : string :=
  match cy_jwtSigningAlgorithm (pc_crypto c) with Some a => a | None => nullish (pc_jwtAlgorithm c) "RS256" end.
Definition DEFAULT_HASH_PARAMS : Argon2Options := mkArgon2Options (Some 3) (Some 65536) (Some 1) None.

(** The key store is replaced by a fresh one that holds a key. *)
Definition seed_keys (a : JwtSigningAlgorithm) : prog (world P) () :=
  t ← now;
  d ← draw (λ i, i);
  s ← lift_jwt (KeyStore.ensureKey randomUUID t d (KeyStore.mkKeyStore [] a));
  act (λ w, (w <| keyStore := s |>, tt)).
Definition REFRESH_TTL_MS : Z := 30 * 24 * 60 * 60000.
Definition otp_service (c : PezhwanConfig) (sms : bool) : OtpService :=
  mkOtpService (pc_tenantId c) (pc_applicationId c) sms (oc_codeLength (pc_otp c)) (nullish (oc_ttlMs (pc_otp c)) (5 * 60000))
    (nullish (oc_maxAttempts (pc_otp c)) 5) (nullish (oc_resendCooldownMs (pc_otp c)) 30000)
    (nullish (oc_attemptsWindowMs (pc_otp c)) (15 * 60000)).
(** The services, given the algorithm and the second-factor service. *)
Definition assemble (c : PezhwanConfig) (sms : bool) (a : JwtSigningAlgorithm) (mfa : AuditService → MfaService) : PezhwanRuntime :=
  let tokenHash := nullish (cy_tokenHashAlgorithm (pc_crypto c)) sha256 in
  let tokens := mkTokenService (pc_issuer c) (pc_audience c) (nullish (pc_accessTokenTtlMs c) (15 * 60000)) REFRESH_TTL_MS a tokenHash in
  let sessions := mkSessionService tokens REFRESH_TTL_MS (nullish (pc_maxActiveSessions c) 5) in
  let audit := mkAuditService (nullish (cy_auditHashAlgorithm (pc_crypto c)) sha256) None false in
  let authorization := mkAuthorizationService (Some audit) true None in
  let verificationTokens := mkVerificationTokenService (pc_tenantId c) (pc_applicationId c) (Some audit) tokenHash in
  let auth := mkAuthEngine (pc_tenantId c) (pc_applicationId c) (pc_issuer c) (nullish (pc_passwordPolicy c) DEFAULT_PASSWORD_POLICY)
    (Some (nullish (cy_passwordHashParams (pc_crypto c)) DEFAULT_HASH_PARAMS)) tokens sessions (otp_service c sms) authorization
    (Some audit) (Some (mfa audit)) verificationTokens (pc_lookupUser c) in
  mkPezhwanRuntime c tokens sessions audit authorization (new_rate_limiter (pc_rateLimits c) (pc_redis c)) auth (mfa audit)
    (mkOAuthService tokens sessions (Some audit) (pc_issuer c)) verificationTokens
    (foldl (λ m kv, map_set kv.1 kv.2 m) DEFAULT_QUOTA_LIMITS (pc_quota c)).
Definition createPezhwan (c : PezhwanConfig) : prog (world P) PezhwanRuntime :=
  throw_if (String.eqb (pc_issuer c) "" || String.eqb (pc_audience c) "") (JsError "Pezhwan requires issuer and audience") ;;
  throw_if (String.eqb (pc_tenantId c) "" || String.eqb (pc_applicationId c) "") (JsError "Pezhwan requires tenantId and applicationId") ;;
  match pc_otpDelivery c with
  | None => Throw (JsError "Pezhwan requires otpDelivery callbacks")
  | Some sms =>
    a ← from_result (resolveSigningAlgorithm (configured_algorithm c));
    seed_keys a ;;
    mfa ← from_result (new_mfa (pc_tenantId c) (pc_applicationId c) None (pc_mfaEncryptionKey c));
    mret (assemble c sms a (λ audit, mkMfaService (mf_tenantId mfa) (mf_applicationId mfa) (Some audit) (mf_encryptionKey mfa)))
  end.

(** [initKeyPersistence]: the keys saved afterwards, and the interval of the timer. *)
Definition MAX_INTERVAL_MS : Z := 2147483000.
Definition safe_interval (interval : option Z) : option Z :=
  let i := nullish interval 0 in
  let i := if MAX_INTERVAL_MS <? i then MAX_INTERVAL_MS else i in
  if 0 <? i then Some i else None.
Definition init_keys (files : list SigningKey) : prog (world P) (list SigningKey) :=
  t ← now;
  d ← draw (λ i, i);
  r ← act (λ w : world P, let '(s, saved, r) := KeyStore.init randomUUID t d files (keyStore w) in (w <| keyStore := s |>, (saved, r)));
  lift_jwt r.2 ;;
  mret r.1.
Definition initKeyPersistence (rt : PezhwanRuntime) (files : list SigningKey) (interval : option Z) :
    prog (world P) (list SigningKey * option Z) :=
  from_result (resolveSigningAlgorithm (configured_algorithm (pz_config rt))) ;;
  act (λ w : world P, (w <| keyStore ::= KeyStore.clear |>, tt)) ;;
  saved ← init_keys files;
  l ← act (λ w : world P, (w, KeyStore.all (keyStore w)));
  saved ← (match l with [] => init_keys saved | _ => mret saved end);
  mret (saved, safe_interval interval).
(** What the timer does. *)
Definition rotate_keys (saved : list SigningKey) : prog (world P) (list SigningKey) :=
  t ← now;
  d ← draw (λ i, i);
  r ← act (λ w : world P, let '(s, saved, r) := KeyStore.rotate randomUUID t d saved (keyStore w) in (w <| keyStore := s |>, (saved, r)));
  lift_jwt r.2 ;;
  mret r.1.
End facade.

(** * HTTP routes

    [packages/express/src/routes.ts] and [routes.extra.ts]: each route as the middleware
    it is mounted behind and a handler over the runtime, and the error handler of
    [apps/identity-server/src/server.ts].  The fields of a body have the types the
    routes declare, or are missing; a reply keeps what its JSON is made of. *)

Section routes.
Context {P : Platform}.
Notation handler := (Request → Response → prog (world P) (Request * Response * outcome)).

(** ** Requests and replies *)
Record Body := mkBody {
  b_email : option string; b_phone : option string; b_password : option string; b_metadata : option (list (string * json));
  b_refreshToken : option string; b_channel : option OtpChannel; b_target : option string; b_purpose : option OtpPurpose;
  b_code : option string; b_currentPassword : option string; b_newPassword : option string; b_token : option string;
  b_userId : option string; b_redirectUri : option string }.
Definition no_body : Body := mkBody None None None None None None None None None None None None None None.
#[export] Instance settable_Body : Settable Body := {| eta_expand := λ b,
  mkBody (b_email b) (b_phone b) (b_password b) (b_metadata b) (b_refreshToken b) (b_channel b) (b_target b) (b_purpose b)
    (b_code b) (b_currentPassword b) (b_newPassword b) (b_token b) (b_userId b) (b_redirectUri b) |}.

(** What the [data] of a successful reply is made of. *)
Inductive Payload :=
| SignedIn (user : UserDoc) (accessToken refreshToken : string) (redirectUri : option string)
| SecondFactor (userId : string)
| Message (text : string)
| NewTokens (accessToken refreshToken : string)
| ResetToken (refreshToken : string)
| CodeSent (r : RequestOtpResult)
| CodeVerified (verified : bool)
| LinkIssued (token : string) (expiresIn : Z)
| SessionList (l : list SessionDoc)
| SetupBegun (r : MfaSetupResult).
Inductive Reply (D : Type) :=
| Success (status : Z) (data : D)
| Failure (status : Z) (code : json) (message : string)
| TooMany (res : Response).
#[global] Arguments Success {D}.
#[global] Arguments Failure {D}.
#[global] Arguments TooMany {D}.

(** The error handler of the server. *)
Definition error_handler {D} (e : exn) : Reply D :=
  let status := match e with Pezhwan p => e_status p | _ => 500 end in
  let code := match e with Pezhwan p => JStr (e_code p) | DriverError (Some n) _ => JNum n | _ => JStr "INTERNAL_ERROR" end in
  Failure status code (if 500 <=? status then "Internal server error" else err_message e).
(** Middleware, then the handler of the route. *)
Definition serve {D} (mids : list handler) (route : Request → prog (world P) (Z * D)) (req : Request) : prog (world P) (Reply D) :=
  try_catch
    (r ← pipeline mids req no_response;
     match r with
     | (req, _, Next) => x ← route req; mret (Success x.1 x.2)
     | (_, _, NextError e) => Throw e
     | (_, res, Answered) => mret (TooMany res)
     end)
    (λ e, mret (error_handler e)).

Context (rt : PezhwanRuntime (P := P)).
Notation engine := (pz_auth rt).
Notation app := (pc_applicationId (pz_config rt)).
Notation route := (Request → prog (world P) (Z * Payload)).

Definition deviceFrom (req : Request) : DeviceInfo :=
  mkDeviceInfo (Some (nullish (client_ip req) (nullish (remoteAddress req) ""))) (Some (nullish (map_get "user-agent" (headers req)) "")) None.
Definition byUser (req : Request) : string :=
  match identity req with Some i => ic_userId i | None => nullish (client_ip req) "" end.
Definition limited (type : RateLimitType) : handler := rateLimit (pz_rateLimiter rt) type None.
Definition limited_by_user : handler := rateLimit (pz_rateLimiter rt) rl_api (Some byUser).

(** [!v]. *)
Definition missing (v : option string) : bool := negb (truthy v).
Definition demand {A} (v : option A) (e : exn) : prog (world P) A := match v with Some a => mret a | None => Throw e end.
(** A field that has to be there and not empty. *)
Definition demand_text (v : option string) (e : exn) : prog (world P) string :=
  if missing v then Throw e else mret (nullish v "").
Definition authenticated (req : Request) : prog (world P) IdentityContext := demand (identity req) UNAUTHENTICATED.
Definition signed_in (user : UserDoc) (t : IssuedTokens) (redirectUri : option string) : Z * Payload :=
  (200, SignedIn user (it_accessToken t) (it_refreshToken t) redirectUri).
Definition login_reply (r : LoginResult) : Z * Payload :=
  match r with
  | MfaRequired userId _ => (200, SecondFactor userId)
  | LoggedIn user tokens => signed_in user tokens None
  end.

(** ** [createAuthRouter] *)
Definition post_register (b : Body) : route := λ req,
  r ← register engine (mkUserCreateInput (pc_tenantId (pz_config rt)) app (b_email b) (b_phone b) (b_password b)
                         (Some (nullish (b_metadata b) []))) (Some (deviceFrom req));
  mret (201, SignedIn r.1 (it_accessToken r.2) (it_refreshToken r.2) None).
Definition PASSWORD_REQUIRED : exn := ValidationError "Password is required" "PASSWORD_REQUIRED".
Definition post_login (b : Body) : route := λ req,
  password ← demand (b_password b) PASSWORD_REQUIRED;
  r ← loginPassword engine app (b_email b) (b_phone b) password (Some (deviceFrom req));
  mret (login_reply r).
Definition post_logout (b : Body) : route := λ req,
  (match identity req with
   | Some i => if String.eqb (ic_sessionId i) "" then mret tt else revoke (ic_sessionId i)
   | None => mret tt
   end) ;;
  mret (200, Message "Logged out").
Definition REFRESH_TOKEN_REQUIRED : exn := AuthenticationError "Refresh token is required" "REFRESH_TOKEN_REQUIRED".
Definition post_refresh (b : Body) : route := λ req,
  token ← demand_text (b_refreshToken b) REFRESH_TOKEN_REQUIRED;
  r ← refreshSession engine token (Some (deviceFrom req));
  mret (200, NewTokens (it_accessToken r) (it_refreshToken r)).
Definition OTP_PARAMS_REQUIRED (fields : string) : exn := ValidationError (fields +:+ " are required") "OTP_PARAMS_REQUIRED".
Definition post_otp_send (b : Body) : route := λ req,
  let e := OTP_PARAMS_REQUIRED "channel, target and purpose" in
  channel ← demand (b_channel b) e;
  target ← demand_text (b_target b) e;
  purpose ← demand (b_purpose b) e;
  r ← requestOtp (en_otp engine) channel target purpose;
  mret (200, CodeSent r).
Definition post_otp_verify (b : Body) : route := λ req,
  let e := OTP_PARAMS_REQUIRED "channel, target, purpose and code" in
  channel ← demand (b_channel b) e;
  target ← demand_text (b_target b) e;
  purpose ← demand (b_purpose b) e;
  code ← demand_text (b_code b) e;
  r ← verifyOtp (en_otp engine) channel target purpose code;
  mret (200, CodeVerified match r with Verified => true | _ => false end).
(** The engine is given neither an address nor a number to look the user up by. *)
Definition post_otp_login (b : Body) : route := λ req,
  let e := OTP_PARAMS_REQUIRED "channel, target and code" in
  channel ← demand (b_channel b) e;
  target ← demand_text (b_target b) e;
  code ← demand_text (b_code b) e;
  r ← loginOtp engine app channel target None None code (Some (deviceFrom req));
  mret (login_reply r).
Definition post_password_change (b : Body) : route := λ req,
  i ← authenticated req;
  changePassword engine (ic_userId i) app (nullish (b_currentPassword b) "") (nullish (b_newPassword b) "") ;;
  mret (200, Message "Password changed").
Definition post_password_reset (b : Body) : route := λ req,
  r ← resetPassword engine app (nullish (b_channel b) ch_email) (nullish (b_target b) "") (nullish (b_code b) "")
        (nullish (b_newPassword b) "") (Some (deviceFrom req));
  mret (200, ResetToken (it_refreshToken r.2)).
Definition EMAIL_REQUIRED : exn := ValidationError "email is required" "EMAIL_REQUIRED".
Definition post_password_forgot (b : Body) : route := λ req,
  email ← demand_text (b_email b) EMAIL_REQUIRED;
  r ← forgotPassword engine app email (b_redirectUri b);
  mret (200, LinkIssued r.1 r.2).
Definition post_email_verify (b : Body) : route := λ req,
  verifyEmail engine app (nullish (b_email b) "") (nullish (b_code b) "") ;;
  mret (200, Message "Email verified").
(** A path, the middleware in front of its handler, the handler. *)
Record Endpoint := mkEndpoint { ep_path : string; ep_mids : list handler; ep_route : Body → route }.
Definition authRouter : list Endpoint :=
  [mkEndpoint "/register" [limited rl_register] post_register; mkEndpoint "/login" [limited rl_login] post_login;
   mkEndpoint "/logout" [limited_by_user] post_logout; mkEndpoint "/refresh" [limited rl_refresh] post_refresh;
   mkEndpoint "/otp/send" [limited rl_otp] post_otp_send; mkEndpoint "/otp/verify" [limited rl_otp] post_otp_verify;
   mkEndpoint "/otp/login" [limited rl_otp] post_otp_login; mkEndpoint "/password/change" [limited_by_user] post_password_change;
   mkEndpoint "/password/reset" [limited rl_otp] post_password_reset;
   mkEndpoint "/password/forgot" [limited rl_otp] post_password_forgot; mkEndpoint "/email/verify" [limited rl_otp] post_email_verify].

(** ** [createSessionRouter] *)
Definition get_sessions : route := λ req,
  i ← authenticated req;
  l ← listActive (ic_userId i) (Some app);
  mret (200, SessionList l).
Definition post_revoke_all : route := λ req,
  i ← authenticated req;
  revokeAll (ic_userId i) (Some app) None ;;
  mret (200, Message "All sessions revoked").
Definition SESSION_ID_REQUIRED : exn := ValidationError "Session id is required" "SESSION_ID_REQUIRED".
Definition SESSION_NOT_FOUND : exn := AuthenticationError "Session not found" "SESSION_NOT_FOUND".
Definition post_revoke (id : string) : route := λ req,
  i ← authenticated req;
  throw_if (String.eqb id "") SESSION_ID_REQUIRED ;;
  sessions ← listActive (ic_userId i) (Some app);
  throw_if (negb (existsb (λ s, String.eqb (s_id s) id) sessions)) SESSION_NOT_FOUND ;;
  revoke id ;;
  mret (200, Message "Session revoked").

(** ** [createMfaRouter] *)
Definition CODE_REQUIRED : exn := ValidationError "code is required" "CODE_REQUIRED".
Definition post_mfa_setup (b : Body) : route := λ req,
  i ← authenticated req;
  r ← beginSetup (pz_mfa rt) (ic_userId i);
  mret (200, SetupBegun r).
Definition post_mfa_enable (b : Body) : route := λ req,
  i ← authenticated req;
  code ← demand_text (b_code b) CODE_REQUIRED;
  enable (pz_mfa rt) (ic_userId i) code ;;
  mret (200, Message "MFA enabled").
Definition post_mfa_verify (b : Body) : route := λ req,
  i ← authenticated req;
  code ← demand_text (b_code b) CODE_REQUIRED;
  verified ← verifyMfa (pz_mfa rt) (ic_userId i) code;
  mret (200, CodeVerified verified).
Definition post_mfa_disable (b : Body) : route := λ req,
  i ← authenticated req;
  code ← demand_text (b_code b) CODE_REQUIRED;
  disable (pz_mfa rt) (ic_userId i) code ;;
  mret (200, Message "MFA disabled").
Definition PARAMS_REQUIRED (fields : string) : exn := ValidationError (fields +:+ " are required") "PARAMS_REQUIRED".
Definition post_mfa_login (b : Body) : route := λ req,
  userId ← demand_text (b_userId b) (PARAMS_REQUIRED "userId and code");
  code ← demand_text (b_code b) (PARAMS_REQUIRED "userId and code");
  r ← verifyMfaLogin engine userId app code (Some (deviceFrom req));
  mret (signed_in r.1 r.2 None).
Definition mfaRouter : list Endpoint :=
  [mkEndpoint "/setup" [limited_by_user] post_mfa_setup; mkEndpoint "/enable" [limited_by_user] post_mfa_enable;
   mkEndpoint "/verify" [rateLimit (pz_rateLimiter rt) rl_mfa (Some byUser)] post_mfa_verify;
   mkEndpoint "/disable" [limited_by_user] post_mfa_disable; mkEndpoint "/login" [limited rl_mfa] post_mfa_login].

(** ** [createVerificationRouter] *)
Definition post_reset_confirm (b : Body) : route := λ req,
  token ← demand_text (b_token b) (PARAMS_REQUIRED "token and newPassword");
  newPassword ← demand_text (b_newPassword b) (PARAMS_REQUIRED "token and newPassword");
  r ← resetPasswordWithToken engine app token newPassword (Some (deviceFrom req));
  mret (signed_in r.1 r.2 None).
Definition TOKEN_REQUIRED : exn := ValidationError "token is required" "TOKEN_REQUIRED".
Definition post_verify_token (b : Body) : route := λ req,
  token ← demand_text (b_token b) TOKEN_REQUIRED;
  verifyEmailToken engine token ;;
  mret (200, Message "Email verified").
Definition post_magic_send (b : Body) : route := λ req,
  email ← demand_text (b_email b) EMAIL_REQUIRED;
  r ← sendMagicLink engine app email (b_redirectUri b);
  mret (200, LinkIssued r.1 r.2).
Definition post_magic_redeem (b : Body) : route := λ req,
  token ← demand_text (b_token b) TOKEN_REQUIRED;
  r ← redeemMagicLink engine token (Some (deviceFrom req));
  mret (signed_in r.1.1 r.1.2 r.2).
Definition verificationRouter : list Endpoint :=
  [mkEndpoint "/password/forgot" [limited rl_otp] post_password_forgot;
   mkEndpoint "/password/reset/confirm" [limited rl_otp] post_reset_confirm;
   mkEndpoint "/email/verify-token" [limited rl_otp] post_verify_token; mkEndpoint "/magic/send" [limited rl_otp] post_magic_send;
   mkEndpoint "/magic/redeem" [limited rl_otp] post_magic_redeem].

(** ** Where the server mounts them *)
Definition csrf : handler := csrfProtection (mkCsrfOptions None None).
Definition mounted : list (string * list handler * list Endpoint) :=
  [("/v1/auth"%string, [createAuthenticate (pz_tokens rt); csrf], authRouter);
   ("/v1/mfa"%string, [createAuthenticate (pz_tokens rt); requireAuth; csrf], mfaRouter);
   ("/v1/verify"%string, [createAuthenticate (pz_tokens rt); csrf], verificationRouter)].
Definition not_mounted : Reply Payload := Failure 404 (JStr "NOT_FOUND") "Not Found".
Definition post (url : string) (b : Body) (req : Request) : prog (world P) (Reply Payload) :=
  let endpoints := flat_map (λ m : string * list handler * list Endpoint,
    map (λ ep, (m.1.1 +:+ ep_path ep, m.1.2 ++ ep_mids ep, ep_route ep)) m.2) mounted in
  match List.find (λ x : string * list handler * (Body → route), String.eqb x.1.1 url) endpoints with
  | Some x => serve x.1.2 (x.2 b) req
  | None => mret not_mounted
  end.
Definition session_mids : list handler := [createAuthenticate (pz_tokens rt); requireAuth; limited_by_user].
Definition revoke_session (id : string) : Request → prog (world P) (Reply Payload) := serve session_mids (post_revoke id).
End routes.

(** * OAuth routes and the WebSocket handshake

    [packages/express/src/routes.oauth.ts], mounted under [/v1/oauth] behind
    [createAuthenticate], and the handshake of [express/src/websocket/auth.ts] with the
    listener that [websocket/index.ts] attaches. *)

Section oauth_routes.
Context {P : Platform}.
Notation handler := (Request → Response → prog (world P) (Request * Response * outcome)).

(** A query or the body of a request: the fields that are strings. *)
Definition params : Type := list (string * string).
Inductive OAuthReply :=
| Redirected (location : string)
| Tokens (r : TokenResponse)
| ClientRegistered (clientId : string) (clientSecret : option string)
| Refused (status : Z) (error : json) (error_description : string)
| Failed (status : Z) (code : json) (message : string)
| Limited (res : Response).

(** [bad], after the class of the error. *)
Definition bad (e : exn) : OAuthReply :=
  let status := match e with Pezhwan p => e_status p | _ => 400 end in
  let code := match e with Pezhwan p => JStr (e_code p) | DriverError (Some n) _ => JNum n | _ => JStr "invalid_request" end in
  Refused status code (err_message e).
Definition or_bad (op : prog (world P) OAuthReply) : prog (world P) OAuthReply := try_catch op (λ e, mret (bad e)).

Context (rt : PezhwanRuntime (P := P)).
Notation tenant := (pc_tenantId (pz_config rt)).
Notation app := (pc_applicationId (pz_config rt)).

(** [scopeForToken] and [scopeForAuth]. *)
Definition scopeForToken (b : params) (req : Request) : string :=
  match map_get "client_id" b with
  | Some c => if String.eqb c "" then nullish (client_ip req) "" else "client:" +:+ c
  | None => nullish (client_ip req) ""
  end.
Definition scopeForAuth : Request → string := byUser.

(** A claim that names no method, which no token of this server carries, is taken to
    fail the validation of the document. *)
Definition AUTH_METHODS : list AuthMethod :=
  [am_password; am_email_otp; am_phone_otp; am_oauth; am_oidc; am_passkey; am_mfa_totp; am_magic_link; am_api_key; am_service].
Definition authMethod_of (v : json) : prog (world P) AuthMethod :=
  match List.find (λ m, match v with JStr s => String.eqb (AuthMethod_string m) s | _ => false end) AUTH_METHODS with
  | Some m => mret m
  | None => Throw (JsError "AuthorizationCode validation failed: authMethod")
  end.

(** [/authorize]. *)
Definition get_authorize (q : params) (req : Request) : prog (world P) OAuthReply :=
  match identity req with
  | None => mret (bad UNAUTHENTICATED)
  | Some i => or_bad
      (method ← authMethod_of (ic_authMethod i);
       r ← authorizeCode (pz_oauth rt)
             (mkAuthorizeInput (nullish (map_get "client_id" q) "") (nullish (map_get "redirect_uri" q) "")
                (nullish (map_get "scope" q) "openid") (map_get "nonce" q) (ic_userId i) (ic_sessionId i) app tenant method
                (map_get "code_challenge" q) (map_get "code_challenge_method" q));
       let fields := [("code"%string, r.1); ("expires_in"%string, js_String r.2)] in
       let fields := if truthy (map_get "state" q) then map_set "state" (nullish (map_get "state" q) "") fields else fields in
       mret (Redirected (nullish (map_get "redirect_uri" q) "undefined" +:+ "#" +:+ URLSearchParams_toString fields)))
  end.

(** [/token]. *)
Definition post_token (b : params) (req : Request) : prog (world P) OAuthReply := or_bad
  (r ← exchange (pz_oauth rt)
         (mkExchangeInput (nullish (map_get "grant_type" b) "") (nullish (map_get "client_id" b) "") (map_get "client_secret" b)
            (map_get "code" b) (map_get "redirect_uri" b) (map_get "code_verifier" b) (map_get "refresh_token" b)
            (map_get "scope" b) tenant app (Some (nullish (client_ip req) "")) (Some (nullish (map_get "user-agent" (headers req)) "")) None);
   mret (Tokens r)).

(** [/clients]: the strings of the lists in the body.  A grant the schema does not
    list fails the validation of the document. *)
Definition OAuthGrant_string (g : OAuthGrant) : string :=
  match g with
  | authorization_code => "authorization_code" | refresh_token => "refresh_token" | client_credentials => "client_credentials"
  end.
Definition grant_of (s : string) : option OAuthGrant :=
  List.find (λ g, String.eqb (OAuthGrant_string g) s) [authorization_code; refresh_token; client_credentials].
Record ClientBody := mkClientBody {
  cb_name : option string; cb_redirect_uris : option (list json); cb_grants : option (list json);
  cb_scopes : option (list string); cb_confidential : option bool }.
Definition strings (l : list json) : list string := omap (λ v, match v with JStr s => Some s | _ => None end) l.
Definition post_clients (b : ClientBody) (req : Request) : prog (world P) OAuthReply :=
  let redirectUris := match cb_redirect_uris b with Some l => strings l | None => [] end in
  let grants := match cb_grants b with Some l => strings l | None => ["authorization_code"; "refresh_token"]%string end in
  or_bad
    (match mapM grant_of grants with
     | None => Throw (JsError "OAuthClient validation failed: grants")
     | Some grants =>
       c ← registerClient tenant app (nullish (cb_name b) "untitled") redirectUris grants (cb_scopes b)
             (Some (nullish (cb_confidential b) true)) None;
       mret (ClientRegistered c.1 c.2)
     end).

(** A route behind its middleware; what the middleware refuses goes to the error
    handler of the server. *)
Definition serve_oauth_route (mids : list handler) (route : Request → prog (world P) OAuthReply) (req : Request) :
    prog (world P) OAuthReply :=
  r ← serve mids (λ req, x ← route req; mret (200, x)) req;
  mret match r with Success _ x => x | Failure s c m => Failed s c m | TooMany res => Limited res end.
Definition authenticate_oauth : handler := createAuthenticate (pz_tokens rt).
Definition limited_by (scope : Request → string) : handler := rateLimit (pz_rateLimiter rt) rl_api (Some scope).
Definition authorize (q : params) : Request → prog (world P) OAuthReply :=
  serve_oauth_route [authenticate_oauth; limited_by scopeForAuth] (get_authorize q).
Definition token (b : params) : Request → prog (world P) OAuthReply :=
  serve_oauth_route [authenticate_oauth; limited_by (scopeForToken b)] (post_token b).
Definition clients (b : ClientBody) : Request → prog (world P) OAuthReply :=
  serve_oauth_route [authenticate_oauth; requireAuth; requireRole "ADMIN"; limited_by scopeForAuth] (post_clients b).
Definition openid_configuration : list (string * json) := discovery (pz_oauth rt).
End oauth_routes.

(** ** The WebSocket handshake *)
Section handshake.
Context {P : Platform} (rt : PezhwanRuntime (P := P)).

(** The upgrade request: path and query of its URL, its headers. *)
Record Upgrade := mkUpgrade { up_pathname : string; up_query : list (string * string); up_headers : list (string * string) }.
Definition extractWsAccessToken (req : Upgrade) : option string :=
  match map_get "access_token" (up_query req) with
  | Some q => if String.eqb q "" then None else Some q
  | None => None
  end
  ∪
  match (match map_get "x-access-token" (up_headers req) with Some h => Some h | None => map_get "authorization" (up_headers req) end) with
  | Some h =>
    if String.eqb h "" then None
    else if is_prefix bearer h then nonempty (js_trim (String.substring 7 (String.length h - 7) h)) else Some h
  | None => None
  end.
Definition authenticateHandshake (req : Upgrade) : prog (world P) (option IdentityContext) :=
  match extractWsAccessToken req with
  | None => mret None
  | Some token =>
    if String.eqb token "" then mret None
    else try_catch (i ← verifyAccessToken (pz_tokens rt) token; mret (Some i)) (λ _, mret None)
  end.

Definition UNAUTHORIZED : string :=
  "HTTP/1.1 401 Unauthorized" +:+ WebSocket.crlf +:+ "Content-Length: 0" +:+ WebSocket.crlf +:+ WebSocket.crlf.
Notation ws_server := (WebSocket.WsServer (Identity := IdentityContext)).
(** The listener of [attachWebSocketServer] for a request on socket [k]. *)
Definition on_upgrade (sha1 : string → string) (ws_path : option string) (req : Upgrade) (k : nat) (s : ws_server) :
    prog (world P) (ws_server * option (WebSocket.WsClient (Identity := IdentityContext))) :=
  if negb (String.eqb (up_pathname req) (nullish ws_path "/ws")) then mret (WebSocket.destroy k s, None)
  else
    who ← authenticateHandshake req;
    match who with
    | None => mret (WebSocket.destroy k (WebSocket.write k (WebSocket.bytes_of UNAUTHORIZED) s), None)
    | Some i =>
      t ← now;
      t' ← now;
      mret (WebSocket.handleUpgrade sha1 (map_get "sec-websocket-key" (up_headers req)) k i t t' s)
    end.
End handshake.
