(* ===== verification/RouteSafety.v ===== *)
(** * What the routes promise

    The theorems about Routes.v: what a request can reach through the
    handlers as they are mounted, and with what in hand. *)

From S2P Require Import Flows.
From S2P Require Export Routes.
From S2P Require Import JsMap.

(** ** Programs that only read *)
Section reading.
Context {W X : Type} (f : W → X).

(** [p] changes nothing, and its result depends on [f] of the state alone. *)
Definition reads {A} (p : prog W A) : Prop := ∀ w v, f w = f v → ∃ r, run p w = (w, r) ∧ run p v = (v, r).

Lemma reads_ret {A} (a : A) : reads (mret a).
Proof. by exists (inr a). Qed.
Lemma reads_throw {A} e : reads (Throw (A := A) e).
Proof. by exists (inl e). Qed.
Lemma reads_throw_if c e : reads (throw_if c e).
Proof. by destruct c; [apply reads_throw|apply reads_ret]. Qed.
Lemma reads_bind {A B} (p : prog W A) (k : A → prog W B) : reads p → (∀ a, reads (k a)) → reads (p ≫= k).
Proof.
  intros Hp Hk w v Hwv. destruct (Hp w v Hwv) as ([e|a] & Hw & Hv); rewrite !run_bind, Hw, Hv; [by exists (inl e)|].
  by apply Hk.
Qed.
Lemma reads_catch {A} (p : prog W A) h : reads p → (∀ e, reads (h e)) → reads (try_catch p h).
Proof.
  intros Hp Hh w v Hwv. destruct (Hp w v Hwv) as ([e|a] & Hw & Hv); rewrite !run_catch, Hw, Hv; [by apply Hh|]. by exists (inr a).
Qed.
End reading.
Create HintDb reads_db.
#[export] Hint Resolve reads_ret reads_throw reads_throw_if : reads_db.
Ltac solve_reads := intros; repeat first
  [ apply reads_bind; [|intros ?] | apply reads_catch; [|intros ?] | case_match | solve [eauto 4 with reads_db] ].

(** ** Lemmas *)
Section lemmas.
Context {P : Platform}.

(** Verifying an access token looks at the clock and at the keys. *)
Definition clock_and_keys (w : world P) := (clock w, keyStore w).
Lemma reads_now : reads clock_and_keys now.
Proof. intros w v [= Hc _]. exists (inr (clock w)). rewrite !run_now. by rewrite Hc. Qed.
Lemma reads_keys : reads clock_and_keys (act (λ w : world P, (w, keyStore w))).
Proof. intros w v [= _ Hk]. exists (inr (keyStore w)). cbn. by rewrite Hk. Qed.
Lemma reads_lift_jwt {A} (r : jwt_error + A) : reads clock_and_keys (lift_jwt r).
Proof. by destruct r; [apply reads_throw|apply reads_ret]. Qed.
#[local] Hint Resolve reads_now reads_keys reads_lift_jwt : reads_db.
Lemma reads_required_claim l k : reads clock_and_keys (required_claim (P := P) l k).
Proof. unfold required_claim. solve_reads. Qed.
Lemma reads_unknown_key j : reads clock_and_keys (unknown_key (P := P) j).
Proof. apply reads_throw. Qed.
#[local] Hint Resolve reads_required_claim reads_unknown_key : reads_db.
Lemma reads_verifyAccessToken ts token : reads clock_and_keys (verifyAccessToken ts token).
Proof. unfold verifyAccessToken. solve_reads. Qed.

(** Checking a code does not touch the accounts. *)
Definition same_users (w w' : world P) : Prop := users w' = users w ∧ (healthy w → healthy w').
#[export] Instance same_users_preorder : PreOrder same_users.
Proof. split; [done|]. intros w1 w2 w3 [H1 H2] [H3 H4]. split; [congruence|auto]. Qed.
Lemma same_users_op {A} (f : world P → world P * (exn + A)) :
  (∀ w, same_users w (f w).1) → guarantee same_users (store_op f).
Proof. apply guarantee_store_op; [apply _|]. intros w x fs Hx. split; [done|]. unfold healthy. congruence. Qed.
Lemma run_same_users {A} (p : prog (world P) A) w w' r : guarantee same_users p → run p w = (w', r) → same_users w w'.
Proof. intros Hp Hr. pose proof (guarantee_run _ p w Hp) as H. by rewrite Hr in H. Qed.
Lemma same_users_verifyOtp ot channel target purpose code : guarantee same_users (verifyOtp ot channel target purpose code).
Proof.
  assert (∀ (f : OtpDoc → bool) u, guarantee same_users (update_one f u)) as Hu by (intros; by apply same_users_op).
  assert (∀ (f : OtpDoc → bool), guarantee same_users (find_one f)) as Hf by (intros; by apply same_users_op).
  assert (∀ k, guarantee same_users (redis_get k)) as Hg by (intros k; apply guarantee_act; intros w; by destruct (cache_get _ _ _)).
  assert (∀ k v t, guarantee same_users (redis_set k v t)) as Hs by (intros; by apply guarantee_act).
  assert (∀ k, guarantee same_users (redis_del k)) as Hd by (intros; by apply guarantee_act).
  assert (guarantee same_users now) as Hn by by apply guarantee_act.
  unfold verifyOtp. solve_guarantee.
Qed.

(** Nor do issuing and redeeming a link. *)
Lemma same_users_audit au input : guarantee same_users (audit_log (P := P) au input).
Proof.
  eapply guarantee_mono; [|apply ak_audit]. intros w w' H. split; [exact (kept_users _ _ H)|exact (kept_healthy _ _ H)].
Qed.
Lemma same_users_link :
  (∀ (f : VerificationTokenDoc → bool) u, guarantee same_users (update_many f u)) ∧
  (∀ (f : VerificationTokenDoc → bool) u, guarantee same_users (find_one_and_update f u)) ∧
  (∀ d : VerificationTokenDoc, guarantee same_users (create d)) ∧ guarantee same_users now ∧
  ∀ A (f : nat → A), guarantee same_users (draw f).
Proof.
  split_and!; intros; try (by apply guarantee_act); apply same_users_op; intros w; [done..|].
  unfold insert_doc. by destruct (m_insert _ _ _).
Qed.
#[local] Hint Resolve same_users_audit : guarantee_db.
Lemma same_users_issue vt input : guarantee same_users (issue vt input).
Proof. destruct same_users_link as (? & ? & ? & ? & ?). unfold issue. solve_guarantee. Qed.
Lemma same_users_redeem vt token : guarantee same_users (redeem vt token).
Proof. destruct same_users_link as (? & ? & ? & ? & ?). unfold redeem. solve_guarantee. Qed.

(** A field that is there and not empty. *)
Lemma run_demand_text s e (w : world P) : s ≠ "" → run (demand_text (Some s) e) w = (w, inr s).
Proof. intros H. unfold demand_text, missing. by rewrite truthy_nonempty. Qed.
Lemma demand_ok {A} (v : option A) e (w w' : world P) a : run (demand v e) w = (w', inr a) → v = Some a ∧ w' = w.
Proof. destruct v; [|done]. intros [= <- <-]. done. Qed.
Lemma demand_text_ok v e (w w' : world P) a : run (demand_text v e) w = (w', inr a) → v = Some a ∧ w' = w.
Proof.
  unfold demand_text, missing. destruct (truthy v) eqn:Ht; [|done]. apply truthy_some in Ht as (s & -> & _). by intros [= <- <-].
Qed.
End lemmas.

(** ** Where a request ends *)
Section answers.
Context {P : Platform} (rt : PezhwanRuntime (P := P)).

(** Where a path leads. *)
Lemma post_mfa_login_at b req :
  post rt "/v1/mfa/login" b req =
  serve [createAuthenticate (pz_tokens rt); requireAuth; csrf; limited rt rl_mfa] (post_mfa_login rt b) req.
Proof. reflexivity. Qed.

(** The second factor of a login cannot be presented: [/v1/mfa/login], where an
    answer that asks for a second factor sends the user, is mounted behind
    [requireAuth]; without an access token, which that answer does not give, the
    request ends there with 401, whatever its body, and nothing changes. *)
Theorem mfa_login_needs_a_session b req (w : world P) :
  extractToken req = None → identity req = None →
  run (post rt "/v1/mfa/login" b req) w = (w, inr (Failure 401 (JStr "UNAUTHENTICATED") "Authentication required")).
Proof.
  intros Ht Hi. rewrite post_mfa_login_at. unfold serve. rewrite run_catch, run_bind. cbn [pipeline].
  unfold createAuthenticate at 1. rewrite Ht, run_bind, run_ret. unfold requireAuth.
  rewrite run_bind, run_ret, Hi, bool_decide_false by (by intros [? ?]). by rewrite run_ret.
Qed.

(** C19: A code sent to anyone opens the first account: [/v1/auth/otp/login] verifies
    the code for the target of the request and then looks the user up by neither the
    target nor anything else, so whoever proves any address or number signs in as the
    first user of the tenant in the store's order, or is asked for that user's second
    factor. *)
Theorem otp_login_takes_first_user b req (w w' : world P) status payload :
  en_lookupUser (pz_auth rt) = None →
  run (post_otp_login rt b req) w = (w', inr (status, payload)) →
  ∃ u, List.find (λ d, bool_decide (u_tenantId d = en_tenantId (pz_auth rt))) (docs (users w)) = Some u ∧
    u_isActive u = true ∧ (payload = SecondFactor (u_id u) ∨ ∃ access refresh, payload = SignedIn u access refresh None).
Proof.
  intros Hl Hr. unfold post_otp_login in Hr. first_step Hr w1 channel Hc. apply demand_ok in Hc as [_ ->].
  first_step Hr w1 target Ht. apply demand_text_ok in Ht as [_ ->].
  first_step Hr w1 code Hcode. apply demand_text_ok in Hcode as [_ ->].
  first_step Hr w1 x Hx. apply run_ret_ok in Hr as [-> Hp]. unfold loginOtp in Hx. first_step Hx w2 v Hv.
  pose proof (run_same_users _ _ _ _ (same_users_verifyOtp _ _ _ _ _) Hv) as [Hsame _]. destruct v; try done.
  first_step Hx w3 found Hf. unfold findUser in Hf. rewrite Hl in Hf. apply run_find_one_ok in Hf as [-> (fs & -> & _)].
  change (tbl w2) with (users w2) in Hx. rewrite Hsame in Hx.
  destruct (List.find _ (docs (users w))) as [u|] eqn:Hu; [|done].
  first_step Hx w3 y Hact. apply run_throw_if_ok in Hact as [Hact%negb_false_iff ->].
  exists u. split; [|split; [done|]].
  { rewrite <- Hu. apply find_ext. intros d. unfold user_query. cbn. by rewrite andb_true_r. }
  first_step Hx w3 second Hs. destruct second.
  - apply mfa_pending_ok in Hx as [-> _]. injection Hp as _ ->. by left.
  - apply completeLogin_ok in Hx as (_ & tokens & -> & _). injection Hp as _ ->. right. by do 2 eexists.
Qed.
End answers.

(** ** Ending sessions *)
Section ending.
Context {P : Platform} (rt : PezhwanRuntime (P := P)).

(** Sessions with another identifier stay. *)
Definition others_stay (id : string) (w w' : world P) : Prop :=
  ∀ d, In d (docs (sessions w)) → s_id d ≠ id → In d (docs (sessions w')).
#[local] Instance others_stay_preorder id : PreOrder (others_stay id).
Proof. split; [by intros w d|]. intros w1 w2 w3 H1 H2 d Hd Hne. auto. Qed.
Lemma In_alter_first_other {D} (f : D → bool) u l x : In x l → f x = false → In x (alter_first f u l).
Proof.
  intros Hin Hf. induction l as [|d l IH]; [done|]. cbn [alter_first]. destruct Hin as [->|Hin].
  - rewrite Hf. by left.
  - destruct (f d); right; auto.
Qed.
Lemma In_alter_first_unique {D K} (key : D → K) (f : D → bool) u l k x :
  unique_key key l → (∀ d, f d = true ↔ key d = k) → In x (alter_first f u l) → key x = k →
  ∃ d, In d l ∧ key d = k ∧ x = u d.
Proof.
  intros Hu Hf Hin Hk. induction l as [|d l IH]; [done|]. apply unique_key_cons in Hu as [Hu Hd]. cbn [alter_first] in Hin.
  destruct (f d) eqn:Hfd.
  - apply Hf in Hfd. destruct Hin as [<-|Hin]; [by exists d; split; [left|]|]. destruct (Hd x Hin). congruence.
  - destruct Hin as [<-|Hin]; [apply Hf in Hk; congruence|]. destruct (IH Hu Hin) as (y & ? & ? & ?). exists y. by split; [right|].
Qed.
Lemma others_stay_revoke id : guarantee (others_stay id) (revoke id).
Proof.
  unfold revoke. apply guarantee_bind; [apply guarantee_act; by intros w d|]. intros t.
  apply guarantee_bind; [|intros _; apply guarantee_act; by intros w d].
  apply guarantee_store_op; [apply _|by intros w x fs _ d|]. intros w d Hd Hne. cbn.
  rewrite m_update_one_law. apply In_alter_first_other; [done|]. by rewrite bool_decide_false.
Qed.

(** A read leaves everything but the failures to come, and returns what it read. *)
Lemma run_read {A} (f : world P → A) w :
  ∃ fs r, run (store_op (λ w, (w, inr (f w)))) w = (w <| faults := fs |>, r) ∧ ∀ a, r = inr a → a = f (w <| faults := fs |>).
Proof.
  rewrite run_store_op. unfold apply_fault. destruct (faults w) as [|[x|] fs] eqn:Hfs.
  - exists [], (inr (f w)). rewrite <- Hfs. destruct w. split; [done|]. by intros a [= <-].
  - exists fs, (inl (fault_exn x)). split; [by destruct (fl_applied x)|done].
  - exists fs, (inr (f (w <| faults := fs |>))). split; [done|]. by intros a [= <-].
Qed.

(** The session [revoke] is given is revoked when it returns. *)
Lemma revoke_ok id (w w' : world P) u :
  unique_key s_id (docs (sessions w)) → run (revoke id) w = (w', inr u) →
  ∀ d, In d (docs (sessions w')) → s_id d = id → s_status d = revoked.
Proof.
  intros Hu Hr. unfold revoke in Hr. rewrite run_bind, run_now in Hr. first_step Hr w1 x Hx.
  apply run_update_one_ok in Hx as (fs & -> & _). rewrite run_redis_del in Hr. injection Hr as <- _.
  intros d Hin Hid. cbn in Hin. rewrite m_update_one_law in Hin.
  apply (In_alter_first_unique s_id _ _ _ id) in Hin as (d0 & _ & _ & ->); [done..| |done].
  intros y. apply bool_decide_eq_true.
Qed.

(** C9: Ending a session by its identifier reaches the caller's own: whatever
    [/v1/sessions/:id/revoke] answers and whatever fails, every session of another user
    is still stored as it was; and when it answers with success, the session was an
    active one of the caller, and is revoked. *)
Theorem revoke_reaches_own_sessions id req (w w' : world P) r i :
  unique_key s_id (docs (sessions w)) → identity req = Some i →
  run (post_revoke rt id req) w = (w', r) →
  (∀ d, In d (docs (sessions w)) → s_userId d ≠ ic_userId i → In d (docs (sessions w'))) ∧
  (∀ x, r = inr x →
     (∃ d, In d (docs (sessions w)) ∧ s_id d = id ∧ s_userId d = ic_userId i ∧ s_status d = active) ∧
     (∀ d, In d (docs (sessions w')) → s_id d = id → s_status d = revoked)).
Proof.
  intros Hu Hi Hr. unfold post_revoke, authenticated in Hr. rewrite Hi in Hr. cbn [demand] in Hr.
  rewrite run_bind, run_ret, run_bind, run_throw_if in Hr.
  destruct (String.eqb id "") eqn:Hid; [injection Hr as <- <-; by split|]. rewrite run_bind in Hr.
  unfold listActive, find_sorted in Hr. match type of Hr with context [run (store_op (λ w, (w, inr (@?f w)))) w] =>
    destruct (run_read f w) as (fs & [e|l] & Hrun & Hl); rewrite Hrun in Hr end; [by injection Hr as <- <-|].
  specialize (Hl l eq_refl). cbn beta in Hl. change (tbl (w <| faults := fs |>)) with (sessions w) in Hl.
  rewrite run_bind, run_throw_if in Hr. destruct (existsb _ l) eqn:Hex; cbn [negb] in Hr; [|by injection Hr as <- <-].
  apply existsb_exists in Hex as (d & Hd & <-%String.eqb_eq).
  assert (In d (docs (sessions w)) ∧ s_userId d = ic_userId i ∧ s_status d = active) as (Hin & Huser & Hst).
  { subst l. pose proof (m_find_sorted_law (λ d, - s_lastActiveAt d)
      (user_active (ic_userId i) (Some (pc_applicationId (pz_config rt))) None) (sessions w)) as [Hp _].
    apply (Permutation_in _ Hp), filter_In in Hd as [Hin Hact]. unfold user_active in Hact. by bool_to_prop. }
  rewrite run_bind in Hr. pose proof (guarantee_run _ _ (w <| faults := fs |>) (others_stay_revoke (s_id d))) as Hstay.
  destruct (run (revoke (s_id d)) (w <| faults := fs |>)) as [w2 rr] eqn:Hrev. cbn [fst] in Hstay.
  assert (∀ x, In x (docs (sessions w)) → s_userId x ≠ ic_userId i → In x (docs (sessions w2))) as Hothers.
  { intros x Hx Hne. apply Hstay; [done|]. intros Heq. apply Hne. by rewrite (unique_key_eq s_id (docs (sessions w)) x d). }
  destruct rr as [e|u]; [injection Hr as <- <-; by split|]. rewrite run_ret in Hr. injection Hr as <- <-.
  split; [done|]. intros _ _. split; [by exists d|]. by apply (revoke_ok _ (w <| faults := fs |>) _ u).
Qed.
End ending.

(** ** What an address opens *)
Section links.
Context {P : Platform} (c : PezhwanConfig (P := P)) (sms : bool) (a : JwtSigningAlgorithm) (mfa : AuditService → MfaService).
Let rt := assemble c sms a mfa.
Notation engine := (pz_auth rt).
Notation app := (pc_applicationId c).

(** Signing a user in by a link: the part of [redeemMagicLink] after its checks. *)
Definition link_session (u : UserDoc) (redirectUri : option string) (device : DeviceInfo) : prog (world P) (Z * Payload) :=
  session ← create_session (en_sessions engine) (context_of (u_id u) (en_tenantId engine) app (Some device));
  tokens ← mintTokens engine u session app am_magic_link;
  audit_log (en_audit engine) (mkAuditEntryInput "MAGIC_LINK_VERIFIED" None (Some (en_tenantId engine)) (Some app)
    (Some (u_id u)) None (ip_of (Some device)) None None) ;;
  mret (signed_in u tokens redirectUri).

(** The request for a link, as [/magic/send] makes it. *)
Definition link_request (u : UserDoc) (email : string) (redirectUri : option string) : IssueTokenInput :=
  mkIssueTokenInput magic_link (en_tenantId engine) app (u_id u) (Some (js_lower email)) redirectUri None.

Lemma run_magic_send b req w email u :
  healthy w → pc_lookupUser c = None → b_email b = Some email → email ≠ "" →
  List.find (handle_query engine (Some (js_lower email)) None) (docs (users w)) = Some u →
  (∀ d, In d (docs (verificationTokens w)) →
     verificationToken_clash (next_doc (pz_verificationTokens rt) (link_request u email (b_redirectUri b)) w) d = false) →
  ∃ w1, run (post_magic_send rt b req) w = (w1, inr (200, LinkIssued (next_token w) 900)) ∧ healthy w1 ∧ users w1 = users w ∧
    inserted (next_doc (pz_verificationTokens rt) (link_request u email (b_redirectUri b)) w)
      (alter_all (same_purpose (en_tenantId engine) app (u_id u) magic_link) (VerificationToken.consume (clock w)) (docs (verificationTokens w)))
      (docs (verificationTokens w1)).
Proof.
  intros Hh Hl He Hne Hu Hfresh. unfold post_magic_send. rewrite He, run_bind, run_demand_text by done.
  rewrite run_bind. unfold sendMagicLink. rewrite run_bind. unfold findUser.
  change (en_lookupUser engine) with (pc_lookupUser c). rewrite Hl, run_find_one by done. unfold handle_query in Hu.
  cbn [tbl users_table]. rewrite Hu, run_bind. unfold link_for.
  destruct (run_issue (pz_verificationTokens rt) (link_request u email (b_redirectUri b)) w Hh Hfresh) as (w1 & Hr & Hh1 & Hins).
  change (en_verificationTokens engine) with (pz_verificationTokens rt).
  pose proof (run_same_users _ _ _ _ (same_users_issue _ _) Hr) as [Hus _].
  change (issue (pz_verificationTokens rt) _) with (issue (pz_verificationTokens rt) (link_request u email (b_redirectUri b))).
  rewrite Hr, run_bind.
  destruct (run (engine_event _ _ _ _ _ _ _) w1) as [w2 x] eqn:Hev.
  destruct (run_quiet _ _ _ _ (q_event _ _ _ _ _ _ _) Hev) as [K _].
  unfold engine_event in Hev. destruct (run_audit_log (en_audit engine) (mkAuditEntryInput "MAGIC_LINK_SENT" None (Some (en_tenantId engine)) (Some app)
    (Some (u_id u)) None None None (Some [("email"%string, JStr (js_lower email))])) w1) as (w3 & Hev' & _).
  change (run (audit_log (en_audit engine) _) w1) with (run (audit_log (en_audit engine) (mkAuditEntryInput "MAGIC_LINK_SENT" None (Some (en_tenantId engine)) (Some app)
    (Some (u_id u)) None None None (Some [("email"%string, JStr (js_lower email))]))) w1) in Hev.
  rewrite Hev' in Hev. injection Hev as <- <-. rewrite run_ret. exists w3. split; [done|].
  split; [by apply (kept_healthy _ _ K)|]. split; [by rewrite (kept_users _ _ K)|]. by rewrite (kept_links _ _ K).
Qed.

(** C6: An address is all it takes: for a user with an active account,
    [/v1/verify/magic/send] answers whoever names the user's address with the token it
    should have mailed, and within fifteen minutes [/magic/redeem] with that token does
    nothing but store a session for the user and sign its tokens; no password, no
    code and no second factor is asked for on the way. *)
Theorem email_address_suffices b req req' w email u t :
  healthy w → pc_lookupUser c = None → b_email b = Some email → email ≠ "" →
  List.find (handle_query engine (Some (js_lower email)) None) (docs (users w)) = Some u →
  unique_key u_id (docs (users w)) → u_id u ≠ "" → u_isActive u = true → randomBytes (draws w) 32 ≠ "" →
  (∀ d, In d (docs (verificationTokens w)) →
     verificationToken_clash (next_doc (pz_verificationTokens rt) (link_request u email (b_redirectUri b)) w) d = false) →
  t <= clock w + 15 * 60 * 1000 →
  ∃ w1 token w2, run (post_magic_send rt b req) w = (w1, inr (200, LinkIssued token 900)) ∧
    users w2 = users w ∧
    run (post_magic_redeem rt (no_body <| b_token := Some token |>) req') (w1 <| clock := t |>) =
    run (link_session u (b_redirectUri b) (deviceFrom req')) w2.
Proof.
  intros Hh Hl He Hne Hf Hu Hid Hact Hrnd Hfresh Ht.
  destruct (run_magic_send b req w email u Hh Hl He Hne Hf Hfresh) as (w1 & Hsend & Hh1 & Hus & Hins).
  pose (v := w1 <| clock := t |>). destruct (run_redeem (pz_verificationTokens rt) (next_token w) v Hh1) as (w2 & Hred & _).
  exists w1, (next_token w), w2. split; [exact Hsend|].
  destruct (run_same_users _ _ _ _ (same_users_redeem _ _) Hred) as [Hu2 Hh2]. specialize (Hh2 Hh1).
  change (users v) with (users w1) in Hu2. rewrite Hus in Hu2. split; [done|]. cbn [verificationTokens clock set_field v] in Hred.
  rewrite (issued_found (pz_verificationTokens rt) (link_request u email (b_redirectUri b)) w _ Hins Hfresh) in Hred.
  unfold next_doc, issued_doc, redeem_result in Hred. cbn [v_tenantId v_applicationId v_expiresAt v_userId v_kind v_target v_redirectUri
    link_request ii_kind ii_tenantId ii_applicationId ii_userId ii_target ii_redirectUri ii_ttlMs nullish] in Hred.
  rewrite !bool_decide_true in Hred by done. cbn [negb] in Hred.
  rewrite (proj2 (Z.ltb_ge _ _)) in Hred by (unfold DEFAULT_TTL_MS; lia).
  unfold post_magic_redeem. cbn [b_token set_field no_body]. rewrite run_bind, run_demand_text by by apply base64url_nonempty.
  rewrite run_bind. unfold redeemMagicLink. change (en_verificationTokens engine) with (pz_verificationTokens rt).
  fold v. rewrite run_bind, Hred, run_bind, run_throw_if. cbn [rr_kind]. rewrite bool_decide_true by done. cbn [negb].
  rewrite run_bind. unfold findUser. change (en_lookupUser engine) with (pc_lookupUser c). rewrite Hl.
  rewrite run_find_one by exact Hh2. cbn [tbl users_table rr_userId]. rewrite Hu2.
  assert (List.find (user_query engine (mkUserLookupInput (Some (en_tenantId engine)) None None (Some (u_id u)))) (docs (users w)) = Some u) as ->.
  { apply find_some in Hf as [Hin Hq]. unfold handle_query, user_query in Hq. apply andb_true_iff in Hq as [Hten _].
    unfold user_query. cbn [ul_userId]. rewrite truthy_nonempty by done. apply find_unique; [done| |].
    - by rewrite Hten, bool_decide_true.
    - intros x Hx Hq. bool_to_prop. apply (unique_key_eq u_id (docs (users w))); [done..|]. congruence. }
  rewrite run_bind, run_throw_if, Hact. cbn [negb]. unfold link_session. rewrite !run_bind.
  cbn [rr_tenantId rr_applicationId rr_redirectUri].
  destruct (run (create_session _ _) w2) as [w3 [e|session]]; [done|]. rewrite !run_bind.
  destruct (run (mintTokens _ _ _ _ _) w3) as [w4 [e|tokens]]; [done|]. rewrite !run_bind.
  by destruct (run (audit_log _ _) w4) as [w5 [e|[]]].
Qed.
End links.

(** ** The WebSocket handshake *)
Section handshakes.
Context {P : Platform} (rt : PezhwanRuntime (P := P)).

(** The door of the WebSocket does not know who has been shut out: the handshake
    changes nothing and looks only at the clock and the signing keys, so a token whose
    session was revoked, or whose user was disabled or signed out everywhere, opens a
    socket as long as it would have anyway. *)
Theorem handshake_ignores_accounts req (w v : world P) :
  clock v = clock w → keyStore v = keyStore w →
  ∃ r, run (authenticateHandshake rt req) w = (w, inr r) ∧ run (authenticateHandshake rt req) v = (v, inr r).
Proof.
  intros Hc Hk. unfold authenticateHandshake. destruct (extractWsAccessToken req) as [token|]; [|by exists None].
  destruct (String.eqb token ""); [by exists None|].
  destruct (reads_verifyAccessToken (pz_tokens rt) token w v) as (r & Hw & Hv); [unfold clock_and_keys; congruence|].
  rewrite !run_catch, !run_bind, Hw, Hv. destruct r as [e|i]; [by exists None|by exists (Some i)].
Qed.
End handshakes.
