(* ===== verification/Admin.v ===== *)
(** * The administration API

    [apps/identity-server/src/admin.ts]: the routes over users, roles, tenants,
    OAuth clients, sessions, API keys and settings as handlers over requests and
    replies, and the bootstrap of a deployment.  The JSON of a document leaves out
    its time stamps. *)

From S2P Require Export AuthEngine.
From S2P Require Export OAuth.
From S2P Require Export ApiKeys.
From S2P Require Import Tenancy.
From Stdlib Require Import Ascii.
From S2P Require Import JsMap.

(** ** Requests and replies *)
Record Caller := mkCaller { cl_tenantId : string; cl_applicationId : string; cl_userId : string }.
Record AdminRequest := mkAdminRequest {
  rq_identity : option Caller; rq_body : option json; rq_id : string; rq_query : list (string * string);
  rq_forwarded : option string; rq_ip : option string }.
(** A reply: its data, or the code and the message of the failure. *)
Record AdminReply := mkAdminReply { ar_status : Z; ar_body : json + (string * string) }.
Definition ok_reply (data : json) : AdminReply := mkAdminReply 200 (inl data).
Definition created_reply (data : json) : AdminReply := mkAdminReply 201 (inl data).
Definition fail_reply (status : Z) (code message : string) : AdminReply := mkAdminReply status (inr (code, message)).
Definition not_found (what : string) : AdminReply := fail_reply 404 "NOT_FOUND" (what +:+ " not found").
Definition invalid (message : string) : AdminReply := fail_reply 400 "VALIDATION_ERROR" message.

(** [bodyOf], [str], [strArray] and the tests on fields. *)
Definition bodyOf (r : AdminRequest) : json := nullish (rq_body r) (JObj []).
Definition field (k : string) (b : json) : option json := match b with JObj l => obj_get k l | _ => None end.
Definition str (v : option json) (fallback : string) : string := match v with Some (JStr s) => s | _ => fallback end.
Definition strArray (v : option json) : list string :=
  match v with Some (JArr l) => omap (λ j, match j with JStr s => Some s | _ => None end) l | _ => [] end.
Definition is_bool (v : option json) (b : bool) : bool := match v with Some (JBool c) => Bool.eqb c b | _ => false end.
Definition query (k : string) (r : AdminRequest) : option json := JStr <$> map_get k (rq_query r).
(** The entries of an object that is not [null]; an array has its indices for keys. *)
Definition object_entries (v : option json) : option (list (string * json)) :=
  match v with
  | Some (JObj l) => Some l
  | Some (JArr l) => Some (imap (λ i j, (js_String (Z.of_nat i), j)) l)
  | _ => None
  end.
(** [{ ...a, ...b }]. *)
Definition spread_into (a b : list (string * json)) : list (string * json) := foldl (λ m e, map_set e.1 e.2 m) a b.
(** [String(v)]. *)
Fixpoint js_text (v : json) : string :=
  match v with
  | JNull => "null" | JBool true => "true" | JBool false => "false" | JNum n => js_String n | JStr s => s
  | JObj _ => "[object Object]"
  | JArr l => String.concat "," (map (λ j, match j with JNull => "" | _ => js_text j end) l)
  end.

(** [err.name], and [mongoErrorStatus]. *)
Definition class_name (c : error_class) : string :=
  match c with
  | CAuthenticationError => "AuthenticationError" | CAuthorizationError => "AuthorizationError" | CValidationError => "ValidationError"
  | CRateLimitError => "RateLimitError" | CTokenError => "TokenError" | CSessionError => "SessionError"
  | CConfigurationError => "ConfigurationError" | CProviderError => "ProviderError"
  | CSecurityDependencyError => "SecurityDependencyError" | CNotFoundError => "NotFoundError" | CSecurityEventError => "SecurityEventError"
  end.
Definition slug_required : exn := JsError "Tenant validation failed: slug: Path `slug` is required.".
Definition err_name (e : exn) : string :=
  match e with
  | Pezhwan p => class_name (e_name p)
  | DriverError _ _ => "MongoServerError"
  | JsError m => if is_prefix "Tenant validation failed" m then "ValidationError" else "Error"
  end.
Definition mongoErrorStatus (e : exn) : AdminReply :=
  match e with
  | DriverError (Some 11000) _ => fail_reply 409 "DUPLICATE" "A record with that value already exists"
  | _ => fail_reply 500 "INTERNAL_ERROR" (err_name e)
  end.

Section admin.
Context {P : Platform}.
Notation handler := (AdminRequest → prog (world P) AdminReply).

(** [handle]: an exception whose status is below 500 keeps it. *)
Definition error_reply (e : exn) : AdminReply :=
  match e with
  | Pezhwan p => if negb (e_status p =? 0) && (e_status p <? 500) then fail_reply (e_status p) "BAD_REQUEST" (e_message p)
                 else fail_reply 500 "INTERNAL_ERROR" (e_message p)
  | _ => fail_reply 500 "INTERNAL_ERROR" (err_message e)
  end.
Definition handle (h : handler) : handler := λ r, try_catch (h r) (λ e, mret (error_reply e)).
(** [callerOf] throws an error that carries the status 401. *)
Definition no_caller : exn := Pezhwan (mkPezhwanError CAuthenticationError "" "Authentication required" 401 []).
Definition callerOf (r : AdminRequest) : prog (world P) Caller :=
  match rq_identity r with Some c => mret c | None => Throw no_caller end.
Definition scope_of (c : Caller) (userId : string) : AuthzContext := mkAuthzContext userId (cl_tenantId c) (cl_applicationId c).

Record AdminRuntime := mkAdminRuntime { rt_audit : AuditService; rt_authorization : AuthorizationService (P := P); rt_auth : AuthEngine (P := P) }.
Definition logAdmin (rt : AdminRuntime) (r : AdminRequest) (c : Caller) (event : string) (metadata : list (string * json)) :
    prog (world P) () :=
  log (rt_audit rt) (mkAuditEntryInput event None (Some (cl_tenantId c)) (Some (cl_applicationId c)) (Some (cl_userId c)) None
    (match rq_forwarded r with Some ip => Some ip | None => rq_ip r end) None (Some metadata)).

(** ** Documents as JSON *)
Definition json_opt (v : option string) : json := match v with Some s => JStr s | None => JNull end.
Definition strings (l : list string) : json := JArr (map JStr l).
(** The document has no [lockUntil]. *)
Definition userJson (d : UserDoc) (roles : list string) : json :=
  JObj [("id", JStr (u_id d)); ("tenantId", JStr (u_tenantId d)); ("email", json_opt (u_email d)); ("phone", json_opt (u_phone d));
        ("emailVerified", JBool (u_emailVerified d)); ("phoneVerified", JBool (u_phoneVerified d)); ("isActive", JBool (u_isActive d));
        ("mfaEnabled", JBool (u_mfaEnabled d)); ("lockedUntil", JNull); ("roles", strings roles)]%string.
Definition roleJson (d : RoleDoc) : json :=
  JObj [("id", JStr (r_id d)); ("name", JStr (r_name d)); ("description", json_opt (r_description d));
        ("permissionIds", strings (r_permissionIds d)); ("isSystem", JBool (r_isSystem d)); ("tenantId", JStr (r_tenantId d));
        ("applicationId", JStr (r_applicationId d))]%string.
Definition permissionJson (d : PermissionDoc) : json :=
  JObj [("id", JStr (p_id d)); ("name", JStr (p_name d)); ("resource", JStr (p_resource d)); ("action", JStr (p_action d));
        ("description", json_opt (p_description d)); ("tenantId", JStr (p_tenantId d)); ("applicationId", JStr (p_applicationId d))]%string.
Definition grant_name (g : OAuthGrant) : string :=
  match g with authorization_code => "authorization_code" | refresh_token => "refresh_token" | client_credentials => "client_credentials" end.
Definition clientJson (d : OAuthClientDoc) : json :=
  JObj [("clientId", JStr (c_clientId d)); ("tenantId", JStr (c_tenantId d)); ("applicationId", JStr (c_applicationId d));
        ("name", JStr (c_name d)); ("redirectUris", strings (c_redirectUris d)); ("grants", strings (map grant_name (c_grants d)));
        ("scopes", strings (c_scopes d)); ("isActive", JBool (c_isActive d)); ("isConfidential", JBool (c_isConfidential d))]%string.
Definition apiKeyJson (d : ApiKeyDoc) : json :=
  JObj [("id", JStr (ap_id d)); ("name", JStr (ap_name d)); ("prefix", json_opt (ap_prefix d)); ("scopes", strings (ap_scopes d));
        ("isActive", JBool (ap_isActive d))]%string.
Definition plan_of (config : list (string * json)) : json := match map_get "plan" config with Some JNull | None => JStr "free" | Some p => p end.
Definition status_of (d : TenantDoc) : json :=
  match map_get "subscription" (t_config d) with
  | Some (JObj l) =>
    match map_get "status" l with Some JNull | None => JStr (if t_isActive d then "active" else "suspended") | Some s => s end
  | _ => JStr (if t_isActive d then "active" else "suspended")
  end.
Definition tenantJson (d : TenantDoc) : json :=
  JObj [("id", JStr (t_id d)); ("name", JStr (t_name d)); ("slug", JStr (t_slug d)); ("isActive", JBool (t_isActive d));
        ("plan", plan_of (t_config d)); ("status", status_of d); ("config", JObj (t_config d))]%string.

(** ** Users *)
(** [roleMapForUsers], as a function of the user. *)
Definition role_names (assignments : list UserRoleAssignmentDoc) (roles : list RoleDoc) (userId : string) : list string :=
  omap (λ a, if String.eqb (ra_userId a) userId then
               match List.find (λ r, String.eqb (r_id r) (ra_roleId a)) (rev roles) with
               | Some r => if String.eqb (r_name r) "" then None else Some (r_name r)
               | None => None
               end
             else None) assignments.
Definition roleMapForUsers (tenantId applicationId : string) (userIds : list string) : prog (world P) (string → list string) :=
  if (length userIds =? 0)%nat then mret (λ _, [])
  else
    assignments ← find_all (λ a, bool_decide (ra_userId a ∈ userIds) && bool_decide (ra_tenantId a = tenantId) &&
                                 bool_decide (ra_applicationId a = applicationId));
    let roleIds := map ra_roleId assignments in
    roles ← (if (length roleIds =? 0)%nat then mret [] else find_all (λ r, bool_decide (r_id r ∈ roleIds)));
    mret (role_names assignments roles).

Definition owned_user (id tenantId : string) (d : UserDoc) : bool := bool_decide (u_id d = id) && bool_decide (u_tenantId d = tenantId).
Definition admin_user (c : Caller) (id email phone : string) (hash : option string) (b : json) : UserDoc :=
  mkUserDoc id (cl_tenantId c) (if String.eqb email "" then None else Some (email_setter email))
    (if String.eqb phone "" then None else Some (js_trim phone)) (is_bool (field "emailVerified" b) true)
    (is_bool (field "phoneVerified" b) true) (negb (is_bool (field "isActive" b) false)) 0 hash [] 0 None false None None 0 None
    (nullish (object_entries (field "metadata" b)) []).
(** [POST /users]; [metadata] that is no object counts as none. *)
Definition createUser (rt : AdminRuntime) : handler := handle (λ r,
  c ← callerOf r;
  let b := bodyOf r in
  let email := js_lower (str (field "email" b) "") in
  let phone := str (field "phone" b) "" in
  let password := str (field "password" b) "" in
  let roles := strArray (field "roles" b) in
  if String.eqb email "" && String.eqb phone "" then mret (invalid "At least one of email or phone is required")
  else if negb (String.eqb email "") && String.eqb password "" then mret (invalid "Password is required for email users")
  else
    hash ← (if String.eqb password "" then mret None else h ← hashPassword password None; mret (Some h));
    try_catch
      (id ← draw newObjectId;
       let doc := admin_user c id email phone hash b in
       create doc ;;
       for_each roles (λ name, try_catch (assignRole (rt_authorization rt) (scope_of c id) name) (λ _, mret tt)) ;;
       log (rt_audit rt) (mkAuditEntryInput "USER_REGISTERED" None (Some (cl_tenantId c)) (Some (cl_applicationId c)) (Some id) None
         (rq_forwarded r) None (Some [("admin", JBool true)]%string)) ;;
       mret (ok_reply (JObj [("user", userJson doc roles)]%string)))
      (λ e, mret (mongoErrorStatus e))).
(** [GET /users/:id], [/users/:id/roles] and [/users/:id/permissions]. *)
Definition getUser : handler := handle (λ r,
  c ← callerOf r;
  doc ← find_one (owned_user (rq_id r) (cl_tenantId c));
  match doc with
  | None => mret (not_found "User")
  | Some d =>
    names ← roleMapForUsers (cl_tenantId c) (cl_applicationId c) [u_id d];
    mret (ok_reply (JObj [("user", userJson d (names (u_id d)))]%string))
  end).
Definition userRoles : handler := handle (λ r,
  c ← callerOf r;
  roles ← getUserRoles (scope_of c (rq_id r));
  mret (ok_reply (JObj [("roles", JArr (map roleJson roles))]%string))).
Definition userPermissions : handler := handle (λ r,
  c ← callerOf r;
  l ← getUserPermissions (scope_of c (rq_id r));
  mret (ok_reply (JObj [("permissions", strings l)]%string))).

(** *** [PATCH /users/:id] *)
(** The fields of [$set], with the setters of the schema. *)
Record UserPatch := mkUserPatch {
  up_email : option (string * bool); up_phone : option string; up_isActive : option bool; up_passwordHash : option string;
  up_metadata : option (list (string * json)) }.
Definition password_of (b : json) : option string :=
  match field "password" b with Some (JStr s) => if String.eqb s "" then None else Some s | _ => None end.
Definition user_patch (b : json) (hash : option string) : UserPatch :=
  mkUserPatch ((λ v, (email_setter (js_lower (str (Some v) "")), is_bool (field "emailVerified" b) true)) <$> field "email" b)
    ((λ v, js_trim (str (Some v) "")) <$> field "phone" b)
    (match field "isActive" b with Some (JBool v) => Some v | _ => None end) hash (object_entries (field "metadata" b)).
Definition is_empty_patch (p : UserPatch) : bool :=
  match p with mkUserPatch None None None None None => true | _ => false end.
Definition apply_patch (p : UserPatch) (d : UserDoc) : UserDoc :=
  let d := match up_email p with Some (e, v) => d <| u_email := Some e |> <| u_emailVerified := v |> | None => d end in
  let d := match up_phone p with Some s => d <| u_phone := Some s |> | None => d end in
  let d := match up_isActive p with Some v => d <| u_isActive := v |> | None => d end in
  let d := match up_passwordHash p with Some h => d <| u_passwordHash := Some h |> | None => d end in
  match up_metadata p with Some m => d <| u_metadata := m |> | None => d end.
(** Signs the user out: a deactivation or a new password. *)
Definition patch_revokes (p : UserPatch) : bool :=
  match up_isActive p with Some false => true | _ => false end || match up_passwordHash p with Some _ => true | None => false end.
(** An update the unique indexes may reject. *)
Definition update_user_unique (id : string) (u : UserDoc → UserDoc) : prog (world P) () :=
  store_op (λ w, match m_find_one (λ d, bool_decide (u_id d = id)) (users w) with
                 | Some d => if existsb (λ x, negb (bool_decide (u_id x = id)) && user_clash (u d) x) (docs (users w))
                             then (w, inl duplicate_key)
                             else (upd_tbl (m_update_one (λ d, bool_decide (u_id d = id)) u) w, inr tt)
                 | None => (w, inr tt)
                 end).
(** A loop whose body says whether it changed something. *)
Fixpoint any_change (l : list string) (body : string → prog (world P) bool) : prog (world P) bool :=
  match l with
  | [] => mret false
  | x :: l => c ← body x; d ← any_change l body; mret (c || d)
  end.
Definition sync_roles (rt : AdminRuntime) (c : Caller) (userId : string) (b : json) : prog (world P) bool :=
  match field "roles" b with
  | None => mret false
  | Some v =>
    let roles := strArray (Some v) in
    current ← getUserRoles (scope_of c userId);
    let names := map r_name current in
    added ← any_change roles (λ n, if bool_decide (n ∈ names) then mret false
                                   else assignRole (rt_authorization rt) (scope_of c userId) n ;; mret true);
    dropped ← any_change (remove_dups names) (λ n, if bool_decide (n ∈ roles) then mret false
                                   else removeRole (rt_authorization rt) (scope_of c userId) n ;; mret true);
    mret (added || dropped)
  end.
Definition null_document : exn := JsError "Cannot read properties of null".
Definition updateUser (rt : AdminRuntime) : handler := handle (λ r,
  c ← callerOf r;
  let b := bodyOf r in
  let userId := rq_id r in
  doc ← find_one (owned_user userId (cl_tenantId c));
  match doc with
  | None => mret (not_found "User")
  | Some _ =>
    hash ← (match password_of b with Some p => h ← hashPassword p None; mret (Some h) | None => mret None end);
    let patch := user_patch b hash in
    (if is_empty_patch patch then mret tt else update_user_unique userId (apply_patch patch)) ;;
    changed ← sync_roles rt c userId b;
    (if patch_revokes patch || changed then update_one (λ d, bool_decide (u_id d = userId)) bump_version else mret tt) ;;
    refreshed ← find_one (λ d, bool_decide (u_id d = userId));
    names ← roleMapForUsers (cl_tenantId c) (cl_applicationId c) [userId];
    match refreshed with
    | Some d => mret (ok_reply (JObj [("user", userJson d (names userId))]%string))
    | None => Throw null_document
    end
  end).
(** [DELETE /users/:id]. *)
Definition deactivated (d : UserDoc) : UserDoc := d <| u_isActive := false |> <| u_tokenVersion ::= Z.add 1 |>.
Definition session_of (userId tenantId : string) (s : SessionDoc) : bool :=
  bool_decide (s_userId s = userId) && bool_decide (s_tenantId s = tenantId) && bool_decide (s_status s = active).
Definition admin_revoked (t : Z) (s : SessionDoc) : SessionDoc := s <| s_status := revoked |> <| s_revokedAt := Some t |>.
Definition deleteUser : handler := handle (λ r,
  c ← callerOf r;
  matched ← find_one_and_update (owned_user (rq_id r) (cl_tenantId c)) deactivated;
  match matched with
  | None => mret (not_found "User")
  | Some _ =>
    t ← now;
    update_many (session_of (rq_id r) (cl_tenantId c)) (admin_revoked t) ;;
    mret (ok_reply (JObj [("deactivated", JBool true)]%string))
  end).

(** ** Roles and permissions *)
Definition scoped_role (id : string) (c : Caller) (d : RoleDoc) : bool :=
  bool_decide (r_id d = id) && bool_decide (r_tenantId d = cl_tenantId c) && bool_decide (r_applicationId d = cl_applicationId c).
Definition listRoles : handler := handle (λ r,
  c ← callerOf r;
  let tenantId := str (query "tenantId" r) (cl_tenantId c) in
  let applicationId := str (query "applicationId" r) (cl_applicationId c) in
  l ← find_all (λ d, bool_decide (r_tenantId d = tenantId) && bool_decide (r_applicationId d = applicationId));
  mret (ok_reply (JObj [("roles", JArr (map roleJson l))]%string))).
Definition createRole (rt : AdminRuntime) : handler := handle (λ r,
  c ← callerOf r;
  let b := bodyOf r in
  let name := js_upper (js_trim (str (field "name" b) "")) in
  if String.eqb name "" then mret (invalid "name is required")
  else
    try_catch
      (id ← draw newObjectId;
       let doc := mkRoleDoc id (cl_tenantId c) (cl_applicationId c) name (Some (str (field "description" b) ""))
                    (strArray (field "permissions" b)) false in
       create doc ;;
       logAdmin rt r c "ROLE_CHANGED" [("role", JStr name); ("admin", JBool true)]%string ;;
       mret (ok_reply (JObj [("role", roleJson doc)]%string)))
      (λ e, mret (mongoErrorStatus e))).
Definition patch_role (b : json) (d : RoleDoc) : RoleDoc :=
  let d := match field "description" b with Some v => d <| r_description := Some (str (Some v) "") |> | None => d end in
  match field "permissions" b with Some v => d <| r_permissionIds := strArray (Some v) |> | None => d end.
Definition updateRole (rt : AdminRuntime) : handler := handle (λ r,
  c ← callerOf r;
  let b := bodyOf r in
  match field "description" b, field "permissions" b with
  | None, None => mret (invalid "Nothing to update")
  | _, _ =>
    doc ← find_one_and_update (scoped_role (rq_id r) c) (patch_role b);
    match doc with
    | None => mret (not_found "Role")
    | Some d =>
      logAdmin rt r c "ROLE_CHANGED" [("role", JStr (r_name d)); ("admin", JBool true)]%string ;;
      mret (ok_reply (JObj [("role", roleJson d)]%string))
    end
  end).
Definition deleteRole (rt : AdminRuntime) : handler := handle (λ r,
  c ← callerOf r;
  doc ← find_one (scoped_role (rq_id r) c);
  match doc with
  | None => mret (not_found "Role")
  | Some d =>
    if r_isSystem d then mret (fail_reply 400 "SYSTEM_ROLE" "System roles cannot be deleted")
    else
      delete_many (λ a, bool_decide (ra_roleId a = r_id d)) ;;
      delete_one (λ x, bool_decide (r_id x = rq_id r)) ;;
      logAdmin rt r c "ROLE_CHANGED" [("role", JStr (r_name d)); ("deleted", JBool true); ("admin", JBool true)]%string ;;
      mret (ok_reply (JObj [("deleted", JBool true)]%string))
  end).
(** [POST /roles/assign] and [/roles/remove]. *)
Definition role_target (c : Caller) (b : json) : AuthzContext :=
  mkAuthzContext (str (field "userId" b) "") (str (field "tenantId" b) (cl_tenantId c)) (str (field "applicationId" b) (cl_applicationId c)).
Definition change_role (rt : AdminRuntime) (change : AuthorizationService → AuthzContext → string → prog (world P) ()) (done_ : string) : handler :=
  handle (λ r,
  c ← callerOf r;
  let b := bodyOf r in
  let roleName := js_upper (js_trim (str (field "roleName" b) "")) in
  if String.eqb (str (field "userId" b) "") "" || String.eqb roleName "" then mret (invalid "userId and roleName are required")
  else
    change (rt_authorization rt) (role_target c b) roleName ;;
    logAdmin rt r c "ROLE_CHANGED" [("userId", JStr (str (field "userId" b) "")); ("roleName", JStr roleName); (done_, JBool true)]%string ;;
    mret (ok_reply (JObj [(done_, JBool true)]))).
Definition assign_role_route (rt : AdminRuntime) : handler := change_role rt assignRole "assigned".
Definition remove_role_route (rt : AdminRuntime) : handler := change_role rt removeRole "removed".
Definition listPermissions : handler := handle (λ r,
  c ← callerOf r;
  let tenantId := str (query "tenantId" r) (cl_tenantId c) in
  let applicationId := str (query "applicationId" r) (cl_applicationId c) in
  l ← find_all (λ d, bool_decide (p_tenantId d = tenantId) && bool_decide (p_applicationId d = applicationId));
  mret (ok_reply (JObj [("permissions", JArr (map permissionJson l))]%string))).
(** [permission.indexOf(':')] and the two slices. *)
Fixpoint split_colon (s : string) : option (string * string) :=
  match s with
  | EmptyString => None
  | String c s' => if Ascii.eqb c ":"%char then Some ("", s') else '(a, b) ← split_colon s'; Some (String c a, b)
  end.
(** [POST /authorization/can]. *)
Definition can_route (rt : AdminRuntime) : handler := handle (λ r,
  c ← callerOf r;
  let b := bodyOf r in
  let permission := str (field "permission" b) "" in
  let scope := mkAuthzContext (str (field "userId" b) (cl_userId c)) (str (field "tenantId" b) (cl_tenantId c))
                 (str (field "applicationId" b) (cl_applicationId c)) in
  allowed ← (match split_colon permission with
             | Some (resource, action) =>
               can (rt_authorization rt) (mkAuthorizationInput scope (Some resource) (Some action) None permission)
             | None => if String.eqb permission "" then mret false
                       else l ← getUserPermissions scope; mret (bool_decide (permission ∈ l))
             end);
  mret (ok_reply (JObj [("allowed", JBool allowed)]%string))).

(** ** Clients, sessions, API keys *)
Definition grant_of (s : string) : option OAuthGrant :=
  List.find (λ g, String.eqb (grant_name g) s) [authorization_code; refresh_token; client_credentials].
(** A grant the schema does not list. *)
Definition grants_invalid : exn := JsError "OAuthClient validation failed: grants".
Definition createClient : handler := handle (λ r,
  c ← callerOf r;
  let b := bodyOf r in
  let name := str (field "name" b) "" in
  let redirectUris := strArray (field "redirectUris" b) in
  if String.eqb name "" || (length redirectUris =? 0)%nat then mret (invalid "name and redirectUris are required")
  else
    let asked := strArray (field "grants" b) in
    grants ← (match mapM grant_of (if (length asked =? 0)%nat then ["authorization_code"%string] else asked) with
              | Some l => mret l
              | None => Throw grants_invalid
              end);
    registered ← registerClient (cl_tenantId c) (cl_applicationId c) name redirectUris grants (Some (strArray (field "scopes" b)))
      (Some (negb (is_bool (field "confidential" b) false)))
      (match field "clientSecret" b with Some (JStr s) => Some s | _ => None end);
    row ← find_one (λ d, bool_decide (c_clientId d = fst registered));
    match row with
    | Some d => mret (ok_reply (JObj [("client", clientJson d); ("clientSecret", json_opt (snd registered))]%string))
    | None => Throw null_document
    end).
Definition disableClient : handler := handle (λ r,
  matched ← find_one_and_update (λ d, bool_decide (c_clientId d = rq_id r)) (λ d, d <| c_isActive := false |>);
  mret (match matched with Some _ => ok_reply (JObj [("disabled", JBool true)]%string) | None => not_found "Client" end)).
Definition patch_client (b : json) (d : OAuthClientDoc) : OAuthClientDoc :=
  let d := match field "isActive" b with Some (JBool v) => d <| c_isActive := v |> | _ => d end in
  let d := match field "redirectUris" b with Some v => d <| c_redirectUris := strArray (Some v) |> | None => d end in
  match field "scopes" b with Some v => d <| c_scopes := strArray (Some v) |> | None => d end.
Definition client_sets (b : json) : list (string * json) :=
  match field "isActive" b with Some (JBool v) => [("isActive"%string, JBool v)] | _ => [] end ++
  match field "redirectUris" b with Some v => [("redirectUris"%string, strings (strArray (Some v)))] | None => [] end ++
  match field "scopes" b with Some v => [("scopes"%string, strings (strArray (Some v)))] | None => [] end.
Definition updateClient : handler := handle (λ r,
  let b := bodyOf r in
  if (length (client_sets b) =? 0)%nat then mret (invalid "Nothing to update")
  else
    matched ← find_one_and_update (λ d, bool_decide (c_clientId d = rq_id r)) (patch_client b);
    mret (match matched with
          | Some _ => ok_reply (JObj (("updated"%string, JBool true) :: client_sets b))
          | None => not_found "Client"
          end)).
(** [POST /sessions/:id/revoke]. *)
Definition revokeSession : handler := handle (λ r,
  t ← now;
  matched ← find_one_and_update (λ s, bool_decide (s_id s = rq_id r) && bool_decide (s_status s = active)) (admin_revoked t);
  mret (match matched with Some _ => ok_reply (JObj [("revoked", JBool true)]%string) | None => not_found "Active session" end)).
Definition createApiKey (rt : AdminRuntime) : handler := handle (λ r,
  c ← callerOf r;
  let b := bodyOf r in
  let name := str (field "name" b) "" in
  if String.eqb name "" then mret (invalid "name is required")
  else
    key ← create_api_key (mkCreateKeyInput (cl_tenantId c) (cl_applicationId c) name (Some (strArray (field "scopes" b))));
    doc ← find_one (λ d, bool_decide (ap_keyHash d = keyHash key));
    logAdmin rt r c "API_KEY_CREATED" [("name", JStr name); ("admin", JBool true)]%string ;;
    match doc with
    | Some d => mret (ok_reply (JObj [("apiKey", apiKeyJson d); ("rawKey", JStr (rawKey key)); ("prefix", JStr (ApiKeys.prefix key))]%string))
    | None => Throw null_document
    end).
Definition revokeApiKey : handler := handle (λ r,
  revoke_api_key (rq_id r) ;;
  mret (ok_reply (JObj [("revoked", JBool true)]%string))).

(** ** Tenants and settings *)
(** [/^[0-9a-fA-F]{24}$/]. *)
Definition is_hex (ch : ascii) : bool :=
  let n := nat_of_ascii ch in
  (((48 <=? n) && (n <=? 57)) || ((97 <=? n) && (n <=? 102)) || ((65 <=? n) && (n <=? 70)))%nat.
Fixpoint all_hex (s : string) : bool := match s with String ch s => is_hex ch && all_hex s | EmptyString => true end.
Definition tenantLookup (key : string) (d : TenantDoc) : bool :=
  if (String.length key =? 24)%nat && all_hex key then bool_decide (t_id d = key) else bool_decide (t_slug d = key).
Definition listTenants : handler := handle (λ r,
  l ← find_sorted (λ d, - t_createdAt d) (λ _ : TenantDoc, true);
  mret (ok_reply (JObj [("tenants", JArr (map tenantJson l))]%string))).
Definition createTenant (rt : AdminRuntime) : handler := handle (λ r,
  c ← callerOf r;
  let b := bodyOf r in
  let name := str (field "name" b) "" in
  let slug := str (field "slug" b) (dash_runs false (js_lower name)) in
  if String.eqb name "" then mret (invalid "name is required")
  else
    try_catch
      (throw_if (String.eqb slug "") slug_required ;;
       id ← draw newObjectId;
       t ← now;
       let doc := mkTenantDoc id name slug (negb (is_bool (field "isActive" b) false))
         (spread_into [("plan"%string, JStr (str (field "plan" b) "free"))] (nullish (object_entries (field "config" b)) [])) t in
       create doc ;;
       log (rt_audit rt) (mkAuditEntryInput "DOMAIN_ADDED" None (Some id) (Some (cl_applicationId c)) (Some (cl_userId c)) None
         (rq_forwarded r) None (Some [("admin", JBool true); ("tenantName", JStr name)]%string)) ;;
       mret (created_reply (tenantJson doc)))
      (λ e, mret (mongoErrorStatus e))).
Definition getTenant : handler := handle (λ r,
  doc ← find_one (tenantLookup (rq_id r));
  mret (match doc with Some d => ok_reply (JObj [("tenant", tenantJson d)]%string) | None => not_found "Tenant" end)).
(** [sanitizeTenantPatch]: the paths that are set. *)
Inductive tenant_set := set_name (s : string) | set_active (b : bool) | set_config_path (k : string) (v : json) | set_config (l : list (string * json)).
Definition set_text (v : option json) : option string := option_map js_text v.
Definition config_sets (b : json) : list tenant_set :=
  match object_entries (field "config" b) with
  | None => []
  | Some l =>
    let get k := map_get k (rev l) in
    match get "plan"%string, get "subscription"%string, get "settings"%string with
    | None, None, None => [set_config l]
    | plan, subscription, settings =>
      match plan with Some v => [set_config_path "plan" (JStr (js_text v))] | None => [] end ++
      match subscription with Some v => [set_config_path "subscription" v] | None => [] end ++
      match settings with Some v => [set_config_path "settings" v] | None => [] end
    end
  end.
Definition sanitizeTenantPatch (b : json) : list tenant_set :=
  match field "name" b with Some (JStr s) => if String.eqb (js_trim s) "" then [] else [set_name s] | _ => [] end ++
  match field "isActive" b with Some (JBool v) => [set_active v] | _ => [] end ++
  match field "plan" b with Some v => [set_config_path "plan" (JStr (js_text v))] | None => [] end ++ config_sets b.
Definition apply_set (x : tenant_set) (d : TenantDoc) : TenantDoc :=
  match x with
  | set_name s => d <| t_name := s |>
  | set_active v => d <| t_isActive := v |>
  | set_config_path k v => d <| t_config ::= map_set k v |>
  | set_config l => d <| t_config := l |>
  end.
(** Setting a whole and a part of it is refused by the server. *)
Definition conflicting (l : list tenant_set) : bool :=
  existsb (λ x, match x with set_config _ => true | _ => false end) l &&
  existsb (λ x, match x with set_config_path _ _ => true | _ => false end) l.
Definition conflicting_update : exn := DriverError (Some 40) "Updating the path 'config' would create a conflict at 'config'".
Definition updateTenant : handler := handle (λ r,
  let sets := sanitizeTenantPatch (bodyOf r) in
  throw_if (conflicting sets) conflicting_update ;;
  doc ← find_one_and_update (tenantLookup (rq_id r)) (λ d, foldl (λ d x, apply_set x d) d sets);
  mret (match doc with Some d => ok_reply (JObj [("tenant", tenantJson d)]%string) | None => not_found "Tenant" end)).

Definition of_slug (slug : string) (d : TenantDoc) : bool := bool_decide (t_slug d = slug).
Definition settings_of (d : option TenantDoc) : json :=
  match d with Some d => match map_get "settings" (t_config d) with Some JNull | None => JObj [] | Some s => s end | None => JObj [] end.
Definition getSettings : handler := handle (λ r,
  c ← callerOf r;
  d ← find_one (of_slug (cl_tenantId c));
  mret (ok_reply (JObj [("settings"%string, settings_of d)]))).
(** [PATCH /settings]: the [$setOnInsert] is among the options, where it is ignored,
    so a tenant that is inserted has no name. *)
Definition updateSettings : handler := handle (λ r,
  c ← callerOf r;
  match field "settings" (bodyOf r) with
  | Some (JObj _ | JArr _) as s =>
    let v := nullish s JNull in
    id ← draw newObjectId;
    t ← now;
    find_one_and_upsert (of_slug (cl_tenantId c)) (λ d, d <| t_config ::= map_set "settings" v |>)
      (mkTenantDoc id "" (cl_tenantId c) true [("settings"%string, v)] t) ;;
    mret (ok_reply (JObj [("settings"%string, v)]))
  | _ => mret (invalid "settings object is required")
  end).
Definition subscription_row (d : TenantDoc) : json :=
  JObj [("tenantId", JStr (t_id d)); ("tenant", JStr (t_name d)); ("plan", plan_of (t_config d)); ("status", status_of d);
        ("cancelAtPeriodEnd", match map_get "subscription" (t_config d) with
                              | Some (JObj l) => match map_get "cancelAtPeriodEnd" l with Some JNull | None => JBool false | Some v => v end
                              | _ => JBool false end)]%string.
Definition listSubscriptions : handler := handle (λ r,
  l ← find_all (λ _ : TenantDoc, true);
  mret (ok_reply (JObj [("subscriptions", JArr (map subscription_row l))]%string))).

(** ** Bootstrap *)
Record BootstrapOptions := mkBootstrapOptions {
  bo_tenantId : string; bo_applicationId : string; bo_tenantName : option string; bo_tenantSlug : option string;
  bo_adminEmail : option string; bo_adminPassword : option string }.
Definition bootstrap_slug (o : BootstrapOptions) : string := nullish (bo_tenantSlug o) ("tenant-" +:+ bo_tenantId o).
Definition ensure_tenant (o : BootstrapOptions) : prog (world P) () :=
  d ← find_one (of_slug (bootstrap_slug o));
  match d with
  | Some _ => mret tt
  | None =>
    id ← draw newObjectId;
    t ← now;
    create (mkTenantDoc id (nullish (bo_tenantName o) "Bootstrap Tenant") (bootstrap_slug o) true [("plan"%string, JStr "pro")] t)
  end.
Definition bootstrap_app (o : BootstrapOptions) (d : ApplicationDoc) : bool :=
  bool_decide (app_tenantId d = bo_tenantId o) && bool_decide (app_clientId d = bo_applicationId o).
Definition ensure_application (o : BootstrapOptions) : prog (world P) () :=
  d ← find_one (bootstrap_app o);
  match d with
  | Some _ => mret tt
  | None =>
    secret ← draw (λ i, to_base64url (randomBytes i 32));
    id ← draw newObjectId;
    create (mkApplicationDoc id (bo_tenantId o) "Default Application" "web" (bo_applicationId o)
      (to_base64 (createHash sha256 secret)) [] true)
  end.
Definition admin_role (o : BootstrapOptions) (d : RoleDoc) : bool :=
  bool_decide (r_tenantId d = bo_tenantId o) && bool_decide (r_applicationId d = bo_applicationId o) && bool_decide (r_name d = "ADMIN"%string).
Definition ensure_role (o : BootstrapOptions) : prog (world P) () :=
  d ← find_one (admin_role o);
  match d with
  | Some _ => mret tt
  | None =>
    id ← draw newObjectId;
    create (mkRoleDoc id (bo_tenantId o) (bo_applicationId o) "ADMIN" (Some "Platform administrator") [] true)
  end.
Definition admin_account (o : BootstrapOptions) (email : string) (d : UserDoc) : bool :=
  bool_decide (u_tenantId d = bo_tenantId o) && bool_decide (u_email d = Some (email_setter (js_lower email))).
Definition ensure_admin (rt : AdminRuntime) (o : BootstrapOptions) : prog (world P) () :=
  if truthy (bo_adminEmail o) && truthy (bo_adminPassword o) then
    let email := nullish (bo_adminEmail o) "" in
    existing ← find_one (admin_account o email);
    userId ← (match existing with
              | Some d => mret (Some (u_id d))
              | None =>
                try_catch
                  (r ← AuthEngine.register (rt_auth rt) (mkUserCreateInput (bo_tenantId o) (bo_applicationId o) (Some email) None
                         (bo_adminPassword o) (Some [("bootstrapAdmin", JBool true)]%string)) None;
                   mret (Some (u_id (fst r))))
                  (λ _, mret None)
              end);
    match userId with
    | None => mret tt
    | Some u => try_catch (assignRole (rt_authorization rt) (mkAuthzContext u (bo_tenantId o) (bo_applicationId o)) "ADMIN") (λ _, mret tt)
    end
  else mret tt.
Definition ensureBootstrap (rt : AdminRuntime) (o : BootstrapOptions) : prog (world P) () :=
  ensure_tenant o ;; ensure_application o ;; ensure_role o ;; ensure_admin rt o.
End admin.
