(* ===== verification/AdminIsolation.v ===== *)
(** * Isolation of the administration API, and its webhook routes

    The theorems about Admin.v, and, since they rest on the webhook service, the routes
    that list, register and test endpoints. *)

From S2P Require Export Admin.
From S2P Require Import JsMap.
From S2P Require Export Webhooks.

(** * Isolation of the administration API

    What the routes of [Admin] leave alone: the users and the roles of other
    tenants; what deleting a user and a role, and starting a deployment twice, do. *)

(** A read changes nothing but the faults to come. *)
Lemma run_read_frame {P : Platform} {A} (f : world P → exn + A) w w' r :
  run (store_op (λ w, (w, f w))) w = (w', r) → ∃ fs, w' = w <| faults := fs |>.
Proof.
  rewrite run_store_op. unfold apply_fault. destruct (faults w) as [|[x|] fs] eqn:E.
  - intros [= <- _]. exists []. rewrite <- E. by destruct w.
  - intros [= <- _]. exists fs. by destruct (fl_applied x).
  - intros [= <- _]. by exists fs.
Qed.

(** ** The users of other tenants *)
Section confined.
Context {P : Platform} (t : string).

Definition foreign_users (w : world P) : list UserDoc := List.filter (λ d, negb (bool_decide (u_tenantId d = t))) (docs (users w)).

Lemma filter_alter_first {D} (g f : D → bool) (u : D → D) l :
  (∀ d, In d l → f d = true → g d = false ∧ g (u d) = false) → List.filter g (alter_first f u l) = List.filter g l.
Proof.
  induction l as [|d l IH]; cbn; intros H; [done|]. destruct (f d) eqn:Hf; cbn.
  - destruct (H d (or_introl eq_refl) Hf) as [-> ->]. done.
  - rewrite IH; [done|]. intros x Hx. apply H. by right.
Qed.
Lemma filter_remove_first {D} (g f : D → bool) l :
  (∀ d, In d l → f d = true → g d = false) → List.filter g (remove_first f l) = List.filter g l.
Proof.
  induction l as [|d l IH]; cbn; intros H; [done|]. destruct (f d) eqn:Hf; cbn.
  - by rewrite (H d (or_introl eq_refl) Hf).
  - rewrite IH; [done|]. intros x Hx. apply H. by right.
Qed.
Lemma foreign_inserted (d : UserDoc) (w w' : world P) :
  u_tenantId d = t → inserted d (docs (users w)) (docs (users w')) → foreign_users w' = foreign_users w.
Proof.
  intros Ht (l1 & l2 & He & He'). unfold foreign_users. rewrite He, He', !List.filter_app. cbn. by rewrite Ht, bool_decide_true.
Qed.

Section one_user.
Context (i : string).
(** Whoever has the identifier is of the tenant. *)
Definition owned (w : world P) : Prop := ∀ d, In d (docs (users w)) → u_id d = i → u_tenantId d = t.
Definition confined (w w' : world P) : Prop := owned w → owned w' ∧ foreign_users w' = foreign_users w.
#[export] Instance confined_preorder : PreOrder confined.
Proof.
  split; [done|]. intros w1 w2 w3 H1 H2 Hw. destruct (H1 Hw) as [Hw2 E1]. destruct (H2 Hw2) as [Hw3 E2]. split; [done|congruence].
Qed.
Lemma confined_same w w' : users w' = users w → confined w w'.
Proof. unfold confined, owned, foreign_users. by intros ->. Qed.
Lemma confined_op {A} (f : world P → world P * (exn + A)) : (∀ w, confined w (f w).1) → guarantee confined (store_op f).
Proof. apply guarantee_store_op; [apply _|]. intros w x fs _. by apply confined_same. Qed.
Lemma confined_act {A} (f : world P → world P * A) : (∀ w, users (f w).1 = users w) → guarantee confined (act f).
Proof. intros Hf. apply guarantee_act. intros w. by apply confined_same. Qed.

Lemma cf_read {A} (f : world P → exn + A) : guarantee confined (store_op (λ w, (w, f w))).
Proof. by apply confined_op. Qed.
Lemma cf_find_one {D} {T : Table D} (f : D → bool) : guarantee confined (find_one f).
Proof. apply cf_read. Qed.
Lemma cf_find_all {D} {T : Table D} (f : D → bool) : guarantee confined (find_all f).
Proof. apply cf_read. Qed.
Lemma cf_now : guarantee (W := world P) confined now.
Proof. by apply confined_act. Qed.
Lemma cf_draw {A} (f : nat → A) : guarantee (W := world P) confined (draw f).
Proof. by apply confined_act. Qed.
Lemma cf_redis_del k : guarantee (W := world P) confined (redis_del k).
Proof. by apply confined_act. Qed.
Lemma cf_log a input : guarantee (W := world P) confined (log a input).
Proof.
  eapply guarantee_mono; [|apply g_log]. intros w w' (Hr & _). apply confined_same. unfold rest in Hr. by injection Hr.
Qed.
Lemma cf_audit a input : guarantee (W := world P) confined (audit_log a input).
Proof. destruct a; [apply cf_log|done]. Qed.
Lemma cf_upsert_assignment f u d : guarantee (W := world P) confined (find_one_and_upsert (D := UserRoleAssignmentDoc) f u d).
Proof.
  apply confined_op. intros w. destruct (m_find_one _ _); [by apply confined_same|]. unfold insert_doc.
  destruct (m_insert _ _ _); by apply confined_same.
Qed.
Lemma cf_delete_assignment f : guarantee (W := world P) confined (delete_one (D := UserRoleAssignmentDoc) f).
Proof. apply confined_op. intros w. by apply confined_same. Qed.
Lemma cf_update_sessions f u : guarantee (W := world P) confined (update_many (D := SessionDoc) f u).
Proof. apply confined_op. intros w. by apply confined_same. Qed.

(** Updating the user of the identifier. *)
Lemma confined_update (u : UserDoc → UserDoc) w :
  (∀ d, u_id (u d) = u_id d ∧ u_tenantId (u d) = u_tenantId d) →
  confined w (upd_tbl (m_update_one (λ d, bool_decide (u_id d = i)) u) w).
Proof.
  intros Hu Hw. unfold owned, foreign_users. change (users (upd_tbl ?f w)) with (f (users w)). rewrite m_update_one_law. split.
  - intros d [Hd|(x & Hx & Hf & ->)]%In_alter_first; [by apply Hw|]. destruct (Hu x) as [-> ->]. by apply Hw.
  - apply filter_alter_first. intros d Hd Hi%bool_decide_eq_true. destruct (Hu d) as [_ ->]. by rewrite (Hw d Hd Hi), bool_decide_true.
Qed.
Lemma cf_update_one u :
  (∀ d, u_id (u d) = u_id d ∧ u_tenantId (u d) = u_tenantId d) →
  guarantee (W := world P) confined (update_one (λ d, bool_decide (u_id d = i)) u).
Proof. intros Hu. apply confined_op. intros w. by apply confined_update. Qed.
Lemma cf_update_unique u :
  (∀ d, u_id (u d) = u_id d ∧ u_tenantId (u d) = u_tenantId d) → guarantee (W := world P) confined (update_user_unique i u).
Proof.
  intros Hu. apply confined_op. intros w. destruct (m_find_one _ _) as [d|]; [|done]. destruct (existsb _ _); [done|].
  by apply confined_update.
Qed.
Lemma cf_bump : guarantee (W := world P) confined (update_one (λ d, bool_decide (u_id d = i)) bump_version).
Proof. by apply cf_update_one. Qed.
Lemma cf_invalidate u : guarantee (W := world P) confined (invalidate u).
Proof. apply cf_redis_del. Qed.
#[local] Hint Resolve cf_find_one cf_find_all cf_now cf_draw cf_log cf_audit cf_upsert_assignment cf_delete_assignment
  cf_bump cf_invalidate : guarantee_db.
Lemma cf_assignRole az c name : Authorization.az_userId c = i → guarantee (W := world P) confined (assignRole az c name).
Proof. intros Hi. unfold assignRole. rewrite Hi. solve_guarantee. Qed.
Lemma cf_removeRole az c name : Authorization.az_userId c = i → guarantee (W := world P) confined (removeRole az c name).
Proof. intros Hi. unfold removeRole. rewrite Hi. solve_guarantee. Qed.
Lemma cf_getUserRoles c : guarantee (W := world P) confined (getUserRoles c).
Proof. unfold getUserRoles. solve_guarantee. Qed.
Lemma cf_any_change l body : (∀ x, guarantee (W := world P) confined (body x)) → guarantee confined (any_change l body).
Proof. intros Hb. induction l as [|x l IH]; cbn; [done|]. apply guarantee_bind; [done|]. intros ch. by apply guarantee_bind. Qed.
#[local] Hint Resolve cf_getUserRoles : guarantee_db.
Lemma cf_sync_roles rt c b : guarantee (W := world P) confined (sync_roles rt c i b).
Proof.
  unfold sync_roles. destruct (field _ b) as [v|]; [|done]. apply guarantee_bind; [apply cf_getUserRoles|]. intros l.
  apply guarantee_bind; [|intros a; apply guarantee_bind; [|done]]; apply cf_any_change; intros x; case_match; try done;
    (apply guarantee_bind; [|done]); [by apply cf_assignRole|by apply cf_removeRole].
Qed.
Lemma cf_roleMap a b l : guarantee (W := world P) confined (roleMapForUsers a b l).
Proof. unfold roleMapForUsers. solve_guarantee. Qed.
Lemma cf_hashPassword p o : guarantee (W := world P) confined (hashPassword p o).
Proof. apply guarantee_bind; [apply cf_draw|]. by intros []. Qed.
End one_user.

(** The relation a user of the tenant established, and what runs under it. *)
Lemma run_confined {A} i (p : prog (world P) A) w :
  guarantee (confined i) p → owned i w → owned i (run p w).1 ∧ foreign_users (run p w).1 = foreign_users w.
Proof. intros Hp. by apply (guarantee_run (confined i) p w). Qed.

(** Programs that leave foreign users alone whoever they work on. *)
Definition foreign_same (w w' : world P) : Prop := foreign_users w' = foreign_users w.
#[export] Instance foreign_same_preorder : PreOrder foreign_same.
Proof. split; [done|]. intros w1 w2 w3 H1 H2. unfold foreign_same in *. congruence. Qed.
Lemma foreign_op {A} (f : world P → world P * (exn + A)) : (∀ w, foreign_same w (f w).1) → guarantee foreign_same (store_op f).
Proof. apply guarantee_store_op; [apply _|done]. Qed.
Lemma foreign_create d : u_tenantId d = t → guarantee (W := world P) foreign_same (create d).
Proof.
  intros Hd. apply foreign_op. intros w. unfold insert_doc. pose proof (m_insert_law clash d (users w)) as Hi.
  cbn [tbl users_table]. destruct (m_insert clash d (users w)) as [c|]; [|done]. destruct Hi as [_ Hi]. by apply (foreign_inserted d w (upd_tbl (λ _, c) w)).
Qed.
Lemma foreign_find_and_update f u :
  (∀ d, f d = true → u_tenantId d = t) → (∀ d, u_tenantId (u d) = u_tenantId d) →
  guarantee (W := world P) foreign_same (find_one_and_update f u).
Proof.
  intros Hf Hu. apply foreign_op. intros w. unfold foreign_same, foreign_users. cbn [fst].
  change (users (upd_tbl ?g w)) with (g (users w)). rewrite m_update_one_law. apply filter_alter_first.
  intros d _ Hd. by rewrite Hu, (Hf d Hd), bool_decide_true.
Qed.
Lemma run_foreign {A} (p : prog (world P) A) w : guarantee foreign_same p → foreign_users (run p w).1 = foreign_users w.
Proof. intros Hp. by apply (guarantee_run foreign_same p w). Qed.
Lemma foreign_hash p o w : foreign_users (run (hashPassword p o) w).1 = foreign_users w ∧ docs (users (run (hashPassword p o) w).1) = docs (users w).
Proof. unfold hashPassword. rewrite run_bind, run_draw. destruct (argon2_hash _ _ _); done. Qed.
End confined.

Section confined_routes.
Context {P : Platform} (rt : AdminRuntime (P := P)) (r : AdminRequest) (c : Caller).
Hypothesis caller : rq_identity r = Some c.
Notation t := (cl_tenantId c).

Lemma apply_patch_owner p d : u_id (apply_patch p d) = u_id d ∧ u_tenantId (apply_patch p d) = u_tenantId d.
Proof. destruct p as [[[]|] [] [] [] []]; done. Qed.

(** What a route does is what its body does. *)
Lemma run_handle (Φ : world P → Prop) (h : AdminRequest → prog (world P) AdminReply) w :
  Φ (run (h r) w).1 → Φ (run (handle h r) w).1.
Proof. unfold handle. rewrite run_catch. by destruct (run (h r) w) as [w' [e|a]]. Qed.

Lemma foreign_createUser w : foreign_users t (run (createUser rt r) w).1 = foreign_users t w.
Proof.
  apply (run_handle (λ w', foreign_users t w' = foreign_users t w)). unfold callerOf. rewrite caller.
  change (run (mret c ≫= ?k) w) with (run (k c) w). cbv beta zeta.
  destruct (String.eqb _ "" && String.eqb _ ""); [done|]. destruct (negb _ && _); [done|].
  rewrite run_bind. set (hash := if String.eqb _ "" then _ else _).
  assert (∃ w1 h, run hash w = (w1, h) ∧ foreign_users t w1 = foreign_users t w) as (w1 & h & -> & Hw1).
  { destruct (run hash w) as [w1 h] eqn:Hr. exists w1, h. split; [done|]. change w1 with (w1, h).1. rewrite <- Hr. subst hash.
    destruct (String.eqb _ ""); [done|]. rewrite run_bind. pose proof (foreign_hash t (str (field "password" (bodyOf r)) "") None w) as [Hf _].
    destruct (run (hashPassword _ _) w) as [w2 [e|x]]; exact Hf. }
  destruct h as [e|h]; [done|]. rewrite run_catch, run_bind, run_draw. set (id := newObjectId (draws w1)).
  set (w2 := w1 <| draws ::= S |>). assert (foreign_users t w2 = foreign_users t w) as Hw2 by exact Hw1.
  set (doc := admin_user c id _ _ h _). assert (u_tenantId doc = t) as Hdoc by done. rewrite run_bind.
  pose proof (run_foreign t (create doc) w2 (foreign_create t doc Hdoc)) as Hw3.
  destruct (run (create doc) w2) as [w3 [e|u]] eqn:Hcreate; [cbn in *; congruence|]. cbn [fst] in Hw3.
  assert (owned t id w3) as Hown.
  { apply run_create_ok in Hcreate as (Hi & Hclash & _). intros d Hd Hid. apply (inserted_In _ _ _ _ Hi) in Hd as [->|Hd]; [done|].
    assert (user_clash doc d = false) as Hn.
    { apply not_true_iff_false. intros Hc. apply not_true_iff_false in Hclash. apply Hclash, existsb_exists. by exists d. }
    unfold user_clash in Hn.
    apply orb_false_iff in Hn as [Hn _]. apply bool_decide_eq_false in Hn. by destruct Hn. }
  match goal with |- context [run (for_each ?l ?b ;; ?k) w3] => pose proof (run_confined t id (for_each l b ;; k) w3) as Hrest end.
  destruct Hrest as [_ Hrest].
  { apply guarantee_bind; [|intros _].
    - apply guarantee_for_each. intros n. apply guarantee_catch; [by apply cf_assignRole|done].
    - apply guarantee_bind; [apply cf_log|done]. }
  { exact Hown. }
  destruct (run _ w3) as [w4 [e|a]]; cbn in *; congruence.
Qed.

Lemma foreign_updateUser w : unique_key u_id (docs (users w)) → foreign_users t (run (updateUser rt r) w).1 = foreign_users t w.
Proof.
  intros Hu. apply (run_handle (λ w', foreign_users t w' = foreign_users t w)). unfold callerOf. rewrite caller.
  change (run (mret c ≫= ?k) w) with (run (k c) w). cbv beta zeta. rewrite run_bind.
  destruct (run (find_one _) w) as [w1 [e|m]] eqn:Hfind.
  { by apply run_read_frame in Hfind as (fs & ->). }
  pose proof Hfind as Hfind2. apply run_find_one_ok in Hfind2 as (-> & fs & -> & _). set (w1 := w <| faults := fs |>).
  destruct (List.find _ _) as [d|] eqn:Hd; [|done]. apply List.find_some in Hd as [Hin Hd].
  unfold owned_user in Hd. apply andb_true_iff in Hd as [Hid%bool_decide_eq_true Ht%bool_decide_eq_true].
  assert (owned t (rq_id r) w1) as Hown.
  { intros x Hx Hxi. rewrite <- Ht. f_equal. apply (unique_key_eq u_id (docs (users w))); [done..|]. by rewrite Hid. }
  change (foreign_users t w) with (foreign_users t w1). apply (run_confined t (rq_id r)); [|done].
  apply guarantee_bind; [case_match; [apply guarantee_bind; [apply cf_hashPassword|done]|done]|]. intros h.
  apply guarantee_bind; [|intros _; apply guarantee_bind; [apply cf_sync_roles|intros ch]].
  { case_match; [done|]. apply cf_update_unique. intros x. apply apply_patch_owner. }
  apply guarantee_bind; [case_match; [apply cf_bump|done]|]. intros _.
  apply guarantee_bind; [apply cf_find_one|]. intros m. apply guarantee_bind; [apply cf_roleMap|]. intros names. by destruct m.
Qed.

Lemma foreign_deleteUser w : foreign_users t (run (deleteUser r) w).1 = foreign_users t w.
Proof.
  apply (run_handle (λ w', foreign_users t w' = foreign_users t w)). unfold callerOf. rewrite caller.
  change (run (mret c ≫= ?k) w) with (run (k c) w). cbv beta. apply run_foreign.
  apply guarantee_bind.
  { apply foreign_find_and_update; [|done]. intros d. unfold owned_user. intros [_ Ht%bool_decide_eq_true]%andb_true_iff. done. }
  intros [d|]; [|done]. apply guarantee_bind; [by apply guarantee_act|]. intros now. apply guarantee_bind; [|done].
  apply foreign_op. done.
Qed.

(** *** The routes that write to no user *)
Create HintDb users_db.
Definition users_same (w w' : world P) : Prop := users w' = users w.
#[local] Instance users_same_preorder : PreOrder users_same.
Proof. unfold users_same. split; [done|]. intros w1 w2 w3 H1 H2. congruence. Qed.
Lemma us_op {A} (f : world P → world P * (exn + A)) : (∀ w, users (f w).1 = users w) → guarantee users_same (store_op f).
Proof. intros Hf. apply guarantee_store_op; [apply _|done|exact Hf]. Qed.
Lemma us_now : guarantee (W := world P) users_same now.
Proof. by apply guarantee_act. Qed.
Lemma us_draw {A} (f : nat → A) : guarantee (W := world P) users_same (draw f).
Proof. by apply guarantee_act. Qed.
Lemma us_find_one {D} {T : Table D} (f : D → bool) : guarantee users_same (find_one f).
Proof. by apply us_op. Qed.
Lemma us_find_all {D} {T : Table D} (f : D → bool) : guarantee users_same (find_all f).
Proof. by apply us_op. Qed.
Lemma us_find_sorted {D} {T : Table D} (k : D → Z) (f : D → bool) : guarantee users_same (find_sorted k f).
Proof. by apply us_op. Qed.
Lemma us_log a input : guarantee (W := world P) users_same (log a input).
Proof. eapply guarantee_mono; [|apply g_log]. intros w w' (Hr & _). unfold rest in Hr. by injection Hr. Qed.
Lemma us_audit a input : guarantee (W := world P) users_same (audit_log a input).
Proof. destruct a; [apply us_log|done]. Qed.
(** Commands on another collection. *)
Definition elsewhere {D} (T : Table D) : Prop := ∀ f (w : world P), users (upd_tbl f w) = users w.
Lemma us_create {D} {T : Table D} (d : D) : elsewhere T → guarantee users_same (create d).
Proof. intros HT. apply us_op. intros w. unfold insert_doc. destruct (m_insert _ _ _); [apply HT|done]. Qed.
Lemma us_update_one {D} {T : Table D} (f : D → bool) u : elsewhere T → guarantee users_same (update_one f u).
Proof. intros HT. apply us_op. intros w. apply HT. Qed.
Lemma us_find_one_and_update {D} {T : Table D} (f : D → bool) u : elsewhere T → guarantee users_same (find_one_and_update f u).
Proof. intros HT. apply us_op. intros w. apply HT. Qed.
Lemma us_upsert {D} {T : Table D} (f : D → bool) u d : elsewhere T → guarantee users_same (find_one_and_upsert f u d).
Proof.
  intros HT. apply us_op. intros w. destruct (m_find_one _ _); [apply HT|]. unfold insert_doc. destruct (m_insert _ _ _); [apply HT|done].
Qed.
Lemma us_delete_one {D} {T : Table D} (f : D → bool) : elsewhere T → guarantee users_same (delete_one f).
Proof. intros HT. apply us_op. intros w. apply HT. Qed.
Lemma us_delete_many {D} {T : Table D} (f : D → bool) : elsewhere T → guarantee users_same (delete_many f).
Proof. intros HT. apply us_op. intros w. apply HT. Qed.
Lemma us_caller : guarantee (W := world P) users_same (callerOf r).
Proof. unfold callerOf. by rewrite caller. Qed.
#[local] Hint Resolve us_now us_draw us_find_one us_find_all us_find_sorted us_log us_audit us_create us_update_one
  us_find_one_and_update us_upsert us_delete_one us_delete_many us_caller : users_db.
#[local] Hint Extern 1 (elsewhere _) => intros ? ?; reflexivity : users_db.

Ltac solve_users := intros; repeat first
  [ progress cbv beta zeta | solve [auto 3 with users_db] | apply guarantee_bind; [|intros ?] | apply guarantee_catch; [|intros ?] | apply guarantee_throw_if
  | apply guarantee_ret | apply guarantee_throw | case_match ].
Lemma us_getUserRoles x : guarantee (W := world P) users_same (getUserRoles x).
Proof. unfold getUserRoles. solve_users. Qed.
#[local] Hint Resolve us_getUserRoles : users_db.
Lemma us_getUserPermissions x : guarantee (W := world P) users_same (getUserPermissions x).
Proof. unfold getUserPermissions. solve_users. Qed.
#[local] Hint Resolve us_getUserPermissions : users_db.

(** The policy engine, when there is one, is that of the package. *)
Definition package_policy : Prop :=
  match az_policy (rt_authorization rt) with Some p => ∃ l, p = abac_policy l | None => True end.

Definition other_routes : list (AdminRequest → prog (world P) AdminReply) :=
  [getUser; userRoles; userPermissions; listRoles; createRole rt; updateRole rt; deleteRole rt; listPermissions; can_route rt;
   createClient; disableClient; updateClient; revokeSession; createApiKey rt; revokeApiKey; listTenants; createTenant rt;
   getTenant; updateTenant; getSettings; updateSettings; listSubscriptions].

Lemma us_can i : package_policy → guarantee (W := world P) users_same (can (rt_authorization rt) i).
Proof.
  unfold package_policy, can. intros Hp. destruct (az_policy _) as [p|]; [destruct Hp as [l ->]|]; unfold abac_policy, hasPermission; solve_users.
Qed.
Lemma us_logAdmin event l : guarantee (W := world P) users_same (logAdmin rt r c event l).
Proof. apply us_log. Qed.
Lemma us_create_api_key i : guarantee (W := world P) users_same (create_api_key i).
Proof. unfold create_api_key. solve_users. Qed.
Lemma us_registerClient x1 x2 x3 x4 x5 x6 x7 x8 : guarantee (W := world P) users_same (registerClient x1 x2 x3 x4 x5 x6 x7 x8).
Proof. unfold registerClient. solve_users. Qed.
Lemma us_callerOf {A} (k : Caller → prog (world P) A) : guarantee users_same (k c) → guarantee users_same (callerOf r ≫= k).
Proof. intros Hk. unfold callerOf. rewrite caller. exact Hk. Qed.
Lemma us_revoke_api_key i : guarantee (W := world P) users_same (revoke_api_key i).
Proof. unfold revoke_api_key. solve_users. Qed.
#[local] Hint Resolve us_can us_logAdmin us_create_api_key us_revoke_api_key us_registerClient : users_db.
Lemma us_other_routes h : package_policy → In h other_routes → guarantee (W := world P) users_same (h r).
Proof.
  intros Hp Hin. repeat (destruct Hin as [<-|Hin]; [|]); [..|done].
  all: apply guarantee_catch; [|done]; try apply us_callerOf; solve_users.
Qed.

(** *** The two routes that change the roles of a user *)
Section raised.
Context (i : string).
(** The same user, but for a token version that may be higher if it is that of [i]. *)
Definition version_raised (d d' : UserDoc) : Prop :=
  ∃ n, 0 <= n ∧ d' = d <| u_tokenVersion ::= Z.add n |> ∧ (n = 0 ∨ u_id d = i).
Definition raised (w w' : world P) : Prop := Forall2 version_raised (docs (users w)) (docs (users w')).
Lemma version_kept d : version_raised d d.
Proof. exists 0. split; [lia|]. split; [by destruct d|by left]. Qed.
#[local] Instance version_raised_preorder : PreOrder version_raised.
Proof.
  split; [exact version_kept|]. intros d1 d2 d3 (n & Hn & -> & Hi) (m & Hm & -> & Hj). exists (m + n).
  split; [lia|]. split; [destruct d1; unfold set_field; cbn; f_equal; lia|]. cbn in Hj. destruct Hi as [->|]; [destruct Hj as [->|]; [left; lia|by right]|by right].
Qed.
#[local] Instance raised_preorder : PreOrder raised.
Proof.
  unfold raised. split; [intros w; reflexivity|]. intros w1 w2 w3 H1 H2. by transitivity (docs (users w2)).
Qed.
Lemma raised_same w w' : users_same w w' → raised w w'.
Proof. unfold users_same, raised. intros ->. reflexivity. Qed.
Lemma raised_users {A} (p : prog (world P) A) : guarantee users_same p → guarantee raised p.
Proof. apply guarantee_mono, raised_same. Qed.
Lemma raised_bump : guarantee (W := world P) raised (update_one (λ d, bool_decide (u_id d = i)) bump_version).
Proof.
  apply guarantee_store_op; [apply _|intros w x fs _; by apply raised_same|]. intros w. unfold raised. cbn [fst].
  change (users (upd_tbl ?g w)) with (g (users w)). rewrite m_update_one_law.
  induction (docs (users w)) as [|d l IH]; [constructor|]. cbn [alter_first]. case_bool_decide as Hd.
  - constructor; [|reflexivity]. exists 1. split; [lia|]. split; [done|by right].
  - constructor; [apply version_kept|exact IH].
Qed.
Lemma raised_invalidate : guarantee (W := world P) raised (invalidateUserTokens (rt_authorization rt) i).
Proof.
  unfold invalidateUserTokens. apply guarantee_bind; [apply raised_bump|]. intros _. case_match; [|done].
  apply raised_users. by apply guarantee_act.
Qed.
Lemma raised_assign x name : Authorization.az_userId x = i → guarantee (W := world P) raised (assignRole (rt_authorization rt) x name).
Proof.
  intros Hi. unfold assignRole. apply guarantee_bind; [apply raised_users; solve_users|]. intros [ro|]; [|done].
  apply guarantee_bind; [apply raised_users; solve_users|]. intros at_.
  apply guarantee_bind; [apply raised_users; solve_users|]. intros a.
  apply guarantee_bind; [apply raised_users; solve_users|]. intros []. rewrite Hi. apply raised_invalidate.
Qed.
Lemma raised_remove x name : Authorization.az_userId x = i → guarantee (W := world P) raised (removeRole (rt_authorization rt) x name).
Proof.
  intros Hi. unfold removeRole. apply guarantee_bind; [apply raised_users; solve_users|]. intros [ro|]; [|done].
  apply guarantee_bind; [apply raised_users; solve_users|]. intros [].
  apply guarantee_bind; [apply raised_users; solve_users|]. intros []. rewrite Hi. apply raised_invalidate.
Qed.
Lemma raised_change change done_ :
  str (field "userId" (bodyOf r)) "" = i →
  (∀ x name, Authorization.az_userId x = i → guarantee (W := world P) raised (change (rt_authorization rt) x name)) →
  guarantee (W := world P) raised (change_role rt change done_ r).
Proof.
  intros Hi Hc. apply guarantee_catch; [|done]. unfold callerOf. rewrite caller.
  match goal with |- guarantee _ (mret c ≫= ?k) => change (guarantee raised (k c)) end. cbv beta zeta. case_match; [done|]. apply guarantee_bind; [by apply Hc|]. intros [].
  apply guarantee_bind; [apply raised_users; solve_users|done].
Qed.
End raised.

(** C8: What an administrator can write of the users of other tenants.  Whatever the
    request holds, and whichever command the store fails: of the routes modelled on users,
    roles, permissions, clients, sessions, API keys, tenants, settings and
    subscriptions, none but the two that assign and remove roles changes a user whose
    tenant is not the caller's, and all but creating, changing and deleting a user change no
    user at all.  Assigning and removing roles take the tenant and the user from the
    body of the request and do reach into other tenants: all they can write of users
    is a higher token version of the one the body names, which ends the access tokens
    of that user.  (This is about writing: [GET /users] and other lists answer for the
    tenant the query names.  The policy engine is the one of the package, or none.) *)
Theorem admin_users_confined (h : AdminRequest → prog (world P) AdminReply) (w : world P) :
  unique_key u_id (docs (users w)) → package_policy →
  let w' := (run (h r) w).1 in
  (In h ([createUser rt; updateUser rt; deleteUser] ++ other_routes) → foreign_users t w' = foreign_users t w) ∧
  (In h other_routes → users w' = users w) ∧
  (In h [assign_role_route rt; remove_role_route rt] →
   Forall2 (version_raised (str (field "userId" (bodyOf r)) "")) (docs (users w)) (docs (users w'))).
Proof.
  intros Hu Hp w'. assert (In h other_routes → users w' = users w) as Ho.
  { intros Hin. exact (guarantee_run users_same (h r) w (us_other_routes h Hp Hin)). }
  split; [|split; [exact Ho|]].
  - intros [[<-|[<-|[<-|[]]]]|Hin]%in_app_iff; [apply foreign_createUser|by apply foreign_updateUser|apply foreign_deleteUser|].
    unfold foreign_users. by rewrite (Ho Hin).
  - set (i := str _ _). pose proof (raised_preorder i) as Hpre. intros [<-|[<-|[]]]; apply (guarantee_run (raised i)).
    + apply raised_change; [done|apply raised_assign].
    + apply raised_change; [done|apply raised_remove].
Qed.
End confined_routes.

(** ** Deleting a user and a role *)
Section deletions.
Context {P : Platform} (rt : AdminRuntime (P := P)) (r : AdminRequest) (c : Caller).
Hypothesis caller : rq_identity r = Some c.
Notation t := (cl_tenantId c).

Lemma run_handle_ok (h : AdminRequest → prog (world P) AdminReply) w w' a :
  run (h r) w = (w', inr a) → run (handle h r) w = (w', inr a).
Proof. intros H. unfold handle. by rewrite run_catch, H. Qed.
Lemma run_callerOf {A} (k : Caller → prog (world P) A) w : run (callerOf r ≫= k) w = run (k c) w.
Proof. unfold callerOf. by rewrite caller. Qed.

(** deleting a user signs the account out.  The account is inactive and a token
    version ahead, and no session of the user in the tenant is active; the cached
    account state is left as it was, so that the account check may still answer
    from it. *)
Theorem delete_signs_out (u : UserDoc) (w : world P) :
  healthy w → unique_key u_id (docs (users w)) → List.find (owned_user (rq_id r) t) (docs (users w)) = Some u →
  ∃ w', run (deleteUser r) w = (w', inr (ok_reply (JObj [("deactivated"%string, JBool true)]))) ∧
    List.find (λ d, bool_decide (u_id d = rq_id r)) (docs (users w')) = Some (deactivated u) ∧
    (∀ s, In s (docs (sessions w')) → session_of (rq_id r) t s = false) ∧ redis w' = redis w.
Proof.
  intros Hh Huniq Hu. eexists. split; [|split; [|split]].
  - unfold deleteUser. apply run_handle_ok. rewrite run_callerOf. run_step. cbn [tbl users_table]. rewrite Hu. cbn [option_map]. run_step. run_step. done.
  - cbn. rewrite m_update_one_law. apply find_alter_first_by; [|done|].
    + apply List.find_some in Hu as [Hin [Hid%bool_decide_eq_true _]%andb_true_iff].
      apply (find_by_key u_id _ u (rq_id r)); [done..|]. intros d. by rewrite bool_decide_eq_true.
    + apply List.find_some in Hu as [_ [Hid%bool_decide_eq_true _]%andb_true_iff]. by apply bool_decide_eq_true.
  - cbn. rewrite m_update_many_law. intros s (x & _ & ->)%In_alter_all. destruct (session_of (rq_id r) t x) eqn:Hx; [|done].
    unfold session_of. cbn. apply andb_false_r.
  - done.
Qed.

(** The roles a request may not delete: those of the system, and those of other scopes. *)
Definition protected_roles (w : world P) : list RoleDoc :=
  List.filter (λ d, r_isSystem d || negb (scoped_role (rq_id r) c d)) (docs (roles w)).

(** The role of the identifier may be deleted. *)
Definition deletable (w : world P) : Prop := ∀ d, In d (docs (roles w)) → r_id d = rq_id r → r_isSystem d = false ∧ scoped_role (rq_id r) c d = true.
Definition spares (w w' : world P) : Prop := deletable w → deletable w' ∧ protected_roles w' = protected_roles w.
#[export] Instance spares_preorder : PreOrder spares.
Proof.
  split; [done|]. intros w1 w2 w3 H1 H2 Hw. destruct (H1 Hw) as [Hw2 E1]. destruct (H2 Hw2) as [Hw3 E2]. split; [done|congruence].
Qed.
Lemma spares_same w w' : roles w' = roles w → spares w w'.
Proof. unfold spares, deletable, protected_roles. by intros ->. Qed.
Lemma spares_op {A} (f : world P → world P * (exn + A)) : (∀ w, spares w (f w).1) → guarantee spares (store_op f).
Proof. apply guarantee_store_op; [apply _|]. intros w x fs _. by apply spares_same. Qed.
Lemma spares_delete : guarantee (W := world P) spares (delete_one (λ x : RoleDoc, bool_decide (r_id x = rq_id r))).
Proof.
  apply spares_op. intros w Hw. unfold deletable, protected_roles.
  change (roles (upd_tbl ?f w)) with (f (roles w)). cbn [fst]. change (roles (upd_tbl ?f w)) with (f (roles w)).
  rewrite m_delete_one_law. split.
  - intros d Hd. apply Hw. by apply In_remove_first in Hd.
  - apply filter_remove_first. intros d Hd Hi%bool_decide_eq_true. by destruct (Hw d Hd Hi) as [-> ->].
Qed.
Lemma spares_log a input : guarantee (W := world P) spares (log a input).
Proof.
  eapply guarantee_mono; [|apply g_log]. intros w w' (Hr & _). apply spares_same. unfold rest in Hr. by injection Hr.
Qed.

Lemma run_spares {A} (p : prog (world P) A) w :
  guarantee spares p → deletable w → protected_roles (run p w).1 = protected_roles w.
Proof. intros Hp Hw. by apply (guarantee_run spares p w). Qed.

(** deleting a role spares the roles of the system and of other tenants,
    whatever fails. *)
Theorem protected_roles_kept (w : world P) :
  unique_key r_id (docs (roles w)) → protected_roles (run (deleteRole rt r) w).1 = protected_roles w.
Proof.
  intros Huniq. apply (run_handle r (λ w', protected_roles w' = protected_roles w)). rewrite run_callerOf, run_bind.
  destruct (run (find_one _) w) as [w1 [e|m]] eqn:Hfind.
  { by apply run_read_frame in Hfind as (fs & ->). }
  apply run_find_one_ok in Hfind as (-> & fs & -> & _). destruct (List.find _ _) as [d|] eqn:Hd; [|done].
  change (protected_roles w) with (protected_roles (w <| faults := fs |>)).
  destruct (r_isSystem d) eqn:Hsys; [done|]. apply List.find_some in Hd as [Hin Hd].
  apply run_spares.
  - apply guarantee_bind; [by apply spares_op|]. intros _. apply guarantee_bind; [apply spares_delete|]. intros _.
    apply guarantee_bind; [apply spares_log|done].
  - intros x Hx Hxi. assert (x = d) as ->; [|done]. apply (unique_key_eq r_id (docs (roles w))); [done..|].
    unfold scoped_role in Hd. bool_to_prop. congruence.
Qed.
End deletions.

(** ** Starting a deployment again *)
Lemma alter_first_same {D} (f : D → bool) l : alter_first f (λ x, x) l = l.
Proof. induction l as [|d l IH]; cbn; [done|]. by case_match; f_equal. Qed.

Section bootstrap.
Context {P : Platform} (rt : AdminRuntime (P := P)) (o : BootstrapOptions).
Notation scope u := (mkAuthzContext (u_id u) (bo_tenantId o) (bo_applicationId o)).

(** What an earlier start left: the tenant, the application, the role, the
    administrator and the assignment. *)
Record provisioned (tn : TenantDoc) (ap : ApplicationDoc) (ro : RoleDoc) (u : UserDoc) (a : UserRoleAssignmentDoc) (w : world P) : Prop := {
  pv_tenant : List.find (of_slug (bootstrap_slug o)) (docs (tenants w)) = Some tn;
  pv_application : List.find (bootstrap_app o) (docs (applications w)) = Some ap;
  pv_role : List.find (admin_role o) (docs (roles w)) = Some ro;
  pv_admin : List.find (admin_account o (nullish (bo_adminEmail o) "")) (docs (users w)) = Some u;
  pv_assigned : List.find (assignment_of (scope u) (r_id ro)) (docs (userRoleAssignments w)) = Some a }.

(** starting a provisioned deployment again creates nothing, but it moves the
    administrator a token version on, so every access token the administrator
    holds stops passing the account check. *)
Theorem boot_again (tn : TenantDoc) (ap : ApplicationDoc) (ro : RoleDoc) (u : UserDoc) (a : UserRoleAssignmentDoc) (w : world P) :
  healthy w → truthy (bo_adminEmail o) && truthy (bo_adminPassword o) = true → provisioned tn ap ro u a w →
  ∃ w', run (ensureBootstrap rt o) w = (w', inr tt) ∧
    docs (tenants w') = docs (tenants w) ∧ docs (applications w') = docs (applications w) ∧ docs (roles w') = docs (roles w) ∧
    docs (userRoleAssignments w') = docs (userRoleAssignments w) ∧
    docs (users w') = alter_first (λ d, bool_decide (u_id d = u_id u)) bump_version (docs (users w)).
Proof.
  intros Hh Hadmin [Htn Hap Hro Hu Ha]. unfold ensureBootstrap, ensure_tenant, ensure_application, ensure_role, ensure_admin.
  run_step. cbn [tbl tenants_table]. rewrite Htn. run_step. run_step. cbn [tbl applications_table]. rewrite Hap.
  run_step. run_step. cbn [tbl roles_table]. rewrite Hro. run_step. rewrite Hadmin. run_step. cbn [tbl users_table]. rewrite Hu.
  run_step. rewrite run_catch. unfold assignRole. run_step. cbn [tbl roles_table].
  change (named_role (scope u) "ADMIN") with (admin_role o). rewrite Hro. run_step. rewrite run_bind.
  destruct (run_find_one_and_upsert (assignment_of (scope u) (r_id ro)) (λ x, x) (mkUserRoleAssignmentDoc (u_id u) (bo_tenantId o)
    (bo_applicationId o) (r_id ro) (clock w)) w Hh) as (cl & Hup & Hcl); [cbn [tbl userRoleAssignments_table]; congruence|].
  cbn [tbl userRoleAssignments_table] in Hcl. rewrite Ha, alter_first_same in Hcl. cbn [Authorization.az_userId Authorization.az_tenantId Authorization.az_applicationId].
  rewrite Hup, run_bind. destruct (run_audit_log (az_audit (rt_authorization rt)) (role_event (scope u) "assign" "ADMIN")
    (upd_tbl (λ _, cl) w)) as (w2 & -> & Hrest & _ & _ & Hh2). specialize (Hh2 Hh).
  assert (users w2 = users w ∧ tenants w2 = tenants w ∧ applications w2 = applications w ∧ roles w2 = roles w ∧
    userRoleAssignments w2 = cl) as (Hus & Hts & Has & Hrs & Hra).
  { unfold rest in Hrest. by injection Hrest. }
  unfold invalidateUserTokens. run_step. destruct (az_accountState (rt_authorization rt)); [unfold invalidate; run_step|];
    (eexists; split; [done|]; cbn; rewrite m_update_one_law; repeat split; congruence).
Qed.
End bootstrap.

(** * The webhook routes of the administration API

    [apps/identity-server/src/admin.ts]: listing, registering and testing endpoints.
    [fetch], HMAC-SHA-256 and the formatting of dates are parameters. *)

Section webhook_routes.
Context {P : Platform} (hmac_sha256 : string → string → string) (toISOString : Z → string)
  (fetchImpl : FetchRequest → prog (world P) FetchResponse).
Notation handler := (AdminRequest → prog (world P) AdminReply).

Definition webhookJson (d : WebhookDoc) (withSecret : bool) : json :=
  JObj ([("id", JStr (wh_id d)); ("url", JStr (wh_url d)); ("events", strings (wh_events d)); ("active", JBool (wh_active d));
         ("maxRetries", JNum (nullish (wh_maxRetries d) 5))]%string ++
        (if withSecret then [("secret"%string, json_opt (wh_secret d))] else [])).
Definition listWebhooks : handler := handle (λ r,
  c ← callerOf r;
  l ← list_webhooks (Some (str (query "tenantId" r) (cl_tenantId c)));
  mret (ok_reply (JObj [("webhooks"%string, JArr (map (λ d, webhookJson d false) l))]))).
Definition createWebhook (webhooks : WebhookService) : handler := handle (λ r,
  c ← callerOf r;
  let b := bodyOf r in
  let url := str (field "url" b) "" in
  let events := strArray (field "events" b) in
  if String.eqb url "" || (length events =? 0)%nat then mret (invalid "url and events are required")
  else
    doc ← register_webhook webhooks url events (Some (str (field "tenantId" b) (cl_tenantId c))) (Some (cl_applicationId c));
    mret (ok_reply (JObj [("webhook"%string, webhookJson doc true)]))).
(** [POST /webhooks/:id/test]. *)
Definition testWebhook (webhooks : WebhookService) : handler := handle (λ r,
  c ← callerOf r;
  rows ← list_webhooks (Some (cl_tenantId c));
  match List.find (λ d, bool_decide (wh_id d = rq_id r)) rows with
  | None => mret (not_found "Webhook")
  | Some d =>
    t ← now;
    Webhooks.deliver hmac_sha256 toISOString fetchImpl webhooks d "TEST" [("ping", JBool true); ("tenantId", JStr (cl_tenantId c)); ("sentAt", JStr (toISOString t))]%string ;;
    mret (ok_reply (JObj [("delivered", JBool true); ("url", JStr (wh_url d))]%string))
  end).
End webhook_routes.
