(* ===== verification/Witnesses.v ===== *)
(** * Witnesses

    Every property of the library applied at a concrete input on the platform of
    [Concrete.v], its hypotheses evaluated there, together with runs of the
    operations that show what the divergences recorded for this code look like. *)

From S2P Require Import Concrete.
From S2P Require Import Cache.
From S2P Require Import Session.
From S2P Require Import RateLimit.
From S2P Require Import AccountState.
From S2P Require Import Otp.
From S2P Require Import VerificationToken.
From S2P Require Import Totp.
From S2P Require Import Encryption.
From S2P Require Import Mfa.
From S2P Require Import Policy.
From S2P Require Import Authorization.
From S2P Require Import OAuth.
From S2P Require Import AuditTrail.

(** ** Sessions *)
Definition ss0 : SessionService := mkSessionService toy_tokens 2592000000 2.
Definition session_doc (id token : string) (st : SessionStatus) (active_at : Z) : SessionDoc :=
  mkSessionDoc id "alice" "acme" "app" st ("family-" +:+ id) (hashRefreshToken toy_tokens token) None None None None
    None None 1000 active_at 9000000 None.
Definition any_context : RefreshContext := mkRefreshContext None None None None None.
Definition with_sessions (l : list SessionDoc) : world toy_platform :=
  (empty_world 5000 true) <| sessions := l |>.
Definition two_sessions : world toy_platform :=
  with_sessions [session_doc "s1" "tok" active 2000; session_doc "s2" "other" replaced 3000].
Definition alternate (n : nat) : list nat := concat (replicate n [0; 1])%nat.

Lemma refresh_single_use_witness :
  let h := hashRefreshToken toy_tokens "tok" in
  let race := in_turn (alternate 40) two_sessions (map (serve ss0) [Refresh "tok" any_context; Refresh "tok" any_context]) in
  (winners (redeemed ss0 h) race.2 ≤ 1)%nat ∧ winners (redeemed ss0 h) race.2 = 1%nat.
Proof.
  intros h race. split; [|evaluate].
  apply (refresh_single_use ss0 "tok" 0 two_sessions race.1 [Refresh "tok" any_context; Refresh "tok" any_context] race.2).
  - all_distinct.
  - intros i _. apply (never_drawn (λ x, hashRefreshToken toy_tokens (to_base64url x)) 48). evaluate.
  - unfold drawn. lia.
  - apply in_turn_reachable.
Defined.

Definition s1 : SessionDoc := session_doc "s1" "tok" active 2000.
Definition s2 : SessionDoc := session_doc "s2" "other" replaced 3000.

(** Distinct hashes and identifiers, from the finite list that is stored. *)
Ltac each_stored :=
  let d := fresh "d" in let H := fresh "H" in
  intros d H; cbn in H; repeat (destruct H as [<-|H]; [vm_compute; repeat split; solve [reflexivity | discriminate | intros; discriminate]|]); try destruct H.

Lemma two_sessions_wf : sessions_wf two_sessions.
Proof. split; all_distinct. Qed.

Lemma refresh_rotates_witness :
  let child := child_of ss0 two_sessions s1 any_context in
  ∃ w' s, run (refresh ss0 "tok" any_context) two_sessions = (w', inr s) ∧
    cs_sessionId s = s_id child ∧ cs_familyId s = s_familyId s1 ∧ s_status child = active ∧
    hashRefreshToken (ss_tokens ss0) (cs_refreshToken s) = s_currentRefreshTokenHash child ∧
    ∀ x, In x (docs (sessions w')) ↔
      x = child ∨ x = set_replaced (s_id child) (clock two_sessions) (claim (clock two_sessions) s1) ∨
      In x (docs (sessions two_sessions)) ∧ s_id x ≠ s_id s1.
Proof.
  apply (refresh_rotates ss0 "tok" any_context two_sessions s1).
  - split; [done|]. split; [apply two_sessions_wf|]. split; [by left|evaluate].
  - done.
  - each_stored.
Defined.

Lemma refresh_refused_witness :
  ∃ w' e, run (refresh ss0 "other" any_context) two_sessions = (w', inl e) ∧ e = REFRESH_TOKEN_REUSE ∧
    docs (sessions w') = [s1; set_revoked 5000 s2].
Proof.
  destruct (refresh_refused ss0 "other" any_context two_sessions) as (w' & e & Hr & He).
  - done.
  - apply two_sessions_wf.
  - each_stored.
  - exists w', e. split; [exact Hr|]. exact He.
Defined.

Lemma revokeAll_effective_witness :
  ∃ w', run (revokeAll "alice" None None) two_sessions = (w', inr tt) ∧
    docs (sessions w') = [set_revoked 5000 s1; s2] ∧
    ∀ d, In d (docs (sessions two_sessions)) → user_active "alice" None None d = true →
      ∃ w2, run (isSessionActive (s_id d)) w' = (w2, inr false).
Proof.
  apply (revokeAll_effective "alice" None None two_sessions); [done|all_distinct].
Defined.

Definition new_ctx : SessionContext := mkSessionContext "alice" "acme" "app" None None None.
Definition full_house : world toy_platform :=
  with_sessions [session_doc "s1" "tok" active 2000; session_doc "s3" "third" active 3000].
Lemma create_respects_limit_witness :
  ∃ w' s, run (create_session ss0 new_ctx) full_house = (w', inr s) ∧
    active_sessions "alice" "app" w' <= 2 ∧
    (∃ w1, room_made ss0 "alice" "app" full_house w1 ∧
       inserted (new_session ss0 full_house new_ctx) (docs (sessions w1)) (docs (sessions w'))) ∧
    cs_sessionId s = s_id (new_session ss0 full_house new_ctx) ∧
    hashRefreshToken toy_tokens (cs_refreshToken s) =
      s_currentRefreshTokenHash (new_session ss0 full_house new_ctx).
Proof.
  apply (create_respects_limit ss0 new_ctx full_house); [done|all_distinct|by vm_compute|by vm_compute|each_stored].
Defined.

(** ** Rate limits *)
Definition rl0 : RateLimitService := new_rate_limiter (λ _, Some (mkRateLimitRule 1 60000)) true.
Definition redis_down : world toy_platform := (empty_world 5000 false) <| redis := toy_cache false |>.

Lemma durable_counter_decides_witness :
  let race := in_turn (alternate 10) redis_down (map (serve_consume rl0) [(rl_login, "alice"); (rl_login, "alice")])%string in
  result_of (RateLimit.consume rl0 rl_login "alice") redis_down = inr (decision (mkRateLimitRule 1 60000) 1) ∧
  Z.of_nat (winners (admitted (counter_key rl_login "alice")) race.2) <= 1 ∧
  winners (admitted (counter_key rl_login "alice")) race.2 = 1%nat.
Proof.
  intros race. destruct (durable_counter_decides rl0 rl_login "alice" (mkRateLimitRule 1 60000) 5000 60000 redis_down
    [(rl_login, "alice"); (rl_login, "alice")]%string) as [(w' & Hrun & _) Hbound].
  - done.
  - done.
  - done.
  - done.
  - split; [done|]. split; [evaluate|]. split; [vm_compute; by split|done].
  - split; [by unfold result_of; rewrite Hrun|]. split; [|evaluate]. apply (Hbound race.1 race.2). apply in_turn_reachable.
Defined.

(** The limit of a window is spent in Redis, Redis goes down, and the same window
    admits as much again. *)
Definition one_login : prog (world toy_platform) RateLimitResult := RateLimit.consume rl0 rl_login "alice".
Example outage_widens_limit :
  let w0 := (empty_world 5000 true) <| redis := toy_cache true |> in
  let w1 := world_of one_login w0 in
  let w3 := (world_of one_login w1) <| redis := toy_cache false |> in
  result_of one_login w0 = inr (mkRateLimitResult true 0 0 1) ∧
  result_of one_login w1 = inr (mkRateLimitResult false 0 60000 1) ∧
  result_of one_login w3 = inr (mkRateLimitResult true 0 0 1).
Proof. split; [|split]; evaluate. Qed.

(** ** Account state *)
Definition user_doc (id : string) (version : Z) : UserDoc :=
  mkUserDoc id "acme" None None true true true version None [] 0 None false None None 0 None [].
Definition one_user : world toy_platform := (empty_world 5000 true) <| users := [user_doc "alice" 1] |>.

Lemma validate_decides_witness :
  (cache_get (account_cacheKey "alice") (clock one_user) (redis one_user)).2 = None ∧
  ∃ w' b, run (validate "alice" 1) one_user = (w', inr b) ∧
    (b = true ↔ ∃ d, List.find (λ d, bool_decide (u_id d = "alice")) (docs (users one_user)) = Some d ∧
                     u_isActive d = true ∧ u_tokenVersion d = 1).
Proof. split; [evaluate|]. by apply (validate_decides "alice" 1 one_user). Defined.

Lemma invalidate_effective_witness :
  ∃ w1 w2 b, run (invalidate "alice") one_user = (w1, inr tt) ∧ run (validate "alice" 2) w1 = (w2, inr b) ∧
    (b = true ↔ ∃ d, List.find (λ d, bool_decide (u_id d = "alice")) (docs (users one_user)) = Some d ∧
                     u_isActive d = true ∧ u_tokenVersion d = 2).
Proof. by apply (invalidate_effective "alice" 2 one_user). Defined.

(** ** One-time codes *)
Definition ot0 : OtpService := mkOtpService "acme" "app" true None 300000 5 60000 600000.
Definition idle : world toy_platform := empty_world 5000 true.

Lemma request_then_verify_witness :
  ∃ w1 code w2 w3, run (requestOtp ot0 ch_email "a@b.c" otp_login) idle = (w1, inr Requested) ∧
    outbox w1 = [mkDelivery ch_email "a@b.c" code otp_login] ∧
    String.length code = 6%nat ∧ forallb is_digit (list_of_string code) = true ∧
    run (verifyOtp ot0 ch_email "a@b.c" otp_login code) (w1 <| clock := 6000 |>) = (w2, inr Verified) ∧
    run (verifyOtp ot0 ch_email "a@b.c" otp_login code) w2 = (w3, inr Expired).
Proof.
  apply (request_then_verify ot0 ch_email "a@b.c" otp_login idle 6000).
  - intros i lo hi Hl. cbn [randomInt toy_platform]. pose proof (Z.mod_pos_bound (Z.of_nat i) (hi - lo)). lia.
  - done.
  - split; [done|]. intros v e H. vm_compute in H. discriminate H.
  - all_distinct.
  - split; [evaluate|done].
  - each_stored.
  - by vm_compute.
Defined.

Definition with_code (code : string) : world toy_platform :=
  idle <| otps := [mkOtpDoc "o1" "acme" "app" None ch_email "a@b.c" otp_login code 9000 0 false 4000] |>.
Lemma verify_outcomes_witness :
  ∃ w' r, run (verifyOtp ot0 ch_email "a@b.c" otp_login "123456") (with_code "hash") = (w', inr r) ∧
    verify_effect ot0 ch_email "a@b.c" otp_login "123456" (with_code "hash") w' r.
Proof. by apply (verify_outcomes ot0 ch_email "a@b.c" otp_login "123456" (with_code "hash")). Defined.

(** ** The audit trail *)
Definition as0 : AuditService := mkAuditService sha256 None false.
Definition login_entry : AuditEntryInput := audit_event "LOGIN_SUCCESS" (Some "acme") None (Some "alice") [].

Lemma quiet_log_ready : log_ready as0 idle.
Proof.
  split; [done|]. split; [done|]. split; try (intros d []).
  - vm_compute. discriminate.
  - all_distinct.
  - intros H. vm_compute in H. discriminate H.
Qed.


Lemma chain_link_binding_witness :
  (ae_eventType login_entry = ae_eventType login_entry ∧ nullish (ae_ip login_entry) "" = nullish (ae_ip login_entry) "" ∧
   nullish (ae_userId login_entry) "" = nullish (ae_userId login_entry) "" ∧
   nullish (ae_metadata login_entry) [] = nullish (ae_metadata login_entry) []) ∨
  ("root" +:+ canonicalData login_entry ≠ "root" +:+ canonicalData login_entry ∧
   createHash (as_hashAlgorithm as0) ("root" +:+ canonicalData login_entry) =
   createHash (as_hashAlgorithm as0) ("root" +:+ canonicalData login_entry)).
Proof. by apply (chain_link_binding as0 "root" login_entry login_entry). Defined.

(** ** Verification tokens *)
Definition vt0 : VerificationTokenService := mkVerificationTokenService "acme" "app" None sha256.
Definition token_doc (id token : string) : VerificationTokenDoc :=
  mkVerificationTokenDoc id magic_link "acme" "app" "alice" (hashToken vt0 token) None None 9000 None.
Definition one_token : world toy_platform := idle <| verificationTokens := [token_doc "v1" "tok"] |>.

Lemma redeem_single_use_witness :
  let race := in_turn (alternate 10) one_token (map (serve_token vt0) [RedeemToken "tok"; RedeemToken "tok"]) in
  (winners (token_won vt0 (hashToken vt0 "tok")) race.2 ≤ 1)%nat ∧
  winners (token_won vt0 (hashToken vt0 "tok")) race.2 = 1%nat.
Proof.
  intros race. split; [|evaluate].
  apply (redeem_single_use vt0 "tok" 0 one_token race.1 [RedeemToken "tok"; RedeemToken "tok"] race.2).
  - all_distinct.
  - intros i _. apply (never_drawn (λ x, hashToken vt0 (to_base64url x)) 32). evaluate.
  - unfold drawn. lia.
  - apply in_turn_reachable.
Defined.

Lemma redeem_outcomes_witness :
  ∃ w', run (redeem vt0 "tok") one_token = (w', inr (redeem_result (token_doc "v1" "tok"))) ∧
    docs (verificationTokens w') = [VerificationToken.consume 5000 (token_doc "v1" "tok")].
Proof. by apply (redeem_outcomes vt0 "tok" one_token). Defined.

Definition link_input : IssueTokenInput := mkIssueTokenInput magic_link "acme" "app" "alice" None None None.
Lemma issue_then_redeem_witness :
  ∃ w1 token expiresIn w2, run (issue vt0 link_input) one_token = (w1, inr (token, expiresIn)) ∧
    count (same_purpose "acme" "app" "alice" magic_link) (docs (verificationTokens w1)) = 1%nat ∧
    run (redeem vt0 token) (w1 <| clock := 7000 |>) =
      (w2, inr (mkRedeemResult "alice" magic_link "acme" "app" None None)).
Proof. apply (issue_then_redeem vt0 link_input one_token 7000); [done|each_stored|done|done|by vm_compute]. Defined.

(** ** One-time passwords *)
Lemma verifyTotp_window_witness :
  30 <= 1000 < 2 ^ 63 ∧
  ∃ b, verifyTotp "123456" "secret" 1000 None None None = inr b ∧
    (b = true ↔ ∃ c, 1000 / 30 - 1 <= c <= 1000 / 30 + 1 ∧ hotp "secret" c 6 = inr "123456") ∧
    (∀ u, Z.abs (u - 1000) <= 30 → generateTotp "secret" u None None = inr "123456" → b = true).
Proof. split; [done|]. by apply (verifyTotp_window "123456" "secret" 1000). Defined.

(** ** Multi-factor authentication *)
#[export] Instance toy_aead : AeadLaws toy_platform.
Proof.
  split.
  - intros i n. apply toy_random_length.
  - intros key iv aad p. cbn [aes_256_gcm_seal aes_256_gcm_open toy_platform]. rewrite String.eqb_refl.
    split; [done|]. split; [done|]. unfold toy_tag, pad_to.
    rewrite length_string_of_list.
    rewrite length_take, length_app, length_replicate. lia.
  - intros key iv aad c t p. cbn [aes_256_gcm_seal aes_256_gcm_open toy_platform].
    destruct (String.eqb_spec t (toy_tag key iv aad)) as [->|]; [|done]. by intros [= ->].
Qed.

Definition key32 : string := "0123456789abcdef0123456789abcdef".
Definition mfa0 : MfaService := mkMfaService "acme" "app" None (Some (KeyBuffer key32)).

Lemma secret_envelope_round_trip_witness :
  (∃ w' v, run (encryptSecret mfa0 "secret") idle = (w', inr v) ∧ decryptSecret mfa0 v = inr "secret") ∧
  (∀ raw, (String.length (from_base64 raw) < 88)%nat →
     decryptSecret mfa0 (MFA_ENVELOPE_VERSION +:+ raw) = inl INVALID_MFA_SECRET).
Proof. by apply (secret_envelope_round_trip mfa0 key32 "secret" idle). Defined.

Definition begun : world toy_platform := world_of (beginSetup mfa0 "alice") one_user.
Definition setup_answer : MfaSetupResult :=
  match result_of (beginSetup mfa0 "alice") one_user with inr r => r | inl _ => mkMfaSetupResult "" "" [] end.
Lemma setup_then_enable_witness :
  ∃ secret code w2 u, secretFromBase32 (ms_secret setup_answer) = Some secret ∧
    generateTotp secret (60000 / 1000) None None = inr code ∧
    run (enable mfa0 "alice" code) (begun <| clock := 60000 |>) = (w2, inr tt) ∧
    the_user "alice" w2 = Some u ∧ u_mfaEnabled u = true.
Proof.
  apply (setup_then_enable mfa0 "alice" key32 one_user begun setup_answer 60000); [done|done| |done].
  apply (run_split (beginSetup mfa0 "alice") one_user (inr setup_answer)). evaluate.
Defined.

Definition sealed_secret : string :=
  match result_of (encryptSecret mfa0 "secret") idle with inr v => v | inl _ => "" end.
Definition enrolled : world toy_platform :=
  (empty_world 60000 true) <| users := [set_enabled 0 (set_pending sealed_secret (user_doc "alice" 1))] |>.
Definition wrong5 : list string := replicate 5 "000000".
Lemma five_failures_lock_witness :
  ∃ w', run (for_each wrong5 (λ c, verifyMfa mfa0 "alice" c ;; mret tt)) enrolled = (w', inr tt) ∧
    ∀ code t, 0 <= t < 960000 →
      run (verifyMfa mfa0 "alice" code) (w' <| clock := t |>) = (w' <| clock := t |>, inr false).
Proof.
  apply (five_failures_lock mfa0 "alice" "secret" wrong5 enrolled).
  - split; [done|]. eexists. split; [evaluate|]. do 4 (split; [evaluate|]). evaluate.
  - apply Forall_replicate. split; evaluate.
  - done.
Defined.

Definition code_doc : BackupCodeDoc := mkBackupCodeDoc "b1" "alice" "acme" (hashBackupCode "BACKUP") None.
Definition with_backup : world toy_platform := enrolled <| backupCodes := [code_doc] |>.
Lemma backup_code_once_witness :
  ∃ w2, run (tryBackupCode mfa0 "alice" "BACKUP") (world_of (tryBackupCode mfa0 "alice" "BACKUP") with_backup) =
    (w2, inr false).
Proof.
  apply (backup_code_once mfa0 "alice" "BACKUP" with_backup).
  - done.
  - all_distinct.
  - all_distinct.
  - intros d [<-|[]]. by exists "BACKUP".
  - apply (run_split (tryBackupCode mfa0 "alice" "BACKUP") with_backup (inr true)). evaluate.
Defined.

(** ** Policies and roles *)
Definition tenant_rule : PolicyRule := mkPolicyRule "tenant.id" op_eq (Some (JStr "acme")).
Definition acme_only : list Policy := [mkPolicy None allow [tenant_rule]].
Definition request_of (tenant : string) : AbacContext := mkAbacContext "alice" tenant "app" None None None None.
Lemma tenant_policy_isolates_witness :
  abac_can acme_only (request_of "acme") = true ∧ ab_tenantId (request_of "acme") = "acme".
Proof.
  split; [evaluate|]. apply (tenant_policy_isolates acme_only "acme" (request_of "acme")); [|evaluate].
  intros p [<-|[]] _. by left.
Defined.

Definition az_ctx : AuthzContext := mkAuthzContext "alice" "acme" "app".
Definition editor : RoleDoc := mkRoleDoc "r1" "acme" "app" "editor" None ["p1"] false.
Definition with_roles : world toy_platform :=
  one_user <| roles := [editor] |> <| userRoleAssignments := [mkUserRoleAssignmentDoc "alice" "acme" "app" "r1" 0] |>
    <| permissions := [mkPermissionDoc "p1" "acme" "app" "doc:edit" "doc" "edit" None] |>.
Lemma permission_iff_granted_witness :
  ∃ b, run (hasPermission az_ctx "doc:edit") with_roles = (with_roles, inr b) ∧
    (b = true ↔ grants az_ctx with_roles "doc:edit").
Proof. by apply (permission_iff_granted az_ctx "doc:edit" with_roles). Defined.

Definition az0 : AuthorizationService := mkAuthorizationService None true (Some (abac_policy acme_only)).
Definition edit_request : AuthorizationInput := mkAuthorizationInput az_ctx None None None "doc:edit".
Lemma can_decides_witness :
  ∃ w' b, run (can az0 edit_request) with_roles = (w', inr b) ∧ rest w' = rest with_roles ∧
    (b = true ↔ grants az_ctx with_roles "doc:edit" ∧ abac_can acme_only (request_of "acme") = true).
Proof. by apply (can_decides az0 (Some acme_only) edit_request with_roles). Defined.

Lemma role_revocation_immediate_witness :
  ∃ w1 w2, run (removeRole az0 az_ctx "editor") with_roles = (w1, inr tt) ∧
    (∀ x, In x (roles_of az_ctx w1) → r_id x ≠ "r1") ∧
    run (validate "alice" 1) w1 = (w2, inr false).
Proof.
  apply (role_revocation_immediate az0 az_ctx "editor" (user_doc "alice" 1) editor with_roles); try done.
  all_distinct.
Defined.

(** ** OAuth *)
Definition oa0 : OAuthService := mkOAuthService toy_tokens ss0 None "https://issuer".
Definition web_client : OAuthClientDoc :=
  mkOAuthClientDoc "c1" "acme" "app" "web" "client_1" None ["https://app/cb"] [authorization_code; refresh_token; client_credentials]
    [pkce_S256] ["openid"; "profile"] true false auth_none.
Definition challenge_of (verifier : string) : string := to_base64url (createHash sha256 verifier).
Definition code_doc_of (code : string) : AuthorizationCodeDoc :=
  mkAuthorizationCodeDoc "a1" (hashSecret code) "acme" "app" "client_1" "alice" "s1" "https://app/cb" ["openid"]
    (Some (challenge_of "verifier")) (Some pkce_S256) None am_password 600000 None.
Definition code_stored : world toy_platform :=
  two_sessions <| oauthClients := [web_client] |> <| authorizationCodes := [code_doc_of "code"] |>.
Definition exchange_with (code verifier : string) : ExchangeInput :=
  mkExchangeInput "authorization_code" "client_1" None (Some code) (Some "https://app/cb") (Some verifier) None None
    "acme" "app" None None None.

Lemma code_single_use_witness :
  let race := in_turn (alternate 40) code_stored
    (map (serve_oauth oa0) [Exchange (exchange_with "code" "verifier"); Exchange (exchange_with "code" "verifier")]) in
  (winners (code_redeemed (hashSecret "code")) race.2 ≤ 1)%nat ∧
  winners (code_redeemed (hashSecret "code")) race.2 = 1%nat.
Proof.
  intros race. split; [|evaluate].
  apply (code_single_use oa0 "code" 0 code_stored race.1
    [Exchange (exchange_with "code" "verifier"); Exchange (exchange_with "code" "verifier")] race.2).
  - all_distinct.
  - intros i _. apply (never_drawn (λ x, hashSecret (to_base64url x)) 32). evaluate.
  - unfold drawn. lia.
  - apply in_turn_reachable.
Defined.

Definition answer_of {A} (d : A) (r : exn + A) : A := match r with inr a => a | inl _ => d end.
Definition code_answer : TokenResponse :=
  answer_of (mkTokenResponse "" None None 0 "") (result_of (exchange oa0 (exchange_with "code" "verifier")) code_stored).
Lemma exchange_sound_witness :
  ∃ c, In c [web_client] ∧ client_authenticated (exchange_with "code" "verifier") c.
Proof.
  destruct (exchange_sound oa0 (exchange_with "code" "verifier") code_stored
    (world_of (exchange oa0 (exchange_with "code" "verifier")) code_stored) code_answer) as (c & Hin & Hc & _).
  - apply (run_split (exchange oa0 (exchange_with "code" "verifier")) code_stored (inr code_answer)). evaluate.
  - exists c. split; [exact Hin|exact Hc].
Defined.

Definition authorize_input : AuthorizeInput :=
  mkAuthorizeInput "client_1" "https://app/cb" "openid profile" None "alice" "s1" "app" "acme" am_password
    (Some (challenge_of "verifier")) (Some "S256").
Definition drawn_code : string := to_base64url (toy_random 0 32).
Lemma authorize_sound_witness :
  ∃ c id, let d := issued_code authorize_input id drawn_code ["openid"; "profile"] 605000 in
    In c [web_client] ∧ may_authorize authorize_input c ∧
    inserted d [code_doc_of "code"] (docs (authorizationCodes (world_of (authorizeCode oa0 authorize_input) code_stored))).
Proof.
  destruct (authorize_sound oa0 authorize_input (exchange_with drawn_code "verifier") code_stored
    (world_of (authorizeCode oa0 authorize_input) code_stored) drawn_code 600) as (c & id & Hin & Hm & _ & Hins & _).
  - apply (run_split (authorizeCode oa0 authorize_input) code_stored (inr (drawn_code, 600))). evaluate.
  - vm_compute. discriminate.
  - each_stored.
  - done.
  - done.
  - done.
  - done.
  - done.
  - exists c, id. split; [exact Hin|]. split; [exact Hm|exact Hins].
Defined.

Lemma pkce_failure_revokes_witness :
  ∃ w' t, run (exchangeAuthorizationCode oa0 web_client (exchange_with "code" "guess")) code_stored =
      (w', inl (INVALID_GRANT "PKCE verification failed")) ∧
    authorizationCodes w' = [code_doc_of "code"] ∧ 5000 <= t ∧
    docs (sessions w') = [set_revoked t s1; s2].
Proof.
  apply (pkce_failure_revokes oa0 web_client (exchange_with "code" "guess") code_stored (code_doc_of "code") "code" "guess").
  - done.
  - done.
  - done.
  - evaluate.
  - done.
  - done.
  - evaluate.
  - done.
  - done.
  - evaluate.
Defined.

(** ** The cache *)
Definition fresh_cache : RedisCacheImpl.t toy_redis := toy_cache true.
Definition cache_calls : list (Z * cache_call) :=
  [(0, CSet "k" "v" (Some 10)); (5000, CGet "k"); (6000, CDel "k"); (7000, CGet "k"); (8000, CIncr "n" 60);
   (9000, CIncr "n" 60)].
Lemma cache_refines_promise_witness :
  spec_run (λ _, None) cache_calls (perform_all (H := RedisCacheImpl.impl_cache) cache_calls fresh_cache).2 ∧
  (perform_all (H := RedisCacheImpl.impl_cache) cache_calls fresh_cache).2 =
    [ADone; AValue (Some "v"); ADone; AValue None; ACount (Some 1); ACount (Some 2)].
Proof.
  split; [|evaluate]. apply (cache_refines_promise (String.eqb "n") cache_calls fresh_cache).
  - intros k. done.
  - done.
  - repeat (constructor; [cbn; repeat split; done|]). constructor.
Defined.
(** Outside the discipline the promise is not kept: Redis refuses to increment a
    word, the count is made in the process, and the word is answered again. *)
Example undisciplined_calls :
  let calls := [(0, CSet "k" "abc" None); (1, CIncr "k" 60); (2, CGet "k")] in
  let answers := (perform_all (H := RedisCacheImpl.impl_cache) calls fresh_cache).2 in
  answers = [ADone; ACount (Some 1); AValue (Some "abc")] ∧ ¬ spec_run (λ _, None) calls answers.
Proof.
  intros calls answers. assert (answers = [ADone; ACount (Some 1); AValue (Some "abc")]) as -> by evaluate.
  split; [done|]. intros (_ & _ & (d & Hd & _) & _). done.
Qed.


(** ** Tokens and keys *)
Definition access_ctx : AccessContext :=
  mkAccessContext "alice" "acme" "app" "s1" ["editor"] ["doc:edit"] am_password (Some "openid") None (Some 1).
Definition signed : world toy_platform := world_of (signAccessToken toy_tokens access_ctx) idle.
Definition access_token : string := answer_of "" (result_of (signAccessToken toy_tokens access_ctx) idle).

Lemma quiet_key_ready u : u < 2000000000 → ∀ k, In k (KeyStore.all (keyStore signed)) → key_ready u k.
Proof.
  intros Hu k Hk. vm_compute in Hk. destruct Hk as [<-|[]].
  split; [discriminate|]. split; [split|]; [|done|].
  { intros _. do 2 eexists. do 4 (split; [reflexivity|]). by eexists. }
  split; [done|]. split; [discriminate|]. cbn. lia.
Qed.

Lemma verify_signed_witness :
  run (verifyAccessToken toy_tokens access_token) (signed <| clock := 20000 |>) =
  (signed <| clock := 20000 |>, inr (identity_of access_ctx 5000)).
Proof.
  apply (verify_signed toy_tokens access_ctx idle signed access_token 20000).
  - split; [apply NoDup_nil_2|by intros].
  - done.
  - apply (run_split (signAccessToken toy_tokens access_ctx) idle (inr access_token)). evaluate.
  - apply quiet_key_ready. lia.
  - done.
  - done.
Defined.

Definition signing_key : SigningKey := hd (mkSigningKey "" EdDSA None None None None 0 ACTIVE None None None 0) (KeyStore.all (keyStore signed)).
Definition accepted_claims : list (string * json) :=
  match verifyToken access_token signing_key (verify_options toy_tokens) 20000 with inr (JObj l) => l | _ => [] end.

Lemma signed_wf : KeyStore.wf (keyStore signed).
Proof.
  split.
  - decided.
  - intros k v Hin. vm_compute in Hin. destruct Hin as [[= <- <-]|[]]. done.
Qed.

Definition revoked_store : KeyStore.t :=
  match KeyStore.revoke 6000 "uuid0" (keyStore signed) with inr s => s | inl _ => keyStore signed end.
Lemma revoke_spec_witness :
  KeyStore.byKid 7000 "uuid0" revoked_store = None ∧
  KeyStore.verify access_token (verify_options toy_tokens) 7000 revoked_store = inl (JsonWebTokenError "unknown kid").
Proof.
  destruct (KeyStore.revoke_spec 6000 "uuid0" (keyStore signed) revoked_store) with (t := 7000) as (Hb & Hv & _);
    [apply signed_wf|evaluate|]. split; [exact Hb|]. apply Hv. evaluate.
Defined.

Definition next_material : SigningKeyMaterial :=
  match KeyStore.generateSigningKeyPair 7 EdDSA with inr m => m | inl _ => mkSigningKeyMaterial None None None None end.
Lemma rotate_spec_witness :
  ∃ s' k, KeyStore.rotate randomUUID 6000 7 [] (keyStore signed) = (s', KeyStore.all s', inr tt) ∧
    KeyStore.byKid 6000 (kid signing_key) s' = Some (signing_key <| status := VERIFY_ONLY |> <| retiredAt := Some 6000 |>) ∧
    (∀ d', KeyStore.current randomUUID 6000 d' s' = inr (s', k)) ∧ kid k = randomUUID 7 ∧
    KeyStore.byKid 6000 (randomUUID 7) s' = Some k.
Proof.
  apply (KeyStore.rotate_spec randomUUID 6000 7 [] (keyStore signed) signing_key next_material).
  - apply signed_wf.
  - evaluate.
  - evaluate.
  - vm_compute. reflexivity.
  - intros k Hk _. vm_compute in Hk. by destruct Hk as [<-|[]].
  - evaluate.
Defined.

(** ** Transactions *)
Definition no_session : fault := mkFault (Some 251) "NoSuchTransaction" false.
Definition flaky : world toy_platform := idle <| faults := replicate 2 (Some no_session) |>.
Definition add_session (tx : bool) : prog (world toy_platform) () := create s1.
Lemma withTransaction_retries_witness :
  run (withTransaction add_session session_transaction) flaky =
    (idle <| clock := 5075 |> <| sessions := [s1] |>, inr tt).
Proof.
  destruct (withTransaction_retries add_session session_transaction 2 no_session flaky) as [Hok _];
    [done|cbn; lia|done|evaluate|evaluate|]. by apply Hok.
Defined.

(** ** Divergences

    Runs that show what the code does where a comment, a document or its own other
    branch says something else. *)

(** The lifetime the token endpoint reports: milliseconds for a code, seconds for
    client credentials. *)
Example code_grant_lifetime_in_milliseconds :
  tr_expiresIn code_answer = 900000 ∧
  tr_expiresIn (answer_of code_answer (result_of (exchange oa0 (mkExchangeInput "client_credentials" "client_1" None
    None None None None (Some "openid") "acme" "app" None None None)) code_stored)) = 900.
Proof. split; evaluate. Qed.

(** An expired session still refreshes. *)
Definition long_expired : world toy_platform := two_sessions <| clock := 100000000 |>.
Example expired_session_refreshes :
  (s_expiresAt s1 <? clock long_expired) = true ∧
  match result_of (refresh ss0 "tok" any_context) long_expired with inr s => cs_userId s = "alice" | inl _ => False end.
Proof. split; evaluate. Qed.

(** The session a refresh replaced is still reported live from the cache. *)
Definition after_refresh : world toy_platform := world_of (refresh ss0 "tok" any_context) two_sessions.
Example replaced_session_is_live :
  s_status <$> List.find (λ d, bool_decide (s_id d = "s1")) (docs (sessions after_refresh)) = Some replaced ∧
  result_of (isSessionActive "s1") after_refresh = inr true.
Proof. split; evaluate. Qed.

(** Above the limit (after a configuration change) a creation revokes one session only. *)
Definition crowded : world toy_platform :=
  with_sessions [session_doc "s1" "t1" active 2000; session_doc "s2" "t2" active 3000; session_doc "s3" "t3" active 4000].
Example session_limit_exceeded :
  active_sessions "alice" "app" (world_of (create_session ss0 new_ctx) crowded) = 3.
Proof. evaluate. Qed.

(** One backup code presented twice at the same time is accepted twice. *)
Example backup_code_double_spend :
  winners id (in_turn (alternate 5) with_backup (replicate 2 (tryBackupCode mfa0 "alice" "BACKUP"))).2 = 2%nat.
Proof. evaluate. Qed.

(** One code presented twice at the same time is verified twice. *)
Definition otp_world : world toy_platform := world_of (requestOtp ot0 ch_email "a@b.c" otp_login) idle.
Definition sent_code : string := match outbox otp_world with d :: _ => dl_code d | [] => "" end.
Example otp_double_spend :
  winners (λ r, match r with Verified => true | _ => false end)
    (in_turn (alternate 8) otp_world (replicate 2 (verifyOtp ot0 ch_email "a@b.c" otp_login sent_code))).2 = 2%nat.
Proof. evaluate. Qed.

(** A policy engine without role look-ups answers [hasPermission] with true. *)
Example policy_only_permission :
  result_of (op_hasPermission (fromPolicyEngine (λ _, mret false)) az_ctx "doc:edit") idle = inr true.
Proof. evaluate. Qed.

(** A tampered envelope surfaces the cipher's error, not [INVALID_MFA_SECRET]. *)
Definition tampered_secret : string :=
  MFA_ENVELOPE_VERSION +:+
  to_base64 ("X" +:+ subarray_from (from_base64 (String.substring 3 (String.length sealed_secret) sealed_secret)) 1).
Example tampered_envelope_error :
  decryptSecret mfa0 sealed_secret = inr "secret" ∧ decryptSecret mfa0 tampered_secret = inl UNAUTHENTICATED ∧
  UNAUTHENTICATED ≠ INVALID_MFA_SECRET.
Proof. split; [evaluate|]. split; [evaluate|discriminate]. Qed.

(** After an entry written outside a transaction the next one links past it: two
    entries of the chain carry the same predecessor. *)
Definition fallback_faults : list (option fault) :=
  [Some no_session; Some no_session; Some (mkFault None "boom" false)].
Definition forked : world toy_platform :=
  let w1 := world_of (log as0 login_entry) idle in
  let w2 := world_of (log as0 login_entry) (w1 <| faults := fallback_faults |>) in
  world_of (log as0 login_entry) w2.
Example audit_chain_forks :
  map l_sequence (docs (auditLogs forked)) = [Some 1; Some 2; Some 3] ∧
  (l_prevHash <$> docs (auditLogs forked) !! 1%nat) = (l_prevHash <$> docs (auditLogs forked) !! 2%nat) ∧
  (l_hash <$> docs (auditLogs forked) !! 0%nat) = (l_prevHash <$> docs (auditLogs forked) !! 2%nat).
Proof. split; [evaluate|]. split; evaluate. Qed.
