(* ===== verification/EngineWitnesses.v ===== *)
(** * Witnesses for the authentication engine

    The properties of the flows of [AuthEngine] applied at concrete inputs on the
    platform of [Concrete.v], with runs that show the divergences recorded for this
    code. *)

From S2P Require Import Concrete.
From S2P Require Import Flows.
From S2P Require Import Witnesses.

(** ** A deployment with one account *)
#[export] Instance toy_argon2_laws : Argon2Laws toy_platform.
Proof.
  split.
  - intros o i pw h [= <-]. change (@inr exn bool (String.eqb pw pw) = inr true). by rewrite String.eqb_refl.
  - intros o i pw h [= <-]. done.
Qed.

Definition e0 : AuthEngine (P := toy_platform) :=
  mkAuthEngine "acme" "app" "https://issuer" DEFAULT_PASSWORD_POLICY None toy_tokens ss0 ot0 az0 None (Some mfa0) vt0 None.
Definition password1 : string := "Passw0rd-one".
Definition password2 : string := "Passw0rd-two".
Definition alice : UserDoc :=
  mkUserDoc "alice" "acme" (Some "a@b.c") None true false true 1 (Some ("$argon2id$" +:+ password1)) [] 0 None false None None
    0 None [].
Definition deployment : world toy_platform := with_roles <| users := [alice] |>.
Definition mail : option string := Some "A@B.c".

Definition no_session_yet : CreatedSession := mkCreatedSession "" "" "" "" "" "" "" 0.
Definition no_tokens : IssuedTokens := mkIssuedTokens "" "" no_session_yet.

Definition sign_in (password : string) : prog (world toy_platform) LoginResult :=
  loginPassword e0 "app" mail None password None.
Definition signed_in : world toy_platform := world_of (sign_in password1) deployment.
Definition login_tokens : IssuedTokens :=
  match result_of (sign_in password1) deployment with inr (LoggedIn _ t) => t | _ => no_tokens end.

Lemma signs_in : run (sign_in password1) deployment = (signed_in, inr (LoggedIn alice login_tokens)).
Proof. apply (run_split (sign_in password1) deployment (inr (LoggedIn alice login_tokens))). evaluate. Qed.

Lemma loginPassword_sound_witness :
  ∃ user, In user (docs (users deployment)) ∧ may_login e0 mail None password1 5000 user ∧
    docs (users signed_in) = alter_first (of_tenant e0 (u_id user)) (set_failures 0 None) (docs (users deployment)) ∧
    alice = user ∧ (en_mfa e0 = None ∨ u_mfaEnabled user = false) ∧
    it_refreshToken login_tokens = cs_refreshToken (it_session login_tokens) ∧
    session_stored e0 (u_id user) "acme" "app" (it_session login_tokens) signed_in.
Proof.
  apply (loginPassword_sound e0 "app" mail None password1 None deployment signed_in (LoggedIn alice login_tokens));
    [done|all_distinct|exact signs_in].
Defined.

Definition five_wrong : list string := replicate 5 "guess".
Lemma five_failed_logins_lock_witness :
  ∃ w' until, refused_logins e0 "app" mail None None five_wrong deployment w' ∧ clock deployment + LOGIN_LOCK_MS <= until ∧
    ∀ password t, t < until →
      run (loginPassword e0 "app" mail None password None) (w' <| clock := t |>) =
      (w' <| clock := t |>, inl (ACCOUNT_LOCKED (until - t))).
Proof.
  apply (five_failed_logins_lock e0 "app" mail None None ("$argon2id$" +:+ password1) five_wrong deployment).
  - done.
  - split; [done|all_distinct|]. exists alice. repeat split; evaluate.
  - done.
  - evaluate.
  - apply Forall_replicate. vm_compute. discriminate.
  - done.
Defined.

Definition login_keys : list SigningKey := Eval vm_compute in KeyStore.all (keyStore signed_in).
Lemma login_keys_ready u : u < 2000000000 → ∀ k, In k (KeyStore.all (keyStore signed_in)) → key_ready u k.
Proof.
  intros Hu k. assert (KeyStore.all (keyStore signed_in) = login_keys) as -> by evaluate. intros [<-|[]].
  split; [discriminate|]. split; [split|]; [|done|].
  { intros _. do 2 eexists. do 4 (split; [reflexivity|]). by eexists. }
  split; [done|]. split; [discriminate|]. cbn. lia.
Qed.


(** The same with the default algorithm, whose tokens [jsonwebtoken] makes. *)
Definition rs256_deployment : world toy_platform := deployment <| keyStore := KeyStore.mkKeyStore [] RS256 |>.
Example rs256_login :
  (match result_of (sign_in password1) rs256_deployment with
   | inr (LoggedIn _ t) =>
     match result_of (verifyAccessToken toy_tokens (it_accessToken t)) (world_of (sign_in password1) rs256_deployment) with
     | inr i => (map algorithm (KeyStore.all (keyStore (world_of (sign_in password1) rs256_deployment))), ic_userId i)
     | inl _ => ([], "")
     end
   | _ => ([], "")
   end) = ([RS256], "alice"%string).
Proof. evaluate. Qed.

(** ** Passwords *)
Definition change : prog (world toy_platform) () := changePassword e0 "alice" "app" password1 password2.
Definition changed : world toy_platform := world_of change deployment.
Lemma password_change_revokes_tokens_witness :
  satisfies password2 DEFAULT_PASSWORD_POLICY ∧
  ∃ h, argon2_verify h password2 = inr true ∧ isArgon2Hash h = true ∧
    docs (users changed) = [set_password h 2 alice] ∧
    ∃ v, run (validate "alice" 1) changed = (v, inr false).
Proof.
  destruct (password_change_revokes_tokens e0 "alice" "app" password1 password2 deployment changed)
    as (Hs & _ & u & old & h & Hu & _ & _ & Hv & Ha & Hd & Hrest).
  - done.
  - all_distinct.
  - apply (run_split change deployment (inr tt)). evaluate.
  - split; [exact Hs|]. exists h. split; [exact Hv|]. split; [exact Ha|].
    assert (u = alice) as -> by (vm_compute in Hu; by injection Hu as <-).
    split; [exact Hd|]. apply (Hrest 1). discriminate.
Defined.

(** ** Links *)
Definition link_doc (id token : string) (kind : VerificationTokenKind) : VerificationTokenDoc :=
  mkVerificationTokenDoc id kind "acme" "app" "alice" (hashToken vt0 token) None None 9000 None.
Definition mailed (kind : VerificationTokenKind) : world toy_platform :=
  let w := deployment <| verificationTokens := [link_doc "v1" "tok" kind] |> in
  w <| sessions := [session_doc "s1" "old" active 2000] |>.
Definition reset : prog (world toy_platform) (UserDoc * IssuedTokens) :=
  resetPasswordWithToken e0 "app" "tok" password2 None.
Definition reset_world : world toy_platform := world_of reset (mailed password_reset).
Definition reset_tokens : IssuedTokens :=
  match result_of reset (mailed password_reset) with inr (_, t) => t | inl _ => no_tokens end.
Lemma reset_signs_out_witness :
  (∃ d, token_valid vt0 "tok" (mailed password_reset) d ∧ v_kind d = password_reset ∧
     List.find (of_tenant e0 (v_userId d)) (docs (users (mailed password_reset))) = Some alice) ∧
  reset_done e0 alice "app" password2 reset_tokens (mailed password_reset) reset_world.
Proof.
  destruct (reset_signs_out e0 "app" "tok" password2 None (mailed password_reset) reset_world alice reset_tokens)
    as (_ & Hd & _ & Hr).
  - done.
  - done.
  - all_distinct.
  - all_distinct.
  - each_stored.
  - done.
  - apply (run_split reset (mailed password_reset) (inr (alice, reset_tokens))). evaluate.
  - split; [exact Hd|exact Hr].
Defined.

Definition follow_link : prog (world toy_platform) (UserDoc * IssuedTokens * option string) :=
  redeemMagicLink e0 "tok" None.
Definition followed : world toy_platform := world_of follow_link (mailed magic_link).
Definition link_tokens : IssuedTokens :=
  match result_of follow_link (mailed magic_link) with inr (_, t, _) => t | inl _ => no_tokens end.
Lemma redeemMagicLink_sound_witness :
  ∃ d, token_valid vt0 "tok" (mailed magic_link) d ∧ v_kind d = magic_link ∧ u_id alice = v_userId d ∧
    session_stored e0 "alice" (v_tenantId d) (v_applicationId d) (it_session link_tokens) followed.
Proof.
  destruct (redeemMagicLink_sound e0 "tok" None (mailed magic_link) followed alice link_tokens None)
    as (d & Hv & Hk & _ & _ & Hid & _ & _ & _ & _ & Hs).
  - done.
  - each_stored.
  - apply (run_split follow_link (mailed magic_link) (inr (alice, link_tokens, None))). evaluate.
  - exists d. split; [exact Hv|]. split; [exact Hk|]. split; [exact Hid|exact Hs].
Defined.

Lemma link_single_use_witness :
  let h := hashToken vt0 "tok" in
  let requests := [RedeemMagicLink "tok" None; RedeemMagicLink "tok" None; VerifyEmailToken "tok"] in
  let race := in_turn (concat (replicate 60 [0; 1; 2]))%nat (mailed magic_link) (map (serve_link e0) requests) in
  (winners (link_used e0 h) race.2 ≤ 1)%nat ∧ winners (link_used e0 h) race.2 = 1%nat.
Proof.
  intros h requests race. split; [|evaluate].
  apply (link_single_use e0 "tok" 0 (mailed magic_link) race.1 requests race.2).
  - done.
  - all_distinct.
  - intros i _. apply (never_drawn (λ x, hashToken vt0 (to_base64url x)) 32). evaluate.
  - unfold drawn. lia.
  - apply in_turn_reachable.
Defined.

(** ** Second factors and registration *)
Definition guarded : UserDoc :=
  alice <| u_isActive := true |> <| u_mfaEnabled := true |> <| u_mfaSecret := Some sealed_secret |>.
Definition guarded_deployment : world toy_platform :=
  deployment <| users := [guarded] |> <| backupCodes := [code_doc] |> <| clock := 60000 |>.
Definition second_step : prog (world toy_platform) (UserDoc * IssuedTokens) :=
  verifyMfaLogin e0 "alice" "app" "BACKUP" None.
Definition stepped : world toy_platform := world_of second_step guarded_deployment.
Definition step_answer : UserDoc * IssuedTokens :=
  match result_of second_step guarded_deployment with inr a => a | inl _ => (alice, no_tokens) end.
Lemma verifyMfaLogin_sound_witness :
  ∃ m u0, en_mfa e0 = Some m ∧ In u0 (docs (users guarded_deployment)) ∧ u_isActive u0 = true ∧
    factor_proved m "alice" "BACKUP" u0 guarded_deployment ∧
    session_stored e0 "alice" "acme" "app" (it_session step_answer.2) stepped.
Proof.
  destruct (verifyMfaLogin_sound e0 "alice" "app" "BACKUP" None guarded_deployment stepped step_answer.1 step_answer.2)
    as (_ & _ & (m & u0 & Hm & Hin & _ & _ & Ha & Hf) & _ & Hs).
  - done.
  - done.
  - all_distinct.
  - apply (run_split second_step guarded_deployment (inr (step_answer.1, step_answer.2))). evaluate.
  - exists m, u0. repeat (split; [assumption|]). exact Hs.
Defined.

Definition newcomer : UserCreateInput := mkUserCreateInput "acme" "app" (Some "New@B.c") None (Some password2) None.
Definition sign_up : prog (world toy_platform) (UserDoc * IssuedTokens) := register e0 newcomer None.
Definition signed_up : world toy_platform := world_of sign_up deployment.
Definition sign_up_answer : UserDoc * IssuedTokens :=
  match result_of sign_up deployment with inr a => a | inl _ => (alice, no_tokens) end.
Lemma register_then_login_witness :
  inserted sign_up_answer.1 (docs (users deployment)) (docs (users signed_up)) ∧
  satisfies password2 DEFAULT_PASSWORD_POLICY ∧
  List.find (handle_query e0 (Some "New@B.c") None) (docs (users signed_up)) = Some sign_up_answer.1 ∧
  may_login e0 (Some "New@B.c") None password2 7000 sign_up_answer.1.
Proof.
  destruct (register_then_login e0 newcomer None deployment signed_up sign_up_answer.1 sign_up_answer.2)
    as (_ & Hi & _ & _ & _ & Hp).
  - apply (run_split sign_up deployment (inr (sign_up_answer.1, sign_up_answer.2))). evaluate.
  - destruct (Hp password2) as [Hs Hl]; [done|done|]. split; [exact Hi|]. split; [exact Hs|]. by apply Hl.
Defined.

(** ** Divergences *)
(** [POST /otp/login] passes neither an e-mail address nor a phone number, so the
    code sent to anyone's own address signs in whoever the tenant's first account is. *)
Definition mallory : string := "mallory@x.y".
Definition code_requested : world toy_platform := world_of (requestOtp ot0 ch_email mallory otp_login) deployment.
Definition mallory_code : string := match outbox code_requested with d :: _ => dl_code d | [] => "" end.
Example otp_login_of_anyone :
  match result_of (loginOtp e0 "app" ch_email mallory None None mallory_code None) code_requested with
  | inr (LoggedIn u _) => u = alice
  | _ => False
  end.
Proof. evaluate. Qed.

(** The second step of a login needs no first one. *)
Example second_factor_alone :
  match result_of second_step guarded_deployment with inr (u, _) => u_id u = "alice" | inl _ => False end.
Proof. evaluate. Qed.

(** The token a reset answers with is refused by the account check. *)
Example reset_token_refused :
  match result_of (verifyAccessToken toy_tokens (it_accessToken reset_tokens)) reset_world with
  | inr i => ic_tokenVersion i = Some (JNum 1)
  | inl _ => False
  end ∧ result_of (validate "alice" 1) reset_world = inr false.
Proof. split; evaluate. Qed.

(** The rule against repeated runs never fires for its default. *)
Example repeated_runs_allowed : pv_ok (evaluatePassword "Aa1aaaaaaaaaaaa" DEFAULT_PASSWORD_POLICY) = true.
Proof. evaluate. Qed.

(** Two wrong passwords at the same time count once. *)
Definition guess : prog (world toy_platform) () := try_catch (sign_in "guess" ;; mret tt) (λ _, mret tt).
Example concurrent_failures_lost :
  map u_failedLoginAttempts (docs (users (in_turn (alternate 10) deployment [guess; guess]).1)) = [1].
Proof. evaluate. Qed.

(** Changing the password leaves every session refreshable. *)
Example sessions_survive_change :
  let w := deployment <| sessions := [session_doc "s1" "old" active 2000] |> in
  match result_of (change ;; refreshSession e0 "old" None) w with inr _ => True | inl _ => False end.
Proof. vm_compute. exact I. Qed.
