(* ===== verification/ServiceWitnesses.v ===== *)
(** * Witnesses of the services

    The properties of the services beside the engine applied at concrete inputs, and
    runs that show the divergences recorded for them. *)

(** * Witnesses of passkeys, API keys, jobs, locks, webhooks and random values

    The properties of these components applied at concrete inputs on the platform
    of [Concrete.v], and runs that show the divergences recorded for them. *)

From S2P Require Import Concrete.
From S2P Require Import WebAuthn.
From S2P Require Import Passkeys.
From S2P Require Import ApiKeys.
From S2P Require Import JobQueue.
From S2P Require Import DistributedLock.
From S2P Require Import Webhooks.
From S2P Require Import Randomness.
From S2P Require Import JsMap.
From Stdlib Require Import Ascii.

(** ** WebAuthn *)
Definition cbor_entries : list (Z * Buffer) := [(1, [to_byte 2]); (300, [to_byte 7; to_byte 8])].
Definition cbor_written : list (Buffer * Buffer) :=
  [([to_byte 1], cborEncodeBytes [to_byte 2]);
   ([to_byte 25; to_byte 1; to_byte 44], cborEncodeBytes [to_byte 7; to_byte 8])].
Lemma cbor_map_round_trip_witness :
  cborDecodeMap (cborEncodeMap cbor_written ++ [to_byte 99]) (Some 0) =
    inr (foldl (λ m kv, <[Some kv.1 := kv.2]> m) ∅ cbor_entries, Some 10).
Proof.
  apply (cbor_map_round_trip cbor_entries cbor_written [to_byte 99]).
  - by repeat constructor.
  - repeat constructor; cbn; lia.
  - cbn. lia.
Defined.

Definition rp_hash : Buffer := replicate 32 (to_byte 7).
Definition written_authData : Buffer :=
  match authData_of rp_hash 65 9 [to_byte 1; to_byte 2] [to_byte 3] with inr b => b | inl _ => [] end.
Lemma authenticator_data_round_trip_witness :
  ∃ counter, parseAuthenticatorData written_authData =
    mkAuthenticatorData rp_hash (Some 65) counter
      (Some (mkAttestedCredentialData (replicate 16 (to_byte 0)) [to_byte 1; to_byte 2] [to_byte 3])) ∧
    readUInt32BE counter = inr 9.
Proof. apply (authenticator_data_round_trip rp_hash 65 9 [to_byte 1; to_byte 2] [to_byte 3]); [evaluate|lia|done|evaluate]. Defined.

(** A response in which everything is right: the digest of the 31-character
    relying-party name has 32 bytes on this platform. *)
Definition rp : string := repeat_char 31 "r"%char.
Definition client_data (type : string) : string :=
  stringify (JObj [("type", JStr type); ("challenge", JStr "c1"); ("origin", JStr "https://a")]%string).
Definition presence_data : Buffer := digest rp ++ [to_byte 1; to_byte 0; to_byte 0; to_byte 0; to_byte 6].
Definition sign_in_response : AuthenticationResult :=
  mkAuthenticationResult "cred" "cred" (bufferToBase64Url presence_data) (to_base64 (client_data "webauthn.get"))
    (bufferToBase64Url [to_byte 1]) None.
(** The COSE key [{1: 2, 3: -7, -1: 1, -2: x, -3: y}] of two one-byte coordinates. *)
Definition cose_key : Buffer :=
  map to_byte [165; 1; 2; 3; 38; 32; 1; 33; 65; 9; 34; 65; 9].
Definition stored_key : WebAuthnCredential :=
  mkWebAuthnCredential "cred" (to_hex (string_of_list cose_key)) 5 [] 0.
Definition any_signature (alg : string) (data : Buffer) (k : VerifyKey) (sig : Buffer) : option bool := Some true.
Lemma authentication_always_refused_witness :
  let r := rejected "Signature verification failed" in
  verifyAuthenticationResponse any_signature "c1" "https://a" rp sign_in_response stored_key = inr r ∧
  verified r = false ∧ is_Some (vr_error r).
Proof.
  cbn zeta. assert (verifyAuthenticationResponse any_signature "c1" "https://a" rp sign_in_response stored_key =
    inr (rejected "Signature verification failed")) as H by evaluate.
  split; [exact H|]. exact (authentication_always_refused _ _ _ _ _ _ _ H).
Defined.

Definition registration_response : RegistrationResult :=
  mkRegistrationResult "cred" "cred" (bufferToBase64Url (none_attestation presence_data))
    (to_base64 (client_data "webauthn.create")) None.
Lemma standard_attestation_refused_witness :
  verifyRegistrationResponse "c1" "https://a" rp registration_response = inr (rejected "rpIdHash mismatch").
Proof.
  apply (standard_attestation_refused "c1" "https://a" rp registration_response presence_data); [evaluate|evaluate|].
  apply base64url_round_trip.
Defined.

(** What the library writes for its own tests does not verify either: the data is
    longer than 23 bytes, and the header written for it is not the one read. *)
Example test_attestation_refused :
  let attestation := match buildAttestationObject (digest rp) 65 9 [to_byte 1; to_byte 2] [] None with inr b => b | inl _ => [] end in
  verifyRegistrationResponse "c1" "https://a" rp
    (mkRegistrationResult "cred" "cred" (bufferToBase64Url attestation) (to_base64 (client_data "webauthn.create")) None) =
    inr (rejected "rpIdHash mismatch").
Proof. evaluate. Qed.

Lemma der_encoders_agree_witness :
  let raw := replicate 32 (to_byte 200) ++ replicate 32 (to_byte 0) in
  joseToDerSignature raw = inr (rawToDerSignature raw) ∧ derToJoseSignature (rawToDerSignature raw) = inr raw.
Proof. apply der_encoders_agree. evaluate. Defined.

(** ** Passkeys *)
(** Verifiers that accept everything: what remains are the service's own checks. *)
#[local] Instance accepting : Verifiers := {
  verifyRegistration c o rp rr :=
    inr (mkWebAuthnVerificationResult true (Some (rr_id rr)) (Some 1) (Some "04") (Some "none") None);
  verifyAuthentication c o rp ar cred :=
    inr (mkWebAuthnVerificationResult true (Some (cred_credentialId cred)) (Some (cred_counter cred + 1)) None None None);
}.
Definition pk0 : WebAuthnService :=
  mkWebAuthnService "Acme" "acme.com" ["https://acme.com"] true false conveyance_none 300000 None.
Definition pending_for (user : string) : list (string * WebAuthnChallenge) :=
  [("c1"%string, mkWebAuthnChallenge "c1" (Some user) 6000)].
Definition credential_of (user : string) : WebAuthnCredentialDoc :=
  mkWebAuthnCredentialDoc "w1" user user "cred" "04" 5 [] None None None false true false None None 1000.
Definition passkey_world : world toy_platform :=
  (empty_world 5000 true) <| webauthnCredentials := [credential_of "bob"] |> <| challengeStore := pending_for "alice" |>.
Definition answer_with (cred : string) : AuthenticationResult := mkAuthenticationResult cred cred "" "" "" None.
Definition register_with (cred : string) : RegistrationResult := mkRegistrationResult cred cred "" "" None.

Lemma ceremony_single_use_witness :
  let requests := [CompleteAuthentication (answer_with "cred") "c1" "https://acme.com";
                   CompleteRegistration (register_with "new") "c1" "https://acme.com/"] in
  let race := in_turn (concat (replicate 20 [0; 1]))%nat passkey_world (map (serve_ceremony pk0) requests) in
  (winners (completed "c1") race.2 ≤ 1)%nat ∧ winners (completed "c1") race.2 = 1%nat.
Proof.
  intros requests race. split; [|evaluate].
  apply (ceremony_single_use pk0 "c1" 0 passkey_world race.1 requests race.2).
  - intros i _. apply (never_drawn (λ x, bufferToBase64Url (list_of_string x)) 32). evaluate.
  - unfold drawn. lia.
  - apply in_turn_reachable.
Defined.

Definition registering := completeRegistration pk0 (register_with "new") "c1" "https://acme.com".
Definition registered_summary : WebAuthnCredentialSummary := mkSummary "new" None [] (Some "none") None false 5000 None.
Lemma completeRegistration_sound_witness :
  result_of registering passkey_world = inr registered_summary ∧
  ∃ doc, inserted doc (docs (webauthnCredentials passkey_world)) (docs (webauthnCredentials (world_of registering passkey_world))) ∧
    wc_userId doc = "alice" ∧ wc_isRevoked doc = false.
Proof.
  assert (result_of registering passkey_world = inr registered_summary) as H by evaluate. split; [exact H|].
  destruct (completeRegistration_sound pk0 (register_with "new") "c1" "https://acme.com" passkey_world _ _ (run_split _ _ _ H))
    as (u & p & v & doc & _ & Hp & Hu & _ & _ & _ & _ & _ & _ & _ & Hins & Ho & _ & _ & _ & Hr & _).
  exists doc. split; [exact Hins|]. split; [|exact Hr].
  assert (p = mkWebAuthnChallenge "c1" (Some "alice") 6000) as -> by (injection Hp; auto). injection Hu as <-. exact Ho.
Defined.

(** Alice's ceremony completed with Bob's credential. *)
Definition signing_in := completeAuthentication pk0 (answer_with "cred") "c1" "https://acme.com".
Lemma completeAuthentication_sound_witness :
  result_of signing_in passkey_world = inr true ∧
  ∃ d, In d (docs (webauthnCredentials passkey_world)) ∧ wc_credentialId d = "cred" ∧ wc_isRevoked d = false.
Proof.
  assert (result_of signing_in passkey_world = inr true) as H by evaluate. split; [exact H|].
  destruct (completeAuthentication_sound pk0 (answer_with "cred") "c1" "https://acme.com" passkey_world _ _ (run_split _ _ _ H))
    as (p & d & v & _ & _ & _ & _ & Hd & Hid & Hr & _). by exists d.
Defined.
Example credential_of_another_user :
  map_get "c1" (challengeStore passkey_world) = Some (mkWebAuthnChallenge "c1" (Some "alice") 6000) ∧
  map wc_userId (docs (webauthnCredentials passkey_world)) = ["bob"] ∧ result_of signing_in passkey_world = inr true.
Proof. split; [|split]; evaluate. Qed.

Definition revoking : prog (world toy_platform) () := revokeCredential "bob" "cred".
Lemma revoked_credential_refused_witness :
  ∃ e, result_of signing_in (world_of revoking passkey_world) = inl e.
Proof.
  destruct (revoked_credential_refused pk0 "bob" "cred" false (answer_with "cred") "c1" "https://acme.com" passkey_world
    (world_of revoking passkey_world) (world_of revoking passkey_world)
    (world_of signing_in (world_of revoking passkey_world)) (result_of signing_in (world_of revoking passkey_world))) as [e He].
  - all_distinct.
  - apply run_split. evaluate.
  - done.
  - done.
  - apply surjective_pairing.
  - by exists e.
Defined.

(** ** API keys *)
Definition key_input : CreateKeyInput := mkCreateKeyInput "acme" "app" "deploy" (Some ["read"]).
Lemma api_key_lifecycle_witness :
  ∃ w1 k, run (create_api_key key_input) (empty_world 5000 true) = (w1, inr k) ∧
    rawKey k = raw_key 0 ∧ run (authenticate (rawKey k)) w1 =
      (w1, inr (Some (mkApiKeyIdentity "id1" "acme" "app" ["read"]))) ∧
    ∃ w2, run (revoke_api_key "id1") w1 = (w2, inr tt) ∧ run (authenticate (rawKey k)) w2 = (w2, inr None).
Proof.
  destruct (api_key_lifecycle key_input (empty_world 5000 true)) as (w1 & k & H1 & H2 & _ & H3 & H4).
  - done.
  - all_distinct.
  - evaluate.
  - exists w1, k. split; [exact H1|]. split; [exact H2|]. split; [exact H3|exact H4].
Defined.

(** ** Job queue *)
Definition toy_invoke (h : bool) (j : @Job nat) : prog (@JobQueue nat bool nat) () :=
  if h then modify (λ q, q <| JobQueue.outside ::= S |>) else Throw (JsError "down").
Definition toy_job (name : string) (attempts runAt : Z) : @Job nat := mkJob name name 0%nat attempts 3 runAt 0.
Definition queue_of (l : list (@Job nat)) : @JobQueue nat bool nat :=
  mkJobQueue l [("mail", true); ("flaky", false)]%string 3 1000 false None (Some []) 5000 0 0%nat.
Definition four_jobs : @JobQueue nat bool nat :=
  queue_of [toy_job "nobody" 3 4000; toy_job "flaky" 0 4000; toy_job "mail" 0 5000; toy_job "flaky" 2 5000; toy_job "mail" 0 9000].
(** What the two handlers do: count the mail, or throw. *)
Definition toy_runs (h : bool) (j : @Job nat) (n : nat) : nat * option exn :=
  if h then (S n, None) else (n, Some (JsError "down")).
Lemma drain_settles_witness :
  run (drain toy_invoke 9) four_jobs = (settled toy_runs four_jobs, inr true) ∧
  JobQueue.outside (settled toy_runs four_jobs) = 1%nat ∧
  map attempts (jobs (settled toy_runs four_jobs)) = [0; 4; 1] ∧
  option_map length (onFailed (settled toy_runs four_jobs)) = Some 1%nat.
Proof.
  split; [|split; [|split]; evaluate]. apply (drain_settles toy_invoke toy_runs 9 four_jobs).
  - by intros [] j [].
  - done.
  - done.
  - repeat constructor; cbn; lia.
  - cbn. lia.
Defined.

Definition drained : @JobQueue nat bool nat := (run (drain toy_invoke 9) four_jobs).1.
(** A job nobody handles is queued beyond its three attempts; the job that failed
    for good is reported; the timer is set for the last job queued again, not for
    the first one due. *)
Example unhandled_beyond_maximum :
  map (λ j, (id j, attempts j, maxAttempts j, runAt j)) (jobs drained) =
    [("mail", 0, 3, 9000); ("nobody", 4, 3, 21000); ("flaky", 1, 3, 7000)]%string ∧
  onFailed drained = Some [("flaky", "flaky", JsError "down")]%string ∧ JobQueue.outside drained = 1%nat.
Proof. split; [|split]; evaluate. Qed.
Example timer_overwritten :
  let q := (run (drain toy_invoke 9) (queue_of [toy_job "flaky" 0 4000; toy_job "nobody" 3 4000])).1 in
  map runAt (jobs q) = [7000; 21000] ∧ drainTimer q = Some 21000.
Proof. split; evaluate. Qed.
Example future_job_without_timer :
  let q := (run (enqueue (λ n _ _, n) toy_invoke 9 "mail" 0%nat (Some 9000) None) (queue_of [])).1 in
  length (jobs q) = 1%nat ∧ drainTimer q = None.
Proof. split; evaluate. Qed.

(** ** Distributed lock *)
Record lock_server := mkLockServer { sv_data : list (string * (string * Z)) }.
Definition free_at (now : Z) (d : option (string * Z)) : bool :=
  match d with Some (_, e) => e <=? now | None => true end.
Definition held_by (t : string) (d : option (string * Z)) : bool :=
  match d with Some (t', _) => String.eqb t' t | None => false end.
#[local] Instance toy_lock_server : LockServer lock_server := {
  ls_ready _ := true;
  ls_has_eval _ := true;
  ls_set_nx k t s now r :=
    if free_at now (map_get k (sv_data r)) then (mkLockServer (map_set k (t, now + s * 1000) (sv_data r)), inr true)
    else (r, inr false);
  ls_get k now r := (r, inr (fst <$> map_get k (sv_data r)));
  ls_del_if k t now r :=
    if held_by t (map_get k (sv_data r)) then (mkLockServer (map_delete k (sv_data r)), inr 1) else (r, inr 0);
  ls_pexpire_if k t ms now r :=
    if held_by t (map_get k (sv_data r)) then (mkLockServer (map_set k (t, now + ms) (sv_data r)), inr 1) else (r, inr 0);
  lease r k := map_get k (sv_data r);
}.
Lemma held_by_some t d : held_by t d = true → ∃ e, d = Some (t, e).
Proof. destruct d as [[t' e]|]; [|done]. cbn. intros ->%String.eqb_eq. by exists e. Qed.
#[local] Instance toy_lock_laws : LockServerLaws lock_server.
Proof.
  split.
  - intros k t s now r. cbn. destruct (free_at now _) eqn:Hf; cbn; split_and!; try done.
    + intros k' Hk. rewrite map_get_set. by rewrite (proj2 (String.eqb_neq _ _)).
    + left. rewrite map_get_set, String.eqb_refl. split; [|done]. unfold free_at in Hf.
      destruct (map_get k (sv_data r)) as [[t' e]|]; [lia|done].
    + by right.
  - done.
  - intros k t now r. cbn. destruct (held_by t _) eqn:Hh; cbn; split_and!; try done; [| |by left].
    + intros k' Hk. rewrite map_get_delete. by rewrite (proj2 (String.eqb_neq _ _)) by congruence.
    + right. rewrite map_get_delete, String.eqb_refl. split; [done|by apply held_by_some].
  - intros k t ms now r. cbn. destruct (held_by t _) eqn:Hh; cbn; split_and!; try done; [| |by left].
    + intros k' Hk. rewrite map_get_set. by rewrite (proj2 (String.eqb_neq _ _)).
    + right. rewrite map_get_set, String.eqb_refl. split; [done|by apply held_by_some].
Qed.

Definition toy_token (c : nat) (t : Z) : string := "t" +:+ nat_string c.
Definition lock_world0 : @lock_world lock_server (@cache toy_platform) () :=
  mkLockWorld (Some (mkLockServer [])) (toy_cache false) 1000 0 ().
Definition job_lock : LockOptions := mkLockOptions "job" (Some 2000) (Some 1) None.
(** The client is there: the toy server is always ready. *)
Definition connected (w : @lock_world lock_server (@cache toy_platform) ()) : bool := bool_decide (is_Some (client w)).
Lemma lock_exclusive_witness :
  let requests := [Acquire job_lock; Acquire job_lock; Release (mkLock "old" "ns:lock:job" 0 2000)] in
  let race := run_schedule (concat (replicate 20 [0; 1; 2]))%nat (lock_world0, map (serve_lock toy_token "ns") requests) in
  (winners (granted "job") race.2 ≤ 1)%nat ∧ winners (granted "job") race.2 = 1%nat.
Proof.
  intros requests race. split; [|evaluate].
  change 1%nat with (places "ns" "job" 2500 lock_world0).
  apply (lock_exclusive toy_token "ns" "job" 1000 2500 0 ["old"]%string lock_world0 race.1 requests race.2).
  - intros c t _. by intros [=]%list_elem_of_singleton.
  - split; [cbn; lia|]. split; [cbn; lia|]. by intros r t e [= <-].
  - apply List.Forall_forall. intros r [<-|[<-|[<-|[]]]]; [done..|]. intros _. by apply list_elem_of_singleton.
  - rewrite <- surjective_pairing. apply run_schedule_while. apply (Forall_impl (λ w, connected w = true)).
    + apply List.Forall_forall, forallb_forall. evaluate.
    + intros w [r Hr]%bool_decide_eq_true. by exists r.
Defined.

Definition no_redis : @lock_world lock_server (@cache toy_platform) () := lock_world0 <| client := None |>.
Lemma degraded_lock_excludes_nobody_witness :
  ∃ w' l w'' l', run (acquire toy_token "ns" job_lock) no_redis = (w', inr (Some l)) ∧
    run (acquire toy_token "ns" job_lock) w' = (w'', inr (Some l')) ∧ key l = key l'.
Proof.
  destruct (degraded_lock_excludes_nobody toy_token "ns" job_lock no_redis) as (w' & l & H1 & H2 & H3); [done|cbn; lia|].
  destruct (degraded_lock_excludes_nobody toy_token "ns" job_lock w') as (w'' & l' & H4 & H5 & H6); [done|cbn; lia|].
  exists w', l, w'', l'. split; [exact H1|]. split; [exact H4|]. by rewrite H3, H6.
Defined.

(** ** Webhooks *)
Definition endpoint : WebhookDoc :=
  mkWebhookDoc "wh1" None None "https://hook" (Some "s3cret") ["login"] true (Some 3).
Definition answering (status : Z) (r : FetchRequest) : prog (world toy_platform) FetchResponse :=
  mret (mkFetchResponse ((200 <=? status) && (status <? 300)) status).
Definition delivering (status : Z) : prog (world toy_platform) bool :=
  Webhooks.deliver (λ k p, "m" +:+ k) js_String (answering status) (new_webhooks None) endpoint "login" [].
Lemma deliver_terminates_witness :
  (run (delivering 500) (empty_world 5000 true)).2 = inr true ∧
  (ledger (run (delivering 500) (empty_world 5000 true)).1 ≤ 6)%nat ∧
  ledger (run (delivering 500) (empty_world 5000 true)).1 = 3%nat.
Proof.
  split; [evaluate|]. split; [|evaluate].
  apply (deliver_terminates (λ k p, "m" +:+ k) js_String (answering 500) (new_webhooks None) endpoint "login" [] (empty_world 5000 true)).
  intros r w. cbn. lia.
Defined.
(** A delivery the endpoint accepted is sent again when its ledger entry fails. *)
Example accepted_delivery_repeated :
  let w := (empty_world 5000 true) <| faults := [Some (mkFault None "down" false)] |> in
  let w' := (run (delivering 200) w).1 in
  map (λ d, (wd_status d, wd_attempts d)) (docs (webhookDeliveries w')) = [(wd_retrying, 1); (wd_delivered, 2)].
Proof. evaluate. Qed.
Example missing_endpoint_delivered :
  map wd_status (docs (webhookDeliveries (run (delivering 404) (empty_world 5000 true)).1)) = [wd_delivered].
Proof. evaluate. Qed.

(** ** Random values *)
Lemma generateUuidV4_shape_witness :
  ∃ uuid, (run generateUuidV4 (empty_world 5000 true)).2 = inr uuid ∧ matches uuid_v4_pattern uuid = true.
Proof.
  destruct (generateUuidV4_shape (empty_world 5000 true)) as (w' & uuid & H & Hm & _); [apply toy_random_length|].
  exists uuid. by rewrite H.
Defined.
Example uuid_of_first_draw :
  (run generateUuidV4 (empty_world 5000 true)).2 = inr "30303030-3030-4030-b030-303030303030".
Proof. evaluate. Qed.

(** * Witnesses of the protocol components

    The properties of the password-authenticated key exchange applied at concrete
    inputs, on the platform of [Concrete.v] with a constant digest where only the
    arithmetic matters. *)

From S2P Require Import Concrete.
From S2P Require Import Srp.

(** ** Secure remote passwords *)
Lemma modPow_correct_witness :
  modPow 3 7 11 = 3 ^ 7 mod 11 ∧ modPow_loop (modPow_fuel 7 + 40) 1 (Z.rem 3 11) 7 11 = modPow 3 7 11.
Proof. destruct (modPow_correct 3 7 11 40) as (H1 & H2 & _); [lia..|]. by split. Defined.

(** A digest that is always the byte 104. *)
Definition srp_platform : Platform := {|
  coll := coll; coll_mongo := coll_mongo; cache := cache; cache_ops := cache_ops; jwt_crypto := jwt_crypto;
  createHash _ _ := "h";
  hmac_sha1 := hmac_sha1; randomBytes := randomBytes; randomInt := randomInt; randomUUID := randomUUID;
  newObjectId := newObjectId; aes_256_gcm_seal := aes_256_gcm_seal; aes_256_gcm_open := aes_256_gcm_open;
  argon2_hash := argon2_hash; argon2_verify := argon2_verify; encodeURIComponent := encodeURIComponent;
  URLSearchParams_toString := URLSearchParams_toString |}.
Definition toy_scrypt (password salt : string) : string := password +:+ salt.
Definition srp_world : world srp_platform :=
  mkWorld (P := srp_platform) [] [] [] [] [] [] [] [] [] [] [] [] [] [] [] [] [] [] [] [] [] [] [] [] [] (toy_cache true) []
    (KeyStore.mkKeyStore [] EdDSA) 1000 0 [] true [] [].

Lemma srp_honest_client_witness :
  ∃ v session proof session',
    (run (deriveVerifier (P := srp_platform) toy_scrypt "alice" "secret") srp_world).2 = inr v ∧
    (run (begin (P := srp_platform) (sv_salt v) (sv_verifier v)) srp_world).2 = inr session ∧
    validateClientProof (P := srp_platform) toy_scrypt session (client_public 5) proof = inr (true, session') ∧
    sp_serverProofKey session' = Some proof.
Proof.
  destruct (srp_honest_client (P := srp_platform) toy_scrypt "alice" "secret" srp_world) as (w1 & v & Hv & Hbegin).
  destruct (Hbegin srp_world) as (w3 & session & Hs & Haccept).
  eexists v, session, _, _. rewrite Hv, Hs. split; [done|]. split; [done|].
  split; [apply Haccept; [lia|lazy; discriminate]|done].
Defined.

Definition srp_session : SrpSession := mkSrpSession 3 "8" 0 "00ff" 4 None.
Definition client_proof0 : string := Eval vm_compute in
  expected_proof (P := srp_platform) "00ff" "20" "8" (hashToKey toy_scrypt (modPow (32 * 4 ^ 104) 3 N) "20" "8").
Definition srp_accepted : SrpSession := srp_session <| sp_serverProofKey := Some client_proof0 |>.
Lemma srp_accepts_expected_witness :
  validateClientProof (P := srp_platform) toy_scrypt srp_session "20" client_proof0 = inr (true, srp_accepted) ∧
  ∃ A, BigInt_0x "20" = Some A ∧ A mod N ≠ 0.
Proof.
  assert (validateClientProof (P := srp_platform) toy_scrypt srp_session "20" client_proof0 = inr (true, srp_accepted)) as H by evaluate.
  split; [exact H|]. destruct (srp_accepts_expected (P := srp_platform) toy_scrypt srp_session "20" client_proof0 true srp_accepted)
    as (A & HA & HN & _); [done..|exact H|]. by exists A.
Defined.

(** A proof of another length is an exception, not a refusal. *)
Example srp_short_proof :
  validateClientProof (P := srp_platform) toy_scrypt srp_session "20" "" =
    inl (JsError "Input buffers must have the same byte length").
Proof. evaluate. Qed.

(** * Witnesses of the modules with state of their own

    The properties of events, magic links, the OAuth package, federation, regions,
    durable keys, the SRP module and the HTTP middleware applied at concrete
    inputs, and runs that show the divergences recorded for them. *)

From S2P Require Import Concrete.
From S2P Require Import EventSourcing.
From S2P Require Import MagicLinks.
From S2P Require Import CodeGrants.
From S2P Require Import Federation.
From S2P Require Import Regions.
From S2P Require Import KeyLifecycle.
From S2P Require Import SrpProtocol.
From S2P Require Import Middleware.
From S2P Require Import Witnesses.
From S2P Require Import EngineWitnesses.
From Stdlib Require Import Ascii.
From S2P Require Import JsMap.

(** ** The event bus *)
Definition new_bus : EventBus (L := string) (World := ()) := mkEventBus [] [] ["audit"] 0 5000 tt.
Definition first_subscription := EventSourcing.subscribe "USER_CREATED" "mailer" new_bus.
Definition bus1 : EventBus (L := string) (World := ()) := first_subscription.1.
Lemma bus1_wf : bus_wf bus1.
Proof.
  split; [decided|]. split; [decided|]. intros type r. cbn. destruct (String.eqb type "USER_CREATED"); [|done].
  intros [= <-]. by exists ["mailer"].
Qed.
Lemma subscription_round_trip_witness :
  let b := EventSourcing.subscribe "USER_CREATED" "index" bus1 in
  handlers_of "USER_CREATED" b.1 = ["mailer"; "index"; "audit"] ∧
  ∀ t, handlers_of t (EventSourcing.unsubscribe "USER_CREATED" b.2 "index" b.1) = handlers_of t bus1.
Proof.
  intros b. destruct (subscription_round_trip "USER_CREATED" "index" bus1 b.1 b.2) as (H1 & _ & H2).
  - exact bus1_wf.
  - decided.
  - evaluate.
  - split; [rewrite H1; evaluate|exact H2].
Defined.

(** A closure called twice deletes the set of a listener that came later. *)
Example second_unsubscribe_silences :
  let r := first_subscription.2 in
  let b2 := EventSourcing.unsubscribe "USER_CREATED" r "mailer" bus1 in
  let b3 := (EventSourcing.subscribe "USER_CREATED" "index" b2).1 in
  handlers_of "USER_CREATED" b3 = ["index"; "audit"] ∧
  handlers_of "USER_CREATED" (EventSourcing.unsubscribe "USER_CREATED" r "mailer" b3) = ["audit"].
Proof. split; evaluate. Qed.

(** ** Event streams

    A store in memory that checks the expected version and refuses what is not of
    one stream. *)
Definition streams : Type := list StoredEvent.
Definition of_stream (s : string) (l : streams) : list StoredEvent := List.filter (λ e, String.eqb (se_streamId e) s) l.
Definition append_conflict : exn := JsError "version conflict".
#[local] Instance memory_events : EventStoreBackend streams := {
  backend_append es expected l :=
    match es, expected with
    | e :: _, Some v => if v =? Z.of_nat (length (of_stream (se_streamId e) l)) then (l ++ es, inr tt) else (l, inl append_conflict)
    | _, _ => (l ++ es, inr tt)
    end;
  backend_read s after l :=
    inr match after with
        | Some v => List.filter (λ e, v <? version e) (of_stream s l)
        | None => of_stream s l
        end;
  EventSourcing.log l s := of_stream s l;
}.
Lemma of_stream_app s t l es :
  Forall (λ e, se_streamId e = t) es → of_stream s (l ++ es) = of_stream s l ++ if String.eqb t s then es else [].
Proof.
  intros Hes. unfold of_stream. rewrite List.filter_app. f_equal.
  induction Hes as [|e es He _ IH]; cbn; [by destruct (String.eqb t s)|]. rewrite He, IH. by destruct (String.eqb t s).
Qed.
#[local] Instance memory_events_laws : EventStoreLaws streams.
Proof.
  split; [|by intros s after w es [= <-]]. intros s es expected w Hes. cbn.
  assert ((∀ s', s' ≠ s → of_stream s' (w ++ es) = of_stream s' w) ∧ of_stream s (w ++ es) = of_stream s w ++ es) as [Ho Hs].
  { split; [intros s' Hne|]; rewrite (of_stream_app _ s) by done; rewrite ?String.eqb_refl; [|done].
    rewrite (proj2 (String.eqb_neq _ _)) by congruence. by rewrite app_nil_r. }
  destruct es as [|e es]; cbn [fst].
  { split; [done|]. left. by rewrite app_nil_r. }
  destruct expected as [v|]; [|split; [done|by right]].
  apply Forall_cons in Hes as [He _]. rewrite He. destruct (v =? _) eqn:Hv; [|by split; [|left]].
  split; [done|]. right. split; [done|lia].
Qed.

Definition happened (type : string) : StoredEvent := mkStoredEvent "" 0 type JNull 1000.
Definition two_appends : list (string * list StoredEvent * Z) :=
  [("order", [happened "CREATED"; happened "PAID"], 0); ("order", [happened "CREATED"], 0)].
Lemma appends_keep_versions_witness :
  let race := run_schedule [0; 1; 0; 1]%nat ([] : streams, map (λ r, EventSourcing.append r.1.1 r.1.2 (Some r.2)) two_appends) in
  streams_versioned race.1 ∧ map version (EventSourcing.log race.1 "order") = [1; 2].
Proof.
  intros race. split; [|evaluate].
  apply (appends_keep_versions (λ v v', v' = v) [] race.1 two_appends race.2).
  - by intros v v' ->.
  - by intros s i e.
  - rewrite <- surjective_pairing. apply run_schedule_reachable.
Defined.

(** Without the expected version two appends give their events the same one. *)
Example unversioned_appends_collide :
  let race := run_schedule [0; 1; 0; 1]%nat ([] : streams, [EventSourcing.append "order" [happened "CREATED"] None; EventSourcing.append "order" [happened "CREATED"] None]) in
  map version (EventSourcing.log race.1 "order") = [1; 1].
Proof. evaluate. Qed.

(** A projection that counts its events. *)
Definition counting (h : ()) (c : ProjectionState (S := Z)) (e : StoredEvent) : option (ProjectionState (S := Z)) :=
  Some (mkProjectionState (ps_version c) (ps_fields c + 1)).
Definition call_counting (h : ()) (c : ProjectionState (S := Z)) (e : StoredEvent) : prog streams (option (ProjectionState (S := Z))) :=
  mret (counting h c e).
Definition order_log : streams := [stored_as "order" 1 (happened "PAID"); stored_as "order" 2 (happened "SENT"); stored_as "order" 3 (happened "PAID")].
Lemma replay_from_snapshot_witness :
  mkProjectionState 3 2 = mkProjectionState 3 2 ∧ mkProjectionState 3 2 = mkProjectionState 3 2 ∧
  ps_version (mkProjectionState 3 2) = Z.of_nat (length (EventSourcing.log order_log "order")).
Proof.
  apply (replay_from_snapshot call_counting counting (λ _ _ _ _, eq_refl) [("PAID", tt)]%string 0 "order" (take 1 order_log) order_log
    (mkProjectionState 1 1) (mkProjectionState 3 2) (mkProjectionState 3 2) (mkProjectionState 3 2)); try evaluate.
  - intros i e. destruct i as [|[|[|]]]; cbn; try done; by intros [= <-].
  - by exists (drop 1 order_log).
Defined.

(** ** Magic links *)
Definition links : MagicLinkService := mkMagicLinkService 900 "secret".
Lemma link_verifies_when_dot_free_witness :
  ∃ w' link nonce, run (create_link links "alice" "app" None) idle = (w', inr link) ∧
    MagicLinks.expiresAt link = (clock idle / 1000 + 900) * 1000 ∧
    ∀ t, verify_at links (MagicLinks.token link) t =
      if decide (dot_free "alice" ∧ dot_free "app") then
        if MagicLinks.expiresAt link <? t then inl (JsError "Magic link expired") else inr (mkVerifiedLink "alice" "app" nonce)
      else inl (JsError "Invalid magic link").
Proof. apply (link_verifies_when_dot_free links "alice" "app" None idle). by vm_compute. Defined.

Definition link_of (subject : string) : MagicLink :=
  match result_of (create_link links subject "app" None) idle with inr l => l | inl _ => mkMagicLink "" "" 0 end.
Lemma accepted_link_signed_witness :
  ∃ expStr exp sig,
    MagicLinks.token (link_of "alice") = link_base "alice" "app" expStr (String.concat "" [to_base64url (randomBytes 0 24)]) +:+ "." +:+ sig ∧
    js_parseInt expStr = Some exp ∧ 6000 <= exp * 1000 ∧ dot_free "alice".
Proof.
  destruct (accepted_link_signed links (MagicLinks.token (link_of "alice")) 6000
    (mkVerifiedLink "alice" "app" (to_base64url (randomBytes 0 24)))) as (expStr & exp & sig & Ht & _ & Hp & Hle & Hs & _); [evaluate|].
  exists expStr, exp, sig. split; [exact Ht|]. split; [exact Hp|]. split; [exact Hle|exact Hs].
Defined.
(** A link for an e-mail address never verifies. *)
Example email_links_refused : verify_at links (MagicLinks.token (link_of "a@b.c")) 6000 = inl (JsError "Invalid magic link").
Proof. evaluate. Qed.

(** ** The OAuth package *)
Definition process_of {S} (s : S) : process S := mkProcess s 5000 0.
Lemma run_to {S A} (p : prog S A) s r : (run p s).2 = r → run p s = ((run p s).1, r).
Proof. intros <-. apply surjective_pairing. Qed.

Definition empty_codes : memory_store := mkMemoryStore [] eq_refl.
Definition for_alice : AuthorizationCodeParams :=
  mkCodeParams "acme" "app" "client" "alice" "s1" "https://app/cb" ["openid"] (Some (generateCodeChallenge "verifier" pkce_S256))
    (Some pkce_S256) None am_password None.
Definition issuing : prog (process memory_store) (string * AuthorizationCode) := CodeGrants.issue for_alice.
Definition issued : process memory_store := (run issuing (process_of empty_codes)).1.
Definition code1 : string := randomToken 32 0.
Definition record1 : AuthorizationCode := code_record for_alice (randomToken 16 1) code1 5000.
Lemma code_redeemed_once_witness :
  let race := run_schedule (alternate 6) (issued, map CodeGrants.redeem [code1; code1]) in
  (winners (redeems (ac_id record1)) race.2 ≤ 1)%nat ∧ winners (redeems (ac_id record1)) race.2 = 1%nat.
Proof.
  intros race. split; [|evaluate].
  apply (code_redeemed_once (ac_id record1) (λ q q', q' = q) issued race.1 [code1; code1] race.2).
  - by intros q q' ->.
  - rewrite <- surjective_pairing. apply run_schedule_reachable.
Defined.

Definition redeeming : prog (process memory_store) (option AuthorizationCode) := CodeGrants.redeem code1.
Definition redeemed_once : process memory_store := (run redeeming issued).1.
Lemma issued_records : ms_records (Process.state issued) = [(ac_id record1, record1)].
Proof. evaluate. Qed.
Lemma issued_code_round_trip_witness :
  Some record1 = (if decide (time issued < 5000 + DEFAULT_CODE_TTL_MS) then Some record1 else None) ∧
  (Some record1 = Some record1 → (None : option AuthorizationCode) = None).
Proof.
  assert ((run redeeming issued).2 = inr (Some record1)) as H1 by evaluate.
  assert ((run redeeming redeemed_once).2 = inr None) as H2 by evaluate.
  apply (issued_code_round_trip for_alice (process_of empty_codes) issued code1 record1 issued redeemed_once (Some record1)
    redeemed_once (run redeeming redeemed_once).1 (None : option AuthorizationCode)).
  - apply run_to. evaluate.
  - intros i x Hx. change (map_get i (ms_records (Process.state issued)) = Some x) in Hx. rewrite issued_records in Hx.
    cbn [map_get] in Hx. by destruct (String.eqb_spec i (ac_id record1)).
  - exact (λ _, eq_refl).
  - exact (run_to redeeming issued _ H1).
  - exact (λ _, eq_refl).
  - exact (run_to redeeming redeemed_once _ H2).
Defined.

Definition registered_client (id : string) : OAuthClientRecord :=
  mkOAuthClientRecord id ["https://app/cb"] false None true.
Definition find_registered (id : string) : prog (process memory_store) (option OAuthClientRecord) :=
  mret (Some (registered_client id)).
Definition give_tokens (c : IssueContext) : prog (process memory_store) OAuthTokenSet :=
  mret (mkOAuthTokenSet (CodeGrants.ic_userId c) None None None).
Definition request_from (client : string) : TokenRequest :=
  mkTokenRequest client None "https://app/cb" code1 (Some "verifier") None.
Definition exchanging (client : string) : prog (process memory_store) TokenResponse :=
  CodeGrants.exchangeAuthorizationCode find_registered give_tokens (request_from client).
Definition alice_tokens : TokenResponse := mkTokenResponse (mkOAuthTokenSet "alice" None None None) "openid".
Lemma token_request_sound_witness :
  ∃ r, record_of (Process.state issued) (ac_id r) = Some r ∧ codeHash r = sha256Hex code1 ∧ ac_consumedAt r = None ∧
    5000 < CodeGrants.ac_expiresAt r.
Proof.
  destruct (token_request_sound find_registered give_tokens (request_from "client") issued (run (exchanging "client") issued).1 alice_tokens)
    as (c & p1 & r & p2 & tokens & Hl & _ & _ & _ & _ & Hr & Hh & Hc & Ht & _).
  { apply run_to. evaluate. }
  injection Hl as <- _. exists r. split; [exact Hr|]. split; [exact Hh|]. split; [exact Hc|exact Ht].
Defined.
(** The code of one client is exchanged by another one that shares the redirect URI. *)
Example code_of_another_client : (run (exchanging "other") issued).2 = inr alice_tokens.
Proof. evaluate. Qed.

(** ** Federation *)
Definition google (subject : string) (userId : option string) : LinkIdentityInput :=
  mkLinkIdentityInput "acme" "google" subject userId (Some (mkFederatedProfile (Some "New@B.c"))) (Some true).
Definition with_identities (id email : string) (l : list LinkedIdentity) : UserDoc :=
  mkUserDoc id "acme" (Some email) None true false true 1 None l 0 None false None None 0 None [].
Definition provisioned : UserDoc := provisioned_user (google "g1" None) "new@b.c" "id0".
Lemma resolve_settles_witness :
  result_of (resolve (google "g1" None)) idle = inr (provisioned, true) ∧
  ∃ u', run (resolve (google "g1" (Some "bob"))) (world_of (resolve (google "g1" None)) idle) =
    (world_of (resolve (google "g1" None)) idle, inr (u', false)).
Proof.
  assert (result_of (resolve (google "g1" None)) idle = inr (provisioned, true)) as H by evaluate. split; [exact H|].
  destruct (resolve_settles (google "g1" None) idle (world_of (resolve (google "g1" None)) idle) provisioned true)
    as (_ & _ & _ & _ & Hagain); [done|by apply run_split|].
  destruct (Hagain eq_refl (google "g1" (Some "bob"))) as (u' & Hr & _); [done..|]. by exists u'.
Defined.
(** Two identities, each matching half: another provider's subject signs in. *)
Example identities_cross_match :
  let mixed := with_identities "carol" "c@b.c" [mkLinkedIdentity "google" "g7"; mkLinkedIdentity "github" "g1"] in
  result_of (resolve (google "g1" None)) (idle <| users := [mixed] |>) = inr (mixed, false).
Proof. evaluate. Qed.

Definition signed_jwt (header payload : json) : string :=
  let data := (to_base64url (stringify header) +:+ "." +:+ to_base64url (stringify payload))%string in
  data +:+ "." +:+ to_base64url ("sig1" +:+ data).
Definition id_header : json := JObj [("alg", JStr "EdDSA"); ("kid", JStr "k1")]%string.
Definition id_payload (exp : list (string * json)) : json :=
  JObj ([("iss", JStr "https://idp"); ("sub", JStr "g1"); ("aud", JStr "client"); ("nonce", JStr "n1")]%string ++ exp).
Definition expires (t : Z) : list (string * json) := [("exp", JNum t)]%string.
Definition id_options : VerifyIdTokenOptions := mkVerifyIdTokenOptions "https://idp" ["client"] (Some "n1") None.
Definition idp_keys (kid : option json) : jwt_error + string := inr "PUB1".
Lemma id_token_sound_witness :
  ∃ l s, obj_get "iss" l = Some (JStr "https://idp") ∧ s ∈ ["client"] ∧ get_prop (id_payload (expires 20)) "nonce" = inr (Some (JStr "n1")).
Proof.
  destruct (id_token_sound (signed_jwt id_header (id_payload (expires 20))) id_options idp_keys 10000 (id_payload (expires 20)))
    as (h & p & l & kid & pem & a & v & s & _ & _ & Hiss & Hs & _ & _ & _ & _ & _ & _ & Hn & _); [evaluate|].
  exists l, s. split; [exact Hiss|]. split; [exact Hs|]. by apply Hn.
Defined.
(** A token without an expiry is accepted at any time. *)
Example id_token_without_expiry :
  verifyIdToken (signed_jwt id_header (id_payload [])) id_options idp_keys 99999999999000 = inr (id_payload []).
Proof. evaluate. Qed.

(** ** Regions on a line *)
Definition on_line (a b : Z) : option Z := Some (Z.abs (a - b)).
Definition region (i : string) (p : bool) (at_ : option Z) : RegionConfig Z := mkRegionConfig i i "mongodb" "redis" p at_ [].
Definition three_regions : list (RegionConfig Z) := [region "eu" true (Some 0); region "us" false (Some 90); region "ap" false None].
Notation region_state := (process (RegionManager (Geo := Z) (Handler := string) (World := ()))).
Definition manager0 : RegionManager (Geo := Z) (Handler := string) (World := ()) :=
  mkRegionManager (map (λ r, (id r, r)) three_regions) None 60000 15000 [] ["log"] [] true tt.
Definition region0 : region_state := process_of manager0.
Lemma three_regions_wf : registry_wf (regionsById manager0).
Proof.
  split; [done|]. split; [decided|]. split; [|done]. intros k r Hin. cbn in Hin.
  by repeat (destruct Hin as [[= <- <-]|Hin]; [done|]).
Qed.

Definition near_us : UserLocation Z := mkUserLocation None (Some 80) None None.
Lemma routing_total_witness :
  ∃ r, getNearestRegion on_line near_us manager0 = inr (Some r) ∧ In r (configs manager0) ∧ id r = "us".
Proof.
  destruct (routing_total on_line near_us manager0) as (r & Hr & Hin & _); [exact three_regions_wf|done|].
  exists r. split; [exact Hr|]. split; [exact Hin|]. vm_compute in Hr. injection Hr as <-. reflexivity.
Defined.

Lemma construction_spec_witness :
  ∃ m : RegionManager (Geo := Z) (Handler := string) (World := ()),
    new_RegionManager [region "eu" false None; region "us" false None] None None None tt = inr m ∧
    configs m = [region "eu" true None; region "us" false None].
Proof.
  destruct (construction_spec (Geo := Z) (Handler := string) (World := ()) [region "eu" false None; region "us" false None] None None None tt)
    as [Hiff Hm].
  destruct (proj2 Hiff) as [m Hr].
  { split; [done|]. split; [decided|]. intros r Hin. cbn in Hin. by destruct Hin as [<-|[<-|[]]]. }
  exists m. split; [exact Hr|]. destruct (Hm m Hr) as [_ Hc]. rewrite Hc. reflexivity.
Defined.

Definition announce (e : RegionEvent) : prog region_state () := mret tt.
Definition announce_fails (e : RegionEvent) : prog region_state () :=
  match ev_id e with Some "uuid1" => Throw (JsError "no transport") | _ => mret tt end.
Lemma one_primary_kept_witness :
  let race := run_schedule (alternate 12) (region0, map (switchPrimary (λ i, "uuid" +:+ nat_string i) announce_fails) ["us"; "ap"]) in
  one_primary (Process.state race.1) ∧ getPrimaryId (Process.state race.1) = "us".
Proof.
  intros race. split; [|evaluate].
  destruct (one_primary_kept (Geo := Z) (Handler := string) (World := ()) (λ i, "uuid" +:+ nat_string i) announce_fails) as [_ Hrace].
  { intros e. unfold announce_fails. by repeat case_match. }
  apply (Hrace (λ q q', q' = q) region0 race.1 ["us"; "ap"] race.2).
  - by intros q q' ->.
  - split; [exact three_regions_wf|reflexivity].
  - rewrite <- surjective_pairing. apply run_schedule_reachable.
Defined.

Definition logged (h : string) (e : RegionEvent) : prog region_state () := mret tt.
Definition revocation : RegionEvent := mkRegionEvent (Some "e1") "SESSION_REVOKED" None (Some 5000) None None None None.
Lemma event_handled_once_witness :
  let race := run_schedule (alternate 8) (region0, map (processIncoming (λ i, "uuid" +:+ nat_string i) logged) [revocation; revocation]) in
  (winners (λ fresh : bool, fresh) race.2 ≤ 1)%nat ∧ winners (λ fresh : bool, fresh) race.2 = 1%nat.
Proof.
  intros race. split; [|evaluate].
  destruct (event_handled_once (Geo := Z) (Handler := string) (World := ()) (λ i, "uuid" +:+ nat_string i) logged "e1" 5000 30000 60000
    (λ q q', q' = q) region0 race.1 [revocation; revocation] race.2) as [Hw Hu].
  - intros h e. apply harmless_ret.
  - by intros q q' ->.
  - by repeat split.
  - by repeat constructor.
  - rewrite <- surjective_pairing. apply run_schedule_reachable.
  - by etransitivity.
Defined.
(** An event that was issued long ago is remembered only for the instant it came. *)
Example stale_event_handled_twice :
  let old := mkRegionEvent (Some "e2") "SESSION_REVOKED" None (Some (-60000)) None None None None in
  let incoming := processIncoming (World := ()) (λ i, "uuid" +:+ nat_string i) logged old in
  (run incoming region0).2 = inr true ∧ (run incoming ((run incoming region0).1 <| time := 5001 |>)).2 = inr true.
Proof. split; evaluate. Qed.
(** An event without an identifier is never a duplicate. *)
Example anonymous_event_handled_twice :
  let anonymous := mkRegionEvent None "SESSION_REVOKED" None (Some 5000) None None None None in
  let incoming := processIncoming (World := ()) (λ i, "uuid" +:+ nat_string i) logged anonymous in
  (run incoming region0).2 = inr true ∧ (run incoming (run incoming region0).1).2 = inr true.
Proof. split; evaluate. Qed.
(** An exception of the resolver passes through. *)
Example resolver_throws :
  let failing := manager0 <| geoResolver := Some (λ _, inl (JsError "GeoIP")) |> in
  getNearestRegion on_line near_us failing = inl (JsError "GeoIP").
Proof. evaluate. Qed.

Definition round_trip (c : RegionConfig Z) : prog region_state RegionProbeResult :=
  mret (mkProbeResult true true (Some (if String.eqb (id c) "us" then 12 else 90)) true).
Definition probing : prog region_state (list RegionHealth) := Regions.health round_trip.
Definition probed : region_state := (run probing region0).1.
Definition entries : list RegionHealth := Eval vm_compute in match (run probing region0).2 with inr l => l | inl _ => [] end.
Lemma best_region_fastest_witness :
  ∃ r, run (pickBestRegion on_line round_trip) region0 = (probed, inr (Some r)) ∧ id r = "us" ∧
    ∀ h' rtt', In h' entries → h_status h' ≠ down → h_rttMs h' = Some rtt' → 12 <= rtt'.
Proof.
  pose proof (best_region_fastest on_line round_trip region0 probed entries) as Hb.
  cbn [foldl entries better h_status h_rttMs] in Hb.
  destruct Hb as (r & Hr & Hg & _ & _ & _ & Hmin).
  - apply run_to. evaluate.
  - intros h Hh. cbn in Hh. by repeat (destruct Hh as [<-|Hh]; [by eexists|]).
  - exists r. split; [exact Hr|]. split; [by injection Hg as <-|exact Hmin].
Defined.

(** ** Durable keys *)
Definition key_doc (i kid : string) (st : KeyDocStatus) : KeyDoc :=
  mkKeyDoc i kid "acme" EdDSA "PUB" (Some "PRV") st 1000 None None None 90000.
Definition oid (i : nat) : string := "id" +:+ nat_string i.
Definition kid_of (i : nat) : string := "kid" +:+ nat_string i.
Definition key_db (l : list KeyDoc) : process (KeyDb (coll := list)) := process_of (mkKeyDb l []).
Definition two_keys : process (KeyDb (coll := list)) := key_db [key_doc "k1" "a" kd_ACTIVE; key_doc "k2" "b" kd_STAGED].
Lemma two_keys_onward : onward (key_doc "k1" "a" kd_ACTIVE) 0 two_keys.
Proof. split; [cbn; lia|]. intros x Hx Hxi. cbn in Hx. destruct Hx as [<-|[<-|[]]]; [reflexivity|discriminate Hxi]. Qed.
Lemma keys_move_forward_witness :
  let race := run_schedule (alternate 10) (two_keys, map (KeyLifecycle.perform oid kid_of) [op_activate 3 "b" "acme"; op_revoke "a" "acme"]) in
  (∀ d, In d (key_docs race.1) → KeyLifecycle.k_id d = "k1" → forward (key_doc "k1" "a" kd_ACTIVE) d) ∧
  map k_status (key_docs race.1) = [kd_REVOKED; kd_ACTIVE].
Proof.
  intros race. split; [|evaluate].
  assert (∀ i, (0 ≤ i)%nat → oid i ≠ KeyLifecycle.k_id (key_doc "k1" "a" kd_ACTIVE)) as Hfresh by done.
  pose proof (keys_move_forward oid kid_of (key_doc "k1" "a" kd_ACTIVE) 0 Hfresh (λ q q', q' = q) two_keys race.1
    [op_activate 3 "b" "acme"; op_revoke "a" "acme"] race.2) as Hmoves.
  intros d Hd Hi. destruct (Hmoves) with (d := d) as [Hf _]; [| | |exact Hd|exact Hi|exact Hf].
  - intros q q' -> Hq. exact Hq.
  - exact two_keys_onward.
  - rewrite <- surjective_pairing. apply run_schedule_reachable.
Defined.

Definition activating (kid : string) : prog (process (KeyDb (coll := list))) (option KeyDoc) := activateKey 1 kid "acme".
Lemma activation_spec_witness :
  ∃ p', run (activating "b") two_keys = (p', inr (Some (project (promote 5000 (key_doc "k2" "b" kd_STAGED))))) ∧
    ∀ d, In d (key_docs p') → is_active "acme" d = true → Some d = Some (promote 5000 (key_doc "k2" "b" kd_STAGED)).
Proof.
  destruct (activation_spec 0 "b" "acme" two_keys) as (p' & Hr & Ha & _); [done|decided|]. exists p'. split; [exact Hr|exact Ha].
Defined.
(** Activating a key that is not staged takes the active one away. *)
Example activation_of_nothing :
  (run (activating "missing") two_keys).2 = inr None ∧
  map k_status (key_docs (run (activating "missing") two_keys).1) = [kd_VERIFY_ONLY; kd_STAGED].
Proof. split; evaluate. Qed.
(** Two first activations at the same time leave two active keys. *)
Example two_active_keys :
  let race := run_schedule (alternate 10) (key_db [key_doc "k1" "a" kd_STAGED; key_doc "k2" "b" kd_STAGED],
    map (KeyLifecycle.perform oid kid_of) [op_activate 3 "a" "acme"; op_activate 3 "b" "acme"]) in
  map k_status (key_docs race.1) = [kd_ACTIVE; kd_ACTIVE].
Proof. evaluate. Qed.
(** A rotation retires the active key, which no longer verifies. *)
Example rotation_stops_verification :
  let p' := (run (rotateKey oid kid_of (new_KeyStoreService None None) 1 "acme" EdDSA) two_keys).1 in
  map k_status (key_docs p') = [kd_RETIRED; kd_STAGED; kd_ACTIVE] ∧
  (run (getVerificationKeys "acme") p').2 = inr [hd (key_doc "" "" kd_ACTIVE) (map project (List.filter (is_active "acme") (key_docs p')))].
Proof. split; evaluate. Qed.

(** ** The SRP module *)
Definition srp_process : process () := process_of tt.
Lemma randomBigInt_returns_witness :
  ∃ p', run (randomBigInt 5) srp_process = (p', inr (Some (drawn_integer 0))) ∧ drawn p' = 1%nat ∧ 1 <= drawn_integer 0 < modulus.
Proof. apply (randomBigInt_returns 0 5 srp_process); [lia|evaluate|lia]. Defined.

Lemma secrets_derived_witness :
  server_secret (modPow_euclid generator 5 modulus) (modPow_euclid generator 7 modulus) 3 11 = generator ^ (11 * (5 + 3 * 7)) mod modulus ∧
  client_side_secret 5 7 3 (server_public 11) = (generator ^ (11 + 1) - 3 * generator ^ 7) ^ (5 + 3 * 7) mod modulus.
Proof. apply (secrets_derived 5 7 3 11); lia. Defined.
(** With these exponents the two sides do not agree. *)
Example honest_keys_differ :
  server_secret (modPow_euclid generator 5 modulus) (modPow_euclid generator 7 modulus) 3 11 ≠ client_side_secret 5 7 3 (server_public 11).
Proof. vm_compute. discriminate. Qed.

(** The platform with a digest of one byte, so that exponents stay small. *)
Definition byte_sum (s : string) : string :=
  String (ascii_of_nat (1 + fold_right (λ c n, nat_of_ascii c + n) 0 (list_of_string s) mod 251)%nat) EmptyString.
Definition byte_platform : Platform := {|
  coll := list; coll_mongo := list_mongo; cache := RedisCacheImpl.t toy_redis; cache_ops := RedisCacheImpl.impl_cache;
  jwt_crypto := toy_jwt; createHash _ := byte_sum; hmac_sha1 := hmac_sha1 (Platform := toy_platform); randomBytes := toy_random;
  randomInt := randomInt (Platform := toy_platform); randomUUID := kid_of; newObjectId := oid;
  aes_256_gcm_seal := aes_256_gcm_seal (Platform := toy_platform); aes_256_gcm_open := aes_256_gcm_open (Platform := toy_platform);
  argon2_hash := argon2_hash (Platform := toy_platform); argon2_verify := argon2_verify (Platform := toy_platform);
  encodeURIComponent s := s; URLSearchParams_toString := URLSearchParams_toString (Platform := toy_platform) |}.
Definition srp_secret : ServerSecret := mkServerSecret 11 (server_public 11).
Definition srp_verifier : string := bigIntToHex (modPow_euclid generator 7 modulus) 256.
Definition srp_proof : ServerProof :=
  Eval vm_compute in match processClientChallenge (P := byte_platform) (bigIntToHex 32 256) srp_verifier srp_secret "aa" with inr p => p | inl _ => mkServerProof "" "" end.
Lemma proofs_follow_the_key_witness :
  verifyServerProof (P := byte_platform) (bigIntToHex 32 256)
    (computeClientProof (P := byte_platform) "aa" (bigIntToHex 32 256) (bigIntToHex (sc_B srp_secret) 256) (prf_sessionKey srp_proof))
    (prf_M2 srp_proof) (prf_sessionKey srp_proof) = true.
Proof.
  assert (processClientChallenge (P := byte_platform) (bigIntToHex 32 256) srp_verifier srp_secret "aa" = inr srp_proof) as H by evaluate.
  assert (0 <= 32) as H32 by lia.
  destruct (proofs_follow_the_key (P := byte_platform) 32 srp_secret "aa" srp_verifier srp_proof H32 H) as [Hv _]. exact Hv.
Defined.

(** ** The middleware *)
Definition bearing (token : string) : Request :=
  mkRequest "GET" "/docs" [("authorization", "Bearer " +:+ token)]%string [] None None None None None.
Definition signed_alice : world toy_platform := signed <| users := [alice] |> <| clock := 20000 |>.
Definition guards := [createAuthenticate toy_tokens; requireAuth; requirePermission "doc:edit"].
Definition guarded : prog (world toy_platform) (Request * Response * outcome) := pipeline guards (bearing access_token) no_response.
Definition admitted : Request * Response * outcome :=
  match result_of guarded signed_alice with inr r => r | inl _ => (bearing "", no_response, Answered) end.
Lemma admitted_next : result_of guarded signed_alice = inr (admitted.1.1, admitted.1.2, Next).
Proof. evaluate. Qed.
Lemma authenticated_route_sound_witness :
  ∃ i d, identity admitted.1.1 = Some i ∧ List.find (λ d, bool_decide (u_id d = ic_userId i)) (docs (users signed_alice)) = Some d ∧
    u_isActive d = true.
Proof.
  destruct (authenticated_route_sound toy_tokens "doc:edit" (bearing access_token) no_response signed_alice
    (world_of guarded signed_alice) admitted.1.1 admitted.1.2) as (token & i & kid & key & claims & _ & Hi & _ & _ & _ & _ & _ & Hm).
  - done.
  - exact (run_split guarded signed_alice _ admitted_next).
  - assert (option_map (λ i, (machineIdentity i, ic_userId i)) (identity admitted.1.1) = Some (false, "alice"%string)) as Hu by evaluate.
    rewrite Hi in Hu. injection Hu as Hu1 Hu2. destruct Hm as [Hm|[_ Hm]]; [congruence|]. rewrite Hu2 in *.
    destruct Hm as (d & Hd & Ha & _); [evaluate|done|]. exists i, d. split; [exact Hi|]. rewrite Hu2. split; [exact Hd|exact Ha].
Defined.

Definition stale_identity : IdentityContext :=
  mkIdentityContext "alice" "acme" "app" "s1" (JArr []) (JArr []) (JStr "password") 1000 None None None.
Definition stale_request : Request := (bearing "") <| identity := Some stale_identity |>.
Lemma fresh_permission_current_witness :
  ∃ req' out, run (requireFreshPermission "doc:edit" stale_request no_response) with_roles =
      (with_roles, inr (req', no_response, out)) ∧ (out = Next ↔ grants az_ctx with_roles "doc:edit").
Proof.
  destruct (fresh_permission_current "doc:edit" stale_request no_response with_roles stale_identity)
    as (req' & out & Hr & Hp & _); [done..|].
  exists req', out. split; [exact Hr|]. destruct (Hp eq_refl eq_refl) as [Hout _]. exact Hout.
Defined.

(** * Witnesses of the risk and delivery services

    The properties of delivery, risk scores, breached passwords, devices, decoys
    and captchas applied at concrete inputs, and runs that show the divergences
    recorded for them. *)

From S2P Require Import Risk.
From S2P Require Import Breach.
From S2P Require Import Devices.
From S2P Require Import Sentinels.
From S2P Require Import Delivery.
From Stdlib Require Import SpecFloat.
From Stdlib Require Import Ascii.
From S2P Require Import JsMap.

(** ** A state for the services *)
Record sec_state := mkSecState {
  sec_breaches : list BreachRecord; sec_events : list RiskEventDoc; sec_decoys : list DecoyUserDoc;
  sec_outages : list (option outage); sec_places : list (string * Location); sec_checks : list (string * RecentCheck) }.
#[export] Instance settable_sec_state : Settable sec_state := {| eta_expand := λ s, mkSecState (sec_breaches s) (sec_events s)
  (sec_decoys s) (sec_outages s) (sec_places s) (sec_checks s) |}.
#[local] Instance sec_out : Outages sec_state := { outages := sec_outages; set_outages l s := s <| sec_outages := l |>; outages_set _ _ := eq_refl }.
#[local] Instance sec_breach_rows : Stored list sec_state BreachRecord :=
  { rows := sec_breaches; set_rows c s := s <| sec_breaches := c |>; row_clash := breach_clash; rows_set _ _ := eq_refl; rows_outages _ _ := eq_refl }.
#[local] Instance sec_event_rows : Stored list sec_state RiskEventDoc :=
  { rows := sec_events; set_rows c s := s <| sec_events := c |>; row_clash n d := String.eqb (re_id n) (re_id d);
    rows_set _ _ := eq_refl; rows_outages _ _ := eq_refl }.
#[local] Instance sec_decoy_rows : Stored list sec_state DecoyUserDoc :=
  { rows := sec_decoys; set_rows c s := s <| sec_decoys := c |>; row_clash := decoy_clash; rows_set _ _ := eq_refl; rows_outages _ _ := eq_refl }.
#[local] Instance sec_locations : Locations sec_state :=
  { lastLocations := sec_places; set_locations l s := s <| sec_places := l |>; locations_set _ _ := eq_refl }.
#[local] Instance sec_recent : RecentChecks sec_state :=
  { recentChecks := sec_checks; set_checks l s := s <| sec_checks := l |>; checks_set _ _ := eq_refl }.
Notation sec := (process sec_state).
Definition no_state : sec_state := mkSecState [] [] [] [] [] [].
Definition sec0 : sec := mkProcess no_state 1000 0.

(** ** Breached passwords *)
(** A hash of ten digits, whose first five say only whether the password is short. *)
Definition toy_sha1 (s : string) : string :=
  (if (String.length s <? 5)%nat then "00000" else "11111") +:+
  (if String.eqb s "hunter2" then "abcde" else if String.eqb s "letmein" then "fffff" else "99999").
Definition toy_corpus (p : string) : list (string * Z) :=
  if String.eqb p "11111" then [("ABCDE", 17043); ("00012", 3)]%Z else [].
Definition toy_fetch (p : string) : prog sec string := mret (print_range (toy_corpus p)).
Definition dead_fetch (p : string) : prog sec string := Throw (JsError "getaddrinfo ENOTFOUND").
Definition no_number (s : string) : option Z := None.
Definition hibp0 : HibpService := new_hibp None None.
Notation check := (isBreached (coll := list) no_number toy_sha1 toy_fetch hibp0).
Notation dead_check := (isBreached (coll := list) no_number toy_sha1 dead_fetch hibp0).

Example breached_password :
  (run (check "hunter2") sec0).2 = inr (mkHibpCheckResult true 17043 "11111" true) ∧
  (run (check "letmein") sec0).2 = inr (mkHibpCheckResult false 0 "11111" true).
Proof. split; evaluate. Qed.

Lemma hibp_k_anonymity_witness :
  let c := run_schedule [0; 1; 0; 1; 0; 1; 0; 1]%nat (sec0, map check ["hunter2"; "open"]) in
  ∃ qs, reachable (λ _ _, False) (sec0, map check ["letmein"; "shut"]) (c.1, qs) ∧ length c.2 = length qs ∧
    ∀ i r r', c.2 !! i = Some (Ret r) → qs !! i = Some (Ret r') →
      ∃ p p', ["hunter2"; "open"] !! i = Some p ∧ ["letmein"; "shut"] !! i = Some p' ∧ same_range toy_sha1 p p' r r'.
Proof.
  intros c. apply (hibp_k_anonymity (coll := list) no_number toy_sha1 toy_fetch (λ _ _, False) hibp0 sec0 c.1
    ["hunter2"; "open"] ["letmein"; "shut"] c.2).
  - repeat constructor.
  - assert (c = (c.1, c.2)) as Hc by (by destruct c). rewrite <- Hc. apply run_schedule_reachable.
Defined.

Lemma toy_corpus_good p : Forall good_row (toy_corpus p).
Proof. unfold toy_corpus. destruct (String.eqb p "11111"); repeat constructor. Qed.
Lemma hibp_decides_witness :
  ∃ q r, run (check "hunter2") sec0 = (q, inr r) ∧ coherent toy_corpus q ∧
    (Breach.breached r = true → listed toy_sha1 toy_corpus "hunter2" = Some (Breach.count r)) ∧
    Breach.breached r = true.
Proof.
  destruct (hibp_decides (coll := list) no_number toy_sha1 toy_fetch toy_corpus toy_corpus_good
    ltac:(intros p q; cbn; split; [reflexivity|by left]) hibp0 "hunter2" sec0) as (q & r & Hr & Hq & Hs & Hd).
  - by intros d [].
  - exists q, r. split; [exact Hr|]. split; [exact Hq|]. split; [exact Hs|].
    destruct Hd as [Hd _]; [by intros q1 q2 e|]. rewrite Hd. evaluate.
Defined.

(** A failed look-up is remembered as a clean one, and reported as checked. *)
Definition typed : BreachCheckInput := mkBreachCheckInput "hunter2" None None.
Definition failed_check : HibpCheckResult := mkHibpCheckResult false 0 "11111" false.
Notation dead_detector := (checkPassword (Some dead_check) None 3600000).
Definition after_failure : sec := mkProcess (no_state <| sec_checks := [("hunter2", mkRecentCheck false 0 1000)] |>) 1000 0.
Definition much_later : sec := mkProcess (Process.state after_failure) 2000000 7.
Lemma check_remembered_witness :
  (Breach.breached failed_check = false → run (dead_detector typed) sec0 = (after_failure, inr (mkBreachCheckResult false 0 true false))) ∧
  run (dead_detector typed) much_later = (much_later, inr (mkBreachCheckResult (Breach.breached failed_check) 0 true true)).
Proof.
  pose proof (check_remembered (Some dead_check) None 3600000 typed typed sec0 sec0 after_failure much_later dead_check failed_check
    eq_refl eq_refl ltac:(evaluate) ltac:(evaluate) eq_refl eq_refl ltac:(evaluate)) as H. exact H.
Defined.

(** ** Risk *)
(** Functions of [Math] that keep zeros and [NaN]. *)
#[local] Instance toy_math : MathLib := {
  math_sin a := a; math_cos a := num_of_Z 1; math_asin a := a; math_pow a b := num_mul a a; num_String _ := "n" }.
#[local] Instance toy_math_laws : MathLaws.
Proof. split; [done..|]. intros a Ha. by apply mul_void_l. Qed.
Definition tor_login : RiskContext :=
  mkRiskContext (Some "alice") None None (Some "1.2.3.4") None None None (Some (num_of_Z 52)) (Some (num_of_Z 13)) None
    (Some 60000) None None (Some true) None (Some 4).
Definition worse_login : RiskContext :=
  mkRiskContext (Some "alice") (Some "acme") None (Some "5.6.7.8") None None None (Some (num_of_Z 52)) (Some (num_of_Z 13)) None
    (Some 10000) (Some true) (Some (lit 90)) (Some true) (Some true) (Some 12).
Lemma risk_monotone_witness :
  ∃ q a a', run (assess (S := sec_state) tor_login) sec0 = (q, inr a) ∧ run (assess (S := sec_state) worse_login) sec0 = (q, inr a') ∧
    score a <= score a' ∧ rank (verdict a) <= rank (verdict a') ∧ (requireMfa a = true → requireMfa a' = true).
Proof.
  apply (risk_monotone tor_login worse_login sec0). split; try done.
  - intros ms [= <-]. by exists 10000.
Defined.
Example risk_verdicts :
  score (judge false (collect nowhere tor_login)) = 60 ∧ verdict (judge false (collect nowhere tor_login)) = Risk.challenge ∧
  verdict (judge true (collect nowhere worse_login)) = Risk.block.
Proof. split; [|split]; evaluate. Qed.

(** An attempt from far away moves the user there: the next one passes. *)
Definition login_from (la lo : Z) : RiskContext :=
  mkRiskContext (Some "alice") None None None None None None (Some (num_of_Z la)) (Some (num_of_Z lo)) None None None None None None None.
Notation assess_from la lo := (assess (S := sec_state) (login_from la lo)).
Definition at_home : sec := (run (assess_from 52 13) sec0).1.
Definition attacked : sec := (run (assess_from (-33) 151) (at_home <| time := 61000 |>)).1.
Example travel_seen_once :
  (∃ a, (run (assess_from (-33) 151) (at_home <| time := 61000 |>)).2 = inr a ∧ List.map kind (signals a) = ["impossible_travel"]) ∧
  (∃ a, (run (assess_from (-33) 151) attacked).2 = inr a ∧ signals a = []).
Proof. split; eexists; split; evaluate. Qed.
Lemma attempt_hides_travel_witness :
  ∃ q a, run (assess_from (-33) 151) attacked = (q, inr a) ∧ ∀ x, In x (signals a) → kind x ≠ "impossible_travel".
Proof.
  pose proof (attempt_hides_travel (login_from (-33) 151) (login_from (-33) 151) (at_home <| time := 61000 |>) attacked "alice"
    (num_of_Z (-33)) (num_of_Z 151) eq_refl eq_refl eq_refl eq_refl eq_refl eq_refl eq_refl) as H. exact H.
Defined.

(** Bots: the combination that is rounded below its threshold. *)
Definition scripted : BotSignalInput := mkBotSignalInput None (Some 500) (Some true) (Some true) (Some true) None.
Example rounded_bot :
  bot_points scripted = 75 ∧ rounded_below scripted = true ∧ bd_verdict (bot_assess scripted) = suspect ∧
  num_lt (bd_score (bot_assess scripted)) BOT_THRESHOLD = true.
Proof. repeat split. Qed.
Lemma policy_level_exact_witness :
  let s := mkRiskSignals None (Some true) (Some true) (Some (num_of_Z 9)) None None in
  ipReputation s = None ∧ level (deterministicPolicy s) = level_of_points (policy_points s).
Proof. intros s. split; [done|]. by apply (policy_level_exact s). Defined.
Lemma nan_reputation_allows_witness :
  let s := mkRiskSignals (Some S754_nan) (Some true) (Some true) (Some (num_of_Z 9)) None None in
  action (deterministicPolicy s) = allow ∧ level (deterministicPolicy s) = low.
Proof. intros s. by apply (nan_reputation_allows s). Defined.

(** ** Devices *)
Definition chrome (language : string) : DeviceInfoInput := mkDeviceInfoInput (Some "Chrome/120") None (Some language) None.
Lemma fingerprint_tells_one_change_witness :
  stableFingerprint (chrome "en") ≠ stableFingerprint (chrome "es") ∧
  ∃ h, 0 <= h < TWO32 ∧ stableFingerprint (chrome "en") = "dev-" +:+ toString36 h.
Proof.
  apply (fingerprint_tells_one_change (chrome "en") (chrome "es") (utf16 "Chrome/120|e") 110 115 []); [evaluate|evaluate|decided|done].
Defined.
(** A store of trusted devices as a list of pairs. *)
Notation trusts := (list (string * string)).
Definition pair_is (u d : string) (x : string * string) : bool := String.eqb u (fst x) && String.eqb d (snd x).
Definition trusted_in (w : trusts) (u d : string) : bool := existsb (pair_is u d) w.
Definition list_trust : TrustStore trusts := {|
  countTrusted u x := Atom (λ w, (w, Z.of_nat (length (List.filter (λ y, String.eqb u (fst y)) w)))) Ret;
  isTrusted u d := Atom (λ w, (w, trusted_in w u d)) Ret;
  store_trust u d ttl := Atom (λ w, ((u, d) :: w, tt)) Ret;
  store_revoke u d := Atom (λ w, (List.filter (λ y, negb (pair_is u d y)) w, tt)) Ret |}.
Lemma list_trust_laws : trust_laws list_trust trusted_in.
Proof.
  split; cbn.
  - intros u x w. by eexists.
  - done.
  - intros u d ttl w. eexists. split; [reflexivity|]. done.
  - intros u d w. eexists. split; [reflexivity|]. intros u' d'. unfold trusted_in. induction w as [|[a b] w IH]; cbn.
    { by rewrite andb_false_r. }
    unfold pair_is in *. cbn in *.
    destruct (String.eqb_spec u a), (String.eqb_spec d b); cbn; rewrite ?IH; subst;
    destruct (String.eqb_spec u' a), (String.eqb_spec d' b); subst; cbn; rewrite ?String.eqb_refl; cbn; try done;
    repeat match goal with |- context [String.eqb ?x ?y] => destruct (String.eqb_spec x y); subst; cbn end; done.
Qed.
Definition edge : string := "Mozilla/5.0 (Windows NT 10.0) Chrome/120 Edg/120".
Definition edge_fingerprint : string := stableFingerprint (mkDeviceInfoInput (Some edge) None None None).
Lemma skip_mfa_iff_witness :
  let d := describe (mkDeviceInfoInput (Some edge) None None None) in
  ∃ r, run (trust_device list_trust "alice" (Some edge) None) [("alice", edge_fingerprint)] = ([("alice", edge_fingerprint)], inr r) ∧
    (skipMfa r = true ↔ category d ≠ bot_device ∧ trusted_in [("alice", edge_fingerprint)] "alice" edge_fingerprint = true).
Proof. intros d. apply (skip_mfa_iff list_trust trusted_in "alice" (Some edge) None [("alice", edge_fingerprint)] list_trust_laws). Defined.
(** Whoever sends the user agent of the trusted device skips the second factor. *)
Example same_browser_skips :
  ∃ r, (run (trust_device list_trust "alice" (Some edge) None) [("alice", edge_fingerprint)]).2 = inr r ∧ skipMfa r = true.
Proof. eexists. split; evaluate. Qed.

(** ** Decoys *)
Definition decoy0 : DecoyUserDoc := mkDecoyUserDoc "d1" "acme" "root@acme" (Some "decoy-1") None true 8 None None 0.
Definition sec_with_decoy : sec := mkProcess (no_state <| sec_decoys := [decoy0] |>) 1000 0.
Notation decoy_probe := (Sentinels.probe (coll := list) (S := sec_state) None).
Definition three_probes : sec * list (prog sec DecoyProbeResult) :=
  (sec_with_decoy, map (λ '(t, h, ip), decoy_probe t h ip)
     [("acme", "root@acme", Some "1.1.1.1"); ("acme", "root@acme", None); ("acme", "root@acme", Some "2.2.2.2")]).
Definition raced : sec * list (prog sec DecoyProbeResult) := run_schedule [0; 1; 2; 0; 1; 2; 2; 1; 0]%nat three_probes.
Lemma decoy_hit_counted_once_witness :
  (winners (counted "d1" 10) raced.2 ≤ to_reach (coll := list) "d1" 10 (sec_decoys (Process.state sec_with_decoy)))%nat ∧
  winners (counted "d1" 10) raced.2 = 1%nat.
Proof.
  split; [|evaluate].
  pose proof (decoy_hit_counted_once (coll := list) None "d1" 10 (λ _ _, False) sec_with_decoy raced.1
    [("acme", "root@acme", Some "1.1.1.1"); ("acme", "root@acme", None); ("acme", "root@acme", Some "2.2.2.2")] raced.2) as H.
  apply H; [by intros|done|by exists decoy0|].
  assert (raced = (raced.1, raced.2)) as Hc by (by destruct raced). rewrite <- Hc. apply run_schedule_reachable.
Defined.

(** ** Captchas *)
Definition lenient (url body : string) : prog sec json := mret (JObj [("success", JBool true); ("score", JNum 0)]).
Example minimum_score_ignored :
  let s := new_captcha (λ x, x) lenient recaptcha (Some "secret") None (Some (lit 90)) in
  (run (verify_captcha s (Some "token")) sec0).2 = inr (mkCaptchaVerification true recaptcha (Some 1) None false).
Proof. evaluate. Qed.

(** ** Delivery *)
(** A transport that counts its calls and rejects the first [n] of them. *)
Notation wire := (process (DeliveryState Z)).
Definition rejecting (n : Z) (params : OtpSendParams) : prog wire DeliveryResult :=
  Atom (λ p : wire, (p <| Process.state ::= λ s, s <| transport ::= Z.add 1 |> |>, transport (Process.state p)))
    (λ k, Ret (if k <? n then failed_result "mail" 1 (Some "550") else mkDeliveryResult true (Some true) "mail" 1 None (Some 200))).
Definition mail (n : Z) : OtpProvider (T := Z) :=
  mkOtpProvider "mail" email_channel (Some (rejecting n)) None (mret (mkHealthStatus true "mail" None None)).
Definition wire0 : wire := mkProcess (mkDeliveryState [new_breaker] 0) 1000 0.
Definition breaker0 : CircuitBreakerOptions := breaker_options None None None.
Notation once := (retry_options (Some 1) None None None).
Notation never := (λ _ : exn, false).
Notation steady := (λ (_ : nat) (x _ : Z), x).
Notation mailer n := (new_manager never steady once breaker0 [mail n] []).

(** Five failures open the breaker though deliveries succeed in between. *)
Definition alternating : list (Z * bool) := [(1, false); (2, true); (3, false); (4, true); (5, false); (6, true); (7, false); (8, true)].
Lemma breaker_trips_at_threshold_witness :
  failures alternating + 1 = failureThreshold breaker0 ∧ circuit (served breaker0 (foldl (served breaker0) new_breaker alternating) (9, false)) = open.
Proof.
  split; [evaluate|]. destruct (breaker_trips_at_threshold breaker0 alternating 9) as (_ & _ & Ho & _); [evaluate|exact Ho].
Defined.
Example sends_or_throws :
  (run (send_otp (mailer 0) by_email "a@b" "123456" "login") wire0).2 = inr tt ∧
  (∃ e, (run (send_otp (mailer 9) by_email "a@b" "123456" "login") wire0).2 = inl e) ∧
  (run (send_otp (mailer 0) by_sms "+1" "123456" "login") wire0).2 = inl (not_configured by_sms).
Proof. split; [|split; [eexists|]]; evaluate. Qed.

Definition open_wire : wire := mkProcess (mkDeliveryState [mkBreaker open 5 0 500] 7) 1000 0.
Notation guarded_by := (Delivery.guard breaker0 0 "mail" (rejecting 0)).
Definition codes : list OtpSendParams := [otp_params "a@b" "1" "login"; otp_params "c@d" "2" "login"].
Definition refused_both : wire * list (prog wire DeliveryResult) := run_schedule [0; 1; 1; 0; 1; 0]%nat (open_wire, map guarded_by codes).
Lemma open_circuit_refuses_witness :
  (∀ r, In (Ret r) refused_both.2 → is_short "mail" r) ∧ (∀ e, ¬ In (Throw e) refused_both.2) ∧
  ∀ params, run (guarded_by params) open_wire = (open_wire, inr (short_circuited "mail" 0)).
Proof.
  apply (open_circuit_refuses (λ _ _, False) breaker0 0 (mkBreaker open 5 0 500) "mail" (rejecting 0) open_wire refused_both.1
    codes refused_both.2); [done|done|].
  assert (refused_both = (refused_both.1, refused_both.2)) as Hc by (by destruct refused_both). rewrite <- Hc. apply run_schedule_reachable.
Defined.
Lemma retries_bounded_witness :
  ∃ p res, run (retrying never steady (retry_options None None None None) "mail" (rejecting 9) (otp_params "a@b" "1" "login")) wire0 = (p, inr res) ∧
    transport (Process.state p) <= 0 + 3.
Proof.
  destruct (retries_bounded never steady (λ n, n) (retry_options None None None None) "mail" (rejecting 9) (otp_params "a@b" "1" "login") wire0)
    as (p & res & Hr & Hc).
  - intros q. cbn. lia.
  - intros q. by exists false.
  - by exists p, res.
Defined.
Definition dead_mail : OtpProvider (T := Z) :=
  mkOtpProvider "dead" email_channel (Some (λ _, mret (failed_result "dead" 1 (Some "550")))) None (mret (mkHealthStatus true "dead" None None)).
Lemma delivery_fails_closed_witness :
  ∃ p e, run (send_otp (new_manager never steady once breaker0 [dead_mail] []) by_email "a@b" "1" "login") wire0 = (p, inl e).
Proof.
  destruct (delivery_fails_closed never steady once breaker0 [dead_mail] [] by_email "a@b" "1" "login" wire0) as [_ H].
  apply H. intros x s q q' res [<-|[]] [= <-]. by intros [= _ <-].
Defined.
