(* ===== verification/RouteWitnesses.v ===== *)
(** * Witnesses of the routes, the server and the migrations

    The properties of the administration API, the WebSocket server, the migrations, the
    routes and the tenants applied at concrete inputs, and runs that show the
    divergences recorded for them. *)

(** * Witnesses for the administration API

    The properties of [AdminIsolation] applied at concrete requests, and runs that
    show the divergences recorded for the routes. *)

From S2P Require Import Concrete.
From S2P Require Import Witnesses.
From S2P Require Import EngineWitnesses.
From S2P Require Import AdminIsolation.
From S2P Require Import JsMap.

Definition runtime0 : AdminRuntime := mkAdminRuntime as0 az0 e0.
Definition root_caller : Caller := mkCaller "acme" "app" "root".
Definition request (who : option Caller) (id : string) (b : option json) : AdminRequest := mkAdminRequest who b id [] None None.
Definition mallory : UserDoc := alice <| u_id := "mallory" |> <| u_tenantId := "other" |>.

(** Two tenants, and a user of the first who is signed in. *)
Definition shared : world toy_platform := signed_in <| users := [alice; mallory] |>.
Definition new_address : json := JObj [("email", JStr "m@other"); ("isActive", JBool false)]%string.
Lemma admin_users_confined_witness :
  foreign_users (cl_tenantId root_caller) (run (updateUser runtime0 (request (Some root_caller) "mallory" (Some new_address))) shared).1 = [mallory].
Proof.
  destruct (admin_users_confined runtime0 (request (Some root_caller) "mallory" (Some new_address)) root_caller eq_refl
    (updateUser runtime0) shared) as (H & _); [all_distinct|by exists acme_only|].
  rewrite H; [done|right; by left].
Defined.
(** A role of the other tenant given to its user: the version is raised from here. *)
Definition role_of_other : json :=
  JObj [("userId", JStr "mallory"); ("roleName", JStr "editor"); ("tenantId", JStr "other"); ("applicationId", JStr "app")]%string.
Example version_raised_across_tenants :
  let w := shared <| roles := [mkRoleDoc "r3" "other" "app" "EDITOR" None [] false] |> in
  let w' := (run (assign_role_route runtime0 (request (Some root_caller) "" (Some role_of_other))) w).1 in
  map (λ d, (u_id d, u_tokenVersion d)) (docs (users w')) = [("alice", 1); ("mallory", 2)]%string.
Proof. evaluate. Qed.

Definition delete_alice : AdminRequest := request (Some root_caller) "alice" None.
Lemma delete_signs_out_witness :
  ∃ w', run (deleteUser delete_alice) shared = (w', inr (ok_reply (JObj [("deactivated"%string, JBool true)]))) ∧
    List.find (λ d, bool_decide (u_id d = "alice")) (docs (users w')) = Some (deactivated alice) ∧
    (∀ s, In s (docs (sessions w')) → session_of "alice" "acme" s = false) ∧ redis w' = redis shared.
Proof. apply (delete_signs_out delete_alice root_caller eq_refl alice shared); [done|all_distinct|done]. Defined.

Definition system_role : RoleDoc := mkRoleDoc "r2" "acme" "app" "ADMIN" None [] true.
Definition foreign_role : RoleDoc := mkRoleDoc "r3" "other" "app" "editor" None [] false.
Definition with_three : world toy_platform := with_roles <| roles := [editor; system_role; foreign_role] |>.
Definition drop_role (id : string) : AdminRequest := request (Some root_caller) id None.
Lemma protected_roles_kept_witness :
  protected_roles (drop_role "r1") root_caller (run (deleteRole runtime0 (drop_role "r1")) with_three).1 = [system_role; foreign_role].
Proof.
  rewrite (protected_roles_kept runtime0 (drop_role "r1") root_caller eq_refl with_three); [evaluate|all_distinct].
Defined.
Example system_role_refused :
  result_of (deleteRole runtime0 (drop_role "r2")) with_three =
    inr (fail_reply 400 "SYSTEM_ROLE" "System roles cannot be deleted") ∧
  result_of (deleteRole runtime0 (drop_role "r3")) with_three = inr (not_found "Role").
Proof. split; evaluate. Qed.

(** ** A deployment started twice *)
Definition boot_options : BootstrapOptions := mkBootstrapOptions "acme" "web" None None (Some "root@acme") (Some "Passw0rd-root").
Definition boot : prog (world toy_platform) () := ensureBootstrap runtime0 boot_options.
Definition booted : world toy_platform := world_of boot (empty_world 5000 true).
Example first_boot :
  result_of boot (empty_world 5000 true) = inr tt ∧ length (docs (tenants booted)) = 1%nat ∧ length (docs (users booted)) = 1%nat.
Proof. repeat split; evaluate. Qed.

Definition boot_tenant : TenantDoc := match docs (tenants booted) with d :: _ => d | [] => mkTenantDoc "" "" "" false [] 0 end.
Definition boot_application : ApplicationDoc :=
  match docs (applications booted) with d :: _ => d | [] => mkApplicationDoc "" "" "" "" "" "" [] false end.
Definition boot_role : RoleDoc := match docs (roles booted) with d :: _ => d | [] => editor end.
Definition boot_admin : UserDoc := match docs (users booted) with d :: _ => d | [] => alice end.
Definition boot_assignment : UserRoleAssignmentDoc :=
  match docs (userRoleAssignments booted) with d :: _ => d | [] => mkUserRoleAssignmentDoc "" "" "" "" 0 end.
Lemma boot_again_witness :
  ∃ w', run boot booted = (w', inr tt) ∧
    docs (tenants w') = docs (tenants booted) ∧ docs (applications w') = docs (applications booted) ∧
    docs (roles w') = docs (roles booted) ∧ docs (userRoleAssignments w') = docs (userRoleAssignments booted) ∧
    docs (users w') = alter_first (λ d, bool_decide (u_id d = u_id boot_admin)) bump_version (docs (users booted)).
Proof.
  apply (boot_again runtime0 boot_options boot_tenant boot_application boot_role boot_admin boot_assignment booted); [evaluate..|].
  split; evaluate.
Defined.

(** A deleted user whose account state was cached passes the check until the
    entry expires. *)
Definition checked : world toy_platform := world_of (validate "alice" 1) shared.
Definition deleted : world toy_platform := world_of (deleteUser delete_alice) checked.
Example deleted_user_passes :
  result_of (deleteUser delete_alice) checked = inr (ok_reply (JObj [("deactivated"%string, JBool true)])) ∧
  result_of (validate "alice" 1) deleted = inr true.
Proof. split; evaluate. Qed.
(** Routes that ask for no identity. *)
Example session_revoked_by_nobody :
  result_of (revokeSession (request None (cs_sessionId (it_session login_tokens)) None)) shared =
    inr (ok_reply (JObj [("revoked"%string, JBool true)])).
Proof. evaluate. Qed.
(** An administrator may set a password that the policy refuses. *)
Example weak_password_patched :
  let r := request (Some root_caller) "alice" (Some (JObj [("password"%string, JStr "x")])) in
  (∃ reply, result_of (updateUser runtime0 r) shared = inr reply ∧ ar_status reply = 200) ∧
  password_errors "x" DEFAULT_PASSWORD_POLICY ≠ [].
Proof. split; [eexists; split|]; [evaluate..|]. vm_compute. discriminate. Qed.

(** * Witnesses of the WebSocket server and of the migrations

    The properties of [WebSocket] and [Migrations] applied at concrete inputs,
    and runs that show the divergences recorded for them. *)

From S2P Require Import Concrete.
From S2P Require Import Witnesses.
From S2P Require Import Migrations.
From S2P Require Import WebSocket.
From S2P Require Import JsMap.
From S2P Require Import Json.

(** ** Connections *)
Definition client1 : WsClient := mkWsClient "k1" 7 "alice"%string 1000.
Definition server1 : WsServer := (new_server None) <| clients := [("k1"%string, client1)] |>.
Lemma client1_live : live client1 server1.
Proof. split; [done|]. by apply not_elem_of_nil. Qed.
(** A masked [hi] of the client, cut in two. *)
Definition hi_frame : list Z := client_frame OP_TEXT [1; 2; 3; 4] [104; 105].
Lemma chunks_concatenate_witness :
  on_data client1 (on_data client1 (server1, []) (take 3 hi_frame)) (drop 3 hi_frame) =
    (server1 <| emitted := [message client1 "hi"] |>, []).
Proof.
  pose proof (chunks_concatenate client1 server1 [] (take 3 hi_frame) (drop 3 hi_frame)) as H.
  rewrite H; [evaluate|exact client1_live|constructor|..]; repeat (constructor; [done|]); constructor.
Defined.
Lemma frames_round_trip_witness :
  parse_frame 16 (server_frame OP_TEXT [104; 105] ++ [129]) = Frame OP_TEXT [104; 105] [129].
Proof. by destruct (frames_round_trip 16 OP_TEXT [1; 2; 3; 4] [104; 105] [129]) as [H _]. Defined.
Lemma kept_bytes_bounded_witness :
  blen (on_data client1 (server1, []) [129; 254; 0; 200; 1]).2 < 14 + maxPayload server1.
Proof.
  destruct (kept_bytes_bounded client1 server1 [] [129; 254; 0; 200; 1]) as [H _];
    [constructor|repeat (constructor; [done|]); constructor|done|apply client1_live|exact H].
Defined.

(** A text message in two fragments: the first one is the message, the second is dropped. *)
Definition fragmented : list Z := [1; 2; 104; 101] ++ [128; 3; 108; 108; 111].
Example fragments_not_joined : (on_data client1 (server1, []) fragmented).1 = server1 <| emitted := [message client1 "he"] |>.
Proof. evaluate. Qed.

(** Two connections with one key in one millisecond: the second takes the entry of the
    first, and the end of the first removes the second. *)
Definition sha1_ (s : string) : string := s.
Definition twins : WsServer * option WsClient * option WsClient :=
  let (s, a) := handleUpgrade sha1_ (Some "key"%string) 1 "alice"%string 1000 1000 (new_server None) in
  let (s, b) := handleUpgrade sha1_ (Some "key"%string) 2 "bob"%string 1000 1000 s in (s, a, b).
Example twins_share_an_entry : clientCount twins.1.1 = 1.
Proof. evaluate. Qed.
Example first_twin_ends_both :
  match twins with
  | (s, Some a, Some b) => clientCount (drop_client a s) = 0 ∧ destroyed (drop_client b (drop_client a s)) = [1%nat]
  | _ => False
  end.
Proof. by vm_compute. Qed.

(** ** Secrets *)
(** A user whose secret is an envelope of the first version. *)
Definition legacy_secret : string := Eval vm_compute in
  to_base64 (randomBytes (Platform := toy_platform) 9 12 +:+ toy_tag key32 (randomBytes (Platform := toy_platform) 9 12) "" +:+ "the secret").
Definition plain_user (i : string) (v : option string) : UserDoc := (user_doc i 1) <| u_mfaSecret := v |>.
Definition old_user : UserDoc := plain_user "alice" (Some legacy_secret).
Definition before : world toy_platform := (empty_world 60000 true) <| users := [old_user; plain_user "bob" None] |>.
Definition flags0 : Flags := mkFlags true true 1000.
Definition after : world toy_platform := world_of (migrate_secrets flags0 key32) before.
Definition counts0 : Counters := no_counts <| cn_upgraded := 1 |>.
Lemma before_after : run (migrate_secrets flags0 key32) before = (after, inr counts0).
Proof. apply (run_split (migrate_secrets flags0 key32) before (inr counts0)). evaluate. Qed.
Lemma key32_size : String.length key32 = 32%nat.
Proof. done. Qed.

Lemma migrated_secret_read_alike_witness :
  decryptSecret mfa0 legacy_secret = inr "the secret"%string ∧ decryptSecret mfa0 (sealed_v2 "the secret" key32 3) = inr "the secret"%string.
Proof.
  destruct (migrated_secret_read_alike mfa0 key32 legacy_secret "the secret" 3) as (_ & H); [done..|evaluate|exact H].
Defined.
Lemma enrolled_secret_replaced_witness :
  decryptSecret mfa0 sealed_secret = inr "secret"%string ∧ classify (Some sealed_secret) key32 = is_legacy (from_base64 sealed_secret) ∧
  from_base64 sealed_secret ≠ "secret"%string.
Proof.
  destruct (enrolled_secret_replaced mfa0 key32 "secret" sealed_secret 3 idle (world_of (encryptSecret mfa0 "secret") idle)) as (H1 & H2 & _ & H3).
  - done.
  - apply (run_split (encryptSecret mfa0 "secret") idle (inr sealed_secret)). evaluate.
  - intros s. assert (unwrapEnvelope sealed_secret key32 = inl (JsError "Unsupported state or unable to authenticate data")) as -> by evaluate. intros H. discriminate.
  - split; [exact H1|]. split; [exact H2|exact H3].
Defined.
Lemma migration_only_upgrades_witness :
  Forall2 (upgraded key32) (docs (users before)) (docs (users after)).
Proof.
  pose proof (migration_only_upgrades flags0 key32 key32_size) as H.
  pose proof (only_upgrades_preorder key32 key32_size) as Ho.
  pose proof (guarantee_run (only_upgrades key32) (migrate_secrets flags0 key32) before H) as Hr. rewrite before_after in Hr. exact Hr.
Defined.
Lemma migration_complete_witness :
  ∃ b, In b (docs (mfaSecretsBackup after)) ∧ mb_userId b = u_id old_user ∧ mb_secret b = legacy_secret.
Proof.
  destruct (migration_complete flags0 key32 key32_size before after counts0 before_after) as [_ H]; [done..|all_distinct|].
  apply (H old_user legacy_secret "the secret"); [by left|done|evaluate].
Defined.
Lemma migration_idempotent_witness :
  docs (users (world_of (migrate_secrets flags0 key32) after)) = docs (users after).
Proof.
  apply (migration_idempotent flags0 key32 key32_size before after _ counts0 (no_counts <| cn_current := 1 |>)); [exact before_after| |done|done|all_distinct].
  apply (run_split (migrate_secrets flags0 key32) after). evaluate.
Defined.
Lemma rollback_restores_witness :
  docs (users (world_of (runRollback 1000) after)) = docs (users before).
Proof.
  destruct (rollback_restores flags0 key32 key32_size before after counts0 1000 before_after) as [H _]; [done|done|all_distinct|done|done|].
  apply (H _ 1). apply (run_split (runRollback 1000) after). evaluate.
Defined.

(** More users than a batch: the second [limit] throws. *)
Example second_batch_throws : result_of (migrate_secrets (mkFlags true true 1) key32) before = inl cursor_in_use.
Proof. evaluate. Qed.
(** A secret written after the migration is overwritten by the roll-back. *)
Definition enrolled_again : world toy_platform := after <| users := [plain_user "alice" (Some sealed_secret); plain_user "bob" None] |>.
Example rollback_overwrites :
  map u_mfaSecret (docs (users (world_of (runRollback 1000) enrolled_again))) = [Some legacy_secret; None].
Proof. evaluate. Qed.
(** The runner takes only numbered files, in order. *)
Example numbered_files :
  listMigrations ["004-b.ts"; "readme.md"; "01-x.ts"; "003-a.js"; "005-.ts"; "rollback"]%string = ["003-a.js"; "004-b.ts"]%string.
Proof. evaluate. Qed.
(** A module that exports no [up] is recorded as applied. *)
Definition no_up (_ : string) : prog (world toy_platform) (option (prog (world toy_platform) ())) := mret None.
Example recorded_without_running :
  map mg_name (docs (migrations (world_of (run_migrations no_up "up" ["004-mfa.ts"]%string) before))) = ["004-mfa.ts"]%string ∧
  docs (users (world_of (run_migrations no_up "up" ["004-mfa.ts"]%string) before)) = docs (users before).
Proof. by vm_compute. Qed.

(** * Witnesses for the routes

    The properties of RouteSafety.v and Tenancy.v applied at concrete inputs, and whole
    requests, middleware included, that show the divergences recorded for this code. *)

From S2P Require Import Concrete.
From S2P Require Import Witnesses.
From S2P Require Import EngineWitnesses.
From S2P Require Import RouteSafety.
From S2P Require Import Tenancy.
From S2P Require Import JsMap.

(** ** A runtime *)
Definition c0 : PezhwanConfig (P := toy_platform) :=
  mkPezhwanConfig "acme" "app" "https://issuer" "audience" None (Some "EdDSA"%string) no_overrides true None None no_otp_config (Some true)
    None None (λ _, None) [].
Definition second_factors (audit : AuditService) : MfaService := mkMfaService "acme" "app" (Some audit) (Some (KeyBuffer key32)).
Definition rt0 : PezhwanRuntime := assemble c0 true EdDSA second_factors.

(** A request of nobody, with the token against forgery in place. *)
Definition anonymous : Request :=
  mkRequest "POST" "/" [("x-csrf-token", "t")]%string [("pezhwan_csrf", "t")]%string None None (Some "10.0.0.9"%string) None None.
Definition posting (url : string) (b : Body) : prog (world toy_platform) (Reply Payload) := post rt0 url b anonymous.
Definition to_alice : Body := no_body <| b_email := Some "A@b.c"%string |>.

(** ** An address opens an account *)
Definition asked : world toy_platform := world_of (posting "/v1/verify/magic/send" to_alice) deployment.
Definition answered_token : string :=
  match result_of (posting "/v1/verify/magic/send" to_alice) deployment with inr (Success _ (LinkIssued t _)) => t | _ => "" end.
(** The answer to whoever asks for a link, given back, signs in as the owner. *)
Example link_of_anyone :
  match result_of (posting "/v1/verify/magic/redeem" (no_body <| b_token := Some answered_token |>)) asked with
  | inr (Success 200 (SignedIn u _ _ _)) => u_id u = "alice"%string
  | _ => False
  end.
Proof. evaluate. Qed.
(** So does the token of a forgotten password, with a new password. *)
Definition forgot : Body := to_alice.
Definition forgotten : world toy_platform := world_of (posting "/v1/auth/password/forgot" forgot) deployment.
Definition reset_body : Body :=
  no_body <| b_newPassword := Some password2 |> <| b_token :=
    match result_of (posting "/v1/auth/password/forgot" forgot) deployment with inr (Success _ (LinkIssued t _)) => Some t | _ => None end |>.
Example reset_of_anyone :
  match result_of (posting "/v1/verify/password/reset/confirm" reset_body) forgotten with
  | inr (Success 200 (SignedIn u _ _ _)) => u_id u = "alice"%string
  | _ => False
  end.
Proof. evaluate. Qed.

Lemma email_address_suffices_witness :
  ∃ w1 token w2, run (post_magic_send rt0 to_alice anonymous) deployment = (w1, inr (200, LinkIssued token 900)) ∧
    users w2 = users deployment ∧
    run (post_magic_redeem rt0 (no_body <| b_token := Some token |>) anonymous) (w1 <| clock := 900000 |>) =
    run (link_session c0 true EdDSA second_factors alice None (deviceFrom anonymous)) w2.
Proof.
  apply (email_address_suffices c0 true EdDSA second_factors to_alice anonymous anonymous deployment "A@b.c" alice 900000).
  - done.
  - done.
  - done.
  - discriminate.
  - evaluate.
  - all_distinct.
  - discriminate.
  - done.
  - vm_compute. discriminate.
  - by intros.
  - by vm_compute.
Defined.

(** ** A code of anyone opens the first account *)
Definition of_mallory : Body :=
  no_body <| b_channel := Some ch_email |> <| b_target := Some mallory |> <| b_purpose := Some otp_login |>.
Definition sent : world toy_platform := world_of (posting "/v1/auth/otp/send" of_mallory) deployment.
Definition with_code : Body := of_mallory <| b_code := match outbox sent with d :: _ => Some (dl_code d) | [] => None end |>.
Notation first_user_in := (post_otp_login rt0 with_code anonymous).
Definition first_tokens : string * string :=
  match result_of first_user_in sent with inr (_, SignedIn _ a r _) => (a, r) | _ => (""%string, ""%string) end.
Example mallory_is_alice :
  match result_of (posting "/v1/auth/otp/login" with_code) sent with
  | inr (Success 200 (SignedIn u _ _ _)) => u_id u = "alice"%string
  | _ => False
  end.
Proof. evaluate. Qed.
Lemma otp_login_takes_first_user_witness :
  ∃ u, List.find (λ d, bool_decide (u_tenantId d = "acme"%string)) (docs (users sent)) = Some u ∧ u_isActive u = true.
Proof.
  destruct (otp_login_takes_first_user rt0 with_code anonymous sent (world_of first_user_in sent) 200
    (SignedIn alice first_tokens.1 first_tokens.2 None)) as (u & Hu & Ha & _).
  - done.
  - apply (run_split first_user_in sent (inr (200, SignedIn alice first_tokens.1 first_tokens.2 None))). evaluate.
  - exists u. split; [exact Hu|exact Ha].
Defined.

(** ** Second factors, sessions, sockets *)
Lemma mfa_login_needs_a_session_witness :
  run (posting "/v1/mfa/login" (no_body <| Routes.b_userId := Some "alice"%string |> <| b_code := Some "123456"%string |>)) deployment =
  (deployment, inr (Failure 401 (JStr "UNAUTHENTICATED") "Authentication required")).
Proof.
  pose proof (mfa_login_needs_a_session rt0 (no_body <| Routes.b_userId := Some "alice"%string |> <| b_code := Some "123456"%string |>) anonymous deployment) as H.
  apply H; [evaluate|done].
Defined.

Definition as_user (i : string) : Request :=
  anonymous <| identity := Some (mkIdentityContext i "acme" "app" "s1" (JArr []) (JArr []) (JStr "password") 0 None None None) |>.
Definition two_users : world toy_platform :=
  deployment <| sessions := [session_doc "s1" "tok" active 2000; (session_doc "s2" "tok2" active 2000) <| s_userId := "bob"%string |>] |>.
Notation end_s1 := (post_revoke rt0 "s1" (as_user "alice")).
Lemma revoke_reaches_own_sessions_witness :
  map s_status (docs (sessions (world_of end_s1 two_users))) = [revoked; active] ∧
  (∀ d, In d (docs (sessions two_users)) → s_userId d ≠ "alice"%string → In d (docs (sessions (world_of end_s1 two_users)))).
Proof.
  split; [evaluate|].
  destruct (revoke_reaches_own_sessions rt0 "s1" (as_user "alice") two_users (world_of end_s1 two_users) (inr (200, Message "Session revoked"))
    (mkIdentityContext "alice" "acme" "app" "s1" (JArr []) (JArr []) (JStr "password") 0 None None None)) as [H _].
  - all_distinct.
  - done.
  - apply (run_split end_s1 two_users). evaluate.
  - exact H.
Defined.
Example not_the_others : result_of (post_revoke rt0 "s2" (as_user "alice")) two_users = inl SESSION_NOT_FOUND.
Proof. evaluate. Qed.

Definition bearing_token (token : string) : Request := anonymous <| headers := [("authorization", "Bearer " +:+ token)]%string |>.
(** Alice signed in; her account is then disabled and her sessions revoked. *)
Definition shut_out : world toy_platform :=
  EngineWitnesses.signed_in <| users := [alice <| u_isActive := false |>] |> <| sessions := [] |>.
Definition upgrade : Upgrade := mkUpgrade "/ws" [("access_token", it_accessToken login_tokens)]%string [("sec-websocket-key", "k")]%string.
Definition c1 : PezhwanConfig (P := toy_platform) :=
  mkPezhwanConfig "acme" "app" "issuer" "audience" None (Some "EdDSA"%string) no_overrides true None None no_otp_config (Some true)
    None None (λ _, None) [].
Definition rt1 : PezhwanRuntime := assemble c1 true EdDSA second_factors.
Definition handshake_answer : option string :=
  match result_of (authenticateHandshake rt1 upgrade) EngineWitnesses.signed_in with inr (Some i) => Some (ic_userId i) | _ => None end.
Lemma handshake_ignores_accounts_witness :
  handshake_answer = Some "alice"%string ∧
  ∃ r, run (authenticateHandshake rt1 upgrade) shut_out = (shut_out, inr r) ∧
    run (authenticateHandshake rt1 upgrade) EngineWitnesses.signed_in = (EngineWitnesses.signed_in, inr r).
Proof.
  split; [evaluate|].
  apply (handshake_ignores_accounts rt1 upgrade shut_out EngineWitnesses.signed_in); evaluate.
Defined.
(** The routes refuse the same token. *)
Example routes_refuse :
  match result_of (pipeline [createAuthenticate (pz_tokens rt1); requireAuth] (bearing_token (it_accessToken login_tokens)) no_response) shut_out with
  | inr (_, _, NextError e) => e = UNAUTHENTICATED
  | _ => False
  end.
Proof. evaluate. Qed.

(** ** Quotas and billing *)
Definition limits0 : Limits := [("users", 3)]%string.
Definition metered : world toy_platform := idle <| tenantQuotas := [mkTenantQuotaDoc "acme" limits0 [("users", 1)]%string] |>.
(** Two requests count at once; the first command of the second fails. *)
Definition disturbed : world toy_platform := metered <| faults := [None; Some (mkFault None "timeout" false)] |>.
Definition counting : list (prog (world toy_platform) Z) := map (increment "acme" "users") [2; 5].
Lemma increments_never_lost_witness :
  ∃ ds, counter "acme" "users" (in_turn [0; 1; 0; 1; 0; 1]%nat disturbed counting).1 = 1 + foldr Z.add 0 ds ∧
    length ds = 2%nat.
Proof.
  pose proof (in_turn_reachable (λ _ _, False) [0; 1; 0; 1; 0; 1]%nat disturbed counting) as Hr.
  destruct (increments_never_lost "acme" "users" (λ _ _, False) [2; 5] disturbed _ _ (λ _ _ (H : False), match H with end) Hr) as (ds & Hc & Hl & _).
  - repeat constructor.
  - exists ds. split; [exact Hc|]. rewrite Hl. evaluate.
Defined.
Lemma quota_met_exactly_witness :
  ∃ w', run (for_each (replicate 5 tt) (λ _, use_unit "acme" "users" limits0)) metered = (w', inr tt) ∧ counter "acme" "users" w' = 3.
Proof.
  destruct (quota_met_exactly "acme" "users" limits0 3 5 metered) as (w' & Hr & Hc); [done|done|by vm_compute|].
  exists w'. split; [exact Hr|exact Hc].
Defined.
Definition provider (tenantId plan : string) : prog (world toy_platform) (string * string) := mret ("https://pay"%string, "cs_1"%string).
Notation buy := (checkout (Some provider) "acme" (Some "app"%string) "pro").
Definition bought : world toy_platform := world_of buy idle.
Notation hear := (webhookStatusChanged "cs_1" past_due).
Lemma checkout_never_reconciled_witness :
  length (docs (subscriptions bought)) = 1%nat ∧ subscriptions (world_of hear bought) = subscriptions bought.
Proof.
  split; [evaluate|].
  assert (unreferenced idle) as Hu by constructor.
  assert (∀ t p, guarantee stays_unreferenced (provider t p)) as Hp by (intros; apply guarantee_ret).
  exact (checkout_never_reconciled provider Hp _ _ _ _ _ idle bought (world_of hear bought) (result_of buy idle) (result_of hear bought)
    Hu (surjective_pairing _) (surjective_pairing _)).
Defined.
