(* ===== verification/InfraWitnesses.v ===== *)
(** * Witnesses for the infrastructure

    The properties of the configuration, the secrets, the connections, the statistics,
    the plugins, the certificates and the hybrid cryptography at concrete inputs. *)

From S2P Require Import Concrete.
From S2P Require Import Secrets.
From S2P Require Import EnvConfig.
From S2P Require Import Infrastructure.
From S2P Require Import PostQuantum.
From S2P Require Import Hsm.
From S2P Require Import ApiKeys.

(** ** The environment *)
Definition raw0 : EnvConfig := {|
  NODE_ENV := "production"; PEZHWAN_PORT := 4011; PEZHWAN_BODY_LIMIT := "100kb"; PEZHWAN_ISSUER := "https://id.example";
  PEZHWAN_TENANT_ID := "acme"; PEZHWAN_APPLICATION_ID := "app"; PEZHWAN_MONGODB_URI := "mongodb://db/pezhwan";
  PEZHWAN_MONGO_POOL_SIZE := 10; PEZHWAN_MONGO_TIMEOUT_MS := 1500; PEZHWAN_REDIS_URL := None; PEZHWAN_ACCESS_TOKEN_TTL := "15m";
  PEZHWAN_REFRESH_TOKEN_TTL := "30d"; PEZHWAN_SESSION_TTL := "30d"; PEZHWAN_JWT_ALGORITHM := "RS256";
  PEZHWAN_KEY_ENCAPSULATION_ALGORITHM := "RSA-OAEP"; PEZHWAN_TOKEN_HASH_ALGORITHM := "sha256"; PEZHWAN_AUDIT_HASH_ALGORITHM := "sha256";
  PEZHWAN_ARGON2_MEMORY_COST := 65536; PEZHWAN_ARGON2_TIME_COST := 3; PEZHWAN_ARGON2_PARALLELISM := 1; PEZHWAN_JWKS_CACHE_TTL := 3600;
  PEZHWAN_SIGNING_KEYS_PATH := "keys"; PEZHWAN_SIGNING_KEY_ROTATION_MS := 86400000; PEZHWAN_MFA_ENCRYPTION_KEY := Some "key"%string;
  PEZHWAN_COOKIE_DOMAIN := ""; PEZHWAN_COOKIE_SECURE := true; PEZHWAN_COOKIE_SAMESITE := "lax";
  PEZHWAN_ALLOWED_ORIGINS := "https://a.example, https://b.example"; PEZHWAN_OTP_TTL := 300000; PEZHWAN_OTP_MAX_ATTEMPTS := 5;
  PEZHWAN_OTP_RESEND_COOLDOWN := 60000; PEZHWAN_OTP_LENGTH := 6; PEZHWAN_OTP_EMAIL_PROVIDER := "smtp"; PEZHWAN_OTP_SMS_PROVIDER := "twilio";
  PEZHWAN_SMTP_HOST := Some "smtp"%string; PEZHWAN_SMTP_PORT := None; PEZHWAN_SMTP_SECURE := true; PEZHWAN_SMTP_USER := None;
  PEZHWAN_SMTP_PASS := None; PEZHWAN_SMTP_FROM := Some "no-reply@id.example"%string; PEZHWAN_SENDGRID_API_KEY := None;
  PEZHWAN_SENDGRID_FROM := None; PEZHWAN_SES_REGION := None; PEZHWAN_SES_ACCESS_KEY_ID := None; PEZHWAN_SES_SECRET_ACCESS_KEY := None;
  PEZHWAN_SES_FROM := None; PEZHWAN_TWILIO_ACCOUNT_SID := Some "sid"%string; PEZHWAN_TWILIO_AUTH_TOKEN := Some "token"%string;
  PEZHWAN_TWILIO_FROM := Some "+1"%string; PEZHWAN_SNS_REGION := None; PEZHWAN_SNS_ACCESS_KEY_ID := None;
  PEZHWAN_SNS_SECRET_ACCESS_KEY := None; PEZHWAN_RATE_LIMIT_LOGIN := "10/15m"; PEZHWAN_RATE_LIMIT_OTP := "5/15m";
  PEZHWAN_RATE_LIMIT_API := "100/1m"; PEZHWAN_LOCKOUT_MAX_ATTEMPTS := 5; PEZHWAN_LOCKOUT_DURATION := 900000; PEZHWAN_ADMIN_EMAIL := None;
  PEZHWAN_ADMIN_PASSWORD := None; PEZHWAN_OTEL_ENDPOINT := None; PEZHWAN_REQUEST_LOGGING := true; PEZHWAN_LOG_LEVEL := "info";
  PEZHWAN_ENV := None |}.
Definition parses (raw : EnvConfig) : environment → list (string * string) + EnvConfig := λ _, inr raw.
Definition fresh : Process := mkProcess (λ _, None) None.
Definition config_of (raw : EnvConfig) : option Config := match buildConfig raw with inr c => Some c | inl _ => None end.
Lemma production_config_safe_witness :
  ∃ c, getConfig (parses raw0) fresh = (mkProcess (λ _, None) (Some c), Returned c) ∧ production_safe c.
Proof.
  destruct (getConfig (parses raw0) fresh) as [p' r] eqn:Hg.
  assert (process_safe fresh) as Hs by (intros c; done).
  pose proof (production_config_safe (parses raw0) fresh p' r Hs Hg) as (_ & _ & H).
  vm_compute in Hg. injection Hg as <- <-. eexists. split; [reflexivity|]. exact (proj1 H).
Defined.
Lemma durations_read_witness :
  parseDuration (js_String 15 +:+ "m") = inr (num_of_Z (15 * 60000)) ∧ parseDuration "  " = inr (num_of_Z 0).
Proof.
  destruct (durations_read "  " 15 "m" 60000) as (H1 & _ & H2); [cbn; auto|lia|lia|]. split; [exact H1|by apply H2].
Defined.
Lemma budgets_read_witness : parseBudget (js_String 10 +:+ "/" +:+ js_String 15 +:+ "m") = inr (mkBudget (num_of_Z 10) (num_of_Z (15 * 60000))).
Proof. apply (budgets_read "" 10 15 "m" 60000); [cbn; auto|lia..]. Defined.

(** ** Connections *)
(** A server that refuses its first [n] connections. *)
Definition reluctant : Mongoose nat :=
  mkMongoose nat (λ _ _ n, match n with O => (O, inr tt) | S n => (n, inl (JsError "refused")) end) (λ n, (n, inr tt))
    (λ n, match n with O => 1 | _ => 0 end) (λ _, None) (λ _, None) (λ _, None) (λ n, (n, inr tt)).
Definition po0 : ConnectionPoolOptions := mkConnectionPoolOptions "mongodb://db" None None None.
Lemma connect_outcome_witness :
  run (connect reluctant po0) (new_pool 2%nat 0) = (mkPool true (Some 3000) None 0%nat 3000, inr tt) ∧
  ∃ last, run (connect reluctant po0) (new_pool 7%nat 0) =
    (mkPool false None last 4%nat 3000, inl (failed_to_connect po0 last)).
Proof.
  split.
  - destruct (connect_outcome reluctant po0 (new_pool 2%nat 0) eq_refl) as [(k & w1 & last & w2 & _ & _ & _ & H)|(w & last & Hr & _)].
    + evaluate.
    + exfalso. vm_compute in Hr. discriminate.
  - destruct (connect_outcome reluctant po0 (new_pool 7%nat 0) eq_refl) as [(k & w1 & last & w2 & Hk & _ & _ & H)|(w & last & _ & H)].
    + exfalso. vm_compute in H. discriminate.
    + exists (Some "refused"%string). evaluate.
Defined.
(** A Redis that makes a client and refuses its connection. *)
Definition no_server : Ioredis string () := {|
  io_new := λ _ _ w, (w, inr "client"%string); io_connect := λ _ w, (w, inl (JsError "ECONNREFUSED"));
  io_ping := λ _, None; io_setHealth := λ _, None; io_disconnect := λ _, None; io_status := λ _ _, "end"%string; io_now := λ _, 0 |}.
Definition eo0 : EnhancedRedisManagerOptions := mkEnhancedRedisManagerOptions (Some "redis://r"%string) None None None None None None.
Notation first_connect := (redis_connect no_server eo0).
Definition m0 : RedisManager string () := new_manager tt.
Lemma failed_connect_never_retried_witness :
  (run first_connect m0).2 = inl (JsError "ECONNREFUSED") ∧
  (run first_connect (run first_connect m0).1).2 = inr tt ∧ connectedClient (run first_connect m0).1 = None.
Proof.
  split; [evaluate|].
  destruct (failed_connect_never_retried no_server eo0 m0 (run first_connect m0).1 "client" (JsError "ECONNREFUSED")) as (H1 & _ & H2);
    [evaluate..|]. split; [by rewrite H2|exact H1].
Defined.

(** ** Slow queries *)
Definition query (ms : Z) : QueryEntry := mkQueryEntry "db.users" "find" [] ms 0 0 [].
Definition recorded : list (QueryEntry * Z) := [(query 50, 1); (query 150, 2); (query 250, 3); (query 350, 4)].
Lemma slow_log_is_a_window_witness :
  map (λ s, qe_durationMs (sq_entry s)) (slowQueries (record_all recorded (new_optimizer None (Some 2%Z) None))) = [250; 350] ∧
  (length (slowQueries (record_all recorded (new_optimizer None (Some 2%Z) None))) <= 2)%nat.
Proof.
  destruct (slow_log_is_a_window None (Some 2%Z) None recorded) as (_ & H & _); [vm_compute; discriminate|].
  split; [evaluate|]. change (nullish (Some 2%Z) 1000) with 2%Z in H. lia.
Defined.

(** ** Secrets *)
Definition vt0 : VaultSecretProvider := mkVaultSecretProvider "https://vault" "secret/team" 2 None None.
Definition with_token : SecretState nat := mkSecretState (Some (JStr "t")) 0%nat.
Definition expired : Request → nat → nat * (exn + Answer) := λ _ n, (S n, inr (mkAnswer 403 (inr JNull))).
Lemma vault_name_leaves_mount_witness :
  rq_url (read_request vt0 (Some (JStr "t")) (climb 3 "sys/mounts")) = "https://vault/v1/secret/team/data/../../../sys/mounts"%string ∧
  ∃ path, resolve [] (split_slash path) = ["sys"; "mounts"]%string.
Proof.
  split; [evaluate|]. destruct (vault_name_leaves_mount expired vt0 "sys/mounts" with_token) as (_ & path & _ & H).
  - evaluate.
  - evaluate.
  - repeat constructor; discriminate.
  - exists path. rewrite H. evaluate.
Defined.
Lemma vault_token_never_renewed_witness :
  (run (all_reads expired vt0 ["a"; "b"]%string) with_token).2 =
  inr (map (λ _, inl (JsError "Vault read failed (403)")) ["a"; "b"]%string).
Proof.
  destruct (vault_token_never_renewed expired vt0 (JStr "t") ["a"; "b"]%string with_token) as (s' & H & _).
  - done.
  - done.
  - repeat constructor; evaluate.
  - intros name w. by exists (S w), (inr JNull).
  - rewrite H. reflexivity.
Defined.

(** ** Plugins *)
Definition plugin : PluginManifest := mkPluginManifest "audit" "1.0.0" "audit-plugin" None.
Definition entries_of : string → list (string * option nat) := λ _, [("login", Some 7%nat); ("label", None)]%string.
Notation loading := (Infrastructure.load (λ u (w : ()), (w, inr u)) (λ s, s) entries_of (λ _, None) false plugin).
Definition loaded_manager : Manager (W := ()) (H := nat) (Mod := string) := (run loading (mkManager [] [] [] [] tt)).1.
Lemma disabled_plugins_run_witness :
  handlers_of "login" (hooks (disable "audit" loaded_manager).1) = [7%nat] ∧
  handlers_of "login" (hooks (toggled entries_of 2 "audit" loaded_manager)) = [7; 7; 7]%nat.
Proof.
  destruct (disabled_plugins_run entries_of (λ _ _ (w : ()), (w, inr tt)) "audit" 2 loaded_manager
    (mkPluginStatus plugin (Some "audit-plugin"%string) None Active None) (mkLoadedPlugin plugin "audit-plugin"%string None)) as (_ & H1 & _ & H2);
    [evaluate..|]. split; [rewrite H1; evaluate|rewrite H2; evaluate].
Defined.

(** ** Hybrids *)
Definition calm : world toy_platform := empty_world 0 true.
Definition toy_kem : Kem := mkKem (λ _ _, (zeros 1184, zeros 2400)) (λ _ _ _, inr (zeros 1088, "kem"%string)) (λ _ _, inr "kem"%string).
Definition toy_signer : SignatureScheme := mkSignatureScheme (λ _ _, (zeros 1952, zeros 4032)) (λ _ _ _, inr (zeros 3309)) (λ _ _ _, inr true).
Definition toy_classical : Classical :=
  mkClassical (λ i, (js_String (Z.of_nat i), js_String (Z.of_nat i))) (λ _ _, inr "dh"%string) (λ _ _, ("public", "private")%string)
    (λ _ _ _, inr "signature"%string) (λ _ _ s, inr (String.eqb s "signature")).
Definition toy_hkdf : string → string → string → nat → string := λ secret _ _ _, secret.
Notation kem_pair := (hybrid_keygen (P := toy_platform) toy_classical (λ _, toy_kem) (λ _, toy_signer) x25519_kyber768).
Definition pair0 : HybridKeyPair := mkHybridKeyPair x25519_kyber768 "0" "0" (zeros 1184) (zeros 2400).
Notation to_pair0 := (hybrid_encapsulate (P := toy_platform) toy_classical (λ _, toy_kem) toy_hkdf x25519_kyber768 pair0).
Lemma hybrid_secrets_agree_witness :
  hybrid_decapsulate toy_classical (λ _, toy_kem) toy_hkdf x25519_kyber768 (mkHybridEncapsulation "0" (zeros 1088) "dhkem") pair0 = inr "dhkem"%string.
Proof.
  apply (hybrid_secrets_agree (P := toy_platform) toy_classical (λ _, toy_kem) (λ _, toy_signer) toy_hkdf x25519_kyber768 calm
    (world_of kem_pair calm) calm (world_of to_pair0 calm) pair0 (mkHybridEncapsulation "0" (zeros 1088) "dhkem")).
  - by intros seed i rand j ct ss [= <- <-].
  - by intros i j.
  - by intros; vm_compute.
  - by intros pub rand j ct ss [= <- <-].
  - apply (run_split kem_pair calm (inr pair0)). evaluate.
  - apply (run_split to_pair0 calm (inr (mkHybridEncapsulation "0" (zeros 1088) "dhkem"))). evaluate.
Defined.
Notation sign_pair := (hybrid_keygen (P := toy_platform) toy_classical (λ _, toy_kem) (λ _, toy_signer) ecdsa_dilithium3).
Definition pair1 : HybridKeyPair := mkHybridKeyPair ecdsa_dilithium3 "public" "private" (zeros 1952) (zeros 4032).
Definition signature1 : HybridSignature := mkHybridSignature "signature" (zeros 3309) ecdsa_dilithium3.
Notation signing1 := (hybrid_sign (P := toy_platform) toy_classical (λ _, toy_signer) ecdsa_dilithium3 "hello" pair1).
Lemma hybrid_signatures_verify_witness :
  hybrid_verify toy_classical (λ _, toy_signer) ecdsa_dilithium3 "hello" signature1 pair1 = true ∧
  hybrid_verify toy_classical (λ _, toy_signer) ecdsa_dilithium3 "hello" (mkHybridSignature "forged" (zeros 3309) ecdsa_dilithium3) pair1 ≠ true.
Proof.
  destruct (hybrid_signatures_verify (P := toy_platform) toy_classical (λ _, toy_kem) (λ _, toy_signer) ecdsa_dilithium3 "hello" "hello" calm
    (world_of sign_pair calm) calm (world_of signing1 calm) pair1 pair1 signature1
    (mkHybridSignature "forged" (zeros 3309) ecdsa_dilithium3)) as [H1 H2].
  - intros m i j message sig [= <-]. done.
  - by intros seed i message entropy sig [= <-].
  - by intros; vm_compute.
  - by intros m sk r sig [= <-].
  - apply (run_split sign_pair calm (inr pair1)). evaluate.
  - apply (run_split signing1 calm (inr signature1)). evaluate.
  - split; [exact H1|]. intros H. apply H2 in H as (_ & H & _). discriminate.
Defined.

(** ** Hardware and certificates *)
(** A module whose [finalize] fails. *)
Definition stuck : Pkcs11Provider nat :=
  mkPkcs11Provider (λ _ n, (n, inr tt)) (λ n, (n, inl (JsError "CKR_GENERAL_ERROR"))) (λ _ _ n, (n, inr (mkHsmSession 1 false)))
    (λ _ n, (n, inr tt)) (λ _ _ n, (n, inr tt)) (λ _ _ n, (n, inr None)) (λ _ _ _ m n, (n, inr (mkPkcs11SignResult "" m "")))
    (λ _ _ d m iv n, (n, inr (mkPkcs11EncryptResult d iv m))) (λ _ _ d _ _ n, (n, inr d)) (λ _ _ n, (n, inr ""%string)).
Definition pkcs0 : Pkcs11Config := mkPkcs11Config "/lib/pkcs11.so" None "1234" None None.
Definition ready : Pkcs11Manager nat := mkPkcs11Manager true (Some (mkHsmSession 1 false)) 0%nat.
Definition wedged : Pkcs11Manager nat := mkPkcs11Manager true None 0%nat.
Lemma failed_finalize_wedges_witness :
  run (shutdown stuck) ready = (wedged, inl (JsError "CKR_GENERAL_ERROR")) ∧
  run (initialize stuck pkcs0) wedged = (wedged, inr tt) ∧ run (findKey stuck "k") wedged = (wedged, inl NOT_INITIALIZED).
Proof.
  destruct (failed_finalize_wedges stuck pkcs0 ready wedged (JsError "CKR_GENERAL_ERROR") [Initialize; Hsm.Random 8]) as (_ & H1 & H2).
  - evaluate.
  - done.
  - done.
  - by repeat constructor.
  - split; [evaluate|]. split; [exact H1|evaluate].
Defined.

Definition strict : CertificateService (P := toy_platform) :=
  new_certificate_service (mkCertificateConfig (Some ["our CA"]%string) None None None None None) None.
Notation anything := (verify_certificate strict (mkPresentedCertificate (Some ["not a certificate"; "nor this"]%string) None)).
Lemma certificates_unexamined_witness :
  ∃ w' r, run anything calm = (w', inr r) ∧ cv_verified r = true.
Proof.
  destruct (certificates_unexamined strict (mkPresentedCertificate (Some ["not a certificate"; "nor this"]%string) None) calm) as (w' & r & H & Hv & _).
  - done.
  - done.
  - exists w', r. split; [exact H|exact Hv].
Defined.
